(* ===== verification/_CoqProject ===== *)
-Q . S2P
Prelude.v
Spinlock.v
FsBase.v
Bcache.v
Balloc.v
Bmap.v
Inode.v
Dir.v
Icache.v
Path.v
Namei.v
FsTest.v
Kalloc.v
Vm.v
PageTable.v
UserMem.v
Space.v
Kvm.v
Argv.v
Ring.v
Kernel.v
Sched.v
Pipe.v
Console.v
Uart.v
File.v
Wakeup.v
Proc.v
ProcMem.v
Exec.v
Syscall.v
ExecArgs.v
Descr.v
Exit.v
Fork.v
Loader.v
Sbrk.v
Lifecycle.v
ExecSpec.v
Isolation.v
Trap.v
TrapSpec.v
Asm.v
Ecall.v
Boot.v
Ualloc.v
Shell.v
Ulib.v
Stdio.v
Tools.v
Uargs.v
Ls.v
ShellRun.v
Jobs.v
JobsKernel.v
