(* ===== verification/Prelude.v ===== *)
(** * toy-os-riscv: a verification library for the kernel and its user programs

    toy-os-riscv is a small xv6-like system for a single RISC-V hart: physical
    pages and Sv39 page tables, processes that sleep and wake, traps and system
    calls, a RAM-disk file system behind a buffer cache and an inode cache, pipes,
    a console, a table of open files shared by all processes, an ELF loader, and
    on top of them a user library with a heap, a shell and a few programs.  This
    library translates the code into executable Gallina and proves what each part
    promises to the parts that call it, up to the boundary between a user program
    and the kernel.

    ** How the code is modelled

    Code that threads state or can stop the machine is a function of the monad
    [M St] of this file: explicit state passing with faults.  A fault is a
    [panic!] (also the implicit ones of the debug profile the Makefile builds the
    kernel in: arithmetic overflow, index out of range, failed [expect]) or a lock
    on which the single hart would spin forever.  [option] and tuple results model
    [Option] and [&mut] arguments.  Integers are [Z] with the width of the source
    and checked or wrapping operations as in the source (the user crate is built
    in the release profile, where sums wrap); bytes are [Z] below 256; memory and
    disk are byte lists, and [repr(C)] structures are encoded to their bytes.
    [wp m s Q] says that [m], started in [s], ends without a fault and within its
    fuel in a result and state satisfying [Q]; every specification is total in
    this sense.

    The kernel never blocks in the middle of a Gallina function.  Code that calls
    [sched] is split there: what runs before the switch, and what runs when the
    process is dispatched again ([Sched], [Pipe], [Console], [Proc], [Syscall],
    [Trap]).  System calls run with interrupts off, so what lies between two
    switches is atomic and only the order of such segments varies; the one place
    where a process runs kernel code with interrupts on, the end of [forkret], has
    the interrupts that arrive there as an argument.  User programs are
    interaction trees over their system calls ([Ulib]); assembly is a list of
    instructions run on a core with registers and memory ([Asm]).

    ** The files and the parts of the program

    - [Prelude] (this file): machine integers, the monad, its loops and rules,
      the tactics [wp_step], [wp_steps] and [wp_call], byte lists and slices.
    - [Spinlock] (src/src/spinlock.rs, cpu.rs): the class [Locks], the interface
      every other component uses, is the list of locks the hart holds.
      [Module Hart] is the code over [sstatus], the per-hart record and the lock
      words; [Module Refine] proves that it implements the interface.
    - [FsBase], [Bcache], [Balloc], [Bmap], [Inode], [Dir], [Icache], [Path],
      [Namei], [FsTest] (src/src/fs.rs): layout and encodings; buffer cache; block bitmap
      and inode table; block mapping; file contents; directories; inode cache,
      creation and the interface of the file layer; path resolution and what a
      path names; the kernel's own self test, run on the model.
    - [Kalloc], [Vm], [PageTable], [UserMem], [Space], [Kvm] (src/src/kalloc.rs,
      memlayout.rs, vm.rs): the page allocator as a list threaded through the free
      pages themselves; page-table entries, walks, mappings and address spaces
      (the code of vm.rs is in [Vm]); the page-table tree as owned pages and a
      finite map of leaves; user memory as the bytes reachable through user
      leaves; the creation, copying and destruction of an address space; the
      kernel page table.  The addresses the linker script provides are parameters.
    - [Ring], [Kernel]: counters modulo the size of an array; the statics of the
      kernel as one record, with [in_fs] and [in_ram] to run the operations of the
      file system and of memory on it.
    - [Sched], [Pipe], [Console], [Uart], [File] (src/src/proc.rs, pipe.rs,
      console.rs, uart.rs, file.rs): sleeping and scheduling, pipes, cooked input,
      the driver of the serial device, open files.
    - [Wakeup]: processes, scheduler and console interrupts as a transition system
      over the segments of the calls that sleep.
    - [Proc], [ProcMem], [Argv], [Exec], [Loader], [ExecArgs], [ExecSpec]
      (src/src/proc.rs, loader.rs, syscall.rs): process slots and the pages they
      own, [fork], [exit] and [wait]; program loading and [exec]; the image an ELF
      file describes and the proof that the loader builds it; the arguments a new
      program finds on its stack; the effect of [exec] on every branch.
    - [Syscall], [Descr], [Exit], [Fork], [Sbrk] (src/src/syscall.rs, proc.rs,
      file.rs): the dispatch and every call; descriptor tables with the references
      they hold; the effect of [exit], [fork] and [sbrk].
    - [Lifecycle], [Isolation]: the memory of all processes together, and the
      transition system of the calls that create and end processes or change their
      memory.
    - [Trap], [TrapSpec], [Asm], [Ecall], [Boot] (src/src/trap.rs, timer.rs,
      plic.rs, asm/*.S, main.rs, console.rs): the handlers; what they do to a user
      program; the trampoline, the context switch, the kernel trap entry and the
      first instructions; a system call instruction by instruction; [kmain] and
      the panic handler.
    - [Ualloc] (src/user/src/allocator.rs): the heap of user programs, over words
      of memory that [sbrk] provides.
    - [Ulib], [Stdio], [Tools], [Uargs], [Ls] (src/user/src/lib.rs and
      src/user/src/bin): the library and cat, wc, echo, mkdir, clear and ls.
    - [Shell], [ShellRun], [Jobs], [JobsKernel] (src/user/src/bin/sh.rs, init.rs):
      the parser; pipelines, redirections and the main loop; what a job does to
      descriptor tables and processes, against the interfaces [Fds] and [Procs];
      the first implemented by the kernel's own calls.

    ** What the theorems show

    - The file system: the cache is transparent for the disk ([bread_coherent]); a
      mapped file is a byte list that reads take slices of and writes overwrite
      ([readi_refines], [writei_refines]), and files that share no block do not
      disturb each other; a directory is a map from names to inode numbers
      ([link_then_lookup], [dirlink_refuses]); a path names the inode
      its components lead to in the directories on the disk ([namei_resolves]); the
      inode cache and the file table are
      multisets of references ([inode_refs_refine], [file_table_refines]).
    - Memory: the allocator is a stack of distinct pages
      ([allocator_refines_stack]); the copies to and from user memory touch only
      what user code may touch ([copyout_confined]); the kernel
      page table is an identity map without a page that is both writable and
      executable ([kernel_page_table]).
    - Processes: along every run of fork, exec, exit, wait, sbrk and context
      switches no page has two owners, none is lost, and a step of one process
      leaves the pages of the others as they are ([processes_isolated],
      [pages_conserved]), up to the first of the three outcomes of [mishap]: [wait]
      with a bad address for the status, which keeps [WAIT_LOCK], [sbrk] that
      takes the last page half way, and [exec] of a file without the layout the
      loader assumes ([program_ok]), after each of which the kernel can panic;
      [fork_clones], [exec_replaces], [wait_reaps],
      [exit_leaves_zombie] and [sys_sbrk_bounds] say what each call does on every
      branch.
    - Waiting: no wakeup is lost, pipes are queues and no reachable state faults
      ([no_lost_wakeup], [pipe_fifo], [system_progress]), by induction over runs,
      as long as the 64-bit byte counters have room.
    - The boundary: a program comes back from a system call, a timer interrupt or
      a fork with the registers it must find, down to the instructions of the
      trampoline ([ecall_returns], [forked_child_runs], [preemption_transparent],
      [swtch_resumes]); a faulting program dies alone ([user_fault_kills]); an
      interrupt of the kernel that does not switch is served and returns where it
      came from ([kernel_interrupt_transparent]); boot turns paging on
      ([boot_turns_paging_on]).  A timer interrupt at the end of [forkret] loses the
      program counter ([kernel_preempted_forgets]); [forked_child_runs] assumes
      that none arrives there.
    - User programs: the heap is a store of disjoint blocks ([ualloc_refines]); a
      printed job parses to itself ([parse_print_line]); arguments passed to
      [exec] are what [echo] prints ([exec_echo]); [wc] counts; the processes of a
      pipeline get the pipe ends they need and no others, and the shell keeps its
      descriptor table ([pipeline_wiring], [kernel_wires_child],
      [jobs_leave_shell]).

    ** Bounds and fuel

    Loops whose length the source leaves implicit run with fuel, and running out
    of it is a fault, so the total specifications show that the fuel is enough.
    It is one more than the number of steps: the blocks of the largest file
    ([blocks_fuel]), the entries of a directory ([dir_fuel]), the length of a path
    ([path_fuel]), the bytes left to copy, the pages of a mapping or of a segment,
    the bytes of the BSS, the levels of a page table.  [kvmmake] is shown to need
    73 pages at most: the root, its second level and the leaf tables of 128 MiB of
    memory and of the devices; [exec] fails for want of memory only when fewer
    pages are free than the image has, its tables included, and five more
    ([pages_needed]), [sbrk] only when no more are free than the new pages and
    their tables can take ([grow_needs]).  The list of free blocks of the user heap has at
    most as many nodes as the heap has words.  Programs of interaction trees have
    no fuel; [runs] is their total correctness.

    ** What is not modelled

    The fetch of instructions, the [ecall] and [sret] instructions and the TLB;
    the trap is entered at the first instruction of the trampoline with the
    registers the privileged architecture sets.  The serial device, the timer
    and the interrupt controller are given by their documented registers.
    Formatted printing is reduced to the bytes that are printed.  The ELF image
    of init, the images of the programs and the text file of the disk are parameters;
    after paging is on, boot is run on examples and not specified.  The step of
    [exec] in runs of several processes starts after the path has been resolved
    and the arguments have been copied in, which have their own theorems.  A
    user-level allocation that fails inside the wrappers of the system calls is
    not modelled, nor are the four test programs of src/user/src/bin. *)

From Stdlib Require Export ZArith Lia.
From stdpp Require Export base option numbers strings gmap.
From stdpp Require Export list list_basics list_relations list_monad list_misc.

Set Default Goal Selector "!".

(** ** Machine integers

    Integers are kept as [Z] together with the width the source gives them;
    these abbreviations only document the width. *)

Abbreviation u8 := Z (only parsing).
Abbreviation u16 := Z (only parsing).
Abbreviation i16 := Z (only parsing).
Abbreviation i32 := Z (only parsing).
Abbreviation u32 := Z (only parsing).
Abbreviation u64 := Z (only parsing).
Abbreviation usize := Z (only parsing).
Abbreviation isize := Z (only parsing).

#[global] Open Scope Z_scope.

Definition U16_MAX : Z := 65535.
Definition U32_MAX : Z := 4294967295.
Definition USIZE_MAX : Z := 18446744073709551615.
Definition ISIZE_MAX : Z := 9223372036854775807.

(** Truncating casts [as u16], [as u32]. *)
Definition as_u16 (z : Z) : u16 := z mod 2 ^ 16.
Definition as_u32 (z : Z) : u32 := z mod 2 ^ 32.

(** Value of a [w]-bit pattern read as a two's complement number. *)
Definition to_signed (w z : Z) : Z :=
  if z <? 2 ^ (w - 1) then z else z - 2 ^ w.

(** [as isize] of a [usize]. *)
Definition as_isize (z : Z) : isize := to_signed 64 z.

(** Bytes of an ASCII string literal ([b"..."]). *)
Definition bytes_of_string (s : string) : list u8 :=
  (λ c, Z.of_nat (Ascii.nat_of_ascii c)) <$> String.list_ascii_of_string s.

(** ** Faults and the kernel monad

    Kernel code threads a state and may stop the machine: by a [panic!] (also
    the implicit ones: arithmetic overflow, index out of bounds and a failed
    [expect]/[unwrap] in the debug profile the Makefile builds) or by spinning
    forever on a lock that the single hart already holds.  [OutOfFuel] marks a
    bounded loop of the model that ran out of iterations; the specifications
    below are total, so they show that it never happens. *)

Inductive fault :=
| Panic (msg : string)
| Deadlock (who : string)
| OutOfFuel.

Inductive outcome (A : Type) :=
| Ok (a : A)
| Fault (f : fault).
Arguments Ok {A} a.
Arguments Fault {A} f.

Definition M (St A : Type) : Type := St → outcome (A * St).

#[global] Instance M_ret {St} : MRet (M St) := λ A a s, Ok (a, s).
#[global] Instance M_bind {St} : MBind (M St) := λ A B f m s,
  match m s with
  | Ok (a, s') => f a s'
  | Fault e => Fault e
  end.

Definition raise {St A} (e : fault) : M St A := λ _, Fault e.
Definition panic {St A} (msg : string) : M St A := raise (Panic msg).
Definition gets {St A} (f : St → A) : M St A := λ s, Ok (f s, s).
Definition modify {St} (f : St → St) : M St unit := λ s, Ok (tt, f s).

(** [assert!(b, msg)] *)
Definition assert {St} (b : bool) (msg : string) : M St unit :=
  if b then mret tt else panic msg.

(** [o.expect(msg)] *)
Definition expect {St A} (o : option A) (msg : string) : M St A :=
  match o with Some a => mret a | None => panic msg end.

(** Overflow-checked arithmetic at a given width (debug profile). *)
Definition checked (max z : Z) : option Z :=
  if (0 <=? z) && (z <=? max) then Some z else None.

Definition add_at {St} (max a b : Z) : M St Z :=
  expect (checked max (a + b)) "attempt to add with overflow".
Definition sub_at {St} (max a b : Z) : M St Z :=
  expect (checked max (a - b)) "attempt to subtract with overflow".
Definition mul_at {St} (max a b : Z) : M St Z :=
  expect (checked max (a * b)) "attempt to multiply with overflow".

(** Array and slice accesses, with the bounds check of the source language. *)
Definition aget {St A} (l : list A) (i : Z) : M St A :=
  if 0 <=? i then expect (l !! Z.to_nat i) "index out of bounds"
  else panic "index out of bounds".

Definition slice {A} (off n : nat) (l : list A) : list A := take n (drop off l).

Definition splice {A} (off : nat) (new l : list A) : list A :=
  take off l ++ new ++ drop (off + length new) l.

(** [&l[off..off + n]] *)
Definition subslice {St A} (l : list A) (off n : Z) : M St (list A) :=
  if (0 <=? off) && (0 <=? n) && (off + n <=? Z.of_nat (length l))
  then mret (slice (Z.to_nat off) (Z.to_nat n) l)
  else panic "range end index out of range for slice".

(** [l[off..off + new.len()].copy_from_slice(new)] *)
Definition copy_into {St A} (l : list A) (off : Z) (new : list A) : M St (list A) :=
  if (0 <=? off) && (off + Z.of_nat (length new) <=? Z.of_nat (length l))
  then mret (splice (Z.to_nat off) new l)
  else panic "range end index out of range for slice".

(** ** Loops

    A loop body either continues with a new loop state ([inl]) or leaves the
    loop with a value ([inr]).  [while_fuel] runs a [while]/[loop]; [for_each]
    runs a [for] over the listed values. *)

Fixpoint while_fuel {St A B} (fuel : nat) (body : A → M St (A + B)) (a : A) : M St B :=
  match fuel with
  | O => raise OutOfFuel
  | S fuel' =>
      r ← body a;
      match r with
      | inl a' => while_fuel fuel' body a'
      | inr b => mret b
      end
  end.

Fixpoint for_each {St X A B} (xs : list X) (body : X → A → M St (A + B)) (a : A) :
  M St (A + B) :=
  match xs with
  | [] => mret (inl a)
  | x :: xs' =>
      r ← body x a;
      match r with
      | inl a' => for_each xs' body a'
      | inr b => mret (inr b)
      end
  end.

(** A [for] loop without early exit. *)
Fixpoint for_fold {St X A} (xs : list X) (body : X → A → M St A) (a : A) : M St A :=
  match xs with
  | [] => mret a
  | x :: xs' => a' ← body x a; for_fold xs' body a'
  end.

(** The range [lo..hi] of a [for] loop. *)
Definition range (lo hi : Z) : list Z := seqZ lo (hi - lo).

(** ** Total weakest preconditions

    [wp m s Q]: started in [s], [m] ends without a fault in a result and state
    satisfying [Q].  In particular it terminates within its fuel. *)

Definition wp {St A} (m : M St A) (s : St) (Q : A → St → Prop) : Prop :=
  match m s with
  | Ok (a, s') => Q a s'
  | Fault _ => False
  end.

Section wp_rules.
Context {St : Type}.
Implicit Types s : St.

Lemma wp_ret {A} (a : A) s (Q : A → St → Prop) : Q a s → wp (mret a) s Q.
Proof. done. Qed.

Lemma wp_bind {A B} (m : M St A) (f : A → M St B) s Q :
  wp m s (λ a s', wp (f a) s' Q) → wp (m ≫= f) s Q.
Proof.
  unfold wp, mbind, M_bind. destruct (m s) as [[a s']|]; done.
Qed.

(** The other way: what a run that ended satisfies. *)
Lemma wp_run {A} (m : M St A) s (Q : A → St → Prop) a s' : wp m s Q → m s = Ok (a, s') → Q a s'.
Proof. unfold wp. intros H E. by rewrite E in H. Qed.

Lemma wp_mono {A} (m : M St A) s (P Q : A → St → Prop) :
  wp m s P → (∀ a s', P a s' → Q a s') → wp m s Q.
Proof. unfold wp. destruct (m s) as [[a s']|]; naive_solver. Qed.

Lemma wp_gets {A} (f : St → A) s Q : Q (f s) s → wp (gets f) s Q.
Proof. done. Qed.

Lemma wp_modify (f : St → St) s Q : Q tt (f s) → wp (modify f) s Q.
Proof. done. Qed.

Lemma wp_assert b msg s Q : b = true → Q tt s → wp (assert b msg) s Q.
Proof. by intros ->. Qed.

Lemma wp_expect {A} (o : option A) msg a s (Q : A → St → Prop) :
  o = Some a → Q a s → wp (expect o msg) s Q.
Proof. by intros ->. Qed.

Lemma checked_Some max z : 0 ≤ z ≤ max → checked max z = Some z.
Proof. intros ?. unfold checked. by rewrite (proj2 (Z.leb_le _ _)), (proj2 (Z.leb_le _ _)) by lia. Qed.

Lemma checked_range max z a : checked max z = Some a → a = z ∧ 0 ≤ z ≤ max.
Proof.
  unfold checked. destruct (Z.leb_spec 0 z), (Z.leb_spec z max); cbn [andb]; intros [= <-]; lia.
Qed.

Lemma checked_None max z : checked max z = None → z < 0 ∨ max < z.
Proof. unfold checked. destruct (Z.leb_spec 0 z), (Z.leb_spec z max); cbn [andb]; intros [=]; lia. Qed.

Lemma wp_add_at max a b s Q : 0 ≤ a + b ≤ max → Q (a + b) s → wp (add_at max a b) s Q.
Proof. intros ??. eapply wp_expect; [by apply checked_Some|done]. Qed.

Lemma wp_sub_at max a b s Q : 0 ≤ a - b ≤ max → Q (a - b) s → wp (sub_at max a b) s Q.
Proof. intros ??. eapply wp_expect; [by apply checked_Some|done]. Qed.

Lemma wp_mul_at max a b s Q : 0 ≤ a * b ≤ max → Q (a * b) s → wp (mul_at max a b) s Q.
Proof. intros ??. eapply wp_expect; [by apply checked_Some|done]. Qed.

Lemma wp_aget {A} (l : list A) i x s (Q : A → St → Prop) :
  0 ≤ i → l !! Z.to_nat i = Some x → Q x s → wp (aget l i) s Q.
Proof.
  intros Hi Hl HQ. unfold aget. rewrite (proj2 (Z.leb_le _ _)) by lia.
  by eapply wp_expect.
Qed.

Lemma wp_subslice {A} (l : list A) off n s (Q : list A → St → Prop) :
  0 ≤ off → 0 ≤ n → off + n ≤ Z.of_nat (length l) →
  Q (slice (Z.to_nat off) (Z.to_nat n) l) s → wp (subslice l off n) s Q.
Proof.
  intros ????. unfold subslice.
  by rewrite !(proj2 (Z.leb_le _ _)) by lia.
Qed.

Lemma wp_copy_into {A} (l : list A) off new s (Q : list A → St → Prop) :
  0 ≤ off → off + Z.of_nat (length new) ≤ Z.of_nat (length l) →
  Q (splice (Z.to_nat off) new l) s → wp (copy_into l off new) s Q.
Proof.
  intros ???. unfold copy_into.
  by rewrite !(proj2 (Z.leb_le _ _)) by lia.
Qed.

(** Loop rule: an invariant and a measure below the fuel. *)
Lemma wp_while {A B} (I : A → St → Prop) (meas : A → nat) (body : A → M St (A + B))
    (Q : B → St → Prop) :
  (∀ a s, I a s → wp (body a) s (λ r s',
     match r with
     | inl a' => I a' s' ∧ (meas a' < meas a)%nat
     | inr b => Q b s'
     end)) →
  ∀ fuel a s, I a s → (meas a < fuel)%nat → wp (while_fuel fuel body a) s Q.
Proof.
  intros Hbody fuel. induction fuel as [|fuel IH]; intros a s HI Hf; [lia|].
  simpl. eapply wp_bind, wp_mono; [by apply Hbody|].
  intros [a'|b] s'; simpl; [|done].
  intros [??]. apply IH; [done|lia].
Qed.

(** The same with a ghost bound on the number of iterations left. *)
Lemma wp_while_bound {A B} (I : nat → A → St → Prop) (body : A → M St (A + B)) (Q : B → St → Prop) n fuel a s :
  (∀ n a s, I n a s →
     wp (body a) s (λ r s',
       match r with
       | inl a' => ∃ n', (n' < n)%nat ∧ I n' a' s'
       | inr b => Q b s'
       end)) →
  I n a s → (n < fuel)%nat → wp (while_fuel fuel body a) s Q.
Proof.
  intros Hbody. revert n a s. induction fuel as [|fuel IH]; intros n a s HI Hf; [lia|]. simpl.
  eapply wp_bind, wp_mono; [by eapply Hbody|]. intros [a'|b] s'; [|done].
  intros (n' & Hn & HI'). by apply (IH n'); [|lia].
Qed.

(** [for] rule: the invariant ranges over the values already visited. *)
Lemma wp_for_each {X A B} (I : list X → A → St → Prop) (xs : list X)
    (body : X → A → M St (A + B)) (Q : A + B → St → Prop) a s :
  I [] a s →
  (∀ pre x post a s, xs = pre ++ x :: post → I pre a s →
     wp (body x a) s (λ r s',
       match r with
       | inl a' => I (pre ++ [x]) a' s'
       | inr b => Q (inr b) s'
       end)) →
  (∀ a s, I xs a s → Q (inl a) s) →
  wp (for_each xs body a) s Q.
Proof.
  intros HI Hbody Hend.
  assert (∀ post pre a s, xs = pre ++ post → I pre a s →
            wp (for_each post body a) s Q) as Hgen; [|by apply (Hgen xs [])].
  intros post. induction post as [|x post IH]; intros pre a' s' -> HI'; simpl.
  - apply Hend. by rewrite app_nil_r.
  - eapply wp_bind, wp_mono; [by eapply Hbody|].
    intros [a''|b] s''; simpl; [|done].
    intros HI''. apply (IH (pre ++ [x])); [|done]. by rewrite <-app_assoc.
Qed.

(** Unrolling a [for] over a literal list. *)
Lemma wp_for_each_cons {X A B} x (xs : list X) (body : X → A → M St (A + B)) (Q : A + B → St → Prop) a s :
  wp (body x a) s (λ r s',
    match r with inl a' => wp (for_each xs body a') s' Q | inr b => Q (inr b) s' end) →
  wp (for_each (x :: xs) body a) s Q.
Proof. intros Hw. eapply wp_bind, wp_mono; [exact Hw|]. by intros [a'|b] s'. Qed.

Lemma wp_for_fold {X A} (I : list X → A → St → Prop) (xs : list X)
    (body : X → A → M St A) (Q : A → St → Prop) a s :
  I [] a s →
  (∀ pre x post a s, xs = pre ++ x :: post → I pre a s →
     wp (body x a) s (λ a' s', I (pre ++ [x]) a' s')) →
  (∀ a s, I xs a s → Q a s) →
  wp (for_fold xs body a) s Q.
Proof.
  intros HI Hbody Hend.
  assert (∀ post pre a s, xs = pre ++ post → I pre a s →
            wp (for_fold post body a) s Q) as Hgen; [|by apply (Hgen xs [])].
  intros post. induction post as [|x post IH]; intros pre a' s' -> HI'; simpl.
  - apply Hend. by rewrite app_nil_r.
  - eapply wp_bind, wp_mono; [by eapply Hbody|].
    intros a'' s'' HI''. apply (IH (pre ++ [x])); [|done]. by rewrite <-app_assoc.
Qed.

(** Loops over [lo..hi]: the invariant ranges over the next index. *)
Lemma wp_for_range {A} (I : Z → A → St → Prop) (lo hi : Z) (body : Z → A → M St A)
    (Q : A → St → Prop) a s :
  lo ≤ hi → I lo a s →
  (∀ i a s, lo ≤ i < hi → I i a s → wp (body i a) s (λ a' s', I (i + 1) a' s')) →
  (∀ a s, I hi a s → Q a s) →
  wp (for_fold (range lo hi) body a) s Q.
Proof.
  intros Hle HI Hbody Hend.
  apply (wp_for_fold (λ pre, I (lo + Z.of_nat (length pre)))).
  - by rewrite Z.add_0_r.
  - intros pre x post a' s' Hxs HI'.
    assert (range lo hi !! length pre = Some x) as Hl by (rewrite Hxs; by apply list_lookup_middle).
    apply lookup_seqZ in Hl as [-> Hl]. eapply wp_mono; [apply Hbody; [lia|done]|].
    intros a'' s''. rewrite length_app. simpl. by replace (lo + Z.of_nat (_ + 1))
      with (lo + Z.of_nat (length pre) + 1) by lia.
  - intros a' s'. unfold range. rewrite length_seqZ.
    replace (lo + Z.of_nat (Z.to_nat (hi - lo))) with hi by lia. apply Hend.
Qed.

(** The same with an early exit. *)
Lemma wp_for_each_range {A B} (I : Z → A → St → Prop) (lo hi : Z) (body : Z → A → M St (A + B))
    (Q : A + B → St → Prop) a s :
  lo ≤ hi → I lo a s →
  (∀ i a s, lo ≤ i < hi → I i a s → wp (body i a) s (λ r s',
     match r with inl a' => I (i + 1) a' s' | inr b => Q (inr b) s' end)) →
  (∀ a s, I hi a s → Q (inl a) s) →
  wp (for_each (range lo hi) body a) s Q.
Proof.
  intros Hle HI Hbody Hend.
  apply (wp_for_each (λ pre, I (lo + Z.of_nat (length pre)))).
  - by rewrite Z.add_0_r.
  - intros pre x post a' s' Hxs HI'.
    assert (range lo hi !! length pre = Some x) as Hl by (rewrite Hxs; by apply list_lookup_middle).
    apply lookup_seqZ in Hl as [-> Hl]. eapply wp_mono; [apply Hbody; [lia|done]|].
    intros [a''|b] s''; [|done]. rewrite length_app. simpl. by replace (lo + Z.of_nat (_ + 1))
      with (lo + Z.of_nat (length pre) + 1) by lia.
  - intros a' s'. unfold range. rewrite length_seqZ.
    replace (lo + Z.of_nat (Z.to_nat (hi - lo))) with hi by lia. apply Hend.
Qed.

(** A search: [for] over the indices of a table that leaves at the first entry
    satisfying [P] and has no effect at the others. *)
Lemma wp_scan {X B} (l : list X) (P : X → bool) n (body : nat → unit → M St (unit + B)) s (Q : unit + B → St → Prop) :
  length l = n →
  (∀ i x, l !! i = Some x → P x = false → wp (body i tt) s (λ r s', r = inl tt ∧ s' = s)) →
  (∀ i x, l !! i = Some x → P x = true → (∀ j y, (j < i)%nat → l !! j = Some y → P y = false) →
     wp (body i tt) s (λ r s', match r with inl _ => False | inr b => Q (inr b) s' end)) →
  ((∀ j y, l !! j = Some y → P y = false) → Q (inl tt) s) →
  wp (for_each (seq 0 n) body tt) s Q.
Proof.
  intros <- Hmiss Hhit Hend.
  apply (wp_for_each (λ pre _ s', s' = s ∧ ∀ j y, (j < length pre)%nat → l !! j = Some y → P y = false)).
  - split; [done|]. cbn. lia.
  - intros pre i post [] s' Hpre [-> Hseen].
    assert (seq 0 (length l) !! length pre = Some i) as Hi by (rewrite Hpre; by apply list_lookup_middle).
    apply lookup_seq in Hi as [-> Hi]. destruct (lookup_lt_is_Some_2 l _ Hi) as [x Hx].
    destruct (P x) eqn:HP.
    + eapply wp_mono; [by apply (Hhit _ x)|]. by intros [[]|b] s'.
    + eapply wp_mono; [by apply (Hmiss _ x)|]. intros [[]|b] s' [? ->]; [|done]. split; [done|].
      intros j y Hj Hy. rewrite length_app in Hj. cbn in Hj.
      destruct (decide (j = length pre)) as [->|]; [|by apply (Hseen j); [lia|]].
      change (0 + length pre)%nat with (length pre) in Hx. congruence.
  - intros [] s' [-> Hseen]. apply Hend. intros j y Hy. rewrite length_seq in Hseen.
    apply (Hseen j); [|done]. by eapply lookup_lt_Some.
Qed.

(** Sequences nested to the left. *)
Lemma wp_assoc {A B C} (m : M St A) (f : A → M St B) (g : B → M St C) s Q :
  wp (a ← m; b ← f a; g b) s Q → wp (b ← (a ← m; f a); g b) s Q.
Proof. unfold wp, mbind, M_bind. by destruct (m s) as [[a s']|]. Qed.

Lemma wp_assoc_r {A B C} (m : M St A) (f : A → M St B) (g : B → M St C) s Q :
  wp (b ← (a ← m; f a); g b) s Q → wp (a ← m; b ← f a; g b) s Q.
Proof. unfold wp, mbind, M_bind. by destruct (m s) as [[a s']|]. Qed.

Lemma wp_ok {A} (m : M St A) s Q : wp m s Q ↔ ∃ a s', m s = Ok (a, s') ∧ Q a s'.
Proof.
  unfold wp. split.
  - destruct (m s) as [[a s']|]; [eauto|done].
  - by intros (a & s' & -> & ?).
Qed.
End wp_rules.

Ltac wp_step :=
  lazymatch goal with
  | |- wp (mbind _ _) _ _ => apply wp_bind
  | |- wp (mret _) _ _ => apply wp_ret
  | |- wp (gets _) _ _ => apply wp_gets
  | |- wp (modify _) _ _ => apply wp_modify
  | |- wp (assert _ _) _ _ => apply wp_assert; [try done | ]
  | |- wp (add_at _ _ _) _ _ => apply wp_add_at; [try lia | ]
  | |- wp (sub_at _ _ _) _ _ => apply wp_sub_at; [try lia | ]
  | |- wp (mul_at _ _ _) _ _ => apply wp_mul_at; [try lia | ]
  end; cbn beta.
Ltac wp_steps := repeat wp_step.

(** Run a specified call: [wp_call lemma] applies the call's specification
    under a bind and leaves its side conditions and the continuation. *)
Tactic Notation "wp_call" uconstr(H) :=
  try (lazymatch goal with |- wp (mbind _ _) _ _ => apply wp_bind end); eapply wp_mono; [eapply H | ]; cbn beta.

(** ** Byte lists *)

Definition byte_ok (b : Z) : Prop := 0 ≤ b < 256.
Abbreviation bytes_ok := (Forall byte_ok).

(** Little-endian codecs ([to_ne_bytes]/[from_ne_bytes] and the in-memory form
    of [repr(C)] integers on riscv64). *)
Fixpoint le_bytes (n : nat) (z : Z) : list Z :=
  match n with
  | O => []
  | S n' => (z mod 256) :: le_bytes n' (z / 256)
  end.

Fixpoint le_val (bs : list Z) : Z :=
  match bs with
  | [] => 0
  | b :: bs' => b + 256 * le_val bs'
  end.

Lemma length_le_bytes n z : length (le_bytes n z) = n.
Proof. revert z. induction n as [|n IH]; intros z; simpl; [done|by rewrite IH]. Qed.

Lemma le_bytes_ok n z : bytes_ok (le_bytes n z).
Proof.
  revert z. induction n as [|n IH]; intros z; simpl; constructor; [|done].
  apply Z.mod_pos_bound. lia.
Qed.

Lemma le_val_bytes n z : le_val (le_bytes n z) = z mod 256 ^ Z.of_nat n.
Proof.
  revert z. induction n as [|n IH]; intros z; cbn [le_bytes le_val].
  - by rewrite Z.mod_1_r.
  - rewrite IH, Nat2Z.inj_succ, Z.pow_succ_r by lia.
    rewrite Z.rem_mul_r by lia. done.
Qed.

Lemma le_val_bytes_id n z : 0 ≤ z < 256 ^ Z.of_nat n → le_val (le_bytes n z) = z.
Proof. intros ?. rewrite le_val_bytes. by apply Z.mod_small. Qed.

Lemma le_val_bound bs : bytes_ok bs → 0 ≤ le_val bs < 256 ^ Z.of_nat (length bs).
Proof.
  induction 1 as [|b bs Hb Hbs IH]; cbn [le_val length]; [done|].
  rewrite Nat2Z.inj_succ, Z.pow_succ_r by lia. unfold byte_ok in Hb. lia.
Qed.

Lemma le_bytes_val bs : bytes_ok bs → le_bytes (length bs) (le_val bs) = bs.
Proof.
  induction 1 as [|b bs Hb Hbs IH]; cbn [le_val le_bytes length]; [done|].
  unfold byte_ok in Hb. f_equal.
  - rewrite (Z.mul_comm 256), Z.mod_add by lia. apply Z.mod_small. lia.
  - rewrite (Z.mul_comm 256), Z.div_add by lia. by rewrite (Z.div_small b) by lia.
Qed.

Lemma le_val_inj bs1 bs2 :
  bytes_ok bs1 → bytes_ok bs2 → length bs1 = length bs2 → le_val bs1 = le_val bs2 → bs1 = bs2.
Proof.
  intros H1 H2 Hlen Heq. rewrite <-(le_bytes_val bs1), <-(le_bytes_val bs2) by done. congruence.
Qed.

(** Signed values through their two's complement pattern. *)
Lemma to_signed_wrap w z :
  0 < w → - 2 ^ (w - 1) ≤ z < 2 ^ (w - 1) → to_signed w (z mod 2 ^ w) = z.
Proof.
  intros Hw Hz.
  assert (2 ^ w = 2 * 2 ^ (w - 1)) as Hpow.
  { rewrite <-Z.pow_succ_r by lia. f_equal. lia. }
  assert (0 < 2 ^ (w - 1)) by (apply Z.pow_pos_nonneg; lia).
  unfold to_signed. destruct (Z_lt_ge_dec z 0) as [Hn|Hn].
  - rewrite <-(Z.mod_add z 1), Z.mul_1_l by lia.
    rewrite Z.mod_small by lia. destruct (Z.ltb_spec (z + 2 ^ w) (2 ^ (w - 1))); lia.
  - rewrite Z.mod_small by lia. destruct (Z.ltb_spec z (2 ^ (w - 1))); lia.
Qed.

(** ** Slices and splices *)

Section splice.
Context {A : Type}.
Implicit Types (l new : list A) (off n i : nat).

Lemma length_splice off new l :
  (off + length new ≤ length l)%nat → length (splice off new l) = length l.
Proof. intros ?. unfold splice. rewrite !length_app, length_take, length_drop. lia. Qed.

Lemma length_slice off n l :
  (off + n ≤ length l)%nat → length (slice off n l) = n.
Proof. intros ?. unfold slice. rewrite length_take, length_drop. lia. Qed.

Lemma lookup_slice off n l i :
  (i < n)%nat → slice off n l !! i = l !! (off + i)%nat.
Proof. intros ?. unfold slice. rewrite lookup_take_lt, lookup_drop by lia. done. Qed.

Lemma lookup_splice_in off new l i :
  (off + length new ≤ length l)%nat → (off ≤ i < off + length new)%nat →
  splice off new l !! i = new !! (i - off)%nat.
Proof.
  intros ??. unfold splice.
  rewrite lookup_app_r by (rewrite length_take; lia).
  rewrite lookup_app_l by (rewrite length_take; lia).
  f_equal. rewrite length_take. lia.
Qed.

Lemma lookup_splice_out off new l i :
  (off + length new ≤ length l)%nat → (i < off ∨ off + length new ≤ i)%nat →
  splice off new l !! i = l !! i.
Proof.
  intros ? [?|?]; unfold splice.
  - rewrite lookup_app_l by (rewrite length_take; lia). by rewrite lookup_take_lt.
  - rewrite lookup_app_r by (rewrite length_take; lia).
    rewrite lookup_app_r by (rewrite length_take; lia).
    rewrite lookup_drop, length_take. f_equal. lia.
Qed.

Lemma slice_splice_same off new l :
  (off + length new ≤ length l)%nat → slice off (length new) (splice off new l) = new.
Proof.
  intros ?. apply list_eq_same_length with (length new); [done| |].
  { by rewrite length_slice by (rewrite length_splice; lia). }
  intros i x y Hi. rewrite lookup_slice by done.
  rewrite lookup_splice_in by lia. replace (off + i - off)%nat with i by lia. congruence.
Qed.

Lemma slice_splice_other off new l off' n :
  (off + length new ≤ length l)%nat →
  (off' + n ≤ off ∨ off + length new ≤ off')%nat →
  (off' + n ≤ length l)%nat →
  slice off' n (splice off new l) = slice off' n l.
Proof.
  intros ???. apply list_eq_same_length with n.
  { by rewrite length_slice. }
  { by rewrite length_slice by (rewrite length_splice; lia). }
  intros i x y Hi. rewrite !lookup_slice by done.
  rewrite lookup_splice_out by lia. congruence.
Qed.

Lemma splice_nil off l : splice off [] l = l.
Proof. unfold splice. simpl. by rewrite Nat.add_0_r, take_drop. Qed.

Lemma splice_splice off xs ys l :
  (off ≤ length l)%nat →
  splice (off + length xs) ys (splice off xs l) = splice off (xs ++ ys) l.
Proof.
  intros Hl. unfold splice. rewrite length_app.
  rewrite (take_app_ge (take off l)), length_take by (rewrite length_take; lia).
  rewrite (Nat.min_l off) by lia.
  replace (off + length xs - off)%nat with (length xs) by lia.
  rewrite take_app_length, <-!app_assoc. do 3 f_equal.
  rewrite (drop_app_ge (take off l)), length_take by (rewrite length_take; lia).
  rewrite (Nat.min_l off) by lia.
  rewrite (drop_app_ge xs) by lia. rewrite drop_drop. f_equal. lia.
Qed.

Lemma Forall_slice (P : A → Prop) off n l : Forall P l → Forall P (slice off n l).
Proof. intros ?. unfold slice. by apply Forall_take, Forall_drop. Qed.

Lemma Forall_splice (P : A → Prop) off new l :
  Forall P new → Forall P l → Forall P (splice off new l).
Proof.
  intros ??. unfold splice. rewrite !Forall_app.
  split_and!; [by apply Forall_take|done|by apply Forall_drop].
Qed.
End splice.

Lemma filter_all {A} (P : A → Prop) `{∀ x, Decision (P x)} (l : list A) :
  Forall P l → filter P l = l.
Proof. induction 1 as [|x l Hx Hl IH]; [done|]. by rewrite filter_cons_True, IH. Qed.

Create HintDb kernel.
#[export] Hint Resolve le_bytes_ok Forall_slice Forall_splice : kernel.

(** A computation whose prefix succeeds and whose rest faults. *)
Lemma fault_bind {St A B} (m : M St A) (f : A → M St B) s e :
  wp m s (λ a s', f a s' = Fault e) → (m ≫= f) s = Fault e.
Proof. unfold wp, mbind, M_bind. destruct (m s) as [[a s']|]; done. Qed.

Lemma fault_bind_l {St A B} (m : M St A) (f : A → M St B) s e :
  m s = Fault e → (m ≫= f) s = Fault e.
Proof. unfold mbind, M_bind. by intros ->. Qed.

(** ** Bits of a byte *)

Lemma byte_ok_bits z : 0 ≤ z → byte_ok z ↔ ∀ i, 8 ≤ i → Z.testbit z i = false.
Proof.
  intros Hz. unfold byte_ok. rewrite <-Z.bounded_iff_bits_nonneg by lia.
  change (2 ^ 8) with 256. lia.
Qed.

Lemma byte_ok_lor x y : byte_ok x → byte_ok y → byte_ok (Z.lor x y).
Proof.
  intros Hx Hy. pose proof Hx as [? _]. pose proof Hy as [? _].
  rewrite byte_ok_bits in Hx, Hy |- * by (rewrite ?Z.lor_nonneg; lia).
  intros i Hi. by rewrite Z.lor_spec, Hx, Hy.
Qed.

Lemma byte_ok_ldiff x y : byte_ok x → byte_ok (Z.ldiff x y).
Proof.
  intros Hx. pose proof Hx as [? _].
  rewrite byte_ok_bits in Hx |- * by (rewrite ?Z.ldiff_nonneg; lia).
  intros i Hi. by rewrite Z.ldiff_spec, Hx.
Qed.

Lemma bit_mask_ok i : 0 ≤ i < 8 → byte_ok (Z.shiftl 1 i).
Proof.
  intros Hi. rewrite Z.shiftl_1_l. unfold byte_ok. split; [apply Z.pow_nonneg; lia|].
  change 256 with (2 ^ 8). apply Z.pow_lt_mono_r; lia.
Qed.

Lemma land_bit x i : 0 ≤ i → (Z.land x (Z.shiftl 1 i) =? 0) = negb (Z.testbit x i).
Proof.
  intros Hi. rewrite Z.shiftl_1_l. destruct (Z.testbit x i) eqn:E; simpl.
  - apply Z.eqb_neq. intros H. apply (f_equal (λ z, Z.testbit z i)) in H.
    by rewrite Z.land_spec, E, Z.pow2_bits_true, Z.bits_0 in H by lia.
  - apply Z.eqb_eq. apply Z.bits_inj'. intros j Hj.
    rewrite Z.land_spec, Z.pow2_bits_eqb, Z.bits_0 by lia.
    destruct (Z.eqb_spec i j); [subst; by rewrite E|apply andb_false_r].
Qed.

(** [x & !mask] on a byte. *)
Lemma land_not_mask x i :
  byte_ok x → 0 ≤ i < 8 → Z.land x (255 - Z.shiftl 1 i) = Z.ldiff x (Z.shiftl 1 i).
Proof.
  intros Hx Hi. apply Z.bits_inj'. intros j Hj. rewrite Z.land_spec, Z.ldiff_spec.
  destruct (Z_lt_ge_dec j 8) as [Hj8|Hj8].
  - f_equal.
    assert (i ∈ seqZ 0 8 ∧ j ∈ seqZ 0 8) as [Hi' Hj'] by (rewrite !elem_of_seqZ; lia).
    revert i j Hi' Hj' Hi Hj Hj8.
    assert (Forall (λ i, Forall (λ j, Z.testbit (255 - Z.shiftl 1 i) j = negb (Z.testbit (Z.shiftl 1 i) j))
      (seqZ 0 8)) (seqZ 0 8)) as Hall by (vm_compute; repeat constructor).
    intros i j Hi' Hj' _ _ _. rewrite Forall_forall in Hall. specialize (Hall i Hi').
    rewrite Forall_forall in Hall. by apply Hall.
  - pose proof Hx as [? _]. rewrite byte_ok_bits in Hx by lia. by rewrite Hx by lia.
Qed.
