(* ===== verification/Spinlock.v ===== *)
(** * Interrupt nesting and spinlocks (src/src/cpu.rs, src/src/spinlock.rs)

    [Module Hart] is the code: [push_off]/[pop_off] over the [sstatus] register
    and the per-hart [Cpu] record, [RawSpinlock] and the guard-based
    [Spinlock].  The class [Locks] is the interface the other components use:
    the list of locks held by the (single) hart.  [Module Refine] proves that
    the code implements that interface and restores the interrupt flag. *)

From S2P Require Import Prelude.

(** The locks of the kernel.  [KMEM], the buffer cache slots and the inode
    cache slots are guard-based [Spinlock]s, the others are [RawSpinlock]s. *)
Inductive lock :=
| KMEM
| BCACHE_LOCK
| LBuffer (slot : nat)
| ICACHE_LOCK
| LInode (slot : nat)
| FTABLE_LOCK
| PIPE_TABLE_LOCK
| LPipe (pipe : nat)
| LConsole
| WAIT_LOCK
| LProc (slot : nat).

#[global] Instance lock_eq_dec : EqDecision lock.
Proof. solve_decision. Defined.

#[global] Instance lock_countable : Countable lock.
Proof.
  refine (inj_countable'
    (λ l, match l with
          | KMEM => (0, 0)%nat | BCACHE_LOCK => (1, 0)%nat | LBuffer i => (2, i)%nat
          | ICACHE_LOCK => (3, 0)%nat | LInode i => (4, i)%nat | FTABLE_LOCK => (5, 0)%nat
          | PIPE_TABLE_LOCK => (6, 0)%nat | LPipe i => (7, i)%nat | LConsole => (8, 0)%nat
          | WAIT_LOCK => (9, 0)%nat | LProc i => (10, i)%nat
          end)
    (λ p, match p.1 with
          | 0%nat => KMEM | 1%nat => BCACHE_LOCK | 2%nat => LBuffer p.2
          | 3%nat => ICACHE_LOCK | 4%nat => LInode p.2 | 5%nat => FTABLE_LOCK
          | 6%nat => PIPE_TABLE_LOCK | 7%nat => LPipe p.2 | 8%nat => LConsole
          | 9%nat => WAIT_LOCK | _ => LProc p.2
          end) _).
  by intros [].
Defined.

(** Guard-based locks do not record an owner: taking one twice spins. *)
Definition guard_based (l : lock) : bool :=
  match l with
  | KMEM | LBuffer _ | LInode _ => true
  | _ => false
  end.

(** ** The interface: the locks held by the hart, most recent first *)

Class Locks (St : Type) := {
  held : St → list lock;
  set_held : list lock → St → St;
  held_set_held h s : held (set_held h s) = h;
  set_held_set_held h h' s : set_held h (set_held h' s) = set_held h s;
  set_held_held s : set_held (held s) s = s;
}.

Section lock_ops.
Context {St : Type} `{!Locks St}.
Implicit Types s : St.

Definition already_held (l : lock) : fault :=
  if guard_based l then Deadlock "Spinlock::lock"
  else Panic "RawSpinlock::acquire: already holding".

Definition acquire (l : lock) : M St unit :=
  h ← gets held;
  if decide (l ∈ h) then raise (already_held l)
  else modify (set_held (l :: h)).

Definition release (l : lock) : M St unit :=
  h ← gets held;
  if decide (l ∈ h) then modify (set_held (filter (λ l', l' ≠ l) h))
  else panic "RawSpinlock::release: not holding".

(** A lexical scope [{ let g = l.lock(); m }]: the guard is dropped at its end. *)
Definition guarded {A} (l : lock) (m : M St A) : M St A :=
  acquire l;; a ← m; release l;; mret a.

Lemma wp_acquire l s Q :
  l ∉ held s → Q tt (set_held (l :: held s) s) → wp (acquire l) s Q.
Proof.
  intros Hl HQ. unfold acquire. wp_steps. by rewrite decide_False.
Qed.

Lemma wp_release l h s Q :
  held s = l :: h → l ∉ h → Q tt (set_held h s) → wp (release l) s Q.
Proof.
  intros Hs Hl HQ. unfold release. wp_steps. rewrite Hs.
  rewrite decide_True by set_solver. wp_steps.
  rewrite filter_cons_False by naive_solver.
  rewrite filter_all; [done|]. apply Forall_forall. by intros x Hx ->.
Qed.

Lemma wp_guarded {A} l (m : M St A) s Q :
  l ∉ held s →
  wp m (set_held (l :: held s) s) (λ a s',
    held s' = l :: held s ∧ Q a (set_held (held s) s')) →
  wp (guarded l m) s Q.
Proof.
  intros Hl Hm. unfold guarded. apply wp_bind, wp_acquire; [done|].
  apply wp_bind. eapply wp_mono; [exact Hm|]. intros a s' [Hh HQ].
  apply wp_bind. by eapply wp_release.
Qed.
End lock_ops.

(** ** The code *)

Module Hart.
Record Cpu := mkCpu { noff : usize; intena : bool }.

(** [locked] and [owner] of a lock; a guard-based lock has no owner field
    and leaves it at [NO_CPU]. *)
Record RawSpinlock := mkRaw { locked : bool; owner : usize }.

Definition NO_CPU : usize := USIZE_MAX.
Definition cpuid : usize := 0.
Definition RawSpinlock_new : RawSpinlock := mkRaw false NO_CPU.

Record hart := mkHart {
  sstatus : u64;
  cpu : Cpu;
  locks : gmap lock RawSpinlock;
}.

Definition set_sstatus (v : u64) (m : hart) : hart := mkHart v (cpu m) (locks m).
Definition set_cpu (c : Cpu) (m : hart) : hart := mkHart (sstatus m) c (locks m).
Definition lock_of (l : lock) (m : hart) : RawSpinlock :=
  default RawSpinlock_new (locks m !! l).
Definition set_lock (l : lock) (r : RawSpinlock) (m : hart) : hart :=
  mkHart (sstatus m) (cpu m) (<[l := r]> (locks m)).

Definition intr_get : M hart bool :=
  s ← gets sstatus; mret (Z.land (Z.shiftr s 1) 1 =? 1).
(** [csrc sstatus, 1 << 1] *)
Definition intr_off : M hart unit :=
  modify (λ m, set_sstatus (Z.ldiff (sstatus m) (Z.shiftl 1 1)) m).
(** [csrs sstatus, 1 << 1] *)
Definition intr_on : M hart unit :=
  modify (λ m, set_sstatus (Z.lor (sstatus m) (Z.shiftl 1 1)) m).

Definition push_off : M hart unit :=
  old ← intr_get;
  intr_off;;
  c ← gets cpu;
  let c := if noff c =? 0 then mkCpu (noff c) old else c in
  n ← add_at USIZE_MAX (noff c) 1;
  modify (set_cpu (mkCpu n (intena c))).

Definition pop_off : M hart unit :=
  on ← intr_get;
  assert (negb on) "pop_off: interrupts enabled";;
  c ← gets cpu;
  assert (1 <=? noff c) "pop_off: not pushed";;
  n ← sub_at USIZE_MAX (noff c) 1;
  modify (set_cpu (mkCpu n (intena c)));;
  if (n =? 0) && intena c then intr_on else mret tt.

Definition holding (l : lock) : M hart bool :=
  r ← gets (lock_of l); mret (locked r && (owner r =? cpuid)).

(** [while self.locked.swap(true, Acquire) { spin_loop() }] on a single hart:
    with interrupts off nobody can clear the flag. *)
Definition spin_swap (l : lock) : M hart unit :=
  r ← gets (lock_of l);
  if locked r then raise (Deadlock "Spinlock::lock")
  else modify (set_lock l (mkRaw true (owner r))).

Definition raw_acquire (l : lock) : M hart unit :=
  push_off;;
  h ← holding l;
  if (h : bool) then panic "RawSpinlock::acquire: already holding"
  else
    spin_swap l;;
    r ← gets (lock_of l);
    modify (set_lock l (mkRaw (locked r) cpuid)).

Definition raw_release (l : lock) : M hart unit :=
  h ← holding l;
  if negb h then panic "RawSpinlock::release: not holding"
  else
    r ← gets (lock_of l);
    modify (set_lock l (mkRaw (locked r) NO_CPU));;
    modify (set_lock l (mkRaw false NO_CPU));;
    pop_off.

(** [Spinlock::lock] and the [Drop] of its guard. *)
Definition guard_lock (l : lock) : M hart unit := push_off;; spin_swap l.
Definition guard_drop (l : lock) : M hart unit :=
  r ← gets (lock_of l);
  modify (set_lock l (mkRaw false (owner r)));;
  pop_off.

Definition hart_acquire (l : lock) : M hart unit :=
  if guard_based l then guard_lock l else raw_acquire l.
Definition hart_release (l : lock) : M hart unit :=
  if guard_based l then guard_drop l else raw_release l.
End Hart.

(** ** The code implements the interface *)

#[global] Program Instance Locks_list : Locks (list lock) := {
  held h := h;
  set_held h _ := h;
}.
Solve Obligations with done.

Module Refine.
Import Hart.

Definition sie (m : hart) : bool := Z.testbit (sstatus m) 1.

(** What a lock record must contain when the hart holds exactly [h]. *)
Definition expected (l : lock) (h : list lock) : RawSpinlock :=
  if decide (l ∈ h) then mkRaw true (if guard_based l then NO_CPU else cpuid)
  else RawSpinlock_new.

(** [Rel m outer h]: the hart [m] holds the locks [h]; [outer] is the
    interrupt flag to restore when the last of them is released. *)
Record Rel (m : hart) (outer : bool) (h : list lock) : Prop := {
  rel_nodup : NoDup h;
  rel_noff : noff (cpu m) = Z.of_nat (length h);
  rel_sie : sie m = match h with [] => outer | _ => false end;
  rel_intena : h ≠ [] → intena (cpu m) = outer;
  rel_locks l : lock_of l m = expected l h;
}.

Lemma land_shiftr_bit s i : 0 ≤ i → (Z.land (Z.shiftr s i) 1 =? 1) = Z.testbit s i.
Proof.
  intros Hi. rewrite (Z.land_ones _ 1 ltac:(lia)), <-Z.bit0_mod, Z.shiftr_spec by lia.
  rewrite Z.add_0_l. by destruct (Z.testbit s i).
Qed.

Lemma wp_intr_get m Q : Q (sie m) m → wp intr_get m Q.
Proof. intros HQ. unfold intr_get. wp_steps. by rewrite land_shiftr_bit by lia. Qed.

Lemma sie_off m : sie (set_sstatus (Z.ldiff (sstatus m) (Z.shiftl 1 1)) m) = false.
Proof. unfold sie, set_sstatus. cbn [sstatus]. rewrite Z.ldiff_spec. by rewrite andb_false_r. Qed.

Lemma sie_on m : sie (set_sstatus (Z.lor (sstatus m) (Z.shiftl 1 1)) m) = true.
Proof. unfold sie, set_sstatus. cbn [sstatus]. rewrite Z.lor_spec. by rewrite orb_true_r. Qed.

Lemma wp_push_off m Q :
  0 ≤ noff (cpu m) < USIZE_MAX →
  (∀ m', noff (cpu m') = noff (cpu m) + 1 → sie m' = false → locks m' = locks m →
     intena (cpu m') = (if noff (cpu m) =? 0 then sie m else intena (cpu m)) →
     Q tt m') →
  wp push_off m Q.
Proof.
  intros Hn HQ. unfold push_off. apply wp_bind, wp_intr_get. unfold intr_off. wp_steps.
  { cbn. destruct (_ =? 0); simpl; lia. }
  apply HQ; [| |done|]; cbn; try (by destruct (_ =? 0)).
  apply sie_off.
Qed.

Lemma wp_pop_off m Q :
  1 ≤ noff (cpu m) ≤ USIZE_MAX → sie m = false →
  (∀ m', noff (cpu m') = noff (cpu m) - 1 → locks m' = locks m →
     sie m' = (noff (cpu m) =? 1) && intena (cpu m) →
     intena (cpu m') = intena (cpu m) → Q tt m') →
  wp pop_off m Q.
Proof.
  intros Hn Hs HQ. unfold pop_off. apply wp_bind, wp_intr_get. rewrite Hs. wp_steps.
  { apply Z.leb_le. lia. }
  replace (noff (cpu m) - 1 =? 0) with (noff (cpu m) =? 1)
    by (destruct (Z.eqb_spec (noff (cpu m)) 1), (Z.eqb_spec (noff (cpu m) - 1) 0); lia).
  destruct (_ && _) eqn:E; unfold intr_on; wp_steps; apply HQ; try done.
  apply sie_on.
Qed.

Lemma lock_of_locks m1 m2 l : locks m1 = locks m2 → lock_of l m1 = lock_of l m2.
Proof. unfold lock_of. by intros ->. Qed.

Lemma lock_of_set l r l' m :
  lock_of l' (set_lock l r m) = if decide (l = l') then r else lock_of l' m.
Proof. unfold lock_of, set_lock. simpl. rewrite lookup_insert. by case_decide. Qed.

Lemma expected_cons l h l' :
  expected l' (l :: h) =
    if decide (l = l') then mkRaw true (if guard_based l then NO_CPU else cpuid)
    else expected l' h.
Proof.
  unfold expected. destruct (decide (l = l')) as [->|Hne].
  - rewrite decide_True by set_solver. done.
  - apply decide_ext. rewrite elem_of_cons. split; [by intros [->|?]|by right].
Qed.

Lemma Rel_cons m m' outer h l :
  Rel m outer h → l ∉ h →
  noff (cpu m') = noff (cpu m) + 1 → sie m' = false →
  intena (cpu m') = (if noff (cpu m) =? 0 then sie m else intena (cpu m)) →
  (∀ l', lock_of l' m' =
     if decide (l = l') then mkRaw true (if guard_based l then NO_CPU else cpuid)
     else lock_of l' m) →
  Rel m' outer (l :: h).
Proof.
  intros [Hnd Hn Hs Hi Hl] Hlh Hn' Hs' Hi' Hl'. split; try done.
  - by constructor.
  - simpl. lia.
  - intros _. rewrite Hi'. destruct h as [|l0 h]; simpl in *; rewrite Hn; simpl.
    + done.
    + by apply Hi.
  - intros l'. rewrite expected_cons, Hl'. case_decide; [done|apply Hl].
Qed.

Lemma Rel_uncons m m' outer h l :
  Rel m outer (l :: h) →
  noff (cpu m') = noff (cpu m) - 1 → intena (cpu m') = intena (cpu m) →
  sie m' = (noff (cpu m) =? 1) && intena (cpu m) →
  (∀ l', lock_of l' m' = if decide (l = l') then RawSpinlock_new else lock_of l' m) →
  Rel m' outer h.
Proof.
  intros [Hnd Hn Hs Hi Hl] Hn' Hi' Hs' Hl'.
  apply NoDup_cons in Hnd as [Hlh Hnd]. specialize (Hi ltac:(done)). simpl in Hn.
  split; try done.
  - lia.
  - rewrite Hs', Hn, Hi. destruct h; [done|]. by rewrite (proj2 (Z.eqb_neq _ _)) by (simpl; lia).
  - congruence.
  - intros l'. rewrite Hl'. specialize (Hl l'). rewrite expected_cons in Hl.
    case_decide; [|done]. subst l'. unfold expected. by rewrite decide_False.
Qed.

Lemma hart_acquire_free m outer h l :
  Rel m outer h → Z.of_nat (length h) < USIZE_MAX → l ∉ h →
  wp (hart_acquire l) m (λ _ m', Rel m' outer (l :: h)).
Proof.
  intros HR Hlen Hl. pose proof (rel_noff _ _ _ HR) as Hn.
  assert (∀ m1, locks m1 = locks m → lock_of l m1 = RawSpinlock_new) as Hfree.
  { intros m1 Hm1. rewrite (lock_of_locks _ _ l Hm1), (rel_locks _ _ _ HR). unfold expected. by rewrite decide_False. }
  unfold hart_acquire. destruct (guard_based l) eqn:Hg.
  - unfold guard_lock, spin_swap. apply wp_bind, wp_push_off; [lia|].
    intros m1 Hn1 Hs1 Hl1 Hi1. wp_steps. rewrite Hfree by done. simpl. wp_steps.
    eapply Rel_cons; try done. intros l'. rewrite lock_of_set, Hg.
    case_decide; [done|]. by apply lock_of_locks.
  - unfold raw_acquire, holding, spin_swap. apply wp_bind, wp_push_off; [lia|].
    intros m1 Hn1 Hs1 Hl1 Hi1. wp_steps. rewrite Hfree by done. simpl. wp_steps.
    rewrite Hfree by done. simpl. wp_steps.
    eapply Rel_cons; try done. intros l'. rewrite !lock_of_set, Hg.
    rewrite (decide_True (P := l = l)) by done.
    case_decide; [done|]. by apply lock_of_locks.
Qed.

(** Taking a lock twice never succeeds: a raw lock panics, a guard spins. *)
Lemma hart_acquire_held m outer h l :
  Rel m outer h → Z.of_nat (length h) < USIZE_MAX → l ∈ h →
  hart_acquire l m = Fault (already_held l).
Proof.
  intros HR Hlen Hl. pose proof (rel_noff _ _ _ HR) as Hn.
  assert (wp push_off m (λ _ m1, lock_of l m1 = expected l h)) as Hpush.
  { apply wp_push_off; [lia|]. intros m1 _ _ Hl1 _. rewrite (lock_of_locks _ _ l Hl1).
    apply (rel_locks _ _ _ HR). }
  apply wp_ok in Hpush as ([] & m1 & Hrun & Hl1).
  unfold expected in Hl1. rewrite decide_True in Hl1 by done.
  unfold hart_acquire, already_held. destruct (guard_based l) eqn:Hg.
  - unfold guard_lock, spin_swap, mbind, M_bind. rewrite Hrun. unfold gets.
    by rewrite Hl1.
  - unfold raw_acquire, holding, mbind, M_bind. rewrite Hrun. unfold gets.
    by rewrite Hl1.
Qed.

Lemma hart_release_top m outer h l :
  Rel m outer (l :: h) → Z.of_nat (length (l :: h)) ≤ USIZE_MAX →
  wp (hart_release l) m (λ _ m', Rel m' outer h).
Proof.
  intros HR Hlen. pose proof (rel_noff _ _ _ HR) as Hn. simpl in Hn, Hlen.
  assert (lock_of l m = mkRaw true (if guard_based l then NO_CPU else cpuid)) as Hl.
  { rewrite (rel_locks _ _ _ HR), expected_cons. by rewrite decide_True. }
  unfold hart_release. destruct (guard_based l) eqn:Hg.
  - unfold guard_drop. wp_steps. rewrite Hl. cbn [owner].
    apply wp_pop_off; [cbn; lia|exact (rel_sie _ _ _ HR)|].
    intros m1 Hn1 Hl1 Hs1 Hi1. eapply Rel_uncons; try done. intros l'.
    rewrite (lock_of_locks _ _ l' Hl1). apply lock_of_set.
  - unfold raw_release, holding. wp_steps. rewrite Hl. cbn [locked owner].
    rewrite Z.eqb_refl. cbn [andb negb]. wp_steps.
    apply wp_pop_off; [cbn; lia|exact (rel_sie _ _ _ HR)|].
    intros m1 Hn1 Hl1 Hs1 Hi1. eapply Rel_uncons; try done. intros l'.
    rewrite (lock_of_locks _ _ l' Hl1), !lock_of_set. by case_decide.
Qed.

(** The order in which locks were taken does not matter to the hart. *)
#[global] Instance Rel_proper m outer : Proper ((≡ₚ) ==> iff) (Rel m outer).
Proof.
  assert (∀ h h', h ≡ₚ h' → Rel m outer h → Rel m outer h') as Himp.
  { intros h h' Hp [Hnd Hn Hs Hi Hl]. split.
    - by rewrite <-Hp.
    - by rewrite <-Hp.
    - destruct h, h'; try done; [by apply Permutation_nil_l in Hp|].
      by apply Permutation_nil_r in Hp.
    - intros ?. apply Hi. intros ->. by apply Permutation_nil_l in Hp.
    - intros l. rewrite Hl. unfold expected. apply decide_ext. by rewrite Hp. }
  intros h h' Hp. split; apply Himp; done.
Qed.

Lemma hart_release_held m outer h l :
  Rel m outer h → Z.of_nat (length h) ≤ USIZE_MAX → l ∈ h →
  wp (hart_release l) m (λ _ m', Rel m' outer (filter (λ l', l' ≠ l) h)).
Proof.
  intros HR Hlen Hl.
  assert (h ≡ₚ l :: filter (λ l', l' ≠ l) h) as Hp.
  { apply list_elem_of_split in Hl as (h1 & h2 & ->).
    pose proof (rel_nodup _ _ _ HR) as Hnd.
    apply NoDup_app in Hnd as (_ & H1 & [Hl2 _]%NoDup_cons).
    rewrite filter_app, filter_cons_False by naive_solver.
    rewrite !filter_all.
    - by rewrite Permutation_middle.
    - apply Forall_forall. by intros x Hx ->.
    - apply Forall_forall. intros x Hx ->. apply (H1 l Hx). by left. }
  apply hart_release_top; [by rewrite <-Hp|by rewrite <-Hp].
Qed.

Inductive lock_op := Acquire (l : lock) | Release (l : lock).

Fixpoint run_ops {St} (acq rel : lock → M St unit) (ops : list lock_op) : M St unit :=
  match ops with
  | [] => mret tt
  | Acquire l :: ops => acq l;; run_ops acq rel ops
  | Release l :: ops => rel l;; run_ops acq rel ops
  end.

(** C35: Any sequence of lock operations that the interface allows (no lock
    taken twice, no lock released that is not held; releases in any order)
    runs on the hart without a panic and without spinning; afterwards [noff]
    counts the locks still held, every lock record agrees with that set, and
    the interrupt flag is off while any lock is held and is the initial one
    again once the last is released. *)
Theorem locks_simulation ops m outer h h' :
  Rel m outer h →
  Z.of_nat (length h + length ops) ≤ USIZE_MAX →
  run_ops acquire release ops h = Ok (tt, h') →
  wp (run_ops hart_acquire hart_release ops) m (λ _ m', Rel m' outer h').
Proof.
  revert m h. induction ops as [|[l|l] ops IH]; intros m h HR Hlen Hrun;
    cbn [run_ops length] in *.
  - injection Hrun as <-. done.
  - unfold acquire, mbind, M_bind, gets in Hrun. cbn in Hrun.
    case_decide as Hl; [done|]. cbn in Hrun.
    wp_call (hart_acquire_free _ outer h); [done|lia|done|].
    intros [] m1 HR1. apply (IH _ _ HR1); [cbn; lia|done].
  - unfold release, mbind, M_bind, gets in Hrun. cbn in Hrun.
    case_decide as Hl; [|done]. cbn in Hrun.
    wp_call (hart_release_held _ outer h); [done|lia|done|].
    intros [] m1 HR1. apply (IH _ _ HR1); [|done].
    pose proof (length_filter (λ l', l' ≠ l) h). lia.
Qed.

Definition boot : hart := mkHart 2 (mkCpu 0 false) ∅.

Lemma boot_Rel : Rel boot true [].
Proof. split; try done. constructor. Qed.

Lemma locks_simulation_witness :
  wp (run_ops hart_acquire hart_release
       [Acquire WAIT_LOCK; Acquire (LProc 3); Release WAIT_LOCK; Release (LProc 3)]) boot
     (λ _ m', Rel m' true []).
Proof. by apply (locks_simulation _ boot true []); [apply boot_Rel|..]. Defined.

(** Acquiring a lock that is already held never returns: a [RawSpinlock]
    panics with "already holding" and a guard-based [Spinlock] spins forever. *)
Theorem acquire_held_faults m outer h l :
  Rel m outer h → Z.of_nat (length h) < USIZE_MAX → l ∈ h →
  hart_acquire l m = Fault (already_held l) ∧ acquire l h = Fault (already_held l).
Proof.
  intros HR Hlen Hl. split; [by eapply hart_acquire_held|].
  unfold acquire, mbind, M_bind, gets. cbn. by rewrite decide_True.
Qed.

Lemma acquire_held_faults_witness :
  hart_acquire (LInode 0) (mkHart 0 (mkCpu 1 true) {[LInode 0 := mkRaw true NO_CPU]})
    = Fault (Deadlock "Spinlock::lock") ∧
  acquire (LInode 0) [LInode 0] = Fault (Deadlock "Spinlock::lock").
Proof.
  apply (acquire_held_faults _ true [LInode 0]); [|done|by left].
  split; try done.
  - apply NoDup_singleton.
  - intros l. unfold lock_of, expected. cbn. rewrite lookup_singleton.
    destruct (decide (LInode 0 = l)) as [<-|Hne]; [done|].
    rewrite decide_False; [done|]. intros ->%list_elem_of_singleton. done.
Defined.
End Refine.
