(* ===== verification/FsBase.v ===== *)
(** * File system layout and state (src/src/fs.rs, lines 1-165, 254-290, 608-620)

    The constants of the on-disk layout, the structures kept on disk with their
    byte encodings, and the state of the file system: the RAM disk, the buffer
    cache, the inode cache and the locks held. *)

From S2P Require Import Prelude Spinlock.

(** ** Constants *)

Definition BSIZE : usize := 1024.
Definition FSSIZE : usize := 2000.
Definition NINODES : usize := 200.
Definition NINODE : usize := 50.
Definition NLOG : usize := 0.
Definition ROOTINO : u32 := 1.
Definition FSMAGIC : u32 := 0x10203040.

Definition NDIRECT : usize := 12.
Definition NINDIRECT : usize := BSIZE / 4.
Definition MAXFILE : usize := NDIRECT + NINDIRECT.

(** [size_of::<Dinode>()]: four [i16], one [u32] and [NDIRECT + 1] [u32]. *)
Definition DINODE_SIZE : usize := 4 * 2 + 4 + (NDIRECT + 1) * 4.
Definition IPB : usize := BSIZE / DINODE_SIZE.
Definition BPB : usize := BSIZE * 8.

Definition div_ceil (a b : Z) : Z := (a + b - 1) / b.
Definition NINODEBLOCKS : usize := div_ceil NINODES IPB.
Definition NBITMAP : usize := div_ceil FSSIZE BPB.
Definition NMETA : usize := 2 + NLOG + NINODEBLOCKS + NBITMAP.

Definition LOGSTART : usize := 2.
Definition INODESTART : usize := LOGSTART + NLOG.
Definition BMAPSTART : usize := INODESTART + NINODEBLOCKS.
Definition DATASTART : usize := BMAPSTART + NBITMAP.
Definition NBLOCKS : usize := FSSIZE - NMETA.

Definition T_DIR : i16 := 1.
Definition T_FILE : i16 := 2.
Definition T_DEVICE : i16 := 3.

Definition NBUF : usize := 16.
Definition DIRSIZ : usize := 14.
Definition DIRENT_SIZE : usize := 2 + DIRSIZ.

(** ** Structures *)

Record Buffer := mkBuffer {
  b_blockno : u32;
  b_refcnt : usize;
  b_valid : bool;
  b_data : list u8;
}.

Definition zero_block : list u8 := replicate (Z.to_nat BSIZE) 0.
Definition Buffer_empty : Buffer := mkBuffer 0 0 false zero_block.

Record SuperBlock := mkSuperBlock {
  magic : u32; sb_size : u32; nblocks : u32; ninodes : u32;
  nlog : u32; logstart : u32; inodestart : u32; bmapstart : u32;
}.

Definition SB : SuperBlock := {|
  magic := FSMAGIC; sb_size := FSSIZE; nblocks := NBLOCKS; ninodes := NINODES;
  nlog := NLOG; logstart := LOGSTART; inodestart := INODESTART; bmapstart := BMAPSTART;
|}.

(** Unfold the layout constants to numerals, so that [lia] can use them. *)
Ltac fs_consts :=
  change BSIZE with 1024 in *; change FSSIZE with 2000 in *;
  change NINODES with 200 in *; change NINODE with 50 in *;
  change ROOTINO with 1 in *; change NDIRECT with 12 in *;
  change NINDIRECT with 256 in *; change MAXFILE with 268 in *;
  change DINODE_SIZE with 64 in *; change IPB with 16 in *;
  change BPB with 8192 in *; change (inodestart SB) with 2 in *;
  change (bmapstart SB) with 15 in *; change INODESTART with 2 in *;
  change BMAPSTART with 15 in *; change DATASTART with 16 in *;
  change NBUF with 16 in *; change DIRSIZ with 14 in *;
  change DIRENT_SIZE with 16 in *; change T_DIR with 1 in *;
  change T_FILE with 2 in *; change T_DEVICE with 3 in *;
  change USIZE_MAX with 18446744073709551615 in *;
  change U32_MAX with 4294967295 in *; change U16_MAX with 65535 in *.
Ltac fs_lia := fs_consts; lia.

Record Dinode := mkDinode {
  d_typ : i16; d_major : i16; d_minor : i16; d_nlink : i16;
  d_size : u32;
  d_addrs : list u32;
}.

Definition zero_addrs : list u32 := replicate (Z.to_nat (NDIRECT + 1)) 0.

Record Inode := mkInode {
  inum : u32; i_refcnt : usize; i_valid : bool;
  typ : i16; major : i16; minor : i16; nlink : i16;
  size : u32;
  addrs : list u32;
}.

Definition Inode_empty : Inode := mkInode 0 0 false 0 0 0 0 0 zero_addrs.

(** Field updates. *)
Definition set_addrs (a : list u32) (ip : Inode) : Inode :=
  mkInode (inum ip) (i_refcnt ip) (i_valid ip) (typ ip) (major ip) (minor ip) (nlink ip)
    (size ip) a.
Definition set_size (z : u32) (ip : Inode) : Inode :=
  mkInode (inum ip) (i_refcnt ip) (i_valid ip) (typ ip) (major ip) (minor ip) (nlink ip)
    z (addrs ip).
Definition set_nlink (n : i16) (ip : Inode) : Inode :=
  mkInode (inum ip) (i_refcnt ip) (i_valid ip) (typ ip) (major ip) (minor ip) n
    (size ip) (addrs ip).

Record Dirent := mkDirent { de_inum : u16; de_name : list u8 }.

(** ** Byte encodings of the [repr(C)] structures *)

Definition i16_bytes (z : i16) : list u8 := le_bytes 2 (z mod 2 ^ 16).
Definition i16_val (bs : list u8) : i16 := to_signed 16 (le_val bs).

Definition SuperBlock_bytes (sb : SuperBlock) : list u8 :=
  concat (le_bytes 4 <$> [magic sb; sb_size sb; nblocks sb; ninodes sb;
                          nlog sb; logstart sb; inodestart sb; bmapstart sb]).

Definition u32s_bytes (l : list u32) : list u8 := concat (le_bytes 4 <$> l).

(** The [i]-th little-endian [u32] of a byte array. *)
Definition u32_at (i : nat) (bs : list u8) : u32 := le_val (slice (4 * i) 4 bs).

Definition Dinode_bytes (d : Dinode) : list u8 :=
  i16_bytes (d_typ d) ++ i16_bytes (d_major d) ++ i16_bytes (d_minor d) ++
  i16_bytes (d_nlink d) ++ le_bytes 4 (d_size d) ++ u32s_bytes (d_addrs d).

Definition Dinode_of_bytes (bs : list u8) : Dinode :=
  {| d_typ := i16_val (slice 0 2 bs); d_major := i16_val (slice 2 2 bs);
     d_minor := i16_val (slice 4 2 bs); d_nlink := i16_val (slice 6 2 bs);
     d_size := le_val (slice 8 4 bs);
     d_addrs := (λ i, u32_at i (drop 12 bs)) <$> seq 0 (Z.to_nat (NDIRECT + 1)) |}.

Definition Dirent_bytes (de : Dirent) : list u8 := le_bytes 2 (de_inum de) ++ de_name de.
Definition Dirent_of_bytes (bs : list u8) : Dirent :=
  {| de_inum := le_val (slice 0 2 bs); de_name := slice 2 (Z.to_nat DIRSIZ) bs |}.

(** ** State *)

Record fs := mkFs {
  disk : list (list u8);
  bcache : list Buffer;
  icache : list Inode;
  fs_held : list lock;
}.

Definition set_disk (d : list (list u8)) (s : fs) : fs := mkFs d (bcache s) (icache s) (fs_held s).
Definition set_bcache (b : list Buffer) (s : fs) : fs := mkFs (disk s) b (icache s) (fs_held s).
Definition set_icache (i : list Inode) (s : fs) : fs := mkFs (disk s) (bcache s) i (fs_held s).

#[global] Program Instance Locks_fs : Locks fs := {
  held := fs_held;
  set_held h s := mkFs (disk s) (bcache s) (icache s) h;
}.
Solve Obligations with (by intros []).

(** Static initial values of [DISK], [BCACHE] and [ICACHE]. *)
Definition boot_fs : fs := {|
  disk := replicate (Z.to_nat FSSIZE) zero_block;
  bcache := replicate (Z.to_nat NBUF) Buffer_empty;
  icache := replicate (Z.to_nat NINODE) Inode_empty;
  fs_held := [];
|}.

(** ** Round trips of the encodings *)

Definition i16_ok (z : Z) : Prop := -32768 ≤ z < 32768.
Definition u32_ok (z : Z) : Prop := 0 ≤ z ≤ U32_MAX.

Record Dinode_ok (d : Dinode) : Prop := {
  dok_typ : i16_ok (d_typ d); dok_major : i16_ok (d_major d);
  dok_minor : i16_ok (d_minor d); dok_nlink : i16_ok (d_nlink d);
  dok_size : u32_ok (d_size d);
  dok_len : length (d_addrs d) = Z.to_nat (NDIRECT + 1);
  dok_addrs : Forall u32_ok (d_addrs d);
}.

Lemma i16_roundtrip z : i16_ok z → i16_val (i16_bytes z) = z.
Proof.
  intros Hz. unfold i16_val, i16_bytes.
  rewrite le_val_bytes_id by (apply Z.mod_pos_bound; lia).
  apply to_signed_wrap; [lia|]. unfold i16_ok in Hz. lia.
Qed.

Lemma u32_roundtrip z : u32_ok z → le_val (le_bytes 4 z) = z.
Proof. intros Hz. apply le_val_bytes_id. unfold u32_ok in Hz. fs_lia. Qed.

Lemma u32s_bytes_cons x l : u32s_bytes (x :: l) = le_bytes 4 x ++ u32s_bytes l.
Proof. done. Qed.

Lemma length_u32s_bytes l : length (u32s_bytes l) = (4 * length l)%nat.
Proof.
  induction l as [|x l IH]; [done|].
  rewrite u32s_bytes_cons, length_app, length_le_bytes, IH. simpl. lia.
Qed.

Lemma u32s_bytes_ok l : bytes_ok (u32s_bytes l).
Proof.
  induction l as [|x l IH]; [constructor|].
  rewrite u32s_bytes_cons, Forall_app. auto with kernel.
Qed.

Lemma u32_at_u32s_bytes l i x :
  l !! i = Some x → u32_ok x → u32_at i (u32s_bytes l) = x.
Proof.
  revert i. induction l as [|y l IH]; intros [|i] Hi Hx; try done.
  - injection Hi as ->. change (le_val (le_bytes 4 x) = x). by apply u32_roundtrip.
  - rewrite <-(IH i) by done. unfold u32_at, slice. f_equal. f_equal.
    rewrite u32s_bytes_cons, drop_app_ge by (rewrite length_le_bytes; lia).
    rewrite length_le_bytes. f_equal. lia.
Qed.

Lemma length_Dinode_bytes d :
  length (d_addrs d) = Z.to_nat (NDIRECT + 1) → length (Dinode_bytes d) = Z.to_nat DINODE_SIZE.
Proof.
  intros Hl. unfold Dinode_bytes, i16_bytes.
  rewrite !length_app, !length_le_bytes, length_u32s_bytes, Hl. done.
Qed.

Lemma Dinode_bytes_ok d : bytes_ok (Dinode_bytes d).
Proof.
  unfold Dinode_bytes, i16_bytes. rewrite !Forall_app.
  split_and!; auto using u32s_bytes_ok with kernel.
Qed.

Lemma Dinode_roundtrip d : Dinode_ok d → Dinode_of_bytes (Dinode_bytes d) = d.
Proof.
  intros [H1 H2 H3 H4 H5 Hl H6].
  unfold Dinode_of_bytes.
  change (slice 0 2 (Dinode_bytes d)) with (i16_bytes (d_typ d)).
  change (slice 2 2 (Dinode_bytes d)) with (i16_bytes (d_major d)).
  change (slice 4 2 (Dinode_bytes d)) with (i16_bytes (d_minor d)).
  change (slice 6 2 (Dinode_bytes d)) with (i16_bytes (d_nlink d)).
  change (slice 8 4 (Dinode_bytes d)) with (le_bytes 4 (d_size d)).
  change (drop 12 (Dinode_bytes d)) with (u32s_bytes (d_addrs d)).
  rewrite !i16_roundtrip, u32_roundtrip by done.
  assert ((λ i, u32_at i (u32s_bytes (d_addrs d))) <$> seq 0 (Z.to_nat (NDIRECT + 1)) = d_addrs d) as ->;
    [|by destruct d].
  apply list_eq_same_length with (length (d_addrs d)); [done|by rewrite length_fmap, length_seq|].
  intros i x y Hi Hx Hy.
  rewrite list_lookup_fmap, lookup_seq_lt in Hx by lia. injection Hx as <-.
  rewrite Forall_lookup in H6. apply u32_at_u32s_bytes; eauto.
Qed.

Record Dirent_ok (de : Dirent) : Prop := {
  deok_inum : 0 ≤ de_inum de ≤ U16_MAX;
  deok_len : length (de_name de) = Z.to_nat DIRSIZ;
  deok_name : bytes_ok (de_name de);
}.

Lemma Dirent_roundtrip de : Dirent_ok de → Dirent_of_bytes (Dirent_bytes de) = de.
Proof.
  intros [Hi Hl Hn]. destruct de as [i n]. unfold Dirent_of_bytes, Dirent_bytes. cbn [de_inum de_name] in *.
  change (slice 0 2 (_ ++ n)) with (le_bytes 2 i).
  change (slice 2 _ (_ ++ n)) with (take (Z.to_nat DIRSIZ) n).
  rewrite take_ge by lia. rewrite le_val_bytes_id by fs_lia. done.
Qed.

Lemma length_Dirent_bytes de :
  length (de_name de) = Z.to_nat DIRSIZ → length (Dirent_bytes de) = Z.to_nat DIRENT_SIZE.
Proof. intros Hl. unfold Dirent_bytes. rewrite length_app, length_le_bytes, Hl. done. Qed.
