(* ===== verification/Bcache.v ===== *)
(** * The buffer cache (src/src/fs.rs, lines 35-125)

    [bget]/[bread]/[bwrite]/[brelse] over the sixteen cache slots.  The
    invariant [cache_ok] says that the cache is coherent with the disk; the
    specifications describe every operation by its effect on the disk and on
    the pins (which slots are referenced, for which block and how often), which
    is all that the clients of the cache need. *)

From S2P Require Import Prelude Spinlock FsBase.

(** ** Operations *)

(** Access to a cache slot (through its guard). *)
Definition buf (i : nat) : M fs Buffer :=
  B ← gets bcache; expect (B !! i) "index out of bounds".
Definition set_buf (i : nat) (b : Buffer) : M fs unit :=
  modify (λ s, set_bcache (<[i := b]> (bcache s)) s).

Definition slots : list nat := seq 0 (Z.to_nat NBUF).

(** Body of the first loop of [bget]: reuse a slot that caches the block. *)
Definition bget_hit (blockno : u32) (i : nat) (_ : unit) : M fs (unit + nat) :=
  acquire (LBuffer i);;
  b ← buf i;
  if (b_blockno b =? blockno) && ((0 <? b_refcnt b) || b_valid b) then
    n ← add_at USIZE_MAX (b_refcnt b) 1;
    set_buf i (mkBuffer (b_blockno b) n (b_valid b) (b_data b));;
    release (LBuffer i);;
    release BCACHE_LOCK;;
    mret (inr i)
  else
    release (LBuffer i);; mret (inl tt).

(** Body of the second loop: recycle an unreferenced slot. *)
Definition bget_free (blockno : u32) (i : nat) (_ : unit) : M fs (unit + nat) :=
  acquire (LBuffer i);;
  b ← buf i;
  if b_refcnt b =? 0 then
    set_buf i (mkBuffer blockno 1 false (b_data b));;
    release (LBuffer i);;
    release BCACHE_LOCK;;
    mret (inr i)
  else
    release (LBuffer i);; mret (inl tt).

Definition bget (blockno : u32) : M fs (option nat) :=
  if FSSIZE <=? blockno then mret None
  else
    acquire BCACHE_LOCK;;
    r ← for_each slots (bget_hit blockno) tt;
    match r with
    | inr i => mret (Some i)
    | inl _ =>
        r ← for_each slots (bget_free blockno) tt;
        match r with
        | inr i => mret (Some i)
        | inl _ => release BCACHE_LOCK;; mret None
        end
    end.

Definition bread (blockno : u32) : M fs (option nat) :=
  r ← bget blockno;
  match r with
  | None => mret None
  | Some bp =>
      guarded (LBuffer bp)
        (b ← buf bp;
         if b_valid b then mret tt
         else
           D ← gets disk;
           d ← aget D blockno;
           set_buf bp (mkBuffer (b_blockno b) (b_refcnt b) true d));;
      mret (Some bp)
  end.

Definition bwrite (b : Buffer) : M fs unit :=
  D ← gets disk;
  _ ← aget D (b_blockno b);
  modify (set_disk (<[Z.to_nat (b_blockno b) := b_data b]> D)).

Definition brelse (bp : nat) : M fs unit :=
  acquire BCACHE_LOCK;;
  guarded (LBuffer bp)
    (b ← buf bp;
     if b_refcnt b <? 1 then panic "brelse: no ref"
     else
       n ← sub_at USIZE_MAX (b_refcnt b) 1;
       set_buf bp (mkBuffer (b_blockno b) n (b_valid b) (b_data b)));;
  release BCACHE_LOCK.

(** Recurring shapes of client code.
    [buf_readM bp f], [buf_read bp f]: [{ let b = bp.lock(); f(&b.data) }], where
    [f] may fail or not
    [buf_write bp f]: [{ let mut b = bp.lock(); b.data = f(b.data); bwrite(&b); }]
    [block_read]/[block_write]: the same on a freshly read block, which is
    released afterwards: [let bp = bread(n).expect(msg); ...; brelse(bp);] *)
Definition set_data (bp : nat) (d : list u8) : M fs unit :=
  b ← buf bp; set_buf bp (mkBuffer (b_blockno b) (b_refcnt b) (b_valid b) d).

Definition buf_readM {A} (bp : nat) (f : list u8 → M fs A) : M fs A :=
  guarded (LBuffer bp) (b ← buf bp; f (b_data b)).
Definition buf_read {A} (bp : nat) (f : list u8 → A) : M fs A :=
  buf_readM bp (λ d, mret (f d)).

Definition buf_write (bp : nat) (f : list u8 → M fs (list u8)) : M fs unit :=
  guarded (LBuffer bp)
    (b ← buf bp;
     d ← f (b_data b);
     set_data bp d;;
     b ← buf bp;
     bwrite b).

(** The same with a conditional write: [f] computes a result and, when the
    buffer is modified, its new contents. *)
Definition buf_update {A} (bp : nat) (f : list u8 → M fs (A * option (list u8))) : M fs A :=
  guarded (LBuffer bp)
    (b ← buf bp;
     r ← f (b_data b);
     match snd r with
     | Some d => set_data bp d;; b ← buf bp; bwrite b
     | None => mret tt
     end;;
     mret (fst r)).

Definition block_readM {A} (msg : string) (blockno : u32) (f : list u8 → M fs A) : M fs A :=
  r ← bread blockno;
  bp ← expect r msg;
  a ← buf_readM bp f;
  brelse bp;;
  mret a.
Definition block_read {A} (msg : string) (blockno : u32) (f : list u8 → A) : M fs A :=
  block_readM msg blockno (λ d, mret (f d)).

Definition block_write (msg : string) (blockno : u32) (f : list u8 → M fs (list u8)) : M fs unit :=
  r ← bread blockno;
  bp ← expect r msg;
  buf_write bp f;;
  brelse bp.

(** ** Invariant *)

Definition block_ok (d : list u8) : Prop := length d = Z.to_nat BSIZE ∧ bytes_ok d.

Definition disk_ok (D : list (list u8)) : Prop :=
  length D = Z.to_nat FSSIZE ∧ Forall block_ok D.

Record buffer_ok (D : list (list u8)) (b : Buffer) : Prop := {
  buf_refcnt : 0 ≤ b_refcnt b ≤ USIZE_MAX;
  buf_coherent : b_valid b = true → 0 ≤ b_blockno b ∧ D !! Z.to_nat (b_blockno b) = Some (b_data b);
  buf_pinned : 0 < b_refcnt b → b_valid b = true;
}.

Record cache_ok (D : list (list u8)) (B : list Buffer) : Prop := {
  cache_disk : disk_ok D;
  cache_len : length B = Z.to_nat NBUF;
  cache_bufs : Forall (buffer_ok D) B;
  cache_unique i j bi bj :
    B !! i = Some bi → B !! j = Some bj → b_valid bi = true → b_valid bj = true →
    b_blockno bi = b_blockno bj → i = j;
}.

(** The pins of the cache: block number and reference count of each
    referenced slot. *)
Definition pin (b : Buffer) : option (Z * Z) :=
  if b_refcnt b =? 0 then None else Some (b_blockno b, b_refcnt b).
Definition pins (B : list Buffer) : list (option (Z * Z)) := pin <$> B.

(** [room k P]: at least [k] more blocks can be pinned. *)
Definition free_slots (P : list (option (Z * Z))) : nat := length (filter (λ o, o = None) P).
Definition room (k : nat) (P : list (option (Z * Z))) : Prop :=
  (k ≤ free_slots P)%nat ∧ Z.of_nat k ≤ NBUF ∧
  ∀ i b c, P !! i = Some (Some (b, c)) → 0 < c ∧ c + Z.of_nat k ≤ USIZE_MAX.

(** Slot [i] pinned once more, for block [b]. *)
Inductive pinned (P : list (option (Z * Z))) (i : nat) (b : Z) : list (option (Z * Z)) → Prop :=
| pinned_new : P !! i = Some None → pinned P i b (<[i := Some (b, 1)]> P)
| pinned_again c : P !! i = Some (Some (b, c)) → 0 < c → pinned P i b (<[i := Some (b, c + 1)]> P).

Definition unlocked (h : list lock) : Prop :=
  (BCACHE_LOCK ∉ h) ∧ (∀ i, LBuffer i ∉ h).

(** What a balanced file system operation may change below the inode cache. *)
Record ext (s : fs) (D' : list (list u8)) (s' : fs) : Prop := {
  ext_disk : disk s' = D';
  ext_ok : cache_ok D' (bcache s');
  ext_pins : pins (bcache s') = pins (bcache s);
  ext_icache : icache s' = icache s;
  ext_held : held s' = held s;
}.

(** A state in which [k] blocks can be pinned by the next operation. *)
Record ready (k : nat) (s : fs) : Prop := {
  ready_ok : cache_ok (disk s) (bcache s);
  ready_room : room k (pins (bcache s));
  ready_unlocked : unlocked (held s);
}.

Lemma ext_refl s : cache_ok (disk s) (bcache s) → ext s (disk s) s.
Proof. done. Qed.

Lemma ext_trans s D1 s1 D2 s2 : ext s D1 s1 → ext s1 D2 s2 → ext s D2 s2.
Proof. intros [] []. split; congruence. Qed.

Lemma ext_ready k s D' s' : ready k s → ext s D' s' → ready k s'.
Proof. intros [] [<- ????]. split; [done|congruence|congruence]. Qed.

Lemma room_le k k' P : (k' ≤ k)%nat → room k P → room k' P.
Proof. intros ? (Hf & Hk & Hc). split_and!; [lia|lia|]. intros i b c Hi. specialize (Hc i b c Hi). lia. Qed.

Lemma ready_le k k' s : (k' ≤ k)%nat → ready k s → ready k' s.
Proof. intros ? []. split; eauto using room_le. Qed.

Lemma free_slots_insert P i o o' :
  P !! i = Some o →
  (free_slots (<[i := o']> P) + (if o is None then 1 else 0) =
   free_slots P + (if o' is None then 1 else 0))%nat.
Proof.
  unfold free_slots. revert i. induction P as [|p P IH]; intros [|i] Hi; try done.
  - injection Hi as ->. simpl. rewrite !filter_cons.
    destruct o, o'; repeat case_decide; simplify_eq; simpl; lia.
  - simpl in *. rewrite !filter_cons. specialize (IH i Hi). destruct (decide (p = None)); simpl; lia.
Qed.

Lemma pinned_room k P i b P' : room (S k) P → pinned P i b P' → room k P'.
Proof.
  intros (Hf & Hk & Hc) Hp. destruct Hp as [Hi|c Hi Hc0]; (split; [|split; [lia|]]).
  - pose proof (free_slots_insert P i None (Some (b, 1)) Hi). simpl in *. lia.
  - intros j b' c' Hj. rewrite list_lookup_insert in Hj. case_decide as Hd.
    + simplify_eq. fs_lia.
    + specialize (Hc j b' c' Hj). lia.
  - pose proof (free_slots_insert P i _ (Some (b, c + 1)) Hi). simpl in *. lia.
  - intros j b' c' Hj. rewrite list_lookup_insert in Hj. case_decide as Hd.
    + simplify_eq. specialize (Hc i b' c Hi). lia.
    + specialize (Hc j b' c' Hj). lia.
Qed.

Lemma pinned_lookup P i b P' : pinned P i b P' → ∃ c, P' !! i = Some (Some (b, c)) ∧ 0 < c.
Proof.
  intros [Hi|c Hi Hc].
  - exists 1. split; [|lia]. apply list_lookup_insert_eq. by eapply lookup_lt_Some.
  - exists (c + 1). split; [|lia]. apply list_lookup_insert_eq. by eapply lookup_lt_Some.
Qed.

Lemma pins_lookup_Some B i b c :
  pins B !! i = Some (Some (b, c)) →
  ∃ bf, B !! i = Some bf ∧ b_blockno bf = b ∧ b_refcnt bf = c ∧ c ≠ 0.
Proof.
  unfold pins. rewrite list_lookup_fmap. intros (bf & Hbf & Hp)%fmap_Some.
  exists bf. unfold pin in Hp. destruct (Z.eqb_spec (b_refcnt bf) 0); naive_solver.
Qed.

(** ** Specifications *)

Ltac fs_simpl :=
  cbn [held set_held Locks_fs disk bcache icache fs_held set_bcache set_disk set_icache
       b_blockno b_refcnt b_valid b_data] in *.

(** Locks of the model are taken and released in nested order. *)
Ltac not_held :=
  fs_simpl; repeat (apply not_elem_of_cons; split; [done|]);
  match goal with
  | |- _ ∉ [] => apply not_elem_of_nil
  | H : unlocked _ |- _ => first [apply H | apply (proj2 H)]
  | _ => assumption
  end.
Ltac wp_lock := apply wp_acquire; [not_held|]; fs_simpl.
Ltac wp_unlock := eapply wp_release; [fs_simpl; reflexivity|not_held|]; fs_simpl.

Lemma wp_buf i s b Q : bcache s !! i = Some b → Q b s → wp (buf i) s Q.
Proof. intros ??. unfold buf. wp_steps. by eapply wp_expect. Qed.

Lemma wp_set_buf i b s Q :
  Q tt (set_bcache (<[i := b]> (bcache s)) s) → wp (set_buf i b) s Q.
Proof. done. Qed.

(** The two scans of [bget]. *)
Definition cached (blockno : Z) (b : Buffer) : Prop :=
  b_blockno b = blockno ∧ (0 < b_refcnt b ∨ b_valid b = true).

Lemma slots_split pre i post : slots = pre ++ i :: post → i = length pre ∧ (i < Z.to_nat NBUF)%nat.
Proof.
  unfold slots. intros Heq.
  assert (seq 0 (Z.to_nat NBUF) !! length pre = Some i) as Hi
    by (rewrite Heq; by apply list_lookup_middle).
  apply lookup_seq in Hi as [-> Hi]. by rewrite Nat.add_0_l.
Qed.

Lemma bget_scan_hit blockno D B I h Q :
  length B = Z.to_nat NBUF → unlocked h →
  (∀ i b, B !! i = Some b → b_blockno b = blockno → b_refcnt b + 1 ≤ USIZE_MAX ∧ 0 ≤ b_refcnt b) →
  (∀ i b, B !! i = Some b → cached blockno b →
     Q (inr i) (mkFs D (<[i := mkBuffer blockno (b_refcnt b + 1) (b_valid b) (b_data b)]> B) I h)) →
  ((∀ i b, B !! i = Some b → ¬ cached blockno b) → Q (inl tt) (mkFs D B I (BCACHE_LOCK :: h))) →
  wp (for_each slots (bget_hit blockno) tt) (mkFs D B I (BCACHE_LOCK :: h)) Q.
Proof.
  intros Hlen Hu Hov Hhit Hmiss.
  apply (wp_for_each (λ pre _ s, s = mkFs D B I (BCACHE_LOCK :: h) ∧
    ∀ j b, (j < length pre)%nat → B !! j = Some b → ¬ cached blockno b)).
  - split; [done|]. simpl. lia.
  - intros pre i post [] s Hsl [-> Hpre]. apply slots_split in Hsl as [-> Hi].
    set (i := length pre) in *.
    assert (is_Some (B !! i)) as [b Hb] by (apply lookup_lt_is_Some; lia).
    unfold bget_hit. wp_step. wp_lock. wp_step. eapply wp_buf; [done|].
    destruct ((b_blockno b =? blockno) && _) eqn:E.
    + assert (cached blockno b) as Hc.
      { unfold cached. apply andb_true_iff in E as [E1%Z.eqb_eq [E2%Z.ltb_lt|E2]%orb_true_iff]; auto. }
      destruct (Hov i b Hb (proj1 Hc)). wp_steps. apply wp_set_buf. fs_simpl.
      wp_step. wp_unlock. wp_step. wp_unlock. wp_steps.
      replace (b_blockno b) with blockno by (symmetry; apply Hc). by apply Hhit.
    + wp_step. wp_unlock. wp_steps. split; [done|].
      rewrite length_app. simpl. intros j b' Hj Hb'.
      destruct (decide (j = i)) as [->|]; [|apply (Hpre j); [lia|done]].
      rewrite Hb in Hb'. injection Hb' as <-. intros [Heq Hor].
      apply andb_false_iff in E as [E%Z.eqb_neq|[E1%Z.ltb_ge E2]%orb_false_iff]; [done|].
      destruct Hor; [lia|congruence].
  - intros [] s [-> Hall]. apply Hmiss. intros i b Hb. apply (Hall i); [|done].
    apply lookup_lt_Some in Hb. unfold slots. rewrite length_seq. lia.
Qed.

Lemma bget_scan_free blockno D B I h Q :
  length B = Z.to_nat NBUF → unlocked h →
  (∃ i b, B !! i = Some b ∧ b_refcnt b = 0) →
  (∀ i b, B !! i = Some b → b_refcnt b = 0 →
     Q (inr i) (mkFs D (<[i := mkBuffer blockno 1 false (b_data b)]> B) I h)) →
  wp (for_each slots (bget_free blockno) tt) (mkFs D B I (BCACHE_LOCK :: h)) Q.
Proof.
  intros Hlen Hu (i0 & b0 & Hi0 & Hr0) Hhit.
  apply (wp_for_each (λ pre _ s, s = mkFs D B I (BCACHE_LOCK :: h) ∧ (length pre ≤ i0)%nat)).
  - split; [done|]. simpl. lia.
  - intros pre i post [] s Hsl [-> Hpre]. apply slots_split in Hsl as [-> Hi].
    set (i := length pre) in *.
    assert (is_Some (B !! i)) as [b Hb] by (apply lookup_lt_is_Some; lia).
    unfold bget_free. wp_step. wp_lock. wp_step. eapply wp_buf; [done|].
    destruct (Z.eqb_spec (b_refcnt b) 0) as [E|E].
    + wp_steps. apply wp_set_buf. fs_simpl.
      wp_step. wp_unlock. wp_step. wp_unlock. wp_steps. by apply Hhit.
    + wp_step. wp_unlock. wp_steps. split; [done|].
      rewrite length_app. simpl.
      destruct (decide (i = i0)); [|fold i; lia]. subst i0. congruence.
  - intros [] s [-> Hle]. apply lookup_lt_Some in Hi0.
    unfold slots in Hle. rewrite length_seq in Hle. lia.
Qed.

Lemma cache_ok_insert D B i b0 bf :
  cache_ok D B → B !! i = Some b0 → buffer_ok D bf →
  (b_valid bf = true → ∀ j bj, j ≠ i → B !! j = Some bj → b_valid bj = true →
     b_blockno bj ≠ b_blockno bf) →
  cache_ok D (<[i := bf]> B).
Proof.
  intros [HD Hl Hb Hu] Hi Hbf Hne. split; [done|by rewrite length_insert|by apply Forall_insert|].
  intros j k bj bk Hj Hk Hvj Hvk Heq. rewrite list_lookup_insert in Hj, Hk.
  repeat case_decide; destruct_and?; simplify_eq; try done.
  - destruct (decide (j = k)) as [->|Hkj]; [done|exfalso]. by apply (Hne Hvk j bj).
  - destruct (decide (k = j)) as [->|Hkj]; [done|exfalso]. by apply (Hne Hvj k bk).
  - eauto.
Qed.

Lemma pins_insert B i bf : pins (<[i := bf]> B) = <[i := pin bf]> (pins B).
Proof. apply list_fmap_insert. Qed.

Lemma pins_lookup B i bf : B !! i = Some bf → pins B !! i = Some (pin bf).
Proof. intros Hi. unfold pins. by rewrite list_lookup_fmap, Hi. Qed.

Lemma disk_lookup D b : disk_ok D → 0 ≤ b < FSSIZE → ∃ d, D !! Z.to_nat b = Some d ∧ block_ok d.
Proof.
  intros [Hl Hf] Hb. assert (is_Some (D !! Z.to_nat b)) as [d Hd].
  { apply lookup_lt_is_Some. fs_lia. }
  exists d. split; [done|]. by eapply Forall_lookup_1.
Qed.

(** The state after pinning slot [i] on block [b]. *)
Record ext_pin (s : fs) (i : nat) (b : Z) (s' : fs) : Prop := {
  pin_disk : disk s' = disk s;
  pin_ok : cache_ok (disk s) (bcache s');
  pin_pins : pinned (pins (bcache s)) i b (pins (bcache s'));
  pin_icache : icache s' = icache s;
  pin_held : held s' = held s;
}.

Lemma ext_pin_ready k s i b s' : ready (S k) s → ext_pin s i b s' → ready k s'.
Proof.
  intros [Hok Hr Hu] [Hd Ho Hp Hi Hh]. split; [by rewrite Hd| |by rewrite Hh].
  by eapply pinned_room.
Qed.

Lemma room_free_slot B : room 1 (pins B) → ∃ i b, B !! i = Some b ∧ b_refcnt b = 0.
Proof.
  intros [Hf _]. unfold free_slots in Hf.
  destruct (filter (λ o, o = None) (pins B)) as [|o l] eqn:E; simpl in Hf; [lia|].
  assert (o ∈ filter (λ o, o = None) (pins B)) as Ho by (rewrite E; left).
  apply list_elem_of_filter in Ho as [-> Ho].
  apply list_elem_of_fmap in Ho as (b & Hp & [i Hi]%list_elem_of_lookup).
  exists i, b. split; [done|]. unfold pin in Hp.
  destruct (Z.eqb_spec (b_refcnt b) 0); [done|discriminate].
Qed.

Lemma room_overflow B i b :
  room 1 (pins B) → B !! i = Some b → 0 ≤ b_refcnt b → b_refcnt b + 1 ≤ USIZE_MAX.
Proof.
  intros (_ & _ & Hr) Hi Hb. destruct (Z.eq_dec (b_refcnt b) 0) as [E|E]; [fs_lia|].
  apply (Hr i (b_blockno b) (b_refcnt b)). rewrite (pins_lookup _ _ _ Hi).
  unfold pin. by rewrite (proj2 (Z.eqb_neq _ _)).
Qed.

Lemma cached_valid D B i b blockno :
  cache_ok D B → B !! i = Some b → cached blockno b → b_valid b = true.
Proof.
  intros Hok Hi [_ [Hr|Hv]]; [|done].
  pose proof (Forall_lookup_1 _ _ _ _ (cache_bufs _ _ Hok) Hi) as Hb. by apply Hb.
Qed.

(** The guarded part of [bread] on the slot returned by [bget]. *)
Lemma bread_fill D B I h i b blockno d Q :
  unlocked h → 0 ≤ blockno → B !! i = Some b → D !! Z.to_nat blockno = Some d →
  Q tt (mkFs D (if b_valid b then B else <[i := mkBuffer (b_blockno b) (b_refcnt b) true d]> B) I h) →
  wp (guarded (LBuffer i)
        (b ← buf i;
         if b_valid b then mret tt
         else
           D ← gets disk;
           d ← aget D blockno;
           set_buf i (mkBuffer (b_blockno b) (b_refcnt b) true d))) (mkFs D B I h) Q.
Proof.
  intros Hu H0 Hi Hd HQ. apply wp_guarded; [not_held|]. fs_simpl.
  wp_step. eapply wp_buf; [done|]. destruct (b_valid b); wp_steps; [done|].
  eapply wp_aget; [done|done|]. apply wp_set_buf. by fs_simpl.
Qed.

Lemma bread_spec k blockno s :
  ready (S k) s → 0 ≤ blockno < FSSIZE →
  wp (bread blockno) s (λ r s', ∃ i, r = Some i ∧ ext_pin s i blockno s').
Proof.
  intros [Hok Hr Hu] Hb. apply (room_le _ 1) in Hr; [|lia]. destruct s as [D B I h]. fs_simpl.
  destruct (disk_lookup D blockno (cache_disk _ _ Hok) Hb) as (d & Hd & _).
  unfold bread, bget. rewrite (proj2 (Z.leb_gt _ _)) by lia. wp_step. wp_step. wp_lock. wp_step.
  apply bget_scan_hit; [apply Hok|done| | |].
  - intros i b Hi _. pose proof (Forall_lookup_1 _ _ _ _ (cache_bufs _ _ Hok) Hi) as [? _ _].
    split; [|lia]. eapply room_overflow; eauto; lia.
  - intros i b Hi Hc. wp_steps. pose proof (cached_valid _ _ _ _ _ Hok Hi Hc) as Hv.
    pose proof (Forall_lookup_1 _ _ _ _ (cache_bufs _ _ Hok) Hi) as Hbo.
    destruct Hc as [<- _]. pose proof (buf_refcnt _ _ Hbo).
    eapply bread_fill; [done|lia|by apply list_lookup_insert_eq, (lookup_lt_Some _ _ _ Hi)|done|].
    fs_simpl. rewrite Hv. wp_steps. exists i. split; [done|]. split; try done; fs_simpl.
    + eapply cache_ok_insert; eauto.
      * destruct Hbo as [H1 H2 H3]. split; fs_simpl; [|tauto|done].
        split; [lia|]. eapply room_overflow; eauto; lia.
      * fs_simpl. intros _ j bj Hj Hbj Hvj Heq. apply Hj. eapply (cache_unique _ _ Hok); eauto.
    + rewrite pins_insert. unfold pin at 1. fs_simpl.
      rewrite (proj2 (Z.eqb_neq _ _)) by lia.
      destruct (Z.eq_dec (b_refcnt b) 0) as [E|E].
      * rewrite E. apply pinned_new. rewrite (pins_lookup _ _ _ Hi). unfold pin. by rewrite E.
      * apply pinned_again; [|lia]. rewrite (pins_lookup _ _ _ Hi). unfold pin.
        by rewrite (proj2 (Z.eqb_neq _ _)).
  - intros Hmiss. wp_step. apply bget_scan_free; [apply Hok|done|by apply room_free_slot|].
    intros i b Hi Hr0. wp_steps.
    eapply bread_fill; [done|lia|by apply list_lookup_insert_eq, (lookup_lt_Some _ _ _ Hi)|done|].
    fs_simpl. wp_steps. exists i. split; [done|]. split; try done; fs_simpl.
    + rewrite list_insert_insert_eq. eapply cache_ok_insert; eauto.
      * split; fs_simpl; [fs_lia|intros _; split; [lia|done]|done].
      * fs_simpl. intros _ j bj Hj Hbj Hvj Heq. apply (Hmiss j bj Hbj). split; [done|by right].
    + rewrite list_insert_insert_eq, pins_insert. apply pinned_new.
      rewrite (pins_lookup _ _ _ Hi). unfold pin. by rewrite Hr0.
Qed.

(** A pinned slot holds its block, coherent with the disk. *)
Lemma pinned_slot D B P i b :
  cache_ok D B → pinned P i b (pins B) →
  ∃ bf, B !! i = Some bf ∧ b_blockno bf = b ∧ b_valid bf = true ∧ 1 ≤ b_refcnt bf ≤ USIZE_MAX ∧
    0 ≤ b < FSSIZE ∧ D !! Z.to_nat b = Some (b_data bf) ∧ block_ok (b_data bf).
Proof.
  intros Hok Hp. destruct (pinned_lookup _ _ _ _ Hp) as (c & Hc & Hc0).
  apply pins_lookup_Some in Hc as (bf & Hbf & <- & <- & _). exists bf.
  pose proof (Forall_lookup_1 _ _ _ _ (cache_bufs _ _ Hok) Hbf) as [H1 H2 H3].
  specialize (H3 Hc0). destruct (H2 H3) as [H0 Hd].
  pose proof (cache_disk _ _ Hok) as [HDl HDf].
  pose proof (lookup_lt_Some _ _ _ Hd). pose proof (Forall_lookup_1 _ _ _ _ HDf Hd).
  split_and!; try done; fs_lia.
Qed.

Lemma pinned_undo P i b B :
  pinned P i b (pins B) → ∀ bf, B !! i = Some bf →
  pins (<[i := mkBuffer (b_blockno bf) (b_refcnt bf - 1) (b_valid bf) (b_data bf)]> B) = P.
Proof.
  intros Hp bf Hbf. rewrite pins_insert. pose proof (pins_lookup _ _ _ Hbf) as Hpl.
  inversion Hp as [Hi Heq|c Hi Hc Heq]; rewrite <-Heq in *; clear Heq.
  all: rewrite list_lookup_insert_eq in Hpl by (by eapply lookup_lt_Some).
  all: unfold pin in *; destruct (Z.eqb_spec (b_refcnt bf) 0); simplify_eq; fs_simpl.
  all: rewrite list_insert_insert_eq.
  - replace (b_refcnt bf) with 1 by congruence. by apply list_insert_id.
  - rewrite (proj2 (Z.eqb_neq _ _)) by lia. apply list_insert_id. rewrite Hi. repeat f_equal; lia.
Qed.

Lemma brelse_spec s i b s1 D' s2 :
  ext_pin s i b s1 → ext s1 D' s2 → unlocked (held s) →
  wp (brelse i) s2 (λ _ s3, ext s D' s3).
Proof.
  intros [Hd Ho Hp Hic Hh] [Hd2 Ho2 Hp2 Hi2 Hh2] Hu. rewrite <-Hp2 in Hp.
  assert (unlocked (held s2)) as Hu2 by congruence.
  destruct (pinned_slot _ _ _ _ _ Ho2 Hp) as (bf & Hbf & Hbb & Hv & Hr & _).
  destruct s2 as [D2 B2 I2 h2]. fs_simpl. subst D2.
  unfold brelse. wp_step. wp_lock. wp_step. apply wp_guarded; [not_held|]. fs_simpl.
  wp_step. eapply wp_buf; [done|]. rewrite (proj2 (Z.ltb_ge _ _)) by lia.
  wp_steps. apply wp_set_buf. fs_simpl. split; [done|]. fs_simpl. wp_unlock.
  split; fs_simpl; try congruence.
  - eapply cache_ok_insert; eauto.
    + pose proof (Forall_lookup_1 _ _ _ _ (cache_bufs _ _ Ho2) Hbf) as [H1 H2 H3].
      split; fs_simpl; [lia|done|done].
    + fs_simpl. intros _ j bj Hj Hbj Hvj Heq. apply Hj. eapply (cache_unique _ _ Ho2); eauto.
  - by eapply pinned_undo.
Qed.

(** Reading and updating the data of a pinned slot. *)
Lemma buf_readM_spec {A} (f : list u8 → M fs A) s P i b d a Q :
  cache_ok (disk s) (bcache s) → unlocked (held s) →
  pinned P i b (pins (bcache s)) → disk s !! Z.to_nat b = Some d →
  (∀ s, f d s = Ok (a, s)) → Q a s → wp (buf_readM i f) s Q.
Proof.
  intros Hok Hu Hp Hd Hf HQ.
  destruct (pinned_slot _ _ _ _ _ Hok Hp) as (bf & Hbf & _ & _ & _ & _ & Hd' & _).
  destruct s as [D B I h]. fs_simpl. unfold buf_readM. apply wp_guarded; [not_held|]. fs_simpl.
  wp_step. eapply wp_buf; [done|]. replace (b_data bf) with d by congruence.
  unfold wp. by rewrite Hf.
Qed.

Lemma buf_read_spec {A} (f : list u8 → A) s P i b d Q :
  cache_ok (disk s) (bcache s) → unlocked (held s) →
  pinned P i b (pins (bcache s)) → disk s !! Z.to_nat b = Some d →
  Q (f d) s → wp (buf_read i f) s Q.
Proof. intros Hok Hu Hp Hd HQ. by eapply (buf_readM_spec (λ d, mret (f d))). Qed.

Lemma cache_ok_write D B i bf d :
  cache_ok D B → B !! i = Some bf → b_valid bf = true → block_ok d →
  cache_ok (<[Z.to_nat (b_blockno bf) := d]> D)
    (<[i := mkBuffer (b_blockno bf) (b_refcnt bf) (b_valid bf) d]> B).
Proof.
  intros Hok Hi Hv Hd. pose proof Hok as [[HDl HDf] Hl Hb Hu].
  pose proof (Forall_lookup_1 _ _ _ _ Hb Hi) as [H1 H2 H3]. destruct (H2 Hv) as [H0 Hbd].
  assert (∀ j bj, j ≠ i → B !! j = Some bj → b_valid bj = true → b_blockno bj ≠ b_blockno bf) as Hne.
  { intros j bj Hj Hbj Hvj Heq. apply Hj. eauto. }
  split.
  - split; [by rewrite length_insert|by apply Forall_insert].
  - by rewrite length_insert.
  - apply Forall_lookup. intros j bj. rewrite list_lookup_insert. case_decide as Hj.
    + intros [= <-]. split; fs_simpl; [done| |done]. intros _. split; [done|].
      apply list_lookup_insert_eq. by eapply lookup_lt_Some.
    + intros Hbj. assert (j ≠ i) as Hji by (intros ->; apply Hj; split; [done|by eapply lookup_lt_Some]).
      pose proof (Forall_lookup_1 _ _ _ _ Hb Hbj) as [G1 G2 G3]. split; [done| |done].
      intros Hvj. destruct (G2 Hvj) as [G0 Gd]. split; [done|].
      rewrite list_lookup_insert_ne; [done|]. specialize (Hne j bj Hji Hbj Hvj). lia.
  - intros j k bj bk Hj Hk Hvj Hvk Heq. rewrite list_lookup_insert in Hj, Hk.
    repeat case_decide; destruct_and?; simplify_eq; fs_simpl; try done.
    + destruct (decide (j = k)) as [->|Hjk]; [done|]. by destruct (Hne j bj Hjk Hj Hvj).
    + destruct (decide (k = j)) as [->|Hjk]; [done|]. by destruct (Hne k bk Hjk Hk Hvk).
    + eauto.
Qed.

(** Storing new contents in a pinned slot and writing them through. *)
Lemma store_spec D B I h i bf d :
  cache_ok D B → B !! i = Some bf → b_valid bf = true → block_ok d →
  wp (set_data i d;; b ← buf i; bwrite b) (mkFs D B I h) (λ _ s',
    ∃ B', s' = mkFs (<[Z.to_nat (b_blockno bf) := d]> D) B' I h ∧
      cache_ok (<[Z.to_nat (b_blockno bf) := d]> D) B' ∧ pins B' = pins B).
Proof.
  intros Hok Hbf Hv Hd.
  pose proof (Forall_lookup_1 _ _ _ _ (cache_bufs _ _ Hok) Hbf) as Hbo.
  destruct (buf_coherent _ _ Hbo Hv) as [H0 Hbd].
  unfold set_data. wp_steps. eapply wp_buf; [done|]. apply wp_set_buf. fs_simpl. wp_steps.
  eapply wp_buf; [by apply list_lookup_insert_eq, (lookup_lt_Some _ _ _ Hbf)|].
  unfold bwrite. wp_steps. fs_simpl. eapply wp_aget; [lia|done|]. wp_steps. fs_simpl.
  eexists. split_and!; [done|by apply cache_ok_write|].
  fs_simpl. rewrite pins_insert. apply list_insert_id. by rewrite (pins_lookup _ _ _ Hbf).
Qed.

Lemma buf_update_spec {A} (f : list u8 → M fs (A * option (list u8))) s P i b d a od :
  cache_ok (disk s) (bcache s) → unlocked (held s) →
  pinned P i b (pins (bcache s)) → disk s !! Z.to_nat b = Some d →
  (∀ s, f d s = Ok ((a, od), s)) → (∀ d', od = Some d' → block_ok d') →
  wp (buf_update i f) s (λ a' s', a' = a ∧
    ext s (match od with Some d' => <[Z.to_nat b := d']> (disk s) | None => disk s end) s').
Proof.
  intros Hok Hu Hp Hd Hf Hd'.
  destruct (pinned_slot _ _ _ _ _ Hok Hp) as (bf & Hbf & Hbb & Hv & _ & Hb & Hdd & _).
  destruct s as [D B I h]. fs_simpl. assert (b_data bf = d) as Hdata by congruence.
  unfold buf_update. apply wp_guarded; [not_held|]. fs_simpl.
  wp_step. eapply wp_buf; [done|]. rewrite Hdata. wp_step. unfold wp at 1. rewrite Hf.
  cbn [fst snd]. destruct od as [d'|]; [|by wp_steps].
  wp_call store_spec; [done|done|done|by apply Hd'|]. intros [] s' (B' & -> & Hok' & Hp').
  rewrite Hbb in *. by wp_steps.
Qed.

Lemma buf_write_spec (f : list u8 → M fs (list u8)) s P i b d d' :
  cache_ok (disk s) (bcache s) → unlocked (held s) →
  pinned P i b (pins (bcache s)) → disk s !! Z.to_nat b = Some d →
  (∀ s, f d s = Ok (d', s)) → block_ok d' →
  wp (buf_write i f) s (λ _ s', ext s (<[Z.to_nat b := d']> (disk s)) s').
Proof.
  intros Hok Hu Hp Hd Hf Hd'.
  destruct (pinned_slot _ _ _ _ _ Hok Hp) as (bf & Hbf & Hbb & Hv & _ & Hb & Hdd & _).
  destruct s as [D B I h]. fs_simpl. assert (b_data bf = d) as Hdata by congruence.
  unfold buf_write. apply wp_guarded; [not_held|]. fs_simpl.
  wp_step. eapply wp_buf; [done|]. rewrite Hdata. wp_step. unfold wp at 1. rewrite Hf.
  eapply wp_mono; [by apply store_spec|]. intros [] s' (B' & -> & Hok' & Hp').
  rewrite Hbb in *. done.
Qed.

Lemma block_readM_spec {A} k msg b (f : list u8 → M fs A) s d a :
  ready (S k) s → 0 ≤ b → disk s !! Z.to_nat b = Some d → (∀ s, f d s = Ok (a, s)) →
  wp (block_readM msg b f) s (λ a' s', a' = a ∧ ext s (disk s) s').
Proof.
  intros Hr Hb Hd Hf. pose proof (ready_unlocked _ _ Hr) as Hu.
  pose proof (cache_disk _ _ (ready_ok _ _ Hr)) as [Hl _].
  pose proof (lookup_lt_Some _ _ _ Hd).
  unfold block_readM. wp_call bread_spec; [done|fs_lia|]. intros r s1 (i & -> & Hpin).
  wp_step. eapply wp_expect; [done|]. wp_step.
  pose proof Hpin as [Hd1 Ho1 Hp1 _ Hh1].
  eapply buf_readM_spec; [by rewrite Hd1|by rewrite Hh1|done|by rewrite Hd1|done|].
  wp_call (brelse_spec s i b s1 (disk s)); [done| |done|].
  { split; congruence. }
  intros [] s2 He. by wp_steps.
Qed.

Lemma block_read_spec {A} k msg b (f : list u8 → A) s d :
  ready (S k) s → 0 ≤ b → disk s !! Z.to_nat b = Some d →
  wp (block_read msg b f) s (λ a s', a = f d ∧ ext s (disk s) s').
Proof. intros Hr Hb Hd. by apply (block_readM_spec k msg b (λ d, mret (f d)) s d). Qed.

Lemma block_write_spec k msg b (f : list u8 → M fs (list u8)) s d d' :
  ready (S k) s → 0 ≤ b → disk s !! Z.to_nat b = Some d →
  (∀ s, f d s = Ok (d', s)) → block_ok d' →
  wp (block_write msg b f) s (λ _ s', ext s (<[Z.to_nat b := d']> (disk s)) s').
Proof.
  intros Hr Hb Hd Hf Hd'. pose proof (ready_unlocked _ _ Hr) as Hu.
  pose proof (cache_disk _ _ (ready_ok _ _ Hr)) as [Hl _].
  pose proof (lookup_lt_Some _ _ _ Hd).
  unfold block_write. wp_call bread_spec; [done|fs_lia|]. intros r s1 (i & -> & Hpin).
  wp_step. eapply wp_expect; [done|].
  pose proof Hpin as [Hd1 Ho1 Hp1 _ Hh1].
  wp_call buf_write_spec; [by rewrite Hd1|by rewrite Hh1|done|by rewrite Hd1|done|done|].
  intros [] s2 He. rewrite Hd1 in He. by eapply brelse_spec.
Qed.

(** An empty cache is ready, whatever the disk and the inode cache. *)
Lemma fresh_ready D I : disk_ok D → ready 16 (mkFs D (replicate (Z.to_nat NBUF) Buffer_empty) I []).
Proof.
  intros HD. assert (∀ i b, replicate (Z.to_nat NBUF) Buffer_empty !! i = Some b → b = Buffer_empty) as HB.
  { intros i b Hb. by apply lookup_replicate in Hb as [-> _]. }
  split.
  - split; [done|apply length_replicate| |].
    + apply Forall_replicate. split; cbn; [fs_lia|done|lia].
    + intros i j bi bj Hi _ Hv. apply HB in Hi. by subst bi.
  - split_and!; [vm_compute; lia|fs_lia|].
    intros i b c Hi. apply pins_lookup_Some in Hi as (bf & Hbf & _ & Hc & Hc0).
    apply HB in Hbf. by subst bf.
  - split; [|intros i]; apply not_elem_of_nil.
Qed.

Lemma boot_disk_ok : disk_ok (disk boot_fs).
Proof.
  split; [apply length_replicate|]. apply Forall_replicate. split; [apply length_replicate|]. by apply Forall_replicate.
Qed.

Lemma boot_ready : ready 16 boot_fs.
Proof. apply fresh_ready, boot_disk_ok. Qed.

(** ** Main theorems *)

(** C32: [bread] returns a slot that holds exactly the bytes the disk has for the
    block, pins it once more and disturbs no other pin; the cache stays coherent
    (every valid slot equals its disk block, no block is cached twice) and
    neither the disk, the inode cache nor the locks change.  Blocks beyond the
    disk are refused. *)
Theorem bread_coherent k blockno s :
  ready (S k) s → 0 ≤ blockno →
  wp (bread blockno) s (λ r s',
    if FSSIZE <=? blockno then r = None ∧ s' = s
    else ∃ i b, r = Some i ∧ bcache s' !! i = Some b ∧
      b_blockno b = blockno ∧ b_valid b = true ∧ 1 ≤ b_refcnt b ∧
      disk s !! Z.to_nat blockno = Some (b_data b) ∧
      pinned (pins (bcache s)) i blockno (pins (bcache s')) ∧
      cache_ok (disk s') (bcache s') ∧
      disk s' = disk s ∧ icache s' = icache s ∧ held s' = held s).
Proof.
  intros Hr Hb. destruct (Z.leb_spec FSSIZE blockno) as [Hbig|Hlt].
  - unfold bread, bget. rewrite (proj2 (Z.leb_le _ _)) by done. by wp_steps.
  - wp_call (bread_spec k); [done|lia|]. intros r s' (i & -> & [Hd Ho Hp Hi Hh]).
    destruct (pinned_slot _ _ _ _ _ Ho Hp) as (bf & Hbf & Hbb & Hv & Hc & _ & Hdat & _).
    exists i, bf. split_and!; try (done || lia). by rewrite Hd.
Qed.

(** The scan for a free slot when there is none. *)
Lemma bget_scan_full blockno D B I h Q :
  length B = Z.to_nat NBUF → unlocked h →
  (∀ i b, B !! i = Some b → b_refcnt b ≠ 0) →
  Q (inl tt) (mkFs D B I (BCACHE_LOCK :: h)) →
  wp (for_each slots (bget_free blockno) tt) (mkFs D B I (BCACHE_LOCK :: h)) Q.
Proof.
  intros Hlen Hu Hfull HQ.
  apply (wp_for_each (λ _ _ s, s = mkFs D B I (BCACHE_LOCK :: h))); [done| |by intros [] s ->].
  intros pre i post [] s Hsl ->. apply slots_split in Hsl as [-> Hi].
  assert (is_Some (B !! length pre)) as [b Hb] by (apply lookup_lt_is_Some; lia).
  unfold bget_free. wp_step. wp_lock. wp_step. eapply wp_buf; [done|].
  rewrite (proj2 (Z.eqb_neq _ _)) by (by eapply Hfull). wp_step. wp_unlock. by wp_steps.
Qed.

(** When every slot is referenced and none caches the block, [bread]
    reports [None] and leaves the whole file system state as it was, with all
    locks released. *)
Theorem bread_exhausted blockno s :
  cache_ok (disk s) (bcache s) → unlocked (held s) → 0 ≤ blockno →
  (∀ i b, bcache s !! i = Some b → b_refcnt b ≠ 0 ∧ b_blockno b ≠ blockno) →
  bread blockno s = Ok (None, s).
Proof.
  intros Hok Hu H0 Hfull. destruct s as [D B I h]. fs_simpl.
  assert (wp (bread blockno) (mkFs D B I h) (λ r s', r = None ∧ s' = mkFs D B I h)) as Hwp.
  { unfold bread, bget. wp_step. destruct (FSSIZE <=? blockno); [by wp_steps|].
    wp_step. wp_lock. wp_step. apply bget_scan_hit; [apply Hok|done| | |].
    - intros i b Hi Hb. by destruct (Hfull i b Hi).
    - intros i b Hi [Hb _]. by destruct (Hfull i b Hi).
    - intros _. wp_step. apply bget_scan_full; [apply Hok|done| |].
      + intros i b Hi. by apply (Hfull i b).
      + wp_step. wp_unlock. by wp_steps. }
  apply wp_ok in Hwp as (r & s' & -> & -> & ->). done.
Qed.

(** A block written through the cache is what the next read of it returns,
    and reads of every other block are unaffected. *)
Theorem block_write_read k msg b b' d s :
  ready (S k) s → 0 ≤ b < FSSIZE → 0 ≤ b' < FSSIZE → block_ok d →
  wp (block_write msg b (λ _, mret d);; block_read msg b' id) s (λ d' s',
    Some d' = (if decide (b = b') then Some d else disk s !! Z.to_nat b') ∧
    ext s (<[Z.to_nat b := d]> (disk s)) s').
Proof.
  intros Hr Hb Hb' Hd. pose proof (cache_disk _ _ (ready_ok _ _ Hr)) as HD.
  destruct (disk_lookup _ b HD Hb) as (d0 & Hd0 & _).
  wp_call (block_write_spec k); [done|lia|done|done|done|]. intros [] s1 He1.
  pose proof (ext_ready _ _ _ _ Hr He1) as Hr1.
  destruct (disk_lookup _ b' (cache_disk _ _ (ready_ok _ _ Hr1)) Hb') as (d1 & Hd1 & _).
  wp_call (block_read_spec k); [done|lia|done|]. intros d' s2 [-> He2].
  rewrite (ext_disk _ _ _ He1) in *. split; [|by eapply ext_trans]. unfold id. rewrite <-Hd1.
  destruct (decide (b = b')) as [<-|Hne].
  - apply list_lookup_insert_eq. by eapply lookup_lt_Some.
  - apply list_lookup_insert_ne. lia.
Qed.

(** Releasing a slot that nobody holds stops the kernel. *)
Lemma brelse_unreferenced i b s :
  unlocked (held s) → bcache s !! i = Some b → b_refcnt b = 0 →
  brelse i s = Fault (Panic "brelse: no ref").
Proof.
  intros Hu Hi Hb. destruct s as [D B I h]. fs_simpl. unfold brelse.
  apply fault_bind. wp_lock. apply fault_bind_l. unfold guarded.
  apply fault_bind. wp_lock. apply fault_bind_l. apply fault_bind. eapply wp_buf; [done|].
  by rewrite Hb.
Qed.

Lemma bread_coherent_witness :
  wp (bread 7) boot_fs (λ r s',
    ∃ i b, r = Some i ∧ bcache s' !! i = Some b ∧
      b_blockno b = 7 ∧ b_valid b = true ∧ 1 ≤ b_refcnt b ∧
      disk boot_fs !! 7%nat = Some (b_data b) ∧
      pinned (pins (bcache boot_fs)) i 7 (pins (bcache s')) ∧
      cache_ok (disk s') (bcache s') ∧
      disk s' = disk boot_fs ∧ icache s' = icache boot_fs ∧ held s' = held boot_fs).
Proof. apply (bread_coherent 15 7); [apply boot_ready|lia]. Defined.

(** A cache whose slots all hold a block of their own. *)
Definition full_fs : fs := {|
  disk := disk boot_fs;
  bcache := (λ i, mkBuffer (Z.of_nat i) 1 true zero_block) <$> slots;
  icache := icache boot_fs;
  fs_held := [];
|}.

Lemma full_fs_lookup i b :
  bcache full_fs !! i = Some b → b = mkBuffer (Z.of_nat i) 1 true zero_block ∧ (i < 16)%nat.
Proof.
  unfold full_fs. fs_simpl. rewrite list_lookup_fmap. intros (j & Hj & ->)%fmap_Some.
  apply lookup_seq in Hj as [-> Hj]. split; [done|]. fs_lia.
Qed.

Lemma full_fs_ok : cache_ok (disk full_fs) (bcache full_fs).
Proof.
  split.
  - apply (cache_disk _ _ (ready_ok _ _ boot_ready)).
  - done.
  - apply Forall_lookup. intros i b Hb. apply full_fs_lookup in Hb as [-> Hi].
    split; fs_simpl; [fs_lia| |done]. intros _. split; [lia|].
    unfold full_fs, boot_fs. fs_simpl. apply lookup_replicate_2. fs_lia.
  - intros i j bi bj Hi Hj _ _ Heq. apply full_fs_lookup in Hi as [-> _], Hj as [-> _].
    fs_simpl. lia.
Qed.

Lemma bread_exhausted_witness : bread 20 full_fs = Ok (None, full_fs).
Proof.
  apply bread_exhausted; [apply full_fs_ok|apply boot_ready|lia|].
  intros i b Hb. apply full_fs_lookup in Hb as [-> Hi]. cbn [b_refcnt b_blockno]. lia.
Defined.

Lemma block_write_read_witness :
  wp (block_write "" 3 (λ _, mret zero_block);; block_read "" 4 id) boot_fs (λ d' s',
    Some d' = disk boot_fs !! 4%nat ∧ ext boot_fs (<[3%nat := zero_block]> (disk boot_fs)) s').
Proof.
  apply (block_write_read 15 "" 3 4 zero_block); [apply boot_ready|fs_lia|fs_lia|].
  split; [apply length_replicate|by apply Forall_replicate].
Defined.
