(* ===== verification/Balloc.v ===== *)
(** * On-disk inodes and the block bitmap (src/src/fs.rs, lines 161-252)

    [read_dinode]/[write_dinode] and [balloc]/[bfree], specified as pure
    functions of the disk. *)

From S2P Require Import Prelude Spinlock FsBase Bcache.

(** ** Operations *)

Definition iblock {St} (inum : u32) : M St u32 := add_at U32_MAX (inum / IPB) (inodestart SB).

Definition read_dinode (inum : u32) : M fs Dinode :=
  blockno ← iblock inum;
  let idx := inum mod IPB in
  let off := idx * DINODE_SIZE in
  block_read "read_dinode: bread" blockno
    (λ d, Dinode_of_bytes (slice (Z.to_nat off) (Z.to_nat DINODE_SIZE) d)).

Definition write_dinode (inum : u32) (dip : Dinode) : M fs unit :=
  blockno ← iblock inum;
  let idx := inum mod IPB in
  let off := idx * DINODE_SIZE in
  block_write "write_dinode: bread" blockno
    (λ d, mret (splice (Z.to_nat off) (Dinode_bytes dip) d)).

Definition bblock {St} (blockno : u32) : M St u32 := add_at U32_MAX (blockno / BPB) (bmapstart SB).

(** One iteration of the search loop of [balloc]. *)
Definition balloc_try (blockno : usize) (_ : unit) : M fs (unit + u32) :=
  bitmap_blockno ← bblock blockno;
  let bi := blockno mod BPB in
  let byte := bi / 8 in
  let mask := Z.shiftl 1 (bi mod 8) in
  r ← bread bitmap_blockno;
  bp ← expect r "balloc: bread bitmap";
  found ← buf_update bp (λ d,
    x ← aget d byte;
    if Z.land x mask =? 0
    then mret (true, Some (<[Z.to_nat byte := Z.lor x mask]> d))
    else mret (false, None));
  brelse bp;;
  if (found : bool) then
    block_write "balloc: bread data" blockno (λ d, mret (replicate (length d) 0));;
    mret (inr blockno)
  else mret (inl tt).

Definition balloc : M fs (option u32) :=
  r ← for_each (range DATASTART FSSIZE) balloc_try tt;
  match r with
  | inr blockno => mret (Some blockno)
  | inl _ => mret None
  end.

Definition bfree (blockno : u32) : M fs unit :=
  if (blockno <? DATASTART) || (FSSIZE <=? blockno) then panic "bfree: invalid block"
  else
    bitmap_blockno ← bblock blockno;
    let bi := blockno mod BPB in
    let byte := bi / 8 in
    let mask := Z.shiftl 1 (bi mod 8) in
    block_write "bfree: bread bitmap" bitmap_blockno (λ d,
      x ← aget d byte;
      if Z.land x mask =? 0 then panic "freeing free block"
      else mret (<[Z.to_nat byte := Z.land x (255 - mask)]> d)).

(** ** The disk as the operations see it *)

Definition blk (D : list (list u8)) (b : Z) : list u8 := D !!! Z.to_nat b.
Definition upd (D : list (list u8)) (b : Z) (d : list u8) : list (list u8) := <[Z.to_nat b := d]> D.

(** Block and byte of a block's bit in the bitmap. *)
Definition bit_byte (b : Z) : nat := Z.to_nat (b mod BPB / 8).
Definition bit_pos (b : Z) : Z := b mod BPB mod 8.
Definition bmap_block (b : Z) : Z := b / BPB + BMAPSTART.

(** Is block [b] marked as allocated? *)
Definition used (D : list (list u8)) (b : Z) : bool :=
  Z.testbit (blk D (bmap_block b) !!! bit_byte b) (bit_pos b).

Definition mark (D : list (list u8)) (b : Z) (v : bool) : list (list u8) :=
  let d := blk D (bmap_block b) in
  let x := d !!! bit_byte b in
  let mask := Z.shiftl 1 (bit_pos b) in
  upd D (bmap_block b) (<[bit_byte b := if v then Z.lor x mask else Z.ldiff x mask]> d).

Definition is_data (b : Z) : Prop := DATASTART ≤ b < FSSIZE.

(** On-disk inode [inum]. *)
Definition dinode_block (inum : Z) : Z := inum / IPB + INODESTART.
Definition dinode_off (inum : Z) : nat := Z.to_nat (inum mod IPB * DINODE_SIZE).
Definition dinode (D : list (list u8)) (inum : Z) : Dinode :=
  Dinode_of_bytes (slice (dinode_off inum) (Z.to_nat DINODE_SIZE) (blk D (dinode_block inum))).
Definition put_dinode (D : list (list u8)) (inum : Z) (d : Dinode) : list (list u8) :=
  upd D (dinode_block inum)
    (splice (dinode_off inum) (Dinode_bytes d) (blk D (dinode_block inum))).

(** ** Facts about the pure disk *)

Lemma blk_lookup D b : disk_ok D → 0 ≤ b < FSSIZE → D !! Z.to_nat b = Some (blk D b).
Proof.
  intros [Hl _] Hb. unfold blk. apply list_lookup_lookup_total_lt. fs_lia.
Qed.

Lemma blk_ok D b : disk_ok D → 0 ≤ b < FSSIZE → block_ok (blk D b).
Proof. intros HD Hb. destruct HD as [Hl HF]. by eapply Forall_lookup_1, blk_lookup. Qed.

Lemma blk_upd D b d : disk_ok D → 0 ≤ b < FSSIZE → blk (upd D b d) b = d.
Proof. intros [Hl _] Hb. unfold blk, upd. apply list_lookup_total_insert_eq. fs_lia. Qed.

Lemma blk_upd_ne D b d b' : 0 ≤ b → 0 ≤ b' → b ≠ b' → blk (upd D b d) b' = blk D b'.
Proof. intros ???. unfold blk, upd. apply list_lookup_total_insert_ne. lia. Qed.

Lemma upd_ok D b d : disk_ok D → block_ok d → disk_ok (upd D b d).
Proof. intros [Hl HF] Hd. unfold upd. split; [by rewrite length_insert|by apply Forall_insert]. Qed.

Lemma zero_block_ok : block_ok zero_block.
Proof. split; [apply length_replicate|]. by apply Forall_replicate. Qed.

Lemma bitmap_range b : is_data b → bmap_block b = 15 ∧ (bit_byte b < 1024)%nat ∧ 0 ≤ bit_pos b < 8.
Proof.
  unfold is_data, bmap_block, bit_byte, bit_pos. fs_consts. intros Hb.
  rewrite (Z.mod_small b 8192) by lia. rewrite Z.div_small by lia.
  split_and!; [done| |apply Z.mod_pos_bound; lia|apply Z.mod_pos_bound; lia].
  assert (b / 8 < 1024) by (apply Z.div_lt_upper_bound; lia).
  assert (0 ≤ b / 8) by (apply Z.div_pos; lia). lia.
Qed.

Lemma bit_eq b b' : is_data b → is_data b' → bit_byte b = bit_byte b' → bit_pos b = bit_pos b' → b = b'.
Proof.
  unfold is_data, bit_byte, bit_pos. fs_consts. intros Hb Hb' H1 H2.
  rewrite !(Z.mod_small _ 8192) in * by lia.
  assert (0 ≤ b / 8 ∧ 0 ≤ b' / 8) by (split; apply Z.div_pos; lia).
  rewrite (Z.div_mod b 8), (Z.div_mod b' 8) by lia. lia.
Qed.

Lemma bitmap_byte_ok D b :
  disk_ok D → is_data b →
  blk D (bmap_block b) !! bit_byte b = Some (blk D (bmap_block b) !!! bit_byte b) ∧
  byte_ok (blk D (bmap_block b) !!! bit_byte b).
Proof.
  intros HD Hb. destruct (bitmap_range b Hb) as (Hblk & Hbyte & _). rewrite Hblk.
  destruct (blk_ok D 15 HD) as [Hl Hok]; [fs_lia|].
  assert (blk D 15 !! bit_byte b = Some (blk D 15 !!! bit_byte b)) as Hlk.
  { apply list_lookup_lookup_total_lt. rewrite Hl. fs_lia. }
  split; [done|]. by eapply Forall_lookup_1.
Qed.

Lemma mark_ok D b v : disk_ok D → is_data b → disk_ok (mark D b v).
Proof.
  intros HD Hb. destruct (bitmap_range b Hb) as (Hblk & Hbyte & Hpos).
  destruct (bitmap_byte_ok D b HD Hb) as [_ Hx]. unfold mark. rewrite Hblk in *.
  destruct (blk_ok D 15 HD) as [Hl Hok]; [fs_lia|].
  apply upd_ok; [done|]. split; [by rewrite length_insert|]. apply Forall_insert; [done|].
  destruct v; [apply byte_ok_lor; [done|by apply bit_mask_ok]|by apply byte_ok_ldiff].
Qed.

Lemma used_mark D b v b' :
  disk_ok D → is_data b → is_data b' →
  used (mark D b v) b' = if decide (b = b') then v else used D b'.
Proof.
  intros HD Hb Hb'. destruct (bitmap_range b Hb) as (Hblk & Hbyte & Hpos).
  destruct (bitmap_range b' Hb') as (Hblk' & Hbyte' & Hpos').
  destruct (bitmap_byte_ok D b HD Hb) as [_ Hx].
  unfold used, mark. rewrite Hblk, Hblk' in *. rewrite blk_upd by (done || fs_lia).
  destruct (blk_ok D 15 HD) as [Hl _]; [fs_lia|].
  destruct (decide (bit_byte b = bit_byte b')) as [Heq|Hne].
  - rewrite <-Heq in *. rewrite list_lookup_total_insert_eq by (rewrite Hl; fs_lia).
    rewrite Z.shiftl_1_l.
    destruct (decide (b = b')) as [<-|Hbb].
    + destruct v; [rewrite Z.lor_spec, Z.pow2_bits_true by lia; apply orb_true_r|].
      rewrite Z.ldiff_spec, Z.pow2_bits_true by lia. apply andb_false_r.
    + assert (bit_pos b ≠ bit_pos b') by (intros ?; apply Hbb; by apply bit_eq).
      destruct v; [rewrite Z.lor_spec, Z.pow2_bits_false by lia; apply orb_false_r|].
      rewrite Z.ldiff_spec, Z.pow2_bits_false by lia. apply andb_true_r.
  - rewrite list_lookup_total_insert_ne by done.
    rewrite decide_False; [done|]. by intros ->.
Qed.

Lemma used_upd D b d b' :
  is_data b → is_data b' → used (upd D b d) b' = used D b'.
Proof.
  intros Hb Hb'. unfold used. destruct (bitmap_range b' Hb') as (-> & _ & _).
  unfold is_data in Hb. rewrite blk_upd_ne; [done| | |]; fs_lia.
Qed.

Lemma blk_mark D b v b' : is_data b → is_data b' → blk (mark D b v) b' = blk D b'.
Proof.
  intros Hb Hb'. unfold mark. destruct (bitmap_range b Hb) as (-> & _ & _).
  unfold is_data in Hb'. rewrite blk_upd_ne; [done| | |]; fs_lia.
Qed.

Definition is_inum (i : Z) : Prop := 0 ≤ i < NINODES.

Lemma dinode_range i :
  is_inum i → 2 ≤ dinode_block i < 15 ∧ (dinode_off i + 64 ≤ 1024)%nat.
Proof.
  unfold is_inum, dinode_block, dinode_off. fs_consts. intros Hi.
  assert (0 ≤ i / 16 < 13) by (split; [apply Z.div_pos|apply Z.div_lt_upper_bound]; lia).
  pose proof (Z.mod_pos_bound i 16). lia.
Qed.

Lemma put_dinode_ok D i d :
  disk_ok D → is_inum i → length (d_addrs d) = Z.to_nat (NDIRECT + 1) → disk_ok (put_dinode D i d).
Proof.
  intros HD Hi Hd. destruct (dinode_range i Hi) as [Hb Ho].
  destruct (blk_ok D (dinode_block i) HD) as [Hl Hok]; [fs_lia|].
  apply upd_ok; [done|]. split.
  - rewrite length_splice; [done|]. rewrite length_Dinode_bytes, Hl by done. fs_lia.
  - apply Forall_splice; [apply Dinode_bytes_ok|done].
Qed.

Lemma dinode_put D i d j :
  disk_ok D → is_inum i → is_inum j → Dinode_ok d →
  dinode (put_dinode D i d) j = if decide (i = j) then d else dinode D j.
Proof.
  intros HD Hi Hj Hd. destruct (dinode_range i Hi) as [Hb Ho], (dinode_range j Hj) as [Hb' Ho'].
  pose proof (length_Dinode_bytes d (dok_len _ Hd)) as Hlen.
  destruct (blk_ok D (dinode_block i) HD) as [Hl _]; [fs_lia|].
  unfold dinode, put_dinode. destruct (decide (i = j)) as [<-|Hne].
  - rewrite blk_upd by (done || fs_lia). rewrite <-Hlen, slice_splice_same.
    + by apply Dinode_roundtrip.
    + rewrite Hlen, Hl. fs_lia.
  - destruct (decide (dinode_block i = dinode_block j)) as [Heq|Hblk].
    + rewrite <-Heq, blk_upd by (done || fs_lia). f_equal. unfold dinode_off, dinode_block in *.
      assert (i mod IPB ≠ j mod IPB) as Hmod.
      { intros Hm. apply Hne. rewrite (Z.div_mod i IPB), (Z.div_mod j IPB) by fs_lia.
        replace (j / IPB) with (i / IPB) by lia. by rewrite Hm. }
      fs_consts. pose proof (Z.mod_pos_bound i 16). pose proof (Z.mod_pos_bound j 16).
      apply slice_splice_other; rewrite ?Hlen, ?Hl; lia.
    + rewrite blk_upd_ne; [done|lia|lia|done].
Qed.

(** An inode block is neither a data block nor the bitmap. *)
Lemma blk_put_dinode D i d b : is_inum i → 15 ≤ b → blk (put_dinode D i d) b = blk D b.
Proof. intros Hi Hb. destruct (dinode_range i Hi). apply blk_upd_ne; lia. Qed.

Lemma used_put_dinode D i d b : is_inum i → is_data b → used (put_dinode D i d) b = used D b.
Proof.
  intros Hi Hb. unfold used. destruct (bitmap_range b Hb) as (-> & _ & _).
  by rewrite blk_put_dinode by (done || lia).
Qed.

Lemma dinode_upd D b d i : is_inum i → 15 ≤ b → dinode (upd D b d) i = dinode D i.
Proof. intros Hi Hb. destruct (dinode_range i Hi). unfold dinode. by rewrite blk_upd_ne by lia. Qed.

Lemma dinode_mark D b v i : is_inum i → is_data b → dinode (mark D b v) i = dinode D i.
Proof.
  intros Hi Hb. unfold mark. destruct (bitmap_range b Hb) as (-> & _ & _).
  apply dinode_upd; [done|lia].
Qed.

(** ** Specifications *)

Lemma ready_disk k s : ready k s → disk_ok (disk s).
Proof. intros []. by eapply cache_disk. Qed.

Lemma wp_iblock {St} i (s : St) Q : is_inum i → Q (dinode_block i) s → wp (iblock i) s Q.
Proof.
  intros Hi HQ. destruct (dinode_range i Hi). unfold iblock, dinode_block in *.
  apply wp_add_at; [fs_lia|done].
Qed.

Lemma read_dinode_spec k i s :
  ready (S k) s → is_inum i →
  wp (read_dinode i) s (λ d s', d = dinode (disk s) i ∧ ext s (disk s) s').
Proof.
  intros Hr Hi. destruct (dinode_range i Hi). unfold read_dinode.
  wp_step. apply wp_iblock; [done|].
  wp_call block_read_spec; [done|lia|apply blk_lookup; [by eapply ready_disk|fs_lia]|].
  by intros d s' [-> He].
Qed.

Lemma write_dinode_spec k i d s :
  ready (S k) s → is_inum i → length (d_addrs d) = Z.to_nat (NDIRECT + 1) →
  wp (write_dinode i d) s (λ _ s', ext s (put_dinode (disk s) i d) s').
Proof.
  intros Hr Hi Hd. pose proof (ready_disk _ _ Hr) as HD.
  destruct (dinode_range i Hi). unfold write_dinode.
  wp_step. apply wp_iblock; [done|].
  wp_call (block_write_spec k); [done|lia|apply blk_lookup; [done|fs_lia]|done| |done].
  rewrite <-(blk_upd (disk s) (dinode_block i)) by (done || fs_lia).
  apply blk_ok; [by apply put_dinode_ok|fs_lia].
Qed.

Lemma wp_bblock {St} b (s : St) Q : is_data b → Q (bmap_block b) s → wp (bblock b) s Q.
Proof.
  intros Hb HQ. unfold bblock. unfold is_data in Hb.
  assert (0 ≤ b / BPB ≤ 2000) by (split; [apply Z.div_pos|apply Z.div_le_upper_bound]; fs_lia).
  apply wp_add_at; [fs_lia|done].
Qed.

(** The bitmap byte of a data block, as the code reads it. *)
Lemma bitmap_aget {St A} D b (f : Z → M St A) (s : St) :
  disk_ok D → is_data b →
  (x ← aget (blk D (bmap_block b)) (b mod BPB / 8); f x) s
  = f (blk D (bmap_block b) !!! bit_byte b) s.
Proof.
  intros HD Hb. destruct (bitmap_byte_ok D b HD Hb) as [Hx _].
  unfold aget. rewrite (proj2 (Z.leb_le _ _)); [|unfold is_data in Hb; fs_consts;
    apply Z.div_pos; [apply Z.mod_pos_bound|]; lia].
  fold (bit_byte b). by rewrite Hx.
Qed.

Lemma mark_block_ok D b v : disk_ok D → is_data b → block_ok (blk (mark D b v) (bmap_block b)).
Proof.
  intros HD Hb. destruct (bitmap_range b Hb) as (Hblk & _). rewrite Hblk.
  apply blk_ok; [by apply mark_ok|fs_lia].
Qed.

Lemma blk_mark_self D b v :
  disk_ok D → is_data b →
  blk (mark D b v) (bmap_block b) =
    <[bit_byte b := if v then Z.lor (blk D (bmap_block b) !!! bit_byte b) (Z.shiftl 1 (bit_pos b))
                    else Z.ldiff (blk D (bmap_block b) !!! bit_byte b) (Z.shiftl 1 (bit_pos b))]>
      (blk D (bmap_block b)).
Proof.
  intros HD Hb. destruct (bitmap_range b Hb) as (Hblk & _). unfold mark.
  apply blk_upd; [done|]. rewrite Hblk. fs_lia.
Qed.

Lemma mark_upd D b v :
  disk_ok D → is_data b → upd D (bmap_block b) (blk (mark D b v) (bmap_block b)) = mark D b v.
Proof. intros HD Hb. by rewrite blk_mark_self. Qed.

(** One probe of the bitmap by [balloc]. *)
Lemma balloc_try_spec k b s :
  ready (S k) s → is_data b →
  wp (balloc_try b tt) s (λ r s',
    if used (disk s) b then r = inl tt ∧ ext s (disk s) s'
    else r = inr b ∧ ext s (upd (mark (disk s) b true) b zero_block) s').
Proof.
  intros Hr Hb. pose proof (ready_disk _ _ Hr) as HD.
  pose proof (ready_unlocked _ _ Hr) as Hu.
  destruct (bitmap_range b Hb) as (Hblk & Hbyte & Hpos).
  unfold balloc_try. wp_step. apply wp_bblock; [done|]. cbv zeta.
  wp_call bread_spec; [done|rewrite Hblk; fs_lia|]. intros r s1 (i & -> & Hpin).
  wp_step. eapply wp_expect; [done|].
  pose proof Hpin as [Hd1 Ho1 Hp1 _ Hh1].
  set (od := if used (disk s) b then None else Some (blk (mark (disk s) b true) (bmap_block b))).
  wp_call (buf_update_spec _ s1 _ i (bmap_block b) (blk (disk s) (bmap_block b))
    (negb (used (disk s) b)) od);
    [by rewrite Hd1|by rewrite Hh1|done|rewrite Hd1, Hblk; apply blk_lookup; [done|fs_lia]| | |].
  { intros s0. rewrite bitmap_aget by done. fold (bit_pos b).
    rewrite land_bit by lia. fold (used (disk s) b). subst od.
    destruct (used (disk s) b); [done|]. cbn [negb].
    rewrite blk_mark_self by done. by fold (bit_byte b). }
  { subst od. intros d' Hd'. destruct (used (disk s) b); [done|]. injection Hd' as <-.
    by apply mark_block_ok. }
  intros found s2 [-> He]. subst od.
  destruct (used (disk s) b) eqn:Hused; cbn [negb].
  - wp_call brelse_spec; [done|done|done|]. intros [] s3 He3. wp_steps.
    rewrite Hd1 in He3. done.
  - wp_call brelse_spec; [done|done|done|]. intros [] s3 He3.
    assert (ext s (mark (disk s) b true) s3) as He4.
    { rewrite Hd1 in He3. by rewrite <-mark_upd. }
    pose proof (ext_ready _ _ _ _ Hr He4) as Hr3.
    assert (0 ≤ b < FSSIZE) as Hbr by (unfold is_data in Hb; fs_lia).
    wp_call (block_write_spec k _ b _ s3 (blk (disk s3) b) zero_block);
      [done|lia|apply blk_lookup; [by eapply ready_disk|lia]| |apply zero_block_ok|].
    { intros s0. pose proof (blk_ok (disk s3) b) as [Hl _]; [by eapply ready_disk|lia|].
      by rewrite Hl. }
    intros [] s5 He5. wp_steps. split; [done|].
    rewrite (ext_disk _ _ _ He4) in He5. by eapply ext_trans.
Qed.

Lemma balloc_spec k s :
  ready (S k) s →
  wp balloc s (λ r s',
    match r with
    | None => (∀ b, is_data b → used (disk s) b = true) ∧ ext s (disk s) s'
    | Some b => is_data b ∧ used (disk s) b = false ∧
        (∀ b', DATASTART ≤ b' < b → used (disk s) b' = true) ∧
        ext s (upd (mark (disk s) b true) b zero_block) s'
    end).
Proof.
  intros Hr. unfold balloc. wp_step.
  apply (wp_for_each (λ pre _ s', ext s (disk s) s' ∧
    ∀ b, DATASTART ≤ b < DATASTART + Z.of_nat (length pre) → used (disk s) b = true)).
  - split; [by apply ext_refl, Hr|]. simpl. lia.
  - intros pre b post [] s1 Hxs [He Hpre].
    assert (b = DATASTART + Z.of_nat (length pre) ∧ is_data b) as [Hb Hd].
    { assert (range DATASTART FSSIZE !! length pre = Some b) as Hl
        by (rewrite Hxs; by apply list_lookup_middle).
      apply lookup_seqZ in Hl. unfold is_data. fs_lia. }
    wp_call (balloc_try_spec k); [by eapply ext_ready|done|].
    rewrite (ext_disk _ _ _ He). intros r s2.
    destruct (used (disk s) b) eqn:Hused; intros [-> He2].
    + split; [by eapply ext_trans|]. intros b' Hb'.
      rewrite length_app in Hb'. simpl in Hb'.
      destruct (decide (b' = b)) as [->|]; [done|]. apply Hpre. lia.
    + wp_steps. split_and!; [done|done| |by eapply ext_trans].
      intros b' Hb'. apply Hpre. lia.
  - intros [] s1 [He Hall]. wp_steps. split; [|done]. intros b Hb. apply Hall.
    unfold range. rewrite length_seqZ. unfold is_data in Hb. fs_lia.
Qed.

Lemma bfree_spec k b s :
  ready (S k) s → is_data b → used (disk s) b = true →
  wp (bfree b) s (λ _ s', ext s (mark (disk s) b false) s').
Proof.
  intros Hr Hb Hused. pose proof (ready_disk _ _ Hr) as HD.
  destruct (bitmap_range b Hb) as (Hblk & Hbyte & Hpos).
  pose proof Hb as Hb'. unfold is_data in Hb'. unfold bfree.
  rewrite (proj2 (Z.ltb_ge _ _)), (proj2 (Z.leb_gt _ _)) by lia. cbn [orb].
  wp_step. apply wp_bblock; [done|]. cbv zeta.
  wp_call (block_write_spec k _ _ _ s (blk (disk s) (bmap_block b))
    (blk (mark (disk s) b false) (bmap_block b)));
    [done|lia|rewrite Hblk; apply blk_lookup; [done|fs_lia]| |by apply mark_block_ok|].
  { intros s0. rewrite bitmap_aget by done. fold (bit_pos b).
    rewrite land_bit by lia. fold (used (disk s) b). rewrite Hused. cbn [negb].
    rewrite blk_mark_self, land_not_mask by (done || by apply bitmap_byte_ok).
    by fold (bit_byte b). }
  intros [] s' He. by rewrite <-mark_upd.
Qed.

Lemma bfree_invalid b s : ¬ is_data b → bfree b s = Fault (Panic "bfree: invalid block").
Proof.
  intros Hb. unfold bfree. replace ((b <? DATASTART) || (FSSIZE <=? b)) with true; [done|].
  symmetry. apply orb_true_iff. unfold is_data in Hb.
  destruct (Z.ltb_spec b DATASTART); [by left|right]. apply Z.leb_le. lia.
Qed.

Lemma bfree_free k b s :
  ready (S k) s → is_data b → used (disk s) b = false →
  bfree b s = Fault (Panic "freeing free block").
Proof.
  intros Hr Hb Hused. pose proof (ready_disk _ _ Hr) as HD.
  pose proof (ready_unlocked _ _ Hr) as Hu.
  destruct (bitmap_range b Hb) as (Hblk & Hbyte & Hpos).
  pose proof Hb as Hb'. unfold is_data in Hb'. unfold bfree.
  rewrite (proj2 (Z.ltb_ge _ _)), (proj2 (Z.leb_gt _ _)) by lia. cbn [orb].
  apply fault_bind, wp_bblock; [done|]. cbv zeta. unfold block_write.
  apply fault_bind. eapply wp_mono; [eapply bread_spec; [done|rewrite Hblk; fs_lia]|].
  intros r s1 (i & -> & Hpin). pose proof Hpin as [Hd1 Ho1 Hp1 _ Hh1].
  apply fault_bind. eapply wp_expect; [done|].
  destruct (pinned_slot _ _ _ _ _ Ho1 Hp1) as (bf & Hbf & Hbb & Hv & _ & _ & Hdd & _).
  assert (b_data bf = blk (disk s) (bmap_block b)) as Hdata.
  { rewrite Hblk in *. pose proof (blk_lookup (disk s) 15 HD ltac:(fs_lia)). congruence. }
  rewrite <-Hh1 in Hu. destruct s1 as [D1 B1 I1 h1]. fs_simpl. subst D1.
  apply fault_bind_l. unfold buf_write, guarded. apply fault_bind. wp_lock.
  apply fault_bind_l. apply fault_bind. eapply wp_buf; [done|]. rewrite Hdata.
  apply fault_bind_l. rewrite bitmap_aget by done. fold (bit_pos b).
  rewrite land_bit by lia. fold (used (disk s) b). by rewrite Hused.
Qed.

(** ** Main theorems *)

(** [balloc] is first fit: it returns the lowest free data block, marks it
    and only it as used, hands it out filled with zeros, and leaves every other
    data block and every on-disk inode as it was; it fails exactly when no data
    block is free, and then changes nothing. *)
Theorem balloc_first_fit k s :
  ready (S k) s →
  wp balloc s (λ r s',
    match r with
    | Some b => is_data b ∧ used (disk s) b = false ∧
        (∀ b', DATASTART ≤ b' < b → used (disk s) b' = true) ∧
        blk (disk s') b = zero_block ∧
        (∀ b', is_data b' → used (disk s') b' = bool_decide (b = b') || used (disk s) b') ∧
        (∀ b', is_data b' → b' ≠ b → blk (disk s') b' = blk (disk s) b') ∧
        (∀ i, is_inum i → dinode (disk s') i = dinode (disk s) i)
    | None => (∀ b, is_data b → used (disk s) b = true) ∧ disk s' = disk s
    end ∧ ext s (disk s') s').
Proof.
  intros Hr. pose proof (ready_disk _ _ Hr) as HD. wp_call (balloc_spec k); [done|].
  intros [b|] s'.
  - intros (Hb & Hu & Hfirst & He). pose proof (ext_disk _ _ _ He) as Hd. rewrite Hd.
    pose proof (mark_ok _ b true HD Hb) as HD1. pose proof Hb as Hb'. unfold is_data in Hb'.
    split; [|done]. split_and!; try done.
    + apply blk_upd; [done|fs_lia].
    + intros b' Hb2. rewrite used_upd, used_mark by done. by repeat case_decide; case_bool_decide.
    + intros b' Hb2 Hne. rewrite blk_upd_ne, blk_mark; [done|done|done| | |done];
        unfold is_data in Hb2; fs_lia.
    + intros i Hi. rewrite dinode_upd, dinode_mark; [done|done|done|done|fs_lia].
  - intros [Hfull He]. pose proof (ext_disk _ _ _ He) as Hd. rewrite Hd. done.
Qed.

(** Freeing undoes allocating: [bfree] of the block [balloc] returned makes
    the bitmap what it was before, and the next [balloc] would return the same
    block again. *)
Theorem balloc_bfree k s :
  ready (S k) s →
  wp (r ← balloc;
      match r with
      | Some b => bfree b;; r' ← balloc; mret (Some b, r')
      | None => mret (None, None)
      end) s (λ '(r, r') s',
    r' = r ∧ match r with
             | Some b => ∀ b', is_data b' → used (disk s') b' = bool_decide (b = b') || used (disk s) b'
             | None => disk s' = disk s
             end).
Proof.
  intros Hr. pose proof (ready_disk _ _ Hr) as HD. wp_call (balloc_spec k); [done|]. intros [b|] s1.
  2: { intros [_ He]. wp_steps. split; [done|by apply (ext_disk _ _ _ He)]. }
  intros (Hb & Hu & Hfirst & He). pose proof (ext_disk _ _ _ He) as Hd.
  pose proof (ext_ready _ _ _ _ Hr He) as Hr1. pose proof (ready_disk _ _ Hr1) as HD1.
  assert (∀ b', is_data b' → used (disk s1) b' = bool_decide (b = b') || used (disk s) b') as Hu1.
  { intros b' Hb'. rewrite Hd, used_upd, used_mark by done. by repeat case_decide; case_bool_decide. }
  wp_call (bfree_spec k); [done|done|rewrite Hu1 by done; by rewrite bool_decide_true|].
  intros [] s2 He2. pose proof (ext_ready _ _ _ _ Hr1 He2) as Hr2.
  assert (∀ b', is_data b' → used (disk s2) b' = used (disk s) b') as Hu2.
  { intros b' Hb'. rewrite (ext_disk _ _ _ He2), used_mark by done.
    destruct (decide (b = b')) as [<-|]; [done|]. rewrite Hu1 by done. by rewrite bool_decide_false. }
  wp_call (balloc_spec k); [done|]. intros [b2|] s3.
  2: { intros [Hfull _]. specialize (Hfull b Hb). rewrite Hu2 in Hfull by done. congruence. }
  intros (Hb2 & Hub2 & Hfirst2 & He3). wp_steps. rewrite Hu2 in Hub2 by done.
  assert (b2 = b) as ->.
  { unfold is_data in *. destruct (Z.lt_trichotomy b2 b) as [Hlt|[|Hgt]]; [|done|].
    - rewrite Hfirst in Hub2 by lia. done.
    - specialize (Hfirst2 b ltac:(lia)). rewrite Hu2 in Hfirst2 by (unfold is_data; lia). congruence. }
  split; [done|]. intros b' Hb'. pose proof (ready_disk _ _ Hr2).
  rewrite (ext_disk _ _ _ He3), used_upd, used_mark by done. rewrite Hu2 by done.
  by repeat case_decide; case_bool_decide.
Qed.

(** [bfree] stops the kernel on a block outside the data area and on a
    block that is already free, so that no double free goes unnoticed. *)
Theorem bfree_rejects k b s :
  ready (S k) s → ¬ is_data b ∨ used (disk s) b = false →
  bfree b s = Fault (Panic (if bool_decide (DATASTART ≤ b < FSSIZE) then "freeing free block"
                            else "bfree: invalid block")).
Proof.
  intros Hr Hc. case_bool_decide as Hd.
  - destruct Hc as [Hn|Hu]; [done|]. by eapply bfree_free.
  - by apply bfree_invalid.
Qed.

(** The on-disk inode table: [read_dinode] returns what [write_dinode]
    stored last for that inode, and what was there before for every other one. *)
Theorem write_read_dinode k i j d s :
  ready (S k) s → is_inum i → is_inum j → Dinode_ok d →
  wp (write_dinode i d;; read_dinode j) s (λ d' s',
    d' = (if decide (i = j) then d else dinode (disk s) j) ∧
    (∀ b, is_data b → used (disk s') b = used (disk s) b ∧ blk (disk s') b = blk (disk s) b)).
Proof.
  intros Hr Hi Hj Hd. pose proof (ready_disk _ _ Hr) as HD.
  wp_call (write_dinode_spec k); [done|done|apply Hd|]. intros [] s1 He1.
  wp_call (read_dinode_spec k); [by eapply ext_ready|done|]. intros d' s2 [-> He2].
  rewrite (ext_disk _ _ _ He2), (ext_disk _ _ _ He1). split; [by apply dinode_put|].
  intros b Hb. rewrite used_put_dinode by done. split; [done|]. apply blk_put_dinode; [done|].
  unfold is_data in Hb. fs_lia.
Qed.

Lemma balloc_first_fit_witness :
  wp balloc boot_fs (λ r s',
    match r with
    | Some b => is_data b ∧ used (disk boot_fs) b = false ∧
        (∀ b', DATASTART ≤ b' < b → used (disk boot_fs) b' = true) ∧
        blk (disk s') b = zero_block ∧
        (∀ b', is_data b' → used (disk s') b' = bool_decide (b = b') || used (disk boot_fs) b') ∧
        (∀ b', is_data b' → b' ≠ b → blk (disk s') b' = blk (disk boot_fs) b') ∧
        (∀ i, is_inum i → dinode (disk s') i = dinode (disk boot_fs) i)
    | None => (∀ b, is_data b → used (disk boot_fs) b = true) ∧ disk s' = disk boot_fs
    end ∧ ext boot_fs (disk s') s').
Proof. apply (balloc_first_fit 15), boot_ready. Defined.

Lemma balloc_bfree_witness :
  wp (r ← balloc;
      match r with
      | Some b => bfree b;; r' ← balloc; mret (Some b, r')
      | None => mret (None, None)
      end) boot_fs (λ '(r, r') s',
    r' = r ∧ match r with
             | Some b => ∀ b', is_data b' → used (disk s') b' = bool_decide (b = b') || used (disk boot_fs) b'
             | None => disk s' = disk boot_fs
             end).
Proof. apply (balloc_bfree 15), boot_ready. Defined.

Lemma bfree_rejects_witness :
  bfree 16 boot_fs = Fault (Panic "freeing free block") ∧
  bfree 3 boot_fs = Fault (Panic "bfree: invalid block").
Proof.
  split; [apply (bfree_rejects 15 16)|apply (bfree_rejects 15 3)]; try apply boot_ready.
  - right. vm_compute. done.
  - left. unfold is_data. fs_lia.
Defined.

Definition demo_dinode : Dinode := mkDinode T_FILE 0 0 1 0 zero_addrs.

Lemma demo_dinode_ok : Dinode_ok demo_dinode.
Proof. split; try done. by apply Forall_replicate. Qed.

Lemma write_read_dinode_witness :
  wp (write_dinode 1 demo_dinode;; read_dinode 1) boot_fs (λ d' s',
    d' = demo_dinode ∧
    (∀ b, is_data b → used (disk s') b = used (disk boot_fs) b ∧ blk (disk s') b = blk (disk boot_fs) b)).
Proof. apply (write_read_dinode 15 1 1); [apply boot_ready|done|done|apply demo_dinode_ok]. Defined.
