(* ===== verification/Bmap.v ===== *)
(** * Block mapping of an inode (src/src/fs.rs, lines 364-439)

    [bmap_lookup] and [bmap_alloc], the abstraction of a file as its bytes
    ([fbyte]), and the relation [evolve]: what an operation on one inode may do
    to the rest of the disk. *)

From S2P Require Import Prelude Spinlock FsBase Bcache Balloc.

(** ** Operations

    A parameter [ip: &mut Inode] is an exclusive borrow of a locked cache slot:
    the operations take its value and return the new one. *)

(** [(blockno != 0).then_some(blockno)] *)
Definition nonzero (blockno : u32) : option u32 :=
  if negb (blockno =? 0) then Some blockno else None.

Definition bmap_lookup (ip : Inode) (bn : u32) : M fs (option u32) :=
  if bn <? NDIRECT then
    blockno ← aget (addrs ip) bn;
    mret (nonzero blockno)
  else
    bn ← sub_at U32_MAX bn NDIRECT;
    if bn <? NINDIRECT then
      indirect_block ← aget (addrs ip) NDIRECT;
      if indirect_block =? 0 then mret None
      else
        blockno ← block_read "bmap_lookup: bread indirect" indirect_block (u32_at (Z.to_nat bn));
        mret (nonzero blockno)
    else mret None.

(** The part of [bmap_alloc] after the indirect block is known to exist. *)
Definition bmap_alloc_indirect (ip : Inode) (bn : u32) : M fs (option u32 * Inode) :=
  indirect_block ← aget (addrs ip) NDIRECT;
  r ← bread indirect_block;
  bp ← expect r "bmap_alloc: bread indirect";
  let off := bn * 4 in
  addr ← buf_read bp (u32_at (Z.to_nat bn));
  if addr =? 0 then
    r ← balloc;
    match r with
    | Some addr =>
        buf_write bp (λ d, mret (splice (Z.to_nat off) (le_bytes 4 addr) d));;
        brelse bp;;
        mret (Some addr, ip)
    | None => brelse bp;; mret (None, ip)
    end
  else
    brelse bp;;
    mret (Some addr, ip).

Definition bmap_alloc (ip : Inode) (bn : u32) : M fs (option u32 * Inode) :=
  if bn <? NDIRECT then
    a ← aget (addrs ip) bn;
    if a =? 0 then
      r ← balloc;
      match r with
      | None => mret (None, ip)
      | Some b =>
          let ip := set_addrs (<[Z.to_nat bn := b]> (addrs ip)) ip in
          a ← aget (addrs ip) bn;
          mret (Some a, ip)
      end
    else mret (Some a, ip)
  else
    bn ← sub_at U32_MAX bn NDIRECT;
    if bn <? NINDIRECT then
      a ← aget (addrs ip) NDIRECT;
      if a =? 0 then
        r ← balloc;
        match r with
        | None => mret (None, ip)
        | Some b =>
            bmap_alloc_indirect (set_addrs (<[Z.to_nat NDIRECT := b]> (addrs ip)) ip) bn
        end
      else bmap_alloc_indirect ip bn
    else mret (None, ip).

(** ** The file behind an inode *)

Definition ind (a : list u32) : Z := a !!! Z.to_nat NDIRECT.

(** Disk block of the [bn]-th block of the file, [0] when there is none. *)
Definition bmap (D : list (list u8)) (a : list u32) (bn : Z) : Z :=
  if bn <? NDIRECT then a !!! Z.to_nat bn
  else if bn - NDIRECT <? NINDIRECT then
    if ind a =? 0 then 0 else u32_at (Z.to_nat (bn - NDIRECT)) (blk D (ind a))
  else 0.

Definition is_bn (bn : Z) : Prop := 0 ≤ bn < MAXFILE.
Definition is_pos (p : Z) : Prop := 0 ≤ p < MAXFILE * BSIZE.

(** Byte [p] of the file; blocks that are not mapped read as zero. *)
Definition fbyte (D : list (list u8)) (a : list u32) (p : Z) : Z :=
  if bmap D a (p / BSIZE) =? 0 then 0
  else blk D (bmap D a (p / BSIZE)) !!! Z.to_nat (p mod BSIZE).

Definition owned (D : list (list u8)) (a : list u32) (b : Z) : Prop :=
  b ≠ 0 ∧ (b = ind a ∨ ∃ bn, is_bn bn ∧ bmap D a bn = b).

Record imap_ok (D : list (list u8)) (a : list u32) : Prop := {
  im_len : length a = Z.to_nat (NDIRECT + 1);
  im_ind : ind a ≠ 0 → is_data (ind a) ∧ used D (ind a) = true;
  im_blk bn : is_bn bn → bmap D a bn ≠ 0 →
    is_data (bmap D a bn) ∧ used D (bmap D a bn) = true ∧ bmap D a bn ≠ ind a;
  im_inj bn bn' : is_bn bn → is_bn bn' → bmap D a bn ≠ 0 →
    bmap D a bn = bmap D a bn' → bn = bn';
}.

(** [evolve D a D' a']: an inode operation changed the disk from [D] to [D'] and
    the inode's addresses from [a] to [a'].  Blocks stay allocated, blocks of
    others keep their contents, new blocks of the inode were free before, and
    no on-disk inode is touched. *)
Record evolve (D : list (list u8)) (a : list u32) (D' : list (list u8)) (a' : list u32) : Prop := {
  ev_imap : imap_ok D' a';
  ev_used b : is_data b → used D b = true → used D' b = true;
  ev_other b : is_data b → used D b = true → ¬ owned D a b → blk D' b = blk D b;
  ev_fresh b : owned D' a' b → owned D a b ∨ used D b = false;
  ev_bmap bn : is_bn bn → bmap D a bn ≠ 0 → bmap D' a' bn = bmap D a bn;
  ev_dinode i : is_inum i → dinode D' i = dinode D i;
}.

Lemma owned_data D a b : imap_ok D a → owned D a b → is_data b ∧ used D b = true.
Proof.
  intros Hi [H0 [->|(bn & Hbn & <-)]]; [by apply (im_ind _ _ Hi)|].
  by destruct (im_blk _ _ Hi bn Hbn H0) as (? & ? & _).
Qed.

Lemma evolve_refl D a : imap_ok D a → evolve D a D a.
Proof. intros Hi. split; auto. Qed.

Lemma evolve_trans D a D1 a1 D2 a2 :
  evolve D a D1 a1 → evolve D1 a1 D2 a2 → evolve D a D2 a2.
Proof.
  intros E1 E2. split.
  - apply E2.
  - intros b Hb Hu. apply E2; [done|]. by apply E1.
  - intros b Hb Hu Ho. rewrite <-(ev_other _ _ _ _ E1 b) by done.
    apply E2; [done|by apply E1|]. intros Ho1.
    destruct (ev_fresh _ _ _ _ E1 b Ho1) as [?|?]; congruence.
  - intros b Ho2. pose proof (owned_data _ _ _ (ev_imap _ _ _ _ E2) Ho2) as [Hb _].
    destruct (ev_fresh _ _ _ _ E2 b Ho2) as [Ho1|Hu1]; [by apply E1|]. right.
    destruct (used D b) eqn:Hu; [|done].
    by rewrite (ev_used _ _ _ _ E1 b Hb Hu) in Hu1.
  - intros bn Hbn H0. pose proof (ev_bmap _ _ _ _ E1 bn Hbn H0) as Heq.
    rewrite <-Heq. apply (ev_bmap _ _ _ _ E2); [done|congruence].
  - intros i Hi. rewrite (ev_dinode _ _ _ _ E2), (ev_dinode _ _ _ _ E1); done.
Qed.

(** ** Taking a free block *)

Definition alloc (D : list (list u8)) (b : Z) : list (list u8) := upd (mark D b true) b zero_block.
Definition fresh (D : list (list u8)) (b : Z) : Prop := is_data b ∧ used D b = false.

Section alloc.
Context (D : list (list u8)) (HD : disk_ok D) (b : Z) (Hb : fresh D b).

Lemma alloc_ok : disk_ok (alloc D b).
Proof. apply upd_ok; [apply mark_ok; [done|apply Hb]|apply zero_block_ok]. Qed.

Lemma used_alloc b' : is_data b' → used (alloc D b) b' = if decide (b = b') then true else used D b'.
Proof.
  intros Hb'. unfold alloc. rewrite used_upd, used_mark by (done || apply Hb). done.
Qed.

Lemma used_alloc_mono b' : is_data b' → used D b' = true → used (alloc D b) b' = true.
Proof. intros ??. rewrite used_alloc by done. by case_decide. Qed.

Lemma blk_alloc_self : blk (alloc D b) b = zero_block.
Proof.
  destruct Hb as [Hd _]. apply blk_upd; [by apply mark_ok|]. unfold is_data in Hd. fs_lia.
Qed.

Lemma blk_alloc_used b' : is_data b' → used D b' = true → blk (alloc D b) b' = blk D b'.
Proof.
  intros Hd' Hu. destruct Hb as [Hd Hf]. unfold alloc.
  rewrite blk_upd_ne, blk_mark; [done|done|done| | |congruence].
  all: unfold is_data in *; fs_lia.
Qed.

Lemma dinode_alloc i : is_inum i → dinode (alloc D b) i = dinode D i.
Proof.
  intros Hi. destruct Hb as [Hd _]. unfold alloc.
  rewrite dinode_upd, dinode_mark; [done|done|done|done|unfold is_data in Hd; fs_lia].
Qed.
End alloc.

(** ** The ways a file gains a block

    [who = Some bn]: block [bn] of the file; [who = None]: the indirect block. *)
Section grow.
Context (D D' : list (list u8)) (a a' : list u32) (b : Z) (who : option Z).
Context (Hmap : imap_ok D a) (Hfresh : fresh D b).
Context (Hlen : length a' = Z.to_nat (NDIRECT + 1)).
Context (Hused : ∀ b', is_data b' → used D' b' = if decide (b = b') then true else used D b').
Context (Hblk : ∀ b', is_data b' → used D b' = true → b' ≠ ind a → blk D' b' = blk D b').
Context (Hzero : blk D' b = zero_block).
Context (Hdin : ∀ i, is_inum i → dinode D' i = dinode D i).
Context (Hfree : match who with Some bn => bmap D a bn = 0 | None => ind a = 0 end).
Context (Hind : ind a' = if decide (who = None) then b else ind a).
Context (Hbmap : ∀ bn, is_bn bn → bmap D' a' bn = if decide (who = Some bn) then b else bmap D a bn).

Lemma grow_b_nonzero : b ≠ 0.
Proof. destruct Hfresh as [Hd _]. unfold is_data in Hd. fs_lia. Qed.

Lemma grow_not_owned : ¬ owned D a b.
Proof.
  intros Ho. destruct (owned_data _ _ _ Hmap Ho) as [_ Hu]. destruct Hfresh. congruence.
Qed.

Lemma grow_old_ne bn : is_bn bn → bmap D a bn ≠ 0 → bmap D a bn ≠ b.
Proof.
  intros Hbn H0 Heq. apply grow_not_owned. split; [apply grow_b_nonzero|]. eauto.
Qed.

Lemma grow_used b' : is_data b' → used D b' = true → used D' b' = true.
Proof. intros Hd Hu. rewrite (Hused b' Hd). by destruct (decide (b = b')). Qed.

Lemma grow_imap : imap_ok D' a'.
Proof.
  pose proof grow_b_nonzero as Hb0. destruct Hfresh as [Hd Hf].
  assert (ind a ≠ 0 → ind a ≠ b) as Hib.
  { intros H0 Heq. apply grow_not_owned. split; [done|by left]. }
  split; [done| | |].
  - rewrite Hind. destruct (decide (who = None)); intros H0.
    + split; [done|]. rewrite Hused by done. by rewrite decide_True.
    + destruct (im_ind _ _ Hmap H0). split; [done|]. by apply grow_used.
  - intros bn Hbn. rewrite (Hbmap bn Hbn), Hind. destruct (decide (who = Some bn)) as [Hw|Hw].
    + intros _. split_and!; [done|rewrite Hused by done; by rewrite decide_True|].
      rewrite decide_False by congruence. intros Heq. by apply Hib; [congruence|].
    + intros H0. destruct (im_blk _ _ Hmap bn Hbn H0) as (H1 & H2 & H3).
      split_and!; [done|by apply grow_used|].
      destruct (decide (who = None)); [by apply grow_old_ne|done].
  - intros bn bn' Hbn Hbn'. rewrite !Hbmap by done.
    destruct (decide (who = Some bn)) as [Hw|Hw], (decide (who = Some bn')) as [Hw'|Hw'].
    + congruence.
    + intros _ Heq. exfalso. eapply (grow_old_ne bn'); [done|congruence|done].
    + intros H0 Heq. exfalso. by eapply (grow_old_ne bn).
    + apply (im_inj _ _ Hmap); done.
  Unshelve. all: done.
Qed.

Lemma grow_evolve : evolve D a D' a'.
Proof.
  split; [apply grow_imap| | | | |done].
  - apply grow_used.
  - intros b' Hd Hu Ho. apply Hblk; [done|done|]. intros ->. apply Ho.
    split; [unfold is_data in Hd; fs_lia|by left].
  - intros b' [H0 [->|(bn & Hbn & <-)]].
    + rewrite Hind in *. destruct (decide (who = None)); [right; apply Hfresh|left; split; [done|by left]].
    + rewrite Hbmap in * by done. destruct (decide (who = Some bn)); [right; apply Hfresh|].
      left. split; [done|]. right. eauto.
  - intros bn Hbn H0. rewrite Hbmap by done. destruct (decide (who = Some bn)) as [Hw|]; [|done].
    exfalso. rewrite Hw in Hfree. done.
Qed.

Lemma grow_fbyte p : is_pos p → fbyte D' a' p = fbyte D a p.
Proof.
  intros Hp. assert (is_bn (p / BSIZE)) as Hbn.
  { unfold is_pos, is_bn in *. fs_consts.
    split; [apply Z.div_pos; lia|apply Z.div_lt_upper_bound; lia]. }
  unfold fbyte. rewrite Hbmap by done. destruct (decide (who = Some (p / BSIZE))) as [Hw|Hw].
  - rewrite Hw in Hfree. rewrite Hfree. simpl. rewrite (proj2 (Z.eqb_neq _ _) grow_b_nonzero), Hzero.
    apply lookup_total_replicate_2. fs_consts. pose proof (Z.mod_pos_bound p 1024). lia.
  - destruct (Z.eqb_spec (bmap D a (p / BSIZE)) 0) as [|H0]; [done|].
    destruct (im_blk _ _ Hmap _ Hbn H0) as (H1 & H2 & H3). by rewrite Hblk.
Qed.
End grow.

(** ** [u32] entries of an indirect block *)

Lemma u32_at_zero i : u32_at i zero_block = 0.
Proof.
  unfold u32_at, slice, zero_block.
  assert (∀ n, le_val (replicate n 0) = 0) as H by (intros n; induction n; simpl; lia).
  rewrite drop_replicate, take_replicate. apply H.
Qed.

Lemma u32_at_splice i j x d :
  length d = Z.to_nat BSIZE → (i < 256)%nat → (j < 256)%nat → u32_ok x →
  u32_at i (splice (4 * j) (le_bytes 4 x) d) = if decide (i = j) then x else u32_at i d.
Proof.
  intros Hl Hi Hj Hx. unfold u32_at. case_decide as Hij.
  - subst. rewrite <-(length_le_bytes 4 x) at 2. rewrite slice_splice_same.
    + by apply u32_roundtrip.
    + rewrite length_le_bytes, Hl. fs_lia.
  - f_equal. apply slice_splice_other; rewrite ?length_le_bytes, ?Hl; fs_lia.
Qed.

Lemma addrs_lookup (a : list Z) (i : Z) :
  length a = Z.to_nat (NDIRECT + 1) → 0 ≤ i ≤ NDIRECT → a !! Z.to_nat i = Some (a !!! Z.to_nat i).
Proof. intros Hl Hi. apply list_lookup_lookup_total_lt. rewrite Hl. fs_lia. Qed.

Lemma bmap_ind_stable D D' a a' bn :
  ind a' = ind a → (bn <? NDIRECT) = false →
  (ind a ≠ 0 → blk D' (ind a) = blk D (ind a)) → bmap D' a' bn = bmap D a bn.
Proof.
  intros Hi Hbn Hblk. unfold bmap. rewrite Hbn, Hi.
  destruct (Z.eqb_spec (ind a) 0); [done|]. by rewrite Hblk.
Qed.

Section steps.
Context (D : list (list u8)) (a : list u32) (b : Z).
Context (HD : disk_ok D) (Hmap : imap_ok D a) (Hfresh : fresh D b).

Lemma ind_blk_alloc : ind a ≠ 0 → blk (alloc D b) (ind a) = blk D (ind a).
Proof. intros H0. destruct (im_ind _ _ Hmap H0). by apply blk_alloc_used. Qed.

(** A direct block. *)
Lemma step_direct bn :
  0 ≤ bn < NDIRECT → bmap D a bn = 0 →
  let a' := <[Z.to_nat bn := b]> a in
  evolve D a (alloc D b) a' ∧ (∀ p, is_pos p → fbyte (alloc D b) a' p = fbyte D a p) ∧
  bmap (alloc D b) a' bn = b.
Proof.
  intros Hbn H0 a'. pose proof (im_len _ _ Hmap) as Hlen.
  assert (ind a' = ind a) as Hind.
  { subst a'. unfold ind. apply list_lookup_total_insert_ne. fs_lia. }
  assert (∀ bn', is_bn bn' → bmap (alloc D b) a' bn'
            = if decide (Some bn = Some bn') then b else bmap D a bn') as Hbmap.
  { intros bn' Hbn'. unfold is_bn in Hbn'. destruct (Z.ltb_spec bn' NDIRECT) as [Hlt|Hge].
    - unfold bmap. rewrite (proj2 (Z.ltb_lt _ _)) by done. subst a'.
      destruct (decide (Some bn = Some bn')) as [[= <-]|Hne].
      + apply list_lookup_total_insert_eq. rewrite Hlen. fs_lia.
      + apply list_lookup_total_insert_ne. intros Heq. apply Hne. f_equal. lia.
    - rewrite decide_False by (intros [= ->]; lia).
      apply bmap_ind_stable; [done|by apply Z.ltb_ge|apply ind_blk_alloc]. }
  assert (evolve D a (alloc D b) a' ∧
          ∀ p, is_pos p → fbyte (alloc D b) a' p = fbyte D a p) as [H1 H2].
  { split; [apply (grow_evolve _ _ _ _ b (Some bn))|intros p; apply (grow_fbyte _ _ _ _ b (Some bn))].
    all: try done; try (by subst a'; rewrite length_insert).
    all: try (intros; by apply used_alloc).
    all: try (intros; by apply blk_alloc_used).
    all: try (by apply blk_alloc_self).
    all: intros; by apply dinode_alloc. }
  split_and!; [done|done|]. rewrite Hbmap by (unfold is_bn; fs_lia). by rewrite decide_True.
Qed.

(** The indirect block itself. *)
Lemma step_indirect :
  ind a = 0 →
  let a' := <[Z.to_nat NDIRECT := b]> a in
  evolve D a (alloc D b) a' ∧ (∀ p, is_pos p → fbyte (alloc D b) a' p = fbyte D a p) ∧
  ind a' = b ∧ (∀ bn, is_bn bn → bmap (alloc D b) a' bn = bmap D a bn).
Proof.
  intros H0 a'. pose proof (im_len _ _ Hmap) as Hlen.
  assert (ind a' = b) as Hind.
  { subst a'. unfold ind. apply list_lookup_total_insert_eq. rewrite Hlen. fs_lia. }
  assert (∀ bn, is_bn bn → bmap (alloc D b) a' bn = bmap D a bn) as Hbmap.
  { intros bn Hbn. unfold bmap. rewrite Hind, H0. destruct (Z.ltb_spec bn NDIRECT).
    - subst a'. apply list_lookup_total_insert_ne. unfold is_bn in Hbn. fs_lia.
    - destruct (_ <? _); [|done]. rewrite blk_alloc_self, u32_at_zero by done.
      by destruct (b =? 0). }
  assert (evolve D a (alloc D b) a' ∧
          ∀ p, is_pos p → fbyte (alloc D b) a' p = fbyte D a p) as [H1 H2]; [|by split_and!].
  split; [apply (grow_evolve _ _ _ _ b None)|intros p; apply (grow_fbyte _ _ _ _ b None)].
  all: try done; try (by subst a'; rewrite length_insert).
  all: try (intros; by apply used_alloc).
  all: try (intros; by apply blk_alloc_used).
  all: try (by apply blk_alloc_self).
  all: intros; by apply dinode_alloc.
Qed.

(** An entry of the indirect block. *)
Definition put_entry (bn : Z) : list (list u8) :=
  upd (alloc D b) (ind a) (splice (Z.to_nat ((bn - NDIRECT) * 4)) (le_bytes 4 b) (blk (alloc D b) (ind a))).

Lemma step_entry bn :
  NDIRECT ≤ bn < MAXFILE → ind a ≠ 0 → bmap D a bn = 0 →
  evolve D a (put_entry bn) a ∧ (∀ p, is_pos p → fbyte (put_entry bn) a p = fbyte D a p) ∧
  bmap (put_entry bn) a bn = b ∧
  block_ok (splice (Z.to_nat ((bn - NDIRECT) * 4)) (le_bytes 4 b) (blk (alloc D b) (ind a))).
Proof.
  intros Hbn Hi0 H0. pose proof (im_len _ _ Hmap) as Hlen.
  destruct (im_ind _ _ Hmap Hi0) as [Hid Hiu]. pose proof Hid as Hid'. unfold is_data in Hid'.
  pose proof (alloc_ok D HD b Hfresh) as HD1.
  destruct (blk_ok (alloc D b) (ind a) HD1 ltac:(fs_lia)) as [Hl1 Hok1].
  assert (u32_ok b) as Hub.
  { destruct Hfresh as [Hd _]. unfold is_data, u32_ok in *. fs_lia. }
  assert (block_ok (splice (Z.to_nat ((bn - NDIRECT) * 4)) (le_bytes 4 b) (blk (alloc D b) (ind a)))) as Hbo.
  { split; [|by apply Forall_splice; auto with kernel].
    rewrite length_splice; [done|]. rewrite length_le_bytes, Hl1. fs_lia. }
  assert (∀ bn', is_bn bn' → bmap (put_entry bn) a bn'
            = if decide (Some bn = Some bn') then b else bmap D a bn') as Hbmap.
  { intros bn' Hbn'. unfold is_bn in Hbn'. unfold bmap.
    destruct (Z.ltb_spec bn' NDIRECT) as [Hlt|Hge].
    { by rewrite decide_False by (intros [= ->]; lia). }
    rewrite (proj2 (Z.ltb_lt _ _)) by fs_lia. rewrite (proj2 (Z.eqb_neq _ _) Hi0).
    unfold put_entry. rewrite blk_upd by (done || fs_lia).
    replace (Z.to_nat ((bn - NDIRECT) * 4)) with (4 * Z.to_nat (bn - NDIRECT))%nat by fs_lia.
    rewrite u32_at_splice by (done || fs_lia). rewrite ind_blk_alloc by done.
    destruct (decide (Some bn = Some bn')) as [[= <-]|Hne]; [by rewrite decide_True|].
    rewrite decide_False; [done|]. intros Heq. apply Hne. f_equal. fs_lia. }
  assert (∀ b', is_data b' → used (put_entry bn) b' = if decide (b = b') then true else used D b') as Hus.
  { intros b' Hb'. unfold put_entry. rewrite used_upd by done. by apply used_alloc. }
  assert (b ≠ ind a) as Hbi by (intros ->; destruct Hfresh; congruence).
  assert (∀ b', is_data b' → b' ≠ ind a → blk (put_entry bn) b' = blk (alloc D b) b') as Hbk.
  { intros b' Hb' Hne. unfold put_entry. apply blk_upd_ne; unfold is_data in *; fs_lia. }
  assert (evolve D a (put_entry bn) a ∧
          ∀ p, is_pos p → fbyte (put_entry bn) a p = fbyte D a p) as [H1 H2].
  { split; [apply (grow_evolve _ _ _ _ b (Some bn))|intros p; apply (grow_fbyte _ _ _ _ b (Some bn))].
    all: try done.
    all: try (intros b' ???; rewrite Hbk by done; by apply blk_alloc_used).
    all: try (rewrite Hbk; [by apply blk_alloc_self|apply Hfresh|done]).
    all: intros i Hi; unfold put_entry; rewrite dinode_upd; [by apply dinode_alloc|done|fs_lia]. }
  split_and!; [done|done| |done]. rewrite Hbmap by (unfold is_bn; fs_lia). by rewrite decide_True.
Qed.
End steps.

(** ** Specifications *)

Lemma aget_addrs {St} (a : list u32) (i : Z) (s : St) Q :
  length a = Z.to_nat (NDIRECT + 1) → 0 ≤ i ≤ NDIRECT →
  Q (a !!! Z.to_nat i) s → wp (aget a i) s Q.
Proof. intros Hl Hi HQ. eapply wp_aget; [lia|by apply addrs_lookup|done]. Qed.

Lemma ind_lookup D a : disk_ok D → imap_ok D a → ind a ≠ 0 → D !! Z.to_nat (ind a) = Some (blk D (ind a)).
Proof.
  intros HD Hm H0. destruct (im_ind _ _ Hm H0) as [Hd _]. unfold is_data in Hd.
  apply blk_lookup; [done|fs_lia].
Qed.

Lemma bmap_lookup_spec k ip bn s :
  ready (S k) s → imap_ok (disk s) (addrs ip) → 0 ≤ bn ≤ U32_MAX →
  wp (bmap_lookup ip bn) s (λ r s', r = nonzero (bmap (disk s) (addrs ip) bn) ∧ ext s (disk s) s').
Proof.
  intros Hr Hm Hbn. pose proof (ready_disk _ _ Hr) as HD. pose proof (im_len _ _ Hm) as Hl.
  pose proof (ext_refl s (ready_ok _ _ Hr)) as Hrefl.
  unfold bmap_lookup, bmap. destruct (Z.ltb_spec bn NDIRECT) as [Hlt|Hge].
  { wp_step. apply aget_addrs; [done|fs_lia|]. by wp_steps. }
  wp_steps; [fs_lia|]. destruct (Z.ltb_spec (bn - NDIRECT) NINDIRECT) as [Hlt'|Hge']; [|by wp_steps].
  wp_step. apply aget_addrs; [done|fs_lia|]. fold (ind (addrs ip)).
  destruct (Z.eqb_spec (ind (addrs ip)) 0) as [|H0]; [by wp_steps|].
  destruct (im_ind _ _ Hm H0) as [Hd _]. unfold is_data in Hd.
  wp_call block_read_spec; [done|fs_lia|by apply ind_lookup|].
  intros r s' [-> He]. by wp_steps.
Qed.

(** What [bmap_alloc] does on its way to a mapped block. *)
Record mapped (s : fs) (ip : Inode) (bn : Z) (r : option u32) (ip' : Inode) (s' : fs) : Prop := {
  mp_ext : ext s (disk s') s';
  mp_ip : ip' = set_addrs (addrs ip') ip;
  mp_evolve : evolve (disk s) (addrs ip) (disk s') (addrs ip');
  mp_bytes p : is_pos p → fbyte (disk s') (addrs ip') p = fbyte (disk s) (addrs ip) p;
  mp_result : match r with
              | Some b => b ≠ 0 ∧ bmap (disk s') (addrs ip') bn = b
              | None => ∀ b, is_data b → used (disk s') b = true
              end;
}.

Lemma set_addrs_id ip : set_addrs (addrs ip) ip = ip.
Proof. by destruct ip. Qed.

Lemma mapped_step s ip bn r D' a' s' :
  ext s D' s' → evolve (disk s) (addrs ip) D' a' →
  (∀ p, is_pos p → fbyte D' a' p = fbyte (disk s) (addrs ip) p) →
  match r with
  | Some b => b ≠ 0 ∧ bmap D' a' bn = b
  | None => ∀ b, is_data b → used D' b = true
  end → mapped s ip bn r (set_addrs a' ip) s'.
Proof. intros He. pose proof (ext_disk _ _ _ He) as <-. by split. Qed.

Lemma mapped_same s ip bn r s' :
  imap_ok (disk s) (addrs ip) → ext s (disk s) s' →
  match r with
  | Some b => b ≠ 0 ∧ bmap (disk s) (addrs ip) bn = b
  | None => ∀ b, is_data b → used (disk s) b = true
  end → mapped s ip bn r ip s'.
Proof.
  intros Hm He Hres. rewrite <-(set_addrs_id ip) at 2.
  apply (mapped_step _ _ _ _ (disk s)); [done|by apply evolve_refl|done|done].
Qed.

Lemma mapped_trans s ip bn D1 a1 s1 r ip' s' :
  ext s D1 s1 → evolve (disk s) (addrs ip) D1 a1 →
  (∀ p, is_pos p → fbyte D1 a1 p = fbyte (disk s) (addrs ip) p) →
  mapped s1 (set_addrs a1 ip) bn r ip' s' → mapped s ip bn r ip' s'.
Proof.
  intros He Hev Hby [He' Hip Hev' Hby' Hres]. pose proof (ext_disk _ _ _ He) as Hd.
  cbn [addrs set_addrs] in *. rewrite Hd in *. split; [by eapply ext_trans| |by eapply evolve_trans| |done].
  - by rewrite Hip at 1.
  - intros p Hp. by rewrite Hby', Hby.
Qed.

Lemma bmap_alloc_indirect_spec k ip bn s :
  ready (S (S k)) s → imap_ok (disk s) (addrs ip) → ind (addrs ip) ≠ 0 → NDIRECT ≤ bn < MAXFILE →
  wp (bmap_alloc_indirect ip (bn - NDIRECT)) s (λ '(r, ip') s', mapped s ip bn r ip' s').
Proof.
  intros Hr Hm H0 Hbn. pose proof (ready_disk _ _ Hr) as HD. pose proof (im_len _ _ Hm) as Hl.
  pose proof (ready_unlocked _ _ Hr) as Hu.
  destruct (im_ind _ _ Hm H0) as [Hd Hdu]. pose proof Hd as Hd'. unfold is_data in Hd'.
  assert (u32_at (Z.to_nat (bn - NDIRECT)) (blk (disk s) (ind (addrs ip))) = bmap (disk s) (addrs ip) bn)
    as Hbm.
  { unfold bmap. rewrite (proj2 (Z.ltb_ge _ _)), (proj2 (Z.ltb_lt _ _)) by fs_lia.
    by rewrite (proj2 (Z.eqb_neq _ _) H0). }
  unfold bmap_alloc_indirect. wp_step. apply aget_addrs; [done|fs_lia|]. fold (ind (addrs ip)).
  wp_call bread_spec; [done|fs_lia|]. intros r s1 (i & -> & Hpin).
  pose proof Hpin as [Hd1 Ho1 Hp1 _ Hh1].
  wp_step. eapply wp_expect; [done|]. cbv zeta. wp_step.
  eapply buf_read_spec; [by rewrite Hd1|by rewrite Hh1|done|rewrite Hd1; by apply ind_lookup|].
  rewrite Hbm. destruct (Z.eqb_spec (bmap (disk s) (addrs ip) bn) 0) as [Hz|Hnz].
  - wp_call (balloc_spec k); [by eapply ext_pin_ready|]. rewrite Hd1. intros [b|] s2.
    + intros (Hb & Hf & _ & He2). fold (alloc (disk s) b) in He2.
      destruct (step_entry (disk s) (addrs ip) b HD Hm (conj Hb Hf) bn) as (Hev & Hby & Hmap & Hok);
        [fs_lia|done|done|].
      pose proof He2 as [Hd2 Ho2 Hp2 _ Hh2].
      assert (disk_ok (alloc (disk s) b)) as HD2 by (by apply alloc_ok).
      wp_call buf_write_spec; [by rewrite Hd2|by rewrite Hh2, Hh1|by rewrite Hp2| |done|done|].
      { rewrite Hd2. apply blk_lookup; [done|fs_lia]. }
      intros [] s3 He3. rewrite Hd2 in He3.
      wp_call (brelse_spec s i); [done|by eapply ext_trans|done|]. intros [] s4 He4. wp_steps.
      rewrite <-(set_addrs_id ip) at 2. eapply mapped_step; [apply He4|done|done|].
      split; [|done]. unfold is_data in Hb. fs_lia.
    + intros [Hfull He2]. wp_call (brelse_spec s i); [done|done|done|]. intros [] s3 He3. wp_steps.
      by apply mapped_same.
  - wp_call (brelse_spec s i (ind (addrs ip)) s1 (disk s)); [done|split; congruence|done|].
    intros [] s2 He2. wp_steps. by apply mapped_same.
Qed.

Lemma bmap_alloc_spec k ip bn s :
  ready (S (S k)) s → imap_ok (disk s) (addrs ip) → is_bn bn →
  wp (bmap_alloc ip bn) s (λ '(r, ip') s', mapped s ip bn r ip' s').
Proof.
  intros Hr Hm Hbn. pose proof (ready_disk _ _ Hr) as HD. pose proof (im_len _ _ Hm) as Hl.
  pose proof (ext_refl s (ready_ok _ _ Hr)) as Hrefl. unfold is_bn in Hbn.
  unfold bmap_alloc. destruct (Z.ltb_spec bn NDIRECT) as [Hdir|Hge].
  - assert (bmap (disk s) (addrs ip) bn = addrs ip !!! Z.to_nat bn) as Hbm.
    { unfold bmap. by rewrite (proj2 (Z.ltb_lt _ _)). }
    wp_step. apply aget_addrs; [done|fs_lia|]. rewrite <-Hbm.
    destruct (Z.eqb_spec (bmap (disk s) (addrs ip) bn) 0) as [Hz|Hnz];
      [|wp_steps; by apply mapped_same].
    wp_call (balloc_spec (S k)); [done|]. intros [b|] s1.
    + intros (Hb & Hf & _ & He). fold (alloc (disk s) b) in He. cbn [addrs set_addrs].
      wp_step. apply aget_addrs; [by rewrite length_insert|fs_lia|]. wp_steps.
      destruct (step_direct (disk s) (addrs ip) b HD Hm (conj Hb Hf) bn) as (Hev & Hby & Hmap);
        [lia|done|].
      eapply mapped_step; [done|done|done|].
      rewrite list_lookup_total_insert_eq by (rewrite Hl; fs_lia).
      split; [|done]. unfold is_data in Hb. fs_lia.
    + intros [Hfull He]. wp_steps. by apply mapped_same.
  - wp_steps; [fs_lia|]. rewrite (proj2 (Z.ltb_lt _ _)) by fs_lia.
    wp_step. apply aget_addrs; [done|fs_lia|]. fold (ind (addrs ip)).
    destruct (Z.eqb_spec (ind (addrs ip)) 0) as [Hz|Hnz]; [|by eapply bmap_alloc_indirect_spec; [..|fs_lia]].
    wp_call (balloc_spec (S k)); [done|]. intros [b|] s1.
    + intros (Hb & Hf & _ & He). fold (alloc (disk s) b) in He.
      destruct (step_indirect (disk s) (addrs ip) b HD Hm (conj Hb Hf) Hz) as (Hev & Hby & Hind & _).
      pose proof (ext_disk _ _ _ He) as Hd1.
      wp_call (bmap_alloc_indirect_spec k); [by eapply ext_ready| | |fs_lia|].
      { rewrite Hd1. apply Hev. }
      { cbn [addrs set_addrs]. rewrite Hind. unfold is_data in Hb. fs_lia. }
      intros [r ip'] s2 Hmap. by eapply mapped_trans.
    + intros [Hfull He]. wp_steps. by apply mapped_same.
Qed.

(** ** Main theorems *)

(** An inode without blocks. *)
Lemma bmap_zero D bn : is_bn bn → bmap D zero_addrs bn = 0.
Proof.
  intros Hbn. unfold bmap, ind, zero_addrs. destruct (Z.ltb_spec bn NDIRECT).
  - apply lookup_total_replicate_2. unfold is_bn in Hbn. fs_lia.
  - rewrite lookup_total_replicate_2 by fs_lia. by destruct (_ <? _).
Qed.

Lemma imap_zero D : imap_ok D zero_addrs.
Proof.
  split; [done|by intros []| |]; intros bn; intros; by rewrite bmap_zero in *.
Qed.

(** [bmap_alloc] maps block [bn] of the file to a disk block of its own and
    [bmap_lookup] then finds it; the bytes of the file and of everything the
    file does not own are unchanged, blocks already mapped stay where they are,
    and a failure means that no data block is free. *)
Theorem bmap_alloc_maps k ip bn s :
  ready (S (S k)) s → imap_ok (disk s) (addrs ip) → is_bn bn →
  wp ('(r, ip') ← bmap_alloc ip bn; r' ← bmap_lookup ip' bn; mret (r, r', ip')) s
    (λ '(r, r', ip') s',
      match r with
      | Some b => r' = Some b ∧ is_data b ∧ used (disk s') b = true
      | None => ∀ b, is_data b → used (disk s') b = true
      end ∧
      ip' = set_addrs (addrs ip') ip ∧
      evolve (disk s) (addrs ip) (disk s') (addrs ip') ∧
      (∀ p, is_pos p → fbyte (disk s') (addrs ip') p = fbyte (disk s) (addrs ip) p)).
Proof.
  intros Hr Hm Hbn. wp_call (bmap_alloc_spec k); [done..|]. intros [r ip'] s1 [He Hip Hev Hby Hres].
  wp_call (bmap_lookup_spec (S k)); [by eapply ext_ready|apply Hev|unfold is_bn in Hbn; fs_lia|].
  intros r' s2 [-> He2]. wp_steps. rewrite (ext_disk _ _ _ He2). split_and!; [|done|done|done].
  destruct r as [b|]; [|done]. destruct Hres as [Hnz Hb]. rewrite Hb. split.
  - unfold nonzero. by rewrite (proj2 (Z.eqb_neq _ _) Hnz).
  - rewrite <-Hb. destruct (im_blk _ _ (ev_imap _ _ _ _ Hev) bn) as (? & ? & _); [done|congruence|done].
Qed.

Lemma bmap_alloc_maps_witness :
  let ip := mkInode 1 1 true T_FILE 0 0 1 0 zero_addrs in
  wp ('(r, ip') ← bmap_alloc ip 12; r' ← bmap_lookup ip' 12; mret (r, r', ip')) boot_fs
    (λ '(r, r', ip') s',
      match r with
      | Some b => r' = Some b ∧ is_data b ∧ used (disk s') b = true
      | None => ∀ b, is_data b → used (disk s') b = true
      end ∧
      ip' = set_addrs (addrs ip') ip ∧
      evolve (disk boot_fs) (addrs ip) (disk s') (addrs ip') ∧
      (∀ p, is_pos p → fbyte (disk s') (addrs ip') p = fbyte (disk boot_fs) (addrs ip) p)).
Proof.
  apply (bmap_alloc_maps 14); [apply boot_ready|apply imap_zero|unfold is_bn; fs_lia].
Defined.
