(* ===== verification/Inode.v ===== *)
(** * File contents: truncate, read and write (src/src/fs.rs, lines 441-606)

    [iupdate], [itrunc], [_readi], [zero_fill] and [_writei], specified on the
    contents of the file: a byte list read and written at an offset. *)

From S2P Require Import Prelude Spinlock FsBase Bcache Balloc Bmap.

(** ** Operations *)

Definition dinode_of (ip : Inode) : Dinode := {|
  d_typ := typ ip; d_major := major ip; d_minor := minor ip; d_nlink := nlink ip;
  d_size := size ip; d_addrs := addrs ip;
|}.

Definition iupdate (ip : Inode) : M fs unit := write_dinode (inum ip) (dinode_of ip).

(** Body of the loop of [itrunc] over the direct blocks. *)
Definition itrunc_direct (i : Z) (ip : Inode) : M fs Inode :=
  blockno ← aget (addrs ip) i;
  if negb (blockno =? 0) then
    bfree blockno;;
    mret (set_addrs (<[Z.to_nat i := 0]> (addrs ip)) ip)
  else mret ip.

(** Body of its loop over the entries of the indirect block. *)
Definition itrunc_entry (bp : nat) (i : Z) (_ : unit) : M fs unit :=
  blockno ← buf_read bp (u32_at (Z.to_nat i));
  if negb (blockno =? 0) then bfree blockno else mret tt.

Definition itrunc (ip : Inode) : M fs Inode :=
  ip ← for_fold (range 0 NDIRECT) itrunc_direct ip;
  indirect_block ← aget (addrs ip) NDIRECT;
  ip ← (if negb (indirect_block =? 0) then
          r ← bread indirect_block;
          bp ← expect r "itrunc: bread indirect";
          for_fold (range 0 NINDIRECT) (itrunc_entry bp) tt;;
          brelse bp;;
          bfree indirect_block;;
          mret (set_addrs (<[Z.to_nat NDIRECT := 0]> (addrs ip)) ip)
        else mret ip);
  let ip := set_size 0 ip in
  iupdate ip;;
  mret ip.

(** Iterations of a loop that visits each block of a file at most once. *)
Definition blocks_fuel : nat := Z.to_nat (MAXFILE + 2).

Definition _readi (ip : Inode) (off : u32) (dst : list u8) : M fs (usize * list u8) :=
  if size ip <=? off then mret (0, dst)
  else
    left ← sub_at U32_MAX (size ip) off;
    let n := Z.min (Z.of_nat (length dst)) left in
    while_fuel blocks_fuel (λ '(total, dst),
      if total <? n then
        cur ← add_at USIZE_MAX off total;
        let bn := cur / BSIZE in
        let boff := cur mod BSIZE in
        let m := Z.min (n - total) (BSIZE - boff) in
        r ← bmap_lookup ip (as_u32 bn);
        blockno ← expect r "readi: hole in non-sparse file";
        dst ← block_readM "readi: bread" blockno (λ d,
          src ← subslice d boff m; copy_into dst total src);
        total ← add_at USIZE_MAX total m;
        mret (inl (total, dst))
      else mret (inr (total, dst))) (0, dst).

Definition zero_fill (ip : Inode) (from to : u32) : M fs (bool * Inode) :=
  if to <=? from then mret (true, ip)
  else
    let len := to - from in
    while_fuel blocks_fuel (λ '(total, ip),
      if total <? len then
        cur ← add_at USIZE_MAX from total;
        let bn := cur / BSIZE in
        let boff := cur mod BSIZE in
        let m := Z.min (len - total) (BSIZE - boff) in
        '(r, ip) ← bmap_alloc ip (as_u32 bn);
        match r with
        | None => mret (inr (false, ip))
        | Some blockno =>
            block_write "zero_fill: bread" blockno (λ d,
              copy_into d boff (replicate (Z.to_nat m) 0));;
            total ← add_at USIZE_MAX total m;
            mret (inl (total, ip))
        end
      else mret (inr (true, ip))) (0, ip).

(** The copy loop of [_writei]. *)
Definition writei_loop (ip : Inode) (off : u32) (src : list u8) : M fs (usize * Inode) :=
  let len := Z.of_nat (length src) in
  while_fuel blocks_fuel (λ '(total, ip),
    if total <? len then
      cur ← add_at USIZE_MAX off total;
      let bn := cur / BSIZE in
      let boff := cur mod BSIZE in
      let m := Z.min (len - total) (BSIZE - boff) in
      '(r, ip) ← bmap_alloc ip (as_u32 bn);
      match r with
      | None => mret (inr (total, ip))
      | Some blockno =>
          block_write "writei: bread" blockno (λ d,
            chunk ← subslice src total m; copy_into d boff chunk);;
          total ← add_at USIZE_MAX total m;
          mret (inl (total, ip))
      end
    else mret (inr (total, ip))) (0, ip).

(** The rest of [_writei] once the gap before [off] is filled. *)
Definition writei_tail (ip : Inode) (off : u32) (src : list u8) (size_changed : bool) :
  M fs (usize * Inode) :=
  '(total, ip) ← writei_loop ip off src;
  new_size ← add_at USIZE_MAX off total;
  let ip := if size ip <? new_size then set_size (as_u32 new_size) ip else ip in
  (if (0 <? total) || size_changed then iupdate ip else mret tt);;
  mret (total, ip).

Definition _writei (ip : Inode) (off : u32) (src : list u8) : M fs (usize * Inode) :=
  if (length src =? 0)%nat then mret (0, ip)
  else
    match checked USIZE_MAX (off + Z.of_nat (length src)) with
    | None => mret (0, ip)
    | Some e =>
        if MAXFILE * BSIZE <? e then mret (0, ip)
        else if size ip <? off then
          '(ok, ip) ← zero_fill ip (size ip) off;
          if negb ok then mret (0, ip)
          else writei_tail (set_size off ip) off src true
        else writei_tail ip off src false
    end.

(** ** Freeing a set of blocks *)

Record freed (D : list (list u8)) (F : Z → Prop) (D' : list (list u8)) : Prop := {
  fr_ok : disk_ok D';
  fr_in b : is_data b → F b → used D' b = false;
  fr_out b : is_data b → ¬ F b → used D' b = used D b;
  fr_blk b : is_data b → blk D' b = blk D b;
  fr_dinode i : is_inum i → dinode D' i = dinode D i;
}.

#[global] Instance freed_proper D :
  Proper (pointwise_relation Z iff ==> eq ==> iff) (freed D).
Proof.
  intros F F' HF D1 D2 <-. split; intros [H1 H2 H3 H4 H5]; split; try done; intros b Hb HFb.
  - apply H2; [done|]. by apply HF.
  - apply H3; [done|]. by rewrite (HF b).
  - apply H2; [done|]. by apply HF.
  - apply H3; [done|]. by rewrite <-(HF b).
Qed.

Lemma freed_iff D F F' D' : freed D F D' → (∀ b, F' b ↔ F b) → freed D F' D'.
Proof. intros Hf HF. by rewrite (HF : pointwise_relation Z iff F' F). Qed.

Lemma freed_mark D F D' b :
  freed D F D' → is_data b → freed D (λ x, F x ∨ x = b) (mark D' b false).
Proof.
  intros [H1 H2 H3 H4 H5] Hb. split.
  - by apply mark_ok.
  - intros x Hx HF. rewrite used_mark by done. destruct (decide (b = x)) as [|Hne]; [done|].
    destruct HF as [HF| ->]; [by apply H2|done].
  - intros x Hx HF. rewrite used_mark by done. rewrite decide_False by naive_solver.
    apply H3; naive_solver.
  - intros x Hx. by rewrite blk_mark, H4.
  - intros i Hi. by rewrite dinode_mark, H5.
Qed.

(** The blocks [0..n] of a file. *)
Definition first_blocks (D : list (list u8)) (a : list u32) (n b : Z) : Prop :=
  b ≠ 0 ∧ ∃ bn, 0 ≤ bn < n ∧ bmap D a bn = b.

Lemma first_blocks_0 D a b : ¬ first_blocks D a 0 b.
Proof. intros (_ & bn & Hbn & _). lia. Qed.

Lemma first_blocks_skip D a n :
  bmap D a n = 0 → pointwise_relation Z iff (first_blocks D a n) (first_blocks D a (n + 1)).
Proof.
  intros Hn b. split; intros (Hb & bn & Hbn & Heq); (split; [done|]); exists bn; (split; [|done]); [lia|].
  destruct (decide (bn = n)) as [->|]; [congruence|lia].
Qed.

Lemma first_blocks_next D a n :
  0 ≤ n → bmap D a n ≠ 0 →
  pointwise_relation Z iff (λ b, first_blocks D a n b ∨ b = bmap D a n) (first_blocks D a (n + 1)).
Proof.
  intros H0 Hn b. split.
  - intros [(Hb & bn & Hbn & Heq)| ->]; (split; [done|]).
    + exists bn. split; [lia|done].
    + exists n. split; [lia|done].
  - intros (Hb & bn & Hbn & Heq). destruct (decide (bn = n)) as [->|]; [by right|].
    left. split; [done|]. exists bn. split; [lia|done].
Qed.

Section itrunc.
Context (k : nat) (D : list (list u8)) (a : list u32) (HD : disk_ok D) (Hm : imap_ok D a).

(** Freeing the next block of the file, as both loops do. *)
Lemma bfree_next n s D' :
  ready (S k) s → disk s = D' → freed D (first_blocks D a n) D' → is_bn n →
  wp (if negb (bmap D a n =? 0) then bfree (bmap D a n) else mret tt) s
    (λ _ s', ∃ D'', ext s D'' s' ∧ freed D (first_blocks D a (n + 1)) D'').
Proof.
  intros Hr Hs Hf Hn. destruct (Z.eqb_spec (bmap D a n) 0) as [Hz|Hnz]; cbn [negb].
  - wp_step. exists D'. split; [rewrite <-Hs; apply ext_refl, Hr|].
    by rewrite <-(first_blocks_skip D a n).
  - destruct (im_blk _ _ Hm n Hn Hnz) as (Hd & Hu & _).
    wp_call (bfree_spec k); [done|done| |].
    { rewrite Hs, (fr_out _ _ _ Hf); [done|done|]. intros (_ & bn & Hbn & Heq).
      assert (n = bn); [|lia]. apply (im_inj _ _ Hm); [done| |done|done].
      unfold is_bn in *. lia. }
    intros [] s' He. eexists. split; [done|]. rewrite <-(first_blocks_next D a n) by (done || apply Hn).
    rewrite Hs. by apply freed_mark.
Qed.

Lemma itrunc_direct_spec s ip :
  ready (S k) s → disk s = D → addrs ip = a →
  wp (for_fold (range 0 NDIRECT) itrunc_direct ip) s (λ ip' s', ∃ D',
    ext s D' s' ∧ freed D (first_blocks D a NDIRECT) D' ∧
    ip' = set_addrs (replicate (Z.to_nat NDIRECT) 0 ++ [ind a]) ip).
Proof.
  intros Hr Hs Ha. pose proof (im_len _ _ Hm) as Hl.
  apply (wp_for_range (λ n ip' s', ∃ D', ext s D' s' ∧ freed D (first_blocks D a n) D' ∧
    ip' = set_addrs (replicate (Z.to_nat n) 0 ++ drop (Z.to_nat n) a) ip)); [fs_lia| | |].
  - exists D. split_and!; [rewrite <-Hs; by apply ext_refl, Hr| |].
    + split; try done. intros b _ Hb. by destruct (first_blocks_0 D a b).
    + rewrite <-Ha. symmetry. apply set_addrs_id.
  - intros n ip' s' Hn (D' & He & Hf & ->).
    assert (a !! Z.to_nat n = Some (bmap D a n)) as Hlk.
    { unfold bmap. rewrite (proj2 (Z.ltb_lt _ _)) by lia. apply addrs_lookup; [done|lia]. }
    unfold itrunc_direct. cbn [addrs set_addrs]. wp_step.
    eapply (wp_aget _ _ (bmap D a n)); [lia| |].
    { rewrite lookup_app_r by (rewrite length_replicate; lia).
      rewrite length_replicate, Nat.sub_diag, lookup_drop, Nat.add_0_r. done. }
    pose proof (bfree_next n s' D' (ext_ready _ _ _ _ Hr He) (ext_disk _ _ _ He) Hf) as Hnext.
    assert (is_bn n) as Hbn by (unfold is_bn; fs_lia). specialize (Hnext Hbn).
    assert (drop (Z.to_nat n) a = bmap D a n :: drop (Z.to_nat (n + 1)) a) as Hdrop.
    { rewrite Z2Nat.inj_add by lia. rewrite Nat.add_1_r. by apply drop_S. }
    destruct (Z.eqb_spec (bmap D a n) 0) as [Hz|Hnz]; cbn [negb] in *.
    + apply wp_ret. apply wp_ok in Hnext as (? & s'' & [= <- <-] & D'' & He'' & Hf'').
      exists D''. split_and!; [by eapply ext_trans|done|]. f_equal.
      rewrite Hdrop, Hz. rewrite Z2Nat.inj_add by lia.
      by rewrite replicate_add, <-app_assoc.
    + wp_call Hnext. intros [] s'' (D'' & He'' & Hf''). wp_steps.
      exists D''. split_and!; [by eapply ext_trans|done|]. cbn [addrs set_addrs].
      unfold set_addrs at 1. cbn. f_equal.
      rewrite insert_app_r_alt by (rewrite length_replicate; lia).
      rewrite length_replicate, Nat.sub_diag, Hdrop. rewrite (Z2Nat.inj_add n 1) by lia.
      by rewrite replicate_add, <-app_assoc.
  - intros ip' s' (D' & He & Hf & ->). exists D'. split_and!; [done|done|]. do 2 f_equal.
    rewrite (drop_S a (ind a)).
    + rewrite drop_ge by (rewrite Hl; fs_lia). done.
    + apply addrs_lookup; [done|fs_lia].
Qed.

Lemma itrunc_entries_spec s0 s1 D1 bp :
  ready (S (S k)) s0 → ind a ≠ 0 → ext_pin s0 bp (ind a) s1 → disk s0 = D1 →
  freed D (first_blocks D a NDIRECT) D1 →
  wp (for_fold (range 0 NINDIRECT) (itrunc_entry bp) tt) s1 (λ _ s', ∃ D',
    ext s1 D' s' ∧ freed D (first_blocks D a MAXFILE) D').
Proof.
  intros Hr H0 Hpin Hs Hf. pose proof (ready_unlocked _ _ Hr) as Hu.
  pose proof (ext_pin_ready _ _ _ _ _ Hr Hpin) as Hr1. pose proof Hpin as [Hd1 Ho1 Hp1 _ Hh1].
  destruct (im_ind _ _ Hm H0) as [Hid _]. pose proof Hid as Hid'. unfold is_data in Hid'.
  apply (wp_for_range (λ n _ s', ∃ D', ext s1 D' s' ∧ freed D (first_blocks D a (NDIRECT + n)) D'));
    [fs_lia| | |].
  - exists D1. split; [|by rewrite Z.add_0_r]. rewrite <-Hs, <-Hd1. apply ext_refl. by rewrite Hd1.
  - intros n [] s' Hn (D' & He & Hf'). pose proof He as [Hd' Ho' Hp' _ Hh'].
    unfold itrunc_entry. wp_step.
    eapply buf_read_spec; [by rewrite Hd'|by rewrite Hh', Hh1|by rewrite Hp'| |].
    { rewrite Hd'. apply blk_lookup; [apply Hf'|fs_lia]. }
    assert (u32_at (Z.to_nat n) (blk D' (ind a)) = bmap D a (NDIRECT + n)) as ->.
    { rewrite (fr_blk _ _ _ Hf') by done. unfold bmap.
      rewrite (proj2 (Z.ltb_ge _ _)), (proj2 (Z.ltb_lt _ _)), (proj2 (Z.eqb_neq _ _) H0) by fs_lia.
      do 2 f_equal. lia. }
    wp_call bfree_next; [by eapply ext_ready|done|done|unfold is_bn; fs_lia|].
    intros [] s'' (D'' & He'' & Hf''). exists D''. split; [by eapply ext_trans|].
    by rewrite Z.add_assoc.
  - intros [] s' (D' & He & Hf'). by exists D'.
Qed.
End itrunc.

(** Every block the file owns is free, everything else on the disk is as it
    was, and the on-disk inode is the empty one. *)
Record truncated (D : list (list u8)) (ip : Inode) (D' : list (list u8)) : Prop := {
  tr_ok : disk_ok D';
  tr_free b : owned D (addrs ip) b → used D' b = false;
  tr_used b : is_data b → ¬ owned D (addrs ip) b → used D' b = used D b;
  tr_blk b : is_data b → blk D' b = blk D b;
  tr_self : dinode D' (inum ip) = dinode_of (set_size 0 (set_addrs zero_addrs ip));
  tr_dinode i : is_inum i → i ≠ inum ip → dinode D' i = dinode D i;
}.

Lemma owned_first D a b : ind a = 0 → owned D a b ↔ first_blocks D a NDIRECT b.
Proof.
  intros Hi. split.
  - intros [Hb [->|(bn & Hbn & Heq)]]; [done|]. split; [done|]. exists bn. split; [|done].
    unfold is_bn, bmap in *. rewrite Hi in Heq.
    destruct (Z.ltb_spec bn NDIRECT); [lia|]. by destruct (_ <? _).
  - intros (Hb & bn & Hbn & Heq). split; [done|]. right. exists bn. split; [unfold is_bn; fs_lia|done].
Qed.

Lemma owned_ind D a b : ind a ≠ 0 → owned D a b ↔ first_blocks D a MAXFILE b ∨ b = ind a.
Proof.
  intros Hi. split.
  - intros [Hb [->|(bn & Hbn & Heq)]]; [by right|]. left. by split; [|exists bn].
  - intros [(Hb & bn & Hbn & Heq)| ->]; (split; [done|]); [right; by exists bn|by left].
Qed.

(** The common end of both branches of [itrunc]. *)
Lemma itrunc_finish k s ip D D' :
  ready (S k) s → disk s = D' → is_inum (inum ip) →
  Dinode_ok (dinode_of (set_size 0 (set_addrs zero_addrs ip))) →
  (∀ b, owned D (addrs ip) b → is_data b) →
  freed D (owned D (addrs ip)) D' →
  wp (iupdate (set_size 0 (set_addrs zero_addrs ip))) s (λ _ s', ∃ D'',
    ext s D'' s' ∧ truncated D ip D'').
Proof.
  intros Hr Hs Hi Hok Ho [H1 H2 H3 H4 H5]. unfold iupdate.
  wp_call (write_dinode_spec k); [done|done|done|]. rewrite Hs. intros [] s' He.
  eexists. split; [done|]. split.
  - apply put_dinode_ok; [done|done|apply Hok].
  - intros b Hb. rewrite used_put_dinode by auto. auto.
  - intros b Hb Hn. rewrite used_put_dinode by done. by apply H3.
  - intros b Hb. rewrite blk_put_dinode; [by apply H4|done|]. unfold is_data in Hb. fs_lia.
  - rewrite dinode_put by done. by rewrite decide_True.
  - intros i Hi' Hne. rewrite dinode_put by done. rewrite decide_False by done. by apply H5.
Qed.

Lemma Dinode_ok_trunc ip :
  Dinode_ok (dinode_of ip) → Dinode_ok (dinode_of (set_size 0 (set_addrs zero_addrs ip))).
Proof.
  intros [H1 H2 H3 H4 H5 H6 H7]. split; try done.
  by apply Forall_replicate.
Qed.

Lemma itrunc_spec k ip s :
  ready (S (S k)) s → imap_ok (disk s) (addrs ip) → is_inum (inum ip) → Dinode_ok (dinode_of ip) →
  wp (itrunc ip) s (λ ip' s', ip' = set_size 0 (set_addrs zero_addrs ip) ∧
    ∃ D', ext s D' s' ∧ truncated (disk s) ip D').
Proof.
  intros Hr Hm Hi Hok. pose proof (ready_disk _ _ Hr) as HD. set (D := disk s) in *.
  set (a := addrs ip) in *. pose proof (Dinode_ok_trunc ip Hok) as Hok'.
  assert (∀ b, owned D a b → is_data b) as Hown.
  { intros b Hb. by destruct (owned_data _ _ _ Hm Hb). }
  unfold itrunc. wp_call (itrunc_direct_spec (S k) D a); [done|done|done|done|done|].
  intros ip1 s1 (D1 & He1 & Hf1 & ->). pose proof (ext_ready _ _ _ _ Hr He1) as Hr1.
  pose proof (ext_disk _ _ _ He1) as Hd1.
  wp_step. eapply (wp_aget _ _ (ind a)); [fs_lia|done|].
  destruct (Z.eqb_spec (ind a) 0) as [Hz|Hnz]; cbn [negb].
  - assert (set_addrs (replicate (Z.to_nat NDIRECT) 0 ++ [ind a]) ip = set_addrs zero_addrs ip)
      as -> by (by rewrite Hz).
    wp_steps. wp_call (itrunc_finish (S k) s1 ip D D1); [done|done|done|done|done| |].
    { eapply freed_iff; [done|]. intros b. by apply owned_first. }
    intros [] s2 (D2 & He2 & Ht). wp_steps. split; [done|]. exists D2.
    split; [by eapply ext_trans|done].
  - destruct (im_ind _ _ Hm Hnz) as [Hid Hiu]. pose proof Hid as Hid'. unfold is_data in Hid'.
    wp_step. wp_call bread_spec; [done|fs_lia|]. intros r s2 (bp & -> & Hpin).
    wp_step. eapply wp_expect; [done|].
    wp_call (itrunc_entries_spec k D a); [done|done|done|done|done|done|].
    intros [] s3 (D3 & He3 & Hf3).
    wp_call (brelse_spec s1); [done|done|apply Hr1|]. intros [] s4 He4.
    wp_call (bfree_spec k); [eapply ready_le; [|by eapply ext_ready]; lia|done| |].
    { rewrite (ext_disk _ _ _ He4), (fr_out _ _ _ Hf3); [done|done|].
      intros (_ & bn & Hbn & Heq). destruct (im_blk _ _ Hm bn) as (_ & _ & Hne); [done| |done].
      congruence. }
    rewrite (ext_disk _ _ _ He4). intros [] s5 He5. wp_steps. cbn [addrs set_addrs].
    pose proof (ext_trans _ _ _ _ _ He1 (ext_trans _ _ _ _ _ He4 He5)) as He.
    wp_call (itrunc_finish (S k) s5 ip D); [by apply (ext_ready _ _ _ _ Hr He)|by apply (ext_disk _ _ _ He)|done|done|done| |].
    { eapply freed_iff; [by apply freed_mark|]. intros b. by apply owned_ind. }
    intros [] s6 (D6 & He6 & Ht). wp_steps. split; [done|]. exists D6.
    split; [by eapply ext_trans|done].
Qed.

(** ** The contents of a file *)

Definition fbytes (D : list (list u8)) (a : list u32) (off n : Z) : list u8 :=
  fbyte D a <$> seqZ off n.

Definition contents (D : list (list u8)) (ip : Inode) : list u8 :=
  fbytes D (addrs ip) 0 (size ip).

(** A file has no holes below its size. *)
Record file_ok (D : list (list u8)) (ip : Inode) : Prop := {
  fo_map : imap_ok D (addrs ip);
  fo_size : 0 ≤ size ip ≤ MAXFILE * BSIZE;
  fo_mapped p : 0 ≤ p < size ip → bmap D (addrs ip) (p / BSIZE) ≠ 0;
}.

Lemma length_fbytes D a off n : length (fbytes D a off n) = Z.to_nat n.
Proof. unfold fbytes. by rewrite length_fmap, length_seqZ. Qed.

Lemma lookup_fbytes D a off n i :
  (i < Z.to_nat n)%nat → fbytes D a off n !! i = Some (fbyte D a (off + Z.of_nat i)).
Proof.
  intros Hi. unfold fbytes. rewrite list_lookup_fmap.
  by rewrite (proj2 (lookup_seqZ off n i (off + Z.of_nat i))) by lia.
Qed.

Lemma fbytes_app D a off n m :
  0 ≤ n → 0 ≤ m → fbytes D a off n ++ fbytes D a (off + n) m = fbytes D a off (n + m).
Proof. intros ??. unfold fbytes. rewrite <-fmap_app, seqZ_app by lia. done. Qed.

(** Positions of the same block. *)
Lemma in_block p i :
  0 ≤ i → p mod BSIZE + i < BSIZE → (p + i) / BSIZE = p / BSIZE ∧ (p + i) mod BSIZE = p mod BSIZE + i.
Proof.
  intros Hi Hb. pose proof (Z.mod_pos_bound p BSIZE). pose proof (Z.div_mod p BSIZE).
  assert (p + i = BSIZE * (p / BSIZE) + (p mod BSIZE + i)) as Heq by fs_lia.
  split; [symmetry; apply (Z.div_unique _ _ _ (p mod BSIZE + i))|
          symmetry; apply (Z.mod_unique _ _ (p / BSIZE))]; fs_lia.
Qed.

Lemma is_bn_div p : is_pos p → is_bn (p / BSIZE).
Proof.
  unfold is_pos, is_bn. fs_consts. intros Hp.
  split; [apply Z.div_pos|apply Z.div_lt_upper_bound]; lia.
Qed.

Lemma mapped_block D a p :
  disk_ok D → imap_ok D a → is_pos p → bmap D a (p / BSIZE) ≠ 0 →
  is_data (bmap D a (p / BSIZE)) ∧
  D !! Z.to_nat (bmap D a (p / BSIZE)) = Some (blk D (bmap D a (p / BSIZE))) ∧
  block_ok (blk D (bmap D a (p / BSIZE))).
Proof.
  intros HD Hm Hp H0. destruct (im_blk _ _ Hm _ (is_bn_div _ Hp) H0) as (Hd & _ & _).
  pose proof Hd as Hd'. unfold is_data in Hd'.
  split_and!; [done|apply blk_lookup|apply blk_ok]; (done || fs_lia).
Qed.

Lemma slice_block D a p m :
  disk_ok D → imap_ok D a → is_pos p → 0 ≤ m → p mod BSIZE + m ≤ BSIZE →
  bmap D a (p / BSIZE) ≠ 0 →
  slice (Z.to_nat (p mod BSIZE)) (Z.to_nat m) (blk D (bmap D a (p / BSIZE))) = fbytes D a p m.
Proof.
  intros HD Hm Hp H0 Hb Hnz. pose proof (Z.mod_pos_bound p BSIZE ltac:(fs_lia)) as Hmod.
  destruct (mapped_block _ _ _ HD Hm Hp Hnz) as (Hd & _ & [Hl _]).
  apply list_eq_same_length with (Z.to_nat m); [by rewrite length_fbytes|rewrite length_slice; [done|fs_lia]|].
  intros i x y Hi. rewrite lookup_fbytes by done. rewrite lookup_slice by done.
  destruct (in_block p (Z.of_nat i)) as [Hdiv Hmod']; [lia|lia|].
  unfold fbyte. rewrite Hdiv, Hmod', (proj2 (Z.eqb_neq _ _) Hnz).
  rewrite Z2Nat.inj_add, Nat2Z.id by lia.
  rewrite (list_lookup_lookup_total_lt _ _) by (rewrite Hl; fs_lia). congruence.
Qed.

(** Progress of a loop over the blocks of [off..off + n]. *)
Definition blocks_left (off n total : Z) : nat :=
  if total <? n then Z.to_nat ((off + n - 1) / BSIZE - (off + total) / BSIZE + 1) else 0.

Lemma blocks_left_fuel off n : 0 ≤ off → off + n ≤ MAXFILE * BSIZE → (blocks_left off n 0 < blocks_fuel)%nat.
Proof.
  intros H0 Hn. unfold blocks_left, blocks_fuel. destruct (Z.ltb_spec 0 n); [|fs_lia].
  assert ((off + n - 1) / BSIZE < MAXFILE) by (apply Z.div_lt_upper_bound; fs_lia).
  assert (0 ≤ (off + 0) / BSIZE) by (apply Z.div_pos; fs_lia). fs_lia.
Qed.

Lemma blocks_left_step off n total m :
  0 ≤ off → 0 ≤ total < n → m = Z.min (n - total) (BSIZE - (off + total) mod BSIZE) →
  0 < m ∧ total + m ≤ n ∧ (off + total) mod BSIZE + m ≤ BSIZE ∧
  (blocks_left off n (total + m) < blocks_left off n total)%nat.
Proof.
  intros H0 Ht ->. set (p := off + total). pose proof (Z.mod_pos_bound p BSIZE ltac:(fs_lia)) as Hmod.
  split_and!; [lia|lia|lia|]. unfold blocks_left. rewrite (proj2 (Z.ltb_lt total n)) by lia.
  assert (p / BSIZE ≤ (off + n - 1) / BSIZE) by (apply Z.div_le_mono; fs_lia). fold p.
  destruct (Z.ltb_spec (total + Z.min (n - total) (BSIZE - p mod BSIZE)) n) as [Hlt|]; [|lia].
  replace (off + (total + Z.min (n - total) (BSIZE - p mod BSIZE))) with ((p / BSIZE + 1) * BSIZE).
  2: { pose proof (Z.div_mod p BSIZE). fs_lia. }
  rewrite Z.div_mul by fs_lia.
  assert (p / BSIZE + 1 ≤ (off + n - 1) / BSIZE); [|lia].
  apply Z.div_le_lower_bound; [fs_lia|]. pose proof (Z.div_mod p BSIZE). fs_lia.
Qed.

Lemma as_u32_small z : 0 ≤ z ≤ U32_MAX → as_u32 z = z.
Proof. intros Hz. unfold as_u32. apply Z.mod_small. change (2 ^ 32) with 4294967296. fs_lia. Qed.

Lemma pos_cast p : is_pos p → as_u32 (p / BSIZE) = p / BSIZE.
Proof. intros Hp. apply is_bn_div in Hp. unfold is_bn in Hp. apply as_u32_small. fs_lia. Qed.

Lemma nonzero_Some z : z ≠ 0 → nonzero z = Some z.
Proof. intros Hz. unfold nonzero. by rewrite (proj2 (Z.eqb_neq _ _) Hz). Qed.

(** ** Reading *)

Lemma readi_spec k ip off dst s :
  ready (S k) s → file_ok (disk s) ip → 0 ≤ off ≤ U32_MAX →
  let n := Z.max 0 (Z.min (Z.of_nat (length dst)) (size ip - off)) in
  wp (_readi ip off dst) s (λ r s',
    r = (n, splice 0 (fbytes (disk s) (addrs ip) off n) dst) ∧ ext s (disk s) s').
Proof.
  intros Hr [Hm Hsz Hmap] Hoff n. pose proof (ready_disk _ _ Hr) as HD.
  pose proof (ext_refl s (ready_ok _ _ Hr)) as Hrefl. set (D := disk s) in *. set (a := addrs ip) in *.
  unfold _readi. destruct (Z.leb_spec (size ip) off).
  { wp_steps. by replace n with 0 by lia. }
  wp_steps; [fs_lia|]. replace (Z.min _ _) with n by lia.
  apply (wp_while (λ '(total, dst') s', 0 ≤ total ≤ n ∧ ext s D s' ∧
      dst' = splice 0 (fbytes D a off total) dst) (λ '(total, _), blocks_left off n total)).
  - intros [total dst'] s' (Ht & He & ->). pose proof (ext_ready _ _ _ _ Hr He) as Hr'.
    destruct (Z.ltb_spec total n) as [Hlt|]; [|wp_steps; by replace total with n in * by lia].
    set (m := Z.min (n - total) (BSIZE - (off + total) mod BSIZE)).
    destruct (blocks_left_step off n total m) as (Hm0 & Hmn & Hmb & Hdec); [lia|lia|done|].
    assert (is_pos (off + total)) as Hpos by (unfold is_pos; lia).
    pose proof (Hmap (off + total) ltac:(lia)) as Hnz.
    destruct (mapped_block D a _ HD Hm Hpos Hnz) as (Hd & Hlk & [Hl _]). unfold is_data in Hd.
    pose proof (Z.mod_pos_bound (off + total) BSIZE ltac:(fs_lia)) as Hmod.
    wp_steps; [fs_lia|]. cbv zeta. fold m. rewrite pos_cast by done.
    wp_call (bmap_lookup_spec k); [done|by rewrite (ext_disk _ _ _ He)| |].
    { apply is_bn_div in Hpos. unfold is_bn in Hpos. fs_lia. }
    rewrite (ext_disk _ _ _ He). intros r s1 [-> He1]. fold a. rewrite nonzero_Some by done.
    wp_step. eapply wp_expect; [done|].
    wp_call (block_readM_spec k _ _ _ s1 _ (splice 0 (fbytes D a off (total + m)) dst));
      [by eapply ext_ready|fs_lia|by rewrite (ext_disk _ _ _ He1)| |].
    { intros s2. unfold subslice, copy_into.
      rewrite !(proj2 (Z.leb_le _ _)) by (rewrite ?Hl; fs_lia). cbn [andb].
      unfold mbind, M_bind, mret, M_ret. rewrite slice_block by (done || lia).
      assert (length (splice 0 (fbytes D a off total) dst) = length dst) as Hls.
      { apply length_splice. rewrite length_fbytes. lia. }
      rewrite Hls, length_fbytes, !(proj2 (Z.leb_le _ _)) by lia. cbn [andb].
      rewrite <-(fbytes_app D a off total m) by lia.
      rewrite <-(splice_splice 0 (fbytes D a off total)) by lia.
      by rewrite length_fbytes. }
    rewrite (ext_disk _ _ _ He1). intros dst'' s2 [-> He2]. wp_steps; [fs_lia|].
    split; [|done]. split_and!; [lia|lia| |done]. by eapply ext_trans; [|eapply ext_trans].
  - split_and!; [lia|lia|done|]. symmetry. apply splice_nil.
  - apply blocks_left_fuel; lia.
Qed.

(** ** Writing *)

(** Overwriting part of a mapped block of a file. *)
Section write_block.
Context (D : list (list u8)) (a : list u32) (p : Z) (new : list u8).
Context (HD : disk_ok D) (Hm : imap_ok D a) (Hp : is_pos p) (Hnz : bmap D a (p / BSIZE) ≠ 0).
Context (Hfit : p mod BSIZE + Z.of_nat (length new) ≤ BSIZE) (Hnew : bytes_ok new).
Let b := bmap D a (p / BSIZE).
Let d' := splice (Z.to_nat (p mod BSIZE)) new (blk D b).
Let D' := upd D b d'.

Lemma write_block_ok : block_ok d'.
Proof.
  destruct (mapped_block _ _ _ HD Hm Hp Hnz) as (_ & _ & [Hl Hok]).
  pose proof (Z.mod_pos_bound p BSIZE ltac:(fs_lia)) as Hmod. split.
  - unfold d'. rewrite length_splice; [done|]. unfold b. rewrite Hl. fs_lia.
  - by apply Forall_splice.
Qed.

Lemma write_block_data : is_data b ∧ used D b = true ∧ b ≠ ind a.
Proof. apply (im_blk _ _ Hm); [by apply is_bn_div|done]. Qed.

Lemma write_block_blk b' : is_data b' → blk D' b' = if decide (b = b') then d' else blk D b'.
Proof.
  intros Hb'. destruct write_block_data as (Hd & _). unfold is_data in *.
  destruct (decide (b = b')) as [<-|Hne]; [apply blk_upd; [done|fs_lia]|apply blk_upd_ne; fs_lia].
Qed.

Lemma write_block_used b' : is_data b' → used D' b' = used D b'.
Proof. intros Hb'. by apply used_upd; [apply write_block_data|]. Qed.

Lemma write_block_bmap bn : bmap D' a bn = bmap D a bn.
Proof.
  unfold bmap. destruct (_ <? _); [done|]. destruct (_ <? _); [|done].
  destruct (Z.eqb_spec (ind a) 0) as [|H0]; [done|]. f_equal.
  destruct write_block_data as (_ & _ & Hne). destruct (im_ind _ _ Hm H0) as [Hd _].
  rewrite write_block_blk by done. by rewrite decide_False.
Qed.

Lemma write_block_evolve : evolve D a D' a.
Proof.
  destruct write_block_data as (Hd & Hu & Hne). destruct Hm as [H1 H2 H3 H4]. split.
  - split; [done| | |].
    + intros H0. destruct (H2 H0). split; [done|]. by rewrite write_block_used.
    + intros bn Hbn. rewrite write_block_bmap. intros H0. destruct (H3 bn Hbn H0) as (?&?&?).
      split_and!; [done|by rewrite write_block_used|done].
    + intros bn bn'. rewrite !write_block_bmap. apply H4.
  - intros b' Hb' Hu'. by rewrite write_block_used.
  - intros b' Hb' Hu' Ho. rewrite write_block_blk by done.
    destruct (decide (b = b')) as [<-|]; [|done]. exfalso. apply Ho. split; [done|].
    right. exists (p / BSIZE). split; [by apply is_bn_div|done].
  - intros b' [H0 [->|(bn & Hbn & <-)]]; left; (split; [done|]); [by left|].
    right. exists bn. split; [done|]. by rewrite write_block_bmap.
  - intros bn Hbn H0. by rewrite write_block_bmap.
  - intros i Hi. apply dinode_upd; [done|]. unfold is_data in Hd. fs_lia.
Qed.

Lemma write_block_fbyte q :
  is_pos q → fbyte D' a q = if decide (p ≤ q < p + Z.of_nat (length new))
                            then new !!! Z.to_nat (q - p) else fbyte D a q.
Proof.
  intros Hq. pose proof (is_bn_div _ Hq) as Hbnq. pose proof (is_bn_div _ Hp) as Hbnp.
  pose proof (Z.mod_pos_bound p BSIZE ltac:(fs_lia)) as Hmod.
  destruct (mapped_block _ _ _ HD Hm Hp Hnz) as (_ & _ & [Hl _]). fold b in Hl.
  unfold fbyte. rewrite write_block_bmap.
  destruct (decide (p ≤ q < p + Z.of_nat (length new))) as [Hin|Hout].
  - destruct (in_block p (q - p)) as [Hdiv Hmod']; [lia|lia|].
    replace (p + (q - p)) with q in * by lia. rewrite Hdiv, Hmod', (proj2 (Z.eqb_neq _ _) Hnz).
    fold b. rewrite write_block_blk by apply write_block_data. rewrite decide_True by done.
    apply list_lookup_total_correct. unfold d'.
    rewrite lookup_splice_in by (rewrite ?Hl; fs_lia).
    replace (_ - _)%nat with (Z.to_nat (q - p)) by lia.
    apply list_lookup_lookup_total_lt. lia.
  - destruct (Z.eqb_spec (bmap D a (q / BSIZE)) 0) as [|H0]; [done|].
    destruct (im_blk _ _ Hm _ Hbnq H0) as (Hd & _). rewrite write_block_blk by done.
    destruct (decide (b = bmap D a (q / BSIZE))) as [Heq|]; [|done].
    assert (p / BSIZE = q / BSIZE) as Hdiv by (by apply (im_inj _ _ Hm)).
    pose proof (Z.mod_pos_bound q BSIZE ltac:(fs_lia)) as Hmodq.
    pose proof (Z.div_mod p BSIZE ltac:(fs_lia)). pose proof (Z.div_mod q BSIZE ltac:(fs_lia)).
    rewrite <-Heq. unfold d'. rewrite !list_lookup_total_alt. f_equal.
    apply lookup_splice_out; [rewrite Hl; fs_lia|]. fs_lia.
Qed.
End write_block.

(** [total] bytes of [src] are written at [off]. *)
Record wrote (D : list (list u8)) (a : list u32) (off : Z) (src : list u8) (total : Z)
    (D' : list (list u8)) (a' : list u32) : Prop := {
  wr_evolve : evolve D a D' a';
  wr_bytes p : is_pos p → fbyte D' a' p =
    if decide (off ≤ p < off + total) then src !!! Z.to_nat (p - off) else fbyte D a p;
  wr_mapped p : off ≤ p < off + total → bmap D' a' (p / BSIZE) ≠ 0;
}.

Lemma wrote_nothing D a off src D' a' :
  evolve D a D' a' → (∀ p, is_pos p → fbyte D' a' p = fbyte D a p) → wrote D a off src 0 D' a'.
Proof.
  intros He Hb. split; [done| |lia]. intros p Hp. rewrite decide_False by lia. by apply Hb.
Qed.

Lemma wrote_grow D a off src total D1 a1 D2 a2 :
  wrote D a off src total D1 a1 → evolve D1 a1 D2 a2 → 0 ≤ off → off + total ≤ MAXFILE * BSIZE →
  (∀ p, is_pos p → fbyte D2 a2 p = fbyte D1 a1 p) → wrote D a off src total D2 a2.
Proof.
  intros [H1 H2 H3] He H0 Hmax Hb. split; [by eapply evolve_trans| |].
  - intros p Hp. by rewrite Hb, H2.
  - intros p Hp. rewrite (ev_bmap _ _ _ _ He); [by apply H3| |by apply H3].
    apply is_bn_div. unfold is_pos. lia.
Qed.

Lemma wrote_chunk D a off src total D1 a1 m :
  wrote D a off src total D1 a1 → disk_ok D1 → bytes_ok src →
  let p := off + total in let b := bmap D1 a1 (p / BSIZE) in
  let chunk := slice (Z.to_nat total) (Z.to_nat m) src in
  0 ≤ off → 0 ≤ total → 0 ≤ m → total + m ≤ Z.of_nat (length src) → p + m ≤ MAXFILE * BSIZE →
  is_pos p → p mod BSIZE + m ≤ BSIZE → b ≠ 0 →
  wrote D a off src (total + m) (upd D1 b (splice (Z.to_nat (p mod BSIZE)) chunk (blk D1 b))) a1.
Proof.
  intros [H1 H2 H3] HD Hs p b chunk Ho Ht Hm0 Hlen Hmax Hp Hfit Hnz.
  pose proof (ev_imap _ _ _ _ H1) as Him.
  assert (length chunk = Z.to_nat m) as Hlc by (apply length_slice; lia).
  assert (p mod BSIZE + Z.of_nat (length chunk) ≤ BSIZE) as Hfit' by lia.
  assert (bytes_ok chunk) as Hck by (by apply Forall_slice).
  pose proof (write_block_evolve D1 a1 p chunk HD Him Hp Hnz) as Hev.
  split; [by eapply evolve_trans| |].
  - intros q Hq. rewrite (write_block_fbyte D1 a1 p chunk) by done. rewrite H2 by done.
    destruct (decide (p ≤ q < p + Z.of_nat (length chunk))) as [Hin|Hout].
    + rewrite decide_True by lia. rewrite !list_lookup_total_alt. f_equal. unfold chunk.
      rewrite lookup_slice by lia. f_equal. lia.
    + destruct (decide (off ≤ q < off + total)); [by rewrite decide_True by lia|].
      by rewrite decide_False by lia.
  - intros q Hq. rewrite (write_block_bmap D1 a1 p chunk) by done.
    destruct (decide (q < p)) as [Hlt|Hge]; [apply H3; lia|].
    destruct (in_block p (q - p)) as [Hdiv _]; [lia|lia|].
    replace (p + (q - p)) with q in Hdiv by lia. by rewrite Hdiv.
Qed.

(** The loop invariant of [zero_fill] and [_writei]. *)
Record writing (s0 : fs) (ip0 : Inode) (off : Z) (src : list u8) (total : Z) (ip : Inode) (s : fs) : Prop := {
  wi_ext : ext s0 (disk s) s;
  wi_ip : ip = set_addrs (addrs ip) ip0;
  wi_wrote : wrote (disk s0) (addrs ip0) off src total (disk s) (addrs ip);
}.

Definition disk_full (D : list (list u8)) : Prop := ∀ b, is_data b → used D b = true.

Lemma writing_start k s ip off src :
  ready k s → imap_ok (disk s) (addrs ip) → writing s ip off src 0 ip s.
Proof.
  intros Hr Hm. split; [by apply ext_refl, Hr|by rewrite set_addrs_id|].
  apply wrote_nothing; [by apply evolve_refl|done].
Qed.

(** One iteration: map the block, then store the chunk in it. *)
Lemma chunk_spec k s0 ip0 off src total ip s m msg f :
  ready (S (S k)) s0 → bytes_ok src → writing s0 ip0 off src total ip s →
  0 ≤ off → 0 ≤ total < Z.of_nat (length src) → off + Z.of_nat (length src) ≤ MAXFILE * BSIZE →
  m = Z.min (Z.of_nat (length src) - total) (BSIZE - (off + total) mod BSIZE) →
  (∀ d s, block_ok d → f d s =
    Ok (splice (Z.to_nat ((off + total) mod BSIZE)) (slice (Z.to_nat total) (Z.to_nat m) src) d, s)) →
  wp (bmap_alloc ip (as_u32 ((off + total) / BSIZE))) s (λ '(r, ip') s',
    match r with
    | None => writing s0 ip0 off src total ip' s' ∧ disk_full (disk s')
    | Some b => wp (block_write msg b f) s' (λ _ s'', writing s0 ip0 off src (total + m) ip' s'')
    end).
Proof.
  intros Hr Hsrc [He Hip Hw] Ho Ht Hmax Hm Hf.
  destruct (blocks_left_step off (Z.of_nat (length src)) total m) as (Hm0 & Hmn & Hmb & _); [done|done|done|].
  assert (is_pos (off + total)) as Hpos by (unfold is_pos; lia). rewrite pos_cast by done.
  pose proof (ext_ready _ _ _ _ Hr He) as Hr1.
  wp_call (bmap_alloc_spec k); [done|apply Hw|by apply is_bn_div|].
  intros [r ip'] s1 [He1 Hip1 Hev1 Hby1 Hres]. pose proof (ext_trans _ _ _ _ _ He He1) as He01.
  assert (writing s0 ip0 off src total ip' s1) as Hw1.
  { split; [done|by rewrite Hip1, Hip|]. eapply wrote_grow; [done..|lia|done]. }
  destruct r as [b|]; [|done]. destruct Hres as [Hnz <-].
  pose proof (ext_ready _ _ _ _ Hr1 He1) as Hr2. pose proof (ready_disk _ _ Hr2) as HD1.
  pose proof (ev_imap _ _ _ _ Hev1) as Him.
  destruct (mapped_block _ _ _ HD1 Him Hpos Hnz) as (Hd & Hlk & Hbo). unfold is_data in Hd.
  wp_call (block_write_spec (S k)); [done|fs_lia|done|intros s2; by apply Hf| |].
  { apply write_block_ok; [done..| |by apply Forall_slice]. rewrite length_slice; lia. }
  intros [] s2 He2. pose proof (ext_disk _ _ _ He2) as Hd2. destruct Hw1 as [_ Hip' Hwr1].
  split; rewrite ?Hd2; [by eapply ext_trans|done|]. apply wrote_chunk; done || lia.
Qed.

Lemma writei_loop_spec k s ip off src :
  ready (S (S k)) s → imap_ok (disk s) (addrs ip) → bytes_ok src →
  0 ≤ off → off + Z.of_nat (length src) ≤ MAXFILE * BSIZE →
  wp (writei_loop ip off src) s (λ '(total, ip') s', 0 ≤ total ≤ Z.of_nat (length src) ∧
    writing s ip off src total ip' s' ∧
    (total = Z.of_nat (length src) ∨
     disk_full (disk s') ∧ (total = 0 ∨ (off + total) mod BSIZE = 0))).
Proof.
  intros Hr Hm Hsrc Ho Hmax. unfold writei_loop. set (len := Z.of_nat (length src)) in *.
  apply (wp_while (λ '(total, ip') s', 0 ≤ total ≤ len ∧ writing s ip off src total ip' s' ∧
      (total = len ∨ total = 0 ∨ (off + total) mod BSIZE = 0))
    (λ '(total, _), blocks_left off len total)).
  - intros [total ip'] s' (Ht & Hw & Hal).
    destruct (Z.ltb_spec total len) as [Hlt|]; [|wp_steps; split_and!; [lia|lia|done|left; lia]].
    wp_steps; [fs_lia|]. cbv zeta. set (m := Z.min _ _).
    destruct (blocks_left_step off len total m) as (Hm0 & Hmn & Hmb & Hdec); [done|lia|done|].
    pose proof (Z.mod_pos_bound (off + total) BSIZE ltac:(fs_lia)) as Hmod.
    wp_call (chunk_spec k s ip off src total ip' s' m "writei: bread" (λ d,
      chunk ← subslice src total m; copy_into d ((off + total) mod BSIZE) chunk));
      [done|done|done|done|lia|done|done| |].
    { intros d s1 [Hl _]. unfold subslice, copy_into, mbind, M_bind, mret, M_ret.
      rewrite !(proj2 (Z.leb_le _ _)) by lia. cbn [andb].
      by rewrite length_slice, !(proj2 (Z.leb_le _ _)) by (rewrite ?Hl; fs_lia). }
    intros [[b|] ip1] s1; [|intros [Hw1 Hfull]; wp_steps; split_and!; [lia|lia|done|right; split; [done|lia]]].
    intros Hwp. wp_call Hwp. intros [] s2 Hw2. wp_steps; [fs_lia|].
    split; [|done]. split_and!; [lia|lia|done|].
    destruct (decide (total + m = len)) as [|Hne]; [by left|right; right].
    assert (m = BSIZE - (off + total) mod BSIZE) as -> by lia.
    rewrite Z.add_assoc. pose proof (Z.div_mod (off + total) BSIZE ltac:(fs_lia)).
    replace (_ + _) with ((1 + (off + total) / BSIZE) * BSIZE) by lia. apply Z.mod_mul. fs_lia.
  - split_and!; [lia|lia|by eapply writing_start|right; by left].
  - by apply blocks_left_fuel.
Qed.

Lemma zero_fill_spec k s ip from to :
  ready (S (S k)) s → imap_ok (disk s) (addrs ip) → 0 ≤ from → to ≤ MAXFILE * BSIZE → from ≤ to →
  wp (zero_fill ip from to) s (λ '(ok, ip') s', ∃ total,
    0 ≤ total ≤ to - from ∧ writing s ip from (replicate (Z.to_nat (to - from)) 0) total ip' s' ∧
    if ok : bool then total = to - from else disk_full (disk s')).
Proof.
  intros Hr Hm Ho Hmax Hle. unfold zero_fill.
  destruct (Z.leb_spec to from).
  { wp_steps. exists 0. split_and!; [lia|lia|by eapply writing_start|lia]. }
  cbv zeta. set (len := to - from). set (src := replicate (Z.to_nat len) 0).
  assert (Z.of_nat (length src) = len) as Hlen by (unfold src; rewrite length_replicate; lia).
  assert (bytes_ok src) as Hsrc by (by apply Forall_replicate).
  apply (wp_while (λ '(total, ip') s', 0 ≤ total ≤ len ∧ writing s ip from src total ip' s')
    (λ '(total, _), blocks_left from len total)).
  - intros [total ip'] s' [Ht Hw].
    destruct (Z.ltb_spec total len) as [Hlt|]; [|wp_steps; exists total; split_and!; (done || lia)].
    wp_steps; [fs_lia|]. cbv zeta. set (m := Z.min _ _).
    destruct (blocks_left_step from len total m) as (Hm0 & Hmn & Hmb & Hdec); [done|lia|done|].
    pose proof (Z.mod_pos_bound (from + total) BSIZE ltac:(fs_lia)) as Hmod.
    wp_call (chunk_spec k s ip from src total ip' s' m "zero_fill: bread" (λ d,
      copy_into d ((from + total) mod BSIZE) (replicate (Z.to_nat m) 0)));
      [done|done|done|done|lia|lia|by rewrite Hlen| |].
    { intros d s1 [Hl _]. unfold copy_into, mret, M_ret, src.
      rewrite length_replicate, !(proj2 (Z.leb_le _ _)) by (rewrite ?Hl; fs_lia). cbn [andb].
      unfold slice. rewrite drop_replicate, take_replicate. do 5 f_equal. lia. }
    intros [[b|] ip1] s1; [|intros [Hw1 Hfull]; wp_steps; exists total; split_and!; (done || lia)].
    intros Hwp. wp_call Hwp. intros [] s2 Hw2. wp_steps; [fs_lia|].
    split; [|done]. split_and!; [lia|lia|done].
  - split; [lia|by eapply writing_start].
  - apply blocks_left_fuel; lia.
Qed.

(** ** Disks that agree on the data area *)

Definition same_data (D D' : list (list u8)) : Prop :=
  ∀ b, is_data b → blk D' b = blk D b ∧ used D' b = used D b.

Lemma same_data_put D i d : is_inum i → same_data D (put_dinode D i d).
Proof.
  intros Hi b Hb. rewrite used_put_dinode, blk_put_dinode; [done|done| |done|done].
  unfold is_data in Hb. fs_lia.
Qed.

Section same_data.
Context (D D' : list (list u8)) (a : list u32) (HS : same_data D D') (Hm : imap_ok D a).

Lemma same_bmap bn : bmap D' a bn = bmap D a bn.
Proof.
  unfold bmap. destruct (_ <? _); [done|]. destruct (_ <? _); [|done].
  destruct (Z.eqb_spec (ind a) 0) as [|H0]; [done|]. f_equal.
  destruct (im_ind _ _ Hm H0) as [Hd _]. by apply HS.
Qed.

Lemma same_imap : imap_ok D' a.
Proof.
  destruct Hm as [H1 H2 H3 H4]. split; [done| | |].
  - intros H0. destruct (H2 H0) as [Hd Hu]. split; [done|]. destruct (HS _ Hd). congruence.
  - intros bn Hbn. rewrite same_bmap. intros H0. destruct (H3 bn Hbn H0) as (Hd & Hu & Hne).
    split_and!; [done| |done]. destruct (HS _ Hd). congruence.
  - intros bn bn'. rewrite !same_bmap. apply H4.
Qed.

Lemma same_fbyte p : is_pos p → fbyte D' a p = fbyte D a p.
Proof.
  intros Hp. unfold fbyte. rewrite same_bmap.
  destruct (Z.eqb_spec (bmap D a (p / BSIZE)) 0) as [|H0]; [done|].
  destruct (im_blk _ _ Hm _ (is_bn_div _ Hp) H0) as (Hd & _). by rewrite (proj1 (HS _ Hd)).
Qed.

Lemma same_owned b : owned D' a b ↔ owned D a b.
Proof.
  unfold owned. split; intros [Hb [?|(bn & Hbn & Heq)]]; (split; [done|]);
    [by left| |by left|]; right; exists bn; (split; [done|]); by rewrite same_bmap in *.
Qed.
End same_data.

Lemma same_file D D' ip : same_data D D' → file_ok D ip → file_ok D' ip ∧ contents D' ip = contents D ip.
Proof.
  intros HS [H1 H2 H3]. split.
  - split; [by eapply same_imap|done|]. intros p Hp. rewrite (same_bmap D D'); auto.
  - unfold contents, fbytes. apply list_fmap_ext. intros i p Hp. apply lookup_seqZ in Hp as [-> Hi].
    apply same_fbyte; [done|done|]. unfold is_pos. lia.
Qed.

(** ** [_writei] *)

(** Overwrite a byte list at an offset, filling a gap with zeros. *)
Definition write_at (off : nat) (bs l : list u8) : list u8 :=
  take off (l ++ replicate (off - length l) 0) ++ bs ++ drop (off + length bs) l.

Lemma length_write_at off bs l : length (write_at off bs l) = (length l `max` (off + length bs))%nat.
Proof.
  unfold write_at. rewrite !length_app, length_take, length_app, length_replicate, length_drop. lia.
Qed.

Lemma lookup_write_at off bs l i :
  (i < length l `max` (off + length bs))%nat →
  write_at off bs l !! i =
    if decide (off ≤ i < off + length bs)%nat then bs !! (i - off)%nat
    else if decide (i < length l)%nat then l !! i else Some 0.
Proof.
  intros Hi. unfold write_at.
  assert (length (take off (l ++ replicate (off - length l) 0)) = off) as Hl
    by (rewrite length_take, length_app, length_replicate; lia).
  destruct (decide (off ≤ i < off + length bs)%nat) as [Hin|Hout].
  { rewrite lookup_app_r, Hl, lookup_app_l by lia. done. }
  destruct (decide (i < off)%nat) as [Hlt|Hge].
  - rewrite lookup_app_l, lookup_take_lt by lia. destruct (decide (i < length l)%nat).
    + by rewrite lookup_app_l.
    + rewrite lookup_app_r by lia. apply lookup_replicate_2. lia.
  - rewrite lookup_app_r, Hl, lookup_app_r, lookup_drop by lia.
    rewrite decide_True by lia. f_equal. lia.
Qed.

Lemma length_contents D ip : length (contents D ip) = Z.to_nat (size ip).
Proof. apply length_fbytes. Qed.

Lemma lookup_contents D ip i :
  (i < Z.to_nat (size ip))%nat → contents D ip !! i = Some (fbyte D (addrs ip) (Z.of_nat i)).
Proof. intros Hi. unfold contents. by rewrite lookup_fbytes. Qed.

(** Writing to a file up to its size, then growing the size. *)
Lemma wrote_file D ip off src total D' a' sz :
  wrote D (addrs ip) off src total D' a' → file_ok D ip →
  0 ≤ off ≤ size ip → 0 ≤ total ≤ Z.of_nat (length src) → off + total ≤ MAXFILE * BSIZE →
  sz = Z.max (size ip) (off + total) →
  let ip' := set_size sz (set_addrs a' ip) in
  file_ok D' ip' ∧
  contents D' ip' = write_at (Z.to_nat off) (take (Z.to_nat total) src) (contents D ip).
Proof.
  intros [H1 H2 H3] [G1 G2 G3] Ho Ht Hmax -> ip'. split.
  - split; cbn [addrs size set_size set_addrs ip']; [apply H1|lia|]. intros p Hp.
    destruct (decide (off ≤ p < off + total)); [by apply H3|].
    rewrite (ev_bmap _ _ _ _ H1); [apply G3; lia|apply is_bn_div; unfold is_pos; lia|apply G3; lia].
  - assert (length (take (Z.to_nat total) src) = Z.to_nat total) as Hl by (rewrite length_take; lia).
    eapply list_eq_same_length; [reflexivity| |].
    { rewrite length_write_at, !length_contents, Hl. cbn [size set_size ip']. lia. }
    intros i x y Hi. rewrite length_write_at, length_contents, Hl in Hi.
    rewrite lookup_contents by (cbn [size set_size ip']; lia).
    rewrite lookup_write_at, length_contents, Hl by (rewrite length_contents, Hl; lia).
    cbn [addrs set_size set_addrs ip']. rewrite H2 by (unfold is_pos; lia).
    destruct (decide (Z.to_nat off ≤ i < Z.to_nat off + Z.to_nat total)%nat).
    + rewrite decide_True by lia. rewrite lookup_take_lt by lia.
      rewrite (list_lookup_lookup_total_lt _ _) by lia.
      replace (Z.to_nat (Z.of_nat i - off)) with (i - Z.to_nat off)%nat by lia. congruence.
    + rewrite decide_False by lia. rewrite decide_True, lookup_contents by lia. congruence.
Qed.

(** The remaining fields of an inode in memory. *)
Record meta_ok (ip : Inode) : Prop := {
  mo_inum : is_inum (inum ip);
  mo_typ : i16_ok (typ ip); mo_major : i16_ok (major ip);
  mo_minor : i16_ok (minor ip); mo_nlink : i16_ok (nlink ip);
}.

Lemma imap_addrs_ok D a : imap_ok D a → Forall u32_ok a.
Proof.
  intros Hm. apply Forall_lookup. intros i x Hx. unfold u32_ok.
  destruct (decide (x = 0)) as [->|Hnz]; [fs_lia|].
  pose proof (lookup_lt_Some _ _ _ Hx) as Hi. rewrite (im_len _ _ Hm) in Hi.
  apply list_lookup_total_correct in Hx as Hx'.
  assert (is_data x) as Hd; [|unfold is_data in Hd; fs_lia].
  destruct (decide (Z.of_nat i < NDIRECT)) as [Hlt|Hge].
  - assert (bmap D a (Z.of_nat i) = x) as <-.
    { unfold bmap. rewrite (proj2 (Z.ltb_lt _ _)) by done. by rewrite Nat2Z.id. }
    apply (im_blk _ _ Hm); [unfold is_bn; fs_lia|done].
  - assert (ind a = x) as <-; [|by apply (im_ind _ _ Hm)].
    unfold ind. by replace (Z.to_nat NDIRECT) with i by fs_lia.
Qed.

Lemma file_Dinode_ok D ip : file_ok D ip → meta_ok ip → Dinode_ok (dinode_of ip).
Proof.
  intros [H1 H2 H3] [? ? ? ? ?]. split; cbn [d_typ d_major d_minor d_nlink d_size d_addrs dinode_of]; try done.
  - unfold u32_ok. fs_lia.
  - apply H1.
  - by eapply imap_addrs_ok.
Qed.

Lemma iupdate_spec k D ip s :
  ready (S k) s → disk s = D → file_ok D ip → meta_ok ip →
  wp (iupdate ip) s (λ _ s', ext s (put_dinode D (inum ip) (dinode_of ip)) s').
Proof.
  intros Hr <- Hf Hm. unfold iupdate.
  wp_call (write_dinode_spec k); [done|apply Hm|apply Hf|done].
Qed.

(** The outcome of a write that is not rejected outright. *)
Record written (s : fs) (ip : Inode) (off : Z) (src : list u8) (total : Z) (ip' : Inode) (s' : fs) : Prop := {
  wn_ext : ext s (disk s') s';
  wn_total : 0 ≤ total ≤ Z.of_nat (length src);
  wn_ip : ip' = set_size (size ip') (set_addrs (addrs ip') ip);
  wn_file : file_ok (disk s') ip';
  wn_disk : ∃ D1, disk_ok D1 ∧ evolve (disk s) (addrs ip) D1 (addrs ip') ∧
    (disk s' = put_dinode D1 (inum ip) (dinode_of ip') ∨
     disk s' = D1 ∧ total = 0 ∧ size ip' = size ip);
  wn_contents :
    contents (disk s') ip' = write_at (Z.to_nat off) (take (Z.to_nat total) src) (contents (disk s) ip) ∨
    (size ip < off ∧ total = 0 ∧ contents (disk s') ip' = contents (disk s) ip);
  wn_short : total = Z.of_nat (length src) ∨
    disk_full (disk s') ∧ (total = 0 ∨ (off + total) mod BSIZE = 0);
}.

Lemma disk_full_same D D' : same_data D D' → disk_full D → disk_full D'.
Proof. intros HS Hf b Hb. destruct (HS b Hb) as [_ ->]. by apply Hf. Qed.

(** Fields that a write does not touch. *)
Lemma meta_ok_set ip sz a : meta_ok ip → meta_ok (set_size sz (set_addrs a ip)).
Proof. intros []. by split. Qed.

Lemma writei_tail_spec k s ip off src (changed : bool) :
  ready (S (S k)) s → file_ok (disk s) ip → meta_ok ip → bytes_ok src →
  0 ≤ off ≤ size ip → off + Z.of_nat (length src) ≤ MAXFILE * BSIZE →
  wp (writei_tail ip off src changed) s (λ '(total, ip') s', ∃ D1,
    0 ≤ total ≤ Z.of_nat (length src) ∧ ext s (disk s') s' ∧
    ip' = set_size (Z.max (size ip) (off + total)) (set_addrs (addrs ip') ip) ∧
    disk_ok D1 ∧ wrote (disk s) (addrs ip) off src total D1 (addrs ip') ∧
    disk s' = (if (0 <? total) || changed then put_dinode D1 (inum ip) (dinode_of ip') else D1) ∧
    (total = Z.of_nat (length src) ∨ disk_full D1 ∧ (total = 0 ∨ (off + total) mod BSIZE = 0))).
Proof.
  intros Hr Hf Hmeta Hsrc Ho Hmax. pose proof (fo_size _ _ Hf) as Hsz. unfold writei_tail.
  wp_call (writei_loop_spec k); [done|apply Hf|done|lia|done|].
  intros [total ip1] s1 (Ht & [He Hip Hw] & Hshort). wp_steps; [fs_lia|]. cbv zeta.
  set (ip' := if _ <? _ then _ else ip1).
  assert (ip' = set_size (Z.max (size ip) (off + total)) (set_addrs (addrs ip1) ip)) as Hip'.
  { unfold ip'. rewrite Hip. cbn [size set_addrs addrs]. destruct (Z.ltb_spec (size ip) (off + total)).
    - rewrite as_u32_small by fs_lia. by rewrite Z.max_r by lia.
    - rewrite Z.max_l by lia. by destruct ip. }
  assert (addrs ip' = addrs ip1) as Ha by (by rewrite Hip').
  destruct (wrote_file _ _ _ _ _ _ _ _ Hw Hf ltac:(lia) Ht ltac:(lia) eq_refl) as [Hf' _].
  rewrite <-Hip' in Hf'. pose proof (ext_ready _ _ _ _ Hr He) as Hr1.
  assert (meta_ok ip') as Hmeta' by (rewrite Hip'; by apply meta_ok_set).
  assert (inum ip' = inum ip) as Hin by (by rewrite Hip').
  destruct ((0 <? total) || changed) eqn:Hsv.
  - wp_call (iupdate_spec (S k) (disk s1)); [done|done|done|done|]. rewrite Hin.
    intros [] s2 He2. wp_steps. pose proof (ext_disk _ _ _ He2) as Hd2. exists (disk s1).
    rewrite Hd2, Ha, Hsv. split_and!; try (done || lia); [by eapply ext_trans|by eapply ready_disk].
  - wp_steps. exists (disk s1). rewrite Ha, Hsv. split_and!; try (done || lia). by eapply ready_disk.
Qed.

Lemma write_at_gap off bs l :
  (length l ≤ off)%nat → write_at off bs (l ++ replicate (off - length l) 0) = write_at off bs l.
Proof.
  intros Hl. unfold write_at. rewrite length_app, length_replicate.
  replace (off - (length l + (off - length l)))%nat with 0%nat by lia. rewrite app_nil_r.
  rewrite !drop_ge by (rewrite ?length_app, ?length_replicate; lia). done.
Qed.

Lemma write_at_end bs l : write_at (length l) bs l = l ++ bs.
Proof.
  unfold write_at. rewrite Nat.sub_diag, app_nil_r, take_ge, drop_ge, app_nil_r by lia. done.
Qed.

(** The state after [writei_tail], seen from before the gap was filled. *)
Lemma written_intro s ip ip1 off src total (saved : bool) ip' s1 s' D1 l :
  ext s (disk s1) s1 → ext s1 (disk s') s' → is_inum (inum ip) →
  evolve (disk s) (addrs ip) (disk s1) (addrs ip1) →
  (∃ z, ip1 = set_size z (set_addrs (addrs ip1) ip) ∧ size ip ≤ z) →
  (saved = false → size ip1 = size ip) →
  file_ok (disk s1) ip1 → contents (disk s1) ip1 = l →
  write_at (Z.to_nat off) (take (Z.to_nat total) src) l =
    write_at (Z.to_nat off) (take (Z.to_nat total) src) (contents (disk s) ip) →
  0 ≤ off ≤ size ip1 → off + Z.of_nat (length src) ≤ MAXFILE * BSIZE →
  0 ≤ total ≤ Z.of_nat (length src) →
  ip' = set_size (Z.max (size ip1) (off + total)) (set_addrs (addrs ip') ip1) →
  disk_ok D1 → wrote (disk s1) (addrs ip1) off src total D1 (addrs ip') →
  disk s' = (if (0 <? total) || saved then put_dinode D1 (inum ip1) (dinode_of ip') else D1) →
  (total = Z.of_nat (length src) ∨ disk_full D1 ∧ (total = 0 ∨ (off + total) mod BSIZE = 0)) →
  written s ip off src total ip' s'.
Proof.
  intros He He' Hi Hev (z & Hip1 & Hz) Hsaved Hf Hl Hwa Ho Hmax Ht Hip' HD1 Hw Hd Hshort.
  destruct (wrote_file _ _ _ _ _ _ _ _ Hw Hf Ho Ht ltac:(lia) eq_refl) as [Hf' Hc'].
  rewrite <-Hip' in Hf', Hc'. assert (inum ip1 = inum ip) as Hin by (by rewrite Hip1).
  rewrite Hin in Hd.
  assert (same_data D1 (disk s')) as HS.
  { rewrite Hd. destruct (_ || _); [by apply same_data_put|]. by intros b Hb. }
  destruct (same_file _ _ _ HS Hf') as [Hf'' Hc''].
  split; [by eapply ext_trans|done| |done| | |].
  - assert (∀ x y, set_size x (set_addrs y ip1) = set_size x (set_addrs y ip)) as Hss
      by (intros; by rewrite Hip1).
    rewrite Hss in Hip'. assert (size ip' = Z.max (size ip1) (off + total)) as -> by (by rewrite Hip').
    done.
  - exists D1. split_and!; [done|eapply evolve_trans; [done|apply Hw]|]. rewrite Hd.
    destruct saved; [rewrite orb_true_r; by left|]. rewrite orb_false_r.
    destruct (Z.ltb_spec 0 total); [by left|right]. split_and!; [done|lia|].
    rewrite Hip'. cbn [size set_size]. rewrite <-Hsaved by done. lia.
  - left. by rewrite Hc'', Hc', Hl.
  - destruct Hshort as [?|[Hfull ?]]; [by left|right]. split; [by eapply disk_full_same|done].
Qed.

(** Writing past the end without growing the size does not show. *)
Lemma wrote_beyond D ip off src total D' a' :
  wrote D (addrs ip) off src total D' a' → file_ok D ip → size ip ≤ off →
  file_ok D' (set_addrs a' ip) ∧ contents D' (set_addrs a' ip) = contents D ip.
Proof.
  intros [H1 H2 H3] [G1 G2 G3] Ho. split.
  - split; cbn [addrs size set_addrs]; [apply H1|done|]. intros p Hp.
    rewrite (ev_bmap _ _ _ _ H1); [by apply G3|apply is_bn_div; unfold is_pos; lia|by apply G3].
  - unfold contents, fbytes. cbn [addrs size set_addrs].
    apply list_fmap_ext. intros i p Hp. apply lookup_seqZ in Hp as [-> Hi].
    rewrite H2 by (unfold is_pos; lia). by rewrite decide_False by lia.
Qed.

Lemma writei_spec k s ip off src :
  ready (S (S k)) s → file_ok (disk s) ip → meta_ok ip → bytes_ok src → src ≠ [] →
  0 ≤ off → off + Z.of_nat (length src) ≤ MAXFILE * BSIZE →
  wp (_writei ip off src) s (λ '(total, ip') s', written s ip off src total ip' s').
Proof.
  intros Hr Hf Hmeta Hsrc Hne Ho Hmax. pose proof (fo_size _ _ Hf) as Hsz.
  pose proof (mo_inum _ Hmeta) as Hi.
  unfold _writei. destruct (Nat.eqb_spec (length src) 0) as [H0|_]; [by apply length_zero_iff_nil in H0|].
  rewrite checked_Some by fs_lia. rewrite (proj2 (Z.ltb_ge _ _)) by done.
  destruct (Z.ltb_spec (size ip) off) as [Hgap|Hin].
  - wp_call (zero_fill_spec k); [done|apply Hf|lia|lia|lia|].
    intros [ok ip1] s1 (z & Hz & [He1 Hip1 Hw1] & Hok).
    destruct (wrote_file _ _ _ _ _ _ _ _ Hw1 Hf ltac:(lia)
      ltac:(rewrite length_replicate; lia) ltac:(lia) eq_refl) as [Hf1 Hc1].
    assert (Z.to_nat (size ip) = length (contents (disk s) ip)) as Hlc by (by rewrite length_contents).
    destruct ok; cbn [negb].
    + subst z. wp_call (writei_tail_spec k s1 (set_size off ip1));
        [by eapply ext_ready|by replace (Z.max _ _) with off in Hf1 by lia; rewrite <-Hip1 in Hf1
        |rewrite Hip1; by apply meta_ok_set|done|cbn [size set_size]; lia|done|].
      replace (Z.max _ _) with off in * by lia. rewrite <-Hip1 in Hf1, Hc1.
      intros [total ip'] s' (D1 & Ht & He' & Hip' & HD1 & Hw & Hd & Hshort).
      eapply (written_intro s ip (set_size off ip1)); try done.
      * apply Hw1.
      * exists off. split; [|lia]. cbn [addrs set_size]. by rewrite Hip1 at 1.
      * by intros.
      * rewrite Hlc, (take_ge (replicate _ _)) by (rewrite length_replicate; lia).
        rewrite write_at_end, <-(write_at_gap (Z.to_nat off) _ (contents (disk s) ip)) by (rewrite length_contents; lia).
        do 2 f_equal. rewrite length_contents. f_equal. lia.
    + destruct (wrote_beyond _ _ _ _ _ _ _ Hw1 Hf ltac:(lia)) as [Hf2 Hc2]. rewrite <-Hip1 in Hf2, Hc2.
      wp_steps. split; [done|lia| |done| | |right; split; [done|by left]].
      * assert (size ip1 = size ip) as -> by (by rewrite Hip1). rewrite Hip1 at 1. by destruct ip.
      * exists (disk s1). split_and!; [by eapply ready_disk, ext_ready|apply Hw1|]. right. split_and!; [done|done|by rewrite Hip1].
      * right. by split_and!.
  - wp_call (writei_tail_spec k); [done|done|done|done|lia|done|].
    intros [total ip'] s' (D1 & Ht & He' & Hip' & HD1 & Hw & Hd & Hshort).
    pose proof (ext_refl s (ready_ok _ _ Hr)) as Hrefl.
    eapply (written_intro s ip ip); try done.
    + by apply evolve_refl, Hf.
    + exists (size ip). split; [by destruct ip|lia].
Qed.

Lemma writei_reject s ip off src :
  0 ≤ off → src = [] ∨ MAXFILE * BSIZE < off + Z.of_nat (length src) →
  _writei ip off src s = Ok ((0, ip), s).
Proof.
  intros Ho Hc. unfold _writei. destruct (Nat.eqb_spec (length src) 0) as [|Hn]; [done|].
  unfold checked. destruct (Z.leb_spec 0 (off + Z.of_nat (length src))); [|lia].
  destruct (Z.leb_spec (off + Z.of_nat (length src)) USIZE_MAX); [|done]. cbn [andb].
  destruct Hc as [->|Hc]; [done|]. by rewrite (proj2 (Z.ltb_lt _ _)) by done.
Qed.

(** ** Files that do not share blocks *)

Definition disjoint_maps (D : list (list u8)) (a a2 : list u32) : Prop :=
  ∀ b, owned D a b → ¬ owned D a2 b.

Lemma disjoint_maps_sym D a a2 : disjoint_maps D a a2 → disjoint_maps D a2 a.
Proof. intros H b H1 H2. by apply (H b). Qed.

(** The data of a file is untouched when its blocks are. *)
Definition untouched (D D' : list (list u8)) (a : list u32) : Prop :=
  ∀ b, owned D a b → blk D' b = blk D b ∧ used D' b = true.

Section untouched.
Context (D D' : list (list u8)) (a : list u32) (HU : untouched D D' a) (Hm : imap_ok D a).

Lemma untouched_bmap bn : bmap D' a bn = bmap D a bn.
Proof.
  unfold bmap. destruct (_ <? _); [done|]. destruct (_ <? _); [|done].
  destruct (Z.eqb_spec (ind a) 0) as [|H0]; [done|]. f_equal. apply HU. split; [done|by left].
Qed.

Lemma untouched_owned b : owned D' a b ↔ owned D a b.
Proof.
  unfold owned. split; intros [Hb [?|(bn & Hbn & Heq)]]; (split; [done|]);
    [by left| |by left|]; right; exists bn; (split; [done|]); by rewrite untouched_bmap in *.
Qed.

Lemma untouched_imap : imap_ok D' a.
Proof.
  destruct Hm as [H1 H2 H3 H4]. split; [done| | |].
  - intros H0. destruct (H2 H0) as [Hd Hu]. split; [done|]. apply HU. split; [done|by left].
  - intros bn Hbn. rewrite untouched_bmap. intros H0. destruct (H3 bn Hbn H0) as (Hd & Hu & Hne).
    split_and!; [done| |done]. apply HU. split; [done|right; by exists bn].
  - intros bn bn'. rewrite !untouched_bmap. apply H4.
Qed.

Lemma untouched_fbyte p : is_pos p → fbyte D' a p = fbyte D a p.
Proof.
  intros Hp. unfold fbyte. rewrite untouched_bmap.
  destruct (Z.eqb_spec (bmap D a (p / BSIZE)) 0) as [|H0]; [done|].
  assert (owned D a (bmap D a (p / BSIZE))) as Ho.
  { split; [done|]. right. exists (p / BSIZE). split; [by apply is_bn_div|done]. }
  by rewrite (proj1 (HU _ Ho)).
Qed.
End untouched.

Lemma untouched_file D D' ip :
  untouched D D' (addrs ip) → file_ok D ip → file_ok D' ip ∧ contents D' ip = contents D ip.
Proof.
  intros HU [H1 H2 H3]. split.
  - split; [by eapply untouched_imap|done|]. intros p Hp. rewrite (untouched_bmap D D'); auto.
  - unfold contents, fbytes. apply list_fmap_ext. intros i p Hp. apply lookup_seqZ in Hp as [-> Hi].
    apply untouched_fbyte; [done|]. unfold is_pos. lia.
Qed.

Lemma evolve_untouched D a D' a' a2 :
  evolve D a D' a' → imap_ok D a2 → disjoint_maps D a a2 → untouched D D' a2.
Proof.
  intros He Hm Hd b Hb. destruct (owned_data _ _ _ Hm Hb) as [Hb1 Hb2].
  split; [|by apply (ev_used _ _ _ _ He)]. apply (ev_other _ _ _ _ He); [done|done|].
  intros Ho. by apply (Hd b).
Qed.

Lemma evolve_disjoint D a D' a' a2 :
  evolve D a D' a' → imap_ok D a2 → disjoint_maps D a a2 → disjoint_maps D' a' a2.
Proof.
  intros He Hm Hd b Ho Ho2. pose proof (evolve_untouched _ _ _ _ _ He Hm Hd) as HU.
  apply (untouched_owned _ _ _ HU) in Ho2. destruct (owned_data _ _ _ Hm Ho2) as [_ Hu].
  destruct (ev_fresh _ _ _ _ He b Ho) as [Ho'|Hf]; [by apply (Hd b)|congruence].
Qed.

Lemma untouched_same D D1 D2 a :
  untouched D D1 a → imap_ok D a → same_data D1 D2 → untouched D D2 a.
Proof.
  intros HU Hm HS b Hb. destruct (owned_data _ _ _ Hm Hb) as [Hd _].
  destruct (HU b Hb) as [H1 H2], (HS b Hd) as [H3 H4]. split; congruence.
Qed.

Lemma file_ok_empty D ip : addrs ip = zero_addrs → size ip = 0 → file_ok D ip.
Proof. intros Ha Hs. split; rewrite ?Ha, ?Hs; [apply imap_zero|fs_lia|lia]. Qed.

Lemma owned_zero D b : ¬ owned D zero_addrs b.
Proof.
  intros [Hb [Hi|(bn & Hbn & Heq)]]; [by unfold ind, zero_addrs in Hi|].
  by rewrite bmap_zero in Heq.
Qed.

(** ** Main theorems *)

Lemma fbytes_contents D ip off n :
  0 ≤ off → 0 ≤ n → off + n ≤ size ip →
  fbytes D (addrs ip) off n = slice (Z.to_nat off) (Z.to_nat n) (contents D ip).
Proof.
  intros Ho Hn Hs. apply list_eq_same_length with (Z.to_nat n).
  { rewrite length_slice; [done|]. rewrite length_contents. lia. }
  { apply length_fbytes. }
  intros i x y Hi. rewrite lookup_fbytes by done. rewrite lookup_slice by done.
  rewrite lookup_contents by lia. rewrite Nat2Z.inj_add, Z2Nat.id by lia. congruence.
Qed.

Lemma slice_write_at off bs l : slice off (length bs) (write_at off bs l) = bs.
Proof.
  unfold slice, write_at.
  assert (length (take off (l ++ replicate (off - length l) 0)) = off) as Hl
    by (rewrite length_take, length_app, length_replicate; lia).
  rewrite drop_app_ge, Hl, Nat.sub_diag, drop_0 by lia. apply take_app_length.
Qed.

(** C8: [_readi] refines reading from a byte list: it returns exactly the bytes
    of the file from [off], as many as the destination and the file size allow
    (none at or past the end), leaves the rest of the destination alone, and
    changes neither the disk nor any pin, inode or lock. *)
Theorem readi_refines k ip off dst s :
  ready (S k) s → file_ok (disk s) ip → 0 ≤ off ≤ U32_MAX →
  wp (_readi ip off dst) s (λ '(n, dst') s',
    n = Z.max 0 (Z.min (Z.of_nat (length dst)) (size ip - off)) ∧
    dst' = slice (Z.to_nat off) (Z.to_nat n) (contents (disk s) ip) ++ drop (Z.to_nat n) dst ∧
    ext s (disk s) s').
Proof.
  intros Hr Hf Ho. wp_call (readi_spec k); [done|done|done|]. cbv zeta.
  set (n := Z.max _ _). intros [m dst'] s' [[= -> ->] He]. split_and!; [done| |done].
  unfold splice. rewrite length_fbytes. simpl.
  destruct (decide (0 < n)) as [Hn|Hn]; [rewrite fbytes_contents by lia; done|].
  replace n with 0 by lia. unfold slice. by rewrite take_0.
Qed.


(** What was written is read back: when [_writei] reports that all of [src]
    was written, [_readi] at the same offset returns [src]. *)
Theorem write_then_read k ip off src s :
  ready (S (S k)) s → file_ok (disk s) ip → meta_ok ip → bytes_ok src → src ≠ [] →
  0 ≤ off → off + Z.of_nat (length src) ≤ MAXFILE * BSIZE →
  wp ('(total, ip') ← _writei ip off src;
      r ← _readi ip' off (replicate (length src) 0);
      mret (total, r)) s (λ '(total, (n, dst)) s',
    total = Z.of_nat (length src) → n = total ∧ dst = src).
Proof.
  intros Hr Hf Hm Hsrc Hne Ho Hmax. wp_call (writei_spec k); [done..|].
  intros [total ip'] s' [He Ht Hip Hf' _ Hc _].
  wp_call (readi_spec (S k)); [by eapply ext_ready|done|fs_lia|]. cbv zeta.
  rewrite length_replicate. set (n := Z.max _ _). intros [m dst] s2 [[= -> ->] _].
  wp_steps. intros ->. assert (length src ≠ 0%nat) as Hlen by (by destruct src).
  destruct Hc as [Hc|(_ & ? & _)]; [|lia].
  rewrite take_ge in Hc by lia. pose proof (f_equal length Hc) as Hl.
  rewrite length_write_at, !length_contents in Hl. pose proof (fo_size _ _ Hf').
  assert (n = Z.of_nat (length src)) as -> by lia. split; [done|].
  rewrite fbytes_contents, Hc, Nat2Z.id by lia. rewrite slice_write_at.
  unfold splice. by rewrite drop_ge, app_nil_r by (rewrite length_replicate; lia).
Qed.

(** Writes are isolated: a file that shares no block with the one written
    keeps its contents and its on-disk inode, and still shares no block with
    it afterwards. *)
Theorem writei_isolated k ip off src s ip2 :
  ready (S (S k)) s → file_ok (disk s) ip → meta_ok ip → bytes_ok src → src ≠ [] →
  0 ≤ off → off + Z.of_nat (length src) ≤ MAXFILE * BSIZE →
  file_ok (disk s) ip2 → is_inum (inum ip2) → inum ip2 ≠ inum ip →
  disjoint_maps (disk s) (addrs ip) (addrs ip2) →
  wp (_writei ip off src) s (λ '(total, ip') s',
    file_ok (disk s') ip2 ∧ contents (disk s') ip2 = contents (disk s) ip2 ∧
    dinode (disk s') (inum ip2) = dinode (disk s) (inum ip2) ∧
    disjoint_maps (disk s') (addrs ip') (addrs ip2)).
Proof.
  intros Hr Hf Hm Hsrc Hne Ho Hmax Hf2 Hi2 Hni Hdis. wp_call (writei_spec k); [done..|].
  intros [total ip'] s' [He Ht Hip Hf' (D1 & HD1 & Hev & Hd) _ _].
  pose proof (mo_inum _ Hm) as Hi. pose proof (fo_map _ _ Hf2) as Hm2.
  assert (same_data D1 (disk s')) as HS.
  { destruct Hd as [->|[-> _]]; [by apply same_data_put|by intros b Hb]. }
  pose proof (evolve_untouched _ _ _ _ _ Hev Hm2 Hdis) as HU.
  destruct (untouched_file _ _ _ HU Hf2) as [HF1 HC1].
  destruct (same_file _ _ _ HS HF1) as [HF2 HC2].
  split_and!; [done|congruence| |].
  - rewrite <-(ev_dinode _ _ _ _ Hev) by done. destruct Hd as [->|[-> _]]; [|done].
    rewrite dinode_put; [by rewrite decide_False|done|done|done|].
    eapply file_Dinode_ok; [done|]. rewrite Hip. by apply meta_ok_set.
  - pose proof (evolve_disjoint _ _ _ _ _ Hev Hm2 Hdis) as Hd1. intros b.
    rewrite (same_owned D1 (disk s') (addrs ip')) by (done || apply Hev).
    rewrite (same_owned D1 (disk s') (addrs ip2)) by (done || apply HF1).
    apply Hd1.
Qed.

(** A write of nothing, or one that would end past the largest file, is
    refused: it reports [0] and changes nothing at all, whatever the state. *)
Theorem writei_refuses s ip off src :
  0 ≤ off → src = [] ∨ MAXFILE * BSIZE < off + Z.of_nat (length src) →
  _writei ip off src s = Ok ((0, ip), s).
Proof. apply writei_reject. Qed.

(** [itrunc] frees exactly the blocks of the file (direct, indirect and
    the indirect block itself) and empties its in-memory and on-disk inode;
    a file that shares no block with it keeps its contents. *)
Theorem itrunc_frees k ip s ip2 :
  ready (S (S k)) s → file_ok (disk s) ip → meta_ok ip →
  file_ok (disk s) ip2 → disjoint_maps (disk s) (addrs ip) (addrs ip2) →
  wp (itrunc ip) s (λ ip' s',
    ip' = set_size 0 (set_addrs zero_addrs ip) ∧
    dinode (disk s') (inum ip) = dinode_of ip' ∧
    (∀ b, is_data b → used (disk s') b = true ↔ used (disk s) b = true ∧ ¬ owned (disk s) (addrs ip) b) ∧
    file_ok (disk s') ip2 ∧ contents (disk s') ip2 = contents (disk s) ip2).
Proof.
  intros Hr Hf Hm Hf2 Hdis. wp_call (itrunc_spec k); [done|apply Hf|apply Hm|by eapply file_Dinode_ok|].
  intros ip' s' (-> & D' & He & [T1 T2 T3 T4 T5 T6]). rewrite (ext_disk _ _ _ He).
  assert (untouched (disk s) D' (addrs ip2)) as HU.
  { intros b Hb. destruct (owned_data _ _ _ (fo_map _ _ Hf2) Hb) as [Hd Hu].
    split; [by apply T4|]. rewrite T3; [done|done|]. intros Ho. by apply (Hdis b). }
  destruct (untouched_file _ _ _ HU Hf2) as [HF HC]. split_and!; [done|done| |done|done].
  intros b Hb. split.
  - intros Hu. assert (¬ owned (disk s) (addrs ip) b) as Hno by (intros Ho; rewrite T2 in Hu; done).
    by rewrite T3 in Hu.
  - intros [Hu Hno]. by rewrite T3.
Qed.

(** Instances on the empty disk: an empty file, and a second one beside it. *)
Definition new_file (i : Z) : Inode := mkInode i 1 true T_FILE 0 0 1 0 zero_addrs.

Lemma new_file_ok D i : file_ok D (new_file i).
Proof. by apply file_ok_empty. Qed.

Lemma new_file_meta i : is_inum i → meta_ok (new_file i).
Proof. intros Hi. by split. Qed.

Lemma new_file_disjoint D i j : disjoint_maps D (addrs (new_file i)) (addrs (new_file j)).
Proof. intros b Hb. by apply owned_zero in Hb. Qed.

Lemma readi_refines_witness :
  wp (_readi (new_file 1) 0 [7; 8]) boot_fs (λ '(n, dst') s',
    n = 0 ∧ dst' = slice 0 (Z.to_nat n) (contents (disk boot_fs) (new_file 1)) ++ drop (Z.to_nat n) [7; 8] ∧
    ext boot_fs (disk boot_fs) s').
Proof. apply (readi_refines 15); [apply boot_ready|apply new_file_ok|fs_lia]. Defined.

Lemma demo_src : bytes_ok [104; 105] ∧ [104; 105] ≠ [] ∧ 1023 + Z.of_nat (length [104; 105]) ≤ MAXFILE * BSIZE.
Proof. split_and!; [rewrite !Forall_cons, Forall_nil; unfold byte_ok; lia|done|cbn [length]; fs_lia]. Qed.


Lemma write_then_read_witness :
  wp ('(total, ip') ← _writei (new_file 1) 1023 [104; 105];
      r ← _readi ip' 1023 (replicate 2 0);
      mret (total, r)) boot_fs (λ '(total, (n, dst)) s', total = 2 → n = total ∧ dst = [104; 105]).
Proof.
  apply (write_then_read 14 (new_file 1) 1023 [104; 105] boot_fs);
    [apply boot_ready|apply new_file_ok|by apply new_file_meta|apply demo_src..|lia|apply demo_src].
Defined.

Lemma writei_isolated_witness :
  wp (_writei (new_file 1) 1023 [104; 105]) boot_fs (λ '(total, ip') s',
    file_ok (disk s') (new_file 2) ∧
    contents (disk s') (new_file 2) = contents (disk boot_fs) (new_file 2) ∧
    dinode (disk s') 2 = dinode (disk boot_fs) 2 ∧
    disjoint_maps (disk s') (addrs ip') (addrs (new_file 2))).
Proof.
  apply (writei_isolated 14 (new_file 1) 1023 [104; 105] boot_fs (new_file 2));
    [apply boot_ready|apply new_file_ok|by apply new_file_meta|apply demo_src..|lia|apply demo_src
    |apply new_file_ok|done|done|apply new_file_disjoint].
Defined.

Lemma writei_refuses_witness :
  _writei (new_file 1) 274432 [1] boot_fs = Ok ((0, new_file 1), boot_fs).
Proof. apply writei_refuses; [lia|right; cbn [length]; fs_lia]. Defined.

Lemma itrunc_frees_witness :
  wp (itrunc (new_file 1)) boot_fs (λ ip' s',
    ip' = set_size 0 (set_addrs zero_addrs (new_file 1)) ∧
    dinode (disk s') 1 = dinode_of ip' ∧
    (∀ b, is_data b → used (disk s') b = true ↔
       used (disk boot_fs) b = true ∧ ¬ owned (disk boot_fs) (addrs (new_file 1)) b) ∧
    file_ok (disk s') (new_file 2) ∧ contents (disk s') (new_file 2) = contents (disk boot_fs) (new_file 2)).
Proof.
  apply (itrunc_frees 14 (new_file 1) boot_fs (new_file 2));
    [apply boot_ready|apply new_file_ok|by apply new_file_meta|apply new_file_ok|apply new_file_disjoint].
Defined.

(** A write that leaves a gap, crosses into the indirect blocks and is read
    back together with the byte before it. *)
Example write_read_run :
  match ('(total, ip') ← _writei (new_file 1) 13000 [104; 105];
         r ← _readi ip' 12999 (replicate 4 9);
         mret (total, r, size ip', addrs ip')) boot_fs with
  | Ok (r, _) => r = (2, (3, [0; 104; 105; 9]), 13002,
                      [16; 17; 18; 19; 20; 21; 22; 23; 24; 25; 26; 27; 28])
  | Fault _ => False
  end.
Proof. vm_compute. reflexivity. Qed.
