(* ===== verification/Dir.v ===== *)
(** * Directories (src/src/fs.rs, lines 608-700)

    Directory entries and the two searches over them.  A directory is specified
    as the list of its entries; [dirlookup] is a search in that list and
    [dirlink] fills its first free slot. *)

From S2P Require Import Prelude Spinlock FsBase Bcache Balloc Bmap Inode.

(** ** Operations *)

Definition dirent_name (name : list u8) : list u8 :=
  let n := (length name `min` Z.to_nat DIRSIZ)%nat in
  splice 0 (take n name) (replicate (Z.to_nat DIRSIZ) 0).

Definition name_eq (dir_name name : list u8) : bool := bool_decide (dir_name = dirent_name name).

Definition read_dirent (dp : Inode) (off : u32) : M fs (option Dirent) :=
  '(n, buf) ← _readi dp off (replicate (Z.to_nat DIRENT_SIZE) 0);
  if negb (n =? DIRENT_SIZE) then mret None
  else mret (Some (Dirent_of_bytes buf)).

Definition write_dirent (dp : Inode) (off : u32) (de : Dirent) : M fs (bool * Inode) :=
  '(n, dp) ← _writei dp off (Dirent_bytes de);
  mret (n =? DIRENT_SIZE, dp).

(** Iterations of a loop over the entries of a directory. *)
Definition dir_fuel (dp : Inode) : nat := S (Z.to_nat (div_ceil (size dp) DIRENT_SIZE)).

Definition dirlookup (dp : Inode) (name : list u8) : M fs (option u32) :=
  if negb (typ dp =? T_DIR) then mret None
  else
    while_fuel (dir_fuel dp) (λ off,
      if off <? size dp then
        r ← read_dirent dp off;
        match r with
        | None => mret (inr None)
        | Some de =>
            if negb (de_inum de =? 0) && name_eq (de_name de) name
            then mret (inr (Some (de_inum de)))
            else off ← add_at U32_MAX off DIRENT_SIZE; mret (inl off)
        end
      else mret (inr None)) 0.

(** The search of [dirlink] for a free entry: its offset, or [None] when an
    entry cannot be read. *)
Definition dirlink_slot (dp : Inode) : M fs (option u32) :=
  while_fuel (dir_fuel dp) (λ off,
    if off <? size dp then
      r ← read_dirent dp off;
      match r with
      | None => mret (inr None)
      | Some de =>
          if de_inum de =? 0 then mret (inr (Some off))
          else off ← add_at U32_MAX off DIRENT_SIZE; mret (inl off)
      end
    else mret (inr (Some off))) 0.

Definition dirlink (dp : Inode) (name : list u8) (inum : u32) : M fs (bool * Inode) :=
  if negb (typ dp =? T_DIR) then mret (false, dp)
  else
    r ← dirlookup dp name;
    match r with
    | Some _ => mret (false, dp)
    | None =>
        r ← dirlink_slot dp;
        match r with
        | None => mret (false, dp)
        | Some off => write_dirent dp off (mkDirent (as_u16 inum) (dirent_name name))
        end
    end.

(** ** Directories as lists of entries *)

Definition ENT : nat := Z.to_nat DIRENT_SIZE.

Definition parse_dir (l : list u8) : list Dirent :=
  (λ i, Dirent_of_bytes (slice (ENT * i) ENT l)) <$> seq 0 (length l / ENT).

Definition entries (D : list (list u8)) (dp : Inode) : list Dirent := parse_dir (contents D dp).

(** The entry a lookup finds. *)
Definition matches (name : list u8) (de : Dirent) : bool :=
  negb (de_inum de =? 0) && name_eq (de_name de) name.

Fixpoint dir_find (name : list u8) (es : list Dirent) : option Z :=
  match es with
  | [] => None
  | de :: es' => if matches name de then Some (de_inum de) else dir_find name es'
  end.

(** The slot a link uses. *)
Fixpoint free_slot (es : list Dirent) : nat :=
  match es with
  | [] => 0
  | de :: es' => if de_inum de =? 0 then 0 else S (free_slot es')
  end.

Definition dir_add (de : Dirent) (es : list Dirent) : list Dirent := splice (free_slot es) [de] es.

Record dir_ok (D : list (list u8)) (dp : Inode) : Prop := {
  do_file : file_ok D dp;
  do_typ : typ dp = T_DIR;
  do_size : (DIRENT_SIZE | size dp);
}.

(** ** Facts about the list form *)

Lemma length_dirent_name name : length (dirent_name name) = Z.to_nat DIRSIZ.
Proof.
  unfold dirent_name. rewrite length_splice, length_replicate; [done|].
  rewrite length_take, length_replicate. lia.
Qed.

Lemma dirent_name_ok name : bytes_ok name → bytes_ok (dirent_name name).
Proof.
  intros Hn. apply Forall_splice; [by apply Forall_take|]. by apply Forall_replicate.
Qed.

Lemma length_parse_dir l : length (parse_dir l) = (length l / ENT)%nat.
Proof. unfold parse_dir. by rewrite length_fmap, length_seq. Qed.

Lemma lookup_parse_dir l i :
  (i < length l / ENT)%nat → parse_dir l !! i = Some (Dirent_of_bytes (slice (ENT * i) ENT l)).
Proof. intros Hi. unfold parse_dir. by rewrite list_lookup_fmap, lookup_seq_lt. Qed.

Lemma free_slot_le es : (free_slot es ≤ length es)%nat.
Proof. induction es as [|de es IH]; simpl; [lia|]. destruct (_ =? _); lia. Qed.

Lemma parse_write l j de :
  Dirent_ok de → Nat.divide ENT (length l) → (j ≤ length l / ENT)%nat →
  parse_dir (write_at (ENT * j) (Dirent_bytes de) l) = splice j [de] (parse_dir l).
Proof.
  intros Hde [n Hn] Hj. pose proof (length_Dirent_bytes de (deok_len _ Hde)) as Hlb.
  assert (ENT = 16%nat) as HE by done. fold ENT in Hlb.
  assert (length l / ENT = n)%nat as Hdiv by (rewrite Hn; by apply Nat.div_mul).
  assert (length (write_at (ENT * j) (Dirent_bytes de) l) / ENT = n `max` S j)%nat as Hdiv'.
  { rewrite length_write_at, Hlb, Hn. symmetry. apply (Nat.div_unique _ _ _ 0); lia. }
  assert (length (splice j [de] (parse_dir l)) = n `max` S j)%nat as Hls.
  { unfold splice. rewrite !length_app, length_take, length_drop, length_parse_dir, Hdiv. simpl. lia. }
  apply list_eq_same_length with (n `max` S j)%nat; [done|by rewrite length_parse_dir|].
  intros i x y Hi. rewrite lookup_parse_dir by lia. intros <-%(inj Some).
  destruct (decide (i = j)) as [->|Hne].
  - pose proof (slice_write_at (ENT * j) (Dirent_bytes de) l) as Hsw. rewrite Hlb in Hsw.
    rewrite Hsw, Dirent_roundtrip by done. unfold splice.
    rewrite lookup_app_r by (rewrite length_take, length_parse_dir; lia).
    rewrite length_take, length_parse_dir, Nat.min_l, Nat.sub_diag by lia. simpl. congruence.
  - assert (i < n)%nat as Hin by lia.
    assert (splice j [de] (parse_dir l) !! i = parse_dir l !! i) as ->.
    { unfold splice. destruct (decide (i < j)%nat).
      - rewrite lookup_app_l by (rewrite length_take, length_parse_dir; lia). by apply lookup_take_lt.
      - rewrite lookup_app_r by (rewrite length_take, length_parse_dir; lia).
        rewrite lookup_app_r by (cbn [length]; rewrite length_take, length_parse_dir; lia).
        rewrite lookup_drop, length_take, length_parse_dir. cbn [length]. f_equal. lia. }
    rewrite lookup_parse_dir by lia. intros <-%(inj Some). f_equal.
    apply list_eq_same_length with ENT.
    + rewrite length_slice; lia.
    + rewrite length_slice; [done|]. rewrite length_write_at. lia.
    + intros k x y Hk. rewrite !lookup_slice by done.
      rewrite lookup_write_at by (rewrite Hlb; lia). rewrite decide_False by (rewrite Hlb; nia).
      rewrite decide_True by nia. congruence.
Qed.

Lemma dir_find_add name de es :
  matches name de = true → dir_find name es = None → dir_find name (dir_add de es) = Some (de_inum de).
Proof.
  intros Hm Hf. unfold dir_add. induction es as [|e es IH]; simpl.
  - by rewrite Hm.
  - simpl in Hf. destruct (matches name e) eqn:He; [done|].
    destruct (de_inum e =? 0); unfold splice; simpl; [by rewrite Hm|].
    rewrite He. by apply IH.
Qed.

Lemma dir_find_add_ne name de es :
  matches name de = false → dir_find name (dir_add de es) = dir_find name es.
Proof.
  intros Hm. unfold dir_add. induction es as [|e es IH]; simpl.
  - by rewrite Hm.
  - destruct (de_inum e =? 0) eqn:E0; unfold splice; simpl.
    + assert (matches name e = false) as -> by (unfold matches; by rewrite E0). by rewrite Hm, drop_0.
    + destruct (matches name e); [done|]. apply IH.
Qed.

(** ** Specifications *)

Lemma dir_size D dp : dir_ok D dp →
  size dp = DIRENT_SIZE * Z.of_nat (length (entries D dp)) ∧ Nat.divide ENT (length (contents D dp)).
Proof.
  intros [Hf _ [n Hn]]. pose proof (fo_size _ _ Hf).
  assert (length (contents D dp) = Z.to_nat n * ENT)%nat as Hl.
  { rewrite length_contents, Hn. unfold ENT. fs_lia. }
  unfold entries. rewrite length_parse_dir. split; [|by exists (Z.to_nat n)].
  rewrite Hl, Nat.div_mul by done. fs_lia.
Qed.

Lemma dir_entries_max D dp : dir_ok D dp → Z.of_nat (length (entries D dp)) ≤ 17152.
Proof. intros Hd. destruct (dir_size _ _ Hd). pose proof (fo_size _ _ (do_file _ _ Hd)). fs_lia. Qed.

Lemma read_dirent_spec k D dp s i de :
  ready (S k) s → disk s = D → dir_ok D dp → entries D dp !! i = Some de →
  wp (read_dirent dp (DIRENT_SIZE * Z.of_nat i)) s (λ r s', r = Some de ∧ ext s D s').
Proof.
  intros Hr Hs Hd Hi. pose proof (lookup_lt_Some _ _ _ Hi) as Hlt.
  destruct (dir_size _ _ Hd) as [Hsz _]. pose proof (dir_entries_max _ _ Hd). pose proof Hd as [Hf _ _].
  unfold read_dirent. wp_call (readi_spec k); [done|by rewrite Hs|fs_lia|]. cbv zeta.
  rewrite length_replicate, Hs. set (n := Z.max _ _). assert (n = 16) as -> by fs_lia.
  intros [m buf] s' [[= -> ->] He]. wp_steps. cbn [negb Z.eqb]. wp_steps. split; [|done].
  rewrite fbytes_contents by fs_lia. unfold entries in *. rewrite length_parse_dir in Hlt.
  rewrite lookup_parse_dir in Hi by done. rewrite <-Hi.
  assert (length (contents D dp) = Z.to_nat (size dp)) as Hlc by apply length_contents.
  rewrite length_parse_dir in Hsz. pose proof (Nat.Div0.mul_div_le (length (contents D dp)) ENT).
  replace (Z.to_nat (DIRENT_SIZE * Z.of_nat i)) with (ENT * i)%nat by (unfold ENT; fs_lia).
  change (Z.to_nat 16) with ENT. do 2 f_equal. unfold splice. cbn [take app].
  rewrite length_slice; [apply app_nil_r|].
  change ENT with 16%nat in *. nia.
Qed.

(** Both searches visit the entries in order. *)
Lemma dir_fuel_ok D dp : dir_ok D dp → (length (entries D dp) < dir_fuel dp)%nat.
Proof.
  intros Hd. destruct (dir_size _ _ Hd) as [Hsz _]. unfold dir_fuel, div_ceil. rewrite Hsz. fs_consts.
  rewrite <-(Z.div_unique _ 16 (Z.of_nat (length (entries D dp))) 15) by lia. lia.
Qed.

Lemma dir_index i : Z.to_nat (DIRENT_SIZE * Z.of_nat i / DIRENT_SIZE) = i.
Proof. rewrite Z.mul_comm, Z.div_mul by fs_lia. lia. Qed.

Lemma dir_next i : DIRENT_SIZE * Z.of_nat i + DIRENT_SIZE = DIRENT_SIZE * Z.of_nat (S i).
Proof. lia. Qed.

Lemma dirlookup_spec k dp name s :
  ready (S k) s → dir_ok (disk s) dp →
  wp (dirlookup dp name) s (λ r s', r = dir_find name (entries (disk s) dp) ∧ ext s (disk s) s').
Proof.
  intros Hr Hd. pose proof (ext_refl s (ready_ok _ _ Hr)) as Hrefl. set (D := disk s) in *.
  set (es := entries D dp). destruct (dir_size _ _ Hd) as [Hsz _]. fold es in Hsz.
  pose proof (dir_entries_max _ _ Hd) as Hmax. fold es in Hmax.
  unfold dirlookup. rewrite (do_typ _ _ Hd). change (negb (T_DIR =? T_DIR)) with false. cbn match.
  apply (wp_while (λ off s', ∃ i, off = DIRENT_SIZE * Z.of_nat i ∧ (i ≤ length es)%nat ∧ ext s D s' ∧
      dir_find name (drop i es) = dir_find name es)
    (λ off, length es - Z.to_nat (off / DIRENT_SIZE))%nat).
  - intros off s' (i & -> & Hi & He & Hf). pose proof (ext_ready _ _ _ _ Hr He) as Hr'.
    destruct (Z.ltb_spec (DIRENT_SIZE * Z.of_nat i) (size dp)) as [Hlt|Hge].
    + assert (is_Some (es !! i)) as [de Hde] by (apply lookup_lt_is_Some; fs_lia).
      wp_call (read_dirent_spec k D dp _ i de); [done|by apply (ext_disk _ _ _ He)|done|done|].
      intros r s1 [-> He1]. pose proof (ext_trans _ _ _ _ _ He He1) as He01.
      rewrite (drop_S _ _ _ Hde) in Hf. cbn [dir_find] in Hf. fold (matches name de).
      destruct (matches name de); wp_steps; [by split|fs_lia|]. split.
      * exists (S i). split_and!; [fs_lia|fs_lia|done|done].
      * rewrite dir_next, !dir_index. fs_lia.
    + wp_steps. split; [|done]. rewrite <-Hf, drop_ge by fs_lia. done.
  - exists 0%nat. split_and!; [lia|lia|done|done].
  - pose proof (dir_fuel_ok _ _ Hd) as Hfuel. fold es in Hfuel. lia.
Qed.

Lemma dirlink_slot_spec k dp s :
  ready (S k) s → dir_ok (disk s) dp →
  wp (dirlink_slot dp) s (λ r s',
    r = Some (DIRENT_SIZE * Z.of_nat (free_slot (entries (disk s) dp))) ∧ ext s (disk s) s').
Proof.
  intros Hr Hd. pose proof (ext_refl s (ready_ok _ _ Hr)) as Hrefl. set (D := disk s) in *.
  set (es := entries D dp). destruct (dir_size _ _ Hd) as [Hsz _]. fold es in Hsz.
  pose proof (dir_entries_max _ _ Hd) as Hmax. fold es in Hmax. unfold dirlink_slot.
  apply (wp_while (λ off s', ∃ i, off = DIRENT_SIZE * Z.of_nat i ∧ (i ≤ length es)%nat ∧ ext s D s' ∧
      free_slot es = (i + free_slot (drop i es))%nat)
    (λ off, length es - Z.to_nat (off / DIRENT_SIZE))%nat).
  - intros off s' (i & -> & Hi & He & Hf). pose proof (ext_ready _ _ _ _ Hr He) as Hr'.
    destruct (Z.ltb_spec (DIRENT_SIZE * Z.of_nat i) (size dp)) as [Hlt|Hge].
    + assert (is_Some (es !! i)) as [de Hde] by (apply lookup_lt_is_Some; fs_lia).
      wp_call (read_dirent_spec k D dp _ i de); [done|by apply (ext_disk _ _ _ He)|done|done|].
      intros r s1 [-> He1]. pose proof (ext_trans _ _ _ _ _ He He1) as He01.
      rewrite (drop_S _ _ _ Hde) in Hf. cbn [free_slot] in Hf.
      destruct (de_inum de =? 0); wp_steps; [|fs_lia|].
      * split; [|done]. by rewrite Hf, Nat.add_0_r.
      * split; [|rewrite dir_next, !dir_index; fs_lia].
        exists (S i). split_and!; [fs_lia|fs_lia|done|lia].
    + wp_steps. split; [|done]. rewrite Hf, drop_ge by fs_lia. simpl. by rewrite Nat.add_0_r.
  - exists 0%nat. split_and!; [lia|lia|done|done].
  - pose proof (dir_fuel_ok _ _ Hd) as Hfuel. fold es in Hfuel. lia.
Qed.

(** An operation on the inode [ip] that writes to it at most once. *)
Inductive changed (s : fs) (ip ip' : Inode) (s' : fs) : Prop :=
| changed_not : ip' = ip → ext s (disk s) s' → changed s ip ip' s'
| changed_written off src total : written s ip off src total ip' s' → changed s ip ip' s'.

(** Reads before the write do not matter. *)
Lemma changed_ext s s1 ip ip' s' :
  ext s (disk s) s1 → changed s1 ip ip' s' → changed s ip ip' s'.
Proof.
  intros He Hch. pose proof (ext_disk _ _ _ He) as Hd. destruct Hch as [-> He'|off src total Hw].
  - apply changed_not; [done|]. rewrite Hd in He'. by eapply ext_trans.
  - apply (changed_written _ _ _ _ off src total). destruct Hw. rewrite Hd in *.
    split; try done. by eapply ext_trans.
Qed.

Definition new_entry (name : list u8) (i : Z) : Dirent := mkDirent (as_u16 i) (dirent_name name).

Lemma new_entry_ok name i : bytes_ok name → Dirent_ok (new_entry name i).
Proof.
  intros Hn. split; cbn [de_inum de_name new_entry];
    [|apply length_dirent_name|by apply dirent_name_ok].
  unfold as_u16. pose proof (Z.mod_pos_bound i (2 ^ 16)). fs_lia.
Qed.

Lemma Dirent_bytes_ok de : Dirent_ok de → bytes_ok (Dirent_bytes de).
Proof. intros [_ _ Hn]. unfold Dirent_bytes. rewrite Forall_app. auto with kernel. Qed.

Lemma write_at_nil off l : (off ≤ length l)%nat → write_at off [] l = l.
Proof.
  intros Hl. unfold write_at. simpl. replace (off - length l)%nat with 0%nat by lia.
  by rewrite app_nil_r, Nat.add_0_r, take_drop.
Qed.

(** An entry lies in one block: it is written as a whole or not at all. *)
Lemma entry_all_or_nothing j total :
  0 ≤ total ≤ 16 → total = 16 ∨ total = 0 ∨ (DIRENT_SIZE * j + total) mod BSIZE = 0 →
  total = 16 ∨ total = 0.
Proof.
  intros Ht [?|[?|Hm]]; [by left|by right|]. fs_consts.
  apply Z.mod_divide in Hm as [q Hq]; [|lia]. lia.
Qed.

Lemma write_entry_spec k s dp j de :
  ready (S (S k)) s → dir_ok (disk s) dp → meta_ok dp → Dirent_ok de →
  (j ≤ length (entries (disk s) dp))%nat →
  wp (write_dirent dp (DIRENT_SIZE * Z.of_nat j) de) s (λ '(ok, dp') s',
    changed s dp dp' s' ∧ dir_ok (disk s') dp' ∧
    if ok : bool then entries (disk s') dp' = splice j [de] (entries (disk s) dp)
    else entries (disk s') dp' = entries (disk s) dp ∧
         (disk_full (disk s') ∨ size dp = MAXFILE * BSIZE)).
Proof.
  intros Hr Hd Hmeta Hde Hj. destruct (dir_size _ _ Hd) as [Hsz Hdiv].
  pose proof Hd as [Hf Ht Hs]. pose proof (fo_size _ _ Hf) as Hmax.
  pose proof (length_Dirent_bytes de (deok_len _ Hde)) as Hlb.
  unfold write_dirent. destruct (decide (DIRENT_SIZE * Z.of_nat j + DIRENT_SIZE ≤ MAXFILE * BSIZE)) as [Hfit|Hbig].
  - wp_call (writei_spec k); [done|done|done|by apply Dirent_bytes_ok|by intros H0; rewrite H0 in Hlb
      |fs_lia|rewrite Hlb; fs_lia|].
    intros [total dp'] s' Hw. wp_steps. pose proof Hw as [He Htot Hip Hf' _ Hc Hshort].
    rewrite Hlb in Htot, Hshort.
    assert (total = 16 ∨ total = 0) as Ht16 by (apply (entry_all_or_nothing (Z.of_nat j)); fs_lia).
    assert (contents (disk s') dp' = write_at (ENT * j) (take (Z.to_nat total) (Dirent_bytes de))
      (contents (disk s) dp)) as Hc'.
    { destruct Hc as [Hc|(? & _)]; [|fs_lia]. rewrite Hc. f_equal. unfold ENT. fs_lia. }
    clear Hc. split; [by eapply changed_written|]. destruct Ht16 as [-> | ->];
      [change (16 =? DIRENT_SIZE) with true|change (0 =? DIRENT_SIZE) with false]; cbn match.
    + rewrite take_ge in Hc' by (rewrite Hlb; fs_lia).
      assert (length (contents (disk s') dp') = Z.to_nat (size dp')) as Hl' by apply length_contents.
      rewrite Hc', length_write_at, length_contents, Hlb in Hl'. pose proof (fo_size _ _ Hf').
      split.
      * split; [done|by rewrite Hip|]. destruct Hs as [q Hq].
        exists (Z.max q (Z.of_nat j + 1)). change ENT with 16%nat in *. fs_lia.
      * unfold entries. rewrite Hc'. apply parse_write; [done|done|].
        unfold entries in Hj. by rewrite length_parse_dir in Hj.
    + rewrite take_0, write_at_nil in Hc' by (rewrite length_contents; unfold ENT; fs_lia).
      pose proof (f_equal length Hc') as Hl. rewrite !length_contents in Hl. pose proof (fo_size _ _ Hf').
      assert (size dp' = size dp) as Hsame by lia. split_and!.
      * split; [done|by rewrite Hip|by rewrite Hsame].
      * unfold entries. by rewrite Hc'.
      * destruct Hshort as [?|[? _]]; [fs_lia|by left].
  - wp_step. unfold wp. rewrite writei_reject by (try right; rewrite ?Hlb; fs_lia).
    change (0 =? DIRENT_SIZE) with false. cbn.
    split_and!; [by apply changed_not, ext_refl, Hr|done|done|right]. fs_lia.
Qed.

Lemma dirlink_spec k dp name i s :
  ready (S (S k)) s → dir_ok (disk s) dp → meta_ok dp → bytes_ok name →
  wp (dirlink dp name i) s (λ '(ok, dp') s',
    changed s dp dp' s' ∧ dir_ok (disk s') dp' ∧
    if ok : bool then
      dir_find name (entries (disk s) dp) = None ∧
      entries (disk s') dp' = dir_add (new_entry name i) (entries (disk s) dp)
    else
      entries (disk s') dp' = entries (disk s) dp ∧
      (is_Some (dir_find name (entries (disk s) dp)) ∨
       disk_full (disk s') ∨ size dp = MAXFILE * BSIZE)).
Proof.
  intros Hr Hd Hmeta Hn. unfold dirlink. rewrite (do_typ _ _ Hd). change (negb (T_DIR =? T_DIR)) with false. cbn match.
  wp_call (dirlookup_spec (S k)); [done|done|]. intros r s1 [-> He1].
  pose proof (ext_disk _ _ _ He1) as Hd1. pose proof (ext_ready _ _ _ _ Hr He1) as Hr1.
  destruct (dir_find name (entries (disk s) dp)) eqn:Hfind.
  { wp_steps. rewrite Hd1. split_and!; [by apply changed_not|done|done|by left]. }
  wp_call (dirlink_slot_spec (S k)); [done|by rewrite Hd1|]. rewrite Hd1. intros r s2 [-> He2].
  pose proof (ext_disk _ _ _ He2) as Hd2. pose proof (ext_ready _ _ _ _ Hr1 He2) as Hr2.
  fold (new_entry name i).
  wp_call (write_entry_spec k); [done|by rewrite Hd2|done|by apply new_entry_ok|rewrite Hd2; apply free_slot_le|].
  rewrite Hd2. intros [ok dp'] s3 (Hch & Hd' & Hok). split_and!; [|done|].
  - by eapply changed_ext; [eapply ext_trans|].
  - destruct ok; [done|]. destruct Hok as [? ?]. split; [done|by right].
Qed.

(** ** Main theorems *)

Lemma matches_same name name2 de :
  dirent_name name = dirent_name name2 → matches name de = matches name2 de.
Proof. intros Heq. unfold matches, name_eq. by rewrite Heq. Qed.

Lemma dir_find_same name name2 es :
  dirent_name name = dirent_name name2 → dir_find name es = dir_find name2 es.
Proof.
  intros Heq. induction es as [|de es IH]; simpl; [done|].
  by rewrite (matches_same _ _ _ Heq), IH.
Qed.

Lemma matches_new name name2 i :
  0 < i ≤ U16_MAX →
  matches name2 (new_entry name i) = bool_decide (dirent_name name = dirent_name name2) ∧
  de_inum (new_entry name i) = i.
Proof.
  intros Hi. assert (as_u16 i = i) as Hu.
  { unfold as_u16. apply Z.mod_small. change (2 ^ 16) with 65536. fs_lia. }
  unfold matches, name_eq, new_entry. cbn [de_inum de_name]. rewrite Hu.
  by rewrite (proj2 (Z.eqb_neq _ _)) by lia.
Qed.

(** C26: a name that was linked is found: after [dirlink dp name i] succeeds,
    [dirlookup] returns [i] for every name with the same first 14 bytes and
    what it returned before for every other name; after a failed [dirlink]
    nothing is found that was not there. *)
Theorem link_then_lookup k dp name i name2 s :
  ready (S (S k)) s → dir_ok (disk s) dp → meta_ok dp → bytes_ok name → 0 < i ≤ U16_MAX →
  wp ('(ok, dp') ← dirlink dp name i; r ← dirlookup dp' name2; mret (ok, r)) s (λ '(ok, r) s',
    r = if ok && bool_decide (dirent_name name = dirent_name name2) then Some i
        else dir_find name2 (entries (disk s) dp)).
Proof.
  intros Hr Hd Hm Hn Hi. wp_call (dirlink_spec k); [done..|].
  intros [ok dp'] s' (Hch & Hd' & Hok). destruct (matches_new name name2 i Hi) as [Hma Hin].
  assert (ready (S (S k)) s') as Hr'.
  { destruct Hch as [_ He|off src total Hw]; eapply ext_ready; [done|done|done|apply Hw]. }
  wp_call (dirlookup_spec (S k)); [done|done|]. intros r s2 [-> _]. wp_steps.
  destruct ok; cbn [andb]; [|by destruct Hok as [-> _]]. destruct Hok as [Hnone ->].
  case_bool_decide as Heq.
  - rewrite <-Hin at 2. apply dir_find_add; [by rewrite Hma|].
    by rewrite <-(dir_find_same name).
  - apply dir_find_add_ne. by rewrite Hma.
Qed.

(** The names in use. *)
Definition names (es : list Dirent) : list (list u8) :=
  de_name <$> filter (λ de, de_inum de ≠ 0) es.

Lemma dir_find_None name es : dir_find name es = None ↔ dirent_name name ∉ names es.
Proof.
  unfold names. induction es as [|de es IH]; simpl; [split; [by intros _ ?%elem_of_nil|done]|].
  rewrite filter_cons. unfold matches, name_eq.
  destruct (Z.eqb_spec (de_inum de) 0) as [E|E]; simpl.
  - rewrite decide_False by tauto. done.
  - rewrite decide_True by done. rewrite fmap_cons, elem_of_cons. case_bool_decide as Hn.
    + split; [done|]. intros []. by left.
    + rewrite IH. split; [intros ? [?|?]; [congruence|done]|tauto].
Qed.

Lemma names_add de es : de_inum de ≠ 0 → names (dir_add de es) ≡ₚ de_name de :: names es.
Proof.
  intros Hde. unfold dir_add, names, splice. cbn [length].
  induction es as [|e es IH]; cbn [free_slot take drop app Nat.add].
  - by rewrite filter_cons_True.
  - destruct (Z.eqb_spec (de_inum e) 0) as [E|E]; cbn [take drop app Nat.add].
    + rewrite drop_0, filter_cons_True, filter_cons_False by tauto. done.
    + rewrite !filter_cons_True by done. rewrite !fmap_cons.
      rewrite IH. apply Permutation_swap.
Qed.

(** No name is entered twice: if the names in use in a directory are
    distinct, they still are after [dirlink], whether it succeeds (one name
    more) or fails (the same names). *)
Theorem dirlink_names_unique k dp name i s :
  ready (S (S k)) s → dir_ok (disk s) dp → meta_ok dp → bytes_ok name → 0 < i ≤ U16_MAX →
  NoDup (names (entries (disk s) dp)) →
  wp (dirlink dp name i) s (λ '(ok, dp') s',
    NoDup (names (entries (disk s') dp')) ∧
    names (entries (disk s') dp') ≡ₚ
      (if ok then [dirent_name name] else []) ++ names (entries (disk s) dp)).
Proof.
  intros Hr Hd Hm Hn Hi Hnd. wp_call (dirlink_spec k); [done..|].
  intros [ok dp'] s' (_ & _ & Hok). destruct (matches_new name name i Hi) as [_ Hin].
  destruct ok; [|by destruct Hok as [-> _]]. destruct Hok as [Hnone ->].
  rewrite dir_find_None in Hnone. rewrite names_add by lia. split; [|done].
  by apply NoDup_cons.
Qed.

(** C39: [dirlink] refuses with [false], leaving the entries as they are, exactly
    when the name is taken, no block is left to hold a new entry, or the
    directory has reached the largest file size; it never faults. *)
Theorem dirlink_refuses k dp name i s :
  ready (S (S k)) s → dir_ok (disk s) dp → meta_ok dp → bytes_ok name →
  wp (dirlink dp name i) s (λ '(ok, dp') s',
    (is_Some (dir_find name (entries (disk s) dp)) → ok = false) ∧
    (ok = false → entries (disk s') dp' = entries (disk s) dp ∧
      (is_Some (dir_find name (entries (disk s) dp)) ∨
       disk_full (disk s') ∨ size dp = MAXFILE * BSIZE))).
Proof.
  intros Hr Hd Hm Hn. wp_call (dirlink_spec k); [done..|].
  intros [ok dp'] s' (_ & _ & Hok). destruct ok; [|by destruct Hok].
  destruct Hok as [Hnone _]. split; [|done]. rewrite Hnone. by intros [].
Qed.

Definition new_dir (i : Z) : Inode := mkInode i 1 true T_DIR 0 0 1 0 zero_addrs.

Lemma new_dir_ok D i : dir_ok D (new_dir i).
Proof. split; [by apply file_ok_empty|done|by exists 0]. Qed.

Lemma new_dir_meta i : is_inum i → meta_ok (new_dir i).
Proof. intros Hi. by split. Qed.

Lemma link_then_lookup_witness :
  wp ('(ok, dp') ← dirlink (new_dir 1) [97] 2; r ← dirlookup dp' [97]; mret (ok, r)) boot_fs
    (λ '(ok, r) s', r = if ok && bool_decide (dirent_name [97] = dirent_name [97]) then Some 2
        else dir_find [97] (entries (disk boot_fs) (new_dir 1))).
Proof.
  apply (link_then_lookup 14); [apply boot_ready|apply new_dir_ok|by apply new_dir_meta| |fs_lia].
  by apply Forall_singleton.
Defined.

Lemma dirlink_names_unique_witness :
  wp (dirlink (new_dir 1) [97] 2) boot_fs (λ '(ok, dp') s',
    NoDup (names (entries (disk s') dp')) ∧
    names (entries (disk s') dp') ≡ₚ
      (if ok then [dirent_name [97]] else []) ++ names (entries (disk boot_fs) (new_dir 1))).
Proof.
  apply (dirlink_names_unique 14); [apply boot_ready|apply new_dir_ok|by apply new_dir_meta| |fs_lia|].
  - by apply Forall_singleton.
  - constructor.
Defined.

Lemma dirlink_refuses_witness :
  wp (dirlink (new_dir 1) [97] 2) boot_fs (λ '(ok, dp') s',
    (is_Some (dir_find [97] (entries (disk boot_fs) (new_dir 1))) → ok = false) ∧
    (ok = false → entries (disk s') dp' = entries (disk boot_fs) (new_dir 1) ∧
      (is_Some (dir_find [97] (entries (disk boot_fs) (new_dir 1))) ∨
       disk_full (disk s') ∨ size (new_dir 1) = MAXFILE * BSIZE))).
Proof.
  apply (dirlink_refuses 14); [apply boot_ready|apply new_dir_ok|by apply new_dir_meta|].
  by apply Forall_singleton.
Defined.

(** Two links, a lookup of each, and a refused duplicate. *)
Example dir_run :
  match ('(ok1, dp) ← dirlink (new_dir 1) [46] 1; '(ok2, dp) ← dirlink dp [97; 98] 7;
         '(ok3, dp) ← dirlink dp [97; 98] 8;
         r1 ← dirlookup dp [46]; r2 ← dirlookup dp [97; 98]; r3 ← dirlookup dp [97];
         mret (ok1, ok2, ok3, r1, r2, r3, size dp)) boot_fs with
  | Ok (r, _) => r = (true, true, false, Some 1, Some 7, None, 32)
  | Fault _ => False
  end.
Proof. vm_compute. reflexivity. Qed.
