(* ===== verification/Icache.v ===== *)
(** * The inode cache and the inode-level interface (src/src/fs.rs)

    [iget]/[ilock]/[idup]/[iput] over the fifty in-memory inodes, inode
    allocation, creation of files and directories below a locked parent, the
    initial file system, and the interface the file layer uses. *)

From stdpp Require Import gmultiset.
From S2P Require Import Prelude Spinlock FsBase Bcache Balloc Bmap Inode Dir.

(** ** Operations

    An [InodeRef] is the index of a slot of [ICACHE]. *)

Abbreviation InodeRef := nat (only parsing).

Definition islot (i : nat) : M fs Inode :=
  I ← gets icache; expect (I !! i) "index out of bounds".
Definition set_islot (i : nat) (ip : Inode) : M fs unit :=
  modify (λ s, set_icache (<[i := ip]> (icache s)) s).

Definition islots : list nat := seq 0 (Z.to_nat NINODE).

Definition set_refcnt (n : usize) (ip : Inode) : Inode :=
  mkInode (inum ip) n (i_valid ip) (typ ip) (major ip) (minor ip) (nlink ip) (size ip) (addrs ip).

(** Body of the first loop of [iget]: share a referenced slot. *)
Definition iget_hit (i : u32) (slot : nat) (_ : unit) : M fs (unit + InodeRef) :=
  acquire (LInode slot);;
  ip ← islot slot;
  if (0 <? i_refcnt ip) && (inum ip =? i) then
    n ← add_at USIZE_MAX (i_refcnt ip) 1;
    set_islot slot (set_refcnt n ip);;
    release (LInode slot);;
    release ICACHE_LOCK;;
    mret (inr slot)
  else
    release (LInode slot);; mret (inl tt).

(** Body of the second loop: claim an unreferenced slot. *)
Definition iget_free (i : u32) (slot : nat) (_ : unit) : M fs (unit + InodeRef) :=
  acquire (LInode slot);;
  ip ← islot slot;
  if i_refcnt ip =? 0 then
    set_islot slot (mkInode i 1 false (typ ip) (major ip) (minor ip) (nlink ip) (size ip) (addrs ip));;
    release (LInode slot);;
    release ICACHE_LOCK;;
    mret (inr slot)
  else
    release (LInode slot);; mret (inl tt).

Definition iget (i : u32) : M fs (option InodeRef) :=
  acquire ICACHE_LOCK;;
  r ← for_each islots (iget_hit i) tt;
  match r with
  | inr slot => mret (Some slot)
  | inl _ =>
      r ← for_each islots (iget_free i) tt;
      match r with
      | inr slot => mret (Some slot)
      | inl _ => release ICACHE_LOCK;; mret None
      end
  end.

(** The in-memory inode after loading [dip]. *)
Definition load_inode (dip : Dinode) (ip : Inode) : Inode :=
  mkInode (inum ip) (i_refcnt ip) true (d_typ dip) (d_major dip) (d_minor dip) (d_nlink dip)
    (d_size dip) (d_addrs dip).

(** [ilock] returns the guard: the slot stays locked and its value is in hand. *)
Definition ilock (slot : InodeRef) : M fs Inode :=
  acquire (LInode slot);;
  ip ← islot slot;
  if i_valid ip then mret ip
  else
    dip ← read_dinode (inum ip);
    let ip := load_inode dip ip in
    set_islot slot ip;;
    mret ip.

(** [{ let mut ip = ilock(slot); f(&mut ip) }]: the value is stored back and the
    slot unlocked when the guard is dropped. *)
Definition with_inode {A} (slot : InodeRef) (f : Inode → M fs (A * Inode)) : M fs A :=
  ip ← ilock slot;
  '(a, ip) ← f ip;
  set_islot slot ip;;
  release (LInode slot);;
  mret a.

Definition idup (slot : InodeRef) : M fs InodeRef :=
  acquire ICACHE_LOCK;;
  guarded (LInode slot)
    (ip ← islot slot;
     if i_refcnt ip <? 1 then panic "idup: no ref"
     else
       n ← add_at USIZE_MAX (i_refcnt ip) 1;
       set_islot slot (set_refcnt n ip));;
  release ICACHE_LOCK;;
  mret slot.

Definition iput (slot : InodeRef) : M fs unit :=
  acquire ICACHE_LOCK;;
  guarded (LInode slot)
    (ip ← islot slot;
     if i_refcnt ip <? 1 then panic "iput: no ref"
     else
       n ← sub_at USIZE_MAX (i_refcnt ip) 1;
       set_islot slot (set_refcnt n ip));;
  release ICACHE_LOCK.

(** ** Allocation and linking *)

Definition fresh_dinode (t : i16) : Dinode := mkDinode t 0 0 0 0 zero_addrs.

Definition ialloc_try (t : i16) (i : u32) (_ : unit) : M fs (unit + option InodeRef) :=
  dip ← read_dinode i;
  if d_typ dip =? 0 then
    write_dinode i (fresh_dinode t);;
    ip ← iget i;
    mret (inr ip)
  else mret (inl tt).

Definition ialloc (t : i16) : M fs (option InodeRef) :=
  r ← for_each (range 1 NINODES) (ialloc_try t) tt;
  match r with
  | inr ip => mret ip
  | inl _ => mret None
  end.

Definition checked_add_i16 (a b : i16) : option i16 :=
  if (-32768 <=? a + b) && (a + b <? 32768) then Some (a + b) else None.

Definition inc_nlink (slot : InodeRef) : M fs unit :=
  with_inode slot (λ ip,
    n ← expect (checked_add_i16 (nlink ip) 1) "inc_nlink: overflow";
    let ip := set_nlink n ip in
    iupdate ip;;
    mret (tt, ip)).

Definition link_child (dp_ref : InodeRef) (name : list u8) (child_inum : u32) : M fs bool :=
  with_inode dp_ref (λ dp, dirlink dp name child_inum).

Definition inum_of (slot : InodeRef) : M fs u32 :=
  with_inode slot (λ ip, mret (inum ip, ip)).

Definition mkdir_child (parent_ref : InodeRef) (name : list u8) : M fs (option InodeRef) :=
  parent_inum ← inum_of parent_ref;
  r ← ialloc T_DIR;
  match r with
  | None => mret None
  | Some ip_ref =>
      '(i, ok) ← with_inode ip_ref (λ ip,
        '(ok, ip) ← (
          '(ok1, ip) ← dirlink ip (bytes_of_string ".") (inum ip);
          if ok1 : bool then dirlink ip (bytes_of_string "..") parent_inum
          else mret (false, ip));
        if ok : bool then
          let ip := set_nlink 1 ip in
          iupdate ip;;
          mret ((inum ip, ok), ip)
        else mret ((inum ip, ok), ip));
      if negb ok then iput ip_ref;; mret None
      else
        linked ← link_child parent_ref name i;
        if negb linked then iput ip_ref;; mret None
        else
          inc_nlink ip_ref;;
          inc_nlink parent_ref;;
          mret (Some ip_ref)
  end.

Definition create_file (parent_ref : InodeRef) (name data : list u8) : M fs (option InodeRef) :=
  r ← ialloc T_FILE;
  match r with
  | None => mret None
  | Some ip_ref =>
      '(i, ok) ← with_inode ip_ref (λ ip,
        '(n, ip) ← _writei ip 0 data;
        mret ((inum ip, n =? Z.of_nat (length data)), ip));
      if negb ok then iput ip_ref;; mret None
      else
        linked ← link_child parent_ref name i;
        if negb linked then iput ip_ref;; mret None
        else inc_nlink ip_ref;; mret (Some ip_ref)
  end.

Definition create_empty_file (parent_ref : InodeRef) (name : list u8) : M fs (option InodeRef) :=
  r ← ialloc T_FILE;
  match r with
  | None => mret None
  | Some ip_ref =>
      i ← inum_of ip_ref;
      linked ← link_child parent_ref name i;
      if negb linked then iput ip_ref;; mret None
      else inc_nlink ip_ref;; mret (Some ip_ref)
  end.

(** ** The initial file system *)

Definition write_superblock : M fs unit :=
  block_write "write_superblock: bread" 1 (λ d, mret (splice 0 (SuperBlock_bytes SB) d)).

Definition init_root : M fs (option InodeRef) :=
  write_dinode ROOTINO (fresh_dinode T_DIR);;
  iget ROOTINO.

(** [if dirlink(dp, name, ROOTINO) { dp.nlink += 1; }] *)
Definition root_link (name : list u8) (dp : Inode) : M fs Inode :=
  '(ok, dp) ← dirlink dp name ROOTINO;
  if ok : bool then
    n ← expect (checked_add_i16 (nlink dp) 1) "attempt to add with overflow";
    mret (set_nlink n dp)
  else mret dp.

(** [let ip = create_file(dir, name, data).expect("create <path><name>"); iput(ip);] *)
Definition install (dir : InodeRef) (path : string) (f : string * list u8) (_ : unit) : M fs unit :=
  r ← create_file dir (bytes_of_string (fst f)) (snd f);
  ip ← expect r ("create " +:+ path +:+ fst f);
  iput ip.

(** The root directory with [.] and [..], the programs below [/bin] and the text
    file. *)
Definition populate (programs : list (string * list u8)) (readme : list u8) : M fs unit :=
  write_superblock;;
  r ← init_root;
  root ← expect r "init root";
  with_inode root (λ dp,
    dp ← root_link (bytes_of_string ".") dp;
    dp ← root_link (bytes_of_string "..") dp;
    iupdate dp;;
    mret (tt, dp));;
  r ← mkdir_child root (bytes_of_string "bin");
  bin ← expect r "mkdir /bin";
  for_fold programs (install bin "/bin/") tt;;
  install root "" ("README.md", readme) tt;;
  iput bin;;
  iput root.

(** The programs in the order they are created; [image] is what [include_bytes!]
    finds for each in the build of the user programs, [readme] is README.md. *)
Definition program_names : list string :=
  ["sh"; "cat"; "ls"; "alloc_test"; "write_test"; "dup_test"; "pipe_test"; "wc"; "mkdir"; "echo"; "clear"].

Definition populate_root (image : string → list u8) (readme : list u8) : M fs unit :=
  populate ((λ name, (name, image name)) <$> program_names) readme.

(** [init] first resets the disk and both caches, one locked slot at a time. *)
Definition reset_buffer (i : nat) (_ : unit) : M fs unit :=
  guarded (LBuffer i) (set_buf i Buffer_empty).
Definition reset_inode (i : nat) (_ : unit) : M fs unit :=
  guarded (LInode i) (set_islot i Inode_empty).

Definition fs_reset : M fs unit :=
  modify (λ s, set_disk (replicate (Z.to_nat FSSIZE) zero_block) s);;
  acquire BCACHE_LOCK;;
  for_fold slots reset_buffer tt;;
  release BCACHE_LOCK;;
  acquire ICACHE_LOCK;;
  for_fold islots reset_inode tt;;
  release ICACHE_LOCK.

Definition fs_init (image : string → list u8) (readme : list u8) : M fs unit :=
  fs_reset;; populate_root image readme.

Definition root : M fs InodeRef :=
  r ← iget ROOTINO; expect r "root".

(** ** The interface of the file layer *)

Inductive InodeType := IFile | IDir | IDevice (major : u16).

Definition inode_type (slot : InodeRef) : M fs InodeType :=
  with_inode slot (λ ip,
    mret (if typ ip =? T_FILE then IFile
          else if typ ip =? T_DIR then IDir
          else if typ ip =? T_DEVICE then IDevice (as_u16 (major ip))
          else IFile, ip)).

Record Stat := mkStat { st_typ : i16; st_ino : u32; st_nlink : i16; st_size : u32 }.

Definition stati (slot : InodeRef) : M fs Stat :=
  with_inode slot (λ ip, mret (mkStat (typ ip) (inum ip) (nlink ip) (size ip), ip)).

Definition u32_try_from (z : usize) : option u32 := if z <=? U32_MAX then Some z else None.

(** The reading side also hands back the filled destination. *)
Definition readi (slot : InodeRef) (off : usize) (dst : list u8) : M fs (isize * list u8) :=
  match u32_try_from off with
  | None => mret (-1, dst)
  | Some off =>
      with_inode slot (λ ip,
        '(n, dst) ← _readi ip off dst;
        mret ((as_isize n, dst), ip))
  end.

Definition writei (slot : InodeRef) (off : usize) (src : list u8) : M fs isize :=
  match u32_try_from off with
  | None => mret (-1)
  | Some off =>
      with_inode slot (λ ip,
        '(n, ip) ← _writei ip off src;
        mret (as_isize n, ip))
  end.

Definition appendi (slot : InodeRef) (src : list u8) : M fs (isize * usize) :=
  with_inode slot (λ ip,
    let off := size ip in
    '(n, ip) ← _writei ip off src;
    let n := as_isize n in
    new_off ← (if 0 <? n then add_at USIZE_MAX off n else mret off);
    mret ((n, new_off), ip)).

Definition trunc (slot : InodeRef) : M fs unit :=
  with_inode slot (λ ip, ip ← itrunc ip; mret (tt, ip)).

(** ** References to cached inodes

    [refs] collects the references held by callers.  Slots in use have different
    inode numbers, so that all users of a file share one slot. *)

Record icache_ok (s : fs) (refs : gmultiset nat) : Prop := {
  ic_len : length (icache s) = Z.to_nat NINODE;
  ic_count i ip : icache s !! i = Some ip → i_refcnt ip = Z.of_nat (multiplicity i refs);
  ic_dom i : i ∈ refs → (i < Z.to_nat NINODE)%nat;
  ic_inj i j ip jp : icache s !! i = Some ip → icache s !! j = Some jp →
    0 < i_refcnt ip → 0 < i_refcnt jp → inum ip = inum jp → i = j;
}.

Definition no_inode_lock (s : fs) : Prop := (ICACHE_LOCK ∉ held s) ∧ (∀ i, LInode i ∉ held s).

Definition put_inode (i : nat) (ip : Inode) (s : fs) : fs := set_icache (<[i := ip]> (icache s)) s.

Lemma wp_islot i ip s Q : icache s !! i = Some ip → Q ip s → wp (islot i) s Q.
Proof. intros ??. unfold islot. wp_steps. by eapply wp_expect. Qed.

Lemma wp_set_islot i ip s Q : Q tt (put_inode i ip s) → wp (set_islot i ip) s Q.
Proof. done. Qed.

Section scan_body.
Context (s : fs) (i : nat) (Hnl : no_inode_lock s).

Local Abbreviation locked := (set_held (ICACHE_LOCK :: held s) s).

Lemma scan_lock : LInode i ∉ held locked.
Proof. rewrite held_set_held, not_elem_of_cons. split; [done|apply Hnl]. Qed.

(** Leaving the loop: both locks are released. *)
Lemma wp_scan_found jp (b : nat) (Q : unit + nat → fs → Prop) :
  Q (inr b) (put_inode i jp s) →
  wp (set_islot i jp;; release (LInode i);; release ICACHE_LOCK;; mret (inr b))
     (set_held (LInode i :: held locked) locked) Q.
Proof.
  intros HQ. wp_step. apply wp_set_islot. wp_step. eapply wp_release; [done|exact scan_lock|].
  wp_step. eapply wp_release; [done|apply Hnl|]. wp_steps. by destruct s.
Qed.
End scan_body.

(** The slot [iget] claims when nobody uses the inode. *)
Definition claimed (i : u32) (ip : Inode) : Inode :=
  mkInode i 1 false (typ ip) (major ip) (minor ip) (nlink ip) (size ip) (addrs ip).

Definition uses (i : u32) (ip : Inode) : bool := (0 <? i_refcnt ip) && (inum ip =? i).

Lemma iget_spec i s :
  no_inode_lock s → length (icache s) = Z.to_nat NINODE →
  (∀ j ip, icache s !! j = Some ip → 0 ≤ i_refcnt ip < USIZE_MAX) →
  wp (iget i) s (λ r s',
    match r with
    | Some k => ∃ ip, icache s !! k = Some ip ∧
        if uses i ip then s' = put_inode k (set_refcnt (i_refcnt ip + 1) ip) s
        else i_refcnt ip = 0 ∧ s' = put_inode k (claimed i ip) s ∧
             (∀ j jp, icache s !! j = Some jp → uses i jp = false)
    | None => s' = s ∧ (∀ j jp, icache s !! j = Some jp → i_refcnt jp ≠ 0 ∧ uses i jp = false)
    end).
Proof.
  intros Hnl Hl Hmax. unfold iget. wp_step. apply wp_acquire; [apply Hnl|]. wp_step.
  apply (wp_scan (icache s) (uses i)); [done| | |].
  - intros k ip Hk Hu. unfold iget_hit. wp_step. apply wp_acquire; [by apply scan_lock|].
    wp_step. eapply wp_islot; [done|]. unfold uses in Hu. rewrite Hu.
    wp_step. eapply wp_release; [done|by apply scan_lock|]. wp_steps. split; [done|]. by destruct s.
  - intros k ip Hk Hu _. unfold iget_hit. wp_step. apply wp_acquire; [by apply scan_lock|].
    wp_step. eapply wp_islot; [done|]. unfold uses in Hu. rewrite Hu.
    wp_step. wp_step; [specialize (Hmax k ip Hk); lia|]. apply wp_scan_found; [done|]. wp_steps.
    exists ip. split; [done|]. unfold uses. by rewrite Hu.
  - intros Hmiss. wp_step. apply (wp_scan (icache s) (λ ip, i_refcnt ip =? 0)); [done| | |].
    + intros k ip Hk Hu. unfold iget_free. wp_step. apply wp_acquire; [by apply scan_lock|].
      wp_step. eapply wp_islot; [done|]. rewrite Hu.
      wp_step. eapply wp_release; [done|by apply scan_lock|]. wp_steps. split; [done|]. by destruct s.
    + intros k ip Hk Hu _. unfold iget_free. wp_step. apply wp_acquire; [by apply scan_lock|].
      wp_step. eapply wp_islot; [done|]. rewrite Hu. apply wp_scan_found; [done|]. wp_steps.
      exists ip. split; [done|]. rewrite (Hmiss k ip Hk). split_and!; [by apply Z.eqb_eq|done|done].
    + intros Hnone. wp_step. eapply wp_release; [done|apply Hnl|]. wp_steps.
      split; [by destruct s|]. intros j jp Hj. split; [apply Z.eqb_neq; by eapply Hnone|by eapply Hmiss].
Qed.

Lemma idup_spec k ip s :
  no_inode_lock s → icache s !! k = Some ip → 1 ≤ i_refcnt ip < USIZE_MAX →
  wp (idup k) s (λ r s', r = k ∧ s' = put_inode k (set_refcnt (i_refcnt ip + 1) ip) s).
Proof.
  intros Hnl Hk Hr. unfold idup. wp_step. apply wp_acquire; [apply Hnl|].
  wp_step. apply wp_guarded; [by apply scan_lock|]. wp_step. eapply wp_islot; [done|].
  rewrite (proj2 (Z.ltb_ge _ _)) by lia. wp_step. wp_step. apply wp_set_islot. split; [done|].
  wp_step. eapply wp_release; [done|apply Hnl|]. wp_steps. split; [done|]. by destruct s.
Qed.

Lemma iput_spec k ip s :
  no_inode_lock s → icache s !! k = Some ip → 1 ≤ i_refcnt ip ≤ USIZE_MAX →
  wp (iput k) s (λ _ s', s' = put_inode k (set_refcnt (i_refcnt ip - 1) ip) s).
Proof.
  intros Hnl Hk Hr. unfold iput. wp_step. apply wp_acquire; [apply Hnl|].
  wp_step. apply wp_guarded; [by apply scan_lock|]. wp_step. eapply wp_islot; [done|].
  rewrite (proj2 (Z.ltb_ge _ _)) by lia. wp_step. wp_step. apply wp_set_islot. split; [done|].
  eapply wp_release; [done|apply Hnl|]. by destruct s.
Qed.

(** Changing one slot, whose number stays different from the other ones in use. *)
Lemma icache_ok_put s refs refs' k ip ip' :
  icache_ok s refs → icache s !! k = Some ip → i_refcnt ip' = Z.of_nat (multiplicity k refs') →
  (∀ j, j ≠ k → multiplicity j refs' = multiplicity j refs) →
  (∀ j jp, j ≠ k → icache s !! j = Some jp → 0 < i_refcnt jp → 0 < i_refcnt ip' → inum jp ≠ inum ip') →
  icache_ok (put_inode k ip' s) refs'.
Proof.
  intros [Hl Hc Hd Hinj] Hk Hn Hother Hfresh. pose proof (lookup_lt_Some _ _ _ Hk) as Hlt.
  assert (∀ j jp, <[k := ip']> (icache s) !! j = Some jp → j = k ∧ jp = ip' ∨ j ≠ k ∧ icache s !! j = Some jp) as Hlk.
  { intros j jp. destruct (decide (j = k)) as [->|Hne].
    - rewrite list_lookup_insert_eq by done. intros [= <-]. by left.
    - rewrite list_lookup_insert_ne by done. by right. }
  constructor; cbn [icache put_inode set_icache].
  - by rewrite length_insert.
  - intros j jp [[-> ->]|[Hne Hj]]%Hlk; [done|]. rewrite Hother by done. by apply Hc.
  - intros j Hj. rewrite elem_of_multiplicity in Hj. destruct (decide (j = k)) as [->|Hne]; [by rewrite <-Hl|].
    rewrite Hother in Hj by done. apply Hd. by apply elem_of_multiplicity.
  - intros i j xp yp [[-> ->]|[Hi Hxi]]%Hlk [[-> ->]|[Hj Hyj]]%Hlk Hx Hy Heq; [done| | |by eapply Hinj].
    + by destruct (Hfresh j yp Hj Hyj Hy Hx).
    + by destruct (Hfresh i xp Hi Hxi Hx Hy).
Qed.

Lemma multiplicity_add i j (refs : gmultiset nat) :
  multiplicity j (refs ⊎ {[+ i +]}) = (multiplicity j refs + if decide (j = i) then 1 else 0)%nat.
Proof. by rewrite multiplicity_disj_union, multiplicity_singleton. Qed.

Lemma multiplicity_remove i j (refs : gmultiset nat) :
  multiplicity j (refs ∖ {[+ i +]}) = (multiplicity j refs - if decide (j = i) then 1 else 0)%nat.
Proof. by rewrite multiplicity_difference, multiplicity_singleton. Qed.

Inductive inode_op := IGet (i : u32) | IDup (k : nat) | IPut (k : nat).

Definition inode_exec (op : inode_op) : M fs (option nat) :=
  match op with
  | IGet i => iget i
  | IDup k => k ← idup k; mret (Some k)
  | IPut k => iput k;; mret None
  end.

Definition holds (s : fs) (k : nat) (i : u32) : Prop := ∃ ip, icache s !! k = Some ip ∧ inum ip = i.

(** The cache as a multiset of references: what an operation returns and does. *)
Definition inode_spec (s : fs) (refs : gmultiset nat) (op : inode_op) (r : option nat) (refs' : gmultiset nat) : Prop :=
  match op, r with
  | IGet i, Some k => refs' = refs ⊎ {[+ k +]} ∧
      (∀ j, j ∈ refs → holds s j i → j = k) ∧ (k ∈ refs → holds s k i)
  | IGet i, None => refs' = refs ∧ (∀ k, (k < Z.to_nat NINODE)%nat → k ∈ refs ∧ ¬ holds s k i)
  | IDup k, r => r = Some k ∧ refs' = refs ⊎ {[+ k +]}
  | IPut k, _ => refs' = refs ∖ {[+ k +]}
  end.

Definition inode_op_ok (op : inode_op) (refs : gmultiset nat) : Prop :=
  match op with IGet _ => True | IDup k | IPut k => k ∈ refs end.

(** Slots other than the one operated on keep their value; that one changes its
    count, and its identity only when it was not referenced. *)
Definition slots_kept (s : fs) (refs : gmultiset nat) (s' : fs) : Prop :=
  disk s' = disk s ∧ bcache s' = bcache s ∧ held s' = held s ∧
  ∀ k ip, k ∈ refs → icache s !! k = Some ip → ∃ n, icache s' !! k = Some (set_refcnt n ip).

Lemma set_refcnt_same ip : set_refcnt (i_refcnt ip) ip = ip.
Proof. by destruct ip. Qed.

Lemma put_kept s refs k ip n :
  icache s !! k = Some ip → slots_kept s refs (put_inode k (set_refcnt n ip) s).
Proof.
  intros Hk. split_and!; [done..|]. intros j jp _ Hj. destruct (decide (j = k)) as [->|Hne].
  - simplify_eq. exists n. apply list_lookup_insert_eq. by eapply lookup_lt_Some.
  - exists (i_refcnt jp). rewrite set_refcnt_same. cbn. by rewrite list_lookup_insert_ne.
Qed.

(** Taking one more reference to a slot in use. *)
Lemma more_ref s refs k ip :
  icache_ok s refs → icache s !! k = Some ip → 0 < i_refcnt ip →
  icache_ok (put_inode k (set_refcnt (i_refcnt ip + 1) ip) s) (refs ⊎ {[+ k +]}).
Proof.
  intros Hok Hk Hpos. pose proof (ic_count _ _ Hok k ip Hk) as Hc. eapply icache_ok_put; [done|done| | |].
  - cbn. rewrite multiplicity_add, decide_True by done. lia.
  - intros j Hj. rewrite multiplicity_add, decide_False by done. lia.
  - intros j jp Hj Hjp Hpj _ Heq. apply Hj. by eapply (ic_inj _ _ Hok).
Qed.

Lemma one_less_ref s refs k ip :
  icache_ok s refs → icache s !! k = Some ip → k ∈ refs →
  icache_ok (put_inode k (set_refcnt (i_refcnt ip - 1) ip) s) (refs ∖ {[+ k +]}).
Proof.
  intros Hok Hk Hin. pose proof (ic_count _ _ Hok k ip Hk) as Hc. rewrite elem_of_multiplicity in Hin.
  eapply icache_ok_put; [done|done| | |].
  - cbn. rewrite multiplicity_remove, decide_True by done. lia.
  - intros j Hj. rewrite multiplicity_remove, decide_False by done. lia.
  - intros j jp Hj Hjp Hpj Hpk Heq. apply Hj. cbn in Hpk. eapply (ic_inj _ _ Hok); [done|done|done|lia|done].
Qed.

Lemma claim_ref s refs k ip i :
  icache_ok s refs → icache s !! k = Some ip → i_refcnt ip = 0 →
  (∀ j jp, icache s !! j = Some jp → uses i jp = false) →
  icache_ok (put_inode k (claimed i ip) s) (refs ⊎ {[+ k +]}).
Proof.
  intros Hok Hk H0 Hmiss. pose proof (ic_count _ _ Hok k ip Hk) as Hc. eapply icache_ok_put; [done|done| | |].
  - cbn. rewrite multiplicity_add, decide_True by done. lia.
  - intros j Hj. rewrite multiplicity_add, decide_False by done. lia.
  - intros j jp Hj Hjp Hpj _ Heq. specialize (Hmiss j jp Hjp). unfold uses in Hmiss. cbn in Heq.
    rewrite Heq, Z.eqb_refl, (proj2 (Z.ltb_lt _ _) Hpj) in Hmiss. done.
Qed.

Lemma holds_uses s refs k i :
  icache_ok s refs → k ∈ refs → holds s k i → ∃ ip, icache s !! k = Some ip ∧ uses i ip = true.
Proof.
  intros Hok Hin (ip & Hk & Hi). exists ip. split; [done|]. pose proof (ic_count _ _ Hok k ip Hk) as Hc.
  rewrite elem_of_multiplicity in Hin. unfold uses. rewrite Hi, Z.eqb_refl, (proj2 (Z.ltb_lt _ _)) by lia. done.
Qed.

(** C13: the inode cache implements a multiset of references: [iget] returns the
    slot every holder of the inode shares (or a slot nobody refers to), fails only
    when all fifty slots are referenced by other inodes, [idup] and [iput] add and
    remove one reference, the counts always agree with the references, no
    operation faults, and a slot keeps its inode and its contents while it is
    referenced. *)
Theorem inode_refs_refine s refs op :
  icache_ok s refs → no_inode_lock s → (∀ k, Z.of_nat (multiplicity k refs) < USIZE_MAX) →
  inode_op_ok op refs →
  wp (inode_exec op) s (λ r s', ∃ refs',
    inode_spec s refs op r refs' ∧ icache_ok s' refs' ∧ slots_kept s refs s' ∧
    (∀ i k, op = IGet i → r = Some k → holds s' k i)).
Proof.
  intros Hok Hnl Hmax Hop.
  assert (∀ j ip, icache s !! j = Some ip → 0 ≤ i_refcnt ip < USIZE_MAX) as Hcnt.
  { intros j ip Hj. rewrite (ic_count _ _ Hok j ip Hj). specialize (Hmax j). lia. }
  destruct op as [i|k|k]; cbn [inode_exec inode_op_ok] in *.
  - wp_call iget_spec; [done|apply Hok|done|]. intros [k|] s'.
    + intros (ip & Hk & Hr). pose proof (lookup_lt_Some _ _ _ Hk) as Hlt.
      exists (refs ⊎ {[+ k +]}). unfold inode_spec. destruct (uses i ip) eqn:Hu.
      * subst s'. unfold uses in Hu. apply andb_true_iff in Hu as [Hpos%Z.ltb_lt Hi%Z.eqb_eq].
        split_and!; [done| | |by apply more_ref|by eapply put_kept|].
        -- intros j Hj (jp & Hjp & Hji). eapply (ic_inj _ _ Hok); [done|done| |done|by subst].
           rewrite (ic_count _ _ Hok j jp Hjp). rewrite elem_of_multiplicity in Hj. lia.
        -- intros _. by exists ip.
        -- intros i' k' [= <-] [= <-]. exists (set_refcnt (i_refcnt ip + 1) ip). split; [|done].
           by apply list_lookup_insert_eq.
      * destruct Hr as (H0 & -> & Hmiss).
        assert (k ∉ refs) as Hnk by (apply not_elem_of_multiplicity; rewrite (ic_count _ _ Hok k ip Hk) in H0; lia).
        split_and!; [done| |by intros []%Hnk|by apply claim_ref| |].
        -- intros j Hj Hh. destruct (holds_uses s refs j i Hok Hj Hh) as (jp & Hjp & Hju).
           by rewrite (Hmiss j jp Hjp) in Hju.
        -- split_and!; [done..|]. intros j jp Hj Hjp. exists (i_refcnt jp). rewrite set_refcnt_same. cbn.
           rewrite list_lookup_insert_ne; [done|]. intros ->. done.
        -- intros i' k' [= <-] [= <-]. exists (claimed i ip). split; [|done]. by apply list_lookup_insert_eq.
    + intros [-> Hall]. exists refs. unfold inode_spec. split_and!; [done| |done| |done].
      * intros k Hlt. destruct (lookup_lt_is_Some_2 (icache s) k) as [ip Hk]; [by rewrite (ic_len _ _ Hok)|].
        destruct (Hall k ip Hk) as [Hne Hu].
        assert (k ∈ refs) as Hin by (apply elem_of_multiplicity; rewrite (ic_count _ _ Hok k ip Hk) in Hne; lia).
        split; [done|]. intros Hh. destruct (holds_uses s refs k i Hok Hin Hh) as (ip' & Hk' & Hu'). congruence.
      * split_and!; [done..|]. intros k ip _ Hk. exists (i_refcnt ip). by rewrite set_refcnt_same.
  - destruct (lookup_lt_is_Some_2 (icache s) k) as [ip Hk]; [rewrite (ic_len _ _ Hok); by apply Hok|].
    pose proof (ic_count _ _ Hok k ip Hk) as Hc. pose proof Hop as Hin. rewrite elem_of_multiplicity in Hin.
    specialize (Hcnt k ip Hk). wp_call idup_spec; [done|done|lia|]. intros r s' [-> ->]. wp_steps.
    exists (refs ⊎ {[+ k +]}). unfold inode_spec. split_and!; [done|done|apply more_ref; [done|done|lia]|by eapply put_kept|done].
  - destruct (lookup_lt_is_Some_2 (icache s) k) as [ip Hk]; [rewrite (ic_len _ _ Hok); by apply Hok|].
    pose proof (ic_count _ _ Hok k ip Hk) as Hc. pose proof Hop as Hin. rewrite elem_of_multiplicity in Hin.
    specialize (Hcnt k ip Hk). wp_call iput_spec; [done|done|lia|]. intros [] s' ->. wp_steps.
    exists (refs ∖ {[+ k +]}). split_and!; [done|by apply one_less_ref|by eapply put_kept|done].
Qed.

Lemma boot_icache_ok : icache_ok boot_fs ∅.
Proof.
  assert (∀ i ip, icache boot_fs !! i = Some ip → ip = Inode_empty) as Hempty.
  { intros i ip Hi. by apply (lookup_replicate_1 (Z.to_nat NINODE) Inode_empty ip i) in Hi as [-> _]. }
  constructor.
  - done.
  - intros i ip ->%Hempty. by rewrite multiplicity_empty.
  - intros i []%gmultiset_elem_of_empty.
  - by intros i j ip jp ->%Hempty ->%Hempty.
Qed.

Lemma inode_refs_refine_witness :
  wp (inode_exec (IGet ROOTINO)) boot_fs (λ r s', ∃ refs',
    inode_spec boot_fs ∅ (IGet ROOTINO) r refs' ∧ icache_ok s' refs' ∧ slots_kept boot_fs ∅ s' ∧
    (∀ i k, IGet ROOTINO = IGet i → r = Some k → holds s' k i)).
Proof.
  apply (inode_refs_refine boot_fs ∅ (IGet ROOTINO)); [exact boot_icache_ok| |intros k; by rewrite multiplicity_empty|done].
  split; [apply not_elem_of_nil|]. intros i. apply not_elem_of_nil.
Defined.
