(* ===== verification/Path.v ===== *)
(** * Path resolution and creation by path (src/src/fs.rs, lines 961-1110)

    [skipelem], [namei], [nameiparent], [create] and [mkdir]. *)

From S2P Require Import Prelude Spinlock FsBase Bcache Balloc Bmap Inode Dir Icache.

(** ** Operations *)

Definition SLASH : u8 := 47.

(** [while matches!(path.first(), Some(b'/')) { path = &path[1..]; }] *)
Fixpoint skip_slashes (path : list u8) : list u8 :=
  match path with
  | [] => []
  | c :: rest => if c =? SLASH then skip_slashes rest else path
  end.

(** Split at the first ['/'] ([position] and the two slices). *)
Fixpoint split_elem (path : list u8) : list u8 * list u8 :=
  match path with
  | [] => ([], [])
  | c :: rest =>
      if c =? SLASH then ([], path)
      else let '(name, next) := split_elem rest in (c :: name, next)
  end.

Definition skipelem (path : list u8) : option (list u8 * list u8) :=
  match skip_slashes path with
  | [] => None
  | path' => Some (split_elem path')
  end.

(** Where resolution starts: the root for an absolute path, else [cwd]. *)
Definition namei_start (cwd : InodeRef) (path : list u8) : M fs (option InodeRef) :=
  match path with
  | [] => mret None
  | c :: _ =>
      if c =? SLASH then iget ROOTINO
      else ip ← idup cwd; mret (Some ip)
  end.

(** One step down: look [name] up in the directory [ip_ref] and exchange the
    reference for one to the child; on failure the reference is given back. *)
Definition namei_step (ip_ref : InodeRef) (name : list u8) : M fs (option InodeRef) :=
  r ← with_inode ip_ref (λ ip,
    if negb (typ ip =? T_DIR) then mret (None, ip)
    else r ← dirlookup ip name; mret (r, ip));
  match r with
  | None => iput ip_ref;; mret None
  | Some i =>
      r ← iget i;
      match r with
      | None => iput ip_ref;; mret None
      | Some next_ref => iput ip_ref;; mret (Some next_ref)
      end
  end.

(** Every iteration consumes at least one byte of the path. *)
Definition path_fuel (path : list u8) : nat := S (length path).

(** One iteration of the loop of [namei] over [(ip_ref, rest)]. *)
Definition namei_body (a : InodeRef * list u8) : M fs (InodeRef * list u8 + option InodeRef) :=
  let '(ip_ref, rest) := a in
  match skipelem rest with
  | None => mret (inr (Some ip_ref))
  | Some (name, next) =>
      r ← namei_step ip_ref name;
      match r with
      | None => mret (inr None)
      | Some next_ref => mret (inl (next_ref, next))
      end
  end.

Definition namei (cwd : InodeRef) (path : list u8) : M fs (option InodeRef) :=
  r ← namei_start cwd path;
  match r with
  | None => mret None
  | Some start => while_fuel (path_fuel path) namei_body (start, path)
  end.

Definition nameiparent_body (a : InodeRef * list u8) :
  M fs (InodeRef * list u8 + option (InodeRef * list u8)) :=
  let '(ip_ref, rest) := a in
  match skipelem rest with
  | None => iput ip_ref;; mret (inr None)
  | Some (name, next) =>
      match skipelem next with
      | None => mret (inr (Some (ip_ref, name)))
      | Some _ =>
          r ← namei_step ip_ref name;
          match r with
          | None => mret (inr None)
          | Some next_ref => mret (inl (next_ref, next))
          end
      end
  end.

Definition nameiparent (cwd : InodeRef) (path : list u8) : M fs (option (InodeRef * list u8)) :=
  r ← namei_start cwd path;
  match r with
  | None => mret None
  | Some start => while_fuel (path_fuel path) nameiparent_body (start, path)
  end.

Definition dir_entry (slot : InodeRef) (name : list u8) : M fs (option u32) :=
  with_inode slot (λ dp, r ← dirlookup dp name; mret (r, dp)).

Definition create (cwd : InodeRef) (path : list u8) : M fs (option InodeRef) :=
  r ← nameiparent cwd path;
  match r with
  | None => mret None
  | Some (parent_ref, name) =>
      existing ← dir_entry parent_ref name;
      match existing with
      | Some i =>
          iput parent_ref;;
          r ← iget i;
          match r with
          | None => mret None
          | Some ip_ref =>
              t ← inode_type ip_ref;
              match t with
              | IFile => mret (Some ip_ref)
              | _ => iput ip_ref;; mret None
              end
          end
      | None =>
          ip_ref ← create_empty_file parent_ref name;
          iput parent_ref;;
          mret ip_ref
      end
  end.

Definition mkdir (cwd : InodeRef) (path : list u8) : M fs (option InodeRef) :=
  r ← nameiparent cwd path;
  match r with
  | None => mret None
  | Some (parent_ref, name) =>
      existing ← dir_entry parent_ref name;
      match existing with
      | Some _ => iput parent_ref;; mret None
      | None =>
          ip_ref ← mkdir_child parent_ref name;
          iput parent_ref;;
          mret ip_ref
      end
  end.

(** ** Components of a path *)

(** The names [skipelem] produces when it is iterated. *)
Fixpoint elems_fuel (fuel : nat) (path : list u8) : list (list u8) :=
  match fuel with
  | O => []
  | S fuel =>
      match skipelem path with
      | None => []
      | Some (name, next) => name :: elems_fuel fuel next
      end
  end.

Definition elems (path : list u8) : list (list u8) := elems_fuel (path_fuel path) path.

(** The maximal slash-free pieces of a path; [cur] is the piece being read. *)
Fixpoint pieces (cur path : list u8) : list (list u8) :=
  match path with
  | [] => match cur with [] => [] | _ => [cur] end
  | c :: path =>
      if c =? SLASH then match cur with [] => pieces [] path | _ => cur :: pieces [] path end
      else pieces (cur ++ [c]) path
  end.

Definition slash_free (name : list u8) : Prop := Forall (λ c, c ≠ SLASH) name.

Lemma pieces_slash_free cur name rest :
  slash_free name → cur ++ name ≠ [] →
  pieces cur (name ++ SLASH :: rest) = (cur ++ name) :: pieces [] rest ∧ pieces cur name = [cur ++ name].
Proof.
  intros Hn. revert cur. induction Hn as [|c name Hc Hn IH]; intros cur Hne; cbn [app pieces].
  - rewrite app_nil_r in *. change (SLASH =? SLASH) with true. by destruct cur.
  - rewrite (proj2 (Z.eqb_neq _ _) Hc). replace (cur ++ c :: name) with ((cur ++ [c]) ++ name) by (by rewrite <-app_assoc).
    apply IH. by destruct cur.
Qed.

Lemma skip_slashes_pieces path : pieces [] (skip_slashes path) = pieces [] path.
Proof.
  induction path as [|c path IH]; cbn [skip_slashes]; [done|].
  destruct (c =? SLASH) eqn:E; [|done]. cbn [pieces]. by rewrite E.
Qed.

Lemma skip_slashes_length path : (length (skip_slashes path) ≤ length path)%nat.
Proof. induction path as [|c path IH]; cbn; [done|]. destruct (c =? SLASH); cbn; lia. Qed.

Lemma skip_slashes_head path c rest : skip_slashes path = c :: rest → c ≠ SLASH.
Proof.
  induction path as [|d path IH]; cbn; [done|]. destruct (Z.eqb_spec d SLASH); [done|]. by intros [= <- _].
Qed.

Lemma split_elem_spec path :
  let '(name, next) := split_elem path in
  path = name ++ next ∧ slash_free name ∧ (next = [] ∨ ∃ rest, next = SLASH :: rest).
Proof.
  induction path as [|c path IH]; cbn [split_elem]; [split_and!; [done|constructor|by left]|].
  destruct (Z.eqb_spec c SLASH) as [->|Hc].
  - split_and!; [done|constructor|right; eauto].
  - destruct (split_elem path) as [name next]. destruct IH as (-> & Hn & Hx).
    split_and!; [done|by constructor|done].
Qed.

(** One [skipelem]: the next piece, and a strictly shorter rest. *)
Lemma skipelem_spec path :
  match skipelem path with
  | None => pieces [] path = []
  | Some (name, next) => pieces [] path = name :: pieces [] next ∧ slash_free name ∧ name ≠ [] ∧
      (length next < length path)%nat
  end.
Proof.
  unfold skipelem. rewrite <-(skip_slashes_pieces path). pose proof (skip_slashes_length path) as Hl.
  destruct (skip_slashes path) as [|c rest] eqn:Hs; [done|].
  pose proof (split_elem_spec (c :: rest)) as Hsplit. pose proof (skip_slashes_head _ _ _ Hs) as Hc.
  destruct (split_elem (c :: rest)) as [name next]. destruct Hsplit as (Heq & Hn & Hx).
  assert (name ≠ []) as Hne.
  { intros ->. cbn in Heq. destruct Hx as [->|[r ->]]; [done|]. by injection Heq as ->. }
  assert (length (c :: rest) = length name + length next)%nat as Hlen by (by rewrite Heq, length_app).
  destruct name as [|x name]; [done|]. split_and!; [|done|done|cbn [length] in *; lia].
  rewrite Heq. destruct Hx as [->|[r ->]].
  - rewrite app_nil_r. by apply (pieces_slash_free [] (x :: name) []).
  - cbn [pieces]. change (SLASH =? SLASH) with true. by apply (pieces_slash_free [] (x :: name) r).
Qed.

Lemma elems_fuel_pieces fuel path : (length path < fuel)%nat → elems_fuel fuel path = pieces [] path.
Proof.
  revert path. induction fuel as [|fuel IH]; intros path Hf; [lia|]. cbn.
  pose proof (skipelem_spec path) as Hs. destruct (skipelem path) as [[name next]|]; [|done].
  destruct Hs as (-> & _ & _ & Hl). by rewrite IH by lia.
Qed.

Lemma elems_pieces path : elems path = pieces [] path.
Proof. apply elems_fuel_pieces. unfold path_fuel. lia. Qed.

Lemma pieces_app cur p q : pieces cur (p ++ SLASH :: q) = pieces cur p ++ pieces [] q.
Proof.
  revert cur. induction p as [|c p IH]; intros cur; cbn [app pieces].
  - change (SLASH =? SLASH) with true. by destruct cur.
  - destruct (c =? SLASH); [|by rewrite IH]. destruct cur; by rewrite IH.
Qed.

Fixpoint join (names : list (list u8)) : list u8 :=
  match names with
  | [] => []
  | n :: names => SLASH :: n ++ join names
  end.

Lemma pieces_join names : Forall (λ n, slash_free n ∧ n ≠ []) names → pieces [] (join names) = names.
Proof.
  induction 1 as [|n names [Hf Hne] Hns IH]; [done|]. cbn [join pieces]. change (SLASH =? SLASH) with true. cbn match.
  destruct names as [|n' names]; cbn [join] in *.
  - rewrite app_nil_r. by apply (pieces_slash_free [] n []).
  - rewrite pieces_app, (proj2 (pieces_slash_free [] n [] Hf Hne)). cbn [app]. f_equal.
    exact IH.
Qed.

Lemma pieces_valid cur path : slash_free cur → Forall (λ n, slash_free n ∧ n ≠ []) (pieces cur path).
Proof.
  revert cur. induction path as [|c path IH]; intros cur Hcur; cbn [pieces].
  - destruct cur; repeat constructor; [by apply Forall_cons in Hcur as [? _]| |done]. by apply Forall_cons in Hcur as [_ ?].
  - destruct (Z.eqb_spec c SLASH).
    + destruct cur; [by apply IH; constructor|]. constructor; [done|]. apply IH. constructor.
    + apply IH. apply Forall_app. split; [done|by repeat constructor].
Qed.

(** A path is its components: iterating [skipelem] yields exactly the
    non-empty slash-free pieces of the path, however many slashes separate them;
    components concatenate, and every list of valid names is recovered from the
    path that joins them. *)
Theorem path_components path :
  elems path = pieces [] path ∧ Forall (λ n, slash_free n ∧ n ≠ []) (elems path) ∧
  (∀ q, elems (path ++ SLASH :: q) = elems path ++ elems q) ∧
  (∀ names, Forall (λ n, slash_free n ∧ n ≠ []) names → elems (join names) = names).
Proof.
  split_and!; [apply elems_pieces|rewrite elems_pieces; apply pieces_valid; constructor| |].
  - intros q. rewrite !elems_pieces. apply pieces_app.
  - intros names Hn. rewrite elems_pieces. by apply pieces_join.
Qed.

(** ** Resolution, component by component *)

Fixpoint walk_names (names : list (list u8)) (ip_ref : InodeRef) : M fs (option InodeRef) :=
  match names with
  | [] => mret (Some ip_ref)
  | name :: names =>
      r ← namei_step ip_ref name;
      match r with
      | None => mret None
      | Some next_ref => walk_names names next_ref
      end
  end.

(** Resolve all components but the last, which is returned. *)
Fixpoint walk_parent (names : list (list u8)) (ip_ref : InodeRef) : M fs (option (InodeRef * list u8)) :=
  match names with
  | [] => iput ip_ref;; mret None
  | [name] => mret (Some (ip_ref, name))
  | name :: names =>
      r ← namei_step ip_ref name;
      match r with
      | None => mret None
      | Some next_ref => walk_parent names next_ref
      end
  end.

Lemma bind_ext {St A B} (m : M St A) (f g : A → M St B) s : (∀ a s', f a s' = g a s') → (m ≫= f) s = (m ≫= g) s.
Proof. intros Hfg. unfold mbind, M_bind. by destruct (m s) as [[a s']|]. Qed.

Lemma bind_assoc {St A B C} (m : M St A) (f : A → M St B) (g : B → M St C) s :
  ((m ≫= f) ≫= g) s = (m ≫= λ a, f a ≫= g) s.
Proof. unfold mbind, M_bind. by destruct (m s) as [[a s']|]. Qed.

Lemma namei_loop fuel ip rest s :
  (length rest < fuel)%nat → while_fuel fuel namei_body (ip, rest) s = walk_names (pieces [] rest) ip s.
Proof.
  revert ip rest s. induction fuel as [|fuel IH]; intros ip rest s Hf; [lia|]. cbn [while_fuel namei_body].
  pose proof (skipelem_spec rest) as Hs. destruct (skipelem rest) as [[name next]|].
  - destruct Hs as (-> & _ & _ & Hl). cbn [walk_names]. rewrite bind_assoc. apply bind_ext.
    intros [next_ref|] s'; [|done]. apply IH. lia.
  - by rewrite Hs.
Qed.

Lemma walk_parent_cons n n' ns ip :
  walk_parent (n :: n' :: ns) ip =
    (r ← namei_step ip n; match r with None => mret None | Some next_ref => walk_parent (n' :: ns) next_ref end).
Proof. done. Qed.

Lemma nameiparent_loop fuel ip rest s :
  (length rest < fuel)%nat → while_fuel fuel nameiparent_body (ip, rest) s = walk_parent (pieces [] rest) ip s.
Proof.
  revert ip rest s. induction fuel as [|fuel IH]; intros ip rest s Hf; [lia|]. cbn [while_fuel nameiparent_body].
  pose proof (skipelem_spec rest) as Hs. destruct (skipelem rest) as [[name next]|].
  - destruct Hs as (-> & _ & _ & Hl). pose proof (skipelem_spec next) as Hs'.
    destruct (skipelem next) as [[name' next']|].
    + destruct Hs' as (Hp & _). rewrite Hp, walk_parent_cons, <-Hp, bind_assoc. apply bind_ext.
      intros [next_ref|] s'; [|done]. rewrite <-(IH next_ref next) by lia. done.
    + by rewrite Hs'.
  - rewrite Hs. cbn [walk_parent]. rewrite bind_assoc. by apply bind_ext.
Qed.

Lemma path_components_witness :
  elems (bytes_of_string "//bin/sh/") = [bytes_of_string "bin"; bytes_of_string "sh"] ∧
  elems (join [bytes_of_string "bin"; bytes_of_string "sh"]) = [bytes_of_string "bin"; bytes_of_string "sh"].
Proof.
  destruct (path_components (bytes_of_string "//bin/sh/")) as (H1 & _ & _ & H4).
  split; [rewrite H1; by vm_compute|]. apply H4. by repeat constructor.
Defined.

(** ** Runs of the file system *)

Definition run_fs {A} (m : InodeRef → M fs A) : option A :=
  match (fs_reset;; populate [("sh", [1; 2; 3])] [65; 66];; r ← root; m r) boot_fs with
  | Ok (a, _) => Some a
  | Fault _ => None
  end.

(** Make a directory, create a file in it, write it, and read it back by path. *)
Example create_write_read :
  run_fs (λ cwd,
    _ ← mkdir cwd (bytes_of_string "/a");
    f ← create cwd (bytes_of_string "a//f");
    f ← expect f "create";
    n ← writei f 0 (bytes_of_string "hello");
    g ← namei cwd (bytes_of_string "/a/../a/./f");
    g ← expect g "namei";
    '(k, d) ← readi g 1 (replicate 8 0);
    mret (bool_decide (f = g), n, k, d)) = Some (true, 5, 4, bytes_of_string "ello" ++ [0; 0; 0; 0]).
Proof. by vm_compute. Qed.

(** Inodes in use on disk. *)
Definition inodes_in_use : M fs Z :=
  for_fold (range 1 NINODES) (λ i n, d ← read_dinode i; mret (if d_typ d =? 0 then n else n + 1)) 0.

(** Creating a file below something that is not a directory fails, but the inode
    that was allocated for it stays in use, although no directory names it. *)
Example create_below_file_leaks :
  run_fs (λ cwd,
    n ← inodes_in_use;
    r ← create cwd (bytes_of_string "README.md/x");
    n' ← inodes_in_use;
    mret (r, n, n')) = Some (None, 4, 5).
Proof. by vm_compute. Qed.
