(* ===== verification/Namei.v ===== *)
(** * What a path names (src/src/fs.rs, lines 960-1075)

    The directories on the disk as a graph of names: [resolve] follows a list of
    names from an inode.  [namei] and [nameiparent] implement it over the inode
    cache, and their references balance. *)

From stdpp Require Import gmultiset.
From S2P Require Import Prelude Spinlock FsBase Bcache Balloc Bmap Inode Dir Icache Path.

(** ** The directory graph of a disk *)

(** Inode [i] as the disk has it. *)
Definition inode_at (D : list (list u8)) (i : Z) : Inode := load_inode (dinode D i) (mkInode i 0 false 0 0 0 0 0 zero_addrs).

Definition dir_at (D : list (list u8)) (i : Z) : option (list Dirent) :=
  if d_typ (dinode D i) =? T_DIR then Some (entries D (inode_at D i)) else None.

Definition child (D : list (list u8)) (name : list u8) (i : Z) : option Z := es ← dir_at D i; dir_find name es.

Fixpoint resolve (D : list (list u8)) (path : list (list u8)) (i : Z) : option Z :=
  match path with
  | [] => Some i
  | name :: path => j ← child D name i; resolve D path j
  end.

(** Every directory is a readable file of entries, and its entries are inodes. *)
Definition tree_ok (D : list (list u8)) : Prop := ∀ i es, is_inum i → dir_at D i = Some es →
  dir_ok D (inode_at D i) ∧ Forall (λ de, de_inum de = 0 ∨ is_inum (de_inum de)) es.

(** A slot in use has the inode it stands for, if it has been read. *)
Definition agrees (D : list (list u8)) (ip : Inode) : Prop :=
  is_inum (inum ip) ∧ (i_valid ip = true → dinode_of ip = dinode D (inum ip)).

Record at_rest (s : fs) (refs : gmultiset nat) : Prop := {
  ar_ready : ready 1 s;
  ar_refs : icache_ok s refs;
  ar_locks : no_inode_lock s;
  ar_agree k ip : icache s !! k = Some ip → k ∈ refs → agrees (disk s) ip;
  ar_tree : tree_ok (disk s);
}.

(** The disk, the locks, the pinned blocks and the slots of [refs] are as before. *)
Record kept (s : fs) (refs : gmultiset nat) (s' : fs) : Prop := {
  kp_disk : disk s' = disk s;
  kp_held : held s' = held s;
  kp_pins : pins (bcache s') = pins (bcache s);
  kp_slots k i : k ∈ refs → holds s k i → holds s' k i;
}.

(** Every slot is referenced. *)
Definition no_slot (refs : gmultiset nat) : Prop := ∀ k, (k < Z.to_nat NINODE)%nat → k ∈ refs.

Lemma kept_trans s refs refs' s1 s2 : kept s refs s1 → kept s1 refs' s2 → (∀ k, k ∈ refs → k ∈ refs') → kept s refs s2.
Proof. intros [A1 A2 A3 A4] [B1 B2 B3 B4] Hsub. split; try congruence. intros k i Hk Hh. eauto. Qed.

Lemma kept_weaken s refs refs' s' : kept s refs s' → (∀ k, k ∈ refs' → k ∈ refs) → kept s refs' s'.
Proof. intros [A1 A2 A3 A4] Hsub. split; try done. intros k i Hk. apply A4. by apply Hsub. Qed.

Lemma icache_ok_ext s s' refs : icache s' = icache s → icache_ok s refs → icache_ok s' refs.
Proof. intros He [H1 H2 H3 H4]. rewrite <-He in *. by split. Qed.

(** Changing one slot of the cache. *)
Lemma rest_put s s' refs refs' k ip' :
  at_rest s refs → ready 1 s' → disk s' = disk s → held s' = held s → icache s' = <[k := ip']> (icache s) →
  icache_ok (put_inode k ip' s) refs' → (∀ j, j ∈ refs' → j = k ∨ j ∈ refs) → agrees (disk s) ip' → at_rest s' refs'.
Proof.
  intros [A1 A2 A3 A4 A5] Hr Hd Hh Hi Hok Hsub Hag. split; [done|by eapply icache_ok_ext; [|exact Hok]|split; rewrite Hh; apply A3| |by rewrite Hd].
  intros j jp. rewrite Hi, Hd. destruct (decide (j = k)) as [->|Hne].
  - intros Hj _. pose proof (lookup_lt_Some _ _ _ Hj) as Hlt. rewrite length_insert in Hlt. rewrite list_lookup_insert_eq in Hj by done. by injection Hj as <-.
  - rewrite list_lookup_insert_ne by done. intros Hj Hin. destruct (Hsub j Hin) as [|Hin']; [done|]. by eapply A4.
Qed.

Lemma kept_put s s' refs k ip ip' :
  icache s !! k = Some ip → disk s' = disk s → held s' = held s → pins (bcache s') = pins (bcache s) →
  icache s' = <[k := ip']> (icache s) → (k ∈ refs → inum ip' = inum ip) → kept s refs s'.
Proof.
  intros Hk Hd Hh Hp Hi Hn. split; [done..|]. intros j i Hj (jp & Hjp & Hji). unfold holds. rewrite Hi. destruct (decide (j = k)) as [->|Hne].
  - simplify_eq. exists ip'. split; [|by apply Hn]. apply list_lookup_insert_eq. by eapply lookup_lt_Some.
  - exists jp. by rewrite list_lookup_insert_ne.
Qed.

Lemma rest_slot s refs k i :
  at_rest s refs → k ∈ refs → holds s k i →
  ∃ ip, icache s !! k = Some ip ∧ inum ip = i ∧ agrees (disk s) ip ∧ i_refcnt ip = Z.of_nat (multiplicity k refs) ∧ 0 < i_refcnt ip.
Proof.
  intros Har Hk (ip & Hip & Hi). exists ip. pose proof (ic_count _ _ (ar_refs _ _ Har) k ip Hip) as Hc.
  split_and!; [done|done|by eapply (ar_agree _ _ Har)|done|]. rewrite elem_of_multiplicity in Hk. lia.
Qed.

(** ** Looking up one name *)

Lemma dir_ok_same D ip ip' : dinode_of ip = dinode_of ip' → dir_ok D ip → dir_ok D ip' ∧ entries D ip = entries D ip'.
Proof.
  destruct ip, ip'. intros [= -> -> -> -> -> ->] [[F1 F2 F3] Ht Hs]. split; [|done]. by split; [split|..].
Qed.

Lemma dinode_inode_at D i : dinode_of (inode_at D i) = dinode D i.
Proof. unfold inode_at. generalize (dinode D i). by intros []. Qed.

Lemma ready_locked k s l : ready k s → l ≠ BCACHE_LOCK → (∀ i, l ≠ LBuffer i) → ready k (set_held (l :: held s) s).
Proof. intros [A B [C1 C2]] H1 H2. split; [done|done|]. split; [|intros i]; apply not_elem_of_cons; split; eauto. Qed.

Lemma load_at s refs k i :
  at_rest s refs → k ∈ refs → holds s k i →
  wp (ilock k) s (λ ip s1, dinode_of ip = dinode (disk s) i ∧ inum ip = i ∧ i_valid ip = true ∧ i_refcnt ip = Z.of_nat (multiplicity k refs) ∧
    ext (set_held (LInode k :: held s) (put_inode k ip s)) (disk s) s1).
Proof.
  intros Har Hk Hh. destruct (rest_slot _ _ _ _ Har Hk Hh) as (ip & Hip & Hi & [Hin Hv] & Hc & _).
  unfold ilock. wp_step. apply wp_acquire; [apply Har|]. wp_step. eapply wp_islot; [exact Hip|].
  assert (ready 1 (set_held (LInode k :: held s) s)) as Hr by (by apply ready_locked; [apply Har|..]).
  destruct (i_valid ip) eqn:Hval.
  - wp_steps. split_and!; [by rewrite Hv, Hi|done|done|done|]. split; [done|apply Hr|done| |done]. cbn. by rewrite list_insert_id.
  - wp_call (read_dinode_spec 0); [done|done|]. intros d s1 [-> [E1 E2 E3 E4 E5]]. wp_step. apply wp_set_islot. wp_steps. cbn in *.
    split_and!; [rewrite Hi; generalize (dinode (disk s) i); by intros []|done|done|done|].
    split; cbn; try done. by rewrite E4.
Qed.

Lemma lookup_at s refs k i name :
  at_rest s refs → k ∈ refs → holds s k i →
  wp (with_inode k (λ ip, if negb (typ ip =? T_DIR) then mret (None, ip) else r ← dirlookup ip name; mret (r, ip))) s
    (λ r s', r = child (disk s) name i ∧ at_rest s' refs ∧ kept s refs s').
Proof.
  intros Har Hk Hh. pose proof Har as [A1 A2 A3 A4 A5]. destruct (rest_slot _ _ _ _ Har Hk Hh) as (ip0 & Hip0 & Hi & [Hin _] & Hc0 & Hpos).
  unfold with_inode. wp_step. eapply wp_mono; [by eapply load_at|]. intros ip s1 (Hd & Hi1 & Hv & Hc & He).
  assert (ready 1 s1) as Hr1.
  { eapply ext_ready; [|exact He]. by apply (ready_locked 1 (put_inode k ip s)); [destruct A1; by split|..]. }
  assert (d_typ (dinode (disk s) i) = typ ip) as Ht by (by rewrite <-Hd).
  assert (∀ s2, ext s1 (disk s) s2 → at_rest (set_held (held s) (put_inode k ip s2)) refs ∧ kept s refs (set_held (held s) (put_inode k ip s2))) as Hend.
  { intros s2 He2. pose proof (ext_trans _ _ _ _ _ He He2) as He02. pose proof (ext_ready _ _ _ _ Hr1 He2) as [R1 R2 _]. pose proof He02 as [D1 D2 D3 D4 D5]. cbn in D1, D3, D4.
    assert (icache (put_inode k ip s2) = <[k := ip]> (icache s)) as Hic by (cbn; rewrite D4; apply list_insert_insert_eq). split.
    - eapply (rest_put s _ refs refs k ip); [done|split; [exact R1|exact R2|apply A1]|done|done|exact Hic| |by right|].
      + eapply icache_ok_put; [done|done|done|done|]. intros j jp Hj Hjp Hpj _ Heq. apply Hj. eapply (ic_inj _ _ A2); [done|done|done|done|congruence].
      + split; [by rewrite Hi1, <-Hi|]. intros _. by rewrite Hi1.
    - eapply (kept_put s _ refs k ip0 ip); [done|done|done|done|exact Hic|congruence]. }
  assert (held s1 = LInode k :: held s) as Hh1 by apply He.
  wp_step. eapply (wp_mono _ _ (λ a s2, a = (child (disk s) name i, ip) ∧ ext s1 (disk s) s2)).
  - unfold child, dir_at. rewrite Ht. destruct (Z.eqb_spec (typ ip) T_DIR) as [Hdir|Hdir]; cbn [negb].
    + destruct (A5 i (entries (disk s) (inode_at (disk s) i))) as [Hok _]; [by rewrite <-Hi|by unfold dir_at; rewrite Ht, Hdir|].
      destruct (dir_ok_same (disk s) (inode_at (disk s) i) ip) as [Hok' Hes]; [by rewrite dinode_inode_at|done|].
      wp_call (dirlookup_spec 0); [done|by rewrite (ext_disk _ _ _ He)|]. intros r s2 [-> He2]. rewrite (ext_disk _ _ _ He) in *. wp_steps. cbn. by rewrite Hes.
    + wp_steps. split; [done|]. rewrite <-(ext_disk _ _ _ He) at 1. apply ext_refl, Hr1.
  - intros [r ip1] s2 [[= -> ->] He2]. wp_step. apply wp_set_islot. wp_step. eapply wp_release; [exact (eq_trans (ext_held _ _ _ He2) Hh1)|apply A3|].
    wp_steps. split; [done|]. by apply Hend.
Qed.

(** ** References *)

(** There is room for [n] more references to each slot. *)
Definition few (refs : gmultiset nat) (n : Z) : Prop := ∀ k, Z.of_nat (multiplicity k refs) + n ≤ USIZE_MAX.

Lemma few_add refs k n : few refs (n + 1) → few (refs ⊎ {[+ k +]}) n.
Proof. intros Hf j. specialize (Hf j). rewrite multiplicity_add. destruct (decide (j = k)); lia. Qed.

Lemma few_less refs n m : few refs n → m ≤ n → few refs m.
Proof. intros Hf Hm k. specialize (Hf k). lia. Qed.

Lemma ready_put n k ip s : ready n s → ready n (put_inode k ip s).
Proof. intros []. by split. Qed.

Lemma rest_bound s refs k ip : at_rest s refs → few refs 1 → icache s !! k = Some ip → 0 ≤ i_refcnt ip < USIZE_MAX.
Proof. intros Har Hf Hk. rewrite (ic_count _ _ (ar_refs _ _ Har) k ip Hk). specialize (Hf k). lia. Qed.

Lemma added_ref (refs : gmultiset nat) k j : j ∈ refs ⊎ {[+ k +]} → j = k ∨ j ∈ refs.
Proof. multiset_solver. Qed.

Lemma iget_at s refs i :
  at_rest s refs → is_inum i → few refs 1 →
  wp (iget i) s (λ r s', kept s refs s' ∧
    match r with
    | Some k => at_rest s' (refs ⊎ {[+ k +]}) ∧ holds s' k i
    | None => at_rest s' refs ∧ no_slot refs
    end).
Proof.
  intros Har Hin Hf. pose proof Har as [A1 A2 A3 A4 A5]. wp_call iget_spec; [done|apply A2|intros j ip; by apply (rest_bound _ _ _ _ Har)|].
  intros [k|] s'; cycle 1.
  { intros [-> Hall]. split; [by split|]. split; [done|]. intros k Hk. destruct (lookup_lt_is_Some_2 (icache s) k) as [ip Hip]; [by rewrite (ic_len _ _ A2)|].
    destruct (Hall k ip Hip) as [Hne _]. apply elem_of_multiplicity. rewrite (ic_count _ _ A2 k ip Hip) in Hne. lia. }
  intros (ip & Hip & Hr). pose proof (lookup_lt_Some _ _ _ Hip) as Hlt. pose proof (ic_count _ _ A2 k ip Hip) as Hc. destruct (uses i ip) eqn:Hu.
  - subst s'. unfold uses in Hu. apply andb_true_iff in Hu as [Hpos%Z.ltb_lt Hi%Z.eqb_eq].
    assert (k ∈ refs) as Hk by (apply elem_of_multiplicity; lia). split_and!; [by eapply (kept_put s _ _ k ip)| |].
    + eapply (rest_put s _ refs _ k); [done|by apply ready_put|done|done|done|by apply more_ref| |by apply (A4 k ip)].
      apply added_ref.
    + eexists. split; [by apply list_lookup_insert_eq|done].
  - destruct Hr as (H0 & -> & Hmiss). assert (k ∉ refs) as Hnk by (apply not_elem_of_multiplicity; lia). split_and!; [by eapply (kept_put s _ _ k ip)| |].
    + eapply (rest_put s _ refs _ k); [done|by apply ready_put|done|done|done|by apply claim_ref| |by split].
      apply added_ref.
    + eexists. split; [by apply list_lookup_insert_eq|done].
Qed.

Lemma idup_at s refs k i :
  at_rest s refs → k ∈ refs → holds s k i → few refs 1 →
  wp (idup k) s (λ r s', r = k ∧ kept s refs s' ∧ at_rest s' (refs ⊎ {[+ k +]}) ∧ holds s' k i).
Proof.
  intros Har Hk Hh Hf. destruct (rest_slot _ _ _ _ Har Hk Hh) as (ip & Hip & Hi & Hag & Hc & Hpos). pose proof Har as [A1 A2 A3 A4 A5].
  pose proof (rest_bound _ _ _ _ Har Hf Hip). wp_call idup_spec; [done|done|lia|]. intros r s' [-> ->].
  assert (kept s refs (put_inode k (set_refcnt (i_refcnt ip + 1) ip) s)) as Hkp by (by eapply (kept_put s _ _ k ip)).
  split_and!; [done|done| |by apply Hkp].
  eapply (rest_put s _ refs _ k); [done|by apply ready_put|done|done|done|by apply more_ref| |done].
  apply added_ref.
Qed.

Lemma iput_at s refs k i :
  at_rest s (refs ⊎ {[+ k +]}) → holds s k i → few (refs ⊎ {[+ k +]}) 0 →
  wp (iput k) s (λ _ s', kept s (refs ⊎ {[+ k +]}) s' ∧ at_rest s' refs).
Proof.
  intros Har Hh Hf. assert (k ∈ refs ⊎ {[+ k +]}) as Hk by multiset_solver.
  destruct (rest_slot _ _ _ _ Har Hk Hh) as (ip & Hip & Hi & Hag & Hc & Hpos). pose proof Har as [A1 A2 A3 A4 A5].
  pose proof (Hf k) as Hfk. wp_call iput_spec; [done|done|lia|]. intros [] s' ->. split; [by eapply (kept_put s _ _ k ip)|].
  pose proof (one_less_ref _ _ _ _ A2 Hip Hk) as Hok. replace ((refs ⊎ {[+ k +]}) ∖ {[+ k +]}) with refs in Hok by multiset_solver.
  eapply (rest_put s _ _ refs k); [done|by apply ready_put|done|done|done|done| |done]. intros j Hj. right. multiset_solver.
Qed.

(** ** One step *)

Lemma dir_find_inum name es j :
  Forall (λ de, de_inum de = 0 ∨ is_inum (de_inum de)) es → dir_find name es = Some j → is_inum j.
Proof.
  induction 1 as [|de es Hde Hes IH]; cbn; [done|]. destruct (matches name de) eqn:Hm; [|done]. intros [= <-].
  unfold matches in Hm. apply andb_true_iff in Hm as [Hne _]. destruct Hde as [Hz|]; [|done]. by rewrite Hz in Hne.
Qed.

Lemma child_inum D name i j : tree_ok D → is_inum i → child D name i = Some j → is_inum j.
Proof.
  intros HD Hi. unfold child. destruct (dir_at D i) as [es|] eqn:E; [|done]. destruct (HD i es Hi E) as [_ Hes]. by apply dir_find_inum.
Qed.

(** The walk holds one reference, to the inode it has reached. *)
Lemma step_at s refs k i name :
  at_rest s (refs ⊎ {[+ k +]}) → holds s k i → few refs 2 →
  wp (namei_step k name) s (λ r s', kept s refs s' ∧
    match r with
    | Some k' => ∃ j, child (disk s) name i = Some j ∧ at_rest s' (refs ⊎ {[+ k' +]}) ∧ holds s' k' j
    | None => at_rest s' refs ∧ (child (disk s) name i = None ∨ no_slot (refs ⊎ {[+ k +]}))
    end).
Proof.
  intros Har Hh Hf. assert (k ∈ refs ⊎ {[+ k +]}) as Hk by multiset_solver. pose proof (few_add refs k 1 Hf) as Hf1.
  assert (is_inum i) as Hin by (destruct (rest_slot _ _ _ _ Har Hk Hh) as (ip & _ & <- & [? _] & _); done).
  assert (∀ j, j ∈ refs → j ∈ refs ⊎ {[+ k +]}) as Hsub by multiset_solver.
  unfold namei_step. wp_step. eapply wp_mono; [by eapply lookup_at|]. intros r s1 (-> & Har1 & Hk1).
  assert (holds s1 k i) as Hh1 by (by apply Hk1). destruct (child (disk s) name i) as [j|] eqn:Hc; cycle 1.
  { wp_step. eapply wp_mono; [eapply iput_at; [done|done|by apply (few_less _ 1 0 Hf1); lia]|]. intros [] s2 [Hk2 Har2]. wp_steps.
    split; [|by split; [|left]]. eapply kept_weaken; [by eapply kept_trans|done]. }
  wp_step. eapply wp_mono; [apply iget_at; [done|by eapply child_inum; [apply Har| |]|done]|]. intros [k'|] s2 [Hk2 Hr].
  - destruct Hr as [Har2 Hh2]. assert (holds s2 k i) as Hh2' by (by apply Hk2).
    replace (refs ⊎ {[+ k +]} ⊎ {[+ k' +]}) with (refs ⊎ {[+ k' +]} ⊎ {[+ k +]}) in Har2 by multiset_solver.
    wp_step. eapply wp_mono; [eapply iput_at; [done|done|by apply (few_add _ _ 0), (few_add _ _ 1)]|]. intros [] s3 [Hk3 Har3]. wp_steps. split.
    + eapply kept_weaken; [eapply kept_trans; [exact Hk1|eapply kept_trans; [exact Hk2|exact Hk3|]|]|]; multiset_solver.
    + exists j. split_and!; [done|done|]. apply Hk3; [multiset_solver|done].
  - destruct Hr as [Har2 Hfull]. assert (holds s2 k i) as Hh2' by (by apply Hk2).
    wp_step. eapply wp_mono; [eapply iput_at; [done|done|by apply (few_less _ 1 0 Hf1); lia]|]. intros [] s3 [Hk3 Har3]. wp_steps.
    split; [|by split; [|right]]. eapply kept_weaken; [eapply kept_trans; [exact Hk1|by eapply kept_trans|done]|done].
Qed.

(** ** Walks *)

(** Of the fifty slots at most one is not referenced by [refs]. *)
Definition crowded (refs : gmultiset nat) : Prop := ∃ k, no_slot (refs ⊎ {[+ k +]}).

(** The walk ends at inode [j], in slot [k]. *)
Definition arrived (s : fs) (refs : gmultiset nat) (k : nat) (j : Z) : Prop := at_rest s (refs ⊎ {[+ k +]}) ∧ holds s k j.

Lemma walk_at path s refs k i :
  arrived s refs k i → few refs 2 →
  wp (walk_names path k) s (λ r s', kept s refs s' ∧
    match r with
    | Some k' => ∃ j, resolve (disk s) path i = Some j ∧ arrived s' refs k' j
    | None => at_rest s' refs ∧ (resolve (disk s) path i = None ∨ crowded refs)
    end).
Proof.
  revert s k i. induction path as [|name path IH]; intros s k i [Har Hh] Hf; cbn [walk_names resolve].
  { wp_steps. split; [by split|]. by exists i. }
  wp_step. eapply wp_mono; [by eapply step_at|]. intros [k'|] s1 [Hk1 Hr].
  - destruct Hr as (j & -> & Har1 & Hh1). eapply wp_mono; [by eapply IH|]. intros r s2 [Hk2 Hr]. rewrite (kp_disk _ _ _ Hk1) in Hr.
    split; [by eapply kept_trans|done].
  - wp_steps. split; [done|]. destruct Hr as [Har1 [->|Hfull]]; (split; [done|]); [by left|right; by exists k].
Qed.

Lemma walk_parent_at path s refs k i :
  arrived s refs k i → few refs 2 →
  wp (walk_parent path k) s (λ r s', kept s refs s' ∧
    match r with
    | Some (k', name) => ∃ front j, path = front ++ [name] ∧ resolve (disk s) front i = Some j ∧ arrived s' refs k' j
    | None => at_rest s' refs ∧ (path = [] ∨ (∃ front name, path = front ++ [name] ∧ resolve (disk s) front i = None) ∨ crowded refs)
    end).
Proof.
  revert s k i. induction path as [|name path IH]; intros s k i [Har Hh] Hf.
  { cbn [walk_parent]. wp_step. eapply wp_mono; [eapply iput_at; [done|done|apply (few_add _ _ 0), (few_less _ 2); [done|lia]]|].
    intros [] s1 [Hk1 Har1]. wp_steps. split; [|by split; [|left]]. eapply kept_weaken; [done|multiset_solver]. }
  destruct path as [|name' path].
  { cbn [walk_parent]. wp_steps. split; [by split|]. by exists [], i. }
  rewrite walk_parent_cons. wp_step. eapply wp_mono; [by eapply step_at|]. intros [k'|] s1 [Hk1 Hr].
  - destruct Hr as (j & Hc & Har1 & Hh1). eapply wp_mono; [by eapply IH|]. intros r s2 [Hk2 Hr]. rewrite (kp_disk _ _ _ Hk1) in Hr.
    split; [by eapply kept_trans|]. destruct r as [[k2 last]|].
    + destruct Hr as (front & j' & -> & Hres & Harr). exists (name :: front), j'. split_and!; [done| |done]. cbn. by rewrite Hc.
    + destruct Hr as [Har2 [?|[(front & last & -> & Hres)|?]]]; [done| |by split; [|right; right]]. split; [done|]. right. left.
      exists (name :: front), last. split; [done|]. cbn. by rewrite Hc.
  - wp_steps. split; [done|]. destruct Hr as [Har1 [Hc|Hfull]]; (split; [done|]); right; [left|right; by exists k].
    destruct (exists_last (l := name' :: path)) as (front & last & ->); [done|]. exists (name :: front), last. split; [done|]. cbn. by rewrite Hc.
Qed.

(** Where a path starts. *)
Definition start_of (path : list u8) (c : Z) : Z :=
  match path with
  | b :: _ => if b =? SLASH then ROOTINO else c
  | [] => c
  end.

Lemma start_at s refs cwd c path :
  at_rest s refs → cwd ∈ refs → holds s cwd c → few refs 2 →
  wp (namei_start cwd path) s (λ r s', kept s refs s' ∧
    match r with
    | Some k => path ≠ [] ∧ arrived s' refs k (start_of path c)
    | None => at_rest s' refs ∧ (path = [] ∨ crowded refs)
    end).
Proof.
  intros Har Hk Hh Hf. assert (few refs 1) as Hf1 by (by apply (few_less _ 2); [|lia]). destruct path as [|b path]; cbn [namei_start start_of].
  { wp_steps. split; [by split|]. by split; [|left]. }
  destruct (b =? SLASH).
  - eapply wp_mono; [apply iget_at; [done|done|done]|]. intros [k|] s1 [Hk1 Hr]; (split; [done|]); [by split|].
    destruct Hr as [? Hfull]. split; [done|right]. exists 0%nat. intros j Hj. specialize (Hfull j Hj). multiset_solver.
  - wp_step. eapply wp_mono; [by eapply idup_at|]. intros r s1 (-> & Hk1 & Har1 & Hh1). wp_steps. by split_and!.
Qed.

(** C24: a path names what its components lead to.  From a quiet file system
    (nothing locked, cached inodes as on the disk, directories readable), [namei]
    ends; it returns a new reference to the inode reached from the root, for a path
    that begins with a slash, or from the current directory by looking up the
    slash-free pieces of the path one after the other in the directories on the
    disk.  It fails only for the empty path, when a piece is not found or not below
    a directory, or when the inode cache is full, and then every reference it took
    is given back.  [nameiparent] does the same for all pieces but the last, which it
    returns.  Neither changes the disk, the locks, the pinned blocks or what the
    other references refer to. *)
Theorem namei_resolves s refs cwd c path :
  at_rest s refs → cwd ∈ refs → holds s cwd c → few refs 2 →
  wp (namei cwd path) s (λ r s', kept s refs s' ∧
    match r with
    | Some k => path ≠ [] ∧ ∃ j, resolve (disk s) (pieces [] path) (start_of path c) = Some j ∧ arrived s' refs k j
    | None => at_rest s' refs ∧ (path = [] ∨ resolve (disk s) (pieces [] path) (start_of path c) = None ∨ crowded refs)
    end) ∧
  wp (nameiparent cwd path) s (λ r s', kept s refs s' ∧
    match r with
    | Some (k, name) => ∃ front j, pieces [] path = front ++ [name] ∧
        resolve (disk s) front (start_of path c) = Some j ∧ arrived s' refs k j
    | None => at_rest s' refs ∧ (pieces [] path = [] ∨ crowded refs ∨
        ∃ front name, pieces [] path = front ++ [name] ∧ resolve (disk s) front (start_of path c) = None)
    end).
Proof.
  intros Har Hk Hh Hf. split.
  - unfold namei. wp_step. eapply wp_mono; [by eapply start_at|]. intros [k|] s1 [Hk1 Hr]; cycle 1.
    { wp_steps. split; [done|]. destruct Hr as [? [->|?]]; (split; [done|]); [by left|by right; right]. }
    destruct Hr as [Hne Harr]. unfold wp. rewrite namei_loop by (unfold path_fuel; lia). fold (wp (walk_names (pieces [] path) k) s1).
    eapply wp_mono; [by eapply walk_at|]. intros r s2 [Hk2 Hr]. rewrite (kp_disk _ _ _ Hk1) in Hr. split; [by eapply kept_trans|].
    destruct r; [done|]. destruct Hr as [? ?]. split; [done|]. by right.
  - unfold nameiparent. wp_step. eapply wp_mono; [by eapply start_at|]. intros [k|] s1 [Hk1 Hr]; cycle 1.
    { wp_steps. split; [done|]. destruct Hr as [? [->|?]]; (split; [done|]); [by left|by right; left]. }
    destruct Hr as [Hne Harr]. unfold wp. rewrite nameiparent_loop by (unfold path_fuel; lia). fold (wp (walk_parent (pieces [] path) k) s1).
    eapply wp_mono; [by eapply walk_parent_at|]. intros r s2 [Hk2 Hr]. rewrite (kp_disk _ _ _ Hk1) in Hr. split; [by eapply kept_trans|].
    destruct r as [[]|]; [done|]. destruct Hr as [? [?|[?|?]]]; (split; [done|]); [by left|by right; right|by right; left].
Qed.

(** ** Witness: a root directory with one file, [a] *)

Definition one_addrs (b : Z) : list u32 := b :: replicate 12 0.
Definition demo_block : Z := 20.
Definition demo_root : Dinode := mkDinode T_DIR 0 0 1 DIRENT_SIZE (one_addrs demo_block).
Definition demo_entry : Dirent := new_entry [97] 2.
Definition demo_entries : list u8 := Dirent_bytes demo_entry ++ replicate 1008 0.
Definition demo_disk : list (list u8) := upd (put_dinode (mark (disk boot_fs) demo_block true) ROOTINO demo_root) demo_block demo_entries.
Definition demo_fs : fs := put_inode 0 (claimed ROOTINO Inode_empty) (mkFs demo_disk (bcache boot_fs) (icache boot_fs) []).

Lemma bmap_one D b bn : is_bn bn → bmap D (one_addrs b) bn = if bn =? 0 then b else 0.
Proof.
  unfold is_bn, bmap. intros Hbn. destruct (Z.ltb_spec bn NDIRECT) as [Hlt|Hge].
  - destruct (Z.eqb_spec bn 0) as [->|Hne]; [done|]. unfold one_addrs. replace (Z.to_nat bn) with (S (Z.to_nat (bn - 1))) by lia.
    apply (lookup_total_replicate_2 12). fs_lia.
  - change (ind (one_addrs b)) with 0. rewrite (proj2 (Z.eqb_neq bn 0)) by fs_lia. by destruct (_ <? _).
Qed.

Lemma imap_one D b : is_data b → used D b = true → imap_ok D (one_addrs b).
Proof.
  intros Hb Hu. assert (b ≠ 0) as Hnz by (unfold is_data in Hb; fs_lia). split; [done|by intros []| |].
  - intros bn Hbn. rewrite bmap_one by done. by destruct (bn =? 0).
  - intros bn bn' Hbn Hbn'. rewrite !bmap_one by done. destruct (Z.eqb_spec bn 0), (Z.eqb_spec bn' 0); by subst.
Qed.

Lemma demo_block_data : is_data demo_block ∧ is_inum ROOTINO.
Proof. unfold is_data, is_inum, demo_block. fs_lia. Qed.

Lemma demo_disk_ok : disk_ok demo_disk.
Proof.
  destruct demo_block_data. apply upd_ok; [apply put_dinode_ok; [by apply mark_ok; [apply boot_disk_ok|]|done|done]|].
  split; [done|]. apply (bool_decide_unpack (bytes_ok demo_entries)). by vm_compute.
Qed.

Lemma demo_dinode_at i : is_inum i → dinode demo_disk i = if decide (ROOTINO = i) then demo_root else dinode (disk boot_fs) i.
Proof.
  intros Hi. destruct demo_block_data as [Hb Hr]. unfold demo_disk. rewrite dinode_upd; [|done|done].
  rewrite dinode_put; [|by apply mark_ok; [apply boot_disk_ok|]|done|done|]; [|by repeat constructor].
  destruct (decide (ROOTINO = i)); [done|]. by rewrite dinode_mark.
Qed.

Lemma boot_dinode i : is_inum i → d_typ (dinode (disk boot_fs) i) = 0.
Proof.
  intros Hi. destruct (dinode_range i Hi) as [Hb Ho]. unfold dinode, blk. change (disk boot_fs) with (replicate (Z.to_nat FSSIZE) zero_block).
  rewrite lookup_total_replicate_2 by fs_lia. unfold zero_block, slice. rewrite drop_replicate, take_replicate.
  replace (_ `min` _)%nat with 64%nat by fs_lia. done.
Qed.

Lemma demo_dir_ok : dir_ok demo_disk (inode_at demo_disk ROOTINO).
Proof.
  destruct demo_block_data as [Hb Hr]. unfold inode_at. rewrite demo_dinode_at, decide_True by done.
  assert (imap_ok demo_disk (one_addrs demo_block)) as Hm.
  { apply imap_one; [done|]. unfold demo_disk. rewrite used_upd, used_put_dinode, used_mark, decide_True by (done || apply boot_disk_ok). done. }
  split; [|done|by exists 1]. split; [done|cbn; fs_lia|]. cbn. intros p Hp. replace (p / BSIZE) with 0 by (symmetry; apply Z.div_small; fs_lia). done.
Qed.

Lemma demo_entries_at : entries demo_disk (inode_at demo_disk ROOTINO) = [demo_entry].
Proof. by vm_compute. Qed.

Lemma demo_tree_ok : tree_ok demo_disk.
Proof.
  intros i es Hi. unfold dir_at. rewrite demo_dinode_at by done. destruct (decide (ROOTINO = i)) as [<-|Hne].
  - cbn [d_typ demo_root]. intros [= <-]. split; [apply demo_dir_ok|]. rewrite demo_entries_at. apply Forall_singleton. right. change (is_inum 2). unfold is_inum. fs_lia.
  - by rewrite boot_dinode.
Qed.

Lemma demo_at_rest : at_rest demo_fs (∅ ⊎ {[+ 0%nat +]}).
Proof.
  split.
  - apply ready_put. eapply ready_le; [|apply fresh_ready, demo_disk_ok]. lia.
  - apply claim_ref; [by eapply icache_ok_ext; [|apply boot_icache_ok]|done|done|].
    intros j jp Hj. apply (lookup_replicate_1 (Z.to_nat NINODE) Inode_empty) in Hj as [-> _]. done.
  - split; [|intros i]; apply not_elem_of_nil.
  - intros k ip Hk Hin. apply added_ref in Hin as [->|Hin]; [|by apply gmultiset_elem_of_empty in Hin]. injection Hk as <-. split; [|done].
    apply demo_block_data.
  - apply demo_tree_ok.
Qed.

Lemma demo_resolves : resolve demo_disk (pieces [] (bytes_of_string "/a")) ROOTINO = Some 2.
Proof. by vm_compute. Qed.

(** [/a] is inode 2. *)
Lemma namei_resolves_witness :
  wp (namei 0 (bytes_of_string "/a")) demo_fs (λ r s', kept demo_fs (∅ ⊎ {[+ 0%nat +]}) s' ∧
    match r with
    | Some k => arrived s' (∅ ⊎ {[+ 0%nat +]}) k 2
    | None => at_rest s' (∅ ⊎ {[+ 0%nat +]}) ∧ crowded (∅ ⊎ {[+ 0%nat +]})
    end).
Proof.
  pose proof demo_resolves as Hres.
  destruct (namei_resolves demo_fs (∅ ⊎ {[+ 0%nat +]}) 0 ROOTINO (bytes_of_string "/a") demo_at_rest) as [H _].
  - apply elem_of_multiplicity. by vm_compute.
  - by eexists.
  - intros k. rewrite multiplicity_add, multiplicity_empty. destruct (decide _); fs_lia.
  - eapply wp_mono; [exact H|]. intros [k|] s' [Hk Hr]; (split; [exact Hk|]).
    + destruct Hr as (_ & j & Hj & Harr). pose proof (eq_trans (eq_sym Hres) Hj) as Hj2. injection Hj2 as <-. exact Harr.
    + destruct Hr as [Har [He|[Hn|Hc]]]; [discriminate He| |exact (conj Har Hc)]. discriminate (eq_trans (eq_sym Hres) Hn).
Defined.
