(* ===== verification/FsTest.v ===== *)
(** * The self test of the file system (src/src/fs.rs: selftest)

    The kernel's own tests, translated like the code they exercise, and run: every
    assertion holds in the model, from the state the statics start in. *)

From S2P Require Import Prelude Spinlock FsBase Bcache Balloc Bmap Inode Dir Icache Path.

Definition check (b : bool) : M fs unit := assert b "assertion failed".

(** Fill a block through the cache, and read one. *)
Definition test_fill (msg : string) (blockno : u32) (w : list u8) : M fs unit :=
  r ← bread blockno; bp ← expect r msg;
  buf_write bp (λ d, copy_into d 0 w);;
  brelse bp.

Definition test_read (msg : string) (blockno : u32) : M fs (list u8) :=
  r ← bread blockno; bp ← expect r msg;
  d ← buf_read bp id;
  brelse bp;;
  mret d.

Definition test_bread_bwrite : M fs unit :=
  let blockno := 10 in
  let w := <[Z.to_nat (BSIZE - 1) := 0xab]> (<[1%nat := 0x34]> (<[0%nat := 0x12]> (replicate (Z.to_nat BSIZE) 0))) in
  test_fill "test bread" blockno w;;
  r ← test_read "test readback" blockno;
  x ← aget r 0; check (x =? 0x12);;
  x ← aget r 1; check (x =? 0x34);;
  x ← aget r (BSIZE - 1); check (x =? 0xab).

Definition test_dinode_rw : M fs unit :=
  write_dinode ROOTINO (mkDinode 1 0 0 1 123 zero_addrs);;
  write_dinode (ROOTINO + 1) (mkDinode 2 0 0 1 456 zero_addrs);;
  got_a ← read_dinode ROOTINO;
  got_b ← read_dinode (ROOTINO + 1);
  check (d_typ got_a =? 1);;
  check (d_size got_a =? 123);;
  check (d_typ got_b =? 2);;
  check (d_size got_b =? 456).

Definition test_balloc_bfree : M fs unit :=
  r ← balloc; first ← expect r "balloc first";
  r ← balloc; second ← expect r "balloc second";
  check (first =? DATASTART);;
  check (second =? DATASTART + 1);;
  test_fill "test balloc first" first (replicate (Z.to_nat BSIZE) 0xff);;
  bfree first;;
  r ← balloc; reused ← expect r "balloc reused";
  check (reused =? first);;
  pattern ← test_read "test balloc reused" reused;
  for_fold pattern (λ byte _, check (byte =? 0)) tt.

Definition test_inode_cache_refcnt : M fs unit :=
  let i := ROOTINO + 2 in
  write_dinode i (mkDinode 2 0 0 1 777 zero_addrs);;
  r ← iget i; ip1 ← expect r "iget first";
  r ← iget i; ip2 ← expect r "iget second";
  check (bool_decide (ip1 = ip2));;
  with_inode ip1 (λ ip,
    check (i_valid ip);;
    check (typ ip =? 2);;
    check (size ip =? 777);;
    check (i_refcnt ip =? 2);;
    mret (tt, ip));;
  ip3 ← idup ip1;
  check (bool_decide (ip1 = ip3));;
  guarded (LInode ip1) (ip ← islot ip1; check (i_refcnt ip =? 3));;
  iput ip1;;
  iput ip2;;
  iput ip3;;
  guarded (LInode ip1) (
    ip ← islot ip1;
    check (i_refcnt ip =? 0);;
    check (i_valid ip);;
    check (inum ip =? i)).

Definition test_readi_writei : M fs unit :=
  let i := ROOTINO + 3 in
  let cross := bytes_of_string "0123456789abcdef0123456789abcdef" in
  let off := BSIZE - 8 in
  write_dinode i (mkDinode 2 0 0 1 0 zero_addrs);;
  r ← iget i; ip_ref ← expect r "iget readi/writei";
  with_inode ip_ref (λ ip,
    '(n, small) ← _readi ip 0 (replicate 8 0);
    check (n =? 0);;
    '(n, ip) ← _writei ip 0 (bytes_of_string "hello");
    check (n =? 5);;
    check (size ip =? 5);;
    '(n, small) ← _readi ip 0 small;
    check (n =? 5);;
    check (bool_decide (take 5 small = bytes_of_string "hello"));;
    '(n, tail) ← _readi ip 1 (replicate 4 0);
    check (n =? 4);;
    check (bool_decide (tail = bytes_of_string "ello"));;
    '(n, ip) ← _writei ip 1 (bytes_of_string "AB");
    check (n =? 2);;
    check (size ip =? 5);;
    '(n, small) ← _readi ip 0 small;
    check (n =? 5);;
    check (bool_decide (take 5 small = bytes_of_string "hABlo"));;
    '(n, ip) ← _writei ip off cross;
    check (n =? Z.of_nat (length cross));;
    '(n, got) ← _readi ip off (replicate 32 0);
    check (n =? Z.of_nat (length got));;
    check (bool_decide (got = cross));;
    '(n, gap) ← _readi ip 5 (replicate 16 0xff);
    check (n =? Z.of_nat (length gap));;
    check (bool_decide (gap = replicate 16 0));;
    '(n, before_cross) ← _readi ip (BSIZE - 16) (replicate 16 0xff);
    check (n =? Z.of_nat (length before_cross));;
    check (bool_decide (take 8 before_cross = replicate 8 0));;
    check (bool_decide (drop 8 before_cross = take 8 cross));;
    mret (tt, ip));;
  iput ip_ref;;
  r ← iget i; ip_ref ← expect r "iget readback";
  with_inode ip_ref (λ ip,
    check (size ip =? BSIZE - 8 + 32);;
    '(n, got) ← _readi ip 0 (replicate 5 0);
    check (n =? Z.of_nat (length got));;
    check (bool_decide (got = bytes_of_string "hABlo"));;
    mret (tt, ip));;
  iput ip_ref.

Definition test_directory_layer : M fs unit :=
  let dir_inum := ROOTINO + 4 in
  let child_inum := ROOTINO + 5 in
  let foo := bytes_of_string "foo" in
  let bar := bytes_of_string "bar" in
  write_dinode dir_inum (mkDinode T_DIR 0 0 1 0 zero_addrs);;
  r ← iget dir_inum; dp_ref ← expect r "iget dir";
  with_inode dp_ref (λ dp,
    r ← dirlookup dp foo; check (bool_decide (r = None));;
    '(ok, dp) ← dirlink dp foo child_inum; check ok;;
    r ← dirlookup dp foo; check (bool_decide (r = Some child_inum));;
    '(ok, dp) ← dirlink dp foo (child_inum + 1); check (negb ok);;
    '(ok, dp) ← dirlink dp bar (child_inum + 1); check ok;;
    r ← dirlookup dp bar; check (bool_decide (r = Some (child_inum + 1)));;
    mret (tt, dp));;
  iput dp_ref;;
  r ← iget dir_inum; dp_ref ← expect r "iget dir readback";
  with_inode dp_ref (λ dp,
    check (typ dp =? T_DIR);;
    r ← dirlookup dp foo; check (bool_decide (r = Some child_inum));;
    r ← dirlookup dp bar; check (bool_decide (r = Some (child_inum + 1)));;
    r ← dirlookup dp (bytes_of_string "missing"); check (bool_decide (r = None));;
    mret (tt, dp));;
  iput dp_ref.

Definition test_ialloc : M fs unit :=
  r ← ialloc T_FILE; ip_ref ← expect r "ialloc file";
  i ← with_inode ip_ref (λ ip,
    check (ROOTINO <? inum ip);;
    check (typ ip =? T_FILE);;
    check (major ip =? 0);;
    check (minor ip =? 0);;
    check (nlink ip =? 0);;
    check (size ip =? 0);;
    for_fold (addrs ip) (λ addr _, check (addr =? 0)) tt;;
    mret (inum ip, ip));
  dip ← read_dinode i;
  check (d_typ dip =? T_FILE);;
  check (d_nlink dip =? 0);;
  check (d_size dip =? 0);;
  iput ip_ref;;
  r ← ialloc T_DIR; next ← expect r "ialloc dir";
  with_inode next (λ ip,
    check (negb (inum ip =? i));;
    check (typ ip =? T_DIR);;
    mret (tt, ip));;
  iput next.

(** [image] and [readme] are what the kernel image includes. *)
Definition test_populate_root (image : string → list u8) (readme : list u8) : M fs unit :=
  populate_root image readme;;
  r ← iget ROOTINO; root ← expect r "iget root";
  with_inode root (λ dp,
    check (typ dp =? T_DIR);;
    check (nlink dp =? 3);;
    r ← dirlookup dp (bytes_of_string "."); check (bool_decide (r = Some ROOTINO));;
    r ← dirlookup dp (bytes_of_string ".."); check (bool_decide (r = Some ROOTINO));;
    mret (tt, dp));;
  r ← namei root (bytes_of_string "/"); root_by_name ← expect r "namei /";
  with_inode root_by_name (λ ip, check (inum ip =? ROOTINO);; check (typ ip =? T_DIR);; mret (tt, ip));;
  iput root_by_name;;
  r ← namei root (bytes_of_string "/bin"); bin ← expect r "namei /bin";
  with_inode bin (λ ip, check (typ ip =? T_DIR);; check (nlink ip =? 2);; mret (tt, ip));;
  r ← namei root (bytes_of_string "bin"); bin_relative ← expect r "namei relative bin";
  check (bool_decide (bin = bin_relative));;
  iput bin_relative;;
  r ← namei bin (bytes_of_string ".."); parent ← expect r "namei bin/..";
  with_inode parent (λ ip, check (inum ip =? ROOTINO);; mret (tt, ip));;
  iput parent;;
  iput bin;;
  r ← namei root (bytes_of_string "/README.md"); readme_ref ← expect r "namei /README.md";
  with_inode readme_ref (λ ip,
    let n := Z.min 16 (Z.of_nat (length readme)) in
    check (typ ip =? T_FILE);;
    check (nlink ip =? 1);;
    '(k, buf) ← _readi ip 0 (replicate (Z.to_nat n) 0);
    check (k =? n);;
    check (bool_decide (buf = take (Z.to_nat n) readme));;
    mret (tt, ip));;
  iput readme_ref;;
  r ← namei root (bytes_of_string "/missing"); check (bool_decide (r = None));;
  r ← namei root []; check (bool_decide (r = None));;
  iput root.

Definition selftest (image : string → list u8) (readme : list u8) : M fs unit :=
  test_bread_bwrite;;
  test_dinode_rw;;
  test_balloc_bfree;;
  test_inode_cache_refcnt;;
  test_readi_writei;;
  test_directory_layer;;
  test_ialloc;;
  test_populate_root image readme.

Example selftest_run :
  match selftest (λ name, if decide (name = "cat"%string) then replicate 1500 7 else bytes_of_string name) (bytes_of_string "# toy-os-riscv") boot_fs with
  | Ok (_, s) => Some (held s)
  | Fault _ => None
  end = Some [].
Proof. by vm_compute. Qed.
