(* ===== verification/Kalloc.v ===== *)
(** * Physical memory and the page allocator (src/src/memlayout.rs, src/src/kalloc.rs)

    RAM is a map from page addresses to the 4096 bytes of the page.  The free
    list is threaded through the free pages themselves, as in the code; the
    invariant [free_list] reads it off as a list of page addresses. *)

From S2P Require Import Prelude Spinlock.

(** ** Layout *)

Definition PGSIZE : usize := 4096.
Definition PGSHIFT : Z := 12.
Definition KERNBASE : usize := 0x80200000.
Definition PHYSTOP : usize := 0x88000000.
Definition UART0 : usize := 0x10000000.
Definition CLINT : usize := 0x02000000.
Definition PLIC : usize := 0x0c000000.
Definition MAXVA : usize := Z.shiftl 1 38.
Definition TRAMPOLINE : usize := MAXVA - PGSIZE.
Definition TRAPFRAME : usize := MAXVA - 2 * PGSIZE.
Definition USER_STACK : usize := MAXVA - 3 * PGSIZE.

Ltac mem_consts :=
  change PGSIZE with 4096 in *; change PGSHIFT with 12 in *; change PHYSTOP with 2281701376 in *;
  change KERNBASE with 2149580800 in *; change MAXVA with 274877906944 in *;
  change TRAMPOLINE with 274877902848 in *; change TRAPFRAME with 274877898752 in *;
  change USER_STACK with 274877894656 in *;
  change USIZE_MAX with 18446744073709551615 in *.
Ltac mem_lia := mem_consts; lia.

(** [PhysAddr] and [VirtAddr] are newtypes of [usize]. *)
Definition is_page_aligned (a : usize) : bool := Z.land a (PGSIZE - 1) =? 0.
Definition ppn (a : usize) : u64 := Z.shiftr a PGSHIFT.
Definition page_round_down (a : usize) : usize := Z.ldiff a (PGSIZE - 1).
Definition page_round_up {St} (a : usize) : M St usize :=
  x ← add_at USIZE_MAX a PGSIZE; mret (Z.ldiff (x - 1) (PGSIZE - 1)).

(** ** Machine state

    [mem] holds the pages of RAM that the allocator manages; an access to any
    other page would touch the kernel image or no memory at all and is a fault
    of the model.  [head] is [KMEM.head], with [0] for the null pointer. *)

Record machine := mkMachine {
  mem : gmap Z (list u8);
  head : usize;
  km_held : list lock;
}.

Definition set_mem (m : gmap Z (list u8)) (s : machine) : machine := mkMachine m (head s) (km_held s).
Definition set_head (h : usize) (s : machine) : machine := mkMachine (mem s) h (km_held s).

#[global] Program Instance Locks_machine : Locks machine := {
  held := km_held;
  set_held h s := mkMachine (mem s) (head s) h;
}.
Solve Obligations with (by intros []).

Definition pbase (a : usize) : usize := a - a mod PGSIZE.
Definition poff (a : usize) : usize := a mod PGSIZE.

Definition load_page (p : usize) : M machine (list u8) :=
  m ← gets mem; expect (m !! p) "access outside managed memory".
Definition store_page (p : usize) (d : list u8) : M machine unit :=
  _ ← load_page p; modify (λ s, set_mem (<[p := d]> (mem s)) s).

(** Aligned 64-bit accesses. *)
Definition load64 (a : usize) : M machine u64 :=
  d ← load_page (pbase a); mret (le_val (slice (Z.to_nat (poff a)) 8 d)).
Definition store64 (a : usize) (v : u64) : M machine unit :=
  d ← load_page (pbase a);
  store_page (pbase a) (splice (Z.to_nat (poff a)) (le_bytes 8 v) d).

(** [ptr::write_bytes(p, v, PGSIZE)] on a page *)
Definition fill_page (p : usize) (v : u8) : M machine unit :=
  store_page p (replicate (Z.to_nat PGSIZE) v).

(** ** Operations *)

Section kalloc.
(** The linker symbol [__kernel_end]. *)
Context (kernel_end : usize).

Definition kfree (pa : usize) : M machine unit :=
  assert (is_page_aligned pa) "kfree: pa not page-aligned";;
  assert (kernel_end <=? pa) "kfree: pa below kernel end";;
  assert (pa <? PHYSTOP) "kfree: pa beyond PHYSTOP";;
  fill_page pa 0x05;;
  guarded KMEM
    (h ← gets head;
     store64 pa h;;
     modify (set_head pa)).

Definition kalloc : M machine (option usize) :=
  guarded KMEM
    (r ← gets head;
     if r =? 0 then mret None
     else
       next ← load64 r;
       modify (set_head next);;
       mret (Some r)).

Definition kalloc_zeroed : M machine (option usize) :=
  r ← kalloc;
  match r with
  | None => mret None
  | Some pa => fill_page pa 0;; mret (Some pa)
  end.

Definition freerange (start e : usize) : M machine unit :=
  while_fuel (S (Z.to_nat ((e - start) / PGSIZE))) (λ p,
    top ← add_at USIZE_MAX p PGSIZE;
    if top <=? e then
      kfree p;;
      p ← add_at USIZE_MAX p PGSIZE;
      mret (inl p)
    else mret (inr tt)) start.

Definition kinit : M machine unit :=
  assert (is_page_aligned kernel_end) "__kernel_end must be page-aligned";;
  freerange kernel_end PHYSTOP.
End kalloc.

(** ** Invariant *)

Definition page_ok (d : list u8) : Prop := length d = Z.to_nat PGSIZE ∧ bytes_ok d.
Definition zero_page : list u8 := replicate (Z.to_nat PGSIZE) 0.

(** The link stored in a free page. *)
Definition next_of (m : gmap Z (list u8)) (p : Z) : Z := le_val (slice 0 8 (m !!! p)).

Fixpoint chain (m : gmap Z (list u8)) (h : Z) (fl : list Z) : Prop :=
  match fl with
  | [] => h = 0
  | p :: fl' => h = p ∧ chain m (next_of m p) fl'
  end.

Lemma chain_insert m h fl p d : p ∉ fl → chain m h fl → chain (<[p := d]> m) h fl.
Proof.
  revert h. induction fl as [|q fl IH]; intros h Hp Hc; [done|].
  apply not_elem_of_cons in Hp as [Hne Hp]. destruct Hc as [-> Hc]. split; [done|].
  unfold next_of. rewrite lookup_total_insert_ne by done. by apply IH.
Qed.

Section kalloc_proofs.
Context (kernel_end : usize).
Context (Hend_pos : 0 < kernel_end) (Hend_max : kernel_end ≤ PHYSTOP).

Definition ram_page (p : Z) : Prop := kernel_end ≤ p < PHYSTOP ∧ p mod PGSIZE = 0.

Record kinv (s : machine) (fl : list Z) : Prop := {
  ki_ram p : ram_page p ↔ is_Some (mem s !! p);
  ki_pages p d : mem s !! p = Some d → page_ok d;
  ki_chain : chain (mem s) (head s) fl;
  ki_nodup : NoDup fl;
  ki_free : Forall ram_page fl;
  ki_held : KMEM ∉ held s;
}.

Lemma aligned_mod a : 0 ≤ a → is_page_aligned a = bool_decide (a mod PGSIZE = 0).
Proof.
  intros Ha. unfold is_page_aligned. change (PGSIZE - 1) with (Z.ones 12).
  rewrite Z.land_ones by lia. change (2 ^ 12) with PGSIZE.
  by destruct (Z.eqb_spec (a mod PGSIZE) 0); case_bool_decide.
Qed.

Lemma ram_base p : ram_page p → pbase p = p ∧ poff p = 0.
Proof. intros [_ Hm]. unfold pbase, poff. rewrite Hm. lia. Qed.

Lemma ram_aligned p : ram_page p → is_page_aligned p = true.
Proof. intros [Hr Hm]. rewrite aligned_mod by lia. by apply bool_decide_eq_true. Qed.

Lemma wp_load_page p d s Q : mem s !! p = Some d → Q d s → wp (load_page p) s Q.
Proof. intros ??. unfold load_page. wp_steps. by eapply wp_expect. Qed.

Lemma wp_store_page p d s Q :
  is_Some (mem s !! p) → Q tt (set_mem (<[p := d]> (mem s)) s) → wp (store_page p d) s Q.
Proof. intros [d' Hd] HQ. unfold store_page. wp_step. eapply wp_load_page; [done|]. by wp_steps. Qed.

Lemma wp_load64 a d s Q :
  mem s !! pbase a = Some d → Q (le_val (slice (Z.to_nat (poff a)) 8 d)) s → wp (load64 a) s Q.
Proof. intros ??. unfold load64. wp_step. eapply wp_load_page; [done|]. by wp_steps. Qed.

Lemma wp_store64 a v d s Q :
  mem s !! pbase a = Some d →
  Q tt (set_mem (<[pbase a := splice (Z.to_nat (poff a)) (le_bytes 8 v) d]> (mem s)) s) →
  wp (store64 a v) s Q.
Proof.
  intros Hd HQ. unfold store64. wp_step. eapply wp_load_page; [done|].
  apply wp_store_page; [by eexists|done].
Qed.

Lemma zero_page_ok : page_ok zero_page.
Proof. split; [apply length_replicate|]. by apply Forall_replicate. Qed.

Lemma store64_page_ok off v d : page_ok d → (off + 8 ≤ 4096)%nat → page_ok (splice off (le_bytes 8 v) d).
Proof.
  intros [Hl Hd] Ho. split; [|by apply Forall_splice; auto with kernel].
  rewrite length_splice; [done|]. rewrite length_le_bytes, Hl. mem_lia.
Qed.

(** A page in use may be overwritten. *)
Lemma kinv_store s fl p d :
  kinv s fl → ram_page p → p ∉ fl → page_ok d → kinv (set_mem (<[p := d]> (mem s)) s) fl.
Proof.
  intros [H1 H2 H3 H4 H5 H6] Hp Hn Hd. split; cbn [mem set_mem head]; try done.
  - intros q. rewrite H1, lookup_insert_is_Some. split; [|intros [<-|[_ ?]]; [by apply H1|done]].
    intros Hq. destruct (decide (p = q)); [by left|by right].
  - intros q d'. rewrite lookup_insert_Some. intros [[_ <-]|[_ ?]]; eauto.
  - by apply chain_insert.
Qed.

Lemma kinv_lookup s fl p : kinv s fl → ram_page p → ∃ d, mem s !! p = Some d ∧ page_ok d.
Proof. intros Hk Hp. apply (ki_ram _ _ Hk) in Hp as [d Hd]. exists d. split; [done|by eapply ki_pages]. Qed.

Lemma kalloc_spec s fl :
  kinv s fl →
  wp kalloc s (λ r s',
    mem s' = mem s ∧ held s' = held s ∧
    match fl with
    | [] => r = None ∧ kinv s' []
    | p :: fl' => r = Some p ∧ kinv s' fl'
    end).
Proof.
  intros Hk. pose proof Hk as [H1 H2 H3 H4 H5 H6]. unfold kalloc.
  apply wp_guarded; [done|]. wp_steps. destruct s as [m h hl]. cbn in *.
  destruct fl as [|p fl']; cbn in H3.
  - subst h. rewrite Z.eqb_refl. wp_steps. cbn. done.
  - destruct H3 as [-> H3]. pose proof (Forall_inv H5) as Hp.
    rewrite (proj2 (Z.eqb_neq _ _)) by (destruct Hp; lia). wp_step.
    destruct (ram_base p Hp) as [Hb Ho].
    assert (is_Some (m !! p)) as [d Hd] by (by apply H1).
    eapply wp_load64; [cbn; by rewrite Hb|]. wp_steps. cbn. split_and!; try done.
    rewrite Ho. split; cbn; try done.
    + unfold next_of in H3. by rewrite (lookup_total_correct _ _ _ Hd) in H3.
    + by apply NoDup_cons in H4 as [_ ?].
    + by inversion H5.
Qed.

Lemma kalloc_zeroed_spec s fl :
  kinv s fl →
  wp kalloc_zeroed s (λ r s',
    held s' = held s ∧
    match fl with
    | [] => r = None ∧ mem s' = mem s ∧ kinv s' []
    | p :: fl' => r = Some p ∧ mem s' = <[p := zero_page]> (mem s) ∧ kinv s' fl'
    end).
Proof.
  intros Hk. unfold kalloc_zeroed. wp_call kalloc_spec; [done|].
  intros r s1 (Hm & Hh & Hr). destruct fl as [|p fl']; destruct Hr as [-> Hk']; [by wp_steps|].
  pose proof (Forall_inv (ki_free _ _ Hk)) as Hp. pose proof (ki_nodup _ _ Hk) as Hnd.
  apply NoDup_cons in Hnd as [Hn _].
  wp_step. apply wp_store_page; [by apply (ki_ram _ _ Hk')|]. wp_steps. split_and!; [done|done| |].
  - cbn. by rewrite Hm.
  - by apply kinv_store; [..|apply zero_page_ok].
Qed.

Lemma kfree_spec s fl p :
  kinv s fl → ram_page p → p ∉ fl →
  wp (kfree kernel_end p) s (λ _ s',
    held s' = held s ∧ kinv s' (p :: fl) ∧ ∃ d, mem s' = <[p := d]> (mem s)).
Proof.
  intros Hk Hp Hn. destruct (ram_base p Hp) as [Hb Ho]. pose proof Hp as [Hr Hal].
  unfold kfree. wp_step. wp_step; [by apply ram_aligned|]. wp_step. wp_step; [apply Z.leb_le; lia|].
  wp_step. wp_step; [apply Z.ltb_lt; lia|]. wp_step.
  apply wp_store_page; [by apply (ki_ram _ _ Hk)|].
  apply wp_guarded; [apply Hk|]. wp_steps. destruct s as [m h hl]. cbn.
  eapply wp_store64; [cbn; rewrite Hb; apply lookup_insert_eq|]. wp_steps. cbn.
  rewrite Hb, Ho, insert_insert_eq. set (d := splice _ _ _).
  split_and!; [done|done| |by exists d].
  assert (page_ok d) as Hd.
  { apply store64_page_ok; [|simpl; lia]. split; [apply length_replicate|by apply Forall_replicate]. }
  pose proof (kinv_store _ _ _ _ Hk Hp Hn Hd) as [K1 K2 K3 K4 K5 K6]. cbn in *.
  split; cbn; try done.
  - split; [done|]. unfold next_of. rewrite lookup_total_insert_eq.
    assert (slice 0 8 d = le_bytes 8 h) as ->.
    { unfold d. rewrite <-(length_le_bytes 8 h) at 1. apply slice_splice_same.
      rewrite length_le_bytes, length_replicate. mem_lia. }
    rewrite le_val_bytes_id; [done|].
    pose proof (ki_chain _ _ Hk) as Hc. pose proof (ki_free _ _ Hk) as Hf. cbn in Hc.
    destruct fl as [|q fl]; [cbn in Hc; subst; done|]. destruct Hc as [-> _].
    apply Forall_inv in Hf as [Hq _]. mem_lia.
  - by apply NoDup_cons.
  - by apply Forall_cons.
Qed.

(** ** Main theorems *)

(** The allocator as a stack of free pages. *)
Inductive alloc_op := Alloc | Free (p : Z).

#[global] Instance ram_page_dec p : Decision (ram_page p).
Proof. unfold ram_page. apply _. Defined.

Definition spec_op (op : alloc_op) (fl : list Z) : option (option Z * list Z) :=
  match op with
  | Alloc => Some (hd_error fl, tail fl)
  | Free p => if decide (ram_page p ∧ p ∉ fl) then Some (None, p :: fl) else None
  end.

Fixpoint spec_run (ops : list alloc_op) (fl : list Z) : option (list (option Z) * list Z) :=
  match ops with
  | [] => Some ([], fl)
  | op :: ops' =>
      '(r, fl') ← spec_op op fl;
      '(rs, fl'') ← spec_run ops' fl';
      Some (r :: rs, fl'')
  end.

Definition code_op (op : alloc_op) : M machine (option Z) :=
  match op with
  | Alloc => kalloc
  | Free p => kfree kernel_end p;; mret None
  end.

Fixpoint code_run (ops : list alloc_op) : M machine (list (option Z)) :=
  match ops with
  | [] => mret []
  | op :: ops' => r ← code_op op; rs ← code_run ops'; mret (r :: rs)
  end.

Lemma code_op_spec op s fl r fl' :
  kinv s fl → spec_op op fl = Some (r, fl') →
  wp (code_op op) s (λ r' s', r' = r ∧ held s' = held s ∧ kinv s' fl').
Proof.
  intros Hk Hs. destruct op as [|p]; cbn in Hs.
  - injection Hs as <- <-. wp_call kalloc_spec; [done|]. intros r' s' (_ & Hh & Hr).
    by destruct fl as [|p fl']; destruct Hr.
  - destruct (decide (ram_page p ∧ p ∉ fl)) as [[Hp Hn]|]; [|done]. injection Hs as <- <-.
    cbn [code_op]. wp_call kfree_spec; [done|done|done|]. intros [] s' (Hh & Hk' & _). by wp_steps.
Qed.

(** C25: the allocator refines a stack of distinct free pages: every sequence of
    allocations and of frees of pages that are not free runs without fault,
    returns the pages the stack returns ([None] exactly when it is empty), and
    ends with the free list threaded through memory spelling out that stack. *)
Theorem allocator_refines_stack ops s fl rs fl' :
  kinv s fl → spec_run ops fl = Some (rs, fl') →
  wp (code_run ops) s (λ rs' s', rs' = rs ∧ held s' = held s ∧ kinv s' fl').
Proof.
  revert s fl rs fl'. induction ops as [|op ops IH]; intros s fl rs fl' Hk Hs; cbn in *.
  - injection Hs as <- <-. by wp_steps.
  - destruct (spec_op op fl) as [[r fl1]|] eqn:Hop; [|done]. cbn in Hs.
    destruct (spec_run ops fl1) as [[rs1 fl2]|] eqn:Hrun; [|done]. injection Hs as <- <-.
    wp_call code_op_spec; [done|done|]. intros r' s1 (-> & Hh & Hk1).
    wp_call IH; [done|done|]. intros rs' s2 (-> & Hh2 & Hk2). wp_steps. split_and!; [done|by etrans|done].
Qed.

(** [kfree] refuses, by a panic before touching any memory, an address that
    is not a page of the managed range. *)
Theorem kfree_rejects s p :
  0 ≤ p → ¬ ram_page p → ∃ msg, kfree kernel_end p s = Fault (Panic msg).
Proof.
  intros H0 Hn. unfold kfree, assert.
  destruct (is_page_aligned p) eqn:Ha; [|by eexists].
  destruct (Z.leb_spec kernel_end p); [|by eexists].
  destruct (Z.ltb_spec p PHYSTOP); [|by eexists].
  exfalso. apply Hn. split; [done|]. rewrite aligned_mod in Ha by done. by apply bool_decide_eq_true in Ha.
Qed.

(** [kalloc_zeroed] hands out a page that is all zeros and changes no other
    page; the page leaves the free list and cannot be handed out again. *)
Theorem kalloc_zeroed_fresh s p fl :
  kinv s (p :: fl) →
  wp kalloc_zeroed s (λ r s',
    r = Some p ∧ mem s' !! p = Some zero_page ∧ (p ∉ fl) ∧ kinv s' fl ∧
    (∀ q, q ≠ p → mem s' !! q = mem s !! q)).
Proof.
  intros Hk. wp_call kalloc_zeroed_spec; [done|]. intros r s' (_ & -> & Hm & Hk').
  pose proof (ki_nodup _ _ Hk) as Hnd. apply NoDup_cons in Hnd as [Hn _].
  rewrite Hm. split_and!; [done|apply lookup_insert_eq|done|done|].
  intros q Hq. by apply lookup_insert_ne.
Qed.

(** The pages of a range, last first. *)
Definition pages_down (lo : Z) (n : nat) : list Z :=
  (λ i, lo + PGSIZE * Z.of_nat i) <$> reverse (seq 0 n).

Lemma pages_down_S lo n : pages_down lo (S n) = (lo + PGSIZE * Z.of_nat n) :: pages_down lo n.
Proof. unfold pages_down. by rewrite seq_S, reverse_app. Qed.

Lemma elem_of_pages_down lo n p :
  p ∈ pages_down lo n ↔ ∃ i, p = lo + PGSIZE * Z.of_nat i ∧ (i < n)%nat.
Proof.
  unfold pages_down. rewrite list_elem_of_fmap. setoid_rewrite elem_of_reverse.
  setoid_rewrite elem_of_seq. split; intros (i & -> & Hi); exists i; (split; [done|]); lia.
Qed.

(** After boot the allocator owns every page between the end of the kernel
    image and the end of RAM: initialisation terminates without fault and its
    free list contains exactly these pages, each once. *)
Theorem kinit_frees_all s :
  kernel_end mod PGSIZE = 0 → kinv s [] →
  wp (kinit kernel_end) s (λ _ s', held s' = held s ∧ ∃ fl, kinv s' fl ∧ (∀ p, p ∈ fl ↔ ram_page p)).
Proof.
  intros Hal Hk. unfold kinit. wp_step.
  wp_step; [rewrite aligned_mod by lia; by apply bool_decide_eq_true|]. unfold freerange.
  set (n := Z.to_nat ((PHYSTOP - kernel_end) / PGSIZE)).
  assert (PHYSTOP - kernel_end = PGSIZE * Z.of_nat n) as Hn.
  { unfold n. rewrite Z2Nat.id by (apply Z.div_pos; mem_lia).
    rewrite <-Z_div_exact_full_2; [done|mem_lia|].
    rewrite Zminus_mod, Hal. done. }
  apply (wp_while (λ p s', held s' = held s ∧ ∃ i, p = kernel_end + PGSIZE * Z.of_nat i ∧ (i ≤ n)%nat ∧
      kinv s' (pages_down kernel_end i))
    (λ p, n - Z.to_nat ((p - kernel_end) / PGSIZE))%nat).
  - intros p s' (Hh & i & -> & Hi & Hk'). wp_steps; [mem_lia|].
    destruct (Z.leb_spec (kernel_end + PGSIZE * Z.of_nat i + PGSIZE) PHYSTOP) as [Hle|Hgt].
    + assert (ram_page (kernel_end + PGSIZE * Z.of_nat i)) as Hp.
      { split; [mem_lia|]. rewrite (Z.mul_comm PGSIZE), Z.mod_add by mem_lia. done. }
      wp_call kfree_spec; [done|done| |].
      { rewrite elem_of_pages_down. intros (j & Hj & Hlt). mem_lia. }
      intros [] s1 (Hh1 & Hk1 & _). wp_steps; [mem_lia|]. split.
      * split; [congruence|]. exists (S i). split_and!; [lia|mem_lia|]. by rewrite pages_down_S.
      * replace (kernel_end + PGSIZE * Z.of_nat i + PGSIZE - kernel_end)
          with (Z.of_nat (S i) * PGSIZE) by lia.
        replace (kernel_end + PGSIZE * Z.of_nat i - kernel_end) with (Z.of_nat i * PGSIZE) by lia.
        rewrite !Z.div_mul by mem_lia. mem_lia.
    + wp_steps. assert (i = n) as -> by mem_lia. split; [done|]. exists (pages_down kernel_end n). split; [done|].
      intros p. rewrite elem_of_pages_down. split.
      * intros (i & -> & Hlt). split; [mem_lia|]. rewrite (Z.mul_comm PGSIZE), Z.mod_add by mem_lia. done.
      * intros [Hr Hm]. exists (Z.to_nat ((p - kernel_end) / PGSIZE)).
        assert ((p - kernel_end) mod PGSIZE = 0) as Hm0 by (by rewrite Zminus_mod, Hm, Hal).
        pose proof (Z_div_exact_full_2 (p - kernel_end) PGSIZE ltac:(mem_lia) Hm0).
        assert (0 ≤ (p - kernel_end) / PGSIZE) by (apply Z.div_pos; mem_lia).
        split; mem_lia.
  - split; [done|]. exists 0%nat. split_and!; [lia|lia|done].
  - lia.
Qed.
End kalloc_proofs.

(** A machine with [n] pages of RAM, all zero and all in use. *)
Definition ram_end (n : nat) : Z := PHYSTOP - PGSIZE * Z.of_nat n.
Definition zero_machine (n : nat) : machine :=
  mkMachine (gset_to_gmap zero_page (list_to_set (pages_down (ram_end n) n))) 0 [].

Lemma ram_end_range n :
  0 < Z.of_nat n < 100000 → 0 < ram_end n ∧ ram_end n ≤ PHYSTOP ∧ ram_end n mod PGSIZE = 0.
Proof.
  intros Hn. unfold ram_end. split_and!; [mem_lia|mem_lia|].
  change PHYSTOP with (557056 * PGSIZE). rewrite (Z.mul_comm PGSIZE), <-Z.mul_sub_distr_r.
  apply Z.mod_mul. mem_lia.
Qed.

Lemma zero_ram n p :
  0 < Z.of_nat n < 100000 → ram_page (ram_end n) p ↔ p ∈ pages_down (ram_end n) n.
Proof.
  intros Hn. destruct (ram_end_range n Hn) as (H1 & H2 & H3). rewrite elem_of_pages_down. split.
  - intros [Hr Hm]. exists (Z.to_nat ((p - ram_end n) / PGSIZE)).
    assert ((p - ram_end n) mod PGSIZE = 0) as Hm0 by (by rewrite Zminus_mod, Hm, H3).
    pose proof (Z_div_exact_full_2 (p - ram_end n) PGSIZE ltac:(mem_lia) Hm0).
    assert (0 ≤ (p - ram_end n) / PGSIZE) by (apply Z.div_pos; mem_lia).
    unfold ram_end in *. split; mem_lia.
  - intros (i & -> & Hi). split; [unfold ram_end; mem_lia|].
    by rewrite (Z.mul_comm PGSIZE), Z.mod_add by mem_lia.
Qed.

Lemma zero_lookup n p :
  0 < Z.of_nat n < 100000 → ram_page (ram_end n) p → mem (zero_machine n) !! p = Some zero_page.
Proof.
  intros Hn Hp. cbn. apply lookup_gset_to_gmap_Some. split; [|done].
  apply elem_of_list_to_set. by apply zero_ram.
Qed.

Lemma zero_kinv n : 0 < Z.of_nat n < 100000 → kinv (ram_end n) (zero_machine n) [].
Proof.
  intros Hn. split; cbn.
  - intros p. rewrite zero_ram by done. split.
    + intros Hp. exists zero_page. apply lookup_gset_to_gmap_Some. by rewrite elem_of_list_to_set.
    + intros [d [Hd _]%lookup_gset_to_gmap_Some]. by apply elem_of_list_to_set in Hd.
  - intros p d [_ <-]%lookup_gset_to_gmap_Some. apply zero_page_ok.
  - done.
  - constructor.
  - constructor.
  - apply not_elem_of_nil.
Qed.

Lemma ram_end_page n i :
  0 < Z.of_nat n < 100000 → (i < n)%nat → ram_page (ram_end n) (ram_end n + PGSIZE * Z.of_nat i).
Proof. intros Hn Hi. apply zero_ram; [done|]. apply elem_of_pages_down. by exists i. Qed.

Lemma allocator_refines_stack_witness :
  let p := ram_end 2 in
  wp (code_run p [Alloc; Free p; Alloc; Alloc]) (zero_machine 2) (λ rs s',
    rs = [None; None; Some p; None] ∧ held s' = held (zero_machine 2) ∧ kinv p s' []).
Proof.
  apply (allocator_refines_stack (ram_end 2) ltac:(done) _ (zero_machine 2) []);
    [apply zero_kinv; lia|vm_compute; reflexivity].
Defined.

Lemma kfree_rejects_witness : ∃ msg, kfree (ram_end 2) (ram_end 2 + 8) (zero_machine 2) = Fault (Panic msg).
Proof.
  apply (kfree_rejects (ram_end 2) (zero_machine 2)); [done|]. intros [_ H]. by vm_compute in H.
Defined.

Lemma kalloc_zeroed_fresh_witness :
  wp (kfree (ram_end 2) (ram_end 2);; kalloc_zeroed) (zero_machine 2) (λ r s', r = Some (ram_end 2)).
Proof.
  apply wp_bind. eapply wp_mono.
  - apply (kfree_spec (ram_end 2) ltac:(done)); [apply zero_kinv; lia|done|apply not_elem_of_nil].
  - intros [] s (_ & Hk & _). eapply wp_mono.
    + apply (kalloc_zeroed_fresh (ram_end 2) ltac:(done) s (ram_end 2) [] Hk).
    + by intros r s' [-> _].
Defined.

Lemma kinit_frees_all_witness :
  wp (kinit (ram_end 2)) (zero_machine 2) (λ _ s', held s' = [] ∧
    ∃ fl, kinv (ram_end 2) s' fl ∧ (∀ p, p ∈ fl ↔ ram_page (ram_end 2) p)).
Proof.
  apply (kinit_frees_all (ram_end 2)); [done|done|done|apply zero_kinv; lia].
Defined.
