(* ===== verification/Vm.v ===== *)
(** * Virtual memory: Sv39 page tables (src/src/vm.rs)

    Page-table entries, the walk, mapping and unmapping, the copies between
    kernel and user memory, and the life cycle of user address spaces, over the
    byte-level memory of [Kalloc]. *)

From S2P Require Import Prelude Spinlock Kalloc.

(** ** Page-table entries *)

Definition PTE_V : u64 := Z.shiftl 1 0.
Definition PTE_R : u64 := Z.shiftl 1 1.
Definition PTE_W : u64 := Z.shiftl 1 2.
Definition PTE_X : u64 := Z.shiftl 1 3.
Definition PTE_U : u64 := Z.shiftl 1 4.
Definition PTE_A : u64 := Z.shiftl 1 6.
Definition PTE_D : u64 := Z.shiftl 1 7.

Definition as_u64 (z : Z) : u64 := z mod 2 ^ 64.

Definition leaf_bits (pa flags : Z) : u64 :=
  Z.lor (Z.lor (Z.lor (Z.lor (as_u64 (Z.shiftl (ppn pa) 10)) flags) PTE_V) PTE_A) PTE_D.
Definition new_leaf {St} (pa : usize) (flags : u64) : M St u64 :=
  assert (is_page_aligned pa) "new_leaf: pa not aligned";; mret (leaf_bits pa flags).

Definition table_bits (pa : Z) : u64 := Z.lor (as_u64 (Z.shiftl (ppn pa) 10)) PTE_V.
Definition new_table {St} (pa : usize) : M St u64 :=
  assert (is_page_aligned pa) "new_table: pa not aligned";; mret (table_bits pa).

Definition pte_valid (pte : u64) : bool := negb (Z.land pte PTE_V =? 0).
Definition pte_leaf (pte : u64) : bool :=
  pte_valid pte && negb (Z.land pte (Z.lor (Z.lor PTE_R PTE_W) PTE_X) =? 0).
Definition pte_pa (pte : u64) : usize :=
  let ppn := Z.land (Z.shiftr pte 10) (Z.shiftl 1 44 - 1) in
  Z.shiftl ppn 12.
Definition pte_flags (pte : u64) : u64 := Z.land pte 0x3ff.

(** ** Walking

    A [*mut PageTable] is the address of its page, a [*mut Pte] the address of
    the entry. *)

Definition pte_index (va level : Z) : usize := Z.land (Z.shiftr va (12 + 9 * level)) 0x1ff.
Definition pte_addr (pt idx : Z) : usize := pt + 8 * idx.

(** One level of [walk]: the next table, or [inr] when the walk fails. *)
Definition walk_level (va : usize) (alloc : bool) (level : Z) (pt : usize) : M machine (usize + unit) :=
  let a := pte_addr pt (pte_index va level) in
  pte ← load64 a;
  if pte_valid pte then
    if pte_leaf pte then mret (inr tt) else mret (inl (pte_pa pte))
  else if alloc then
    r ← kalloc_zeroed;
    match r with
    | None => mret (inr tt)
    | Some pa =>
        e ← new_table pa;
        store64 a e;;
        mret (inl pa)
    end
  else mret (inr tt).

Definition walk (pt va : usize) (alloc : bool) : M machine (option usize) :=
  r ← for_each [2; 1] (walk_level va alloc) pt;
  match r with
  | inr _ => mret None
  | inl pt => mret (Some (pte_addr pt (pte_index va 0)))
  end.

Definition walk_user_perm (pt va : usize) (perm : u64) : M machine (option u64) :=
  if MAXVA <=? va then mret None
  else
    r ← walk pt va false;
    match r with
    | None => mret None
    | Some a =>
        pte ← load64 a;
        if negb (pte_valid pte) then mret None
        else if Z.land pte PTE_U =? 0 then mret None
        else if negb (Z.land pte perm =? perm) then mret None
        else if negb (pte_leaf pte) then mret None
        else mret (Some pte)
    end.

(** ** Mapping *)

Definition mappages (pt va size pa : usize) (flags : u64) : M machine (option unit) :=
  assert (is_page_aligned va) "mappages: va not aligned";;
  assert (is_page_aligned pa) "mappages: pa not aligned";;
  assert (0 <? size) "assertion failed: size > 0";;
  e ← add_at USIZE_MAX va size;
  last ← page_round_up e;
  while_fuel (S (Z.to_nat ((last - va) / PGSIZE))) (λ '(va, pa),
    if va <? last then
      r ← walk pt va true;
      match r with
      | None => mret (inr None)
      | Some a =>
          pte ← load64 a;
          if pte_valid pte then mret (inr None)
          else
            e ← new_leaf pa flags;
            store64 a e;;
            va ← add_at USIZE_MAX va PGSIZE;
            pa ← add_at USIZE_MAX pa PGSIZE;
            mret (inl (va, pa))
      end
    else mret (inr (Some tt))) (va, pa).

Definition SATP_MODE_SV39 : u64 := 8.
Definition make_satp (root : usize) : u64 :=
  Z.lor (as_u64 (Z.shiftl SATP_MODE_SV39 60)) (Z.shiftr root 12).

(** ** Copies between kernel buffers and user memory *)

(** [src_va.checked_add(done)?], and the bound check that follows it *)
Definition user_addr (va done : usize) : option usize :=
  match checked USIZE_MAX (va + done) with
  | None => None
  | Some a => if MAXVA <=? a then None else Some a
  end.

Definition copyin (pt : usize) (dst : list u8) (src_va : usize) : M machine (option unit * list u8) :=
  let len := Z.of_nat (length dst) in
  while_fuel (S (length dst)) (λ '(done, dst),
    if done <? len then
      match user_addr src_va done with
      | None => mret (inr (None, dst))
      | Some va =>
          let va_page := page_round_down va in
          let off := va - va_page in
          let n := Z.min (PGSIZE - off) (len - done) in
          r ← walk_user_perm pt va_page PTE_R;
          match r with
          | None => mret (inr (None, dst))
          | Some pte =>
              d ← load_page (pte_pa pte);
              src ← subslice d off n;
              dst ← copy_into dst done src;
              done ← add_at USIZE_MAX done n;
              mret (inl (done, dst))
          end
      end
    else mret (inr (Some tt, dst))) (0, dst).

(** The byte loop of [copyinstr] over the part of a page: the terminator's
    position, if it is found. *)
Definition copy_string (d : list u8) (off done n : usize) (dst : list u8) :
  M machine (list u8 + usize * list u8) :=
  for_each (range 0 n) (λ i dst,
    b ← aget d (off + i);
    dst ← copy_into dst (done + i) [b];
    if b =? 0 then mret (inr (done + i, dst)) else mret (inl dst)) dst.

Definition copyinstr (pt : usize) (dst : list u8) (src_va : usize) :
  M machine (option usize * list u8) :=
  let len := Z.of_nat (length dst) in
  while_fuel (S (length dst)) (λ '(done, dst),
    if done <? len then
      match user_addr src_va done with
      | None => mret (inr (None, dst))
      | Some va =>
          let va_page := page_round_down va in
          let off := va - va_page in
          let n := Z.min (PGSIZE - off) (len - done) in
          r ← walk_user_perm pt va_page PTE_R;
          match r with
          | None => mret (inr (None, dst))
          | Some pte =>
              d ← load_page (pte_pa pte);
              r ← copy_string d off done n dst;
              match r with
              | inr (i, dst) => mret (inr (Some i, dst))
              | inl dst =>
                  done ← add_at USIZE_MAX done n;
                  mret (inl (done, dst))
              end
          end
      end
    else mret (inr (None, dst))) (0, dst).

Definition copyout (pt dst_va : usize) (src : list u8) : M machine (option unit) :=
  let len := Z.of_nat (length src) in
  while_fuel (S (length src)) (λ done,
    if done <? len then
      match user_addr dst_va done with
      | None => mret (inr None)
      | Some va =>
          let va_page := page_round_down va in
          let off := va - va_page in
          let n := Z.min (PGSIZE - off) (len - done) in
          r ← walk_user_perm pt va_page PTE_W;
          match r with
          | None => mret (inr None)
          | Some pte =>
              chunk ← subslice src done n;
              d ← load_page (pte_pa pte);
              d ← copy_into d off chunk;
              store_page (pte_pa pte) d;;
              done ← add_at USIZE_MAX done n;
              mret (inl done)
          end
      end
    else mret (inr (Some tt))) 0.

(** ** User address spaces *)

Section vm.
(** Linker symbols. *)
Context (kernel_end trampoline_start etext erodata : usize).

Definition kvmmap (pt va_pa size : usize) (flags : u64) : M machine unit :=
  r ← mappages pt va_pa size va_pa flags;
  expect r "called `Option::unwrap()` on a `None` value".

Definition kvmmap_range (pt start e : usize) (flags : u64) : M machine unit :=
  n ← sub_at USIZE_MAX e start; kvmmap pt start n flags.

Definition kvmmake : M machine usize :=
  r ← kalloc_zeroed;
  pt ← expect r "kvmmake: out of memory";
  kvmmap pt UART0 PGSIZE (Z.lor PTE_R PTE_W);;
  kvmmap pt CLINT 0x10000 (Z.lor PTE_R PTE_W);;
  kvmmap pt PLIC 0x400000 (Z.lor PTE_R PTE_W);;
  kvmmap_range pt KERNBASE etext (Z.lor PTE_R PTE_X);;
  kvmmap_range pt etext erodata PTE_R;;
  kvmmap_range pt erodata PHYSTOP (Z.lor PTE_R PTE_W);;
  r ← mappages pt TRAMPOLINE PGSIZE trampoline_start (Z.lor PTE_R PTE_X);
  expect r "called `Option::unwrap()` on a `None` value";;
  mret pt.

Definition uvmcreate : M machine (option usize) := kalloc_zeroed.

Definition uvmunmap (pt va npages : usize) (do_free : bool) : M machine unit :=
  assert (is_page_aligned va) "uvmunmap: va not aligned";;
  assert (0 <? npages) "uvmunmap: npages must be positive";;
  for_fold (range 0 npages) (λ i _,
    o ← mul_at USIZE_MAX i PGSIZE;
    a ← add_at USIZE_MAX va o;
    r ← walk pt a false;
    p ← expect r "uvmunmap: walk";
    pte ← load64 p;
    if negb (pte_valid pte) then panic "uvmunmap: not mapped"
    else if negb (pte_leaf pte) then panic "uvmunmap: not leaf"
    else
      (if do_free then kfree kernel_end (pte_pa pte) else mret tt);;
      store64 p 0) tt.

(** Sv39 tables are three levels deep. *)
Fixpoint freewalk_fuel (fuel : nat) (pt : usize) : M machine unit :=
  match fuel with
  | O => raise OutOfFuel
  | S fuel' =>
      for_fold (range 0 512) (λ idx _,
        pte ← load64 (pte_addr pt idx);
        if pte_valid pte && negb (pte_leaf pte) then
          freewalk_fuel fuel' (pte_pa pte);;
          store64 (pte_addr pt idx) 0
        else if pte_leaf pte then panic "freewalk: leaf"
        else mret tt) tt;;
      kfree kernel_end pt
  end.
Definition freewalk : usize → M machine unit := freewalk_fuel 3.

Definition proc_pagetable (trapframe : usize) : M machine (option usize) :=
  r ← uvmcreate;
  match r with
  | None => mret None
  | Some pt =>
      r ← mappages pt TRAMPOLINE PGSIZE trampoline_start (Z.lor PTE_R PTE_X);
      match r with
      | None => freewalk pt;; mret None
      | Some _ =>
          r ← mappages pt TRAPFRAME PGSIZE trapframe (Z.lor PTE_R PTE_W);
          match r with
          | None =>
              uvmunmap pt TRAMPOLINE 1 false;;
              freewalk pt;;
              mret None
          | Some _ => mret (Some pt)
          end
      end
  end.

Definition uvmfree (pt sz : usize) : M machine unit :=
  e ← page_round_up sz;
  let npages := e / PGSIZE in
  (if 0 <? sz then uvmunmap pt 0 npages true else mret tt);;
  freewalk pt.

Definition proc_freepagetable (pt sz : usize) : M machine unit :=
  uvmunmap pt TRAMPOLINE 1 false;;
  uvmunmap pt TRAPFRAME 1 false;;
  r ← walk_user_perm pt USER_STACK 0;
  (match r with
   | Some _ => uvmunmap pt USER_STACK 1 true
   | None => mret tt
   end);;
  uvmfree pt sz.

(** One page of [uvmcopy]. *)
Definition uvmcopy_page (old new : usize) (i : Z) (_ : unit) : M machine (unit + unit) :=
  a ← mul_at USIZE_MAX i PGSIZE;
  r ← walk_user_perm old a 0;
  pte ← expect r "uvmcopy: pte not found";
  r ← kalloc_zeroed;
  match r with
  | None =>
      (if 0 <? i then uvmunmap new 0 i true else mret tt);;
      mret (inr tt)
  | Some dst_pa =>
      d ← load_page (pte_pa pte);
      store_page dst_pa d;;
      r ← mappages new a PGSIZE dst_pa (pte_flags pte);
      match r with
      | None =>
          kfree kernel_end dst_pa;;
          (if 0 <? i then uvmunmap new 0 i true else mret tt);;
          mret (inr tt)
      | Some _ => mret (inl tt)
      end
  end.

Definition uvmcopy (old new sz : usize) : M machine (option unit) :=
  e ← page_round_up sz;
  let npages := e / PGSIZE in
  r ← for_each (range 0 npages) (uvmcopy_page old new) tt;
  match r with
  | inl _ => mret (Some tt)
  | inr _ => mret None
  end.

Definition uvmcopy_stack (old new : usize) : M machine (option unit) :=
  r ← walk_user_perm old USER_STACK 0;
  match r with
  | None => mret None
  | Some pte =>
      r ← kalloc_zeroed;
      match r with
      | None => mret None
      | Some new_sp_pa =>
          d ← load_page (pte_pa pte);
          store_page new_sp_pa d;;
          r ← mappages new USER_STACK PGSIZE new_sp_pa (Z.lor (Z.lor PTE_U PTE_R) PTE_W);
          match r with
          | None => kfree kernel_end new_sp_pa;; mret None
          | Some _ => mret (Some tt)
          end
      end
  end.

(** One iteration of the loop of [uvmalloc]. *)
Definition uvmalloc_page (pt a0 a1 a : usize) : M machine (usize + option unit) :=
  if a <? a1 then
    r ← kalloc_zeroed;
    match r with
    | None => mret (inr None)
    | Some pa =>
        r ← mappages pt a PGSIZE pa (Z.lor (Z.lor PTE_U PTE_R) PTE_W);
        match r with
        | None =>
            kfree kernel_end pa;;
            (if a0 <? a then uvmunmap pt a0 ((a - a0) / PGSIZE) true else mret tt);;
            mret (inr None)
        | Some _ =>
            a ← add_at USIZE_MAX a PGSIZE;
            mret (inl a)
        end
    end
  else mret (inr (Some tt)).

Definition uvmalloc (pt oldsz newsz : usize) : M machine (option unit) :=
  a0 ← page_round_up oldsz;
  a1 ← page_round_up newsz;
  while_fuel (S (Z.to_nat ((a1 - a0) / PGSIZE))) (uvmalloc_page pt a0 a1) a0.
End vm.

(** ** Bits of page-table entries *)

Ltac pte_consts :=
  change PTE_V with 1 in *; change PTE_R with 2 in *; change PTE_W with 4 in *;
  change PTE_X with 8 in *; change PTE_U with 16 in *; change PTE_A with 64 in *;
  change PTE_D with 128 in *; mem_consts.

Definition page_addr (p : Z) : Prop := 0 ≤ p < 2 ^ 56 ∧ p mod PGSIZE = 0.

Lemma page_addr_eq p : page_addr p → p = 4096 * (p / 4096) ∧ 0 ≤ p / 4096 < 2 ^ 44.
Proof.
  intros [Hp Hm]. mem_consts. split; [apply Z_div_exact_full_2; lia|].
  change (2 ^ 56) with (4096 * 2 ^ 44) in Hp.
  split; [apply Z.div_pos; lia|apply Z.div_lt_upper_bound; lia].
Qed.

(** An entry is a page number above ten flag bits. *)
Lemma lor_flags n f : 0 ≤ n → 0 ≤ f < 1024 → Z.lor (Z.shiftl n 10) f = 1024 * n + f.
Proof.
  intros Hn Hf. rewrite Z.shiftl_mul_pow2 by lia. change (2 ^ 10) with 1024.
  assert (Z.land (n * 1024) f = 0) as Hland.
  { apply Z.bits_inj'. intros i Hi. rewrite Z.land_spec, Z.bits_0. change 1024 with (2 ^ 10).
    destruct (Z_lt_ge_dec i 10).
    - by rewrite Z.mul_pow2_bits_low by lia.
    - rewrite (Z.bits_above_log2 f i); [apply andb_false_r|lia|].
      destruct (Z.eq_dec f 0) as [->|]; [simpl; lia|].
      assert (Z.log2 f < 10); [|lia]. apply Z.log2_lt_pow2; lia. }
  pose proof (Z.add_lor_land (n * 1024) f). lia.
Qed.

Lemma entry_land n f c :
  0 ≤ n → 0 ≤ f < 1024 → 0 ≤ c < 1024 → Z.land (1024 * n + f) c = Z.land f c.
Proof.
  intros Hn Hf Hc. assert (c = Z.land (Z.ones 10) c) as ->.
  { rewrite Z.land_comm, Z.land_ones by lia. symmetry. apply Z.mod_small. done. }
  rewrite !Z.land_assoc, !Z.land_ones by lia. change (2 ^ 10) with 1024.
  rewrite Z.add_comm, (Z.mul_comm 1024), Z.mod_add by lia. done.
Qed.

Lemma entry_pa n f : 0 ≤ n < 2 ^ 44 → 0 ≤ f < 1024 → pte_pa (1024 * n + f) = 4096 * n.
Proof.
  intros Hn Hf. unfold pte_pa. rewrite Z.shiftr_div_pow2 by lia. change (2 ^ 10) with 1024.
  rewrite Z.add_comm, (Z.mul_comm 1024), Z.div_add, (Z.div_small f) by lia.
  change (Z.shiftl 1 44 - 1) with (Z.ones 44). rewrite Z.land_ones, Z.shiftl_mul_pow2 by lia.
  rewrite Z.mod_small by lia. change (2 ^ 12) with 4096. lia.
Qed.

Lemma lor_bound n a b : 0 ≤ n → 0 ≤ a < 2 ^ n → 0 ≤ b < 2 ^ n → 0 ≤ Z.lor a b < 2 ^ n.
Proof.
  intros Hn Ha Hb. assert (0 ≤ Z.lor a b) as H0 by (apply Z.lor_nonneg; lia). split; [done|].
  apply Z.bounded_iff_bits_nonneg; [done|done|]. intros i Hi. rewrite Z.lor_spec.
  rewrite (proj1 (Z.bounded_iff_bits_nonneg n a Hn (proj1 Ha)) (proj2 Ha) i Hi).
  by rewrite (proj1 (Z.bounded_iff_bits_nonneg n b Hn (proj1 Hb)) (proj2 Hb) i Hi).
Qed.

(** The flag bits of a leaf. *)
Definition leaf_flags (flags : Z) : Z := Z.lor (Z.lor (Z.lor flags PTE_V) PTE_A) PTE_D.

Lemma leaf_flags_bound flags : 0 ≤ flags < 1024 → 0 ≤ leaf_flags flags < 1024.
Proof.
  intros Hf. unfold leaf_flags. change 1024 with (2 ^ 10). repeat apply lor_bound; try done.
Qed.

Lemma ppn_shift p : page_addr p → as_u64 (Z.shiftl (ppn p) 10) = Z.shiftl (p / 4096) 10.
Proof.
  intros Hp. destruct (page_addr_eq p Hp) as [_ Hn]. unfold ppn, as_u64.
  rewrite Z.shiftr_div_pow2 by mem_lia. change (2 ^ PGSHIFT) with 4096.
  apply Z.mod_small. rewrite Z.shiftl_mul_pow2 by lia. change (2 ^ 10) with 1024.
  change (2 ^ 64) with (2 ^ 44 * 2 ^ 20). change (2 ^ 20) with 1048576. nia.
Qed.

Lemma table_bits_eq p : page_addr p → table_bits p = 1024 * (p / 4096) + 1.
Proof.
  intros Hp. unfold table_bits. rewrite ppn_shift by done. destruct (page_addr_eq p Hp) as [_ Hn].
  apply lor_flags; lia.
Qed.

Lemma leaf_bits_eq p flags :
  page_addr p → 0 ≤ flags < 1024 → leaf_bits p flags = 1024 * (p / 4096) + leaf_flags flags.
Proof.
  intros Hp Hf. unfold leaf_bits. rewrite ppn_shift by done. destruct (page_addr_eq p Hp) as [_ Hn].
  rewrite <-!Z.lor_assoc. rewrite lor_flags; [|lia|].
  - unfold leaf_flags. by rewrite <-!Z.lor_assoc.
  - pose proof (leaf_flags_bound flags Hf) as Hb. unfold leaf_flags in Hb. by rewrite <-!Z.lor_assoc in Hb.
Qed.

Lemma table_entry p :
  page_addr p →
  pte_valid (table_bits p) = true ∧ pte_leaf (table_bits p) = false ∧
  pte_pa (table_bits p) = p ∧ 0 ≤ table_bits p < 256 ^ 8.
Proof.
  intros Hp. rewrite table_bits_eq by done. destruct (page_addr_eq p Hp) as [Heq Hn].
  assert (pte_valid (1024 * (p / 4096) + 1) = true) as Hv.
  { unfold pte_valid. pte_consts. by rewrite entry_land by lia. }
  split_and!; [done| | | |].
  - unfold pte_leaf. rewrite Hv. change (Z.lor (Z.lor PTE_R PTE_W) PTE_X) with 14.
    by rewrite entry_land by lia.
  - rewrite entry_pa by lia. lia.
  - lia.
  - change (256 ^ 8) with (2 ^ 44 * 1048576). lia.
Qed.

Lemma leaf_entry p flags :
  page_addr p → 0 ≤ flags < 1024 →
  pte_valid (leaf_bits p flags) = true ∧
  pte_pa (leaf_bits p flags) = p ∧
  pte_flags (leaf_bits p flags) = leaf_flags flags ∧
  pte_leaf (leaf_bits p flags) = negb (Z.land flags 14 =? 0) ∧
  0 ≤ leaf_bits p flags < 256 ^ 8.
Proof.
  intros Hp Hf. pose proof (leaf_flags_bound flags Hf) as Hb.
  rewrite leaf_bits_eq by done. destruct (page_addr_eq p Hp) as [Heq Hn].
  assert (pte_valid (1024 * (p / 4096) + leaf_flags flags) = true) as Hv.
  { unfold pte_valid. pte_consts. rewrite entry_land by lia. unfold leaf_flags. pte_consts.
    rewrite !Z.land_lor_distr_l. change (Z.land 1 1) with 1. change (Z.land 64 1) with 0.
    change (Z.land 128 1) with 0. rewrite !Z.lor_0_r. apply negb_true_iff, Z.eqb_neq.
    intros H0. apply (f_equal (λ z, Z.testbit z 0)) in H0. by rewrite Z.lor_spec, orb_true_r in H0. }
  split_and!; [done| | | | |].
  - rewrite entry_pa by lia. lia.
  - unfold pte_flags. rewrite entry_land by lia. change 1023 with (Z.ones 10).
    rewrite Z.land_ones by lia. by apply Z.mod_small.
  - unfold pte_leaf. rewrite Hv. change (Z.lor (Z.lor PTE_R PTE_W) PTE_X) with 14.
    rewrite entry_land by lia. unfold leaf_flags. pte_consts. rewrite !Z.land_lor_distr_l.
    change (Z.land 1 14) with 0. change (Z.land 64 14) with 0. change (Z.land 128 14) with 0.
    by rewrite !Z.lor_0_r.
  - lia.
  - change (256 ^ 8) with (2 ^ 44 * 1048576). lia.
Qed.
