(* ===== verification/PageTable.v ===== *)
(** * Page-table trees (src/src/vm.rs)

    A page table in memory is represented by a tree [ptree]: its table pages and
    its leaf entries by virtual page number.  The walk, [mappages] and
    [uvmunmap] are specified on that representation, together with the pages
    they take from and give to the allocator. *)

From S2P Require Import Prelude Spinlock Kalloc Vm.

(** ** Entries in memory *)

(** Entry [i] of the table page [p]. *)
Definition entry (m : gmap Z (list u8)) (p i : Z) : Z := le_val (slice (Z.to_nat (8 * i)) 8 (m !!! p)).
Definition set_entry (m : gmap Z (list u8)) (p i v : Z) : gmap Z (list u8) :=
  <[p := splice (Z.to_nat (8 * i)) (le_bytes 8 v) (m !!! p)]> m.

Definition is_idx (i : Z) : Prop := 0 ≤ i < 512.

Lemma entry_addr p i : p mod PGSIZE = 0 → is_idx i → pbase (pte_addr p i) = p ∧ poff (pte_addr p i) = 8 * i.
Proof.
  unfold is_idx, pbase, poff, pte_addr. mem_consts. intros Hp Hi.
  assert ((p + 8 * i) mod 4096 = 8 * i) as ->; [|lia].
  rewrite Z.add_mod, Hp by lia. rewrite Z.add_0_l, Z.mod_mod by lia. apply Z.mod_small. lia.
Qed.

Lemma entry_set m p i v q j d :
  m !! p = Some d → page_ok d → is_idx i → is_idx j → 0 ≤ v < 256 ^ 8 →
  entry (set_entry m p i v) q j = if decide (p = q ∧ i = j) then v else entry m q j.
Proof.
  intros Hd [Hl _] Hi Hj Hv. unfold entry, set_entry, is_idx in *.
  rewrite (lookup_total_correct _ _ _ Hd). mem_consts.
  destruct (decide (p = q)) as [<-|Hne].
  - rewrite lookup_total_insert_eq, (lookup_total_correct _ _ _ Hd).
    destruct (decide (i = j)) as [<-|Hij].
    + rewrite decide_True by done. rewrite <-(length_le_bytes 8 v) at 1. rewrite slice_splice_same.
      * by apply le_val_bytes_id.
      * rewrite length_le_bytes. lia.
    + rewrite decide_False by tauto. f_equal. apply slice_splice_other; rewrite ?length_le_bytes; lia.
  - rewrite lookup_total_insert_ne by done. by rewrite decide_False by tauto.
Qed.

Lemma entry_zero_page m p i : m !! p = Some zero_page → is_idx i → entry m p i = 0.
Proof.
  intros Hd Hi. unfold entry. rewrite (lookup_total_correct _ _ _ Hd). unfold zero_page, slice.
  rewrite drop_replicate, take_replicate.
  assert (∀ n, le_val (replicate n 0) = 0) as H by (intros n; induction n; simpl; lia). apply H.
Qed.

Section page_table.
Context (kernel_end : usize) (Hend_pos : 0 < kernel_end) (Hend_max : kernel_end ≤ PHYSTOP).

Local Abbreviation ram_page := (ram_page kernel_end).
Local Abbreviation kinv := (kinv kernel_end).

Lemma ram_page_addr p : ram_page p → page_addr p.
Proof. intros [Hr Hm]. split; [|done]. change (2 ^ 56) with 72057594037927936. mem_lia. Qed.

Lemma wp_load_entry s fl p i Q :
  kinv s fl → ram_page p → is_idx i → Q (entry (mem s) p i) s → wp (load64 (pte_addr p i)) s Q.
Proof.
  intros Hk Hp Hi HQ. destruct (entry_addr p i (proj2 Hp) Hi) as [Hb Ho].
  destruct (kinv_lookup _ _ _ _ Hk Hp) as (d & Hd & _).
  eapply wp_load64; [by rewrite Hb|]. rewrite Ho. unfold entry in HQ.
  by rewrite (lookup_total_correct _ _ _ Hd) in HQ.
Qed.

Lemma wp_store_entry s fl p i v Q :
  kinv s fl → ram_page p → p ∉ fl → is_idx i →
  (kinv (set_mem (set_entry (mem s) p i v) s) fl → Q tt (set_mem (set_entry (mem s) p i v) s)) →
  wp (store64 (pte_addr p i) v) s Q.
Proof.
  intros Hk Hp Hn Hi HQ. destruct (entry_addr p i (proj2 Hp) Hi) as [Hb Ho].
  destruct (kinv_lookup _ _ _ _ Hk Hp) as (d & Hd & Hdok).
  eapply wp_store64; [by rewrite Hb|]. rewrite Hb, Ho. unfold set_entry in HQ.
  rewrite (lookup_total_correct _ _ _ Hd) in HQ. apply HQ. apply kinv_store; [done..|].
  apply store64_page_ok; [done|]. unfold is_idx in Hi. lia.
Qed.

(** ** Page-table trees

    [T1] and [T0] give the table pages of levels 1 and 0 by the virtual page
    number bits that lead to them, [L] the leaf entries by virtual page
    number. *)
Record ptree := mkPtree { pt_root : Z; T1 : gmap Z Z; T0 : gmap Z Z; L : gmap Z Z }.

Definition tables (T : ptree) : list Z := pt_root T :: (map_to_list (T1 T)).*2 ++ (map_to_list (T0 T)).*2.

Definition opt_table (o : option Z) : Z := from_option table_bits 0 o.

Record pt_ok (m : gmap Z (list u8)) (T : ptree) : Prop := {
  po_root i : is_idx i → entry m (pt_root T) i = opt_table (T1 T !! i);
  po_mid i p j : T1 T !! i = Some p → is_idx j → entry m p j = opt_table (T0 T !! (512 * i + j));
  po_low k q l : T0 T !! k = Some q → is_idx l → entry m q l = default 0 (L T !! (512 * k + l));
  po_dom1 i p : T1 T !! i = Some p → is_idx i;
  po_dom0 k q : T0 T !! k = Some q → is_Some (T1 T !! (k / 512));
  po_domL v e : L T !! v = Some e → is_Some (T0 T !! (v / 512));
  po_leaf v e : L T !! v = Some e → pte_leaf e = true ∧ 0 ≤ e < 256 ^ 8;
}.

(** A page-table tree beside the free list. *)
Record pt_own (s : machine) (T : ptree) (fl : list Z) : Prop := {
  pw_kinv : kinv s fl;
  pw_ok : pt_ok (mem s) T;
  pw_ram : Forall ram_page (tables T);
  pw_nodup : NoDup (tables T ++ fl);
}.

Lemma in_root T : pt_root T ∈ tables T.
Proof. by left. Qed.

Lemma in_T1 T i p : T1 T !! i = Some p → p ∈ tables T.
Proof.
  intros Hi. right. apply elem_of_app. left. apply list_elem_of_fmap. exists (i, p).
  split; [done|]. by apply elem_of_map_to_list.
Qed.

Lemma in_T0 T k q : T0 T !! k = Some q → q ∈ tables T.
Proof.
  intros Hk. right. apply elem_of_app. right. apply list_elem_of_fmap. exists (k, q).
  split; [done|]. by apply elem_of_map_to_list.
Qed.

Lemma own_page s T fl p : pt_own s T fl → p ∈ tables T → ram_page p ∧ p ∉ fl.
Proof.
  intros [Hk _ Hr Hnd] Hp. rewrite Forall_forall in Hr. split; [by apply Hr|].
  apply NoDup_app in Hnd as (_ & Hd & _). by apply Hd.
Qed.

(** Virtual page number and table indices of an address. *)
Definition vpn (va : Z) : Z := va / 4096.

Lemma index_0 va : 0 ≤ va < 2 ^ 39 → pte_index va 0 = vpn va mod 512.
Proof.
  intros Hva. unfold pte_index, vpn. rewrite Z.shiftr_div_pow2 by lia. change (2 ^ (12 + 9 * 0)) with 4096.
  change 511 with (Z.ones 9). by rewrite Z.land_ones by lia.
Qed.

Lemma index_1 va : 0 ≤ va < 2 ^ 39 → pte_index va 1 = vpn va / 512 mod 512.
Proof.
  intros Hva. unfold pte_index, vpn. rewrite Z.shiftr_div_pow2 by lia.
  change (2 ^ (12 + 9 * 1)) with (4096 * 512). rewrite <-Z.div_div by lia.
  change 511 with (Z.ones 9). by rewrite Z.land_ones by lia.
Qed.

Lemma index_2 va : 0 ≤ va < 2 ^ 39 → pte_index va 2 = vpn va / 512 / 512 ∧ is_idx (vpn va / 512 / 512).
Proof.
  intros Hva. unfold pte_index, vpn, is_idx. rewrite Z.shiftr_div_pow2 by lia.
  change (2 ^ (12 + 9 * 2)) with (4096 * 512 * 512). rewrite <-!Z.div_div by lia.
  change 511 with (Z.ones 9). rewrite Z.land_ones by lia. change (2 ^ 9) with 512.
  assert (0 ≤ va / 4096 / 512 / 512 < 512).
  { split; [repeat apply Z.div_pos; lia|]. do 3 (apply Z.div_lt_upper_bound; [lia|]).
    change (2 ^ 39) with 549755813888 in Hva. lia. }
  split; [|done]. by apply Z.mod_small.
Qed.

Lemma is_idx_mod z : is_idx (z mod 512).
Proof. apply Z.mod_pos_bound. lia. Qed.

Lemma split_512 z : 512 * (z / 512) + z mod 512 = z.
Proof. symmetry. apply Z.div_mod. lia. Qed.

(** ** Distinct table pages *)

Lemma map_values_inj (m : gmap Z Z) i j p :
  NoDup (map_to_list m).*2 → m !! i = Some p → m !! j = Some p → i = j.
Proof.
  intros Hnd Hi Hj. destruct (decide (i = j)) as [|Hne]; [done|exfalso].
  rewrite <-(insert_delete_id m i p Hi), map_to_list_insert in Hnd by apply lookup_delete_eq.
  apply NoDup_cons in Hnd as [Hn _]. apply Hn. apply list_elem_of_fmap. exists (j, p).
  split; [done|]. apply elem_of_map_to_list. by rewrite lookup_delete_ne.
Qed.

Lemma tables_distinct s T fl :
  pt_own s T fl →
  (∀ i p, T1 T !! i = Some p → p ≠ pt_root T) ∧
  (∀ k q, T0 T !! k = Some q → q ≠ pt_root T) ∧
  (∀ i j p, T1 T !! i = Some p → T1 T !! j = Some p → i = j) ∧
  (∀ i j p, T0 T !! i = Some p → T0 T !! j = Some p → i = j) ∧
  (∀ i k p q, T1 T !! i = Some p → T0 T !! k = Some q → p ≠ q).
Proof.
  intros [_ _ _ Hnd]. apply NoDup_app in Hnd as (Hnd & _ & _).
  unfold tables in Hnd. apply NoDup_cons in Hnd as [Hr Hnd].
  rewrite not_elem_of_app in Hr. destruct Hr as [Hr1 Hr0].
  apply NoDup_app in Hnd as (H1 & Hd & H0).
  assert (∀ (m : gmap Z Z) i p, m !! i = Some p → p ∈ (map_to_list m).*2) as Hin.
  { intros m i p Hi. apply list_elem_of_fmap. exists (i, p). by rewrite elem_of_map_to_list. }
  split_and!.
  - intros i p Hi ->. by apply Hr1, (Hin _ i).
  - intros k q Hk ->. by apply Hr0, (Hin _ k).
  - intros i j p. by apply map_values_inj.
  - intros i j p. by apply map_values_inj.
  - intros i k p q Hi Hk ->. apply (Hd q); [by apply (Hin _ i)|by apply (Hin _ k)].
Qed.

(** ** One level of the walk *)

Lemma walk_level_hit s fl va alloc level p i q Q :
  kinv s fl → ram_page p → pte_index va level = i → is_idx i →
  entry (mem s) p i = table_bits q → ram_page q →
  Q (inl q) s → wp (walk_level va alloc level p) s Q.
Proof.
  intros Hk Hp Hix Hi He Hq HQ. unfold walk_level. rewrite Hix. wp_step.
  eapply wp_load_entry; [done..|]. rewrite He.
  destruct (table_entry q (ram_page_addr q Hq)) as (-> & -> & -> & _). by wp_steps.
Qed.

Lemma walk_level_miss s fl va level p i Q :
  kinv s fl → ram_page p → pte_index va level = i → is_idx i → entry (mem s) p i = 0 →
  Q (inr tt) s → wp (walk_level va false level p) s Q.
Proof.
  intros Hk Hp Hix Hi He HQ. unfold walk_level. rewrite Hix. wp_step.
  eapply wp_load_entry; [done..|]. rewrite He. by wp_steps.
Qed.

Lemma walk_level_grow s fl va level p i :
  kinv s fl → ram_page p → p ∉ fl → pte_index va level = i → is_idx i → entry (mem s) p i = 0 →
  wp (walk_level va true level p) s (λ r s',
    held s' = held s ∧
    match fl with
    | [] => r = inr tt ∧ mem s' = mem s ∧ kinv s' []
    | q :: fl' => r = inl q ∧ kinv s' fl' ∧
        mem s' = set_entry (<[q := zero_page]> (mem s)) p i (table_bits q)
    end).
Proof.
  intros Hk Hp Hn Hix Hi He. unfold walk_level. rewrite Hix. wp_step.
  eapply wp_load_entry; [done..|]. rewrite He. change (pte_valid 0) with false. cbn match.
  wp_call (kalloc_zeroed_spec kernel_end); [done|done|]. intros r s1 (Hh & Hr).
  destruct fl as [|q fl']; destruct Hr as (-> & Hm & Hk1); [by wp_steps|].
  apply not_elem_of_cons in Hn as [Hne Hn].
  pose proof (Forall_inv (ki_free _ _ _ Hk)) as Hq.
  wp_step. unfold new_table. wp_step. wp_step; [by eapply ram_aligned|]. wp_steps.
  eapply wp_store_entry; [done..|]. intros Hk2. wp_steps. split_and!; [done|done|done|]. by rewrite <-Hm.
Qed.

(** Memory after a new table page [q] is hooked into entry [i] of [p]. *)
Lemma entry_hook m p i q v d r j :
  m !! p = Some d → page_ok d → p ≠ q → is_idx i → is_idx j → 0 ≤ v < 256 ^ 8 →
  entry (set_entry (<[q := zero_page]> m) p i v) r j =
    if decide (p = r ∧ i = j) then v else if decide (r = q) then 0 else entry m r j.
Proof.
  intros Hd Hok Hne Hi Hj Hv. rewrite (entry_set _ _ _ _ _ _ d); try done.
  2: { by rewrite lookup_insert_ne. }
  destruct (decide (p = r ∧ i = j)); [done|]. destruct (decide (r = q)) as [->|Hr].
  - apply entry_zero_page; [apply lookup_insert_eq|done].
  - unfold entry. by rewrite lookup_total_insert_ne.
Qed.

Lemma walk_read s T fl va :
  pt_own s T fl → 0 ≤ va < 2 ^ 39 →
  wp (walk (pt_root T) va false) s (λ r s', s' = s ∧
    r = (λ q, pte_addr q (vpn va mod 512)) <$> T0 T !! (vpn va / 512)).
Proof.
  intros Hown Hva. pose proof Hown as [Hk Hok _ _]. destruct (index_2 va Hva) as [Hi2 Hb2].
  pose proof (index_1 va Hva) as Hi1. pose proof (index_0 va Hva) as Hi0.
  set (k := vpn va / 512) in *.
  destruct (own_page _ _ _ _ Hown (in_root T)) as [Hroot _].
  unfold walk. wp_step. cbn [for_each]. wp_step.
  destruct (T1 T !! (k / 512)) as [p|] eqn:H1.
  - destruct (own_page _ _ _ _ Hown (in_T1 _ _ _ H1)) as [Hp _].
    eapply walk_level_hit; [done|done|done|done| |done|].
    { rewrite (po_root _ _ Hok) by done. by rewrite H1. }
    cbn match. wp_step.
    pose proof (po_mid _ _ Hok _ _ (k mod 512) H1 (is_idx_mod k)) as He.
    rewrite split_512 in He. destruct (T0 T !! k) as [q|] eqn:H0.
    + destruct (own_page _ _ _ _ Hown (in_T0 _ _ _ H0)) as [Hq _].
      eapply walk_level_hit; [done|done|done|apply is_idx_mod|done|done|].
      wp_steps. by rewrite Hi0.
    + eapply walk_level_miss; [done|done|done|apply is_idx_mod|done|]. by wp_steps.
  - assert (T0 T !! k = None) as ->.
    { destruct (T0 T !! k) eqn:H0; [|done]. apply (po_dom0 _ _ Hok) in H0 as [? ?]. congruence. }
    eapply walk_level_miss; [done|done|done|done| |by wp_steps].
    rewrite (po_root _ _ Hok) by done. by rewrite H1.
Qed.

(** ** Growing a tree *)

Definition add_T1 (i q : Z) (T : ptree) : ptree := mkPtree (pt_root T) (<[i := q]> (T1 T)) (T0 T) (L T).
Definition add_T0 (k q : Z) (T : ptree) : ptree := mkPtree (pt_root T) (T1 T) (<[k := q]> (T0 T)) (L T).

(** What the allocating walk may do: take pages from the free list for new
    tables.  No page is lost, and all other memory is unchanged. *)
Record grown (s : machine) (T : ptree) (fl : list Z) (s' : machine) (T' : ptree) (fl' : list Z) : Prop := {
  gr_own : pt_own s' T' fl';
  gr_root : pt_root T' = pt_root T;
  gr_L : L T' = L T;
  gr_T1 : T1 T ⊆ T1 T';
  gr_T0 : T0 T ⊆ T0 T';
  gr_pages : tables T' ++ fl' ≡ₚ tables T ++ fl;
  gr_frame p : p ∉ tables T ++ fl → mem s' !! p = mem s !! p;
  gr_held : held s' = held s;
}.

Lemma grown_refl s T fl : pt_own s T fl → grown s T fl s T fl.
Proof. by split. Qed.

Lemma grown_trans s T fl s1 T' fl1 s2 T'' fl2 :
  grown s T fl s1 T' fl1 → grown s1 T' fl1 s2 T'' fl2 → grown s T fl s2 T'' fl2.
Proof.
  intros [A1 A2 A3 A4 A5 A6 A7 A8] [B1 B2 B3 B4 B5 B6 B7 B8].
  split; [done|congruence|congruence|by etrans|by etrans|by etrans| |congruence].
  intros p Hp. rewrite B7, A7; [done|done|]. by rewrite A6.
Qed.

Lemma mem_lookup_frame s fl p i q v r :
  kinv s fl → ram_page p → r ≠ p → r ≠ q →
  set_entry (<[q := zero_page]> (mem s)) p i v !! r = mem s !! r.
Proof. intros Hk Hp H1 H2. unfold set_entry. by rewrite !lookup_insert_ne by done. Qed.

Lemma tables_add_T1 T i q fl :
  T1 T !! i = None → tables (add_T1 i q T) ++ fl ≡ₚ tables T ++ q :: fl.
Proof.
  intros Hi. unfold tables, add_T1. cbn [T1 T0 pt_root]. rewrite map_to_list_insert by done.
  rewrite fmap_cons. cbn [snd]. rewrite <-!app_comm_cons. solve_Permutation.
Qed.

Lemma tables_add_T0 T k q fl :
  T0 T !! k = None → tables (add_T0 k q T) ++ fl ≡ₚ tables T ++ q :: fl.
Proof.
  intros Hi. unfold tables, add_T0. cbn [T1 T0 pt_root]. rewrite map_to_list_insert by done.
  rewrite fmap_cons. cbn [snd]. rewrite <-!app_comm_cons. solve_Permutation.
Qed.

(** The bookkeeping common to both kinds of new tables. *)
Lemma grown_hook s T q fl s' T' p i :
  pt_own s T (q :: fl) → p ∈ tables T → kinv s' fl →
  mem s' = set_entry (<[q := zero_page]> (mem s)) p i (table_bits q) →
  held s' = held s → tables T' ++ fl ≡ₚ tables T ++ q :: fl →
  pt_root T' = pt_root T → L T' = L T → T1 T ⊆ T1 T' → T0 T ⊆ T0 T' → pt_ok (mem s') T' →
  grown s T (q :: fl) s' T' fl.
Proof.
  intros Hown Hp Hk Hm Hh Hperm H1 H2 H3 H4 Hok. pose proof Hown as [Hk0 _ Hr Hnd].
  split; try done.
  - split; [done|done| |by rewrite Hperm].
    apply Forall_forall. intros x Hx.
    assert (x ∈ tables T ++ q :: fl) as Hx' by (rewrite <-Hperm; apply elem_of_app; by left).
    apply elem_of_app in Hx' as [Hx'|Hx']; [rewrite Forall_forall in Hr; auto|].
    pose proof (ki_free _ _ _ Hk0) as Hf. rewrite Forall_forall in Hf. auto.
  - intros x Hx. rewrite Hm. rewrite not_elem_of_app, not_elem_of_cons in Hx.
    destruct Hx as (Hx1 & Hx2 & _). destruct (own_page _ _ _ _ Hown Hp).
    eapply mem_lookup_frame; [done|done|by intros ->|done].
Qed.

Lemma div_512 i j : is_idx j → (512 * i + j) / 512 = i ∧ (512 * i + j) mod 512 = j.
Proof.
  unfold is_idx. intros Hj. rewrite Z.add_comm, (Z.mul_comm 512).
  rewrite Z.div_add, Z.mod_add by lia. by rewrite Z.div_small, Z.mod_small by lia.
Qed.

Lemma grown_T1 s T q fl s' i :
  pt_own s T (q :: fl) → is_idx i → T1 T !! i = None → kinv s' fl →
  mem s' = set_entry (<[q := zero_page]> (mem s)) (pt_root T) i (table_bits q) →
  held s' = held s → grown s T (q :: fl) s' (add_T1 i q T) fl.
Proof.
  intros Hown Hi Hnone Hk Hm Hh. pose proof Hown as [Hk0 Hok _ Hnd].
  destruct (tables_distinct _ _ _ Hown) as (Hd1 & Hd0 & _).
  pose proof (Forall_inv (ki_free _ _ _ Hk0)) as Hq.
  assert (q ∉ tables T) as Hqn.
  { intros Hin. apply NoDup_app in Hnd as (_ & Hd & _). apply (Hd q Hin). by left. }
  destruct (own_page _ _ _ _ Hown (in_root T)) as [Hroot _].
  destruct (kinv_lookup _ _ _ _ Hk0 Hroot) as (d & Hd & Hdok).
  destruct (table_entry q (ram_page_addr q Hq)) as (_ & _ & _ & Hb).
  assert (∀ r j, is_idx j → entry (mem s') r j = if decide (pt_root T = r ∧ i = j) then table_bits q
            else if decide (r = q) then 0 else entry (mem s) r j) as He.
  { intros r j Hj. rewrite Hm. eapply entry_hook; try done. intros Heq. apply Hqn. rewrite <-Heq. by left. }
  eapply (grown_hook _ _ _ _ _ _ (pt_root T)); try done; [by left|by apply tables_add_T1
    |by apply insert_subseteq|].
  destruct Hok as [O1 O2 O3 O4 O5 O6 O7]. split; cbn [T1 T0 L pt_root add_T1]; try done.
  - intros j Hj. rewrite He by done. destruct (decide (i = j)) as [<-|Hne].
    + rewrite decide_True by done. by rewrite lookup_insert_eq.
    + rewrite decide_False by tauto. rewrite lookup_insert_ne by done.
      rewrite decide_False; [by apply O1|]. intros Heq. apply Hqn. rewrite <-Heq. by left.
  - intros j p l. rewrite lookup_insert_Some. intros [[<- <-]|[Hne Hj]] Hl; rewrite He by done.
    + rewrite decide_False by (intros [Heq _]; apply Hqn; rewrite <-Heq; by left).
      rewrite decide_True by done. destruct (T0 T !! _) eqn:H0; [|done].
      apply O5 in H0 as [? H0]. rewrite (proj1 (div_512 i l Hl)) in H0. congruence.
    + rewrite decide_False by (intros [Heq _]; by apply (Hd1 _ _ Hj)).
      rewrite decide_False by (intros ->; by apply Hqn, (in_T1 _ j)). by apply O2.
  - intros k p l Hk' Hl. rewrite He by done.
    rewrite decide_False by (intros [Heq _]; by apply (Hd0 _ _ Hk')).
    rewrite decide_False by (intros ->; by apply Hqn, (in_T0 _ k)). by apply O3.
  - intros j p. rewrite lookup_insert_Some. intros [[<- _]|[_ Hj]]; [done|by eapply O4].
  - intros k p Hk'. rewrite lookup_insert_is_Some. destruct (decide (i = k / 512)); [by left|right].
    split; [done|]. by eapply O5.
Qed.

Lemma grown_T0 s T q fl s' k p :
  pt_own s T (q :: fl) → T1 T !! (k / 512) = Some p → T0 T !! k = None → kinv s' fl →
  mem s' = set_entry (<[q := zero_page]> (mem s)) p (k mod 512) (table_bits q) →
  held s' = held s → grown s T (q :: fl) s' (add_T0 k q T) fl.
Proof.
  intros Hown H1 Hnone Hk Hm Hh. pose proof Hown as [Hk0 Hok _ Hnd].
  destruct (tables_distinct _ _ _ Hown) as (Hd1 & Hd0 & Hi1 & _ & Hd10).
  pose proof (Forall_inv (ki_free _ _ _ Hk0)) as Hq.
  assert (q ∉ tables T) as Hqn.
  { intros Hin. apply NoDup_app in Hnd as (_ & Hd & _). apply (Hd q Hin). by left. }
  destruct (own_page _ _ _ _ Hown (in_T1 _ _ _ H1)) as [Hp _].
  destruct (kinv_lookup _ _ _ _ Hk0 Hp) as (d & Hd & Hdok).
  destruct (table_entry q (ram_page_addr q Hq)) as (_ & _ & _ & Hb).
  assert (∀ r j, is_idx j → entry (mem s') r j = if decide (p = r ∧ k mod 512 = j) then table_bits q
            else if decide (r = q) then 0 else entry (mem s) r j) as He.
  { intros r j Hj. rewrite Hm. eapply entry_hook; try done; [|apply is_idx_mod].
    intros <-. by apply Hqn, (in_T1 _ (k / 512)). }
  eapply (grown_hook _ _ _ _ _ _ p); try done; [by eapply in_T1|by apply tables_add_T0
    |by apply insert_subseteq|].
  destruct Hok as [O1 O2 O3 O4 O5 O6 O7]. split; cbn [T1 T0 L pt_root add_T0]; try done.
  - intros j Hj. rewrite He by done. rewrite decide_False by (intros [Heq _]; by apply (Hd1 _ _ H1)).
    rewrite decide_False; [by apply O1|]. intros Heq. apply Hqn. rewrite <-Heq. by left.
  - intros j p' l Hj Hl. rewrite He by done. destruct (decide (p = p' ∧ k mod 512 = l)) as [[<- <-]|Hne].
    + rewrite (Hi1 _ _ _ Hj H1), split_512. by rewrite lookup_insert_eq.
    + rewrite lookup_insert_ne.
      * rewrite decide_False by (intros ->; by apply Hqn, (in_T1 _ j)). by apply O2.
      * intros ->. apply Hne. destruct (div_512 j l Hl) as [Hdiv Hmod]. rewrite Hdiv in H1.
        split; [congruence|done].
  - intros k' p' l. rewrite lookup_insert_Some. intros [[<- <-]|[Hne Hk']] Hl; rewrite He by done.
    + rewrite decide_False by (intros [-> _]; by apply Hqn, (in_T1 _ (k / 512))).
      rewrite decide_True by done. destruct (L T !! _) eqn:HL; [|done].
      apply O6 in HL as [? HL]. rewrite (proj1 (div_512 k l Hl)) in HL. congruence.
    + rewrite decide_False by (intros [Heq _]; by apply (Hd10 _ _ _ _ H1 Hk')).
      rewrite decide_False by (intros ->; by apply Hqn, (in_T0 _ k')). by apply O3.
  - intros k' p'. rewrite lookup_insert_Some. intros [[<- _]|[_ Hk']]; [by rewrite H1|by eapply O5].
  - intros v e Hv. rewrite lookup_insert_is_Some. destruct (decide (k = v / 512)); [by left|right].
    split; [done|]. by eapply O6.
Qed.

(** A failed allocation leaves the tree alone. *)
Lemma grown_none s T s' :
  pt_own s T [] → kinv s' [] → mem s' = mem s → held s' = held s → grown s T [] s' T [].
Proof.
  intros [K1 K2 K3 K4] Hk Hm Hh. split; try done; [|intros; by rewrite Hm].
  split; [done|by rewrite Hm|done|done].
Qed.

(** The number of tables, from the places they can have. *)
Lemma tables_bound T (K0 K1 : gset Z) :
  (∀ k, is_Some (T0 T !! k) → k ∈ K0) → (∀ i, is_Some (T1 T !! i) → i ∈ K1) → (length (tables T) ≤ 1 + base.size K1 + base.size K0)%nat.
Proof.
  intros H0 H1. unfold tables. cbn [length]. rewrite length_app, !length_fmap.
  assert (∀ (m : gmap Z Z) (K : gset Z), (∀ k, is_Some (m !! k) → k ∈ K) → (length (map_to_list m) ≤ base.size K)%nat) as Hlen.
  { intros m K H. replace (length (map_to_list m)) with (base.size (dom m)); [|by rewrite size_dom, length_map_to_list].
    apply subseteq_size. intros k Hk%elem_of_dom. by apply H. }
  pose proof (Hlen _ _ H0). pose proof (Hlen _ _ H1). lia.
Qed.

(** The tables of [T'] are those of [T] and some for the pages [v .. w]. *)
Definition new_tables (T T' : ptree) (v w : Z) : Prop :=
  (∀ k, is_Some (T0 T' !! k) → is_Some (T0 T !! k) ∨ v / 512 ≤ k ≤ w / 512) ∧
  (∀ i, is_Some (T1 T' !! i) → is_Some (T1 T !! i) ∨ v / 512 / 512 ≤ i ≤ w / 512 / 512).

Lemma new_tables_refl T v w : new_tables T T v w.
Proof. split; tauto. Qed.

Lemma new_tables_within T T' T'' v w u :
  new_tables T T' v w → new_tables T' T'' u u → v ≤ u → u ≤ w → new_tables T T'' v w.
Proof.
  intros [A0 A1] [B0 B1] Hv Hw. pose proof (Z.div_le_mono v u 512 ltac:(lia) Hv) as H1. pose proof (Z.div_le_mono u w 512 ltac:(lia) Hw) as H2.
  pose proof (Z.div_le_mono _ _ 512 ltac:(lia) H1). pose proof (Z.div_le_mono _ _ 512 ltac:(lia) H2).
  split; [intros k Hk; destruct (B0 k Hk) as [Hk'|?]; [destruct (A0 k Hk')|]|intros k Hk; destruct (B1 k Hk) as [Hk'|?]; [destruct (A1 k Hk')|]];
    first [by left|right; lia].
Qed.

Lemma walk_grow s T fl va :
  pt_own s T fl → 0 ≤ va < 2 ^ 39 →
  wp (walk (pt_root T) va true) s (λ r s', ∃ T' fl', grown s T fl s' T' fl' ∧ new_tables T T' (vpn va) (vpn va) ∧
    match r with
    | Some a => ∃ q, T0 T' !! (vpn va / 512) = Some q ∧ a = pte_addr q (vpn va mod 512)
    | None => fl' = []
    end).
Proof.
  intros Hown Hva. destruct (index_2 va Hva) as [Hi2 Hb2].
  pose proof (index_1 va Hva) as Hi1. pose proof (index_0 va Hva) as Hi0.
  set (k := vpn va / 512) in *.
  destruct (own_page _ _ _ _ Hown (in_root T)) as [Hroot Hrn].
  unfold walk. wp_step. apply wp_for_each_cons.
  (* the second level, from any tree that has the first *)
  set (Q := λ r s', wp (match r with
                        | inl pt => mret (Some (pte_addr pt (pte_index va 0)))
                        | inr _ => mret None
                        end) s' _).
  assert (∀ s1 T' fl1 p, grown s T fl s1 T' fl1 → new_tables T T' (vpn va) (vpn va) → T1 T' !! (k / 512) = Some p →
    wp (for_each [1] (walk_level va true) p) s1 Q) as Hlevel1.
  { intros s1 T' fl1 p Hg [N0 N1] H1. pose proof (gr_own _ _ _ _ _ _ Hg) as Hown1.
    pose proof Hown1 as [Hk1 Hok1 _ _].
    destruct (own_page _ _ _ _ Hown1 (in_T1 _ _ _ H1)) as [Hp Hpn].
    pose proof (po_mid _ _ Hok1 _ _ (k mod 512) H1 (is_idx_mod k)) as He. rewrite split_512 in He.
    apply wp_for_each_cons. destruct (T0 T' !! k) as [q|] eqn:H0.
    - destruct (own_page _ _ _ _ Hown1 (in_T0 _ _ _ H0)) as [Hq _].
      eapply walk_level_hit; [done|done|done|apply is_idx_mod|done|done|].
      exists T', fl1. split_and!; [done|done|]. exists q. by rewrite Hi0.
    - wp_call (walk_level_grow s1 fl1 va 1 p (k mod 512)); [done|done|done|done|apply is_idx_mod|done|].
      intros r s2 [Hh Hr]. destruct fl1 as [|q fl2].
      + destruct Hr as (-> & Hm & Hk2). exists T', []. split_and!; [|done|done].
        eapply grown_trans; [done|]. by apply grown_none.
      + destruct Hr as (-> & Hk2 & Hm). exists (add_T0 k q T'), fl2. split_and!.
        * eapply grown_trans; [done|]. by eapply grown_T0.
        * split; [|done]. cbn [T0 add_T0]. intros j [<-|Hj]%lookup_insert_is_Some'; [right; lia|by apply N0].
        * exists q. rewrite Hi0. split; [apply lookup_insert_eq|done]. }
  pose proof Hown as [Hk Hok _ _]. pose proof (po_root _ _ Hok _ Hb2) as He.
  destruct (T1 T !! (k / 512)) as [p|] eqn:H1.
  - destruct (own_page _ _ _ _ Hown (in_T1 _ _ _ H1)) as [Hp _].
    eapply walk_level_hit; [done..|]. by eapply Hlevel1; [apply grown_refl|apply new_tables_refl|].
  - wp_call (walk_level_grow s fl va 2 (pt_root T) (k / 512)); [done..|].
    intros r s2 [Hh Hr]. destruct fl as [|q fl2].
    + destruct Hr as (-> & Hm & Hk2). exists T, []. split_and!; [|apply new_tables_refl|done]. by apply grown_none.
    + destruct Hr as (-> & Hk2 & Hm). eapply (Hlevel1 _ (add_T1 (k / 512) q T) fl2).
      * by apply grown_T1.
      * split; [by left|]. cbn [T1 add_T1]. intros j [<-|Hj]%lookup_insert_is_Some'; [right; unfold k; lia|by left].
      * apply lookup_insert_eq.
Qed.

(** ** Changing leaves *)

Definition set_L (l : gmap Z Z) (T : ptree) : ptree := mkPtree (pt_root T) (T1 T) (T0 T) l.

Lemma own_set_leaf s T fl v q e l :
  pt_own s T fl → T0 T !! (v / 512) = Some q →
  e = default 0 (l !! v) → (∀ v', v' ≠ v → l !! v' = L T !! v') →
  (∀ e, l !! v = Some e → pte_leaf e = true ∧ 0 ≤ e < 256 ^ 8) →
  wp (store64 (pte_addr q (v mod 512)) e) s (λ _ s',
    pt_own s' (set_L l T) fl ∧ held s' = held s ∧ ∀ p, p ≠ q → mem s' !! p = mem s !! p).
Proof.
  intros Hown Hq He Hl Hleaf. pose proof Hown as [Hk Hok Hr Hnd].
  destruct (own_page _ _ _ _ Hown (in_T0 _ _ _ Hq)) as [Hqr Hqn].
  destruct (tables_distinct _ _ _ Hown) as (Hd1 & Hd0 & _ & Hi0 & Hd10).
  destruct (kinv_lookup _ _ _ _ Hk Hqr) as (d & Hd & Hdok).
  assert (0 ≤ e < 256 ^ 8) as Heb.
  { subst e. destruct (l !! v) as [e'|] eqn:Hlv; [by apply Hleaf|done]. }
  eapply wp_store_entry; [done|done|done|apply is_idx_mod|]. intros Hk'.
  assert (∀ r j, is_idx j → entry (set_entry (mem s) q (v mod 512) e) r j =
            if decide (q = r ∧ v mod 512 = j) then e else entry (mem s) r j) as Hent.
  { intros r j Hj. eapply entry_set; try done. apply is_idx_mod. }
  split_and!; [|done|].
  - split; [done| |done|done]. cbn [mem set_mem]. destruct Hok as [O1 O2 O3 O4 O5 O6 O7].
    split; cbn [T1 T0 L pt_root set_L]; try done.
    + intros i Hi. rewrite Hent by done.
      rewrite decide_False by (intros [Heq _]; by apply (Hd0 _ _ Hq)). by apply O1.
    + intros i p j Hp Hj. rewrite Hent by done.
      rewrite decide_False by (intros [Heq _]; by apply (Hd10 _ _ _ _ Hp Hq)). by apply O2.
    + intros k p j Hp Hj. rewrite Hent by done.
      destruct (decide (q = p ∧ v mod 512 = j)) as [[<- <-]|Hne].
      * rewrite (Hi0 _ _ _ Hp Hq), split_512. done.
      * rewrite Hl; [by apply O3|]. intros <-. apply Hne. destruct (div_512 k j Hj) as [Hdiv ->].
        rewrite Hdiv in Hq. split; [congruence|done].
    + intros v' e' Hv'. destruct (decide (v' = v)) as [->|Hne]; [by rewrite Hq|].
      rewrite Hl in Hv' by done. by eapply O6.
    + intros v' e' Hv'. destruct (decide (v' = v)) as [->|Hne]; [by apply Hleaf|].
      rewrite Hl in Hv' by done. by eapply O7.
  - intros p Hp. cbn. unfold set_entry. by rewrite lookup_insert_ne.
Qed.

(** ** Mapping ranges *)

(** An operation on a tree that sets its leaves to [l] and may add tables. *)
Record updated (s : machine) (T : ptree) (fl : list Z) (l : gmap Z Z)
    (s' : machine) (T' : ptree) (fl' : list Z) : Prop := {
  up_own : pt_own s' T' fl';
  up_root : pt_root T' = pt_root T;
  up_L : L T' = l;
  up_T0 : T0 T ⊆ T0 T';
  up_pages : tables T' ++ fl' ≡ₚ tables T ++ fl;
  up_frame p : p ∉ tables T ++ fl → mem s' !! p = mem s !! p;
  up_held : held s' = held s;
}.

Lemma updated_refl s T fl : pt_own s T fl → updated s T fl (L T) s T fl.
Proof. by split. Qed.

Lemma updated_grown s T fl l s1 T' fl1 s2 T'' fl2 :
  updated s T fl l s1 T' fl1 → grown s1 T' fl1 s2 T'' fl2 → updated s T fl l s2 T'' fl2.
Proof.
  intros [A1 A2 A3 A4 A5 A6 A7] [B1 B2 B3 B4 B5 B6 B7 B8].
  split; [done|congruence|congruence|by etrans|by etrans| |congruence].
  intros p Hp. rewrite B7, A6; [done|done|]. by rewrite A5.
Qed.

Lemma updated_leaf s T fl l s1 T' fl1 v q e l' :
  updated s T fl l s1 T' fl1 → T0 T' !! (v / 512) = Some q →
  e = default 0 (l' !! v) → (∀ v', v' ≠ v → l' !! v' = l !! v') →
  (∀ e, l' !! v = Some e → pte_leaf e = true ∧ 0 ≤ e < 256 ^ 8) →
  wp (store64 (pte_addr q (v mod 512)) e) s1 (λ _ s2, updated s T fl l' s2 (set_L l' T') fl1).
Proof.
  intros [A1 A2 A3 A4 A5 A6 A7] Hq He Hl Hleaf. wp_call own_set_leaf; [done|done|done| |done|].
  { intros v' Hv'. rewrite A3. by apply Hl. }
  intros [] s2 (Hown & Hh & Hm). split; try done; [|congruence].
  intros p Hp. rewrite Hm; [by apply A6|]. intros ->. apply Hp. rewrite <-A5.
  apply elem_of_app. left. by eapply in_T0.
Qed.

Lemma wp_load_leaf s T fl v q Q :
  pt_own s T fl → T0 T !! (v / 512) = Some q →
  Q (default 0 (L T !! v)) s → wp (load64 (pte_addr q (v mod 512))) s Q.
Proof.
  intros Hown Hq HQ. pose proof Hown as [Hk Hok _ _].
  destruct (own_page _ _ _ _ Hown (in_T0 _ _ _ Hq)) as [Hqr _].
  eapply wp_load_entry; [done|done|apply is_idx_mod|].
  rewrite (po_low _ _ Hok _ _ _ Hq (is_idx_mod v)). by rewrite split_512.
Qed.

(** The leaf read at a virtual page is valid exactly when the page is mapped. *)
Lemma leaf_valid s T fl v :
  pt_own s T fl → pte_valid (default 0 (L T !! v)) = bool_decide (is_Some (L T !! v)).
Proof.
  intros [_ Hok _ _]. destruct (L T !! v) as [e|] eqn:HL; [|done]. cbn.
  destruct (po_leaf _ _ Hok _ _ HL) as [Hleaf _]. unfold pte_leaf in Hleaf.
  by apply andb_true_iff in Hleaf as [-> _].
Qed.

(** Leaves after mapping [n] pages from page [v] to the frames from [pa]. *)
Fixpoint map_range (v pa flags : Z) (n : nat) (l : gmap Z Z) : gmap Z Z :=
  match n with
  | O => l
  | S i => <[v + Z.of_nat i := leaf_bits (pa + PGSIZE * Z.of_nat i) flags]> (map_range v pa flags i l)
  end.

Lemma lookup_map_range v pa flags n l w :
  map_range v pa flags n l !! w =
    if decide (v ≤ w < v + Z.of_nat n) then Some (leaf_bits (pa + PGSIZE * (w - v)) flags) else l !! w.
Proof.
  induction n as [|n IH]; cbn [map_range]; [by rewrite decide_False by lia|].
  destruct (decide (w = v + Z.of_nat n)) as [->|Hne].
  - rewrite lookup_insert_eq, decide_True by lia. do 3 f_equal. lia.
  - rewrite lookup_insert_ne, IH by done.
    destruct (decide (v ≤ w < v + Z.of_nat n)); [by rewrite decide_True by lia|].
    by rewrite decide_False by lia.
Qed.

Lemma round_up_eq {St} a (s : St) Q :
  0 ≤ a → a + PGSIZE ≤ USIZE_MAX → Q (PGSIZE * ((a + PGSIZE - 1) / PGSIZE)) s → wp (page_round_up a) s Q.
Proof.
  intros H0 Hmax HQ. unfold page_round_up. wp_step. wp_step; [mem_lia|]. wp_steps.
  change (PGSIZE - 1) with (Z.ones 12). rewrite Z.ldiff_ones_r, Z.shiftr_div_pow2, Z.shiftl_mul_pow2 by lia.
  change (2 ^ 12) with PGSIZE. by rewrite Z.mul_comm.
Qed.

Lemma vpn_page v : vpn (PGSIZE * v) = v.
Proof. unfold vpn. mem_consts. rewrite Z.mul_comm. by apply Z.div_mul. Qed.

(** Outcome of [mappages] on the pages [v .. v + n]. *)
Definition map_outcome (s : machine) (T : ptree) (fl : list Z) (v pa flags : Z) (n : nat)
    (r : option unit) (s' : machine) : Prop :=
  ∃ i T' fl', updated s T fl (map_range v pa flags i (L T)) s' T' fl' ∧
    match r with
    | Some _ => i = n
    | None => (i < n)%nat ∧ (fl' = [] ∨ is_Some (L T !! (v + Z.of_nat i)))
    end.

(** The same, with the tables it adds. *)
Definition map_grows (s : machine) (T : ptree) (fl : list Z) (v pa flags : Z) (n : nat)
    (r : option unit) (s' : machine) : Prop :=
  ∃ i T' fl', updated s T fl (map_range v pa flags i (L T)) s' T' fl' ∧ new_tables T T' v (v + Z.of_nat n - 1) ∧
    match r with
    | Some _ => i = n
    | None => (i < n)%nat ∧ (fl' = [] ∨ is_Some (L T !! (v + Z.of_nat i)))
    end.

(** A range below [MAXVA] has its pages below [MAXVA]. *)
Lemma range_pages v size (n := Z.to_nat ((size + PGSIZE - 1) / PGSIZE)) :
  0 < size → PGSIZE * v + size ≤ MAXVA →
  v + Z.of_nat n ≤ 67108864 ∧ PGSIZE * Z.of_nat n < size + PGSIZE ∧
  (PGSIZE * v + size + PGSIZE - 1) / PGSIZE = v + Z.of_nat n.
Proof.
  intros Hsz Hmax. pose proof (Z.mul_div_le (size + PGSIZE - 1) PGSIZE ltac:(mem_lia)) as Hle.
  assert (0 < (size + PGSIZE - 1) / PGSIZE) by (apply Z.div_str_pos; mem_lia).
  assert (Z.of_nat n = (size + PGSIZE - 1) / PGSIZE) as Hn by (unfold n; lia).
  rewrite <-Hn in *. clearbody n. split_and!; [|lia|].
  - change MAXVA with (PGSIZE * 67108864) in *. mem_lia.
  - replace (PGSIZE * v + size + PGSIZE - 1) with (size + PGSIZE - 1 + v * PGSIZE) by lia.
    rewrite Z.div_add by mem_lia. lia.
Qed.

(** One more page of a range is mapped. *)
Lemma map_range_leaf s T fl v pa flags i s1 T1' fl1 q :
  updated s T fl (map_range v pa flags i (L T)) s1 T1' fl1 → T0 T1' !! ((v + Z.of_nat i) / 512) = Some q →
  page_addr (pa + PGSIZE * Z.of_nat i) → 0 ≤ flags < 1024 → Z.land flags 14 ≠ 0 →
  wp (e ← new_leaf (pa + PGSIZE * Z.of_nat i) flags; store64 (pte_addr q ((v + Z.of_nat i) mod 512)) e) s1
    (λ _ s2, updated s T fl (map_range v pa flags (S i) (L T)) s2 (set_L (map_range v pa flags (S i) (L T)) T1') fl1).
Proof.
  intros Hup Hq Hpi Hfl Hrwx. wp_step. unfold new_leaf. wp_step.
  wp_step; [destruct Hpi; rewrite aligned_mod by lia; by apply bool_decide_eq_true|]. wp_steps.
  eapply (updated_leaf _ _ _ _ _ _ _ _ _ _ (map_range v pa flags (S i) (L T))); [done|done| | |]; cbn [map_range].
  - by rewrite lookup_insert_eq.
  - intros v' Hv'. by rewrite lookup_insert_ne.
  - rewrite lookup_insert_eq. intros e [= <-]. destruct (leaf_entry _ flags Hpi Hfl) as (_ & _ & _ & -> & Hb).
    split; [|done]. by rewrite (proj2 (Z.eqb_neq _ _) Hrwx).
Qed.

Lemma mappages_grows s T fl v size pa flags :
  pt_own s T fl → 0 ≤ v → 0 < size → PGSIZE * v + size ≤ MAXVA →
  pa mod PGSIZE = 0 → 0 ≤ pa → pa + size < 2 ^ 55 →
  0 ≤ flags < 1024 → Z.land flags 14 ≠ 0 →
  wp (mappages (pt_root T) (PGSIZE * v) size pa flags) s (λ r s',
    map_grows s T fl v pa flags (Z.to_nat ((size + PGSIZE - 1) / PGSIZE)) r s').
Proof.
  intros Hown Hv Hsz Hmax Hpa Hpa0 Hpam Hfl Hrwx. set (n := Z.to_nat ((size + PGSIZE - 1) / PGSIZE)).
  change (2 ^ 55) with 36028797018963968 in Hpam.
  destruct (range_pages v size Hsz Hmax) as (Hvmax & Hn1 & Hend). fold n in Hvmax, Hn1, Hend.
  unfold mappages. wp_step.
  wp_step; [rewrite aligned_mod by mem_lia; apply bool_decide_eq_true; rewrite Z.mul_comm; by apply Z.mod_mul|].
  wp_step. wp_step; [rewrite aligned_mod by done; by apply bool_decide_eq_true|].
  wp_step. wp_step; [by apply Z.ltb_lt|]. wp_step. wp_step; [mem_lia|]. wp_step.
  apply round_up_eq; [mem_lia|mem_lia|].
  rewrite Hend.
  apply (wp_while (λ '(va', pa') s', ∃ i T' fl', (i ≤ n)%nat ∧ va' = PGSIZE * (v + Z.of_nat i) ∧
      pa' = pa + PGSIZE * Z.of_nat i ∧ updated s T fl (map_range v pa flags i (L T)) s' T' fl' ∧ new_tables T T' v (v + Z.of_nat n - 1))
    (λ '(va', _), n - Z.to_nat (va' / PGSIZE - v))%nat).
  - intros [va' pa'] s' (i & T' & fl' & Hi & -> & -> & Hup & Hnew).
    destruct (Z.ltb_spec (PGSIZE * (v + Z.of_nat i)) (PGSIZE * (v + Z.of_nat n))) as [Hlt|Hge].
    2: { wp_steps. exists i, T', fl'. split_and!; [done|done|]. mem_lia. }
    pose proof (up_own _ _ _ _ _ _ _ Hup) as Hown'. rewrite <-(up_root _ _ _ _ _ _ _ Hup).
    assert (page_addr (pa + PGSIZE * Z.of_nat i)) as Hpi.
    { split; [|by rewrite Z.mul_comm, Z.mod_add by mem_lia].
      change (2 ^ 56) with 72057594037927936. unfold n in *. mem_lia. }
    wp_call walk_grow; [done| |].
    { change (2 ^ 39) with 549755813888. mem_lia. }
    rewrite vpn_page. intros r s1 (T1' & fl1 & Hg & Hn1' & Hr). pose proof (updated_grown _ _ _ _ _ _ _ _ _ _ Hup Hg) as Hup1.
    assert (new_tables T T1' v (v + Z.of_nat n - 1)) as Hnew1 by (eapply new_tables_within; [exact Hnew|exact Hn1'|lia|mem_lia]).
    destruct r as [a|]; [|wp_steps; exists i, T1', fl1; split_and!; [done|done|mem_lia|by left]].
    destruct Hr as (q & Hq & ->). pose proof (up_own _ _ _ _ _ _ _ Hup1) as Hown1.
    wp_step. eapply wp_load_leaf; [done|done|]. rewrite (leaf_valid _ _ _ _ Hown1).
    rewrite (up_L _ _ _ _ _ _ _ Hup1), lookup_map_range, decide_False by lia.
    case_bool_decide as Hmapped.
    { wp_steps. exists i, T1', fl1. split_and!; [done|done|mem_lia|by right]. }
    apply (wp_assoc_r (new_leaf _ _) (λ e, store64 _ e)), wp_bind. eapply wp_mono; [by eapply map_range_leaf|].
    cbn beta. intros [] s2 Hup2. wp_steps; [mem_lia|unfold n in *; mem_lia|]. split.
    + exists (S i), (set_L (map_range v pa flags (S i) (L T)) T1'), fl1. split_and!; [mem_lia|lia|lia|done|done].
    + replace (PGSIZE * (v + Z.of_nat i) + PGSIZE) with ((v + Z.of_nat i + 1) * PGSIZE) by lia.
      rewrite (Z.mul_comm PGSIZE), !Z.div_mul by mem_lia. mem_lia.
  - exists 0%nat, T, fl. split_and!; [lia|lia|lia|by apply updated_refl|apply new_tables_refl].
  - assert ((PGSIZE * (v + Z.of_nat n) - PGSIZE * v) / PGSIZE = Z.of_nat n) as ->.
    { replace (_ - _) with (Z.of_nat n * PGSIZE) by lia. apply Z.div_mul. mem_lia. }
    lia.
Qed.

Lemma mappages_spec s T fl v size pa flags :
  pt_own s T fl → 0 ≤ v → 0 < size → PGSIZE * v + size ≤ MAXVA →
  pa mod PGSIZE = 0 → 0 ≤ pa → pa + size < 2 ^ 55 →
  0 ≤ flags < 1024 → Z.land flags 14 ≠ 0 →
  wp (mappages (pt_root T) (PGSIZE * v) size pa flags) s (λ r s',
    map_outcome s T fl v pa flags (Z.to_nat ((size + PGSIZE - 1) / PGSIZE)) r s').
Proof.
  intros. eapply wp_mono; [by apply mappages_grows|]. intros r s' (i & T' & fl' & Hup & _ & Hr). by exists i, T', fl'.
Qed.

(** Memory outside the tables does not matter to them. *)
Lemma pt_ok_store m T p d : pt_ok m T → p ∉ tables T → pt_ok (<[p := d]> m) T.
Proof.
  intros [O1 O2 O3 O4 O5 O6 O7] Hn.
  assert (∀ q i, q ∈ tables T → entry (<[p := d]> m) q i = entry m q i) as He.
  { intros q i Hq. unfold entry. rewrite lookup_total_insert_ne; [done|]. by intros ->. }
  split; try done.
  - intros i Hi. rewrite He by apply in_root. by apply O1.
  - intros i q j Hq Hj. rewrite He by (by eapply in_T1). by apply O2.
  - intros k q l Hq Hl. rewrite He by (by eapply in_T0). by apply O3.
Qed.

(** Overwriting a frame that is neither a table nor free. *)
Lemma own_store_frame s T fl p d :
  pt_own s T fl → ram_page p → p ∉ tables T ++ fl → page_ok d →
  pt_own (set_mem (<[p := d]> (mem s)) s) T fl.
Proof.
  intros [Hk Hok Hr Hnd] Hp Hn Hd. rewrite not_elem_of_app in Hn. destruct Hn as [Hnt Hnf].
  split; [by apply kinv_store|by apply pt_ok_store|done|done].
Qed.

(** Taking a zeroed page. *)
Lemma own_kalloc_zeroed s T fl :
  pt_own s T fl →
  wp kalloc_zeroed s (λ r s', held s' = held s ∧
    match fl with
    | [] => r = None ∧ mem s' = mem s ∧ pt_own s' T []
    | p :: fl' => r = Some p ∧ mem s' = <[p := zero_page]> (mem s) ∧ pt_own s' T fl' ∧ ram_page p ∧ p ∉ tables T ++ fl'
    end).
Proof.
  intros [Hk Hok Hr Hnd]. wp_call (kalloc_zeroed_spec kernel_end); [done|done|].
  intros r s' (Hh & Hres). split; [done|]. destruct fl as [|p fl'].
  - destruct Hres as (-> & Hm & Hk'). split_and!; [done|done|]. split; [done|by rewrite Hm|done|done].
  - destruct Hres as (-> & Hm & Hk'). pose proof (Forall_inv (ki_free _ _ _ Hk)) as Hp.
    assert (NoDup (p :: tables T ++ fl')) as Hnd' by (by rewrite Permutation_middle).
    apply NoDup_cons in Hnd' as [Hn Hnd']. split_and!; try done. split; [done| |done|done].
    rewrite Hm. apply pt_ok_store; [done|]. by apply not_elem_of_app in Hn as [? _].
Qed.

(** ** Unmapping *)

Lemma own_kfree s T fl p :
  pt_own s T fl → ram_page p → p ∉ tables T ++ fl →
  wp (kfree kernel_end p) s (λ _ s',
    pt_own s' T (p :: fl) ∧ held s' = held s ∧ ∀ q, q ≠ p → mem s' !! q = mem s !! q).
Proof.
  intros Hown Hp Hn. pose proof Hown as [Hk Hok Hr Hnd]. pose proof Hn as Hn'.
  rewrite not_elem_of_app in Hn'. destruct Hn' as [Hnt Hnf].
  wp_call (kfree_spec kernel_end); [done|done|done|done|]. intros [] s' (Hh & Hk' & d & Hm).
  split_and!; [|done|intros q Hq; rewrite Hm; by apply lookup_insert_ne].
  assert (page_ok d) as Hd by (eapply (ki_pages _ _ _ Hk'); rewrite Hm; apply lookup_insert_eq).
  pose proof (own_store_frame _ _ _ _ _ Hown Hp Hn Hd) as [_ Hok' _ _]. cbn in Hok'. rewrite <-Hm in Hok'.
  split; [done|done|done|]. rewrite <-Permutation_middle. by apply NoDup_cons.
Qed.

Fixpoint unmap_range (v : Z) (n : nat) (l : gmap Z Z) : gmap Z Z :=
  match n with
  | O => l
  | S i => delete (v + Z.of_nat i) (unmap_range v i l)
  end.

Lemma lookup_unmap_range v n l w :
  unmap_range v n l !! w = if decide (v ≤ w < v + Z.of_nat n) then None else l !! w.
Proof.
  induction n as [|n IH]; cbn [unmap_range]; [by rewrite decide_False by lia|].
  destruct (decide (w = v + Z.of_nat n)) as [->|Hne].
  - rewrite lookup_delete_eq. by rewrite decide_True by lia.
  - rewrite lookup_delete_ne, IH by done.
    destruct (decide (v ≤ w < v + Z.of_nat n)); [by rewrite decide_True by lia|].
    by rewrite decide_False by lia.
Qed.

(** The frames behind [n] pages, last first: the order they are freed in. *)
Fixpoint frames (v : Z) (n : nat) (l : gmap Z Z) : list Z :=
  match n with
  | O => []
  | S i => pte_pa (default 0 (l !! (v + Z.of_nat i))) :: frames v i l
  end.

Lemma elem_of_frames v n l p :
  p ∈ frames v n l ↔ ∃ i, (i < n)%nat ∧ p = pte_pa (default 0 (l !! (v + Z.of_nat i))).
Proof.
  induction n as [|n IH]; cbn [frames].
  - split; [by intros ?%elem_of_nil|intros (i & ? & _); lia].
  - rewrite elem_of_cons, IH. split.
    + intros [->|(i & ? & ->)]; [exists n; split; [lia|done]|exists i; split; [lia|done]].
    + intros (i & Hi & ->). destruct (decide (i = n)) as [->|]; [by left|right]. exists i. split; [lia|done].
Qed.

Lemma length_frames v k l : length (frames v k l) = k.
Proof. induction k as [|k IH]; [done|]. cbn. by rewrite IH. Qed.

Lemma frames_nodup v n k l : NoDup (frames v n l) → (k ≤ n)%nat → NoDup (frames v k l).
Proof.
  intros Hnd Hk. induction Hk as [|n Hk IH]; [done|]. apply IH.
  cbn [frames] in Hnd. by apply NoDup_cons in Hnd as [_ ?].
Qed.

(** The first [k] pages of a range are unmapped, their frames given back. *)
Record unmapped (s : machine) (T : ptree) (fl : list Z) (v : Z) (do_free : bool) (k : nat) (s' : machine) : Prop := {
  un_own : pt_own s' (set_L (unmap_range v k (L T)) T) ((if do_free then frames v k (L T) else []) ++ fl);
  un_held : held s' = held s;
  un_mem : ∀ p, p ∉ tables T → (do_free = true → p ∉ frames v k (L T)) → mem s' !! p = mem s !! p }.

Section unmap.
Context (s : machine) (T : ptree) (fl : list Z) (v : Z) (n : nat) (do_free : bool).
Context (Hfr : do_free = true → Forall ram_page (frames v n (L T)) ∧ NoDup (frames v n (L T) ++ tables T ++ fl)).

(** The frame of the next page goes back to the free list. *)
Lemma unmap_frame k e s1 :
  (k < n)%nat → L T !! (v + Z.of_nat k) = Some e → unmapped s T fl v do_free k s1 →
  wp (if do_free then kfree kernel_end (pte_pa e) else mret tt) s1 (λ _ s2,
    pt_own s2 (set_L (unmap_range v k (L T)) T) ((if do_free then frames v (S k) (L T) else []) ++ fl) ∧ held s2 = held s ∧
    ∀ p, p ∉ tables T → (do_free = true → p ∉ frames v (S k) (L T)) → mem s2 !! p = mem s !! p).
Proof.
  intros Hk He [Hown Hh Hmem]. destruct do_free; [|wp_steps; split_and!; [done|done|intros p Hp _; by apply Hmem]].
  destruct (Hfr eq_refl) as [Hram Hnd].
  assert (frames v (S k) (L T) = pte_pa e :: frames v k (L T)) as Hfs by (cbn [frames]; by rewrite He).
  assert (pte_pa e ∈ frames v n (L T)) as Hin by (apply elem_of_frames; exists k; split; [lia|by rewrite He]).
  assert (ram_page (pte_pa e)) as Hpe by (rewrite Forall_forall in Hram; auto).
  apply NoDup_app in Hnd as (Hnd & Hd & _). specialize (Hd _ Hin).
  pose proof (frames_nodup v n (S k) (L T) Hnd ltac:(lia)) as Hnf. rewrite Hfs in *. apply NoDup_cons in Hnf as [Hnf _].
  wp_call (own_kfree _ _ _ (pte_pa e) Hown); [done| |].
  { change (tables (set_L _ T)) with (tables T). apply not_elem_of_app in Hd as [? ?]. rewrite !not_elem_of_app. by split_and!. }
  intros [] s2 (Hown2 & Hh2 & Hm2). split_and!; [exact Hown2|congruence|].
  intros p Hp Hpf. specialize (Hpf eq_refl). rewrite not_elem_of_cons in Hpf. rewrite Hm2 by tauto. apply Hmem; tauto.
Qed.

(** Its entry is cleared. *)
Lemma unmap_clear k q s1 fl1 :
  T0 T !! ((v + Z.of_nat k) / 512) = Some q →
  fl1 = (if do_free then frames v (S k) (L T) else []) ++ fl →
  pt_own s1 (set_L (unmap_range v k (L T)) T) fl1 → held s1 = held s →
  (∀ p, p ∉ tables T → (do_free = true → p ∉ frames v (S k) (L T)) → mem s1 !! p = mem s !! p) →
  wp (store64 (pte_addr q ((v + Z.of_nat k) mod 512)) 0) s1 (λ _ s2, unmapped s T fl v do_free (S k) s2).
Proof.
  intros Hq -> Hown1 Hh1 Hmem1.
  wp_call (own_set_leaf s1 _ _ (v + Z.of_nat k) q 0 (unmap_range v (S k) (L T)) Hown1); [exact Hq| | | |].
  - cbn [unmap_range]. by rewrite lookup_delete_eq.
  - intros v' Hv'. cbn [unmap_range L set_L]. by rewrite lookup_delete_ne.
  - cbn [unmap_range]. by rewrite lookup_delete_eq.
  - intros [] s3 (Hown3 & Hh3 & Hm3). split; [exact Hown3|congruence|].
    intros p Hp Hpf. rewrite Hm3; [by apply Hmem1|]. intros ->. apply Hp. by eapply in_T0.
Qed.

End unmap.

Lemma uvmunmap_spec s T fl v n (do_free : bool) :
  pt_own s T fl → 0 ≤ v → (0 < n)%nat → v + Z.of_nat n ≤ 67108864 →
  (∀ i, (i < n)%nat → is_Some (L T !! (v + Z.of_nat i))) →
  (do_free = true → Forall ram_page (frames v n (L T)) ∧ NoDup (frames v n (L T) ++ tables T ++ fl)) →
  wp (uvmunmap kernel_end (pt_root T) (PGSIZE * v) (Z.of_nat n) do_free) s (λ _ s',
    pt_own s' (set_L (unmap_range v n (L T)) T) ((if do_free then frames v n (L T) else []) ++ fl) ∧
    held s' = held s ∧
    ∀ p, p ∉ tables T → (do_free = true → p ∉ frames v n (L T)) → mem s' !! p = mem s !! p).
Proof.
  intros Hown Hv Hn Hmax Hmapped Hfr. unfold uvmunmap. wp_step.
  wp_step; [rewrite aligned_mod by mem_lia; apply bool_decide_eq_true; rewrite Z.mul_comm; by apply Z.mod_mul|].
  wp_step. wp_step; [apply Z.ltb_lt; lia|].
  apply (wp_for_range (λ i _ s', ∃ k, i = Z.of_nat k ∧ (k ≤ n)%nat ∧ unmapped s T fl v do_free k s')).
  - lia.
  - exists 0%nat. split_and!; [done|lia|]. split; [|done|done]. cbn. destruct do_free; by destruct T.
  - intros i [] s' Hi (k & -> & Hk & Hun). pose proof (un_own _ _ _ _ _ _ _ Hun) as Hown'. wp_step. wp_step; [mem_lia|]. wp_step.
    wp_step; [mem_lia|].
    replace (PGSIZE * v + Z.of_nat k * PGSIZE) with (PGSIZE * (v + Z.of_nat k)) by lia.
    wp_call (walk_read _ _ _ (PGSIZE * (v + Z.of_nat k)) Hown');
      [change (2 ^ 39) with 549755813888; mem_lia|]. intros r s1 [-> ->]. rewrite vpn_page.
    destruct (Hmapped k ltac:(lia)) as [e He].
    pose proof (pw_ok _ _ _ Hown) as Hok. destruct (po_domL _ _ Hok _ _ He) as [q Hq].
    change (T0 (set_L _ T)) with (T0 T). rewrite Hq. cbn [fmap option_fmap option_map].
    wp_step. eapply wp_expect; [done|]. wp_step. eapply wp_load_leaf; [exact Hown'|exact Hq|].
    rewrite (leaf_valid _ _ _ _ Hown'). cbn [L set_L].
    assert (unmap_range v k (L T) !! (v + Z.of_nat k) = Some e) as -> by (rewrite lookup_unmap_range, decide_False by lia; done).
    cbn [default from_option id]. rewrite bool_decide_true by done. cbn [negb].
    rewrite (proj1 (po_leaf _ _ Hok _ _ He)). cbn [negb]. wp_step.
    eapply wp_mono; [eapply unmap_frame; [done| |done|done]; lia|]. intros [] s2 (Hown2 & Hh2 & Hm2).
    eapply wp_mono; [by eapply unmap_clear|]. intros [] s3 Hun3. exists (S k). split_and!; [lia|lia|done].
  - intros [] s' (k & Hk & _ & []). assert (k = n) as -> by lia. done.
Qed.

(** ** Main theorems *)

(** [mappages] maps page after page to consecutive frames with the given
    permissions, leaves every other translation alone, takes the tables it
    needs from the free list (no page is lost or duplicated) and writes to no
    other memory.  It reports failure only when memory is exhausted or the next
    page is already mapped, and then the pages before it are mapped. *)
Theorem mappages_maps s T fl v size pa flags :
  pt_own s T fl → 0 ≤ v → 0 < size → PGSIZE * v + size ≤ MAXVA →
  pa mod PGSIZE = 0 → 0 ≤ pa → pa + size < 2 ^ 55 →
  0 ≤ flags < 1024 → Z.land flags 14 ≠ 0 →
  wp (mappages (pt_root T) (PGSIZE * v) size pa flags) s (λ r s', ∃ i T' fl',
    pt_own s' T' fl' ∧ pt_root T' = pt_root T ∧
    (∀ w, v ≤ w < v + i → ∃ e, L T' !! w = Some e ∧
       pte_pa e = pa + PGSIZE * (w - v) ∧ pte_flags e = leaf_flags flags) ∧
    (∀ w, ¬ v ≤ w < v + i → L T' !! w = L T !! w) ∧
    tables T' ++ fl' ≡ₚ tables T ++ fl ∧
    (∀ p, p ∉ tables T ++ fl → mem s' !! p = mem s !! p) ∧
    match r with
    | Some _ => i = (size + PGSIZE - 1) / PGSIZE
    | None => 0 ≤ i < (size + PGSIZE - 1) / PGSIZE ∧ (fl' = [] ∨ is_Some (L T !! (v + i)))
    end).
Proof.
  intros Hown Hv Hsz Hmax Hpa Hpa0 Hpam Hfl Hrwx.
  assert (0 ≤ (size + PGSIZE - 1) / PGSIZE ∧ PGSIZE * ((size + PGSIZE - 1) / PGSIZE) < size + PGSIZE) as [Hn0 Hn1].
  { split; [apply Z.div_pos; mem_lia|].
    pose proof (Z.mul_div_le (size + PGSIZE - 1) PGSIZE ltac:(mem_lia)). lia. }
  wp_call mappages_spec; [done..|]. intros r s' (i & T' & fl' & [U1 U2 U3 U4 U5 U6 U7] & Hr).
  assert (Z.of_nat i ≤ (size + PGSIZE - 1) / PGSIZE) as Hi by (destruct r; lia).
  exists (Z.of_nat i), T', fl'. rewrite U3. split_and!; try done.
  - intros w Hw. exists (leaf_bits (pa + PGSIZE * (w - v)) flags).
    rewrite lookup_map_range, decide_True by done.
    assert (page_addr (pa + PGSIZE * (w - v))) as Hp.
    { change (2 ^ 55) with 36028797018963968 in Hpam. split; [|by rewrite Z.mul_comm, Z.mod_add by mem_lia].
      change (2 ^ 56) with 72057594037927936. mem_lia. }
    by destruct (leaf_entry _ flags Hp Hfl) as (_ & -> & -> & _).
  - intros w Hw. by rewrite lookup_map_range, decide_False.
  - destruct r; [lia|]. destruct Hr as [? [?|?]]; (split; [lia|]); [by left|by right].
Qed.

(** Mapping and unmapping are inverse: after [mappages] succeeds, [uvmunmap]
    of the same pages restores every translation, and the pages of the tree and
    of the free list are still the same pages. *)
Theorem map_unmap s T fl v n pa flags :
  pt_own s T fl → 0 ≤ v → (0 < n)%nat → v + Z.of_nat n ≤ 67108864 →
  pa mod PGSIZE = 0 → 0 ≤ pa → pa + PGSIZE * Z.of_nat n < 2 ^ 55 →
  0 ≤ flags < 1024 → Z.land flags 14 ≠ 0 →
  (∀ i, (i < n)%nat → L T !! (v + Z.of_nat i) = None) →
  wp (r ← mappages (pt_root T) (PGSIZE * v) (PGSIZE * Z.of_nat n) pa flags;
      match r with
      | Some _ => uvmunmap kernel_end (pt_root T) (PGSIZE * v) (Z.of_nat n) false
      | None => mret tt
      end;;
      mret r) s (λ r s', r = Some tt → ∃ T' fl',
    pt_own s' T' fl' ∧ (∀ w, L T' !! w = L T !! w) ∧ tables T' ++ fl' ≡ₚ tables T ++ fl).
Proof.
  intros Hown Hv Hn Hmax Hpa Hpa0 Hpam Hfl Hrwx Hfree.
  assert (Z.to_nat ((PGSIZE * Z.of_nat n + PGSIZE - 1) / PGSIZE) = n) as Hpages.
  { replace (PGSIZE * Z.of_nat n + PGSIZE - 1) with (PGSIZE - 1 + Z.of_nat n * PGSIZE) by lia.
    rewrite Z.div_add by mem_lia. change ((PGSIZE - 1) / PGSIZE) with 0. lia. }
  wp_call mappages_spec; [done|done|mem_lia|mem_lia|done|done|done|done|done|]. rewrite Hpages.
  intros [[]|] s1 (i & T1' & fl1 & Hup & Hr); [|by wp_steps]. subst i.
  pose proof Hup as [U1 U2 U3 U4 U5 U6 U7]. rewrite <-U2.
  wp_call (uvmunmap_spec s1 T1' fl1 v n false); [done|done|done|done| |done|].
  { intros i Hi. rewrite U3, lookup_map_range, decide_True by lia. done. }
  intros [] s2 (Hown2 & _ & _). wp_steps. intros _. eexists _, _. split_and!; [exact Hown2| |done].
  intros w. cbn [L set_L]. rewrite lookup_unmap_range. destruct (decide (v ≤ w < v + Z.of_nat n)) as [Hin|Hout].
  - rewrite <-(Hfree (Z.to_nat (w - v))) by lia. f_equal. lia.
  - by rewrite U3, lookup_map_range, decide_False.
Qed.

(** [uvmunmap] with [do_free] returns exactly the frames of the range to the
    allocator, removes exactly their translations and touches no other page. *)
Theorem uvmunmap_frees s T fl v n :
  pt_own s T fl → 0 ≤ v → (0 < n)%nat → v + Z.of_nat n ≤ 67108864 →
  (∀ i, (i < n)%nat → is_Some (L T !! (v + Z.of_nat i))) →
  Forall ram_page (frames v n (L T)) → NoDup (frames v n (L T) ++ tables T ++ fl) →
  wp (uvmunmap kernel_end (pt_root T) (PGSIZE * v) (Z.of_nat n) true) s (λ _ s', ∃ T',
    pt_own s' T' (frames v n (L T) ++ fl) ∧ tables T' = tables T ∧
    (∀ w, L T' !! w = if decide (v ≤ w < v + Z.of_nat n) then None else L T !! w) ∧
    (∀ p, p ∉ tables T → p ∉ frames v n (L T) → mem s' !! p = mem s !! p)).
Proof.
  intros Hown Hv Hn Hmax Hmapped Hram Hnd.
  wp_call (uvmunmap_spec s T fl v n true); [done|done|done|done|done|done|].
  intros [] s' (Hown' & _ & Hm). eexists. split_and!; [exact Hown'|done| |].
  - intros w. apply lookup_unmap_range.
  - intros p Hp Hpf. by apply Hm.
Qed.
End page_table.

(** ** Instances

    Four pages of RAM: a root table, the two tables below it and one frame,
    mapped readable and writable at user page 0. *)
Definition demo_pg (i : nat) : Z := ram_end 4 + PGSIZE * Z.of_nat i.
Definition demo_leaf : Z := leaf_bits (demo_pg 3) (Z.lor (Z.lor PTE_U PTE_R) PTE_W).
Definition demo_mem : gmap Z (list u8) :=
  set_entry (set_entry (set_entry (mem (zero_machine 4)) (demo_pg 0) 0 (table_bits (demo_pg 1)))
    (demo_pg 1) 0 (table_bits (demo_pg 2))) (demo_pg 2) 0 demo_leaf.
Definition demo_vm : machine := mkMachine demo_mem 0 [].
Definition demo_tree : ptree := mkPtree (demo_pg 0) {[0 := demo_pg 1]} {[0 := demo_pg 2]} {[0 := demo_leaf]}.

Lemma demo_end_pos : 0 < ram_end 4.
Proof. done. Qed.
Lemma demo_ram i : (i < 4)%nat → ram_page (ram_end 4) (demo_pg i).
Proof. intros Hi. apply ram_end_page; lia. Qed.

Lemma kinv_set_entry e s fl p i v :
  kinv e s fl → ram_page e p → p ∉ fl → is_idx i →
  kinv e (set_mem (set_entry (mem s) p i v) s) fl.
Proof.
  intros Hk Hp Hn Hi. unfold set_entry. apply kinv_store; [done..|].
  destruct (kinv_lookup _ _ _ _ Hk Hp) as (d & Hd & Hdok). rewrite (lookup_total_correct _ _ _ Hd).
  apply store64_page_ok; [done|]. unfold is_idx in Hi. lia.
Qed.

Lemma demo_stages :
  let s0 := zero_machine 4 in
  let s1 := set_mem (set_entry (mem s0) (demo_pg 0) 0 (table_bits (demo_pg 1))) s0 in
  let s2 := set_mem (set_entry (mem s1) (demo_pg 1) 0 (table_bits (demo_pg 2))) s1 in
  kinv (ram_end 4) s0 [] ∧ kinv (ram_end 4) s1 [] ∧ kinv (ram_end 4) s2 [] ∧ kinv (ram_end 4) demo_vm [].
Proof.
  cbv zeta. assert (kinv (ram_end 4) (zero_machine 4) []) as H0 by (apply zero_kinv; lia).
  pose proof (λ s i v Hk Hi, kinv_set_entry (ram_end 4) s [] (demo_pg i) 0 v Hk (demo_ram i Hi)
    (not_elem_of_nil _) ltac:(done)) as Hstep.
  pose proof (Hstep _ 0%nat (table_bits (demo_pg 1)) H0 ltac:(lia)) as H1.
  pose proof (Hstep _ 1%nat (table_bits (demo_pg 2)) H1 ltac:(lia)) as H2.
  pose proof (Hstep _ 2%nat demo_leaf H2 ltac:(lia)) as H3. done.
Qed.

Lemma demo_entry i j :
  (i < 3)%nat → is_idx j →
  entry demo_mem (demo_pg i) j =
    if decide (j = 0) then match i with 0%nat => table_bits (demo_pg 1) | 1%nat => table_bits (demo_pg 2)
                           | _ => demo_leaf end
    else 0.
Proof.
  intros Hi Hj. destruct demo_stages as (K0 & K1 & K2 & _).
  assert (∀ s, kinv (ram_end 4) s [] → ∀ i, (i < 4)%nat → ∃ d, mem s !! demo_pg i = Some d ∧ page_ok d) as Hlk.
  { intros s Hk k Hk'. eapply kinv_lookup; [done|by apply demo_ram]. }
  assert (0 ≤ table_bits (demo_pg 1) < 256 ^ 8 ∧ 0 ≤ table_bits (demo_pg 2) < 256 ^ 8 ∧ 0 ≤ demo_leaf < 256 ^ 8)
    as (B1 & B2 & B3) by (by vm_compute).
  destruct (Hlk _ K2 2%nat ltac:(lia)) as (d2 & Hd2 & Ho2), (Hlk _ K1 1%nat ltac:(lia)) as (d1 & Hd1 & Ho1),
    (Hlk _ K0 0%nat ltac:(lia)) as (d0 & Hd0 & Ho0).
  unfold demo_mem. rewrite (entry_set _ _ _ _ _ _ d2) by done. rewrite (entry_set _ _ _ _ _ _ d1) by done.
  rewrite (entry_set _ _ _ _ _ _ d0) by done.
  rewrite (entry_zero_page (mem (zero_machine 4))) by (done || (apply zero_lookup; [lia|apply demo_ram; lia])).
  destruct (decide (j = 0)) as [->|Hne].
  - destruct i as [|[|[|i]]]; [| | |lia]; repeat (rewrite decide_False by (intros [Heq _]; by vm_compute in Heq));
      by rewrite decide_True.
  - by rewrite !decide_False by (intros [_ <-]; by apply Hne).
Qed.

Lemma demo_own : pt_own (ram_end 4) demo_vm demo_tree [].
Proof.
  destruct demo_stages as (_ & _ & _ & Hk). split; [done| | |].
  - split; cbn [T1 T0 L pt_root demo_tree mem demo_vm].
    + intros i Hi. rewrite demo_entry by (done || lia).
      destruct (decide (i = 0)) as [->|Hne]; [done|]. by rewrite lookup_singleton_ne.
    + intros i p j [<- <-]%lookup_singleton_Some Hj. rewrite demo_entry by (done || lia).
      destruct (decide (j = 0)) as [->|Hne]; [done|]. by rewrite lookup_singleton_ne by lia.
    + intros k q l [<- <-]%lookup_singleton_Some Hl. rewrite demo_entry by (done || lia).
      destruct (decide (l = 0)) as [->|Hne]; [done|]. by rewrite lookup_singleton_ne by lia.
    + intros i p [<- _]%lookup_singleton_Some. done.
    + intros k q [<- _]%lookup_singleton_Some. done.
    + intros v e [<- _]%lookup_singleton_Some. done.
    + intros v e [<- <-]%lookup_singleton_Some. by vm_compute.
  - unfold tables. cbn [T1 T0 pt_root demo_tree]. rewrite !map_to_list_singleton. cbn.
    rewrite !Forall_cons, Forall_nil. split_and!; [apply (demo_ram 0)|apply (demo_ram 1)|apply (demo_ram 2)|done]; lia.
  - unfold tables. cbn [T1 T0 pt_root demo_tree]. rewrite !map_to_list_singleton. by apply (bool_decide_unpack _).
Qed.

Lemma mappages_maps_witness :
  wp (mappages (demo_pg 0) (PGSIZE * 1) PGSIZE (demo_pg 3) PTE_R) demo_vm (λ r s', ∃ i T' fl',
    pt_own (ram_end 4) s' T' fl' ∧ pt_root T' = demo_pg 0 ∧
    (∀ w, 1 ≤ w < 1 + i → ∃ e, L T' !! w = Some e ∧
       pte_pa e = demo_pg 3 + PGSIZE * (w - 1) ∧ pte_flags e = leaf_flags PTE_R) ∧
    (∀ w, ¬ 1 ≤ w < 1 + i → L T' !! w = L demo_tree !! w) ∧
    tables T' ++ fl' ≡ₚ tables demo_tree ++ [] ∧
    (∀ p, p ∉ tables demo_tree ++ [] → mem s' !! p = mem demo_vm !! p) ∧
    match r with
    | Some _ => i = (PGSIZE + PGSIZE - 1) / PGSIZE
    | None => 0 ≤ i < (PGSIZE + PGSIZE - 1) / PGSIZE ∧ (fl' = [] ∨ is_Some (L demo_tree !! (1 + i)))
    end).
Proof. apply (mappages_maps (ram_end 4) demo_end_pos _ demo_tree []); [apply demo_own|by vm_compute..]. Defined.

Lemma map_unmap_witness :
  wp (r ← mappages (demo_pg 0) (PGSIZE * 1) (PGSIZE * 2) (demo_pg 3) PTE_R;
      match r with
      | Some _ => uvmunmap (ram_end 4) (demo_pg 0) (PGSIZE * 1) 2 false
      | None => mret tt
      end;;
      mret r) demo_vm (λ r s', r = Some tt → ∃ T' fl',
    pt_own (ram_end 4) s' T' fl' ∧ (∀ w, L T' !! w = L demo_tree !! w) ∧
    tables T' ++ fl' ≡ₚ tables demo_tree ++ []).
Proof.
  apply (map_unmap (ram_end 4) demo_end_pos demo_vm demo_tree [] 1 2);
    [apply demo_own|lia|lia|lia|by vm_compute..|].
  intros i Hi. cbn [L demo_tree]. apply lookup_singleton_ne. lia.
Defined.

Lemma uvmunmap_frees_witness :
  wp (uvmunmap (ram_end 4) (demo_pg 0) (PGSIZE * 0) 1 true) demo_vm (λ _ s', ∃ T',
    pt_own (ram_end 4) s' T' (frames 0 1 (L demo_tree) ++ []) ∧ tables T' = tables demo_tree ∧
    (∀ w, L T' !! w = if decide (0 ≤ w < 0 + 1) then None else L demo_tree !! w) ∧
    (∀ p, p ∉ tables demo_tree → p ∉ frames 0 1 (L demo_tree) → mem s' !! p = mem demo_vm !! p)).
Proof.
  apply (uvmunmap_frees (ram_end 4) demo_end_pos demo_vm demo_tree [] 0 1);
    [apply demo_own|lia|lia|lia| | |].
  - intros [|i] Hi; [done|lia].
  - apply Forall_singleton. apply (demo_ram 3). lia.
  - unfold tables. cbn [T1 T0 pt_root demo_tree]. rewrite !map_to_list_singleton. by apply (bool_decide_unpack _).
Defined.

(** ** Running out of memory in [uvmalloc]

    Of ten pages of memory the trapframe and the three tables of a fresh process
    page table take four, and the tables of the heap's first pages two more.
    Growing the process by eight pages then fails in
    [kalloc_zeroed], and the pages mapped so far stay mapped above the recorded
    size: freeing the page table with that size stops the kernel. *)
Definition grow_run : M machine (option unit) :=
  kinit (ram_end 10);;
  tf ← kalloc_zeroed;
  tf ← expect tf "trapframe";
  pt ← proc_pagetable (ram_end 10) KERNBASE tf;
  pt ← expect pt "proc_pagetable";
  r ← uvmalloc (ram_end 10) pt 0 (8 * PGSIZE);
  proc_freepagetable (ram_end 10) pt 0;;
  mret r.

Example uvmalloc_failure_panics : grow_run (zero_machine 10) = Fault (Panic "freewalk: leaf").
Proof. by vm_compute. Qed.
