(* ===== verification/UserMem.v ===== *)
(** * User memory (src/src/vm.rs: walk_user_perm, copyin, copyinstr, copyout)

    User memory as the bytes reachable through the user leaves of a page table,
    and the copies between it and kernel buffers. *)

From S2P Require Import Prelude Spinlock Kalloc Vm PageTable.

Section user_memory.
Context (kernel_end : usize) (Hend_pos : 0 < kernel_end) (Hend_max : kernel_end ≤ PHYSTOP).

Local Abbreviation ram_page := (ram_page kernel_end).
Local Abbreviation kinv := (kinv kernel_end).
Local Abbreviation pt_own := (pt_own kernel_end).

(** ** User memory *)

Definition is_user (e : Z) : bool := negb (Z.land e PTE_U =? 0).

(** The leaf through which user code may access [va] with [perm]. *)
Definition user_leaf (T : ptree) (perm va : Z) : option Z :=
  if MAXVA <=? va then None
  else e ← L T !! vpn va; if is_user e && (Z.land e perm =? perm) then Some e else None.

(** The byte of user memory at [va]. *)
Definition ubyte (m : gmap Z (list u8)) (T : ptree) (perm va : Z) : option Z :=
  e ← user_leaf T perm va; d ← m !! pte_pa e; d !! Z.to_nat (va mod PGSIZE).

Definition user_bytes (m : gmap Z (list u8)) (T : ptree) (perm va : Z) (bs : list u8) : Prop :=
  ∀ i : nat, (i < length bs)%nat → ubyte m T perm (va + Z.of_nat i) = bs !! i.

(** A page table whose user pages are frames of their own. *)
Record space_ok (s : machine) (T : ptree) (fl : list Z) : Prop := {
  so_own : pt_own s T fl;
  so_frame v e : L T !! v = Some e → is_user e = true → ram_page (pte_pa e) ∧ pte_pa e ∉ tables T ++ fl;
  so_inj v v' e e' : L T !! v = Some e → L T !! v' = Some e' → is_user e = true → is_user e' = true →
    pte_pa e = pte_pa e' → v = v';
}.

Lemma walk_user_perm_spec s T fl va perm :
  pt_own s T fl → 0 ≤ va →
  wp (walk_user_perm (pt_root T) va perm) s (λ r s', s' = s ∧ r = user_leaf T perm va).
Proof.
  intros Hown Hva. pose proof Hown as [_ Hok _ _]. unfold walk_user_perm, user_leaf.
  destruct (Z.leb_spec MAXVA va); [by wp_steps|].
  wp_call (walk_read kernel_end Hend_pos); [done|change (2 ^ 39) with 549755813888; mem_lia|]. intros r s' [-> ->].
  destruct (T0 T !! (vpn va / 512)) as [q|] eqn:Hq; cbn [fmap option_fmap option_map].
  2: { wp_steps. split; [done|]. destruct (L T !! vpn va) eqn:HL; [|done].
       apply (po_domL _ _ Hok) in HL as [? ?]. congruence. }
  wp_step. eapply wp_load_leaf; [done|done|]. rewrite (leaf_valid _ _ _ _ _ Hown).
  destruct (L T !! vpn va) as [e|] eqn:HL; cbn; [|by wp_steps].
  destruct (po_leaf _ _ Hok _ _ HL) as [Hleaf _]. unfold is_user. rewrite Hleaf.
  destruct (Z.land e PTE_U =? 0); [by wp_steps|]. cbn.
  destruct (Z.land e perm =? perm); by wp_steps.
Qed.

Lemma round_down_eq a : 0 ≤ a → page_round_down a = a - a mod PGSIZE.
Proof.
  intros Ha. unfold page_round_down. change (PGSIZE - 1) with (Z.ones 12).
  rewrite Z.ldiff_ones_r, Z.shiftr_div_pow2, Z.shiftl_mul_pow2 by lia. change (2 ^ 12) with PGSIZE.
  pose proof (Z.div_mod a PGSIZE ltac:(mem_lia)). lia.
Qed.

(** Positions of the same page. *)
Lemma in_page a i :
  0 ≤ i → a mod PGSIZE + i < PGSIZE → vpn (a + i) = vpn a ∧ (a + i) mod PGSIZE = a mod PGSIZE + i.
Proof.
  intros Hi Hb. unfold vpn. change 4096 with PGSIZE.
  pose proof (Z.mod_pos_bound a PGSIZE ltac:(mem_lia)). pose proof (Z.div_mod a PGSIZE ltac:(mem_lia)).
  split; [symmetry; apply (Z.div_unique _ _ _ (a mod PGSIZE + i))|
          symmetry; apply (Z.mod_unique _ _ (a / PGSIZE))]; mem_lia.
Qed.

Lemma user_leaf_page T perm a i :
  0 ≤ a → 0 ≤ i → a mod PGSIZE + i < PGSIZE → a < MAXVA → user_leaf T perm (a + i) = user_leaf T perm a.
Proof.
  intros H0 Hi Hb Ha. unfold user_leaf. destruct (in_page a i Hi Hb) as [Hv _]. rewrite Hv.
  assert (a + i < MAXVA) as Hai.
  { pose proof (Z.div_mod a PGSIZE ltac:(mem_lia)).
    assert (a / PGSIZE < 67108864) by (apply Z.div_lt_upper_bound; mem_lia). mem_lia. }
  by rewrite !(proj2 (Z.leb_gt _ _)) by done.
Qed.

Lemma user_leaf_round T perm a : 0 ≤ a → user_leaf T perm (a - a mod PGSIZE) = user_leaf T perm a.
Proof.
  intros Ha. pose proof (Z.mod_pos_bound a PGSIZE ltac:(mem_lia)) as Hm.
  pose proof (Z.div_mod a PGSIZE ltac:(mem_lia)) as Hdm.
  assert ((a - a mod PGSIZE) mod PGSIZE = 0) as H0.
  { replace (a - a mod PGSIZE) with (a / PGSIZE * PGSIZE) by lia. apply Z.mod_mul. mem_lia. }
  destruct (Z.ltb_spec (a - a mod PGSIZE) MAXVA) as [Hlt|Hge].
  - assert (0 ≤ a / PGSIZE) by (apply Z.div_pos; mem_lia).
    replace a with (a - a mod PGSIZE + a mod PGSIZE) at 3 by lia.
    symmetry. apply user_leaf_page; mem_lia.
  - unfold user_leaf. by rewrite !(proj2 (Z.leb_le _ _)) by mem_lia.
Qed.

Lemma space_page s T fl perm a e :
  space_ok s T fl → user_leaf T perm a = Some e →
  a < MAXVA ∧ L T !! vpn a = Some e ∧ is_user e = true ∧
  ∃ d, mem s !! pte_pa e = Some d ∧ page_ok d.
Proof.
  intros [Hown Hfr _] He. unfold user_leaf in He. destruct (Z.leb_spec MAXVA a); [done|].
  destruct (L T !! vpn a) as [e'|] eqn:HL; [|done]. cbn in He.
  destruct (is_user e') eqn:Hu; [|done]. cbn in He. destruct (_ =? _); [|done]. injection He as ->.
  split_and!; try done. destruct (Hfr _ _ HL Hu) as [Hr _]. eapply kinv_lookup; [apply Hown|done].
Qed.

(** The bytes of one page, through a user mapping. *)
Lemma ubyte_page m T perm a e d i :
  0 ≤ a < MAXVA → user_leaf T perm a = Some e → m !! pte_pa e = Some d →
  0 ≤ i → a mod PGSIZE + i < PGSIZE →
  ubyte m T perm (a + i) = d !! (Z.to_nat (a mod PGSIZE) + Z.to_nat i)%nat.
Proof.
  intros Ha He Hd Hi Hb. unfold ubyte. rewrite user_leaf_page by lia. rewrite He. cbn. rewrite Hd. cbn.
  destruct (in_page a i Hi Hb) as [_ ->]. f_equal.
  pose proof (Z.mod_pos_bound a PGSIZE ltac:(mem_lia)). lia.
Qed.

Lemma user_addr_spec va done :
  0 ≤ va ≤ USIZE_MAX → 0 ≤ done →
  match user_addr va done with
  | Some a => a = va + done ∧ a < MAXVA
  | None => MAXVA ≤ va + done
  end.
Proof.
  intros Hva Hd. unfold user_addr, checked.
  destruct (Z.leb_spec 0 (va + done)); [|lia]. cbn [andb].
  destruct (Z.leb_spec (va + done) USIZE_MAX); [|mem_lia].
  destruct (Z.leb_spec MAXVA (va + done)); [done|]. split; [done|lia].
Qed.

Lemma ubyte_none m T perm a : MAXVA ≤ a → ubyte m T perm a = None.
Proof. intros Ha. unfold ubyte, user_leaf. by rewrite (proj2 (Z.leb_le _ _)). Qed.

Lemma copyin_spec s T fl dst va :
  space_ok s T fl → 0 ≤ va ≤ USIZE_MAX → Z.of_nat (length dst) ≤ USIZE_MAX →
  wp (copyin (pt_root T) dst va) s (λ '(r, dst') s', s' = s ∧ length dst' = length dst ∧
    match r with
    | Some _ => user_bytes (mem s) T PTE_R va dst'
    | None => ∃ i : nat, (i < length dst)%nat ∧ ubyte (mem s) T PTE_R (va + Z.of_nat i) = None
    end).
Proof.
  intros Hsp Hva Hlen. pose proof (so_own _ _ _ Hsp) as Hown. unfold copyin.
  set (len := Z.of_nat (length dst)) in *.
  apply (wp_while (λ '(done, dst') s', s' = s ∧ 0 ≤ done ≤ len ∧ length dst' = length dst ∧
      ∀ i : nat, Z.of_nat i < done → ubyte (mem s) T PTE_R (va + Z.of_nat i) = dst' !! i)
    (λ '(done, _), Z.to_nat (len - done))).
  - intros [done dst'] s' (-> & Hd & Hl & Hb). destruct (Z.ltb_spec done len) as [Hlt|Hge].
    2: { wp_steps. split_and!; [done|done|]. intros i Hi. apply Hb. lia. }
    pose proof (user_addr_spec va done Hva ltac:(lia)) as Hua.
    destruct (user_addr va done) as [a|]; cycle 1.
    { wp_steps. split_and!; [done|done|]. exists (Z.to_nat done). split; [lia|].
      rewrite Z2Nat.id by lia. by apply ubyte_none. }
    destruct Hua as [-> Ha]. cbv zeta. rewrite round_down_eq by lia.
    pose proof (Z.mod_pos_bound (va + done) PGSIZE ltac:(mem_lia)) as Hmod.
    replace (va + done - (va + done - (va + done) mod PGSIZE)) with ((va + done) mod PGSIZE) by lia.
    set (off := (va + done) mod PGSIZE) in *. set (n := Z.min (PGSIZE - off) (len - done)).
    wp_call walk_user_perm_spec; [done|unfold off; apply Z.le_0_sub, Z.mod_le; mem_lia|].
    intros r s1 [-> ->]. unfold off at 1. rewrite user_leaf_round by lia.
    destruct (user_leaf T PTE_R (va + done)) as [e|] eqn:He; cycle 1.
    { wp_steps. split_and!; [done|done|]. exists (Z.to_nat done). split; [lia|].
      rewrite Z2Nat.id by lia. unfold ubyte. by rewrite He. }
    destruct (space_page _ _ _ _ _ _ Hsp He) as (_ & _ & _ & d & Hdl & [Hdlen _]).
    wp_step. eapply wp_load_page; [done|]. wp_step. apply wp_subslice; [lia|lia|rewrite Hdlen; mem_lia|].
    assert (length (slice (Z.to_nat off) (Z.to_nat n) d) = Z.to_nat n) as Hls
      by (rewrite length_slice; [done|rewrite Hdlen; mem_lia]).
    wp_step. apply wp_copy_into; [lia|rewrite Hls; lia|]. wp_steps.
    assert (Z.to_nat done + length (slice (Z.to_nat off) (Z.to_nat n) d) ≤ length dst')%nat as Hfit
      by (rewrite Hls; lia).
    split; [|lia]. split_and!; [done|lia|lia|by rewrite length_splice|].
    intros i Hi. destruct (decide (Z.of_nat i < done)).
    + rewrite lookup_splice_out by (done || lia). by apply Hb.
    + rewrite lookup_splice_in by (done || lia). rewrite lookup_slice by lia.
      replace (va + Z.of_nat i) with (va + done + (Z.of_nat i - done)) by lia.
      rewrite (ubyte_page _ _ _ (va + done) e d) by (done || fold off; lia).
      fold off. f_equal. lia.
  - split_and!; [done|lia|lia|done|]. intros i Hi. lia.
  - lia.
Qed.

Lemma space_store s T fl p d :
  space_ok s T fl → ram_page p → p ∉ tables T ++ fl → page_ok d →
  space_ok (set_mem (<[p := d]> (mem s)) s) T fl.
Proof. intros [H1 H2 H3] Hp Hn Hd. split; [by apply own_store_frame|done|done]. Qed.

(** Bytes seen through the mappings after part of the page of [a] changed. *)
Lemma ubyte_store s T fl wperm a e d chunk perm b :
  space_ok s T fl → 0 ≤ a → user_leaf T wperm a = Some e → mem s !! pte_pa e = Some d → page_ok d →
  a mod PGSIZE + Z.of_nat (length chunk) ≤ PGSIZE → 0 ≤ b →
  ubyte (<[pte_pa e := splice (Z.to_nat (a mod PGSIZE)) chunk d]> (mem s)) T perm b =
    (λ x, if decide (a ≤ b < a + Z.of_nat (length chunk)) then chunk !!! Z.to_nat (b - a) else x)
      <$> ubyte (mem s) T perm b.
Proof.
  intros Hsp Ha He Hd [Hdl _] Hfit Hb0. pose proof (Z.mod_pos_bound a PGSIZE ltac:(mem_lia)) as Hmod.
  destruct (space_page _ _ _ _ _ _ Hsp He) as (_ & HLa & Hua & _).
  unfold ubyte. destruct (user_leaf T perm b) as [eb|] eqn:Heb; [|done]. cbn.
  destruct (space_page _ _ _ _ _ _ Hsp Heb) as (_ & HLb & Hub & _).
  destruct (decide (pte_pa e = pte_pa eb)) as [Heq|Hne].
  - pose proof (so_inj _ _ _ Hsp _ _ _ _ HLa HLb Hua Hub Heq) as Hv. unfold vpn in Hv. change 4096 with PGSIZE in Hv.
    rewrite <-Heq, lookup_insert_eq, Hd. cbn.
    pose proof (Z.div_mod a PGSIZE ltac:(mem_lia)). pose proof (Z.div_mod b PGSIZE ltac:(mem_lia)).
    pose proof (Z.mod_pos_bound b PGSIZE ltac:(mem_lia)).
    assert (b - a = b mod PGSIZE - a mod PGSIZE) as Hba by (rewrite Hv in *; lia).
    assert (is_Some (d !! Z.to_nat (b mod PGSIZE))) as [x Hx] by (apply lookup_lt_is_Some; rewrite Hdl; lia).
    rewrite Hx. cbn. destruct (decide (a ≤ b < a + Z.of_nat (length chunk))).
    + rewrite lookup_splice_in by (rewrite ?Hdl; mem_lia).
      replace (_ - _)%nat with (Z.to_nat (b - a)) by lia. apply list_lookup_lookup_total_lt. lia.
    + rewrite lookup_splice_out by (rewrite ?Hdl; mem_lia). done.
  - rewrite lookup_insert_ne by done. destruct (mem s !! pte_pa eb) as [db|]; [|done]. cbn.
    destruct (db !! _); [|done]. cbn. rewrite decide_False; [done|]. intros Hin.
    apply Hne. assert (vpn b = vpn a) as Hv.
    { replace b with (a + (b - a)) by lia. apply in_page; lia. }
    rewrite Hv in HLb. congruence.
Qed.

(** [k] bytes of [src] have been written at [va]. *)
Record copied (s : machine) (T : ptree) (fl : list Z) (va : Z) (src : list u8) (k : Z) (s' : machine) : Prop := {
  cp_space : space_ok s' T fl;
  cp_held : held s' = held s;
  cp_bytes perm a : 0 ≤ a → ubyte (mem s') T perm a =
    (λ x, if decide (va ≤ a < va + k) then src !!! Z.to_nat (a - va) else x) <$> ubyte (mem s) T perm a;
  cp_frame p : (∀ v e, L T !! v = Some e → is_user e = true → pte_pa e ≠ p) → mem s' !! p = mem s !! p;
}.

Lemma copied_chunk s T fl va src k s1 e d n :
  copied s T fl va src k s1 → 0 ≤ va → 0 ≤ k → 0 ≤ n → k + n ≤ Z.of_nat (length src) → bytes_ok src →
  user_leaf T PTE_W (va + k) = Some e → mem s1 !! pte_pa e = Some d → page_ok d →
  (va + k) mod PGSIZE + n ≤ PGSIZE →
  copied s T fl va src (k + n)
    (set_mem (<[pte_pa e := splice (Z.to_nat ((va + k) mod PGSIZE))
                              (slice (Z.to_nat k) (Z.to_nat n) src) d]> (mem s1)) s1).
Proof.
  intros [H1 H2 H3 H4] Hva Hk Hn Hlen Hsrc He Hd Hdok Hfit.
  assert (length (slice (Z.to_nat k) (Z.to_nat n) src) = Z.to_nat n) as Hls by (apply length_slice; lia).
  pose proof (Z.mod_pos_bound (va + k) PGSIZE ltac:(mem_lia)).
  destruct (space_page _ _ _ _ _ _ H1 He) as (_ & HL & Hu & _).
  destruct (so_frame _ _ _ H1 _ _ HL Hu) as [Hram Hn'].
  split; cbn [mem set_mem].
  - apply space_store; [done|done|done|]. destruct Hdok as [Hl Hb]. split.
    + rewrite length_splice; [done|]. rewrite Hls, Hl. mem_lia.
    + by apply Forall_splice; [apply Forall_slice|].
  - done.
  - intros perm a Ha. rewrite (ubyte_store s1 T fl PTE_W (va + k)); try (done || lia). rewrite H3 by done.
    rewrite Hls. destruct (ubyte (mem s) T perm a) as [x|]; [|done]. cbn. f_equal.
    destruct (decide (va + k ≤ a < va + k + Z.of_nat (Z.to_nat n))).
    + rewrite decide_True by lia. rewrite !list_lookup_total_alt. f_equal.
      rewrite lookup_slice by lia. f_equal. lia.
    + destruct (decide (va ≤ a < va + k)); [by rewrite decide_True by lia|by rewrite decide_False by lia].
  - intros p Hp. rewrite lookup_insert_ne by (by eapply Hp). by apply H4.
Qed.

(** Every byte that was written lies on a page the user may write to. *)
Lemma copyout_writes s T fl src va :
  space_ok s T fl → 0 ≤ va ≤ USIZE_MAX → Z.of_nat (length src) ≤ USIZE_MAX → bytes_ok src →
  wp (copyout (pt_root T) va src) s (λ r s', ∃ k, copied s T fl va src k s' ∧
    (∀ i, 0 ≤ i < k → is_Some (user_leaf T PTE_W (va + i))) ∧
    match r with
    | Some _ => k = Z.of_nat (length src)
    | None => 0 ≤ k < Z.of_nat (length src) ∧ user_leaf T PTE_W (va + k) = None
    end).
Proof.
  intros Hsp Hva Hlen Hsrc. unfold copyout. set (len := Z.of_nat (length src)) in *.
  apply (wp_while (λ done s', 0 ≤ done ≤ len ∧ copied s T fl va src done s' ∧
      ∀ i, 0 ≤ i < done → is_Some (user_leaf T PTE_W (va + i))) (λ done, Z.to_nat (len - done))).
  - intros done s' (Hd & Hc & Hall). destruct (Z.ltb_spec done len) as [Hlt|Hge].
    2: { wp_steps. exists done. split_and!; [done|done|lia]. }
    pose proof (user_addr_spec va done Hva ltac:(lia)) as Hua.
    destruct (user_addr va done) as [a|]; cycle 1.
    { wp_steps. exists done. split_and!; [done|done|lia|lia|]. unfold user_leaf. by rewrite (proj2 (Z.leb_le _ _)). }
    destruct Hua as [-> Ha]. cbv zeta. rewrite round_down_eq by lia.
    pose proof (Z.mod_pos_bound (va + done) PGSIZE ltac:(mem_lia)) as Hmod.
    replace (va + done - (va + done - (va + done) mod PGSIZE)) with ((va + done) mod PGSIZE) by lia.
    set (n := Z.min _ _). pose proof (cp_space _ _ _ _ _ _ _ Hc) as Hsp'.
    wp_call walk_user_perm_spec; [apply Hsp'|apply Z.le_0_sub, Z.mod_le; mem_lia|].
    intros r s1 [-> ->]. rewrite user_leaf_round by lia.
    destruct (user_leaf T PTE_W (va + done)) as [e|] eqn:He; [|wp_steps; exists done; split_and!; (done || lia)].
    destruct (space_page _ _ _ _ _ _ Hsp' He) as (_ & _ & _ & d & Hdl & Hdok). pose proof Hdok as [Hdlen _].
    wp_step. apply wp_subslice; [lia|lia|lia|]. wp_step. eapply wp_load_page; [done|].
    assert (length (slice (Z.to_nat done) (Z.to_nat n) src) = Z.to_nat n) as Hls by (apply length_slice; lia).
    wp_step. apply wp_copy_into; [lia|rewrite Hls, Hdlen; mem_lia|].
    wp_step. apply wp_store_page; [by eexists|]. wp_steps. split; [|lia]. split_and!; [lia|lia| |].
    + eapply copied_chunk; try (done || lia).
    + intros i Hi. destruct (decide (i < done)); [by apply Hall; lia|].
      replace (va + i) with (va + done + (i - done)) by lia. rewrite user_leaf_page by lia. by rewrite He.
  - split_and!; [lia|lia| |lia]. split; [done|done| |done].
    intros perm a Ha. destruct (ubyte _ _ _ _); [|done]. cbn. by rewrite decide_False by lia.
  - lia.
Qed.

Lemma copyout_spec s T fl src va :
  space_ok s T fl → 0 ≤ va ≤ USIZE_MAX → Z.of_nat (length src) ≤ USIZE_MAX → bytes_ok src →
  wp (copyout (pt_root T) va src) s (λ r s', ∃ k, copied s T fl va src k s' ∧
    match r with
    | Some _ => k = Z.of_nat (length src) ∧
        ∀ i, 0 ≤ i < k → is_Some (user_leaf T PTE_W (va + i))
    | None => 0 ≤ k < Z.of_nat (length src) ∧ user_leaf T PTE_W (va + k) = None
    end).
Proof.
  intros Hsp Hva Hlen Hsrc. wp_call copyout_writes; [done..|]. intros [[]|] s' (k & Hc & Hall & Hr); by exists k.
Qed.

(** ** Strings *)

Lemma range_lookup lo hi pre x post :
  range lo hi = pre ++ x :: post → x = lo + Z.of_nat (length pre) ∧ lo ≤ x < hi.
Proof.
  intros Heq. assert (range lo hi !! length pre = Some x) as Hl by (rewrite Heq; by apply list_lookup_middle).
  apply lookup_seqZ in Hl. lia.
Qed.

(** The part of a string in one page. *)
Lemma copy_string_spec (s : machine) d off done n dst :
  0 ≤ off → 0 ≤ done → 0 ≤ n → off + n ≤ Z.of_nat (length d) → done + n ≤ Z.of_nat (length dst) →
  wp (copy_string d off done n dst) s (λ r s', s' = s ∧
    match r with
    | inl dst' => length dst' = length dst ∧ take (Z.to_nat done) dst' = take (Z.to_nat done) dst ∧
        ∀ i, 0 ≤ i < n → dst' !! Z.to_nat (done + i) = d !! Z.to_nat (off + i) ∧ d !! Z.to_nat (off + i) ≠ Some 0
    | inr (j, dst') => length dst' = length dst ∧ take (Z.to_nat done) dst' = take (Z.to_nat done) dst ∧
        done ≤ j < done + n ∧ d !! Z.to_nat (off + (j - done)) = Some 0 ∧
        ∀ i, 0 ≤ i ≤ j - done → dst' !! Z.to_nat (done + i) = d !! Z.to_nat (off + i) ∧
          (i < j - done → d !! Z.to_nat (off + i) ≠ Some 0)
    end).
Proof.
  intros Hoff Hdone Hn Hd Hdst. unfold copy_string.
  apply (wp_for_each (λ pre dst' s', s' = s ∧ length dst' = length dst ∧
    take (Z.to_nat done) dst' = take (Z.to_nat done) dst ∧
    ∀ i, 0 ≤ i < Z.of_nat (length pre) → dst' !! Z.to_nat (done + i) = d !! Z.to_nat (off + i) ∧
      d !! Z.to_nat (off + i) ≠ Some 0)).
  - split_and!; [done|done|done|]. simpl. lia.
  - intros pre x post dst' s' Hxs (-> & Hl & Htk & Hpre). apply range_lookup in Hxs as [Hx Hr].
    assert (is_Some (d !! Z.to_nat (off + x))) as [b Hb] by (apply lookup_lt_is_Some; lia).
    wp_step. eapply wp_aget; [lia|done|]. wp_step. apply wp_copy_into; [lia|simpl; lia|].
    set (dst'' := splice _ _ _).
    assert (length dst'' = length dst) as Hl'' by (unfold dst''; rewrite length_splice; simpl; lia).
    assert (take (Z.to_nat done) dst'' = take (Z.to_nat done) dst) as Htk''.
    { rewrite <-Htk. unfold dst'', splice. rewrite take_app_le by (rewrite length_take; lia).
      rewrite take_take. f_equal. lia. }
    assert (∀ i, 0 ≤ i ≤ x → dst'' !! Z.to_nat (done + i) = d !! Z.to_nat (off + i)) as Hcopy.
    { intros i Hi. unfold dst''. destruct (decide (i = x)) as [->|Hne].
      - rewrite lookup_splice_in by (simpl; lia).
        replace (Z.to_nat (done + x) - Z.to_nat (done + x))%nat with 0%nat by lia. by rewrite Hb.
      - rewrite lookup_splice_out by (simpl; lia). apply Hpre. lia. }
    destruct (Z.eqb_spec b 0) as [->|Hb0]; wp_steps.
    + split_and!; [done|done|done|lia|lia| |].
      * by replace (off + (done + x - done)) with (off + x) by lia.
      * intros i Hi. split; [apply Hcopy; lia|]. intros Hlt. apply Hpre. lia.
    + split_and!; [done|done|done|]. intros i Hi. rewrite length_app in Hi. simpl in Hi.
      split; [apply Hcopy; lia|]. destruct (decide (i = x)) as [->|]; [congruence|apply Hpre; lia].
  - intros dst' s' (-> & Hl & Htk & Hpre). split_and!; [done|done|done|].
    intros i Hi. apply Hpre. unfold range. rewrite length_seqZ. lia.
Qed.

(** The part of a user string that [copyinstr] has gone through. *)
Definition string_prefix (m : gmap Z (list u8)) (T : ptree) (va : Z) (n : Z) (dst : list u8) : Prop :=
  ∀ i, 0 ≤ i < n → ubyte m T PTE_R (va + i) = dst !! Z.to_nat i ∧ dst !! Z.to_nat i ≠ Some 0.

(** Bytes other than NUL copied from one page continue the prefix. *)
Lemma prefix_extends m T va done dst dst' (d : list u8) off k :
  string_prefix m T va done dst → 0 ≤ done → 0 ≤ k → take (Z.to_nat done) dst' = take (Z.to_nat done) dst →
  (∀ i, 0 ≤ i < k → ubyte m T PTE_R (va + (done + i)) = d !! Z.to_nat (off + i)) →
  (∀ i, 0 ≤ i < k → dst' !! Z.to_nat (done + i) = d !! Z.to_nat (off + i) ∧ d !! Z.to_nat (off + i) ≠ Some 0) →
  string_prefix m T va (done + k) dst'.
Proof.
  intros Hpre Hd Hk Htk Hub Hcopy i Hi. destruct (decide (i < done)).
  - destruct (Hpre i ltac:(lia)) as [Hp1 Hp2]. assert (dst' !! Z.to_nat i = dst !! Z.to_nat i) as ->; [|done].
    rewrite <-(lookup_take_lt dst' (Z.to_nat done)), Htk by lia. apply lookup_take_lt. lia.
  - destruct (Hcopy (i - done) ltac:(lia)) as [Hc1 Hc2]. replace (done + (i - done)) with i in Hc1 by lia.
    rewrite Hc1. split; [|done]. rewrite <-(Hub (i - done)) by lia. do 2 f_equal. lia.
Qed.

Lemma copyinstr_spec s T fl dst va :
  space_ok s T fl → 0 ≤ va ≤ USIZE_MAX → Z.of_nat (length dst) ≤ USIZE_MAX →
  wp (copyinstr (pt_root T) dst va) s (λ '(r, dst') s', s' = s ∧ length dst' = length dst ∧
    match r with
    | Some n => 0 ≤ n < Z.of_nat (length dst) ∧ string_prefix (mem s) T va n dst' ∧
        ubyte (mem s) T PTE_R (va + n) = Some 0 ∧ dst' !! Z.to_nat n = Some 0
    | None => ∃ n, 0 ≤ n ≤ Z.of_nat (length dst) ∧ string_prefix (mem s) T va n dst' ∧
        (n = Z.of_nat (length dst) ∨ ubyte (mem s) T PTE_R (va + n) = None)
    end).
Proof.
  intros Hsp Hva Hlen. pose proof (so_own _ _ _ Hsp) as Hown. unfold copyinstr.
  set (len := Z.of_nat (length dst)) in *.
  apply (wp_while (λ '(done, dst') s', s' = s ∧ 0 ≤ done ≤ len ∧ length dst' = length dst ∧
      string_prefix (mem s) T va done dst') (λ '(done, _), Z.to_nat (len - done))).
  - intros [done dst'] s' (-> & Hd & Hl & Hpre). destruct (Z.ltb_spec done len) as [Hlt|Hge].
    2: { wp_steps. split_and!; [done|done|]. exists done. split_and!; [lia|lia|done|left; lia]. }
    pose proof (user_addr_spec va done Hva ltac:(lia)) as Hua.
    destruct (user_addr va done) as [a|]; cycle 1.
    { wp_steps. split_and!; [done|done|]. exists done. split_and!; [lia|lia|done|right; by apply ubyte_none]. }
    destruct Hua as [-> Ha]. cbv zeta. rewrite round_down_eq by lia.
    pose proof (Z.mod_pos_bound (va + done) PGSIZE ltac:(mem_lia)) as Hmod.
    replace (va + done - (va + done - (va + done) mod PGSIZE)) with ((va + done) mod PGSIZE) by lia.
    set (off := (va + done) mod PGSIZE) in *. set (n := Z.min (PGSIZE - off) (len - done)).
    wp_call walk_user_perm_spec; [done|unfold off; apply Z.le_0_sub, Z.mod_le; mem_lia|].
    intros r s1 [-> ->]. unfold off at 1. rewrite user_leaf_round by lia.
    destruct (user_leaf T PTE_R (va + done)) as [e|] eqn:He; cycle 1.
    { wp_steps. split_and!; [done|done|]. exists done. split_and!; [lia|lia|done|right].
      unfold ubyte. by rewrite He. }
    destruct (space_page _ _ _ _ _ _ Hsp He) as (_ & _ & _ & d & Hdl & [Hdlen _]).
    wp_step. eapply wp_load_page; [done|].
    assert (∀ i, 0 ≤ i < n → ubyte (mem s) T PTE_R (va + (done + i)) = d !! Z.to_nat (off + i)) as Hub.
    { intros i Hi. rewrite Z.add_assoc. rewrite (ubyte_page _ _ _ (va + done) e d) by (done || fold off; lia).
      fold off. f_equal. lia. }
    wp_call (copy_string_spec s d off done n dst'); [lia|lia|lia|rewrite Hdlen; mem_lia|lia|].
    intros [dst''|[j dst'']] s2 [-> Hr].
    + destruct Hr as (Hl2 & Htk & Hcopy). wp_steps. split; [|lia]. split_and!; [done|lia|lia|congruence|].
      by eapply (prefix_extends _ _ _ _ dst' _ d off); [| lia | lia | | |].
    + destruct Hr as (Hl2 & Htk & Hj & Hnul & Hcopy). wp_steps.
      split_and!; [done|congruence|lia|lia| | |].
      * replace j with (done + (j - done)) by lia. eapply (prefix_extends _ _ _ _ dst' _ d off); [done|lia|lia|done|intros i Hi; apply Hub; lia|].
        intros i Hi. destruct (Hcopy i ltac:(lia)) as [? Hx]. split; [done|apply Hx; lia].
      * replace j with (done + (j - done)) by lia. by rewrite Hub by lia.
      * destruct (Hcopy (j - done) ltac:(lia)) as [Hc _]. replace (done + (j - done)) with j in Hc by lia.
        by rewrite Hc.
  - split_and!; [done|lia|lia|done|]. intros i Hi. lia.
  - lia.
Qed.

(** ** Main theorems *)

(** [copyin] is exact and confined to the user's rights: it changes nothing,
    succeeds exactly when every byte of the range lies on a page mapped for
    reading by user code, and then fills the destination with these bytes. *)
Theorem copyin_exact s T fl dst va :
  space_ok s T fl → 0 ≤ va ≤ USIZE_MAX → Z.of_nat (length dst) ≤ USIZE_MAX →
  wp (copyin (pt_root T) dst va) s (λ '(r, dst') s', s' = s ∧ length dst' = length dst ∧
    (r = Some tt ↔ ∀ i : nat, (i < length dst)%nat → is_Some (ubyte (mem s) T PTE_R (va + Z.of_nat i))) ∧
    (r = Some tt → user_bytes (mem s) T PTE_R va dst')).
Proof.
  intros Hsp Hva Hlen. wp_call copyin_spec; [done..|]. intros [[[]|] dst'] s' (-> & Hl & Hr).
  - split_and!; [done|done| |done]. split; [|done]. intros _ i Hi. rewrite Hr by lia.
    apply lookup_lt_is_Some. lia.
  - split_and!; [done|done| |done]. split; [done|]. intros Hall. destruct Hr as (i & Hi & Hnone).
    specialize (Hall i Hi). rewrite Hnone in Hall. by destruct Hall.
Qed.

(** C6: what the kernel copies out, the user's memory contains and nothing else
    changes: [copyout] writes a prefix of [src], and every byte of the prefix goes
    to a page mapped for writing by user code; it reports success exactly when the
    prefix is all of [src], and stops only at a byte user code may not write.
    Every other byte of user memory, every other page and the page table stay. *)
Theorem copyout_confined s T fl src va :
  space_ok s T fl → 0 ≤ va ≤ USIZE_MAX → Z.of_nat (length src) ≤ USIZE_MAX → bytes_ok src →
  wp (copyout (pt_root T) va src) s (λ r s', ∃ k,
    0 ≤ k ≤ Z.of_nat (length src) ∧ (r = Some tt ↔ k = Z.of_nat (length src)) ∧
    (∀ i, 0 ≤ i < k → is_Some (user_leaf T PTE_W (va + i))) ∧
    (r = None → user_leaf T PTE_W (va + k) = None) ∧
    space_ok s' T fl ∧
    (∀ perm a, 0 ≤ a → ubyte (mem s') T perm a =
       (λ x, if decide (va ≤ a < va + k) then src !!! Z.to_nat (a - va) else x) <$> ubyte (mem s) T perm a) ∧
    (∀ p, (∀ w e, L T !! w = Some e → is_user e = true → pte_pa e ≠ p) → mem s' !! p = mem s !! p)).
Proof.
  intros Hsp Hva Hlen Hsrc. wp_call copyout_writes; [done..|]. intros [[]|] s' (k & [C1 C2 C3 C4] & Hall & Hr).
  - subst k. exists (Z.of_nat (length src)). by split_and!; [lia|lia| |..].
  - destruct Hr as [Hk Hnone]. exists k. split_and!; try (done || lia). split; [done|lia].
Qed.

(** A round trip through user memory: bytes copied out to a range that user
    code may also read are copied in unchanged. *)
Theorem copyout_copyin s T fl src va :
  space_ok s T fl → 0 ≤ va ≤ USIZE_MAX → Z.of_nat (length src) ≤ USIZE_MAX → bytes_ok src →
  (∀ i, 0 ≤ i < Z.of_nat (length src) → is_Some (ubyte (mem s) T PTE_R (va + i))) →
  wp (r ← copyout (pt_root T) va src;
      r' ← copyin (pt_root T) (replicate (length src) 0) va;
      mret (r, r')) s (λ '(r, (r', dst)) s', r = Some tt → r' = Some tt ∧ dst = src).
Proof.
  intros Hsp Hva Hlen Hsrc Hread. wp_call copyout_spec; [done..|].
  intros r s1 (k & [C1 C2 C3 C4] & Hr).
  wp_call copyin_spec; [done|done|by rewrite length_replicate|]. intros [r' dst] s2 (-> & Hl & Hr').
  rewrite length_replicate in Hl, Hr'. wp_steps. intros ->. destruct Hr as [-> _].
  assert (∀ i : nat, (i < length src)%nat → ubyte (mem s1) T PTE_R (va + Z.of_nat i) = src !! i) as Hb.
  { intros i Hi. destruct (Hread (Z.of_nat i) ltac:(lia)) as [x Hx]. rewrite C3, Hx by lia. cbn.
    rewrite decide_True by lia. replace (Z.to_nat (va + Z.of_nat i - va)) with i by lia.
    symmetry. by apply list_lookup_lookup_total_lt. }
  destruct r' as [[]|].
  - split; [done|]. apply list_eq_same_length with (length src); [done|done|].
    intros i x y Hi Hx Hy. rewrite <-Hb in Hy by done. rewrite Hr' in Hy by lia. congruence.
  - destruct Hr' as (i & Hi & Hnone). rewrite Hb in Hnone by done.
    apply lookup_ge_None in Hnone. lia.
Qed.

(** [copyinstr] returns the length of the user string at [va]: the bytes
    before it are readable and not NUL, the byte at it is NUL, and all of them
    (NUL included) are in the destination; it fails only when the destination
    is filled without a NUL or an unreadable byte comes first. *)
Theorem copyinstr_exact s T fl dst va :
  space_ok s T fl → 0 ≤ va ≤ USIZE_MAX → Z.of_nat (length dst) ≤ USIZE_MAX →
  wp (copyinstr (pt_root T) dst va) s (λ '(r, dst') s', s' = s ∧ length dst' = length dst ∧
    match r with
    | Some n => 0 ≤ n < Z.of_nat (length dst) ∧ string_prefix (mem s) T va n dst' ∧
        ubyte (mem s) T PTE_R (va + n) = Some 0 ∧ dst' !! Z.to_nat n = Some 0
    | None => ∃ n, 0 ≤ n ≤ Z.of_nat (length dst) ∧ string_prefix (mem s) T va n dst' ∧
        (n = Z.of_nat (length dst) ∨ ubyte (mem s) T PTE_R (va + n) = None)
    end).
Proof. apply copyinstr_spec. Qed.
End user_memory.

Lemma demo_space : space_ok (ram_end 4) demo_vm demo_tree [].
Proof.
  split; [apply demo_own| |]; cbn [L demo_tree].
  - intros v e [<- <-]%lookup_singleton_Some _. split; [by apply (demo_ram 3); lia|].
    unfold tables. cbn [T1 T0 pt_root demo_tree]. rewrite !map_to_list_singleton. by apply (bool_decide_unpack _).
  - intros v v' e e' [<- _]%lookup_singleton_Some [<- _]%lookup_singleton_Some. done.
Qed.

Lemma copyin_exact_witness :
  wp (copyin (demo_pg 0) [9; 9] 4094) demo_vm (λ '(r, dst') s', s' = demo_vm ∧ length dst' = 2%nat ∧
    (r = Some tt ↔ ∀ i : nat, (i < 2)%nat → is_Some (ubyte (mem demo_vm) demo_tree PTE_R (4094 + Z.of_nat i))) ∧
    (r = Some tt → user_bytes (mem demo_vm) demo_tree PTE_R 4094 dst')).
Proof.
  apply (copyin_exact (ram_end 4) demo_end_pos _ demo_tree []); [apply demo_space|mem_lia|by vm_compute].
Defined.

Lemma demo_bytes : bytes_ok [104; 105].
Proof. rewrite !Forall_cons, Forall_nil. unfold byte_ok. lia. Qed.

Lemma copyout_confined_witness :
  wp (copyout (demo_pg 0) 4095 [104; 105]) demo_vm (λ r s', ∃ k,
    0 ≤ k ≤ 2 ∧ (r = Some tt ↔ k = 2) ∧
    (∀ i, 0 ≤ i < k → is_Some (user_leaf demo_tree PTE_W (4095 + i))) ∧
    (r = None → user_leaf demo_tree PTE_W (4095 + k) = None) ∧
    space_ok (ram_end 4) s' demo_tree [] ∧
    (∀ perm a, 0 ≤ a → ubyte (mem s') demo_tree perm a =
       (λ x, if decide (4095 ≤ a < 4095 + k) then [104; 105] !!! Z.to_nat (a - 4095) else x)
         <$> ubyte (mem demo_vm) demo_tree perm a) ∧
    (∀ p, (∀ w e, L demo_tree !! w = Some e → is_user e = true → pte_pa e ≠ p) →
       mem s' !! p = mem demo_vm !! p)).
Proof.
  apply (copyout_confined (ram_end 4) demo_end_pos _ demo_tree [] [104; 105]);
    [apply demo_space|mem_lia|by vm_compute|apply demo_bytes].
Defined.

Lemma copyout_copyin_witness :
  wp (r ← copyout (demo_pg 0) 100 [104; 105];
      r' ← copyin (demo_pg 0) (replicate 2 0) 100;
      mret (r, r')) demo_vm (λ '(r, (r', dst)) s', r = Some tt → r' = Some tt ∧ dst = [104; 105]).
Proof.
  apply (copyout_copyin (ram_end 4) demo_end_pos _ demo_tree [] [104; 105]);
    [apply demo_space|mem_lia|by vm_compute|apply demo_bytes|].
  intros i Hi. cbn in Hi. assert (i = 0 ∨ i = 1) as [-> | ->] by lia; vm_compute; by eexists.
Defined.

Lemma copyinstr_exact_witness :
  wp (copyinstr (demo_pg 0) [9; 9] 4094) demo_vm (λ '(r, dst') s', s' = demo_vm ∧ length dst' = 2%nat ∧
    match r with
    | Some n => 0 ≤ n < 2 ∧ string_prefix (mem demo_vm) demo_tree 4094 n dst' ∧
        ubyte (mem demo_vm) demo_tree PTE_R (4094 + n) = Some 0 ∧ dst' !! Z.to_nat n = Some 0
    | None => ∃ n, 0 ≤ n ≤ 2 ∧ string_prefix (mem demo_vm) demo_tree 4094 n dst' ∧
        (n = 2 ∨ ubyte (mem demo_vm) demo_tree PTE_R (4094 + n) = None)
    end).
Proof.
  apply (copyinstr_exact (ram_end 4) demo_end_pos _ demo_tree []); [apply demo_space|mem_lia|by vm_compute].
Defined.

(** The life of an address space, run: boot the allocator, build two user
    spaces, copy through the first, duplicate it and give everything back. *)
Example space_run :
  let e := ram_end 20 in
  match (kinit e;;
         tf ← kalloc;
         p ← proc_pagetable e KERNBASE (default 0 tf);
         a ← uvmalloc e (default 0 p) 0 10000;
         o ← copyout (default 0 p) 4090 [1; 2; 3; 4; 5; 6; 7; 8; 9; 0; 11];
         st ← copyinstr (default 0 p) (replicate 12 7) 4091;
         bad ← copyin (default 0 p) (replicate 12 7) 12285;
         p2 ← proc_pagetable e KERNBASE (default 0 tf);
         c ← uvmcopy e (default 0 p) (default 0 p2) 10000;
         i2 ← copyin (default 0 p2) (replicate 12 7) 4089;
         proc_freepagetable e (default 0 p) 10000;;
         proc_freepagetable e (default 0 p2) 10000;;
         left ← code_run e (replicate 20 Alloc);
         mret (a, o, st, bad.1, c, i2, length (filter (λ r, r ≠ None) left))) (zero_machine 20) with
  | Ok (r, _) => r = (Some tt, Some tt, (Some 8, [2; 3; 4; 5; 6; 7; 8; 9; 0; 7; 7; 7]), None, Some tt,
                      (Some tt, [0; 1; 2; 3; 4; 5; 6; 7; 8; 9; 0; 11]), 19%nat)
  | Fault _ => False
  end.
Proof. vm_compute. reflexivity. Qed.
