(* ===== verification/Space.v ===== *)
(** * Address spaces (src/src/vm.rs)

    Creating, filling, copying and destroying the page table of a process.  The
    pages a page table owns are its tables and the frames behind its user pages;
    an operation on one address space takes pages from the free list or gives
    them back, and leaves the pages of every other address space alone. *)

From S2P Require Import Prelude Spinlock Kalloc Vm PageTable UserMem.

(** The number of pages that [n] bytes take, and the permissions of heap pages. *)
Definition pages (n : Z) : Z := (n + (PGSIZE - 1)) / PGSIZE.
Definition URW : Z := Z.lor (Z.lor PTE_U PTE_R) PTE_W.

Lemma wp_page_round_up {St} a (s : St) Q :
  0 ≤ a → a + PGSIZE ≤ USIZE_MAX → Q (PGSIZE * pages a) s → wp (page_round_up a) s Q.
Proof.
  intros Ha Hmax HQ. unfold page_round_up. wp_step. apply wp_add_at; [mem_lia|]. wp_steps.
  replace (Z.ldiff (a + PGSIZE - 1) (PGSIZE - 1)) with (PGSIZE * pages a); [done|].
  change (PGSIZE - 1) with (Z.ones 12) at 1. rewrite Z.ldiff_ones_r, Z.shiftr_div_pow2, Z.shiftl_mul_pow2 by lia.
  change (2 ^ 12) with PGSIZE. unfold pages. rewrite Z.mul_comm. do 2 f_equal. lia.
Qed.

Lemma pages_mono a b : a ≤ b → pages a ≤ pages b.
Proof. intros. unfold pages. apply Z.div_le_mono; mem_lia. Qed.

Lemma pages_nonneg n : 0 ≤ n → 0 ≤ pages n.
Proof. intros. apply Z.div_pos; mem_lia. Qed.

Lemma pages_stack n : n ≤ USER_STACK ↔ pages n ≤ USER_STACK / PGSIZE.
Proof.
  split; intros H.
  - etrans; [apply (pages_mono _ _ H)|]. done.
  - pose proof (Z.div_mod (n + (PGSIZE - 1)) PGSIZE ltac:(mem_lia)).
    pose proof (Z.mod_pos_bound (n + (PGSIZE - 1)) PGSIZE ltac:(mem_lia)). unfold pages in *.
    change (USER_STACK / PGSIZE) with 67108861 in H. mem_lia.
Qed.

(** The flags of a user page. *)
Definition uflags (f : Z) : Prop := 0 ≤ f < 1024 ∧ Z.land f 14 ≠ 0 ∧ Z.land f PTE_U ≠ 0.

Lemma uflags_URW : uflags URW.
Proof. done. Qed.

Lemma land_leaf_bits p f c : page_addr p → 0 ≤ f < 1024 → 0 ≤ c < 1024 → Z.land (leaf_bits p f) c = Z.land (leaf_flags f) c.
Proof.
  intros Hp Hf Hc. destruct (leaf_entry p f Hp Hf) as (_ & _ & Hfl & _). rewrite <-Hfl. unfold pte_flags.
  rewrite <-Z.land_assoc. f_equal. change 1023 with (Z.ones 10). rewrite Z.land_comm, Z.land_ones by lia.
  symmetry. by apply Z.mod_small.
Qed.

Lemma land_leaf_flags f c : Z.land f c ≠ 0 → Z.land (leaf_flags f) c ≠ 0.
Proof.
  unfold leaf_flags. intros H H0. apply H. rewrite !Z.land_lor_distr_l in H0.
  apply Z.lor_eq_0_iff in H0 as [H0 _]. apply Z.lor_eq_0_iff in H0 as [H0 _]. by apply Z.lor_eq_0_iff in H0 as [H0 _].
Qed.

Lemma user_entry p f : page_addr p → uflags f → is_user (leaf_bits p f) = true ∧ pte_pa (leaf_bits p f) = p.
Proof.
  intros Hp (Hf & _ & Hu). destruct (leaf_entry p f Hp Hf) as (_ & Hpa & _). split; [|done].
  unfold is_user. rewrite land_leaf_bits by done. apply negb_true_iff, Z.eqb_neq. by apply land_leaf_flags.
Qed.

Lemma frames_ext v k l l' : (∀ i, (i < k)%nat → l !! (v + Z.of_nat i) = l' !! (v + Z.of_nat i)) → frames v k l = frames v k l'.
Proof. induction k as [|k IH]; intros H; [done|]. cbn [frames]. rewrite H, IH by (intros; apply H; lia) || lia. done. Qed.

Lemma frames_app v a b l : frames v (a + b) l = frames (v + Z.of_nat a) b l ++ frames v a l.
Proof.
  induction b as [|b IH]; [by rewrite Nat.add_0_r|]. rewrite Nat.add_succ_r. cbn [frames app]. rewrite IH.
  by replace (v + Z.of_nat (a + b)) with (v + Z.of_nat a + Z.of_nat b) by lia.
Qed.

Definition TRAMPOLINE_VPN : Z := TRAMPOLINE / PGSIZE.
Definition TRAPFRAME_VPN : Z := TRAPFRAME / PGSIZE.
Definition STACK_VPN : Z := USER_STACK / PGSIZE.

Ltac vpn_lia :=
  cbv beta;
  change TRAMPOLINE_VPN with 67108863 in *; change TRAPFRAME_VPN with 67108862 in *; change STACK_VPN with 67108861 in *; mem_lia.

Section space.
Context (kernel_end : usize) (Hend_pos : 0 < kernel_end).

Local Abbreviation space_ok := (space_ok kernel_end).
Local Abbreviation pt_own := (pt_own kernel_end).
Local Abbreviation kinv := (kinv kernel_end).
Local Abbreviation ram_page := (ram_page kernel_end).

Lemma ram_addr p : ram_page p → page_addr p.
Proof. apply (ram_page_addr kernel_end Hend_pos). Qed.

(** ** One page, one range *)

Lemma map_one_grows s T fl v pa flags :
  pt_own s T fl → 0 ≤ v → PGSIZE * (v + 1) ≤ MAXVA → pa mod PGSIZE = 0 → 0 ≤ pa → pa + PGSIZE < 2 ^ 55 →
  0 ≤ flags < 1024 → Z.land flags 14 ≠ 0 →
  wp (mappages (pt_root T) (PGSIZE * v) PGSIZE pa flags) s (λ r s', ∃ T' fl', new_tables T T' v v ∧
    match r with
    | Some _ => updated kernel_end s T fl (<[v := leaf_bits pa flags]> (L T)) s' T' fl'
    | None => updated kernel_end s T fl (L T) s' T' fl' ∧ (fl' = [] ∨ is_Some (L T !! v))
    end).
Proof.
  intros Hown Hv Hmax Hpa Hpa0 Hpam Hf Hrwx.
  wp_call (mappages_grows kernel_end Hend_pos s T fl v PGSIZE pa flags Hown); [done|mem_lia|mem_lia|done|done|done|done|done|].
  change (Z.to_nat ((PGSIZE + PGSIZE - 1) / PGSIZE)) with 1%nat. intros r s' (i & T' & fl' & Hup & Hnew & Hr). exists T', fl'.
  replace (v + Z.of_nat 1 - 1) with v in Hnew by lia. split; [done|]. destruct r as [[]|].
  - subst i. cbn [map_range] in Hup. change (PGSIZE * Z.of_nat 0) with 0 in Hup. change (Z.of_nat 0) with 0 in Hup.
    by rewrite !Z.add_0_r in Hup.
  - destruct Hr as [Hi Hr]. assert (i = 0%nat) as -> by lia. change (Z.of_nat 0) with 0 in Hr. by rewrite Z.add_0_r in Hr.
Qed.

Lemma map_one s T fl v pa flags :
  pt_own s T fl → 0 ≤ v → PGSIZE * (v + 1) ≤ MAXVA → pa mod PGSIZE = 0 → 0 ≤ pa → pa + PGSIZE < 2 ^ 55 →
  0 ≤ flags < 1024 → Z.land flags 14 ≠ 0 →
  wp (mappages (pt_root T) (PGSIZE * v) PGSIZE pa flags) s (λ r s', ∃ T' fl',
    match r with
    | Some _ => updated kernel_end s T fl (<[v := leaf_bits pa flags]> (L T)) s' T' fl'
    | None => updated kernel_end s T fl (L T) s' T' fl'
    end).
Proof.
  intros. eapply wp_mono; [by apply map_one_grows|]. intros r s' (T' & fl' & _ & Hr). exists T', fl'. destruct r; [done|apply Hr].
Qed.

(** The frames of user pages are distinct pages in use. *)
Lemma user_frames_ok s T fl v n :
  space_ok s T fl → (∀ w, v ≤ w < v + Z.of_nat n → ∃ e, L T !! w = Some e ∧ is_user e = true) →
  Forall ram_page (frames v n (L T)) ∧ NoDup (frames v n (L T) ++ tables T ++ fl).
Proof.
  intros Hsp Hu.
  assert (∀ p, p ∈ frames v n (L T) → ram_page p ∧ p ∉ tables T ++ fl) as Hfr.
  { intros p (i & Hi & ->)%elem_of_frames. destruct (Hu (v + Z.of_nat i) ltac:(lia)) as (e & He & Hue). rewrite He. by eapply so_frame. }
  split; [apply Forall_forall; by intros p [? _]%Hfr|]. apply NoDup_app. split_and!; [|by intros p [_ ?]%Hfr|apply Hsp].
  clear Hfr. induction n as [|n IH]; [constructor|]. cbn [frames]. apply NoDup_cons. split; [|apply IH; intros; apply Hu; lia].
  intros (i & Hi & Heq)%elem_of_frames. destruct (Hu (v + Z.of_nat i) ltac:(lia)) as (e & He & Hue).
  destruct (Hu (v + Z.of_nat n) ltac:(lia)) as (e' & He' & Hue'). rewrite He, He' in Heq.
  pose proof (so_inj _ _ _ _ Hsp _ _ _ _ He' He Hue' Hue Heq). lia.
Qed.

(** Unmapping a range; the frames of user pages may be given back. *)
Lemma unmap_space s T fl v n (do_free : bool) :
  space_ok s T fl → 0 ≤ v → (0 < n)%nat → v + Z.of_nat n ≤ 67108864 →
  (∀ w, v ≤ w < v + Z.of_nat n → ∃ e, L T !! w = Some e ∧ (do_free = true → is_user e = true)) →
  wp (uvmunmap kernel_end (pt_root T) (PGSIZE * v) (Z.of_nat n) do_free) s (λ _ s',
    let fr := if do_free then frames v n (L T) else [] in
    space_ok s' (set_L (unmap_range v n (L T)) T) (fr ++ fl) ∧ held s' = held s ∧
    (∀ p, p ∉ tables T → p ∉ fr → mem s' !! p = mem s !! p)).
Proof.
  intros Hsp Hv Hn Hmax Hmapped.
  assert (do_free = true → ∀ w, v ≤ w < v + Z.of_nat n → ∃ e, L T !! w = Some e ∧ is_user e = true) as Hu.
  { intros -> w Hw. destruct (Hmapped w Hw) as (e & He & Hue). eauto. }
  wp_call (uvmunmap_spec kernel_end Hend_pos s T fl v n do_free (so_own _ _ _ _ Hsp) Hv); [done|done| | |].
  { intros i Hi. destruct (Hmapped (v + Z.of_nat i) ltac:(lia)) as (e & He & _). by eexists. }
  { intros Hd. eapply user_frames_ok; [done|by apply Hu]. }
  intros [] s' (Hown & Hh & Hm). cbv zeta. split_and!; [|done|by intros p ? ?; apply Hm; [|intros ->]].
  assert (∀ w e, unmap_range v n (L T) !! w = Some e → ¬ v ≤ w < v + Z.of_nat n ∧ L T !! w = Some e) as Hlk.
  { intros w e. rewrite lookup_unmap_range. by destruct (decide _). }
  split; [exact Hown| |].
  - intros w e [Hout Hw]%Hlk He. destruct (so_frame _ _ _ _ Hsp _ _ Hw He) as [Hr Hnf]. split; [done|].
    change (tables (set_L _ T)) with (tables T). rewrite !not_elem_of_app in *. split_and!; try tauto.
    destruct do_free; [|apply not_elem_of_nil]. intros (i & Hi & Heq)%elem_of_frames.
    destruct (Hu eq_refl (v + Z.of_nat i) ltac:(lia)) as (e' & He' & Hue'). rewrite He' in Heq.
    pose proof (so_inj _ _ _ _ Hsp _ _ _ _ Hw He' He Hue' Heq). lia.
  - intros w w' e e' [_ Hw]%Hlk [_ Hw']%Hlk. by apply (so_inj _ _ _ _ Hsp).
Qed.

(** ** Filling pages

    [uvmalloc], [uvmcopy] and [uvmcopy_stack] map page after page to new frames
    with given flags and given contents, and undo their work when memory runs
    out. *)
Section fill.
Context (flags : Z → Z) (data : Z → list u8) (s0 : machine) (T0 : ptree) (fl0 : list Z) (v : Z).

(** [k] pages at page [v] of [T0] have been mapped to new frames. *)
Record pages_filled (k : nat) (s : machine) (T : ptree) (fl : list Z) : Prop := {
  fi_space : space_ok s T fl;
  fi_root : pt_root T = pt_root T0;
  fi_held : held s = held s0;
  fi_old w : ¬ v ≤ w < v + Z.of_nat k → L T !! w = L T0 !! w;
  fi_new w : v ≤ w < v + Z.of_nat k → ∃ p, L T !! w = Some (leaf_bits p (flags w)) ∧ ram_page p ∧ mem s !! p = Some (data w);
  fi_pages : frames v k (L T) ++ tables T ++ fl ≡ₚ tables T0 ++ fl0;
  fi_mem p : p ∉ tables T0 ++ fl0 → mem s !! p = mem s0 !! p;
}.

Lemma filled_refl : space_ok s0 T0 fl0 → pages_filled 0 s0 T0 fl0.
Proof. intros Hsp. by split; try done; intros w ?; lia. Qed.

(** The state may change in the list head as long as memory stays. *)
Lemma filled_mem k s s' T fl :
  pages_filled k s T fl → mem s' = mem s → held s' = held s → pt_own s' T fl → pages_filled k s' T fl.
Proof. intros [[? ? ?] ? ? ? ? ? ?] Hm Hh Hown. split; rewrite ?Hm; try done; congruence. Qed.

Section step.
Context (k : nat) (s : machine) (T : ptree) (p : Z) (fl : list Z).
Context (Hg : pages_filled k s T (p :: fl)).
Context (Hf : uflags (flags (v + Z.of_nat k)) ∧ ∀ w, v ≤ w < v + Z.of_nat k → uflags (flags w)).
Context (Hp : ram_page p) (Hpn : p ∉ tables T ++ fl) (Hnone : L T !! (v + Z.of_nat k) = None).

(** Frames of user pages are still in use after [p] was taken. *)
Lemma old_frame w e : L T !! w = Some e → is_user e = true → ram_page (pte_pa e) ∧ pte_pa e ≠ p ∧ pte_pa e ∉ tables T ++ fl.
Proof.
  intros Hw Hu. destruct (so_frame _ _ _ _ (fi_space _ _ _ _ Hg) _ _ Hw Hu) as [Hr Hn].
  rewrite <-Permutation_middle, not_elem_of_cons in Hn. tauto.
Qed.

Lemma taken_pages : p :: frames v k (L T) ++ tables T ++ fl ≡ₚ tables T0 ++ fl0.
Proof. rewrite <-(fi_pages _ _ _ _ Hg), <-(Permutation_middle (tables T)), <-Permutation_middle. done. Qed.

Lemma not_taken q : q ∉ tables T0 ++ fl0 → q ≠ p ∧ q ∉ tables T ++ fl.
Proof. intros Hq. rewrite <-taken_pages, not_elem_of_cons, not_elem_of_app in Hq. tauto. Qed.

(** A page filled before is a user page and still has its contents. *)
Lemma filled_before w :
  v ≤ w < v + Z.of_nat k → ∃ q, L T !! w = Some (leaf_bits q (flags w)) ∧ ram_page q ∧ mem s !! q = Some (data w) ∧
    q ≠ p ∧ q ∉ tables T ++ fl.
Proof.
  intros Hw. destruct (fi_new _ _ _ _ Hg w Hw) as (q & Hq & Hrq & Hzq). exists q.
  destruct (user_entry q (flags w) (ram_addr q Hrq) (proj2 Hf w Hw)) as [Huq Hpq].
  destruct (old_frame _ _ Hq Huq) as (_ & Hqp & Hqn). rewrite Hpq in Hqp, Hqn. by split_and!.
Qed.

Context (s1 s2 : machine) (T2 : ptree) (fl2 : list Z).
Context (d : list u8) (Hm1 : mem s1 = <[p := d]> (mem s)) (Hh1 : held s1 = held s).

Lemma fill_mapped :
  d = data (v + Z.of_nat k) →
  updated kernel_end s1 T fl (<[v + Z.of_nat k := leaf_bits p (flags (v + Z.of_nat k))]> (L T)) s2 T2 fl2 →
  pages_filled (S k) s2 T2 fl2.
Proof.
  intros Hd [U1 U2 U3 U4 U5 U6 U7]. destruct (user_entry p _ (ram_addr p Hp) (proj1 Hf)) as [Hu Hpa].
  set (e0 := leaf_bits p (flags (v + Z.of_nat k))) in *.
  assert (∀ w e, L T2 !! w = Some e → w = v + Z.of_nat k ∧ e = e0 ∨ w ≠ v + Z.of_nat k ∧ L T !! w = Some e) as Hlk.
  { intros w e. rewrite U3. intros [[<- <-]|[? ?]]%lookup_insert_Some; [by left|right; by split]. }
  pose proof Hg as [G1 G2 G3 G4 G5 G6 G7]. split.
  - split; [done| |].
    + intros w e [[-> ->]|[Hne Hw]]%Hlk He; rewrite U5, ?Hpa; [done|]. destruct (old_frame _ _ Hw He). tauto.
    + intros w w' e e' [[-> ->]|[Hne Hw]]%Hlk [[-> ->]|[Hne' Hw']]%Hlk He He' Heq; rewrite ?Hpa in Heq; [done| | |].
      * destruct (old_frame _ _ Hw' He') as (_ & ? & _). congruence.
      * destruct (old_frame _ _ Hw He) as (_ & ? & _). congruence.
      * by eapply (so_inj _ _ _ _ G1).
  - congruence.
  - congruence.
  - intros w Hw. rewrite U3, lookup_insert_ne by lia. apply G4. lia.
  - intros w Hw. rewrite U3. destruct (decide (w = v + Z.of_nat k)) as [->|Hne].
    + exists p. rewrite lookup_insert_eq. split_and!; [done|done|]. by rewrite U6, Hm1, lookup_insert_eq, Hd by done.
    + rewrite lookup_insert_ne by done. destruct (filled_before w ltac:(lia)) as (q & Hq & Hrq & Hzq & Hqp & Hqn). exists q.
      split_and!; [done|done|]. by rewrite U6, Hm1, lookup_insert_ne by done.
  - cbn [frames]. rewrite U3, lookup_insert_eq. cbn [default from_option id]. rewrite Hpa, U5.
    rewrite (frames_ext _ _ _ (L T)) by (intros i Hi; rewrite lookup_insert_ne by lia; done). apply taken_pages.
  - intros q Hq. destruct (not_taken q Hq). rewrite U6, Hm1, lookup_insert_ne by done. by apply G7.
Qed.

(** The tables could not be extended: the page goes back. *)
Lemma fill_given_back :
  updated kernel_end s1 T fl (L T) s2 T2 fl2 →
  wp (kfree kernel_end p) s2 (λ _ s3, pages_filled k s3 T2 (p :: fl2)).
Proof.
  intros [U1 U2 U3 U4 U5 U6 U7]. pose proof Hg as [G1 G2 G3 G4 G5 G6 G7].
  wp_call (own_kfree kernel_end); [done|done|done|by rewrite U5|]. intros [] s3 (Hown & Hh3 & Hm3). split.
  - split; [done| |].
    + intros w e Hw He. rewrite U3 in Hw. destruct (old_frame _ _ Hw He) as (Hr & Hne & Hn). split; [done|].
      rewrite <-Permutation_middle, U5, not_elem_of_cons. done.
    + rewrite U3. apply (so_inj _ _ _ _ G1).
  - congruence.
  - congruence.
  - rewrite U3. apply G4.
  - intros w Hw. rewrite U3. destruct (filled_before w Hw) as (q & Hq & Hrq & Hzq & Hqp & Hqn). exists q.
    split_and!; [done|done|]. by rewrite Hm3, U6, Hm1, lookup_insert_ne by done.
  - rewrite U3, <-(Permutation_middle (tables T2)), <-Permutation_middle, U5. apply taken_pages.
  - intros q Hq. destruct (not_taken q Hq). rewrite Hm3, U6, Hm1, lookup_insert_ne by done. by apply G7.
Qed.
End step.

Section undo.
Context (n : nat) (Hsp : space_ok s0 T0 fl0) (Hv : 0 ≤ v) (Hmax : PGSIZE * (v + Z.of_nat n) ≤ MAXVA).
Context (Hfresh : ∀ w, v ≤ w < v + Z.of_nat n → L T0 !! w = None).
Context (Hflags : ∀ w, v ≤ w < v + Z.of_nat n → uflags (flags w)).

(** One page is taken, filled and mapped, or no page is left for a table. *)
Lemma fill_step_grows k s T p fl s1 :
  pages_filled k s T (p :: fl) → (k < n)%nat → ram_page p → p ∉ tables T ++ fl →
  mem s1 = <[p := data (v + Z.of_nat k)]> (mem s) → held s1 = held s → pt_own s1 T fl →
  wp (mappages (pt_root T) (PGSIZE * (v + Z.of_nat k)) PGSIZE p (flags (v + Z.of_nat k))) s1 (λ r s2,
    ∃ T' fl', new_tables T T' (v + Z.of_nat k) (v + Z.of_nat k) ∧
    match r with
    | Some _ => pages_filled (S k) s2 T' fl'
    | None => pt_root T' = pt_root T ∧ p :: frames v k (L T) ++ tables T' ≡ₚ tables T0 ++ fl0 ∧
        wp (kfree kernel_end p) s2 (λ _ s3, pages_filled k s3 T' (p :: fl'))
    end).
Proof.
  intros Hg Hk Hp Hpn Hm1 Hh1 Hown1.
  assert (uflags (flags (v + Z.of_nat k)) ∧ ∀ w, v ≤ w < v + Z.of_nat k → uflags (flags w)) as Hf
    by (split; [|intros w Hw]; apply Hflags; lia).
  assert (L T !! (v + Z.of_nat k) = None) as Hnone by (rewrite (fi_old _ _ _ _ Hg) by lia; apply Hfresh; lia).
  destruct (proj1 Hf) as (Hb & Hrwx & _).
  wp_call (map_one_grows s1 T fl (v + Z.of_nat k) p (flags (v + Z.of_nat k)) Hown1); [lia|mem_lia|apply Hp|destruct Hp; lia| |done|done|].
  { destruct Hp. change (2 ^ 55) with 36028797018963968. mem_lia. }
  intros [[]|] s2 (T2 & fl2 & Hnew & Hup); exists T2, fl2; (split; [done|]).
  - by eapply (fill_mapped k s T p fl Hg Hf Hp Hpn s1).
  - destruct Hup as [Hup [->|[e He]]]; [|congruence]. split_and!; [apply Hup| |by eapply (fill_given_back k s T p fl Hg Hf Hp Hpn s1)].
    rewrite <-(taken_pages k s T p fl Hg), <-(up_pages _ _ _ _ _ _ _ _ Hup), app_nil_r. done.
Qed.

Lemma fill_step k s T p fl s1 :
  pages_filled k s T (p :: fl) → (k < n)%nat → ram_page p → p ∉ tables T ++ fl →
  mem s1 = <[p := data (v + Z.of_nat k)]> (mem s) → held s1 = held s → pt_own s1 T fl →
  wp (mappages (pt_root T) (PGSIZE * (v + Z.of_nat k)) PGSIZE p (flags (v + Z.of_nat k))) s1 (λ r s2,
    match r with
    | Some _ => ∃ T' fl', pages_filled (S k) s2 T' fl'
    | None => ∃ T' fl', pt_root T' = pt_root T ∧ wp (kfree kernel_end p) s2 (λ _ s3, pages_filled k s3 T' fl')
    end).
Proof.
  intros. wp_call (fill_step_grows k s T p fl s1); [done..|].
  intros [[]|] s2 (T2 & fl2 & _ & Hr); [by exists T2, fl2|]. exists T2, (p :: fl2). tauto.
Qed.

(** Giving back the last [b] of the pages filled so far. *)
Lemma fill_trimmed a b s T fl :
  pages_filled (a + b) s T fl → (0 < b)%nat → (a + b ≤ n)%nat →
  wp (uvmunmap kernel_end (pt_root T) (PGSIZE * (v + Z.of_nat a)) (Z.of_nat b) true) s (λ _ s', ∃ T' fl', pages_filled a s' T' fl').
Proof.
  intros Hg Hb Hab. pose proof Hg as [G1 G2 G3 G4 G5 G6 G7].
  assert (∀ w, v ≤ w < v + Z.of_nat (a + b) → ∃ e, L T !! w = Some e ∧ is_user e = true) as Hu.
  { intros w Hw. destruct (G5 w Hw) as (q & Hq & Hrq & _). eexists. split; [done|].
    apply user_entry; [by apply ram_addr|]. apply Hflags. lia. }
  destruct (user_frames_ok s T fl v (a + b) G1 Hu) as [_ Hnd]. rewrite frames_app, <-app_assoc in Hnd, G6.
  apply NoDup_app in Hnd as (_ & Hd & _).
  wp_call (unmap_space s T fl (v + Z.of_nat a) b true G1); [lia|lia|change 67108864 with (MAXVA / PGSIZE); apply Z.div_le_lower_bound; mem_lia| |].
  { intros w Hw. destruct (Hu w ltac:(lia)) as (e & He & Hue). eauto. }
  cbv zeta. intros [] s' (Hsp' & Hh & Hm). set (fr := frames (v + Z.of_nat a) b (L T)) in *.
  set (T' := set_L (unmap_range (v + Z.of_nat a) b (L T)) T) in *.
  assert (∀ w, L T' !! w = if decide (v + Z.of_nat a ≤ w < v + Z.of_nat a + Z.of_nat b) then None else L T !! w) as HL
    by (intros w; apply lookup_unmap_range).
  exists T', (fr ++ fl). split; [done|done|congruence| | | |].
  - intros w Hw. rewrite HL. destruct (decide _); [symmetry; apply Hfresh; lia|]. apply G4. lia.
  - intros w Hw. rewrite HL, decide_False by lia. destruct (G5 w ltac:(lia)) as (q & Hq & Hrq & Hmq). exists q. split_and!; [done|done|].
    destruct (user_entry q _ (ram_addr q Hrq) (Hflags w ltac:(lia))) as [Huq Hpq].
    destruct (so_frame _ _ _ _ G1 _ _ Hq Huq) as [_ Hn]. rewrite Hpq, not_elem_of_app in Hn. rewrite Hm; [done|tauto|].
    intros Hqf. apply (Hd q Hqf). rewrite elem_of_app. left. apply elem_of_frames. exists (Z.to_nat (w - v)).
    replace (v + Z.of_nat (Z.to_nat (w - v))) with w by lia. rewrite Hq. cbn [default from_option id]. split; [lia|done].
  - rewrite (frames_ext _ _ _ (L T)) by (intros i Hi; rewrite HL, decide_False by lia; done).
    change (tables T') with (tables T). rewrite <-G6. solve_Permutation.
  - intros q Hq. rewrite <-G6, !not_elem_of_app in Hq. rewrite Hm by tauto. apply G7. rewrite <-G6, !not_elem_of_app. tauto.
Qed.

(** Giving back all of them. *)
Lemma fill_undone k s T fl :
  pages_filled k s T fl → (0 < k ≤ n)%nat →
  wp (uvmunmap kernel_end (pt_root T) (PGSIZE * v) (Z.of_nat k) true) s (λ _ s', ∃ T' fl', pages_filled 0 s' T' fl').
Proof. intros Hg Hk. pose proof (fill_trimmed 0 k s T fl Hg) as H. change (Z.of_nat 0) with 0 in H. rewrite Z.add_0_r in H. apply H; lia. Qed.
End undo.
End fill.

(** ** Pages of an address space *)

(** The tables of [T] and the frames behind its user pages. *)
Definition owns_page (T : ptree) (p : Z) : Prop :=
  p ∈ tables T ∨ ∃ w e, L T !! w = Some e ∧ is_user e = true ∧ pte_pa e = p.

Lemma owned_used s T fl p : space_ok s T fl → owns_page T p → ram_page p ∧ p ∉ fl.
Proof.
  intros Hsp [Hp|(w & e & Hw & Hu & <-)]; [by apply (own_page kernel_end s T fl), Hp; apply Hsp|].
  destruct (so_frame _ _ _ _ Hsp _ _ Hw Hu) as [Hr Hn]. rewrite not_elem_of_app in Hn. tauto.
Qed.

Lemma pt_ok_ext m m' T : pt_ok m T → (∀ p, p ∈ tables T → m' !! p = m !! p) → pt_ok m' T.
Proof.
  intros [O1 O2 O3 O4 O5 O6 O7] Hm.
  assert (∀ q i, q ∈ tables T → entry m' q i = entry m q i) as He.
  { intros q i Hq. unfold entry, lookup_total, map_lookup_total. by rewrite Hm. }
  split; try done.
  - intros i Hi. rewrite He by apply in_root. by apply O1.
  - intros i q j Hq Hj. rewrite He by (by eapply in_T1). by apply O2.
  - intros k q l Hq Hl. rewrite He by (by eapply in_T0). by apply O3.
Qed.

(** An address space is left alone by what does not touch its pages. *)
Lemma space_frame s T fl s' fl' :
  space_ok s T fl → kinv s' fl' → (∀ p, owns_page T p → mem s' !! p = mem s !! p ∧ p ∉ fl') → space_ok s' T fl'.
Proof.
  intros [[Hk Hok Hr Hnd] Hfr Hinj] Hk' Hm. split; [split| |]; try done.
  - eapply pt_ok_ext; [done|]. intros p Hp. apply Hm. by left.
  - apply NoDup_app in Hnd as (Hnd & _ & _). apply NoDup_app. split_and!; [done| |apply Hk'].
    intros p Hp. apply Hm. by left.
  - intros w e Hw Hu. destruct (Hfr _ _ Hw Hu) as [Hre Hn]. split; [done|]. rewrite not_elem_of_app in *.
    split; [tauto|]. apply Hm. right. eauto.
Qed.

Lemma ubyte_frame m m' T perm a : (∀ p, owns_page T p → m' !! p = m !! p) → ubyte m' T perm a = ubyte m T perm a.
Proof.
  intros Hm. unfold ubyte, user_leaf. destruct (MAXVA <=? a); [done|].
  destruct (L T !! vpn a) as [e|] eqn:He; [|done]. cbn. destruct (is_user e) eqn:Hu; [|done]. cbn.
  destruct (_ =? perm); [|done]. cbn. rewrite Hm; [done|]. right. eauto.
Qed.

(** ** Freeing the tables *)

(** [ps] are the pages of the tables under [p], which is [d] levels above the
    lowest and from which no leaf can be reached. *)
Fixpoint leafless (d : nat) (m : gmap Z (list u8)) (p : Z) (ps : list Z) : Prop :=
  ∃ child : Z → list Z, ps = p :: (range 0 512 ≫= child) ∧
    ∀ j, is_idx j → entry m p j = 0 ∧ child j = [] ∨
      match d with
      | O => False
      | S d => ∃ q, ram_page q ∧ entry m p j = table_bits q ∧ leafless d m q (child j)
      end.

Lemma range_snoc i : 0 ≤ i → range 0 (i + 1) = range 0 i ++ [i].
Proof.
  intros Hi. unfold range. rewrite !Z.sub_0_r, seqZ_app by lia. f_equal.
Qed.

Lemma idx_range_split i : is_idx i → range 0 512 = range 0 i ++ i :: range (i + 1) 512.
Proof.
  unfold range, is_idx. intros Hi. replace (512 - 0) with ((i - 0) + (1 + (512 - (i + 1)))) by lia.
  rewrite seqZ_app by lia. f_equal. rewrite seqZ_app by lia. rewrite (seqZ_cons _ 1) by lia. cbn [app].
  change (seqZ (Z.succ (0 + (i - 0))) (Z.pred 1)) with (@nil Z). f_equal; [lia|]. cbn [app]. f_equal. lia.
Qed.

Lemma in_children (child : Z → list Z) i q : q ∈ (range 0 i ≫= child) ↔ ∃ j, q ∈ child j ∧ 0 ≤ j < i.
Proof. rewrite list_elem_of_bind. unfold range. setoid_rewrite elem_of_seqZ. split; intros (j & ? & ?); exists j; (split; [done|lia]). Qed.

Lemma entry_ext m m' p j : m' !! p = m !! p → entry m' p j = entry m p j.
Proof. intros Hm. unfold entry, lookup_total, map_lookup_total. by rewrite Hm. Qed.

Lemma leafless_ext d m m' p ps : leafless d m p ps → (∀ q, q ∈ ps → m' !! q = m !! q) → leafless d m' p ps.
Proof.
  revert p ps. induction d as [|d IH]; intros p ps (child & -> & Hc) Hm; exists child; (split; [done|]); intros j Hj;
    rewrite (entry_ext m m') by (apply Hm; by left); destruct (Hc j Hj) as [?|Hq]; try by left.
  destruct Hq as (q & Hr & He & Hl). right. exists q. split_and!; [done|done|]. apply IH; [done|].
  intros x Hx. apply Hm. right. apply in_children. by exists j.
Qed.

Section freewalk.
Context (s : machine) (p : Z) (fl : list Z) (child : Z → list Z).
Context (Hk : kinv s fl) (Hp : ram_page p).
Context (Hnd : NoDup ((p :: (range 0 512 ≫= child)) ++ fl)).

(** The subtrees of the first [i] entries have been freed. *)
Record walked (i : Z) (s' : machine) (fl' : list Z) : Prop := {
  wk_kinv : kinv s' fl';
  wk_free : fl' ≡ₚ (range 0 i ≫= child) ++ fl;
  wk_held : held s' = held s;
  wk_mem q : q ≠ p → q ∉ (range 0 i ≫= child) → mem s' !! q = mem s !! q;
  wk_rest j : i ≤ j < 512 → entry (mem s') p j = entry (mem s) p j;
}.

Lemma walked_root i s' fl' : walked i s' fl' → i ≤ 512 → p ∉ fl'.
Proof.
  intros [_ -> _ _ _] Hi. cbn in Hnd. apply NoDup_cons in Hnd as [Hn _]. rewrite not_elem_of_app in *.
  destruct Hn as [Hn ?]. split; [|done]. intros (j & Hj & ?)%in_children. apply Hn. apply in_children. exists j. split; [done|lia].
Qed.

Lemma child_nodup i : is_idx i → NoDup (child i).
Proof.
  intros Hi. cbn in Hnd. apply NoDup_cons in Hnd as [_ Hnd']. rewrite (idx_range_split i Hi), bind_app, bind_cons, <-!app_assoc in Hnd'.
  apply NoDup_app in Hnd' as (_ & _ & Hnd'). by apply NoDup_app in Hnd' as (? & _ & _).
Qed.

(** The pages of one subtree are not those of another. *)
Lemma child_fresh i q : is_idx i → q ∈ child i → (q ≠ p) ∧ (q ∉ (range 0 i ≫= child)) ∧ (q ∉ fl).
Proof.
  intros Hi Hq. cbn in Hnd. apply NoDup_cons in Hnd as [Hn Hnd']. rewrite (idx_range_split i Hi), bind_app, bind_cons, <-!app_assoc in Hnd', Hn.
  apply NoDup_app in Hnd' as (_ & Hd & Hnd'). apply NoDup_app in Hnd' as (_ & Hd' & _).
  split_and!.
  - intros ->. apply Hn. rewrite !elem_of_app. tauto.
  - intros Hin. apply (Hd q Hin). rewrite !elem_of_app. tauto.
  - intros Hin. apply (Hd' q Hq). rewrite elem_of_app. tauto.
Qed.

Lemma walked_skip i s' fl' : walked i s' fl' → 0 ≤ i → child i = [] → walked (i + 1) s' fl'.
Proof.
  intros [W1 W2 W3 W4 W5] Hi Hc. split; rewrite ?range_snoc, ?bind_app, ?bind_singleton, ?Hc, ?app_nil_r by done; try done.
  intros j Hj. apply W5. lia.
Qed.

Lemma walked_child i s' fl' s1 fl1 :
  walked i s' fl' → is_idx i → kinv s1 fl1 → fl1 ≡ₚ child i ++ fl' → held s1 = held s' →
  (∀ q, q ∉ child i → mem s1 !! q = mem s' !! q) → 
  wp (store64 (pte_addr p i) 0) s1 (λ _ s2, walked (i + 1) s2 fl1).
Proof.
  intros Hw Hi Hk1 Hf1 Hh1 Hm1. pose proof Hw as [W1 W2 W3 W4 W5].
  assert (p ∉ child i) as Hpc by (intros [? _]%child_fresh; done).
  assert (p ∉ fl1) as Hp1.
  { rewrite Hf1, not_elem_of_app. split; [done|]. eapply walked_root; [done|]. unfold is_idx in Hi. lia. }
  eapply (wp_store_entry kernel_end); [done|done|done|done|]. intros Hk2.
  destruct (kinv_lookup _ _ _ _ Hk1 Hp) as (d & Hd & Hdok).
  unfold is_idx in Hi. split; rewrite ?range_snoc, ?bind_app, ?bind_singleton by lia.
  - done.
  - rewrite Hf1, W2. solve_Permutation.
  - cbn. cbn in Hh1, W3. congruence.
  - intros q Hq Hn. rewrite not_elem_of_app in Hn. cbn. unfold set_entry. rewrite lookup_insert_ne by done.
    rewrite Hm1 by tauto. apply W4; tauto.
  - intros j Hj. cbn [mem set_mem]. rewrite (entry_set _ _ _ _ _ _ d) by (done || (unfold is_idx; lia)).
    rewrite decide_False by lia. rewrite (entry_ext (mem s')) by (by apply Hm1). apply W5. lia.
Qed.

Lemma walked_done s' fl' :
  walked 512 s' fl' →
  wp (kfree kernel_end p) s' (λ _ s2, ∃ fl2, kinv s2 fl2 ∧ fl2 ≡ₚ (p :: (range 0 512 ≫= child)) ++ fl ∧ held s2 = held s ∧
    ∀ q, q ∉ p :: (range 0 512 ≫= child) → mem s2 !! q = mem s !! q).
Proof.
  intros Hw. pose proof Hw as [W1 W2 W3 W4 W5].
  wp_call (kfree_spec kernel_end Hend_pos); [done|done|by eapply walked_root|]. intros [] s2 (Hh & Hk2 & d & Hm).
  exists (p :: fl'). split_and!; [done|by rewrite W2|congruence|]. intros q [Hq Hn]%not_elem_of_cons.
  rewrite Hm, lookup_insert_ne by done. by apply W4.
Qed.
End freewalk.

Lemma freewalk_spec d s p ps fl :
  leafless d (mem s) p ps → kinv s fl → Forall ram_page ps → NoDup (ps ++ fl) →
  wp (freewalk_fuel kernel_end (S d) p) s (λ _ s', ∃ fl', kinv s' fl' ∧ fl' ≡ₚ ps ++ fl ∧ held s' = held s ∧
    ∀ q, q ∉ ps → mem s' !! q = mem s !! q).
Proof.
  revert s p ps fl. induction d as [|d IH]; intros s p ps fl (child & -> & Hc) Hk Hram Hnd; cbn [freewalk_fuel]; wp_step;
    pose proof (Forall_inv Hram) as Hp; (apply (wp_for_range (λ i _ s', ∃ fl', walked s p fl child i s' fl'));
    [lia|exists fl; by split| |intros [] s' (fl' & Hw); by eapply (walked_done s p fl child)]);
    intros i [] s' Hi (fl' & Hw); pose proof Hw as [W1 W2 W3 W4 W5]; (wp_step; eapply (wp_load_entry kernel_end); [exact W1|exact Hp|exact Hi|]);
    rewrite W5 by lia; destruct (Hc i Hi) as [[-> Hnil]|Hq];
    try (change (pte_valid 0 && negb (pte_leaf 0)) with false; change (pte_leaf 0) with false; cbn match; wp_steps; exists fl'; apply walked_skip; [done|lia|done]).
  - done.
  - destruct Hq as (q & Hr & -> & Hl). destruct (table_entry q (ram_addr q Hr)) as (-> & -> & -> & _). cbn [andb negb]. wp_step.
    assert (Forall ram_page (child i)) as Hrc.
    { apply Forall_forall. intros x Hx. rewrite Forall_forall in Hram. apply Hram. right. apply in_children. by exists i. }
    eapply wp_mono; [apply (IH s' q (child i) fl')|].
    + eapply leafless_ext; [done|]. intros x Hx. destruct (child_fresh p fl child Hnd i x Hi Hx) as (? & ? & _). by apply W4.
    + done.
    + done.
    + apply NoDup_app. split_and!; [|intros x Hx|apply W1].
      * by eapply child_nodup.
      * rewrite W2, not_elem_of_app. destruct (child_fresh p fl child Hnd i x Hi Hx) as (? & ? & ?). tauto.
    + intros [] s1 (fl1 & K1 & F1 & H1 & M1). cbn beta.
      eapply wp_mono; [eapply (walked_child s p fl child Hp Hnd i s' fl'); done|]. intros [] s2 Hw2. by exists fl1.
Qed.

(** The pages of a tree without leaves, in the order of the walk. *)
Definition low_pages (T : ptree) (k : Z) : list Z :=
  match PageTable.T0 T !! k with Some q => q :: (range 0 512 ≫= λ _, []) | None => [] end.
Definition mid_pages (T : ptree) (i : Z) : list Z :=
  match T1 T !! i with Some p => p :: (range 0 512 ≫= λ j, low_pages T (512 * i + j)) | None => [] end.

Lemma no_children (l : list Z) : (l ≫= λ _, []) = @nil Z.
Proof. induction l as [|x l IH]; [done|]. by rewrite bind_cons, IH. Qed.

Lemma tree_leafless s T fl :
  pt_own s T fl → L T = ∅ → leafless 2 (mem s) (pt_root T) (pt_root T :: (range 0 512 ≫= mid_pages T)).
Proof.
  intros Hown HL. pose proof (pw_ok _ _ _ _ Hown) as Hok. exists (mid_pages T). split; [done|]. intros i Hi.
  rewrite (po_root _ _ Hok) by done. unfold mid_pages. destruct (T1 T !! i) as [p|] eqn:Hp; [right|by left].
  exists p. split_and!; [by apply (own_page kernel_end s T fl), (in_T1 _ i)|done|].
  exists (λ j, low_pages T (512 * i + j)). split; [done|]. intros j Hj.
  rewrite (po_mid _ _ Hok i p j) by done. unfold low_pages. destruct (PageTable.T0 T !! _) as [q|] eqn:Hq; [right|by left].
  exists q. split_and!; [by eapply (own_page kernel_end s T fl), in_T0|done|].
  exists (λ _, []). split; [done|]. intros l Hl. left. rewrite (po_low _ _ Hok _ q l) by done. by rewrite HL, lookup_empty.
Qed.

Lemma in_low_pages T k x : x ∈ low_pages T k ↔ PageTable.T0 T !! k = Some x.
Proof.
  unfold low_pages. destruct (PageTable.T0 T !! k); [|by rewrite elem_of_nil]. rewrite no_children, list_elem_of_singleton.
  split; congruence.
Qed.

Lemma in_mid_pages T i x :
  x ∈ mid_pages T i ↔ T1 T !! i = Some x ∨ ∃ j, is_idx j ∧ is_Some (T1 T !! i) ∧ PageTable.T0 T !! (512 * i + j) = Some x.
Proof.
  unfold mid_pages, is_idx. destruct (T1 T !! i) as [p|]; cycle 1.
  { rewrite elem_of_nil. split; [done|]. by intros [?|(j & _ & [] & _)]. }
  rewrite elem_of_cons, in_children. setoid_rewrite in_low_pages. split.
  - intros [->|(j & Hj & ?)]; [by left|right]. eauto.
  - intros [[= ->]|(j & ? & _ & ?)]; [by left|right]. eauto.
Qed.

Lemma tree_pages s T fl : pt_own s T fl → tables T ≡ₚ pt_root T :: (range 0 512 ≫= mid_pages T).
Proof.
  intros Hown. pose proof (pw_ok _ _ _ _ Hown) as Hok. destruct (tables_distinct kernel_end _ _ _ Hown) as (Hd1 & Hd0 & Hi1 & Hi0 & Hd10).
  assert (∀ i j, is_idx j → (512 * i + j) / 512 = i) as Hdiv by (intros; by apply div_512).
  apply NoDup_Permutation.
  - pose proof (pw_nodup _ _ _ _ Hown) as Hnd. by apply NoDup_app in Hnd as (? & _ & _).
  - apply NoDup_cons. split.
    + intros (i & [Hx|(j & _ & _ & Hx)]%in_mid_pages & _)%in_children; [by apply (Hd1 _ _ Hx)|by apply (Hd0 _ _ Hx)].
    + apply NoDup_bind; [| |apply NoDup_seqZ].
      * intros i i' x _ _ [Hx|(j & Hj & _ & Hx)]%in_mid_pages [Hy|(j' & Hj' & _ & Hy)]%in_mid_pages; [by eapply Hi1| | |].
        -- by destruct (Hd10 _ _ _ _ Hx Hy).
        -- by destruct (Hd10 _ _ _ _ Hy Hx).
        -- pose proof (Hi0 _ _ _ Hx Hy) as Heq. rewrite <-(Hdiv i j), <-(Hdiv i' j') by done. by rewrite Heq.
      * intros i _. unfold mid_pages. destruct (T1 T !! i) as [p|] eqn:Hp; [|constructor]. apply NoDup_cons. split.
        -- intros (j & Hx%in_low_pages & _)%in_children. by apply (Hd10 _ _ _ _ Hp Hx).
        -- apply NoDup_bind; [| |apply NoDup_seqZ].
           ++ intros j j' x _ _ Hx%in_low_pages Hy%in_low_pages. pose proof (Hi0 _ _ _ Hx Hy). lia.
           ++ intros j _. unfold low_pages. destruct (PageTable.T0 T !! _); [rewrite no_children; apply NoDup_singleton|constructor].
  - intros x. unfold tables. rewrite !elem_of_cons, elem_of_app, in_children, !list_elem_of_fmap. setoid_rewrite in_mid_pages. split.
    + intros [->|[([i p] & -> & Hx%elem_of_map_to_list)|([k q] & -> & Hx%elem_of_map_to_list)]]; [by left|right|right]; cbn [snd].
      * exists i. split; [by left|]. by eapply (po_dom1 _ _ Hok).
      * exists (k / 512). destruct (po_dom0 _ _ Hok _ _ Hx) as [p Hp]. split; [|by eapply (po_dom1 _ _ Hok)].
        right. exists (k mod 512). split_and!; [apply is_idx_mod|by eexists|by rewrite split_512].
    + intros [->|(i & [Hx|(j & _ & _ & Hx)] & _)]; [by left|right; left|right; right].
      * exists (i, x). by rewrite elem_of_map_to_list.
      * exists (512 * i + j, x). by rewrite elem_of_map_to_list.
Qed.

(** [freewalk] gives every table of a tree without leaves back. *)
Lemma freewalk_tree s T fl :
  pt_own s T fl → L T = ∅ →
  wp (freewalk kernel_end (pt_root T)) s (λ _ s', ∃ fl', kinv s' fl' ∧ fl' ≡ₚ tables T ++ fl ∧ held s' = held s ∧
    ∀ q, q ∉ tables T → mem s' !! q = mem s !! q).
Proof.
  intros Hown HL. pose proof (tree_pages s T fl Hown) as Hps. pose proof Hown as [Hk _ Hr Hnd].
  unfold freewalk. eapply wp_mono; [eapply freewalk_spec; [by eapply tree_leafless|done|by rewrite <-Hps|by rewrite <-Hps]|].
  intros [] s' (fl' & Hk' & Hfl & Hh & Hm). exists fl'. split_and!; [done|by rewrite Hps|done|].
  intros q Hq. apply Hm. by rewrite <-Hps.
Qed.

(** ** The page table of a new process *)

(** Nothing is lost: the free list has the same pages, and no other page has changed. *)
Record restored (s : machine) (fl : list Z) (s' : machine) (fl' : list Z) : Prop := {
  re_kinv : kinv s' fl';
  re_free : fl' ≡ₚ fl;
  re_held : held s' = held s;
  re_mem p : p ∉ fl → mem s' !! p = mem s !! p;
}.

Lemma own_new s p fl :
  kinv s fl → ram_page p → p ∉ fl → mem s !! p = Some zero_page → pt_own s (mkPtree p ∅ ∅ ∅) fl.
Proof.
  intros Hk Hp Hn Hz. split; [done| | |].
  - split; cbn [T1 PageTable.T0 L pt_root]; try by intros *; rewrite lookup_empty.
    intros i Hi. by rewrite entry_zero_page.
  - by apply Forall_singleton.
  - unfold tables. cbn. rewrite !map_to_list_empty. cbn. apply NoDup_cons. split; [done|apply Hk].
Qed.

(** The tables an address space of [n] pages can have, beside those of the
    trampoline, the trapframe and the stack. *)
Definition low_tables (n : Z) : Z := (n + 511) / 512.
Definition mid_tables (n : Z) : Z := (low_tables n + 511) / 512.

Definition tables_for (n : Z) (T : ptree) : Prop :=
  (∀ k, is_Some (PageTable.T0 T !! k) → k = 131071 ∨ 0 ≤ k < low_tables n) ∧
  (∀ i, is_Some (T1 T !! i) → i = 255 ∨ 0 ≤ i < mid_tables n).

Lemma tables_for_bound n T : 0 ≤ n → tables_for n T → Z.of_nat (length (tables T)) ≤ 3 + low_tables n + mid_tables n.
Proof.
  intros Hn [H0 H1]. assert (0 ≤ low_tables n) as Hl by (apply Z.div_pos; lia).
  assert (0 ≤ mid_tables n) as Hm by (apply Z.div_pos; lia).
  assert (∀ a b, 0 ≤ b → (base.size ({[a]} ∪ list_to_set (seqZ 0 b) : gset Z) ≤ S (Z.to_nat b))%nat) as Hsz.
  { intros a b Hb. rewrite size_union_alt, size_singleton. apply le_n_S. etrans; [apply subseteq_size, subseteq_difference_l; reflexivity|].
    rewrite size_list_to_set, length_seqZ by apply NoDup_seqZ. done. }
  set (K0 := {[131071]} ∪ list_to_set (seqZ 0 (low_tables n)) : gset Z). set (K1 := {[255]} ∪ list_to_set (seqZ 0 (mid_tables n)) : gset Z).
  assert (length (tables T) ≤ 1 + base.size K1 + base.size K0)%nat as Hb.
  { apply tables_bound; [intros k Hk; destruct (H0 k Hk)|intros k Hk; destruct (H1 k Hk)];
      unfold K0, K1; rewrite elem_of_union, elem_of_singleton, elem_of_list_to_set, elem_of_seqZ; lia. }
  pose proof (Hsz 131071 (low_tables n) Hl : (base.size K0 ≤ _)%nat). pose proof (Hsz 255 (mid_tables n) Hm : (base.size K1 ≤ _)%nat). lia.
Qed.

Lemma tables_for_map n T T' v :
  tables_for n T → new_tables T T' v v → 0 ≤ v < n ∨ 67108352 ≤ v < 67108864 → tables_for n T'.
Proof.
  intros [A B] [C D] Hv. unfold tables_for, mid_tables, low_tables in *.
  assert (v / 512 = 131071 ∧ v / 512 / 512 = 255 ∨ 0 ≤ v / 512 < (n + 511) / 512 ∧ 0 ≤ v / 512 / 512 < ((n + 511) / 512 + 511) / 512) as Hd.
  { pose proof (Z.div_mod v 512 ltac:(lia)). pose proof (Z.mod_pos_bound v 512 ltac:(lia)).
    pose proof (Z.div_mod (v / 512) 512 ltac:(lia)). pose proof (Z.mod_pos_bound (v / 512) 512 ltac:(lia)).
    pose proof (Z.div_mod (n + 511) 512 ltac:(lia)). pose proof (Z.mod_pos_bound (n + 511) 512 ltac:(lia)).
    pose proof (Z.div_mod ((n + 511) / 512 + 511) 512 ltac:(lia)). pose proof (Z.mod_pos_bound ((n + 511) / 512 + 511) 512 ltac:(lia)). lia. }
  split.
  - intros k Hk. destruct (C k Hk) as [?|?]; [by apply A|]. lia.
  - intros k Hk. destruct (D k Hk) as [?|?]; [by apply B|]. lia.
Qed.

(** The tables that the pages [v .. w] can need. *)
Definition span_tables (v w : Z) : Z := (w / 512 - v / 512 + 1) + (w / 512 / 512 - v / 512 / 512 + 1).

Lemma new_tables_bound T T' v w :
  v ≤ w → new_tables T T' v w → Z.of_nat (length (tables T')) ≤ Z.of_nat (length (tables T)) + span_tables v w.
Proof.
  intros Hv [H0 H1]. pose proof (Z.div_le_mono v w 512 ltac:(lia) Hv) as Hd0. pose proof (Z.div_le_mono _ _ 512 ltac:(lia) Hd0) as Hd1.
  assert (∀ (m : gmap Z Z) a n, (base.size (dom m ∪ list_to_set (seqZ a n) : gset Z) ≤ length (map_to_list m) + Z.to_nat n)%nat) as Hsz.
  { intros m a n. rewrite size_union_alt, size_dom, length_map_to_list. apply Nat.add_le_mono_l.
    etrans; [apply subseteq_size, subseteq_difference_l; reflexivity|]. by rewrite size_list_to_set, length_seqZ by apply NoDup_seqZ. }
  pose proof (tables_bound T' (dom (PageTable.T0 T) ∪ list_to_set (seqZ (v / 512) (w / 512 - v / 512 + 1)))
    (dom (T1 T) ∪ list_to_set (seqZ (v / 512 / 512) (w / 512 / 512 - v / 512 / 512 + 1)))) as Hb.
  assert (length (tables T) = 1 + length (map_to_list (T1 T)) + length (map_to_list (PageTable.T0 T)))%nat as Hl.
  { unfold tables. cbn [length]. rewrite length_app, !length_fmap. lia. }
  pose proof (Hsz (PageTable.T0 T) (v / 512) (w / 512 - v / 512 + 1)). pose proof (Hsz (T1 T) (v / 512 / 512) (w / 512 / 512 - v / 512 / 512 + 1)).
  unfold span_tables. rewrite Hl.
  enough (length (tables T') ≤ 1 + base.size (dom (T1 T) ∪ list_to_set (seqZ (v / 512 / 512) (w / 512 / 512 - v / 512 / 512 + 1)) : gset Z) +
    base.size (dom (PageTable.T0 T) ∪ list_to_set (seqZ (v / 512) (w / 512 - v / 512 + 1)) : gset Z))%nat by lia.
  apply Hb; intros k Hk; rewrite elem_of_union, elem_of_dom, elem_of_list_to_set, elem_of_seqZ; [destruct (H0 k Hk)|destruct (H1 k Hk)]; first [by left|right; lia].
Qed.

Section trampoline.
Context (trampoline_start : usize) (Htramp : trampoline_start mod PGSIZE = 0) (Htramp0 : 0 ≤ trampoline_start < PHYSTOP).

Definition fresh_leaves (tf : usize) : gmap Z Z :=
  <[TRAPFRAME_VPN := leaf_bits tf (Z.lor PTE_R PTE_W)]>
    {[TRAMPOLINE_VPN := leaf_bits trampoline_start (Z.lor PTE_R PTE_X)]}.

(** A tree built from free pages alone. *)
Record built (s : machine) (fl : list Z) (l : gmap Z Z) (s' : machine) (T : ptree) (fl' : list Z) : Prop := {
  bu_own : pt_own s' T fl';
  bu_L : L T = l;
  bu_pages : tables T ++ fl' ≡ₚ fl;
  bu_held : held s' = held s;
  bu_mem p : p ∉ fl → mem s' !! p = mem s !! p;
}.

Lemma built_updated s fl l s1 T1 fl1 l' s2 T2 fl2 :
  built s fl l s1 T1 fl1 → updated kernel_end s1 T1 fl1 l' s2 T2 fl2 → built s fl l' s2 T2 fl2.
Proof.
  intros [B1 B2 B3 B4 B5] [U1 U2 U3 U4 U5 U6 U7]. split; [done|done|by rewrite U5|congruence|].
  intros p Hp. rewrite U6, B5; [done|done|]. by rewrite B3.
Qed.

Lemma built_freed s fl s1 T fl1 :
  built s fl ∅ s1 T fl1 →
  wp (freewalk kernel_end (pt_root T)) s1 (λ _ s', ∃ fl', restored s fl s' fl').
Proof.
  intros [B1 B2 B3 B4 B5]. wp_call freewalk_tree; [done|done|]. intros [] s' (fl' & K & F & H & Hm). exists fl'.
  split; [done|by rewrite F|congruence|]. intros p Hp. rewrite Hm, B5; [done|done|].
  rewrite <-B3, not_elem_of_app in Hp. tauto.
Qed.

(** A tree of free pages with the tables of the topmost pages only, after one more
    of these has been mapped, or not for want of memory. *)
Lemma top_mapped s fl l s1 T1 fl1 v pa flags :
  built s fl l s1 T1 fl1 → tables_for 0 T1 → 67108352 ≤ v < 67108864 → l !! v = None →
  pa mod PGSIZE = 0 → 0 ≤ pa < PHYSTOP → 0 ≤ flags < 1024 → Z.land flags 14 ≠ 0 →
  wp (mappages (pt_root T1) (PGSIZE * v) PGSIZE pa flags) s1 (λ r s2, ∃ T2 fl2, pt_root T2 = pt_root T1 ∧ tables_for 0 T2 ∧
    match r with
    | Some _ => built s fl (<[v := leaf_bits pa flags]> l) s2 T2 fl2
    | None => built s fl l s2 T2 fl2 ∧ (length fl ≤ 3)%nat
    end).
Proof.
  intros Hb Ht Hv Hl Hpa Hpa0 Hf Hrwx.
  wp_call (map_one_grows s1 T1 fl1 v pa flags (bu_own _ _ _ _ _ _ Hb)); [lia|mem_lia|done|lia| |done|done|].
  { change (2 ^ 55) with 36028797018963968. mem_lia. }
  intros r s2 (T2 & fl2 & Hnew & Hr). exists T2, fl2.
  assert (tables_for 0 T2) as Ht2 by (eapply tables_for_map; [done|exact Hnew|right; lia]).
  rewrite (bu_L _ _ _ _ _ _ Hb) in Hr. destruct r as [[]|].
  - split_and!; [by apply (up_root _ _ _ _ _ _ _ _ Hr)|done|by eapply built_updated].
  - destruct Hr as [Hup [->|[e He]]]; [|congruence]. split_and!; [by apply (up_root _ _ _ _ _ _ _ _ Hup)|done|by eapply built_updated|].
    pose proof (Permutation_length (bu_pages _ _ _ _ _ _ (built_updated _ _ _ _ _ _ _ _ _ _ Hb Hup))) as Hlen.
    pose proof (tables_for_bound 0 T2 ltac:(lia) Ht2) as Hbd. change (low_tables 0) with 0 in Hbd. change (mid_tables 0) with 0 in Hbd.
    rewrite app_nil_r in Hlen. lia.
Qed.

Lemma proc_pagetable_grows s fl tf :
  kinv s fl → ram_page tf →
  wp (proc_pagetable kernel_end trampoline_start tf) s (λ r s',
    match r with
    | Some pt => ∃ T fl', pt = pt_root T ∧ built s fl (fresh_leaves tf) s' T fl' ∧ tables_for 0 T
    | None => (∃ fl', restored s fl s' fl') ∧ (length fl ≤ 3)%nat
    end).
Proof.
  intros Hk Htf. unfold proc_pagetable, uvmcreate.
  wp_call (kalloc_zeroed_spec kernel_end Hend_pos); [done|]. intros r s1 (Hh1 & Hr).
  destruct fl as [|p fl1]; destruct Hr as (-> & Hm1 & Hk1).
  { wp_steps. split; [|cbn; lia]. exists []. split; [done|done|done|]. intros q _. by rewrite Hm1. }
  pose proof (Forall_inv (ki_free _ _ _ Hk)) as Hp. pose proof (ki_nodup _ _ _ Hk) as Hnd. apply NoDup_cons in Hnd as [Hpn _].
  assert (built s (p :: fl1) ∅ s1 (mkPtree p ∅ ∅ ∅) fl1) as Hb1.
  { split; [|done| |done|].
    - apply own_new; [done..|]. by rewrite Hm1, lookup_insert_eq.
    - unfold tables. cbn. by rewrite !map_to_list_empty.
    - intros q [Hq _]%not_elem_of_cons. by rewrite Hm1, lookup_insert_ne. }
  assert (tables_for 0 (mkPtree p ∅ ∅ ∅)) as Ht1 by (split; cbn; intros k [? Hk']; by rewrite lookup_empty in Hk').
  clear Hk Hm1. remember (p :: fl1) as fl. clear Heqfl. change p with (pt_root (mkPtree p ∅ ∅ ∅)). change TRAMPOLINE with (PGSIZE * TRAMPOLINE_VPN). change TRAPFRAME with (PGSIZE * TRAPFRAME_VPN).
  wp_call (top_mapped s fl ∅ s1 _ fl1 TRAMPOLINE_VPN trampoline_start (Z.lor PTE_R PTE_X) Hb1 Ht1); [vpn_lia|done|done|lia|done|done|].
  intros [[]|] s2 (T2 & fl2 & <- & Ht2 & Hb2); cycle 1.
  { destruct Hb2 as [Hb2 Hlen]. wp_step. eapply wp_mono; [by eapply built_freed|]. intros [] s' Hres. by wp_steps. }
  destruct Htf as [Htr Htm].
  wp_call (top_mapped s fl _ s2 T2 fl2 TRAPFRAME_VPN tf (Z.lor PTE_R PTE_W) Hb2 Ht2); [vpn_lia|done|done|mem_lia|done|done|].
  intros [[]|] s3 (T3 & fl3 & <- & Ht3 & Hb3).
  - wp_steps. exists T3, fl3. by split_and!.
  - destruct Hb3 as [Hb3 Hlen]. assert (L T3 = {[TRAMPOLINE_VPN := leaf_bits trampoline_start (Z.lor PTE_R PTE_X)]}) as HL3 by apply Hb3.
    wp_call (uvmunmap_spec kernel_end Hend_pos s3 T3 fl3 TRAMPOLINE_VPN 1 false); [apply Hb3|done|lia|done| |done|].
    { intros [|i] Hi; [|lia]. rewrite HL3, Z.add_0_r, lookup_singleton_eq. by eexists. }
    intros [] s4 (Hown4 & Hh4 & Hm4). change (pt_root T3) with (pt_root (set_L (unmap_range TRAMPOLINE_VPN 1 (L T3)) T3)).
    wp_step. eapply wp_mono; [eapply (built_freed s fl)|intros [] s' Hres; by wp_steps].
    destruct Hb3 as [B1 B2 B3 B4 B5]. split; [exact Hown4| |done|congruence|].
    + cbn [L set_L unmap_range]. rewrite HL3, Z.add_0_r. apply delete_singleton_eq.
    + intros q Hq. rewrite Hm4; [by apply B5| |done]. rewrite <-B3, not_elem_of_app in Hq. tauto.
Qed.

Lemma proc_pagetable_spec s fl tf :
  kinv s fl → ram_page tf →
  wp (proc_pagetable kernel_end trampoline_start tf) s (λ r s',
    match r with
    | Some pt => ∃ T fl', pt = pt_root T ∧ built s fl (fresh_leaves tf) s' T fl'
    | None => ∃ fl', restored s fl s' fl'
    end).
Proof.
  intros Hk Htf. eapply wp_mono; [by apply proc_pagetable_grows|]. intros [pt|] s'; [|by intros [? _]].
  intros (T & fl' & ? & ? & _). by exists T, fl'.
Qed.
End trampoline.

(** ** Destroying an address space *)

(** The address space of a process of [n] bytes: its heap, possibly its stack, the
    trapframe and the trampoline, and nothing else. *)
Record proc_space (T : ptree) (n : Z) : Prop := {
  ps_size : 0 ≤ n ≤ USER_STACK;
  ps_fixed w : w = TRAMPOLINE_VPN ∨ w = TRAPFRAME_VPN → ∃ e, L T !! w = Some e ∧ is_user e = false;
  ps_heap w : 0 ≤ w < pages n → ∃ e, L T !! w = Some e ∧ is_user e = true;
  ps_stack e : L T !! STACK_VPN = Some e → is_user e = true;
  ps_only w e : L T !! w = Some e → 0 ≤ w < pages n ∨ w = STACK_VPN ∨ w = TRAPFRAME_VPN ∨ w = TRAMPOLINE_VPN;
}.

Definition user_frames (T : ptree) (n : Z) : list Z :=
  from_option (λ e, [pte_pa e]) [] (L T !! STACK_VPN) ++ frames 0 (Z.to_nat (pages n)) (L T).

Lemma proc_pages_small T n : proc_space T n → 0 ≤ pages n ≤ STACK_VPN.
Proof. intros [Hn _ _ _ _]. split; [apply pages_nonneg; lia|]. apply pages_stack; lia. Qed.

Lemma owned_frames T n p : proc_space T n → owns_page T p ↔ p ∈ tables T ∨ p ∈ user_frames T n.
Proof.
  intros Hps. unfold owns_page, user_frames. rewrite elem_of_app, elem_of_frames. split; (intros [?|Hp]; [by left|right]).
  - destruct Hp as (w & e & Hw & Hu & <-). destruct (ps_only _ _ Hps _ _ Hw) as [Hin|[->|Hfix]].
    + right. exists (Z.to_nat w). split; [lia|]. replace (0 + Z.of_nat (Z.to_nat w)) with w by lia. by rewrite Hw.
    + left. rewrite Hw. by left.
    + destruct (ps_fixed _ _ Hps w ltac:(tauto)) as (e' & He' & Hu'). simplify_eq. congruence.
  - destruct Hp as [Hp|(i & Hi & ->)].
    + destruct (L T !! STACK_VPN) as [e|] eqn:He; [|by apply elem_of_nil in Hp]. apply list_elem_of_singleton in Hp as ->.
      exists STACK_VPN, e. split_and!; [done|by eapply ps_stack|done].
    + destruct (ps_heap _ _ Hps (0 + Z.of_nat i) ltac:(lia)) as (e & He & Hu). rewrite He. eauto.
Qed.

(** A step of the destruction: the leaves of some pages are gone, and their
    frames have been given back. *)
Record shrunk (s : machine) (T : ptree) (fl : list Z) (gone : Z → Prop) (fr : list Z) (s' : machine) (T' : ptree) (fl' : list Z) : Prop := {
  sh_space : space_ok s' T' fl';
  sh_root : pt_root T' = pt_root T;
  sh_tables : tables T' = tables T;
  sh_gone w : gone w → L T' !! w = None;
  sh_kept w : ¬ gone w → L T' !! w = L T !! w;
  sh_free : fl' ≡ₚ fr ++ fl;
  sh_held : held s' = held s;
  sh_mem p : ¬ owns_page T p → mem s' !! p = mem s !! p;
}.

Lemma shrunk_unmap s T fl (gone : Z → Prop) fr s1 T1 fl1 v n (do_free : bool) :
  shrunk s T fl gone fr s1 T1 fl1 → 0 ≤ v → (0 < n)%nat → v + Z.of_nat n ≤ 67108864 →
  (∀ w, v ≤ w < v + Z.of_nat n → ¬ gone w ∧ ∃ e, L T !! w = Some e ∧ (do_free = true → is_user e = true)) →
  wp (uvmunmap kernel_end (pt_root T) (PGSIZE * v) (Z.of_nat n) do_free) s1 (λ _ s2, ∃ T2 fl2,
    shrunk s T fl (λ w, gone w ∨ v ≤ w < v + Z.of_nat n) ((if do_free then frames v n (L T) else []) ++ fr) s2 T2 fl2).
Proof.
  intros [S1 S2 S3 S4 S5 S6 S7 S8] Hv Hn Hmax Hmapped. rewrite <-S2.
  assert (frames v n (L T1) = frames v n (L T)) as Hfr.
  { apply frames_ext. intros i Hi. apply S5. apply Hmapped. lia. }
  wp_call (unmap_space s1 T1 fl1 v n do_free S1); [done|done|done| |].
  { intros w Hw. destruct (Hmapped w Hw) as [Hng He]. by rewrite S5. }
  cbv zeta. rewrite Hfr. intros [] s2 (Hsp2 & Hh2 & Hm2). set (fr' := if do_free then _ else _) in *.
  exists (set_L (unmap_range v n (L T1)) T1), (fr' ++ fl1). split; [exact Hsp2|done|done| | | |congruence|].
  - intros w Hw. cbn [L set_L]. rewrite lookup_unmap_range. destruct (decide _); [done|]. apply S4. tauto.
  - intros w Hw. cbn [L set_L]. rewrite lookup_unmap_range, decide_False by tauto. apply S5. tauto.
  - rewrite S6. by rewrite app_assoc.
  - intros p Hp. rewrite Hm2; [by apply S8|by rewrite S3; intros ?; apply Hp; left|].
    unfold fr'. destruct do_free; [|apply not_elem_of_nil]. intros (i & Hi & ->)%elem_of_frames. apply Hp. right.
    destruct (Hmapped (v + Z.of_nat i) ltac:(lia)) as (_ & e & He & Hu). exists (v + Z.of_nat i), e. rewrite He. auto.
Qed.

Lemma shrunk_refl s T fl : space_ok s T fl → shrunk s T fl (λ _, False) [] s T fl.
Proof. by split. Qed.

(** The stack goes if there is one. *)
Lemma shrunk_stack s T fl n (gone : Z → Prop) s1 T1 fl1 :
  proc_space T n → shrunk s T fl gone [] s1 T1 fl1 → ¬ gone STACK_VPN →
  wp (r ← walk_user_perm (pt_root T) USER_STACK 0;
      match r with Some _ => uvmunmap kernel_end (pt_root T) USER_STACK 1 true | None => mret tt end) s1
    (λ _ s2, ∃ T2 fl2, shrunk s T fl (λ w, gone w ∨ w = STACK_VPN) (from_option (λ e, [pte_pa e]) [] (L T !! STACK_VPN)) s2 T2 fl2).
Proof.
  intros Hps Hsh Hng. pose proof Hsh as [S1 S2 S3 S4 S5 S6 S7 S8].
  wp_step. rewrite <-S2 at 1. eapply wp_mono; [eapply (walk_user_perm_spec kernel_end Hend_pos); [apply S1|done]|].
  intros r s' [-> ->]. unfold user_leaf. change (MAXVA <=? USER_STACK) with false. change (vpn USER_STACK) with STACK_VPN. cbn match.
  rewrite S5 by done. destruct (L T !! STACK_VPN) as [e|] eqn:He; cbn; rewrite ?(ps_stack _ _ Hps e He), ?Z.land_0_r; cbn.
  - change USER_STACK with (PGSIZE * STACK_VPN).
    wp_call (shrunk_unmap s T fl gone [] s1 T1 fl1 STACK_VPN 1 true Hsh); [done|lia|done| |].
    { intros w Hw. assert (w = STACK_VPN) as -> by lia. split; [done|]. exists e. split; [done|]. intros _. by eapply ps_stack. }
    intros [] s2 (T2 & fl2 & [R1 R2 R3 R4 R5 R6 R7 R8]). exists T2, fl2. split; try done.
    + intros w Hw. apply R4. destruct Hw as [?| ->]; [by left|right; lia].
    + intros w Hw. apply R5. intros [?|?]; apply Hw; [by left|right; lia].
    + rewrite R6. cbn [frames]. by rewrite Z.add_0_r, He.
  - wp_steps. exists T1, fl1. split; try done.
    + intros w [?| ->]; [by apply S4|]. by rewrite S5.
    + intros w Hw. apply S5. tauto.
Qed.

(** All leaves gone, the tables go. *)
Lemma shrunk_freed s T fl (gone : Z → Prop) fr s1 T1 fl1 :
  shrunk s T fl gone fr s1 T1 fl1 → (∀ w, gone w ∨ L T !! w = None) →
  wp (freewalk kernel_end (pt_root T)) s1 (λ _ s', ∃ fl', kinv s' fl' ∧ fl' ≡ₚ fr ++ tables T ++ fl ∧ held s' = held s ∧
    ∀ p, ¬ owns_page T p → mem s' !! p = mem s !! p).
Proof.
  intros [S1 S2 S3 S4 S5 S6 S7 S8] Hall. rewrite <-S2. wp_call (freewalk_tree s1 T1 fl1); [apply S1| |].
  { apply map_eq. intros w. rewrite lookup_empty. destruct (L T1 !! w) as [e|] eqn:He; [|done].
    destruct (Hall w) as [Hg|Hn]; [by rewrite S4 in He|]. rewrite S5 in He; [congruence|]. intros Hg. by rewrite S4 in He. }
  intros [] s' (fl' & K & F & H & Hm). exists fl'. split_and!; [done| |congruence|].
  - rewrite F, S3, S6. solve_Permutation.
  - intros p Hp. rewrite Hm; [by apply S8|]. rewrite S3. intros ?. apply Hp. by left.
Qed.

Lemma uvmfree_spec s T fl n (gone : Z → Prop) fr s1 T1 fl1 :
  proc_space T n → shrunk s T fl gone fr s1 T1 fl1 → (∀ w, 0 ≤ w < pages n → ¬ gone w) →
  (∀ w, 0 ≤ w < pages n ∨ gone w ∨ L T !! w = None) →
  wp (uvmfree kernel_end (pt_root T) n) s1 (λ _ s', ∃ fl', kinv s' fl' ∧
    fl' ≡ₚ (frames 0 (Z.to_nat (pages n)) (L T) ++ fr) ++ tables T ++ fl ∧ held s' = held s ∧
    ∀ p, ¬ owns_page T p → mem s' !! p = mem s !! p).
Proof.
  intros Hps Hsh Hng Hall. pose proof (proc_pages_small T n Hps) as Hpg. pose proof (ps_size _ _ Hps) as Hn.
  change STACK_VPN with 67108861 in Hpg. unfold uvmfree. wp_step. apply wp_page_round_up; [lia|mem_lia|].
  cbv zeta. rewrite (Z.mul_comm PGSIZE), Z.div_mul by mem_lia. wp_step. destruct (Z.ltb_spec 0 n) as [Hpos|Hz].
  - assert (0 < pages n) by (unfold pages; apply Z.div_str_pos; mem_lia).
    change 0 with (PGSIZE * 0) at 1. rewrite <-(Z2Nat.id (pages n)) at 1 by lia.
    wp_call (shrunk_unmap s T fl gone fr s1 T1 fl1 0 (Z.to_nat (pages n)) true Hsh); [done|lia|lia| |].
    { intros w Hw. split; [apply Hng; lia|]. destruct (ps_heap _ _ Hps w ltac:(lia)) as (e & He & Hu). eauto. }
    intros [] s2 (T2 & fl2 & Hsh2). cbn beta. eapply wp_mono; [eapply shrunk_freed; [exact Hsh2|]|by intros [] s'].
    intros w. destruct (Hall w) as [?|[?|?]]; [left; right; lia|left; by left|by right].
  - assert (n = 0) as -> by lia. change (pages 0) with 0. change (Z.to_nat 0) with 0%nat. cbn [frames app].
    wp_steps. eapply shrunk_freed; [exact Hsh|]. intros w. destruct (Hall w) as [Hw|[?|?]]; [|by left|by right].
    change (pages 0) with 0 in Hw. lia.
Qed.

Lemma proc_freepagetable_spec s T fl n :
  space_ok s T fl → proc_space T n →
  wp (proc_freepagetable kernel_end (pt_root T) n) s (λ _ s', ∃ fl', kinv s' fl' ∧
    fl' ≡ₚ user_frames T n ++ tables T ++ fl ∧ held s' = held s ∧ ∀ p, ¬ owns_page T p → mem s' !! p = mem s !! p).
Proof.
  intros Hsp Hps. pose proof (proc_pages_small T n Hps) as Hpg. unfold proc_freepagetable.
  change TRAMPOLINE with (PGSIZE * TRAMPOLINE_VPN). change TRAPFRAME with (PGSIZE * TRAPFRAME_VPN).
  assert (∀ w, w = TRAMPOLINE_VPN ∨ w = TRAPFRAME_VPN → ∃ e, L T !! w = Some e ∧ (false = true → is_user e = true)) as Hfix.
  { intros w Hw. destruct (ps_fixed _ _ Hps w Hw) as (e & He & _). by exists e. }
  wp_call (shrunk_unmap s T fl _ [] s T fl TRAMPOLINE_VPN 1 false (shrunk_refl s T fl Hsp)); [done|lia|done| |].
  { intros w Hw. split; [tauto|]. apply Hfix. lia. }
  intros [] s1 (T1 & fl1 & Hsh1).
  wp_call (shrunk_unmap s T fl _ [] s1 T1 fl1 TRAPFRAME_VPN 1 false Hsh1); [done|lia|done| |].
  { intros w Hw. split; [vpn_lia|]. apply Hfix. lia. }
  intros [] s2 (T2 & fl2 & Hsh2). apply wp_assoc_r. wp_step.
  eapply wp_mono; [eapply (shrunk_stack s T fl n); [done|exact Hsh2|]|].
  { vpn_lia. }
  intros [] s3 (T3 & fl3 & Hsh3). eapply wp_mono; [eapply uvmfree_spec; [done|exact Hsh3| |]|].
  - intros w Hw. vpn_lia.
  - intros w. destruct (L T !! w) as [e|] eqn:He; [|tauto]. destruct (ps_only _ _ Hps w e He) as [?|Hw]; [by left|right; left].
    vpn_lia.
  - intros [] s' (fl' & K & F & H & Hm). exists fl'. split_and!; [done| |done|done].
    rewrite F. unfold user_frames. solve_Permutation.
Qed.

(** ** Copying an address space *)

Lemma uflags_pte e : pte_leaf e = true → is_user e = true → uflags (pte_flags e).
Proof.
  unfold pte_leaf, is_user, pte_flags. intros [_ Hl]%andb_true_iff Hu.
  assert (∀ c, 0 ≤ c < 1024 → Z.land (Z.land e 1023) c = Z.land e c) as Hc.
  { intros c Hc. rewrite <-Z.land_assoc. f_equal. change 1023 with (Z.ones 10). rewrite Z.land_comm, Z.land_ones by lia. by apply Z.mod_small. }
  split; [change 1023 with (Z.ones 10); rewrite Z.land_ones by lia; by apply Z.mod_pos_bound|split].
  - rewrite Hc by lia. by apply negb_true_iff, Z.eqb_neq in Hl.
  - rewrite Hc by done. by apply negb_true_iff, Z.eqb_neq in Hu.
Qed.

Section copy.
Context (s0 : machine) (To Tn : ptree) (fl0 : list Z).
Context (Hold : space_ok s0 To fl0) (Hnew : space_ok s0 Tn fl0) (Hdis : ∀ p, owns_page To p → ¬ owns_page Tn p).

(** Flags and contents of the page behind page [w] of the original. *)
Definition old_flags (w : Z) : Z := pte_flags (default 0 (L To !! w)).
Definition old_data (w : Z) : list u8 := mem s0 !!! pte_pa (default 0 (L To !! w)).

Lemma old_apart p : owns_page To p → p ∉ tables Tn ++ fl0.
Proof.
  intros Hp. apply not_elem_of_app. split; [|by apply (owned_used s0 To fl0)]. intros Hin. apply (Hdis p Hp). by left.
Qed.

(** The original is not touched while the copy grows. *)
Lemma old_kept flags data v k s T fl :
  pages_filled flags data s0 Tn fl0 v k s T fl → space_ok s To fl ∧ ∀ p, owns_page To p → mem s !! p = mem s0 !! p.
Proof.
  intros [G1 G2 G3 G4 G5 G6 G7]. split; [|intros p Hp; by apply G7, old_apart].
  eapply space_frame; [exact Hold|apply G1|]. intros p Hp. pose proof (old_apart p Hp) as Hn.
  split; [by apply G7|]. rewrite <-G6, !not_elem_of_app in Hn. tauto.
Qed.

Lemma old_page w e : L To !! w = Some e → is_user e = true → uflags (old_flags w) ∧
  owns_page To (pte_pa e) ∧ ∃ d, mem s0 !! pte_pa e = Some d ∧ page_ok d ∧ old_data w = d.
Proof.
  intros Hw Hu. unfold old_flags, old_data. rewrite Hw. cbn [default from_option id]. split_and!.
  - apply uflags_pte; [|done]. by eapply (po_leaf _ _ (pw_ok _ _ _ _ (so_own _ _ _ _ Hold))).
  - right. by exists w, e.
  - destruct (so_frame _ _ _ _ Hold _ _ Hw Hu) as [Hr _]. destruct (kinv_lookup kernel_end s0 fl0 (pte_pa e)) as (d & Hd & Hdok); [apply Hold|done|].
    exists d. split_and!; [done|done|]. by apply lookup_total_correct.
Qed.

(** The page behind page [w] of the original, through the page walk. *)
Lemma old_walk flags data v k s T fl w e :
  pages_filled flags data s0 Tn fl0 v k s T fl → L To !! w = Some e → is_user e = true → 0 ≤ w → PGSIZE * w < MAXVA →
  wp (walk_user_perm (pt_root To) (PGSIZE * w) 0) s (λ r s', r = Some e ∧ s' = s).
Proof.
  intros Hg He Hu Hw Hm. destruct (old_kept _ _ _ _ _ _ _ Hg) as [Hsp _].
  wp_call (walk_user_perm_spec kernel_end Hend_pos s To fl (PGSIZE * w) 0); [apply Hsp|mem_lia|]. intros r s' [-> ->].
  split; [|done]. unfold user_leaf. rewrite (proj2 (Z.leb_gt _ _)), vpn_page, He by done. cbn. by rewrite Hu, Z.land_0_r.
Qed.

Context (v : Z) (n : nat) (Hv : 0 ≤ v) (Hmax : PGSIZE * (v + Z.of_nat n) ≤ MAXVA).
Context (Hfresh : ∀ w, v ≤ w < v + Z.of_nat n → L Tn !! w = None).
Context (flags : Z → Z) (Hflags : ∀ w, v ≤ w < v + Z.of_nat n → uflags (flags w)).

Local Abbreviation copying := (pages_filled flags old_data s0 Tn fl0 v).

(** Take a page, copy the original into it and map it: the common part of
    [uvmcopy] and [uvmcopy_stack]. *)
Lemma copy_step {A} k s T fl e (fail ok : M machine A) (Q : A → machine → Prop) :
  copying k s T fl → (k < n)%nat → L To !! (v + Z.of_nat k) = Some e → is_user e = true →
  (∀ s' T' fl', copying k s' T' fl' → wp fail s' Q) →
  (∀ s' T' fl', copying (S k) s' T' fl' → wp ok s' Q) →
  wp (r ← kalloc_zeroed;
      match r with
      | None => fail
      | Some dst_pa =>
          d ← load_page (pte_pa e);
          store_page dst_pa d;;
          r ← mappages (pt_root Tn) (PGSIZE * (v + Z.of_nat k)) PGSIZE dst_pa (flags (v + Z.of_nat k));
          match r with
          | None => kfree kernel_end dst_pa;; fail
          | Some _ => ok
          end
      end) s Q.
Proof.
  intros Hg Hk He Hu Hfail Hok. pose proof Hg as [G1 G2 G3 G4 G5 G6 G7]. destruct (old_kept _ _ _ _ _ _ _ Hg) as [Hsp Hsame].
  destruct (old_page _ _ He Hu) as (_ & Hown & d & Hd & Hdok & Hdat).
  wp_call (own_kalloc_zeroed kernel_end Hend_pos); [apply G1|]. intros r s1 (Hh1 & Hr).
  destruct fl as [|p fl]; destruct Hr as (-> & Hm1 & Hr).
  { eapply Hfail. by eapply filled_mem. }
  destruct Hr as (Hown1 & Hp & Hpn).
  assert (mem s1 !! pte_pa e = Some d) as Hd1.
  { destruct (owned_used _ _ _ _ Hsp Hown) as [_ Hne]. rewrite Hm1, lookup_insert_ne by (intros ->; apply Hne; by left). by rewrite Hsame. }
  wp_step. eapply wp_load_page; [done|]. wp_step. apply wp_store_page; [by apply (ki_ram _ _ _ (pw_kinv _ _ _ _ Hown1))|].
  set (s2 := set_mem _ s1). assert (pt_own s2 T fl) as Hown2 by (by apply own_store_frame).
  wp_step. rewrite <-G2. eapply wp_mono; [eapply (fill_step flags old_data s0 Tn fl0 v n Hv Hmax Hfresh Hflags k s T p fl s2 Hg); try done|].
  { cbn. by rewrite Hm1, insert_insert_eq, Hdat. }
  intros [[]|] s3.
  - intros (T' & fl' & Hg'). by eapply Hok.
  - intros (T' & fl' & _ & Hfree). wp_step. eapply wp_mono; [exact Hfree|]. intros [] s4 Hg4. by eapply Hfail.
Qed.
End copy.

Section copies.
Context (s0 : machine) (To Tn : ptree) (fl0 : list Z) (sz : Z).
Context (Hold : space_ok s0 To fl0) (Hnew : space_ok s0 Tn fl0) (Hdis : ∀ p, owns_page To p → ¬ owns_page Tn p).
Context (Hsz : 0 ≤ sz ≤ USER_STACK).

Local Abbreviation heap_copied := (pages_filled (old_flags To) (old_data s0 To) s0 Tn fl0 0).

Lemma uvmcopy_spec :
  (∀ w, 0 ≤ w < pages sz → ∃ e, L To !! w = Some e ∧ is_user e = true) → (∀ w, 0 ≤ w < pages sz → L Tn !! w = None) →
  wp (uvmcopy kernel_end (pt_root To) (pt_root Tn) sz) s0 (λ r s', ∃ T' fl',
    heap_copied (if r is Some _ then Z.to_nat (pages sz) else 0) s' T' fl').
Proof.
  intros Hmapped Hfresh. pose proof (pages_nonneg sz ltac:(lia)) as Hp0. pose proof (proj1 (pages_stack sz) ltac:(lia)) as Hp1.
  change (USER_STACK / PGSIZE) with 67108861 in Hp1. set (n := Z.to_nat (pages sz)).
  assert (0 ≤ 0 ∧ PGSIZE * (0 + Z.of_nat n) ≤ MAXVA) as [Hv Hmax] by (unfold n; mem_lia).
  assert (∀ w, 0 ≤ w < 0 + Z.of_nat n → L Tn !! w = None) as Hfr by (intros; apply Hfresh; lia).
  assert (∀ w, 0 ≤ w < 0 + Z.of_nat n → uflags (old_flags To w)) as Hfl.
  { intros w Hw. destruct (Hmapped w ltac:(lia)) as (e & He & Hu). by eapply (old_page s0 To fl0). }
  unfold uvmcopy. wp_step. apply wp_page_round_up; [lia|mem_lia|]. cbv zeta.
  rewrite (Z.mul_comm PGSIZE), Z.div_mul by mem_lia. wp_step.
  apply (wp_for_each_range (λ i _ s, ∃ T fl, heap_copied (Z.to_nat i) s T fl)).
  - lia.
  - exists Tn, fl0. by apply filled_refl.
  - intros i [] s Hi (T & fl & Hg). destruct (Hmapped i Hi) as (e & He & Hu). unfold uvmcopy_page.
    set (k := Z.to_nat i) in *. replace i with (0 + Z.of_nat k) in He |- * by lia. wp_step. apply wp_mul_at; [mem_lia|].
    rewrite (Z.mul_comm _ PGSIZE). wp_call (old_walk s0 To Tn fl0 Hold Hdis _ _ 0 k s T fl _ e Hg He Hu); [lia|mem_lia|].
    intros r s1 [-> ->]. wp_step. eapply wp_expect; [done|]. replace (pte_flags e) with (old_flags To (0 + Z.of_nat k)) by (unfold old_flags; by rewrite He).
    eapply (copy_step s0 To Tn fl0 Hold Hdis 0 n Hv Hmax Hfr _ Hfl k s T fl e); [done|unfold n; lia|done|done| |].
    + intros s' T' fl' Hg'. rewrite <-(fi_root _ _ _ _ _ _ _ _ _ _ Hg'). destruct (Z.ltb_spec 0 (0 + Z.of_nat k)) as [Hpos|Hz].
      * change (0 + Z.of_nat k) with (Z.of_nat k). change 0 with (PGSIZE * 0) at 1.
        wp_call (fill_undone _ _ s0 Tn fl0 0 n Hv Hmax Hfr Hfl k s' T' fl' Hg'); [unfold n; lia|].
        intros [] s2 Hg2. by wp_steps.
      * wp_steps. assert (k = 0%nat) as Hk0 by lia. rewrite Hk0 in Hg'. eauto.
    + intros s' T' fl' Hg'. wp_steps. exists T', fl'. by replace (Z.to_nat (0 + Z.of_nat k + 1)) with (S k) by lia.
  - intros [] s (T & fl & Hg). wp_steps. eauto.
Qed.

(** The stack of the copy is readable and writable. *)
Local Abbreviation stack_copied := (pages_filled (λ _, URW) (old_data s0 To) s0 Tn fl0 STACK_VPN).

Lemma uvmcopy_stack_spec e :
  L To !! STACK_VPN = Some e → is_user e = true → L Tn !! STACK_VPN = None →
  wp (uvmcopy_stack kernel_end (pt_root To) (pt_root Tn)) s0 (λ r s', ∃ T' fl', stack_copied (if r is Some _ then 1 else 0) s' T' fl').
Proof.
  intros He Hu Hnone.
  assert (∀ w, STACK_VPN ≤ w < STACK_VPN + Z.of_nat 1 → w = STACK_VPN) as Hone by lia.
  pose proof (filled_refl (λ _, URW) (old_data s0 To) s0 Tn fl0 STACK_VPN Hnew) as Hg.
  unfold uvmcopy_stack. change USER_STACK with (PGSIZE * STACK_VPN).
  wp_call (old_walk s0 To Tn fl0 Hold Hdis _ _ _ 0 s0 Tn fl0 _ e Hg He Hu); [done|done|]. intros r s1 [-> ->].
  change (Z.lor (Z.lor PTE_U PTE_R) PTE_W) with ((λ _ : Z, URW) (STACK_VPN + Z.of_nat 0)).
  change (PGSIZE * STACK_VPN) with (PGSIZE * (STACK_VPN + Z.of_nat 0)).
  eapply (copy_step s0 To Tn fl0 Hold Hdis STACK_VPN 1); [done|done|intros w ->%Hone; done|intros; apply uflags_URW|exact Hg|lia|done|done| |].
  - intros s' T' fl' Hg'. wp_steps. eauto.
  - intros s' T' fl' Hg'. wp_steps. eauto.
Qed.
End copies.
End space.
