(* ===== verification/Kvm.v ===== *)
(** * The kernel page table (src/src/vm.rs: kvmmake)

    What [kvmmake] builds: one region of the identity map after the other, and the
    trampoline page. *)

From S2P Require Import Prelude Spinlock FsBase Kalloc Vm PageTable UserMem Space.

(** The table pages of the kernel page table: the virtual page numbers divided by
    512 and by 512 again. *)
Definition low_keys : gset Z := list_to_set ([16; 96; 97; 128; 131071] ++ seqZ 1025 63).
Definition mid_keys : gset Z := {[0; 2; 255]}.

(** The tables, and the root. *)
Definition KVM_TABLES : nat := 72.

Lemma keys_size : (1 + base.size mid_keys + base.size low_keys)%nat = KVM_TABLES.
Proof. by vm_compute. Qed.

Lemma low_key k : k ∈ [16; 96; 97; 128; 131071] ∨ 1025 ≤ k ≤ 1087 → k ∈ low_keys.
Proof. intros [H|H]; apply elem_of_list_to_set, elem_of_app; [by left|right]. apply elem_of_seqZ. lia. Qed.

Lemma mid_key : 0 ∈ mid_keys ∧ 2 ∈ mid_keys ∧ 255 ∈ mid_keys.
Proof. unfold mid_keys. set_solver. Qed.

#[local] Opaque low_keys mid_keys.

Lemma kvm_tables_bound T :
  (∀ k, is_Some (T0 T !! k) → k ∈ low_keys) → (∀ i, is_Some (T1 T !! i) → i ∈ mid_keys) → (length (tables T) ≤ KVM_TABLES)%nat.
Proof. intros H0 H1. rewrite <-keys_size. by apply tables_bound. Qed.

Lemma range_keys v n lo hi i :
  0 < n → lo * 512 ≤ v → v + n ≤ (hi + 1) * 512 → i * 262144 ≤ v → v + n ≤ (i + 1) * 262144 →
  (∀ k, lo ≤ k ≤ hi → k ∈ low_keys) → i ∈ mid_keys →
  (∀ k, v / 512 ≤ k ≤ (v + n - 1) / 512 → k ∈ low_keys) ∧ (∀ j, v / 512 / 512 ≤ j ≤ (v + n - 1) / 512 / 512 → j ∈ mid_keys).
Proof.
  intros Hn Hlo Hhi Hi Hi' Hlow Hmid. split.
  - intros k [H1 H2]. apply Hlow. split.
    + transitivity (v / 512); [|done]. apply Z.div_le_lower_bound; lia.
    + transitivity ((v + n - 1) / 512); [done|]. apply Z.lt_succ_r, Z.div_lt_upper_bound; lia.
  - intros j. rewrite !Z.div_div by lia. intros [H1 H2]. assert (j = i) as ->; [|done]. change (512 * 512) with 262144 in *.
    assert (i ≤ v / 262144) by (apply Z.div_le_lower_bound; lia).
    assert ((v + n - 1) / 262144 < i + 1) by (apply Z.div_lt_upper_bound; lia). lia.
Qed.

(** All of memory above the kernel is free. *)
Lemma free_pages_length kernel_end fl :
  0 < kernel_end → kernel_end mod PGSIZE = 0 → kernel_end + PGSIZE * 73 ≤ PHYSTOP → NoDup fl → (∀ q, q ∈ fl ↔ ram_page kernel_end q) →
  (KVM_TABLES < length fl)%nat.
Proof.
  intros Hpos Hal Hroom Hnd Hall. unfold KVM_TABLES.
  assert (pages_down kernel_end 73 ⊆+ fl) as Hsub.
  { apply NoDup_submseteq.
    - apply NoDup_fmap_2; [intros i j Hij; mem_lia|]. rewrite reverse_Permutation. apply NoDup_seq.
    - intros q Hq. apply Hall. apply elem_of_pages_down in Hq as (i & -> & Hi). split; [mem_lia|].
      rewrite (Z.mul_comm PGSIZE), Z.mod_add by mem_lia. done. }
  apply submseteq_length in Hsub. unfold pages_down in Hsub. rewrite length_fmap, length_reverse, length_seq in Hsub. lia.
Qed.

Section kvm.
Context (kernel_end : usize) (Hend_pos : 0 < kernel_end).

Local Abbreviation kinv := (kinv kernel_end).
Local Abbreviation built := (built kernel_end).

(** Mapping one more region. *)
Record kvm_built (m0 : machine) (fl0 : list Z) (root : Z) (l : gmap Z Z) (m : machine) (T : ptree) (fl : list Z) : Prop := {
  kb_built : built m0 fl0 l m T fl;
  kb_root : pt_root T = root;
  kb_low k : is_Some (T0 T !! k) → k ∈ low_keys;
  kb_mid i : is_Some (T1 T !! i) → i ∈ mid_keys;
}.

Lemma map_region m0 fl0 root l m T fl v n pa flags :
  (KVM_TABLES < length fl0)%nat → kvm_built m0 fl0 root l m T fl → 0 ≤ v → 0 < n → v + n ≤ MAXVA / PGSIZE →
  pa mod PGSIZE = 0 → 0 ≤ pa → pa + PGSIZE * n < 2 ^ 55 → 0 ≤ flags < 1024 → Z.land flags 14 ≠ 0 →
  (∀ w, v ≤ w < v + n → l !! w = None) →
  (∀ k, v / 512 ≤ k ≤ (v + n - 1) / 512 → k ∈ low_keys) → (∀ i, v / 512 / 512 ≤ i ≤ (v + n - 1) / 512 / 512 → i ∈ mid_keys) →
  wp (mappages root (PGSIZE * v) (PGSIZE * n) pa flags) m (λ r m', r = Some tt ∧
    ∃ T' fl', kvm_built m0 fl0 root (map_range v pa flags (Z.to_nat n) l) m' T' fl').
Proof.
  intros Hfl [Hb <- Hlow Hmid] Hv Hn Hmax Hpa Hpa0 Hpam Hf Hrwx Hfree Hk0 Hk1. change (MAXVA / PGSIZE) with 67108864 in Hmax.
  assert (Z.to_nat ((PGSIZE * n + PGSIZE - 1) / PGSIZE) = Z.to_nat n) as Hpages.
  { replace (PGSIZE * n + PGSIZE - 1) with (PGSIZE - 1 + n * PGSIZE) by lia. rewrite Z.div_add by mem_lia. change ((PGSIZE - 1) / PGSIZE) with 0. lia. }
  wp_call (mappages_grows kernel_end Hend_pos m T fl v); [apply Hb|done|mem_lia|mem_lia|done|done|done|done|done|]. rewrite Hpages.
  intros r m' (i & T' & fl' & Hup & [N0 N1] & Hr). pose proof (built_updated _ _ _ _ _ _ _ _ _ _ _ Hb Hup) as Hb'.
  rewrite Z2Nat.id in N0, N1 by lia.
  assert (∀ k, is_Some (T0 T' !! k) → k ∈ low_keys) as Hlow' by (intros k Hk; destruct (N0 k Hk); auto).
  assert (∀ i, is_Some (T1 T' !! i) → i ∈ mid_keys) as Hmid' by (intros j Hj; destruct (N1 j Hj); auto).
  rewrite (bu_L _ _ _ _ _ _ _ Hb) in *. destruct r as [[]|].
  - subst i. split; [done|]. exists T', fl'. split; [done|by apply (up_root _ _ _ _ _ _ _ _ Hup)|done|done].
  - destruct Hr as (Hi & [->|[e He]]); [exfalso|by rewrite Hfree in He by lia].
    pose proof (bu_pages _ _ _ _ _ _ _ Hb') as Hperm. apply Permutation_length in Hperm. rewrite app_nil_r in Hperm.
    pose proof (kvm_tables_bound T' Hlow' Hmid'). lia.
Qed.

Lemma kvmmap_spec m0 fl0 root l m T fl v n flags :
  (KVM_TABLES < length fl0)%nat → kvm_built m0 fl0 root l m T fl → 0 ≤ v → 0 < n → v + n ≤ MAXVA / PGSIZE →
  0 ≤ flags < 1024 → Z.land flags 14 ≠ 0 → (∀ w, v ≤ w < v + n → l !! w = None) →
  (∀ k, v / 512 ≤ k ≤ (v + n - 1) / 512 → k ∈ low_keys) → (∀ i, v / 512 / 512 ≤ i ≤ (v + n - 1) / 512 / 512 → i ∈ mid_keys) →
  wp (kvmmap root (PGSIZE * v) (PGSIZE * n) flags) m (λ _ m',
    ∃ T' fl', kvm_built m0 fl0 root (map_range v (PGSIZE * v) flags (Z.to_nat n) l) m' T' fl').
Proof.
  intros Hfl Hb Hv Hn Hmax Hf Hrwx Hfree Hk0 Hk1. unfold kvmmap. wp_step.
  eapply wp_mono; [eapply (map_region m0 fl0 root l m T fl v n (PGSIZE * v)); try done|].
  - rewrite Z.mul_comm. by apply Z.mod_mul.
  - mem_lia.
  - change (MAXVA / PGSIZE) with 67108864 in Hmax. change (2 ^ 55) with 36028797018963968. mem_lia.
  - intros r m' (-> & Hb'). by eapply wp_expect.
Qed.
End kvm.

(** ** The map *)

(** One case per region of an explicit list. *)
Ltac each_region H :=
  repeat (apply elem_of_cons in H as [H|H]; [injection H as -> -> ->|]); [..|by apply not_elem_of_nil in H].

Definition RW : Z := Z.lor PTE_R PTE_W.
Definition RX : Z := Z.lor PTE_R PTE_X.

Section layout.
Context (kernel_end trampoline_start etext erodata : usize).

(** What linker.ld guarantees: the sections follow each other, on page boundaries. *)
Record layout : Prop := {
  lay_text : KERNBASE < etext ∧ etext mod PGSIZE = 0;
  lay_rodata : etext < erodata ∧ erodata mod PGSIZE = 0;
  lay_end : erodata ≤ kernel_end ∧ kernel_end < PHYSTOP;
  lay_tramp : KERNBASE ≤ trampoline_start < etext ∧ trampoline_start mod PGSIZE = 0;
}.
Context (Hlay : layout).

(** The identity map: first page, pages, permissions. *)
Definition kernel_regions : list (Z * Z * Z) := [
  (UART0 / PGSIZE, 1, RW); (CLINT / PGSIZE, 16, RW); (PLIC / PGSIZE, 1024, RW);
  (KERNBASE / PGSIZE, (etext - KERNBASE) / PGSIZE, RX); (etext / PGSIZE, (erodata - etext) / PGSIZE, PTE_R);
  (erodata / PGSIZE, (PHYSTOP - erodata) / PGSIZE, RW)].

Definition identity_map : list (Z * Z * Z) → gmap Z Z :=
  foldl (λ l '(v, n, f), map_range v (PGSIZE * v) f (Z.to_nat n) l) ∅.
Definition kernel_leaves : gmap Z Z := map_range TRAMPOLINE_VPN trampoline_start RX 1 (identity_map kernel_regions).

Lemma identity_lookup rs w e :
  identity_map rs !! w = Some e → ∃ v n f, (v, n, f) ∈ rs ∧ v ≤ w < v + n ∧ e = leaf_bits (PGSIZE * w) f.
Proof.
  induction rs as [|[[v n] f] rs IH] using rev_ind; [by cbn; rewrite lookup_empty|]. unfold identity_map. rewrite foldl_app. cbn [foldl].
  rewrite lookup_map_range. destruct (decide _) as [Hin|_].
  - intros [= <-]. exists v, n, f. split_and!; [apply elem_of_app; right; by left|lia|lia|]. do 2 f_equal. lia.
  - intros He. destruct (IH He) as (v' & n' & f' & Hr & Hw). exists v', n', f'. split; [|done]. apply elem_of_app. by left.
Qed.

Lemma identity_region rs w v n f :
  (v, n, f) ∈ rs → v ≤ w < v + n → (∀ v' n' f', (v', n', f') ∈ rs → v' ≤ w < v' + n' → f' = f) →
  identity_map rs !! w = Some (leaf_bits (PGSIZE * w) f).
Proof.
  intros Hin Hw Hsame. induction rs as [|[[v1 n1] f1] rs IH] using rev_ind; [by apply not_elem_of_nil in Hin|].
  unfold identity_map. rewrite foldl_app. cbn [foldl]. rewrite lookup_map_range. destruct (decide _) as [Hw1|Hout].
  - f_equal. assert (f1 = f) as -> by (eapply Hsame; [apply elem_of_app; right; by left|lia]). f_equal. lia.
  - apply IH; [|intros v' n' f' Hr; apply Hsame, elem_of_app; by left]. apply elem_of_app in Hin as [?|Hin]; [done|].
    apply list_elem_of_singleton in Hin. simplify_eq. lia.
Qed.

(** The sections in pages. *)
Lemma layout_pages : ∃ a b, etext = PGSIZE * a ∧ erodata = PGSIZE * b ∧ 524800 < a < b ∧ b < 557056.
Proof.
  destruct Hlay as [[H1 H1'] [H2 H2'] [H3 H4] _]. exists (etext / PGSIZE), (erodata / PGSIZE).
  pose proof (Z_div_exact_full_2 etext PGSIZE ltac:(done) H1') as E1. pose proof (Z_div_exact_full_2 erodata PGSIZE ltac:(done) H2') as E2.
  split_and!; [done|done|..]; unfold KERNBASE, PHYSTOP in *; mem_lia.
Qed.

Lemma regions_pages a b : etext = PGSIZE * a → erodata = PGSIZE * b →
  kernel_regions = [(65536, 1, RW); (8192, 16, RW); (49152, 1024, RW); (524800, a - 524800, RX); (a, b - a, PTE_R); (b, 557056 - b, RW)].
Proof.
  intros E1 E2. unfold kernel_regions. rewrite E1, E2. change KERNBASE with (PGSIZE * 524800). change PHYSTOP with (PGSIZE * 557056).
  rewrite <-!Z.mul_sub_distr_l, !(Z.mul_comm PGSIZE), !Z.div_mul by done. done.
Qed.

Lemma kernel_regions_apart w v n f v' n' f' :
  (v, n, f) ∈ kernel_regions → (v', n', f') ∈ kernel_regions → v ≤ w < v + n → v' ≤ w < v' + n' → f' = f.
Proof.
  destruct layout_pages as (a & b & Ea & Eb & Hab & Hb). rewrite (regions_pages a b Ea Eb).
  intros H H' Hw Hw'. each_region H; each_region H'; done || lia.
Qed.

(** One more region after those of [rs]. *)
Lemma kvm_step m0 fl0 root rs m T fl v n f lo hi i :
  (KVM_TABLES < length fl0)%nat → kvm_built kernel_end m0 fl0 root (identity_map rs) m T fl →
  0 ≤ v → 0 < n → v + n ≤ 557056 → f = RW ∨ f = RX ∨ f = PTE_R →
  (∀ v' n' f', (v', n', f') ∈ rs → v' + n' ≤ v ∨ v + n ≤ v') →
  lo * 512 ≤ v → v + n ≤ (hi + 1) * 512 → i * 262144 ≤ v → v + n ≤ (i + 1) * 262144 → (∀ k, lo ≤ k ≤ hi → k ∈ low_keys) → i ∈ mid_keys →
  wp (kvmmap root (PGSIZE * v) (PGSIZE * n) f) m (λ _ m', ∃ T' fl', kvm_built kernel_end m0 fl0 root (identity_map (rs ++ [(v, n, f)])) m' T' fl').
Proof.
  intros Hfl Hb Hv Hn Hmax Hf Hap Hlo Hhi Hi Hi' Hlow Hmid. destruct (range_keys v n lo hi i) as [K0 K1]; [done..|].
  assert (0 < kernel_end) as Hend. { destruct Hlay as [[? ?] [? ?] [? ?] _]. unfold KERNBASE in *. mem_lia. }
  unfold identity_map. rewrite foldl_app. cbn [foldl].
  apply (kvmmap_spec kernel_end Hend m0 fl0 root (identity_map rs) m T fl v n f Hfl Hb Hv Hn);
    [change (MAXVA / PGSIZE) with 67108864; lia|by destruct Hf as [-> | [-> | ->]]|by destruct Hf as [-> | [-> | ->]]| |done|done].
  intros w Hw. destruct (identity_map rs !! w) as [e|] eqn:He; [|done].
  destruct (identity_lookup rs w e He) as (v' & n' & f' & Hr & Hw' & _). destruct (Hap v' n' f' Hr); lia.
Qed.

Ltac kvm_side :=
  first [lia | by auto | by apply mid_key |
    let v' := fresh in let n' := fresh in let f' := fresh in let H := fresh in
    intros v' n' f' H; cbn [app] in H; each_region H; lia |
    let k := fresh in let H := fresh in
    intros k H; apply low_key; first [right; lia | left; rewrite !elem_of_cons; lia]].

Lemma low_ram k : 1025 ≤ k ≤ 1087 → k ∈ low_keys.
Proof. intros H. apply low_key. by right. Qed.

Lemma kvm_range m0 fl0 root rs m T fl v e f :
  (KVM_TABLES < length fl0)%nat → kvm_built kernel_end m0 fl0 root (identity_map rs) m T fl →
  524800 ≤ v < e → e ≤ 557056 → f = RW ∨ f = RX ∨ f = PTE_R →
  (∀ v' n' f', (v', n', f') ∈ rs → v' + n' ≤ v) →
  wp (kvmmap_range root (PGSIZE * v) (PGSIZE * e) f) m (λ _ m', ∃ T' fl', kvm_built kernel_end m0 fl0 root (identity_map (rs ++ [(v, e - v, f)])) m' T' fl').
Proof.
  intros Hfl Hb Hv He Hf Hap. unfold kvmmap_range. wp_step. apply wp_sub_at; [mem_lia|]. rewrite <-Z.mul_sub_distr_l.
  apply (kvm_step _ _ _ rs m T fl v (e - v) f 1025 1087 2 Hfl Hb); try done; try lia.
  - intros v' n' f' Hr. left. by eapply Hap.
  - apply low_ram.
Qed.

Lemma kvmmake_spec m fl :
  kinv kernel_end m fl → (KVM_TABLES < length fl)%nat →
  wp (kvmmake trampoline_start etext erodata) m (λ pt m', ∃ T fl', kvm_built kernel_end m fl pt kernel_leaves m' T fl').
Proof.
  intros Hk Hfl. assert (0 < kernel_end) as Hend. { destruct Hlay as [[? ?] [? ?] [? ?] _]. unfold KERNBASE in *. mem_lia. }
  unfold kvmmake. wp_call (kalloc_zeroed_spec kernel_end Hend); [done|]. intros r m1 (Hh1 & Hr). destruct fl as [|p fl1]; [cbn in Hfl; lia|].
  destruct Hr as (-> & Hm1 & Hk1). wp_step. eapply wp_expect; [done|].
  assert (kvm_built kernel_end m (p :: fl1) p (identity_map []) m1 (mkPtree p ∅ ∅ ∅) fl1) as Hb0.
  { pose proof (ki_nodup _ _ _ Hk) as Hnd. apply NoDup_cons in Hnd as [Hpn _]. pose proof (Forall_inv (ki_free _ _ _ Hk)) as Hp.
    split; [split|done|..]; try done.
    - apply own_new; [done..|]. by rewrite Hm1, lookup_insert_eq.
    - intros q [Hq _]%not_elem_of_cons. by rewrite Hm1, lookup_insert_ne.
    - intros k. cbn. rewrite lookup_empty. by intros [].
    - intros k. cbn. rewrite lookup_empty. by intros []. }
  destruct layout_pages as (a & b & Ea & Eb & Hab & Hb). unfold kernel_leaves. rewrite (regions_pages a b Ea Eb), Ea, Eb.
  wp_step. eapply wp_mono; [apply (kvm_step m (p :: fl1) p [] m1 _ fl1 65536 1 RW 128 128 0 Hfl Hb0); kvm_side|]. intros [] m2 (T2 & fl2 & Hb2).
  wp_step. eapply wp_mono; [apply (kvm_step _ _ _ _ _ _ _ 8192 16 RW 16 16 0 Hfl Hb2); kvm_side|]. intros [] m3 (T3 & fl3 & Hb3).
  wp_step. eapply wp_mono; [apply (kvm_step _ _ _ _ _ _ _ 49152 1024 RW 96 97 0 Hfl Hb3); kvm_side|]. intros [] m4 (T4 & fl4 & Hb4).
  change KERNBASE with (PGSIZE * 524800). change PHYSTOP with (PGSIZE * 557056).
  wp_step. eapply wp_mono; [apply (kvm_range _ _ _ _ _ _ _ 524800 a RX Hfl Hb4); kvm_side|]. intros [] m5 (T5 & fl5 & Hb5).
  wp_step. eapply wp_mono; [apply (kvm_range _ _ _ _ _ _ _ a b PTE_R Hfl Hb5); kvm_side|]. intros [] m6 (T6 & fl6 & Hb6).
  wp_step. eapply wp_mono; [apply (kvm_range _ _ _ _ _ _ _ b 557056 RW Hfl Hb6); kvm_side|]. intros [] m7 (T7 & fl7 & Hb7).
  cbn [app] in Hb7. destruct Hlay as [_ _ _ [Ht Ht']].
  wp_step. eapply wp_mono; [apply (map_region kernel_end Hend _ _ _ _ _ _ _ TRAMPOLINE_VPN 1 trampoline_start RX Hfl Hb7); try done|].
  - unfold KERNBASE in *. mem_lia.
  - change (2 ^ 55) with 36028797018963968. unfold KERNBASE in *. mem_lia.
  - intros w Hw. assert (w = TRAMPOLINE_VPN) as -> by lia. destruct (identity_map _ !! _) as [e|] eqn:He; [|done].
    destruct (identity_lookup _ _ _ He) as (v' & n' & f' & Hr & Hw' & _). each_region Hr; vpn_lia.
  - intros k Hk'. apply low_key. left. change (131071 ≤ k ≤ 131071) in Hk'. assert (k = 131071) as -> by lia. rewrite !elem_of_cons. tauto.
  - intros k Hk'. change (255 ≤ k ≤ 255) in Hk'. assert (k = 255) as -> by lia. apply mid_key.
  - intros r m8 (-> & T8 & fl8 & Hb8). wp_step. eapply wp_expect; [done|]. wp_steps. by exists T8, fl8.
Qed.

(** ** Permissions *)

Lemma kernel_leaf w e : kernel_leaves !! w = Some e →
  w = TRAMPOLINE_VPN ∧ e = leaf_bits trampoline_start RX ∨
  ∃ v n f, (v, n, f) ∈ kernel_regions ∧ v ≤ w < v + n ∧ e = leaf_bits (PGSIZE * w) f.
Proof.
  unfold kernel_leaves. rewrite lookup_map_range. destruct (decide _) as [Hw|_].
  - intros [= <-]. left. assert (w = TRAMPOLINE_VPN) as -> by lia. split; [done|]. f_equal. lia.
  - intros He. right. by apply identity_lookup.
Qed.

Lemma region_page v n f w : (v, n, f) ∈ kernel_regions → v ≤ w < v + n →
  page_addr (PGSIZE * w) ∧ 0 ≤ w < 557056 ∧ (f = RW ∨ f = RX ∨ f = PTE_R) ∧ (f = RW → w < 524800 ∨ etext ≤ PGSIZE * w) ∧
  (f = RX → KERNBASE ≤ PGSIZE * w < etext).
Proof.
  destruct layout_pages as (a & b & Ea & Eb & Hab & Hb). rewrite (regions_pages a b Ea Eb). intros Hr Hw.
  assert (0 ≤ w < 557056 ∧ (f = RW ∨ f = RX ∨ f = PTE_R) ∧ (f = RW → w < 524800 ∨ a ≤ w) ∧ (f = RX → 524800 ≤ w < a)) as (H0 & Hf & Hrw & Hrx).
  { each_region Hr; (split_and!; [lia..|auto| |]); first [intros _; lia|intros Heq; discriminate Heq]. }
  split_and!; [|lia|lia|done| |].
  - split; [change (2 ^ 56) with 72057594037927936; mem_lia|]. rewrite Z.mul_comm. by apply Z.mod_mul.
  - intros Hf'. destruct (Hrw Hf') as [?|?]; [by left|right; rewrite Ea; mem_lia].
  - intros Hf'. rewrite Ea. change KERNBASE with (PGSIZE * 524800). specialize (Hrx Hf'). mem_lia.
Qed.

Lemma tramp_page : page_addr trampoline_start.
Proof.
  destruct Hlay as [[? ?] [? ?] [? ?] [? ?]]. split; [|done]. change (2 ^ 56) with 72057594037927936. unfold KERNBASE, PHYSTOP in *. mem_lia.
Qed.

(** The frame behind an entry of the kernel and what may be done with it. *)
Lemma kernel_entry w e : kernel_leaves !! w = Some e →
  is_user e = false ∧ (w = TRAMPOLINE_VPN ∧ pte_pa e = trampoline_start ∨ pte_pa e = PGSIZE * w) ∧
  (Z.land e PTE_W ≠ 0 → pte_pa e < KERNBASE ∨ etext ≤ pte_pa e) ∧ (Z.land e PTE_X ≠ 0 → KERNBASE ≤ pte_pa e < etext).
Proof.
  intros [[-> ->]|(v & n & f & Hr & Hw & ->)]%kernel_leaf.
  - destruct (leaf_entry trampoline_start RX tramp_page ltac:(done)) as (_ & Hpa & _). unfold is_user.
    rewrite !land_leaf_bits by (done || apply tramp_page). rewrite Hpa. split_and!; [done|by left|by intros []|].
    intros _. apply Hlay.
  - destruct (region_page v n f w Hr Hw) as (Hp & H0 & Hf & Hrw & Hrx). assert (0 ≤ f < 1024) as Hf' by (by destruct Hf as [-> | [-> | ->]]).
    destruct (leaf_entry (PGSIZE * w) f Hp Hf') as (_ & Hpa & _). unfold is_user. rewrite !land_leaf_bits by done. rewrite Hpa.
    split_and!; [by destruct Hf as [-> | [-> | ->]]|by right| |].
    + intros HW. change KERNBASE with (PGSIZE * 524800). destruct Hf as [-> | [-> | ->]]; [|by destruct HW|by destruct HW].
      destruct (Hrw eq_refl) as [?|?]; [left; mem_lia|by right].
    + intros HX. destruct Hf as [-> | [-> | ->]]; [by destruct HX|by apply Hrx|by destruct HX].
Qed.

(** C19: the kernel page table.  With 73 free pages [kvmmake] succeeds: the devices,
    the text, the constants and the rest of memory are mapped to themselves with
    exactly their permissions, the trampoline page is at TRAMPOLINE too, nothing
    else is mapped and nothing is accessible to user code.  No frame is mapped
    both writable and executable, under whatever addresses.  The tables come from
    the free list and no other memory is touched. *)
Theorem kernel_page_table m fl :
  kinv kernel_end m fl → (KVM_TABLES < length fl)%nat →
  wp (kvmmake trampoline_start etext erodata) m (λ pt m', ∃ T fl',
    pt_own kernel_end m' T fl' ∧ pt_root T = pt ∧ tables T ++ fl' ≡ₚ fl ∧ (∀ q, q ∉ fl → mem m' !! q = mem m !! q) ∧
    (∀ v n f w, (v, n, f) ∈ kernel_regions → v ≤ w < v + n → L T !! w = Some (leaf_bits (PGSIZE * w) f)) ∧
    L T !! TRAMPOLINE_VPN = Some (leaf_bits trampoline_start RX) ∧
    (∀ w e, L T !! w = Some e → is_user e = false ∧
       (w = TRAMPOLINE_VPN ∧ e = leaf_bits trampoline_start RX ∨
        ∃ v n f, (v, n, f) ∈ kernel_regions ∧ v ≤ w < v + n ∧ e = leaf_bits (PGSIZE * w) f)) ∧
    (∀ w w' e e', L T !! w = Some e → L T !! w' = Some e' → pte_pa e = pte_pa e' → Z.land e PTE_W = 0 ∨ Z.land e' PTE_X = 0)).
Proof.
  intros Hk Hfl. eapply wp_mono; [by apply kvmmake_spec|]. intros pt m' (T & fl' & [[B1 B2 B3 B4 B5] Hroot _ _]). exists T, fl'. rewrite B2.
  split_and!; [done|done|done|done| | | |].
  - intros v n f w Hr Hw. unfold kernel_leaves. rewrite lookup_map_range, decide_False.
    + apply (identity_region _ _ v n); [done|done|]. intros v' n' f' Hr' Hw'. by eapply (kernel_regions_apart w v n f v' n' f').
    + destruct (region_page v n f w Hr Hw) as (_ & H0 & _). vpn_lia.
  - unfold kernel_leaves. rewrite lookup_map_range, decide_True by lia. do 2 f_equal. lia.
  - intros w e He. split; [apply (kernel_entry w e He)|by apply kernel_leaf].
  - intros w w' e e' He He' Hpa. destruct (decide (Z.land e PTE_W = 0)); [by left|]. destruct (decide (Z.land e' PTE_X = 0)); [by right|].
    destruct (kernel_entry w e He) as (_ & _ & HW & _), (kernel_entry w' e' He') as (_ & _ & _ & HX). exfalso.
    specialize (HW ltac:(done)). specialize (HX ltac:(done)). lia.
Qed.
End layout.

(** ** Witness: 100 pages above a kernel of 24 *)

Lemma demo_layout : layout (ram_end 100) KERNBASE (KERNBASE + 16 * PGSIZE) (KERNBASE + 24 * PGSIZE).
Proof. split; by split. Qed.


Lemma kernel_page_table_witness :
  wp (kinit (ram_end 100);; kvmmake KERNBASE (KERNBASE + 16 * PGSIZE) (KERNBASE + 24 * PGSIZE)) (zero_machine 100) (λ pt m', ∃ T fl',
    pt_own (ram_end 100) m' T fl' ∧ pt_root T = pt ∧ L T !! (KERNBASE / PGSIZE) = Some (leaf_bits KERNBASE RX) ∧
    ∀ w w' e e', L T !! w = Some e → L T !! w' = Some e' → pte_pa e = pte_pa e' → Z.land e PTE_W = 0 ∨ Z.land e' PTE_X = 0).
Proof.
  apply wp_bind. eapply wp_mono; [apply (kinit_frees_all (ram_end 100)); [done|done|done|apply zero_kinv; lia]|].
  intros [] m (_ & fl & Hk & Hall). eapply wp_mono.
  - apply (kernel_page_table _ _ _ _ demo_layout m fl Hk). apply (free_pages_length (ram_end 100)); [done|done|by apply Z.leb_le|by apply (ki_nodup _ _ _ Hk)|done].
  - intros pt m' (T & fl' & Hown & Hroot & _ & _ & Hreg & _ & _ & Hwx). exists T, fl'. split_and!; [done|done| |done].
    apply (Hreg (KERNBASE / PGSIZE) 16 RX (KERNBASE / PGSIZE)); [|by split].
    repeat (apply list_elem_of_here || apply list_elem_of_further).
Defined.
