(* ===== verification/Argv.v ===== *)
(** * The argument stack of exec (src/src/proc.rs: push_argv)

    The strings and the pointer array that [exec] leaves on the stack page of
    the new program. *)

From S2P Require Import Prelude Spinlock Kalloc Vm PageTable UserMem.

Definition MAXARG : usize := 16.
Definition MAXARGLEN : usize := 128.

Record KernelArgs := mkArgs { argc : usize; args : list (list u8); lens : list usize }.

Definition align_down (x align : usize) : usize := Z.ldiff x (align - 1).

(** One iteration of [for i in (0..kargs.argc).rev()]. *)
Definition push_string (pt stack_bottom : usize) (kargs : KernelArgs) (i : Z) (st : usize * list usize) :
  M machine (usize * list usize + unit) :=
  let '(sp, arg_ptrs) := st in
  l ← aget (lens kargs) i;
  len ← add_at USIZE_MAX l 1;
  match checked USIZE_MAX (sp - len) with
  | None => mret (inr tt)
  | Some sp =>
      if sp <? stack_bottom then mret (inr tt)
      else
        a ← aget (args kargs) i;
        bs ← subslice a 0 len;
        r ← copyout pt sp bs;
        match r with
        | None => mret (inr tt)
        | Some _ =>
            arg_ptrs ← copy_into arg_ptrs i [sp];
            mret (inl (sp, arg_ptrs))
        end
  end.

(** One iteration of [for i in 0..=kargs.argc]. *)
Definition push_pointer (pt argv_va : usize) (arg_ptrs : list usize) (i : Z) (_ : unit) : M machine (unit + unit) :=
  p ← aget arg_ptrs i;
  o ← mul_at USIZE_MAX i 8;
  a ← add_at USIZE_MAX argv_va o;
  r ← copyout pt a (le_bytes 8 p);
  match r with
  | None => mret (inr tt)
  | Some _ => mret (inl tt)
  end.

Definition push_argv (pt stack_top : usize) (kargs : KernelArgs) : M machine (option (usize * usize)) :=
  stack_bottom ← sub_at USIZE_MAX stack_top PGSIZE;
  r ← for_each (reverse (range 0 (argc kargs))) (push_string pt stack_bottom kargs)
        (stack_top, replicate (Z.to_nat (MAXARG + 1)) 0);
  match r with
  | inr _ => mret None
  | inl (sp, arg_ptrs) =>
      n ← add_at USIZE_MAX (argc kargs) 1;
      argv_bytes ← mul_at USIZE_MAX n 8;
      match checked USIZE_MAX (sp - argv_bytes) with
      | None => mret None
      | Some sp =>
          let sp := align_down sp 16 in
          if sp <? stack_bottom then mret None
          else
            let argv_va := sp in
            r ← for_each (range 0 n) (push_pointer pt argv_va arg_ptrs) tt;
            match r with
            | inr _ => mret None
            | inl _ => mret (Some (sp, argv_va))
            end
      end
  end.

(** ** What ends up on the stack *)

(** The argument strings, each with its NUL. *)
Definition strings (k : KernelArgs) : list (list u8) :=
  (λ '(l, a), take (Z.to_nat (l + 1)) a) <$> take (Z.to_nat (argc k)) (zip (lens k) (args k)).

(** Arguments as [sys_exec] collects them. *)
Record kargs_ok (k : KernelArgs) : Prop := {
  ka_argc : 0 ≤ argc k ≤ MAXARG;
  ka_args : Z.of_nat (length (args k)) = MAXARG;
  ka_lens : Z.of_nat (length (lens k)) = MAXARG;
  ka_arg a : a ∈ args k → Z.of_nat (length a) = MAXARGLEN;
  ka_len l : l ∈ lens k → 0 ≤ l < MAXARGLEN;
  ka_bytes : Forall bytes_ok (strings k);
}.

Lemma length_strings k : kargs_ok k → length (strings k) = Z.to_nat (argc k).
Proof.
  intros [? ? ? ? ? _]. unfold strings. rewrite length_fmap, length_take, length_zip_with. unfold MAXARG in *. lia.
Qed.

Lemma strings_lookup k i :
  kargs_ok k → 0 ≤ i < argc k →
  ∃ l a, lens k !! Z.to_nat i = Some l ∧ args k !! Z.to_nat i = Some a ∧ 0 ≤ l ∧ l + 1 ≤ Z.of_nat (length a) ∧
    Z.of_nat (length a) = MAXARGLEN ∧ bytes_ok (take (Z.to_nat (l + 1)) a) ∧
    strings k !! Z.to_nat i = Some (take (Z.to_nat (l + 1)) a).
Proof.
  intros [? Ha Hl Harg Hlen Hbytes] Hi.
  destruct (lookup_lt_is_Some_2 (lens k) (Z.to_nat i)) as [l Hll]; [lia|].
  destruct (lookup_lt_is_Some_2 (args k) (Z.to_nat i)) as [a Haa]; [lia|].
  pose proof (Harg a ltac:(by eapply list_elem_of_lookup_2)) as Hal.
  destruct (Hlen l) as [? ?]; [by eapply list_elem_of_lookup_2|].
  assert (strings k !! Z.to_nat i = Some (take (Z.to_nat (l + 1)) a)) as Hstr.
  { unfold strings. rewrite list_lookup_fmap, lookup_take_lt by lia. by rewrite lookup_zip_with, Hll, Haa. }
  exists l, a. split_and!; try done; [lia|]. rewrite Forall_lookup in Hbytes. by eapply Hbytes.
Qed.

(** The address of string [i]: the strings are packed below the top, in order. *)
Definition string_at (top : Z) (ss : list (list u8)) (i : nat) : Z :=
  top - Z.of_nat (length (concat (drop i ss))).

Definition pointers (top : Z) (ss : list (list u8)) : list Z := string_at top ss <$> seq 0 (length ss).

(** Bytes of a list of words. *)
Definition words (ps : list Z) : list u8 := concat (le_bytes 8 <$> ps).

Definition final_sp (top : Z) (ss : list (list u8)) : Z :=
  align_down (top - Z.of_nat (length (concat ss)) - 8 * (Z.of_nat (length ss) + 1)) 16.

(** User code finds the strings [ss] through the null-terminated pointer array
    at [va]. *)
Definition user_argv (m : gmap Z (list u8)) (T : ptree) (va : Z) (ss : list (list u8)) : Prop :=
  ∃ ptrs, length ptrs = length ss ∧ user_bytes m T PTE_R va (words (ptrs ++ [0])) ∧
    ∀ i p str, ptrs !! i = Some p → ss !! i = Some str → 0 < p < 2 ^ 64 ∧ user_bytes m T PTE_R p str.

Section argv.
Context (kernel_end : usize) (Hend_pos : 0 < kernel_end) (Hend_max : kernel_end ≤ PHYSTOP).

Local Abbreviation space_ok := (space_ok kernel_end).
Local Abbreviation copied := (copied kernel_end).

(** ** Writing to a range of user memory *)

(** Only bytes of [lo, hi) changed. *)
Record wrote (s : machine) (T : ptree) (fl : list Z) (lo hi : Z) (s' : machine) : Prop := {
  wr_space : space_ok s' T fl;
  wr_held : held s' = held s;
  wr_out perm a : 0 ≤ a → ¬ lo ≤ a < hi → ubyte (mem s') T perm a = ubyte (mem s) T perm a;
  wr_frame p : (∀ v e, L T !! v = Some e → is_user e = true → pte_pa e ≠ p) → mem s' !! p = mem s !! p;
}.

Lemma wrote_refl s T fl hi : space_ok s T fl → wrote s T fl hi hi s.
Proof. intros. by split. Qed.

Lemma wrote_copied s T fl lo hi s1 va src k s2 lo' :
  wrote s T fl lo hi s1 → copied s1 T fl va src k s2 → lo' ≤ lo → lo' ≤ va → va + k ≤ hi →
  wrote s T fl lo' hi s2.
Proof.
  intros [W1 W2 W3 W4] [C1 C2 C3 C4] Hlo Hva Hhi. split; [done|congruence| |].
  - intros perm a Ha Hout. rewrite C3, W3 by (done || lia).
    destruct (ubyte (mem s) T perm a); [|done]. cbn. by rewrite decide_False by lia.
  - intros p Hp. by rewrite C4, W4.
Qed.

Lemma leaf_ubyte s T fl perm a :
  space_ok s T fl → 0 ≤ a → is_Some (user_leaf T perm a) → is_Some (ubyte (mem s) T perm a).
Proof.
  intros Hsp Ha [e He]. destruct (space_page _ _ _ _ _ _ _ Hsp He) as (? & _ & _ & d & Hd & [Hl _]).
  unfold ubyte. rewrite He. cbn. rewrite Hd. cbn. apply lookup_lt_is_Some. rewrite Hl.
  pose proof (Z.mod_pos_bound a PGSIZE ltac:(mem_lia)). lia.
Qed.

Lemma user_bytes_app m T perm va bs bs' :
  user_bytes m T perm va bs → user_bytes m T perm (va + Z.of_nat (length bs)) bs' →
  user_bytes m T perm va (bs ++ bs').
Proof.
  intros H1 H2 i Hi. rewrite length_app in Hi. destruct (decide (i < length bs)%nat).
  - rewrite lookup_app_l by done. by apply H1.
  - rewrite lookup_app_r by lia. rewrite <-H2 by lia. f_equal. lia.
Qed.

Lemma user_bytes_part m T perm va bs off n :
  user_bytes m T perm va bs → (off + n ≤ length bs)%nat →
  user_bytes m T perm (va + Z.of_nat off) (take n (drop off bs)).
Proof.
  intros Hb Hn i Hi. rewrite length_take, length_drop in Hi. rewrite lookup_take_lt by lia.
  rewrite lookup_drop, <-Hb by lia. f_equal. lia.
Qed.

Lemma user_bytes_copied s T fl va src k s' perm a bs :
  copied s T fl va src k s' → user_bytes (mem s) T perm a bs → 0 ≤ a →
  a + Z.of_nat (length bs) ≤ va ∨ va + k ≤ a → user_bytes (mem s') T perm a bs.
Proof.
  intros [_ _ C3 _] Hb Ha Hout i Hi. rewrite C3, Hb by lia.
  destruct (lookup_lt_is_Some_2 bs i Hi) as [x ->]. cbn. by rewrite decide_False by lia.
Qed.

(** A copy to memory that user code may read and write. *)
Lemma copyout_writable s T fl src va :
  space_ok s T fl → 0 ≤ va ≤ USIZE_MAX → Z.of_nat (length src) ≤ USIZE_MAX → bytes_ok src →
  (∀ i, 0 ≤ i < Z.of_nat (length src) →
     is_Some (user_leaf T PTE_W (va + i)) ∧ is_Some (user_leaf T PTE_R (va + i))) →
  wp (copyout (pt_root T) va src) s (λ r s', r = Some tt ∧
    copied s T fl va src (Z.of_nat (length src)) s' ∧ user_bytes (mem s') T PTE_R va src).
Proof.
  intros Hsp Hva Hlen Hsrc Hmap. wp_call copyout_spec; [done..|]. intros [[]|] s' (k & Hc & Hr); cycle 1.
  { destruct Hr as [Hk Hnone]. destruct (Hmap k Hk) as [[e He] _]. congruence. }
  destruct Hr as [-> _]. split_and!; [done|done|]. intros i Hi.
  destruct (Hmap (Z.of_nat i) ltac:(lia)) as [_ Hr].
  destruct (leaf_ubyte s T fl PTE_R (va + Z.of_nat i) Hsp ltac:(lia) Hr) as [x Hx].
  rewrite (cp_bytes _ _ _ _ _ _ _ _ Hc), Hx by lia. cbn. rewrite decide_True by lia.
  replace (Z.to_nat (va + Z.of_nat i - va)) with i by lia. symmetry. by apply list_lookup_lookup_total_lt.
Qed.

Lemma wrote_mono s T fl lo hi s' lo' : wrote s T fl lo hi s' → lo' ≤ lo → wrote s T fl lo' hi s'.
Proof. intros [W1 W2 W3 W4] ?. split; [done|done| |done]. intros perm a ? ?. apply W3; lia. Qed.

Lemma align_down_16 x : align_down x 16 = x - x mod 16.
Proof.
  unfold align_down. change (16 - 1) with (Z.ones 4).
  rewrite Z.ldiff_ones_r, Z.shiftr_div_pow2, Z.shiftl_mul_pow2 by lia. change (2 ^ 4) with 16.
  pose proof (Z.div_mod x 16 ltac:(lia)). lia.
Qed.

Lemma string_at_S top ss i str :
  ss !! i = Some str → string_at top ss i = string_at top ss (S i) - Z.of_nat (length str).
Proof. intros Hi. unfold string_at. rewrite (drop_S _ _ _ Hi). cbn [concat]. rewrite length_app. lia. Qed.

Lemma string_at_0 top ss i : string_at top ss 0 ≤ string_at top ss i.
Proof.
  unfold string_at. rewrite drop_0, <-(take_drop i ss) at 1. rewrite concat_app, length_app. lia.
Qed.

Lemma final_sp_below top ss : final_sp top ss ≤ string_at top ss 0 - 8 * (Z.of_nat (length ss) + 1).
Proof.
  unfold final_sp, string_at. rewrite align_down_16, drop_0.
  pose proof (Z.mod_pos_bound (top - Z.of_nat (length (concat ss)) - 8 * (Z.of_nat (length ss) + 1)) 16). lia.
Qed.

(** ** The loops *)

Section push.
Context (s : machine) (T : ptree) (fl : list Z) (top : Z) (kargs : KernelArgs).
Context (Hsp : space_ok s T fl) (Hka : kargs_ok kargs) (Htop : PGSIZE ≤ top ≤ MAXVA).
Context (Hstack : ∀ a, top - PGSIZE ≤ a < top →
  is_Some (user_leaf T PTE_W a) ∧ is_Some (user_leaf T PTE_R a)).

Local Abbreviation ss := (strings kargs).
Local Abbreviation n := (length (strings kargs)).

(** Strings [k] and up are in place. *)
Record pushed (k : nat) (sp : Z) (ptrs : list Z) (s' : machine) : Prop := {
  pu_sp : sp = string_at top ss k;
  pu_low : top - PGSIZE ≤ sp;
  pu_len : length ptrs = Z.to_nat (MAXARG + 1);
  pu_ptr i : (k ≤ i < n)%nat → ptrs !! i = Some (string_at top ss i);
  pu_null : ptrs !! n = Some 0;
  pu_wrote : wrote s T fl sp top s';
  pu_bytes : user_bytes (mem s') T PTE_R sp (concat (drop k ss));
}.

Lemma push_string_spec i sp ptrs s' :
  0 ≤ i < argc kargs → pushed (S (Z.to_nat i)) sp ptrs s' →
  wp (push_string (pt_root T) (top - PGSIZE) kargs i (sp, ptrs)) s' (λ r s'',
    match r with
    | inl (sp', ptrs') => pushed (Z.to_nat i) sp' ptrs' s''
    | inr _ => final_sp top ss < top - PGSIZE ∧ s'' = s'
    end).
Proof.
  intros Hi [P1 P2 P3 P4 P5 P6 P7].
  destruct (strings_lookup kargs i Hka Hi) as (l & a & Hl & Ha & Hl0 & Hla & Halen & Hab & Hstr).
  pose proof (string_at_S top ss _ _ Hstr) as Hat. pose proof (string_at_0 top ss (Z.to_nat i)) as H0.
  pose proof (final_sp_below top ss) as Hfin.
  assert (length (take (Z.to_nat (l + 1)) a) = Z.to_nat (l + 1)) as Hlen by (rewrite length_take; lia).
  rewrite Hlen in Hat. unfold push_string. change MAXARGLEN with 128 in Halen.
  pose proof (length_strings kargs Hka) as Hn. pose proof (ka_argc _ Hka) as Hargc.
  change MAXARG with 16 in Hargc, P3. cbn in P3. assert (sp ≤ top) by (rewrite P1; unfold string_at; lia).
  wp_step. eapply wp_aget; [lia|done|]. wp_step. apply wp_add_at; [mem_lia|].
  unfold checked. destruct (Z.leb_spec 0 (sp - (l + 1))); cbn [andb]; [|wp_steps; split; [mem_lia|done]].
  destruct (Z.leb_spec (sp - (l + 1)) USIZE_MAX); [|mem_lia].
  destruct (Z.ltb_spec (sp - (l + 1)) (top - PGSIZE)); [wp_steps; split; [mem_lia|done]|].
  wp_step. eapply wp_aget; [lia|done|]. wp_step. apply wp_subslice; [lia|lia|lia|].
  unfold slice. change (drop (Z.to_nat 0) a) with a.
  wp_call copyout_writable; [apply P6|lia|rewrite Hlen; mem_lia|done| |].
  { intros j Hj. rewrite Hlen in Hj. apply Hstack. lia. }
  intros r s'' (-> & Hc & Hb). wp_step. apply wp_copy_into; [lia|cbn [length]; lia|]. wp_steps. rewrite Hlen in Hc.
  split.
  - lia.
  - lia.
  - rewrite length_splice; [done|cbn [length]; lia].
  - intros j Hj. destruct (decide (j = Z.to_nat i)) as [->|].
    + rewrite lookup_splice_in by (cbn [length]; lia). rewrite Nat.sub_diag. cbn. f_equal. lia.
    + rewrite lookup_splice_out by (cbn [length]; lia). apply P4. lia.
  - rewrite lookup_splice_out; [done|cbn [length]; lia|cbn [length]; lia].
  - eapply wrote_copied; [exact P6|exact Hc|lia|lia|lia].
  - rewrite (drop_S _ _ _ Hstr). cbn [concat]. apply user_bytes_app; [done|]. rewrite Hlen.
    replace (sp - (l + 1) + Z.of_nat (Z.to_nat (l + 1))) with sp by lia.
    eapply user_bytes_copied; [exact Hc|exact P7|lia|lia].
Qed.

Lemma reverse_range m pre x post :
  0 ≤ m → reverse (range 0 m) = pre ++ x :: post →
  x = m - 1 - Z.of_nat (length pre) ∧ Z.of_nat (length pre) < m.
Proof.
  intros Hm Heq. assert (reverse (range 0 m) !! length pre = Some x) as Hl
    by (rewrite Heq; by apply list_lookup_middle).
  assert (length (range 0 m) = Z.to_nat m) as Hlen by (unfold range; rewrite length_seqZ; f_equal; lia).
  pose proof (lookup_lt_Some _ _ _ Hl) as Hlt. rewrite length_reverse, Hlen in Hlt.
  rewrite reverse_lookup in Hl by lia. apply lookup_seqZ in Hl as [-> _]. lia.
Qed.

Lemma push_strings_spec :
  wp (for_each (reverse (range 0 (argc kargs))) (push_string (pt_root T) (top - PGSIZE) kargs)
        (top, replicate (Z.to_nat (MAXARG + 1)) 0)) s (λ r s',
    match r with
    | inl (sp, ptrs) => pushed 0 sp ptrs s'
    | inr _ => final_sp top ss < top - PGSIZE ∧ wrote s T fl (top - PGSIZE) top s'
    end).
Proof.
  pose proof (length_strings kargs Hka) as Hn. pose proof (ka_argc _ Hka) as Hargc.
  apply (wp_for_each (λ pre '(sp, ptrs) s', pushed (n - length pre) sp ptrs s')).
  - cbn [length]. rewrite Nat.sub_0_r.
    assert (string_at top ss n = top) as Htop' by (unfold string_at; rewrite drop_all; cbn; lia).
    split; [done|mem_lia|by rewrite length_replicate|lia| |by apply wrote_refl|].
    + apply lookup_replicate_2. rewrite Hn. unfold MAXARG in *. lia.
    + rewrite drop_all. intros i Hi. cbn in Hi. lia.
  - intros pre x post [sp ptrs] s' Hxs HI. apply reverse_range in Hxs as [-> Hlt]; [|lia].
    replace (n - length pre)%nat with (S (Z.to_nat (argc kargs - 1 - Z.of_nat (length pre)))) in HI by lia.
    wp_call push_string_spec; [lia|exact HI|]. intros [[sp' ptrs']|[]] s''.
    + rewrite length_app. cbn [length].
      by replace (n - (length pre + 1))%nat with (Z.to_nat (argc kargs - 1 - Z.of_nat (length pre))) by lia.
    + intros [Hf ->]. split; [done|]. eapply wrote_mono; [apply HI|]. apply (pu_low _ _ _ _ HI).
  - intros [sp ptrs] s'. rewrite length_reverse. unfold range. rewrite length_seqZ.
    by replace (n - _)%nat with 0%nat by lia.
Qed.

Lemma length_words ps : length (words ps) = (8 * length ps)%nat.
Proof.
  unfold words. induction ps as [|p ps IH]; [done|]. rewrite fmap_cons. cbn [concat].
  rewrite length_app, length_le_bytes, IH. cbn [length]. lia.
Qed.

Lemma words_snoc ps p : words (ps ++ [p]) = words ps ++ le_bytes 8 p.
Proof. unfold words. rewrite fmap_app, concat_app. cbn [fmap list_fmap concat]. by rewrite app_nil_r. Qed.

Lemma push_pointers_spec sp ptrs s1 va :
  pushed 0 sp ptrs s1 → top - PGSIZE ≤ va → va + 8 * (Z.of_nat n + 1) ≤ sp →
  wp (for_each (range 0 (Z.of_nat n + 1)) (push_pointer (pt_root T) va ptrs) tt) s1 (λ r s',
    r = inl tt ∧ wrote s T fl va top s' ∧
    user_bytes (mem s') T PTE_R sp (concat ss) ∧
    user_bytes (mem s') T PTE_R va (words (pointers top ss ++ [0]))).
Proof.
  intros [P1 P2 P3 P4 P5 P6 P7] Hlow Hfit.
  assert (sp ≤ top) by (rewrite P1; unfold string_at; lia).
  assert (∀ i, (i ≤ n)%nat → ∃ p, ptrs !! i = Some p ∧ (pointers top ss ++ [0]) !! i = Some p) as Hptr.
  { assert (length (pointers top ss) = n) as Hlp by (unfold pointers; by rewrite length_fmap, length_seq).
    intros i Hi. destruct (decide (i = n)) as [->|].
    - exists 0. split; [done|]. by rewrite <-Hlp, lookup_app_r, Nat.sub_diag by lia.
    - exists (string_at top ss i). split; [apply P4; lia|]. rewrite lookup_app_l by lia.
      unfold pointers. rewrite list_lookup_fmap, lookup_seq_lt by lia. done. }
  apply (wp_for_each (λ pre _ s', wrote s T fl va top s' ∧ user_bytes (mem s') T PTE_R sp (concat ss) ∧
    user_bytes (mem s') T PTE_R va (words (take (length pre) (pointers top ss ++ [0]))))).
  - split_and!; [eapply wrote_mono; [exact P6|lia]|done|]. intros i Hi. rewrite length_words, length_take in Hi. cbn [length] in Hi. lia.
  - intros pre x post [] s' Hxs (Hw & Hstr & Hws). apply range_lookup in Hxs as [-> Hr]. rewrite Z.add_0_l in Hr |- *.
    destruct (Hptr (length pre) ltac:(lia)) as (p & Hp & Hpp). unfold push_pointer.
    wp_step. eapply wp_aget; [lia|by rewrite Nat2Z.id|]. wp_step. apply wp_mul_at; [mem_lia|].
    wp_step. apply wp_add_at; [mem_lia|].
    wp_call copyout_writable; [apply Hw|mem_lia|by rewrite length_le_bytes|apply le_bytes_ok| |].
    { intros j Hj. rewrite length_le_bytes in Hj. apply Hstack. lia. }
    intros r s'' (-> & Hc & Hb). rewrite length_le_bytes in Hc. wp_steps. split_and!.
    + eapply wrote_copied; [exact Hw|exact Hc|lia|lia|lia].
    + eapply user_bytes_copied; [exact Hc|exact Hstr|lia|lia].
    + rewrite length_app. cbn [length]. rewrite Nat.add_1_r, (take_S_r _ _ _ Hpp), words_snoc.
      assert (length (words (take (length pre) (pointers top ss ++ [0]))) = (8 * length pre)%nat) as Hlw.
      { rewrite length_words, length_take. pose proof (lookup_lt_Some _ _ _ Hpp). lia. }
      apply user_bytes_app; [eapply user_bytes_copied; [exact Hc|exact Hws|lia|lia]|].
      rewrite Hlw. by replace (va + Z.of_nat (8 * length pre)) with (va + Z.of_nat (length pre) * 8) by lia.
  - intros [] s' (Hw & Hstr & Hws). split_and!; [done|done|done|].
    unfold range in Hws. rewrite length_seqZ, take_ge in Hws; [done|].
    unfold pointers. rewrite length_app, length_fmap, length_seq. cbn [length]. lia.
Qed.
End push.

Lemma concat_part ss i (str : list u8) :
  ss !! i = Some str →
  length (concat ss) = (length (concat (take i ss)) + length str + length (concat (drop (S i) ss)))%nat ∧
  take (length str) (drop (length (concat (take i ss))) (concat ss)) = str.
Proof.
  intros Hi. assert (concat ss = concat (take i ss) ++ str ++ concat (drop (S i) ss)) as Heq.
  { rewrite <-(take_drop i ss) at 1. by rewrite concat_app, (drop_S _ _ _ Hi). }
  split; [rewrite Heq, !length_app; lia|]. by rewrite Heq, drop_app_length, take_app_length.
Qed.

(** Each string, found in the packed block. *)
Lemma string_bytes m T top ss i str :
  user_bytes m T PTE_R (string_at top ss 0) (concat ss) → ss !! i = Some str →
  string_at top ss 0 ≤ string_at top ss i ∧ string_at top ss i + Z.of_nat (length str) ≤ top ∧
  user_bytes m T PTE_R (string_at top ss i) str.
Proof.
  intros Hb Hi. destruct (concat_part ss i str Hi) as [Hlen Hpart].
  assert (string_at top ss i = string_at top ss 0 + Z.of_nat (length (concat (take i ss)))) as ->.
  { unfold string_at. rewrite (drop_S _ _ _ Hi), drop_0. cbn [concat]. rewrite length_app. lia. }
  split_and!; [lia|unfold string_at; rewrite drop_0; lia|].
  rewrite <-Hpart. eapply user_bytes_part; [done|lia].
Qed.

Lemma push_argv_spec s T fl top kargs :
  space_ok s T fl → kargs_ok kargs → PGSIZE ≤ top ≤ MAXVA →
  (∀ a, top - PGSIZE ≤ a < top → is_Some (user_leaf T PTE_W a) ∧ is_Some (user_leaf T PTE_R a)) →
  wp (push_argv (pt_root T) top kargs) s (λ r s',
    match r with
    | None => final_sp top (strings kargs) < top - PGSIZE ∧ wrote s T fl (top - PGSIZE) top s'
    | Some (sp, va) =>
        va = sp ∧ sp mod 16 = 0 ∧ top - PGSIZE ≤ final_sp top (strings kargs) ∧ sp = final_sp top (strings kargs) ∧
        wrote s T fl sp top s' ∧ user_argv (mem s') T va (strings kargs)
    end).
Proof.
  intros Hsp Hka Htop Hstack. pose proof (length_strings kargs Hka) as Hn. pose proof (ka_argc _ Hka) as Hargc.
  set (ss := strings kargs) in *. change MAXARG with 16 in Hargc. unfold push_argv.
  wp_step. apply wp_sub_at; [mem_lia|].
  wp_call (push_strings_spec s T fl top kargs Hsp Hka Htop Hstack). intros [[sp ptrs]|[]] s1; [|by wp_steps].
  intros Hp. pose proof Hp as [P1 P2 _ _ _ P6 _]. fold ss in P1.
  wp_step. apply wp_add_at; [mem_lia|]. wp_step. apply wp_mul_at; [mem_lia|].
  assert (align_down (sp - (argc kargs + 1) * 8) 16 = final_sp top ss) as Hal.
  { unfold final_sp. f_equal. rewrite P1. unfold string_at. rewrite drop_0. lia. }
  pose proof (final_sp_below top ss) as Hbel.
  unfold checked. destruct (Z.leb_spec 0 (sp - (argc kargs + 1) * 8)); cbn [andb]; cycle 1.
  { wp_steps. split; [rewrite Hn in Hbel; lia|by eapply wrote_mono]. }
  assert (sp ≤ top) by (rewrite P1; unfold string_at; lia).
  destruct (Z.leb_spec (sp - (argc kargs + 1) * 8) USIZE_MAX); [|mem_lia]. cbv zeta. rewrite Hal.
  destruct (Z.ltb_spec (final_sp top ss) (top - PGSIZE)); [wp_steps; split; [done|by eapply wrote_mono]|].
  replace (argc kargs + 1) with (Z.of_nat (length ss) + 1) by lia.
  wp_call (push_pointers_spec s T fl top kargs Htop Hstack sp ptrs s1); [done|done|fold ss; lia|].
  intros r s2 (-> & Hw & Hstr & Hptr). wp_steps. fold ss in Hstr, Hptr. split_and!; try done.
  - unfold final_sp. rewrite align_down_16. rewrite Zminus_mod_idemp_r, Z.sub_diag. done.
  - exists (pointers top ss). split_and!; [by unfold pointers; rewrite length_fmap, length_seq|done|]. fold ss.
    intros i p str Hip His. unfold pointers in Hip. rewrite list_lookup_fmap in Hip.
    apply fmap_Some in Hip as (j & Hj & ->). apply lookup_seq in Hj as [-> _]. cbn [Nat.add].
    rewrite P1 in Hstr. destruct (string_bytes _ _ _ _ _ _ Hstr His) as (? & ? & ?). split; [mem_lia|done].
Qed.

(** [exec] hands the new program its arguments: [push_argv] succeeds exactly
    when the strings, the pointer array and its padding fit in the stack page;
    it returns a 16-byte aligned stack pointer inside that page at which user
    code reads [argc] pointers and a null pointer, the i-th pointing at the i-th
    argument string with its NUL; nothing outside the used part of the stack page
    changes. *)
Theorem push_argv_builds s T fl top kargs :
  space_ok s T fl → kargs_ok kargs → PGSIZE ≤ top ≤ MAXVA →
  (∀ a, top - PGSIZE ≤ a < top → is_Some (user_leaf T PTE_W a) ∧ is_Some (user_leaf T PTE_R a)) →
  wp (push_argv (pt_root T) top kargs) s (λ r s',
    match r with
    | None => final_sp top (strings kargs) < top - PGSIZE ∧ wrote s T fl (top - PGSIZE) top s'
    | Some (sp, va) =>
        va = sp ∧ sp mod 16 = 0 ∧ top - PGSIZE ≤ final_sp top (strings kargs) ∧ sp = final_sp top (strings kargs) ∧
        wrote s T fl sp top s' ∧ user_argv (mem s') T va (strings kargs)
    end).
Proof. apply push_argv_spec. Qed.
End argv.

(** ** A run *)

Definition pad_arg (s : list u8) : list u8 := s ++ replicate (128 - length s) 0.
Definition demo_args : KernelArgs :=
  mkArgs 2 ([pad_arg (bytes_of_string "ls"); pad_arg (bytes_of_string "-a")] ++ replicate 14 (replicate 128 0))
    ([2; 2] ++ replicate 14 0).

Lemma demo_args_ok : kargs_ok demo_args.
Proof.
  split; [unfold MAXARG; cbn; lia|done|done| | |].
  - apply Forall_forall. vm_compute. repeat constructor.
  - apply Forall_forall. vm_compute. repeat (constructor; [by split|]). constructor.
  - vm_compute. repeat first [done|split|constructor].
Qed.

Lemma demo_stack a : 4096 - PGSIZE ≤ a < 4096 →
  is_Some (user_leaf demo_tree PTE_W a) ∧ is_Some (user_leaf demo_tree PTE_R a).
Proof.
  intros Ha. unfold user_leaf. rewrite (proj2 (Z.leb_gt _ _)) by mem_lia.
  assert (vpn a = 0) as -> by (apply Z.div_small; mem_lia). split; vm_compute; by eexists.
Qed.

Lemma push_argv_builds_witness :
  wp (push_argv (demo_pg 0) 4096 demo_args) demo_vm (λ r s',
    match r with
    | None => final_sp 4096 (strings demo_args) < 4096 - PGSIZE ∧
        wrote (ram_end 4) demo_vm demo_tree [] (4096 - PGSIZE) 4096 s'
    | Some (sp, va) =>
        va = sp ∧ sp mod 16 = 0 ∧ 4096 - PGSIZE ≤ final_sp 4096 (strings demo_args) ∧
        sp = final_sp 4096 (strings demo_args) ∧
        wrote (ram_end 4) demo_vm demo_tree [] sp 4096 s' ∧
        user_argv (mem s') demo_tree va (strings demo_args)
    end).
Proof.
  apply (push_argv_builds (ram_end 4) demo_end_pos demo_vm demo_tree [] 4096 demo_args);
    [apply demo_space|apply demo_args_ok|mem_lia|apply demo_stack].
Defined.

(** [ls -a]: the pointers, then the strings at the top of the page. *)
Example push_argv_run :
  match push_argv (demo_pg 0) 4096 demo_args demo_vm with
  | Ok (r, s) => (r, drop 4064 (mem s !!! demo_pg 3))
  | Fault _ => (None, [])
  end = (Some (4064, 4064), words [4090; 4093; 0] ++ [0; 0] ++ [108; 115; 0; 45; 97; 0]).
Proof. by vm_compute. Qed.
