(* ===== verification/Ring.v ===== *)
(** * Ring buffers

    Pipes and the console index a fixed array by ever-growing counters modulo
    its size.  [ring_seg d a b] is the byte list between the counters [a] and
    [b]; the lemmas say how it changes when a counter or the array does. *)

From S2P Require Import Prelude.

Section ring.
Context (N : Z) (HN : 0 < N).
Implicit Types d : list u8.

Definition ring_get d (k : Z) : u8 := d !!! Z.to_nat (k mod N).

Definition ring_put d (k : Z) (b : u8) : list u8 := <[Z.to_nat (k mod N) := b]> d.

Definition ring_seg d (a b : Z) : list u8 := ring_get d <$> seqZ a (b - a).

Lemma length_ring_seg d a b : length (ring_seg d a b) = Z.to_nat (b - a).
Proof. unfold ring_seg. by rewrite length_fmap, length_seqZ. Qed.

Lemma ring_seg_nil d a : ring_seg d a a = [].
Proof. apply nil_length_inv. rewrite length_ring_seg. lia. Qed.

Lemma ring_index k : (Z.to_nat (k mod N) < Z.to_nat N)%nat.
Proof. pose proof (Z.mod_pos_bound k N HN). lia. Qed.

Lemma ring_get_lookup d k : length d = Z.to_nat N → d !! Z.to_nat (k mod N) = Some (ring_get d k).
Proof. intros Hl. apply list_lookup_lookup_total_lt. rewrite Hl. apply ring_index. Qed.

Lemma ring_get_put d j k b :
  length d = Z.to_nat N → ring_get (ring_put d j b) k = if decide (j mod N = k mod N) then b else ring_get d k.
Proof.
  intros Hl. unfold ring_get, ring_put. pose proof (Z.mod_pos_bound j N HN).
  pose proof (Z.mod_pos_bound k N HN). destruct (decide _) as [->|Hne].
  - apply list_lookup_total_insert_eq. rewrite Hl. apply ring_index.
  - apply list_lookup_total_insert_ne. lia.
Qed.

Lemma length_ring_put d k b : length (ring_put d k b) = length d.
Proof. apply length_insert. Qed.

Lemma ring_put_bytes d k b : bytes_ok d → byte_ok b → bytes_ok (ring_put d k b).
Proof. intros. by apply Forall_insert. Qed.

Lemma ring_distinct j k : k < j < k + N → j mod N ≠ k mod N.
Proof.
  intros Hj E. assert ((j - k) mod N = 0) as E' by (rewrite Zminus_mod, E, Z.sub_diag; by apply Z.mod_0_l; lia).
  rewrite Z.mod_small in E' by lia. lia.
Qed.

Lemma ring_seg_app d a b c : a ≤ b ≤ c → ring_seg d a c = ring_seg d a b ++ ring_seg d b c.
Proof.
  intros. unfold ring_seg. replace (c - a) with ((b - a) + (c - b)) by lia.
  rewrite seqZ_app by lia. rewrite fmap_app. do 3 f_equal. lia.
Qed.

Lemma ring_seg_one d a : ring_seg d a (a + 1) = [ring_get d a].
Proof. unfold ring_seg. by replace (a + 1 - a) with 1 by lia. Qed.

Lemma ring_seg_cons d a b : a < b → ring_seg d a b = ring_get d a :: ring_seg d (a + 1) b.
Proof. intros. by rewrite (ring_seg_app d a (a + 1) b), ring_seg_one by lia. Qed.

Lemma ring_seg_snoc d a b : a ≤ b → ring_seg d a (b + 1) = ring_seg d a b ++ [ring_get d b].
Proof. intros. by rewrite (ring_seg_app d a b (b + 1)), ring_seg_one by lia. Qed.

Lemma ring_seg_drop d a b k : 0 ≤ k ≤ b - a → ring_seg d (a + k) b = drop (Z.to_nat k) (ring_seg d a b).
Proof.
  intros Hk. rewrite (ring_seg_app d a (a + k) b) by lia.
  by rewrite drop_app_ge, length_ring_seg, (proj2 (Nat.sub_0_le _ _)) by (rewrite ?length_ring_seg; lia).
Qed.

Lemma ring_seg_lookup d a b k : 0 ≤ k < b - a → ring_seg d a b !! Z.to_nat k = Some (ring_get d (a + k)).
Proof.
  intros Hk. unfold ring_seg. rewrite list_lookup_fmap, fmap_Some. eexists. split; [|done].
  apply lookup_seqZ. lia.
Qed.

(** Writing at [k] does not change a segment of the last [N] positions before it. *)
Lemma ring_seg_put d a b k x :
  length d = Z.to_nat N → b ≤ k < a + N → ring_seg (ring_put d k x) a b = ring_seg d a b.
Proof.
  intros Hl Hk. unfold ring_seg. apply list_fmap_ext. intros i j Hj%lookup_seqZ.
  rewrite ring_get_put, decide_False by (done || apply ring_distinct; lia). done.
Qed.

Lemma ring_seg_push d a b x :
  length d = Z.to_nat N → a ≤ b < a + N → ring_seg (ring_put d b x) a (b + 1) = ring_seg d a b ++ [x].
Proof.
  intros Hl Hb. rewrite ring_seg_snoc, ring_seg_put by (done || lia).
  by rewrite ring_get_put, decide_True by done.
Qed.
End ring.
