(* ===== verification/Kernel.v ===== *)
(** * The kernel state (statics of src/src/proc.rs, file.rs, pipe.rs, console.rs)

    One record holds the statics of the kernel: the process table and the
    [Cpu], the file table, the pipes, the console, the file system and physical
    memory, with the one list of locks the hart holds.  [in_fs] and [in_ram] run
    an operation of the file system or of the memory components on its part of
    that state.

    Pointers to statics are slot numbers, null is [None].  A sleep channel is
    the address of a static; [chan] has a constructor per kind of address that
    is used as a channel. *)

From S2P Require Import Prelude Spinlock FsBase Icache Kalloc.

Definition NPROC : usize := 16.
Definition NOFILE : usize := 16.
Definition NFILE : usize := 100.
Definition NPIPE : usize := 64.
Definition PIPESIZE : usize := 512.
Definition INPUT_BUF : usize := 128.
Definition CONSOLE_MAJOR : u16 := 1.

(** [0], [read_chan(p)] (the address of the pipe), [write_chan(p)] (the address
    after it), [input_chan()] and the address of a process. *)
Inductive chan :=
| NoChan
| ReadChan (p : nat)
| WriteChan (p : nat)
| InputChan
| ProcChan (slot : nat).

#[global] Instance chan_eq_dec : EqDecision chan.
Proof. solve_decision. Defined.

(** ** Processes *)

Inductive ProcessState := Unused | Used | Runnable | Running | Zombie | Sleeping.

#[global] Instance ProcessState_eq_dec : EqDecision ProcessState.
Proof. solve_decision. Defined.

(** [sregs] are [s0] to [s11]. *)
Record Context := mkContext { c_ra : u64; c_sp : u64; c_sregs : list u64 }.
Definition Context_zero : Context := mkContext 0 0 (replicate 12 0).

Record Process := mkProcess {
  state : ProcessState;
  pid : usize;
  context : Context;
  parent : option nat;
  xstate : i32;
  p_chan : chan;
  pagetable : usize;
  trapframe : usize;
  sz : usize;
  kstack : usize;
  ofile : list (option nat);
  cwd : InodeRef;
}.

Definition root_placeholder : InodeRef := 0%nat.

Definition Process_unused : Process :=
  mkProcess Unused 0 Context_zero None 0 NoChan 0 0 0 0 (replicate (Z.to_nat NOFILE) None) root_placeholder.

Definition set_state (st : ProcessState) (p : Process) : Process :=
  mkProcess st (pid p) (context p) (parent p) (xstate p) (p_chan p) (pagetable p) (trapframe p) (sz p)
    (kstack p) (ofile p) (cwd p).
Definition set_chan (c : chan) (p : Process) : Process :=
  mkProcess (state p) (pid p) (context p) (parent p) (xstate p) c (pagetable p) (trapframe p) (sz p)
    (kstack p) (ofile p) (cwd p).

(** ** Files, pipes, console *)

Inductive FileKind :=
| KNone
| KDevice (major : u16)
| KInode (inode : InodeRef) (off : usize) (append : bool)
| KPipe (pipe : nat).

Record File := mkFile { f_refcnt : usize; readable : bool; writable : bool; kind : FileKind }.
Definition File_unused : File := mkFile 0 false false KNone.

Record Pipe := mkPipe {
  used : bool;
  p_data : list u8;
  nread : usize;
  nwrite : usize;
  readopen : bool;
  writeopen : bool;
}.
Definition Pipe_unused : Pipe := mkPipe false (replicate (Z.to_nat PIPESIZE) 0) 0 0 false false.

(** The cooked input ring: [i_r] next byte to read, [i_w] end of the committed
    lines, [i_e] end of the line being edited. *)
Record Input := mkInput { i_buf : list u8; i_r : usize; i_w : usize; i_e : usize }.
Definition Input_new : Input := mkInput (replicate (Z.to_nat INPUT_BUF) 0) 0 0 0.

(** The serial device: bytes received and not yet read, bytes transmitted. *)
Record Uart := mkUart { rx : list u8; tx : list u8 }.

Record ConsoleInner := mkConsole { uart : Uart; input : Input }.

(** ** The whole state *)

Record kernel := mkKernel {
  k_held : list lock;
  procs : list Process;
  cpu_proc : option nat;
  next_pid : usize;
  initproc : option nat;
  ftable : list File;
  pipes : list Pipe;
  console : ConsoleInner;
  k_fs : fs;
  k_ram : machine;
}.

#[global] Program Instance Locks_kernel : Locks kernel := {
  held := k_held;
  set_held h s := mkKernel h (procs s) (cpu_proc s) (next_pid s) (initproc s) (ftable s) (pipes s)
    (console s) (k_fs s) (k_ram s);
}.
Solve Obligations with (by intros []).

Definition set_procs (l : list Process) (s : kernel) : kernel :=
  mkKernel (k_held s) l (cpu_proc s) (next_pid s) (initproc s) (ftable s) (pipes s) (console s) (k_fs s) (k_ram s).
Definition set_cpu_proc (c : option nat) (s : kernel) : kernel :=
  mkKernel (k_held s) (procs s) c (next_pid s) (initproc s) (ftable s) (pipes s) (console s) (k_fs s) (k_ram s).
Definition set_ftable (l : list File) (s : kernel) : kernel :=
  mkKernel (k_held s) (procs s) (cpu_proc s) (next_pid s) (initproc s) l (pipes s) (console s) (k_fs s) (k_ram s).
Definition set_pipes (l : list Pipe) (s : kernel) : kernel :=
  mkKernel (k_held s) (procs s) (cpu_proc s) (next_pid s) (initproc s) (ftable s) l (console s) (k_fs s) (k_ram s).
Definition set_console (c : ConsoleInner) (s : kernel) : kernel :=
  mkKernel (k_held s) (procs s) (cpu_proc s) (next_pid s) (initproc s) (ftable s) (pipes s) c (k_fs s) (k_ram s).
Definition set_k_fs (f : fs) (s : kernel) : kernel :=
  mkKernel (k_held s) (procs s) (cpu_proc s) (next_pid s) (initproc s) (ftable s) (pipes s) (console s) f (k_ram s).
Definition set_k_ram (m : machine) (s : kernel) : kernel :=
  mkKernel (k_held s) (procs s) (cpu_proc s) (next_pid s) (initproc s) (ftable s) (pipes s) (console s) (k_fs s) m.

(** Run [m] on a part of the state, with the hart's lock list threaded through. *)
Definition zoom {P A} `{!Locks P} (get : kernel → P) (put : P → kernel → kernel) (m : M P A) : M kernel A :=
  λ s, match m (set_held (k_held s) (get s)) with
       | Ok (a, p) => Ok (a, put p (set_held (held p) s))
       | Fault e => Fault e
       end.

Definition in_fs {A} : M fs A → M kernel A := zoom k_fs set_k_fs.
Definition in_ram {A} : M machine A → M kernel A := zoom k_ram set_k_ram.

Lemma wp_zoom {P A} `{!Locks P} (get : kernel → P) put (m : M P A) s Q :
  wp m (set_held (k_held s) (get s)) (λ a p, Q a (put p (set_held (held p) s))) → wp (zoom get put m) s Q.
Proof. unfold wp, zoom. by destruct (m _) as [[a p]|]. Qed.

(** Table accesses. *)
Definition proc_slot (i : nat) : M kernel Process :=
  l ← gets procs; expect (l !! i) "index out of bounds".
Definition set_proc (i : nat) (p : Process) : M kernel unit :=
  modify (λ s, set_procs (<[i := p]> (procs s)) s).
Definition pipe_slot (i : nat) : M kernel Pipe :=
  l ← gets pipes; expect (l !! i) "index out of bounds".
Definition set_pipe (i : nat) (p : Pipe) : M kernel unit :=
  modify (λ s, set_pipes (<[i := p]> (pipes s)) s).

