(* ===== verification/Sched.v ===== *)
(** * Sleeping, waking and scheduling (src/src/proc.rs)

    [sched] switches to the scheduler in the middle of [sleep] and [yield_cpu].
    The operations are therefore split at that switch: [sleep_enter] is [sleep]
    up to it, [sleep_leave] the rest; [scheduler_take] is the body of the
    scheduler loop up to its switch to the process and [scheduler_back] the
    rest, once the process has come back through [sched]. *)

From S2P Require Import Prelude Spinlock FsBase Kalloc Kernel.

Definition proc_slots : list nat := seq 0 (Z.to_nat NPROC).

(** ** Operations *)

Definition wakeup_one (c : chan) (i : nat) (_ : unit) : M kernel unit :=
  acquire (LProc i);;
  p ← proc_slot i;
  (if decide (state p = Sleeping ∧ p_chan p = c) then set_proc i (set_state Runnable p) else mret tt);;
  release (LProc i).

Definition wakeup (c : chan) : M kernel unit := for_fold proc_slots (wakeup_one c) tt.

(** The checks of [sched] before the switch.  Interrupts are off exactly while a
    lock is held, and [noff] is the number of locks held. *)
Definition sched : M kernel unit :=
  c ← gets cpu_proc;
  i ← expect c "sched: no proc";
  h ← gets held;
  assert (bool_decide (LProc i ∈ h)) "sched: p.lock not held";;
  p ← proc_slot i;
  assert (bool_decide (state p ≠ Running)) "sched: running";;
  assert (bool_decide (h ≠ [])) "sched: interrupts enabled";;
  assert (bool_decide (length h = 1%nat)) "sched: unexpected noff".

Definition myproc (msg : string) : M kernel nat := c ← gets cpu_proc; expect c msg.

Definition sleep_enter (c : chan) (lk : lock) : M kernel unit :=
  i ← myproc "sleep: no proc";
  acquire (LProc i);;
  release lk;;
  p ← proc_slot i;
  set_proc i (set_state Sleeping (set_chan c p));;
  sched.

Definition sleep_leave (lk : lock) : M kernel unit :=
  i ← myproc "sleep: no proc";
  p ← proc_slot i;
  set_proc i (set_chan NoChan p);;
  release (LProc i);;
  acquire lk.

Definition yield_enter : M kernel unit :=
  i ← myproc "yield_cpu: no proc";
  acquire (LProc i);;
  p ← proc_slot i;
  set_proc i (set_state Runnable p);;
  sched.

Definition yield_leave : M kernel unit :=
  i ← myproc "yield_cpu: no proc";
  release (LProc i).

(** The body of the scheduler loop for slot [i]; it reports whether it switches. *)
Definition scheduler_take (i : nat) : M kernel bool :=
  acquire (LProc i);;
  p ← proc_slot i;
  if decide (state p = Runnable) then
    set_proc i (set_state Running p);;
    modify (set_cpu_proc (Some i));;
    mret true
  else
    release (LProc i);; mret false.

Definition scheduler_back (i : nat) : M kernel unit :=
  modify (set_cpu_proc None);;
  release (LProc i).

(** ** Specifications *)

Definition wake_one (c : chan) (p : Process) : Process :=
  if decide (state p = Sleeping ∧ p_chan p = c) then set_state Runnable p else p.

(** The process table after [wakeup c]. *)
Definition wake (c : chan) (l : list Process) : list Process := wake_one c <$> l.

Lemma length_wake c l : length (wake c l) = length l.
Proof. apply length_fmap. Qed.

Definition no_proc_lock (s : kernel) : Prop := ∀ i, LProc i ∉ held s.

Lemma wp_proc_slot i p s Q : procs s !! i = Some p → Q p s → wp (proc_slot i) s Q.
Proof. intros ??. unfold proc_slot. wp_steps. by eapply wp_expect. Qed.

Lemma wp_myproc msg i s Q : cpu_proc s = Some i → Q i s → wp (myproc msg) s Q.
Proof. intros ??. unfold myproc. wp_steps. by eapply wp_expect. Qed.

Lemma wp_set_proc i p s Q : Q tt (set_procs (<[i := p]> (procs s)) s) → wp (set_proc i p) s Q.
Proof. done. Qed.

(** Locks taken and released out of order. *)
Lemma wp_release_in l h1 h2 s Q :
  held s = h1 ++ l :: h2 → l ∉ h1 ++ h2 → Q tt (set_held (h1 ++ h2) s) → wp (release l) s Q.
Proof.
  intros Hs Hl HQ. unfold release. wp_steps. rewrite Hs, decide_True by set_solver. wp_steps.
  rewrite filter_app, filter_cons_False by naive_solver. rewrite <-filter_app.
  rewrite filter_all; [done|]. apply Forall_forall. by intros x Hx ->.
Qed.

Lemma set_procs_id s : set_procs (procs s) s = s.
Proof. by destruct s. Qed.

Lemma wakeup_one_spec c i p s :
  LProc i ∉ held s → procs s !! i = Some p →
  wp (wakeup_one c i tt) s (λ _ s', s' = set_procs (<[i := wake_one c p]> (procs s)) s).
Proof.
  intros Hh Hp. unfold wakeup_one, wake_one. wp_step. apply wp_acquire; [done|].
  wp_step. eapply wp_proc_slot; [done|]. wp_step.
  destruct (decide _).
  - wp_steps. eapply wp_release; [done|done|]. by destruct s.
  - wp_steps. eapply wp_release; [done|done|]. rewrite list_insert_id by done. by destruct s.
Qed.

(** A loop over the process table that treats each slot on its own. *)
Lemma wp_map_procs {A} (g : Process → Process) (h : A → Process → A) (body : nat → A → M kernel A) a0 s :
  length (procs s) = Z.to_nat NPROC →
  (∀ i p a s', procs s' !! i = Some p → s' = set_procs (procs s') s →
     wp (body i a) s' (λ a' s'', a' = h a p ∧ s'' = set_procs (<[i := g p]> (procs s')) s')) →
  wp (for_fold proc_slots body a0) s (λ a s', a = foldl h a0 (procs s) ∧ s' = set_procs (g <$> procs s) s).
Proof.
  intros Hl Hbody.
  apply (wp_for_fold (λ pre a s', a = foldl h a0 (take (length pre) (procs s)) ∧
    s' = set_procs ((g <$> take (length pre) (procs s)) ++ drop (length pre) (procs s)) s)).
  - split; [done|]. by destruct s.
  - intros pre i post a s' Hpre [-> ->].
    assert (i = length pre ∧ (i < Z.to_nat NPROC)%nat) as [-> Hi].
    { assert (proc_slots !! length pre = Some i) as Hi by (rewrite Hpre; by apply list_lookup_middle).
      apply lookup_seq in Hi. lia. }
    destruct (lookup_lt_is_Some_2 (procs s) (length pre)) as [p Hp]; [lia|].
    assert (length (g <$> take (length pre) (procs s)) = length pre) as Hlen by (rewrite length_fmap, length_take; lia).
    eapply wp_mono; [apply (Hbody (length pre) p); [|done]|].
    + cbn [procs set_procs]. rewrite lookup_app_r, Hlen, Nat.sub_diag, lookup_drop, Nat.add_0_r by lia. done.
    + intros a' s' [-> ->]. rewrite length_app. cbn [length]. rewrite Nat.add_1_r. erewrite take_S_r by done.
      rewrite foldl_app. split; [done|]. unfold set_procs. cbn. f_equal.
      rewrite insert_app_r_alt, Hlen, Nat.sub_diag by lia. rewrite fmap_app, <-app_assoc. f_equal.
      by erewrite drop_S by done.
  - intros a s' [-> ->]. unfold proc_slots. rewrite length_seq. by rewrite take_ge, drop_ge, app_nil_r by lia.
Qed.

Lemma wakeup_spec c s :
  no_proc_lock s → length (procs s) = Z.to_nat NPROC →
  wp (wakeup c) s (λ _ s', s' = set_procs (wake c (procs s)) s).
Proof.
  intros Hh Hl. unfold wakeup. eapply wp_mono; [apply (wp_map_procs (wake_one c) (λ a _, a)); [done|]|by intros [] s' [_ ->]].
  intros i p [] s' Hp Hs'. eapply wp_mono; [apply wakeup_one_spec; [rewrite Hs'; apply Hh|done]|]. by intros [] s'' ->.
Qed.

Lemma sched_spec i p s :
  cpu_proc s = Some i → procs s !! i = Some p → state p ≠ Running → held s = [LProc i] →
  wp sched s (λ _ s', s' = s).
Proof.
  intros Hc Hp Hst Hh. unfold sched. wp_step. wp_step. rewrite Hc. wp_step. eapply wp_expect; [done|].
  wp_step. wp_step. wp_step. wp_step; [rewrite Hh; apply bool_decide_eq_true; set_solver|].
  wp_step. eapply wp_proc_slot; [done|]. wp_step. wp_step; [by apply bool_decide_eq_true|].
  rewrite Hh. by wp_steps.
Qed.

(** [sleep] and the return to the scheduler: the process sleeps on the channel,
    every lock is released and the hart is free. *)
Lemma sleep_enter_spec c lk i p s :
  cpu_proc s = Some i → procs s !! i = Some p → held s = [lk] → lk ≠ LProc i →
  wp (sleep_enter c lk;; scheduler_back i) s (λ _ s',
    s' = set_held [] (set_cpu_proc None
           (set_procs (<[i := set_state Sleeping (set_chan c p)]> (procs s)) s))).
Proof.
  intros Hc Hp Hh Hlk. unfold sleep_enter. wp_steps. eapply wp_myproc; [done|].
  assert (LProc i ∉ [lk]) as Hni by (rewrite list_elem_of_singleton; naive_solver).
  wp_step. apply wp_acquire; [by rewrite Hh|].
  wp_step. apply (wp_release_in lk [LProc i] []);
    [cbn in *; by rewrite Hh|cbn; rewrite list_elem_of_singleton; naive_solver|].
  wp_step. eapply wp_proc_slot; [done|]. wp_step. apply wp_set_proc.
  wp_call (sched_spec i).
  - done.
  - cbn. apply list_lookup_insert_eq. by eapply lookup_lt_Some.
  - done.
  - done.
  - intros [] s' ->. unfold scheduler_back. wp_steps. eapply wp_release; [done|apply not_elem_of_nil|].
    by destruct s.
Qed.

Lemma yield_enter_spec i p s :
  cpu_proc s = Some i → procs s !! i = Some p → held s = [] →
  wp (yield_enter;; scheduler_back i) s (λ _ s',
    s' = set_cpu_proc None (set_procs (<[i := set_state Runnable p]> (procs s)) s)).
Proof.
  intros Hc Hp Hh. unfold yield_enter. wp_steps. eapply wp_myproc; [done|].
  wp_step. apply wp_acquire; [rewrite Hh; set_solver|]. wp_step. eapply wp_proc_slot; [done|].
  wp_step. apply wp_set_proc. wp_call (sched_spec i).
  - done.
  - cbn. apply list_lookup_insert_eq. by eapply lookup_lt_Some.
  - done.
  - cbn in *. by rewrite Hh.
  - intros [] s' ->. unfold scheduler_back. wp_steps. eapply wp_release; [cbn in *; by rewrite Hh|apply not_elem_of_nil|].
    destruct s; cbn in *; by subst.
Qed.

(** Taking a runnable process and finishing its [sleep] or [yield_cpu]. *)
Lemma scheduler_take_spec i p s :
  procs s !! i = Some p → held s = [] →
  wp (scheduler_take i) s (λ b s', b = bool_decide (state p = Runnable) ∧
    s' = if b then set_held [LProc i] (set_cpu_proc (Some i)
                     (set_procs (<[i := set_state Running p]> (procs s)) s)) else s).
Proof.
  intros Hp Hh. unfold scheduler_take. wp_step. apply wp_acquire; [rewrite Hh; set_solver|].
  wp_step. eapply wp_proc_slot; [done|]. destruct (decide (state p = Runnable)) as [Hr|Hr].
  - wp_step. apply wp_set_proc. wp_steps. rewrite bool_decide_eq_true_2 by done. split; [done|]. destruct s; cbn in *; by subst.
  - wp_steps. eapply wp_release; [done|rewrite Hh; apply not_elem_of_nil|]. wp_steps.
    rewrite bool_decide_eq_false_2 by done. split; [done|]. by destruct s.
Qed.

Lemma sleep_leave_spec lk i p s :
  cpu_proc s = Some i → procs s !! i = Some p → held s = [LProc i] →
  wp (sleep_leave lk) s (λ _ s', s' = set_held [lk] (set_procs (<[i := set_chan NoChan p]> (procs s)) s)).
Proof.
  intros Hc Hp Hh. unfold sleep_leave. wp_step. eapply wp_myproc; [done|]. wp_step.
  eapply wp_proc_slot; [done|]. wp_step. apply wp_set_proc. wp_step. eapply wp_release; [cbn in *; done|apply not_elem_of_nil|].
  apply wp_acquire; [cbn; apply not_elem_of_nil|]. by destruct s.
Qed.

Lemma yield_leave_spec i s :
  cpu_proc s = Some i → held s = [LProc i] → wp yield_leave s (λ _ s', s' = set_held [] s).
Proof.
  intros Hc Hh. unfold yield_leave. wp_step. eapply wp_myproc; [done|].
  eapply wp_release; [done|apply not_elem_of_nil|done].
Qed.
