(* ===== verification/Pipe.v ===== *)
(** * Pipes (src/src/pipe.rs)

    A call that may sleep runs in segments: a segment ends by returning or by
    sleeping ([Block]) on a channel, releasing a lock, and the next segment
    starts where [sleep] returns.  [read_loop] and [write_loop] are the code
    from the loop that sleeps, with the pipe lock held. *)

From S2P Require Import Prelude Ring Spinlock FsBase Kalloc Kernel Sched.

(** The end of a segment: [A] is the result of the call and [R] what is kept
    across the sleep. *)
Inductive segment (R A : Type) :=
| Return (a : A)
| Block (c : chan) (lk : lock) (r : R).
Arguments Return {R A} a.
Arguments Block {R A} c lk r.

(** ** Operations *)

Definition pipe_alloc_try (i : nat) (_ : unit) : M kernel (unit + nat) :=
  q ← pipe_slot i;
  if negb (used q) then
    set_pipe i (mkPipe true (p_data q) 0 0 true true);;
    release PIPE_TABLE_LOCK;;
    mret (inr i)
  else mret (inl tt).

Definition pipe_slots : list nat := seq 0 (Z.to_nat NPIPE).

Definition pipe_alloc : M kernel (option nat) :=
  acquire PIPE_TABLE_LOCK;;
  r ← for_each pipe_slots pipe_alloc_try tt;
  match r with
  | inr i => mret (Some i)
  | inl _ => release PIPE_TABLE_LOCK;; mret None
  end.

Definition set_used (b : bool) (q : Pipe) : Pipe :=
  mkPipe b (p_data q) (nread q) (nwrite q) (readopen q) (writeopen q).
Definition set_open (r w : bool) (q : Pipe) : Pipe :=
  mkPipe (used q) (p_data q) (nread q) (nwrite q) r w.

Definition pipe_unuse (p : nat) : M kernel unit :=
  acquire PIPE_TABLE_LOCK;;
  q ← pipe_slot p;
  set_pipe p (set_used false q);;
  release PIPE_TABLE_LOCK.

Definition free_allocated (p : nat) : M kernel unit :=
  acquire (LPipe p);;
  q ← pipe_slot p;
  set_pipe p (mkPipe (used q) (p_data q) 0 0 false false);;
  release (LPipe p);;
  pipe_unuse p.

Definition pipe_close (p : nat) (writable : bool) : M kernel unit :=
  acquire (LPipe p);;
  q ← pipe_slot p;
  (if writable then
     set_pipe p (set_open (readopen q) false q);; wakeup (ReadChan p)
   else
     set_pipe p (set_open false (writeopen q) q);; wakeup (WriteChan p));;
  q ← pipe_slot p;
  let do_free := negb (readopen q) && negb (writeopen q) in
  release (LPipe p);;
  if do_free then pipe_unuse p else mret tt.

(** The copy loop of [read] over [(n, dst)]. *)
Definition read_byte (p : nat) (a : Z * list u8) : M kernel (Z * list u8 + Z * list u8) :=
  let '(n, dst) := a in
  q ← pipe_slot p;
  if (n <? Z.of_nat (length dst)) && negb (nread q =? nwrite q) then
    b ← aget (p_data q) (nread q mod PIPESIZE);
    r ← add_at USIZE_MAX (nread q) 1;
    set_pipe p (mkPipe (used q) (p_data q) r (nwrite q) (readopen q) (writeopen q));;
    n' ← add_at USIZE_MAX n 1;
    mret (inl (n', <[Z.to_nat n := b]> dst))
  else mret (inr (n, dst)).

(** [read] from its first loop; the result is the count and the buffer. *)
Definition read_loop (p : nat) (dst : list u8) : M kernel (segment unit (isize * list u8)) :=
  q ← pipe_slot p;
  if (nread q =? nwrite q) && writeopen q then mret (Block (ReadChan p) (LPipe p) tt)
  else
    '(n, dst) ← while_fuel (S (length dst)) (read_byte p) (0, dst);
    wakeup (WriteChan p);;
    release (LPipe p);;
    mret (Return (as_isize n, dst)).

Definition pipe_read (p : nat) (dst : list u8) : M kernel (segment unit (isize * list u8)) :=
  acquire (LPipe p);; read_loop p dst.

(** The loop of [write] over [n]. *)
Definition write_byte (p : nat) (src : list u8) (n : Z) : M kernel (Z + segment Z isize) :=
  if n <? Z.of_nat (length src) then
    q ← pipe_slot p;
    lim ← add_at USIZE_MAX (nread q) PIPESIZE;
    if nwrite q =? lim then
      if negb (readopen q) then release (LPipe p);; mret (inr (Return (-1)))
      else
        wakeup (ReadChan p);;
        mret (inr (Block (WriteChan p) (LPipe p) n))
    else if negb (readopen q) then release (LPipe p);; mret (inr (Return (-1)))
    else
      b ← aget src n;
      w ← add_at USIZE_MAX (nwrite q) 1;
      set_pipe p (mkPipe (used q) (<[Z.to_nat (nwrite q mod PIPESIZE) := b]> (p_data q)) (nread q) w
                    (readopen q) (writeopen q));;
      n' ← add_at USIZE_MAX n 1;
      mret (inl n')
  else
    wakeup (ReadChan p);;
    release (LPipe p);;
    mret (inr (Return (as_isize n))).

Definition write_loop (p : nat) (src : list u8) (n : Z) : M kernel (segment Z isize) :=
  while_fuel (S (length src)) (write_byte p src) n.

Definition pipe_write (p : nat) (src : list u8) : M kernel (segment Z isize) :=
  acquire (LPipe p);; write_loop p src 0.

(** ** The ring as a queue *)

Record Pipe_ok (q : Pipe) : Prop := {
  qo_len : length (p_data q) = Z.to_nat PIPESIZE;
  qo_bytes : bytes_ok (p_data q);
  qo_ord : 0 ≤ nread q ≤ nwrite q;
  qo_cap : nwrite q ≤ nread q + PIPESIZE;
}.

(** The bytes written and not yet read, oldest first. *)
Definition queued (q : Pipe) : list u8 := ring_seg PIPESIZE (p_data q) (nread q) (nwrite q).

Definition full (q : Pipe) : Prop := nwrite q = nread q + PIPESIZE.

Lemma PIPESIZE_pos : 0 < PIPESIZE.
Proof. done. Qed.
Lemma PIPESIZE_eq : PIPESIZE = 512.
Proof. done. Qed.

Lemma length_queued q : Pipe_ok q → Z.of_nat (length (queued q)) = nwrite q - nread q.
Proof. intros [? ? ? ?]. unfold queued. rewrite length_ring_seg. lia. Qed.

Lemma queued_empty q : Pipe_ok q → queued q = [] ↔ nread q = nwrite q.
Proof.
  intros Hq. pose proof (length_queued q Hq). pose proof (qo_ord q Hq).
  split; [intros E; rewrite E in *; cbn in *; lia|intros E; apply nil_length_inv; lia].
Qed.

Definition pushed (b : u8) (q : Pipe) : Pipe :=
  mkPipe (used q) (ring_put PIPESIZE (p_data q) (nwrite q) b) (nread q) (nwrite q + 1) (readopen q) (writeopen q).

Lemma queued_push q b :
  Pipe_ok q → ¬ full q → byte_ok b → queued (pushed b q) = queued q ++ [b] ∧ Pipe_ok (pushed b q).
Proof.
  intros [Hl Hb Ho Hc] Hf Hby. unfold full in Hf. split.
  - apply (ring_seg_push _ PIPESIZE_pos); [done|cbn; lia].
  - constructor; cbn; [by rewrite length_ring_put|by apply ring_put_bytes|lia|lia].
Qed.

(** ** Segments *)

Definition put_pipe (p : nat) (q : Pipe) (s : kernel) : kernel := set_pipes (<[p := q]> (pipes s)) s.
Definition woken (c : chan) (s : kernel) : kernel := set_procs (wake c (procs s)) s.

Lemma wp_pipe_slot p q s Q : pipes s !! p = Some q → Q q s → wp (pipe_slot p) s Q.
Proof. intros ??. unfold pipe_slot. wp_steps. by eapply wp_expect. Qed.

Lemma wp_set_pipe p q s Q : Q tt (put_pipe p q s) → wp (set_pipe p q) s Q.
Proof. done. Qed.

Lemma put_pipe_lookup p q s : is_Some (pipes s !! p) → pipes (put_pipe p q s) !! p = Some q.
Proof. intros ?%lookup_lt_is_Some. by apply list_lookup_insert_eq. Qed.

Lemma put_pipe_twice p q q' s : put_pipe p q' (put_pipe p q s) = put_pipe p q' s.
Proof. unfold put_pipe, set_pipes. cbn. by rewrite list_insert_insert_eq. Qed.

Lemma put_pipe_id p q s : pipes s !! p = Some q → put_pipe p q s = s.
Proof. intros Hq. unfold put_pipe. rewrite list_insert_id by done. by destruct s. Qed.

(** [q] after [k] more reads. *)
Definition advance (k : Z) (q : Pipe) : Pipe :=
  mkPipe (used q) (p_data q) (nread q + k) (nwrite q) (readopen q) (writeopen q).

Lemma queued_advance q k :
  Pipe_ok q → 0 ≤ k ≤ nwrite q - nread q →
  queued (advance k q) = drop (Z.to_nat k) (queued q) ∧ Pipe_ok (advance k q).
Proof.
  intros [? ? ? ?] Hk. split; [|by constructor; cbn; lia || done].
  apply ring_seg_drop. cbn; lia.
Qed.

Lemma queued_lookup q k :
  Pipe_ok q → 0 ≤ k < nwrite q - nread q →
  queued q !! Z.to_nat k = Some (ring_get PIPESIZE (p_data q) (nread q + k)).
Proof. intros Hq Hk. by apply ring_seg_lookup. Qed.

(** Copying one more byte. *)
Lemma copy_one {A} (B dst : list A) (n : nat) b :
  B !! n = Some b → (n < length dst)%nat →
  <[n := b]> (take n B ++ drop n dst) = take (S n) B ++ drop (S n) dst.
Proof.
  intros Hb Hn. pose proof (lookup_lt_Some _ _ _ Hb).
  destruct (lookup_lt_is_Some_2 dst n Hn) as [x Hx].
  rewrite insert_app_r_alt; rewrite length_take, Nat.min_l by lia; [|lia].
  rewrite Nat.sub_diag, (drop_S dst x n) by done. cbn.
  by rewrite (take_S_r B n b), <-app_assoc by done.
Qed.

Lemma read_bytes_spec p q dst s :
  pipes s !! p = Some q → Pipe_ok q → nwrite q ≤ USIZE_MAX → Z.of_nat (length dst) ≤ USIZE_MAX →
  let k := Nat.min (length dst) (length (queued q)) in
  wp (while_fuel (S (length dst)) (read_byte p) (0, dst)) s (λ r s',
    r = (Z.of_nat k, take k (queued q) ++ drop k dst) ∧ s' = put_pipe p (advance (Z.of_nat k) q) s).
Proof.
  intros Hq Hok Hw Hd k. pose proof (length_queued q Hok) as Hlen.
  apply (wp_while (λ '(n, d) s', 0 ≤ n ≤ Z.of_nat k ∧
      d = take (Z.to_nat n) (queued q) ++ drop (Z.to_nat n) dst ∧ s' = put_pipe p (advance n q) s)
    (λ a, (length dst - Z.to_nat a.1)%nat)).
  - intros [n d] s' (Hn & -> & ->). unfold read_byte. wp_step.
    eapply wp_pipe_slot; [by eapply put_pipe_lookup|]. cbn [nread nwrite advance p_data].
    assert (length (take (Z.to_nat n) (queued q) ++ drop (Z.to_nat n) dst) = length dst) as Hld
      by (rewrite length_app, length_take, length_drop; lia).
    rewrite Hld. destruct (Z.ltb_spec n (Z.of_nat (length dst))) as [Hlt|Hge]; cbn [andb].
    2: { wp_steps. by replace n with (Z.of_nat k) by lia; rewrite Nat2Z.id. }
    destruct (Z.eqb_spec (nread q + n) (nwrite q)) as [He|Hne]; cbn [negb].
    { wp_steps. by replace n with (Z.of_nat k) by lia; rewrite Nat2Z.id. }
    pose proof (qo_ord q Hok). pose proof (queued_lookup q n Hok ltac:(lia)) as Hb.
    wp_step. eapply wp_aget; [by apply Z.mod_pos_bound|apply (ring_get_lookup _ PIPESIZE_pos); apply Hok|].
    wp_step. wp_step. wp_step. apply wp_set_pipe. wp_steps.
    rewrite put_pipe_twice. split; [|cbn; lia]. split_and!; [lia..| |].
    + rewrite (copy_one _ _ _ _ Hb) by lia. by rewrite Z2Nat.inj_add, Nat.add_1_r by lia.
    + unfold advance. cbn. do 2 f_equal. lia.
  - split_and!; [lia..|done|]. unfold advance. rewrite Z.add_0_r. symmetry. destruct q. by apply put_pipe_id.
  - cbn. lia.
Qed.

(** What a segment of [read] does to a pipe [q] when it does not sleep. *)
Definition read_count (q : Pipe) (dst : list u8) : nat := Nat.min (length dst) (length (queued q)).

Lemma as_isize_small z : 0 ≤ z ≤ ISIZE_MAX → as_isize z = z.
Proof.
  intros Hz. unfold as_isize, to_signed. change (2 ^ (64 - 1)) with 9223372036854775808.
  unfold ISIZE_MAX in Hz. destruct (Z.ltb_spec z 9223372036854775808); lia.
Qed.

Section segments.
Context (p : nat) (q : Pipe) (s : kernel).
Context (Hq : pipes s !! p = Some q) (Hok : Pipe_ok q).
Context (Hheld : held s = [LPipe p]) (Hprocs : length (procs s) = Z.to_nat NPROC).

Lemma pipe_no_proc : no_proc_lock s.
Proof. intros i. rewrite Hheld, list_elem_of_singleton. done. Qed.

Lemma read_loop_spec dst :
  nwrite q ≤ USIZE_MAX → Z.of_nat (length dst) ≤ ISIZE_MAX →
  wp (read_loop p dst) s (λ r s',
    if decide (queued q = [] ∧ writeopen q = true)
    then r = Block (ReadChan p) (LPipe p) tt ∧ s' = s
    else let k := read_count q dst in
      r = Return (Z.of_nat k, take k (queued q) ++ drop k dst) ∧
      s' = set_held [] (woken (WriteChan p) (put_pipe p (advance (Z.of_nat k) q) s))).
Proof.
  intros Hw Hd. unfold read_loop. wp_step. eapply wp_pipe_slot; [done|].
  destruct (decide _) as [[Hemp Hopen]|Hgo].
  - apply (queued_empty q Hok) in Hemp. rewrite Hemp, Z.eqb_refl, Hopen. by wp_steps.
  - assert ((nread q =? nwrite q) && writeopen q = false) as ->.
    { apply andb_false_iff.
      destruct (Z.eqb_spec (nread q) (nwrite q)); [right|by left].
      destruct (writeopen q); [|done]. exfalso. apply Hgo. split; [by apply queued_empty|done]. }
    wp_call read_bytes_spec; [done|done|done|unfold ISIZE_MAX, USIZE_MAX in *; lia|].
    intros r s' [-> ->]. wp_call wakeup_spec; [exact pipe_no_proc|done|]. intros [] s' ->.
    wp_step. eapply wp_release; [cbn in *; done|apply not_elem_of_nil|]. wp_steps.
    rewrite as_isize_small by lia. split; [done|]. by destruct s.
Qed.

(** The end of a segment of [write] that started at [src[n..]]. *)
Definition write_outcome (src : list u8) (n : Z) (r : segment Z isize) (s' : kernel) : Prop :=
  ∃ k q', 0 ≤ k ∧ n + k ≤ Z.of_nat (length src) ∧ Pipe_ok q' ∧
    queued q' = queued q ++ slice (Z.to_nat n) (Z.to_nat k) src ∧
    nread q' = nread q ∧ nwrite q' = nwrite q + k ∧ used q' = used q ∧
    readopen q' = readopen q ∧ writeopen q' = writeopen q ∧
    match r with
    | Return v =>
        if decide (v = -1) then k = 0 ∧ n < Z.of_nat (length src) ∧ readopen q = false ∧ s' = set_held [] s
        else v = Z.of_nat (length src) ∧ n + k = v ∧
             s' = set_held [] (woken (ReadChan p) (put_pipe p q' s))
    | Block c lk n' => c = WriteChan p ∧ lk = LPipe p ∧ n' = n + k ∧ n' < Z.of_nat (length src) ∧
        full q' ∧ readopen q = true ∧ s' = woken (ReadChan p) (put_pipe p q' s)
    end.

(** The state of the loop after [n - n0] bytes. *)
Record writing (src : list u8) (n0 n : Z) (s' : kernel) : Prop := {
  wr_bound : n0 ≤ n ≤ Z.of_nat (length src);
  wr_pipe : ∃ q', s' = put_pipe p q' s ∧ Pipe_ok q' ∧
    queued q' = queued q ++ slice (Z.to_nat n0) (Z.to_nat (n - n0)) src ∧
    nread q' = nread q ∧ nwrite q' = nwrite q + (n - n0) ∧ used q' = used q ∧
    readopen q' = readopen q ∧ writeopen q' = writeopen q ∧
    (n = n0 ∧ q' = q ∨ readopen q = true);
}.

Lemma slice_snoc {A} (l : list A) off k x :
  l !! (off + k)%nat = Some x → slice off (S k) l = slice off k l ++ [x].
Proof. intros Hx. unfold slice. apply take_S_r. by rewrite lookup_drop. Qed.

(** The reading end is closed. *)
Lemma write_refused src n (m : M kernel (Z + segment Z isize)) :
  0 ≤ n < Z.of_nat (length src) → readopen q = false →
  m = (release (LPipe p);; mret (inr (Return (-1)))) →
  wp m (put_pipe p q s) (λ r s',
    match r with
    | inl n' => n' = n + 1 ∧ n' ≤ Z.of_nat (length src) ∧ writing src n n' s'
    | inr seg => write_outcome src n seg s'
    end).
Proof.
  intros Hn Hro ->. wp_step. eapply wp_release; [cbn in *; done|apply not_elem_of_nil|]. wp_steps.
  rewrite (put_pipe_id p q s Hq). exists 0, q. split_and!; try done; try lia.
  - unfold slice. by rewrite take_0, app_nil_r.
  - rewrite decide_True by done. split_and!; [done|lia|done|done].
Qed.

Lemma write_byte_spec src n0 n s' :
  0 ≤ n0 → writing src n0 n s' → bytes_ok src → Z.of_nat (length src) ≤ ISIZE_MAX →
  nwrite q + Z.of_nat (length src) + PIPESIZE ≤ USIZE_MAX →
  wp (write_byte p src n) s' (λ r s'',
    match r with
    | inl n' => n' = n + 1 ∧ n' ≤ Z.of_nat (length src) ∧ writing src n0 n' s''
    | inr seg => write_outcome src n0 seg s''
    end).
Proof.
  intros Hn0 [Hn (q' & -> & Hok' & Hc & Hr & Hw & Hu & Hro & Hwo & Hsome)] Hb Hlen Hmax.
  assert (no_proc_lock (put_pipe p q' s)) as Hnp by exact pipe_no_proc.
  pose proof PIPESIZE_eq as EP. pose proof (qo_ord q Hok) as Hord. unfold write_byte.
  destruct (Z.ltb_spec n (Z.of_nat (length src))) as [Hlt|Hge].
  2: { assert (n = Z.of_nat (length src)) as -> by lia.
       wp_call wakeup_spec; [exact Hnp|done|]. intros [] s'' ->.
       wp_step. eapply wp_release; [cbn in *; done|apply not_elem_of_nil|]. wp_steps.
       rewrite as_isize_small by lia. exists (Z.of_nat (length src) - n0), q'. split_and!; try done; try lia.
       rewrite decide_False by lia. split_and!; [done|lia|]. by destruct s. }
  wp_step. eapply wp_pipe_slot; [by eapply put_pipe_lookup|]. rewrite Hro.
  wp_step. wp_step.
  destruct (Z.eqb_spec (nwrite q') (nread q' + PIPESIZE)) as [Hfull|Hfull].
  - destruct (readopen q) eqn:Ho; cbn [negb].
    + wp_call wakeup_spec; [exact Hnp|done|]. intros [] s'' ->. wp_steps.
      exists (n - n0), q'. split_and!; try done; try lia. by rewrite Hro.
    + destruct Hsome as [[-> ->]|?]; [|done]. by apply write_refused.
  - destruct (readopen q) eqn:Ho; cbn [negb].
    2: { destruct Hsome as [[-> ->]|?]; [|done]. by apply write_refused. }
    destruct (lookup_lt_is_Some_2 src (Z.to_nat n)) as [b Hsb]; [lia|].
    wp_step. eapply wp_aget; [lia|done|]. wp_step. wp_step.
    wp_step. apply wp_set_pipe. wp_steps. split; [done|]. split; [lia|]. rewrite put_pipe_twice.
    destruct (queued_push q' b Hok' Hfull) as [Hc' Hok'']; [by eapply Forall_lookup_1|].
    split; [lia|]. exists (pushed b q'). split_and!; try done; cbn; [unfold pushed; by rewrite Hro| |lia|by rewrite Ho|by right].
    rewrite Hc', Hc, <-app_assoc. f_equal.
    replace (Z.to_nat (n + 1 - n0)) with (S (Z.to_nat (n - n0))) by lia.
    symmetry. apply slice_snoc. rewrite <-Hsb. f_equal. lia.
Qed.

Lemma write_loop_spec src n :
  0 ≤ n ≤ Z.of_nat (length src) → bytes_ok src → Z.of_nat (length src) ≤ ISIZE_MAX →
  nwrite q + Z.of_nat (length src) + PIPESIZE ≤ USIZE_MAX →
  wp (write_loop p src n) s (write_outcome src n).
Proof.
  intros Hn Hb Hlen Hmax. unfold write_loop.
  apply (wp_while (λ n' s', writing src n n' s') (λ n', Z.to_nat (Z.of_nat (length src) - n'))).
  - intros n' s' Hw. pose proof (wr_bound _ _ _ _ Hw). wp_call (write_byte_spec src n); [lia|exact Hw|done..|].
    intros [n''|seg] s''; [|done]. intros (-> & ? & ?). split; [done|lia].
  - split; [lia|]. exists q. split_and!; try done; [symmetry; by apply put_pipe_id| |lia|by left].
    rewrite Z.sub_diag. unfold slice. by rewrite take_0, app_nil_r.
  - lia.
Qed.
End segments.

(** ** Opening and closing *)

Definition closed (w : bool) (q : Pipe) : Pipe :=
  let q' := if w then set_open (readopen q) false q else set_open false (writeopen q) q in
  if negb (readopen q') && negb (writeopen q') then set_used false q' else q'.

Definition close_chan (p : nat) (w : bool) : chan := if w then ReadChan p else WriteChan p.

Lemma pipe_unuse_spec p q s :
  pipes s !! p = Some q → held s = [] →
  wp (pipe_unuse p) s (λ _ s', s' = put_pipe p (set_used false q) s).
Proof.
  intros Hq Hh. unfold pipe_unuse. wp_step. apply wp_acquire; [rewrite Hh; apply not_elem_of_nil|].
  wp_step. eapply wp_pipe_slot; [done|]. wp_step. apply wp_set_pipe.
  eapply wp_release; [cbn in *; done|cbn in *; rewrite Hh; apply not_elem_of_nil|]. by destruct s.
Qed.

Lemma pipe_close_spec p q w s :
  pipes s !! p = Some q → held s = [] → length (procs s) = Z.to_nat NPROC →
  wp (pipe_close p w) s (λ _ s', s' = put_pipe p (closed w q) (woken (close_chan p w) s)).
Proof.
  intros Hq Hh Hp. unfold pipe_close. wp_step. apply wp_acquire; [rewrite Hh; apply not_elem_of_nil|].
  wp_step. eapply wp_pipe_slot; [done|].
  set (q' := if w then set_open (readopen q) false q else set_open false (writeopen q) q).
  wp_step.
  eapply (wp_mono _ _ (λ _ s', s' = set_held [LPipe p] (put_pipe p q' (woken (close_chan p w) s)))).
  { destruct w; wp_step; apply wp_set_pipe;
      (wp_call wakeup_spec; [intros i; cbn in *; rewrite Hh, list_elem_of_singleton; done|done|]);
      intros [] s' ->; destruct s; cbn in *; by subst. }
  intros [] s' ->. wp_step. eapply wp_pipe_slot; [by apply put_pipe_lookup|].
  wp_step. eapply wp_release; [done|apply not_elem_of_nil|]. unfold closed. fold q'.
  destruct (negb (readopen q') && negb (writeopen q')).
  - wp_call (pipe_unuse_spec p q'); [by apply put_pipe_lookup|done|].
    intros [] s' ->. destruct s; cbn in *; subst. unfold put_pipe, set_pipes. cbn. by rewrite list_insert_insert_eq.
  - wp_steps. destruct s; cbn in *; by subst.
Qed.

Definition opened (q : Pipe) : Pipe := mkPipe true (p_data q) 0 0 true true.

Lemma pipe_alloc_spec s :
  held s = [] → length (pipes s) = Z.to_nat NPIPE →
  wp pipe_alloc s (λ r s',
    match r with
    | Some i => ∃ q, pipes s !! i = Some q ∧ used q = false ∧ s' = put_pipe i (opened q) s ∧
        ∀ j q', (j < i)%nat → pipes s !! j = Some q' → used q' = true
    | None => s' = s ∧ Forall (λ q, used q = true) (pipes s)
    end).
Proof.
  intros Hh Hl. unfold pipe_alloc. wp_step. apply wp_acquire; [rewrite Hh; apply not_elem_of_nil|]. wp_step.
  apply (wp_scan (pipes s) (λ q, negb (used q))); [done| | |].
  - intros i q Hq Hu. unfold pipe_alloc_try. wp_step. eapply wp_pipe_slot; [done|]. rewrite Hu. by wp_steps.
  - intros i q Hq Hu Hall. unfold pipe_alloc_try. wp_step. eapply wp_pipe_slot; [done|]. rewrite Hu.
    wp_step. apply wp_set_pipe. wp_step.
    eapply wp_release; [done|cbn in *; rewrite Hh; apply not_elem_of_nil|]. wp_steps.
    exists q. split_and!; [done|by destruct (used q)|destruct s; cbn in *; by subst|].
    intros j q' Hj Hq'. apply negb_false_iff. by eapply Hall.
  - intros Hall. wp_step. eapply wp_release; [done|cbn in *; rewrite Hh; apply not_elem_of_nil|]. wp_steps.
    split; [destruct s; cbn in *; by subst|]. apply Forall_lookup. intros j q' Hj. apply negb_false_iff. by eapply Hall.
Qed.
