(* ===== verification/Console.v ===== *)
(** * The console (src/src/console.rs, src/src/uart.rs)

    Cooked input: received bytes are edited in a ring of 128 bytes and become
    readable a line at a time.  The serial device is the queue of received bytes
    and the log of transmitted ones. *)

From S2P Require Import Prelude Ring Spinlock FsBase Kalloc Kernel Sched Pipe.

Definition BACKSPACE : u8 := 0x08.
Definition DELETE : u8 := 0x7f.
Definition EOF : u8 := 0x04.
Definition CR : u8 := 13.
Definition NL : u8 := 10.

(** ** Operations *)

Definition con_putc (b : u8) : M kernel unit :=
  modify (λ s, let c := console s in
    set_console (mkConsole (mkUart (rx (uart c)) (tx (uart c) ++ [b])) (input c)) s).

Definition con_getc : M kernel (option u8) :=
  c ← gets console;
  match rx (uart c) with
  | [] => mret None
  | b :: l => modify (set_console (mkConsole (mkUart l (tx (uart c))) (input c)));; mret (Some b)
  end.

Definition con_write_bytes (bs : list u8) : M kernel unit := for_fold bs (λ b _, con_putc b) tt.

Definition set_input (i : Input) : M kernel unit :=
  modify (λ s, set_console (mkConsole (uart (console s)) i) s).

Definition input_available : M kernel bool := i ← gets (λ s, input (console s)); mret (negb (i_r i =? i_w i)).

Definition input_getc : M kernel u8 :=
  i ← gets (λ s, input (console s));
  c ← aget (i_buf i) (i_r i mod INPUT_BUF);
  r ← add_at USIZE_MAX (i_r i) 1;
  set_input (mkInput (i_buf i) r (i_w i) (i_e i));;
  mret c.

(** Store [b] at the edit position; it reports the new [Input]. *)
Definition input_store (b : u8) : M kernel Input :=
  i ← gets (λ s, input (console s));
  e ← add_at USIZE_MAX (i_e i) 1;
  let i' := mkInput (<[Z.to_nat (i_e i mod INPUT_BUF) := b]> (i_buf i)) (i_r i) (i_w i) e in
  set_input i';;
  mret i'.

Definition input_commit : M kernel unit :=
  i ← gets (λ s, input (console s));
  set_input (mkInput (i_buf i) (i_r i) (i_e i) (i_e i)).

Definition input_putc (b : u8) : M kernel bool :=
  let b := if b =? CR then NL else b in
  i ← gets (λ s, input (console s));
  if (b =? BACKSPACE) || (b =? DELETE) then
    (if negb (i_e i =? i_w i) then
       e ← sub_at USIZE_MAX (i_e i) 1;
       set_input (mkInput (i_buf i) (i_r i) (i_w i) e);;
       con_write_bytes [0x08; 0x20; 0x08]
     else mret tt);;
    mret false
  else
    d ← sub_at USIZE_MAX (i_e i) (i_r i);
    if INPUT_BUF <=? d then mret false
    else if b =? EOF then
      input_store b;; input_commit;; mret true
    else
      i ← input_store b;
      con_putc b;;
      d ← sub_at USIZE_MAX (i_e i) (i_r i);
      if (b =? NL) || (d =? INPUT_BUF) then input_commit;; mret true
      else mret false.

Definition intr_one (do_wakeup : bool) : M kernel (bool + bool) :=
  c ← con_getc;
  match c with
  | Some b => w ← input_putc b; mret (inl (do_wakeup || w))
  | None => mret (inr do_wakeup)
  end.

(** [console::intr] *)
Definition console_intr : M kernel unit :=
  acquire LConsole;;
  n ← gets (λ s, length (rx (uart (console s))));
  do_wakeup ← while_fuel (S n) intr_one false;
  release LConsole;;
  if (do_wakeup : bool) then wakeup InputChan else mret tt.

(** The loop of [console::read] over [(n, dst)]; a sleeping reader keeps both. *)
Definition console_read_one (a : Z * list u8) :
  M kernel (Z * list u8 + segment (Z * list u8) (isize * list u8)) :=
  let '(n, dst) := a in
  let finish (n : Z) (dst : list u8) : M kernel _ := release LConsole;; mret (inr (Return (as_isize n, dst))) in
  if n <? Z.of_nat (length dst) then
    ready ← input_available;
    if negb ready then mret (inr (Block InputChan LConsole (n, dst)))
    else
      c ← input_getc;
      if c =? EOF then
        (if 0 <? n then
           i ← gets (λ s, input (console s));
           r ← sub_at USIZE_MAX (i_r i) 1;
           set_input (mkInput (i_buf i) r (i_w i) (i_e i))
         else mret tt);;
        finish n dst
      else
        let dst := <[Z.to_nat n := c]> dst in
        n ← add_at USIZE_MAX n 1;
        if c =? NL then finish n dst
        else mret (inl (n, dst))
  else finish n dst.

Definition console_read_loop (n : Z) (dst : list u8) : M kernel (segment (Z * list u8) (isize * list u8)) :=
  while_fuel (S (length dst)) console_read_one (n, dst).

(** [console::read] *)
Definition console_read (dst : list u8) : M kernel (segment (Z * list u8) (isize * list u8)) :=
  match dst with
  | [] => mret (Return (0, dst))
  | _ => acquire LConsole;; console_read_loop 0 dst
  end.

(** [console::write_bytes] *)
Definition console_write_bytes (bs : list u8) : M kernel unit :=
  acquire LConsole;; con_write_bytes bs;; release LConsole.

(** ** The line discipline on byte lists

    [committed] bytes can be read, [editing] is the line being typed. *)

Record cooked := mkCooked { committed : list u8; editing : list u8 }.

Definition BUF : nat := Z.to_nat INPUT_BUF.

Definition size_of (c : cooked) : nat := length (committed c) + length (editing c).

Definition commit (c : cooked) : cooked := mkCooked (committed c ++ editing c) [].

Definition typed (b : u8) (c : cooked) : cooked := mkCooked (committed c) (editing c ++ [b]).

(** A received byte: the new buffer and whether readers are woken. *)
Definition cook (b : u8) (c : cooked) : cooked * bool :=
  let b := if b =? CR then NL else b in
  if (b =? BACKSPACE) || (b =? DELETE) then (mkCooked (committed c) (removelast (editing c)), false)
  else if decide (BUF ≤ size_of c)%nat then (c, false)
  else let c' := typed b c in
       if (b =? EOF) || (b =? NL) || bool_decide (size_of c' = BUF) then (commit c', true) else (c', false).

(** What one received byte echoes. *)
Definition echo (b : u8) (c : cooked) : list u8 :=
  let b := if b =? CR then NL else b in
  if (b =? BACKSPACE) || (b =? DELETE) then (match editing c with [] => [] | _ => [0x08; 0x20; 0x08] end)
  else if decide (BUF ≤ size_of c)%nat then []
  else if b =? EOF then [] else [b].

(** Reading up to [room] more bytes: the bytes delivered, what stays committed,
    and whether the call returns (otherwise it sleeps for more). *)
Fixpoint read_cooked (room : nat) (acc c : list u8) : list u8 * list u8 * bool :=
  match room with
  | O => (acc, c, true)
  | S room =>
      match c with
      | [] => (acc, [], false)
      | b :: c' =>
          if b =? EOF then (acc, match acc with [] => c' | _ => c end, true)
          else if b =? NL then (acc ++ [b], c', true)
          else read_cooked room (acc ++ [b]) c'
      end
  end.

(** ** The ring implements the line discipline *)

Record Input_ok (i : Input) : Prop := {
  io_len : length (i_buf i) = Z.to_nat INPUT_BUF;
  io_bytes : bytes_ok (i_buf i);
  io_r : 0 ≤ i_r i ≤ i_w i;
  io_w : i_w i ≤ i_e i ≤ i_r i + INPUT_BUF;
}.

Definition abs (i : Input) : cooked :=
  mkCooked (ring_seg INPUT_BUF (i_buf i) (i_r i) (i_w i)) (ring_seg INPUT_BUF (i_buf i) (i_w i) (i_e i)).

Lemma INPUT_BUF_eq : INPUT_BUF = 128.
Proof. done. Qed.
Lemma INPUT_BUF_pos : 0 < INPUT_BUF.
Proof. done. Qed.

Lemma size_abs i : Input_ok i → Z.of_nat (size_of (abs i)) = i_e i - i_r i.
Proof. intros [? ? ? ?]. unfold size_of, abs. cbn. rewrite !length_ring_seg. lia. Qed.

Definition con_state (s : kernel) : cooked := abs (input (console s)).

Definition put_con (u : Uart) (i : Input) (s : kernel) : kernel := set_console (mkConsole u i) s.

Lemma put_con_id s : put_con (uart (console s)) (input (console s)) s = s.
Proof. by destruct s as [????????? ?]; destruct console. Qed.

Lemma con_write_bytes_spec bs s :
  wp (con_write_bytes bs) s (λ _ s', s' = put_con (mkUart (rx (uart (console s))) (tx (uart (console s)) ++ bs))
                                          (input (console s)) s).
Proof.
  apply (wp_for_fold (λ pre _ s', s' = put_con (mkUart (rx (uart (console s))) (tx (uart (console s)) ++ pre))
                                    (input (console s)) s)).
  - rewrite app_nil_r. destruct s; cbn. by destruct console as [[]].
  - intros pre b post [] s' _ ->. unfold con_putc. wp_steps. by rewrite app_assoc.
  - by intros [] s' ->.
Qed.

(** [b] stored at the edit position. *)
Definition stored (b : u8) (i : Input) : Input :=
  mkInput (ring_put INPUT_BUF (i_buf i) (i_e i) b) (i_r i) (i_w i) (i_e i + 1).
Definition committed_input (i : Input) : Input := mkInput (i_buf i) (i_r i) (i_e i) (i_e i).

Lemma stored_ok b i :
  Input_ok i → byte_ok b → i_e i < i_r i + INPUT_BUF → Input_ok (stored b i) ∧ abs (stored b i) = typed b (abs i).
Proof.
  intros [Hl Hb Hr Hw] Hby Hlt. split.
  - constructor; cbn; [by rewrite length_ring_put|by apply ring_put_bytes|done|lia].
  - unfold abs, typed. cbn. f_equal; [apply (ring_seg_put _ INPUT_BUF_pos); [done|lia]|].
    apply (ring_seg_push _ INPUT_BUF_pos); [done|lia].
Qed.

Lemma commit_ok i : Input_ok i → Input_ok (committed_input i) ∧ abs (committed_input i) = commit (abs i).
Proof.
  intros [Hl Hb Hr Hw]. split; [constructor; cbn; done || lia|].
  unfold abs, commit. cbn. rewrite ring_seg_nil. f_equal. apply ring_seg_app. lia.
Qed.

Lemma input_store_spec b s :
  0 ≤ i_e (input (console s)) < USIZE_MAX →
  wp (input_store b) s (λ i s', i = stored b (input (console s)) ∧ s' = put_con (uart (console s)) i s).
Proof. intros He. unfold input_store. wp_steps. unfold set_input. by wp_steps. Qed.

Lemma input_commit_spec s :
  wp input_commit s (λ _ s', s' = put_con (uart (console s)) (committed_input (input (console s))) s).
Proof. unfold input_commit. wp_steps. unfold set_input. by wp_steps. Qed.

Lemma erase_ok i :
  Input_ok i → i_e i ≠ i_w i →
  let i' := mkInput (i_buf i) (i_r i) (i_w i) (i_e i - 1) in
  Input_ok i' ∧ abs i' = mkCooked (committed (abs i)) (removelast (editing (abs i))).
Proof.
  intros [Hl Hb Hr Hw] Hne. split; [constructor; cbn; done || lia|]. unfold abs. cbn. f_equal.
  replace (i_e i) with (i_e i - 1 + 1) at 2 by lia. by rewrite ring_seg_snoc, removelast_last by lia.
Qed.

Lemma input_putc_spec b s :
  Input_ok (input (console s)) → byte_ok b → i_e (input (console s)) < USIZE_MAX →
  wp (input_putc b) s (λ w s', ∃ i',
    s' = put_con (mkUart (rx (uart (console s))) (tx (uart (console s)) ++ echo b (con_state s))) i' s ∧
    Input_ok i' ∧ (abs i', w) = cook b (con_state s) ∧
    i_r i' = i_r (input (console s)) ∧ i_e i' ≤ i_e (input (console s)) + 1).
Proof.
  unfold con_state. destruct s as [h ps cp np ip ft pp [[u v] i] f m]. cbn [console uart input rx tx].
  intros Hok Hb He. pose proof (io_r i Hok). pose proof (io_w i Hok). pose proof (size_abs i Hok) as Hsz.
  unfold input_putc, cook, echo. set (c := if b =? CR then NL else b).
  assert (byte_ok c) as Hc by (unfold c; by destruct (b =? CR)).
  wp_step. wp_step. cbn [console input].
  destruct ((c =? BACKSPACE) || (c =? DELETE)) eqn:Hbs.
  { destruct (Z.eqb_spec (i_e i) (i_w i)) as [E|E]; cbn [negb].
    - wp_steps. assert (editing (abs i) = []) as Hnil by (cbn; rewrite E; apply ring_seg_nil).
      rewrite Hnil, app_nil_r. exists i. split_and!; [done|done| |done|lia]. destruct (abs i); cbn in Hnil; by subst.
    - destruct (erase_ok i Hok E) as [Hok' Habs]. wp_steps. unfold set_input. wp_step.
      wp_call con_write_bytes_spec. intros [] s' ->. wp_steps.
      destruct (editing (abs i)) eqn:Hed.
      { exfalso. apply (f_equal length) in Hed. cbn in Hed. rewrite length_ring_seg in Hed. lia. }
      exists (mkInput (i_buf i) (i_r i) (i_w i) (i_e i - 1)). split_and!; [done|done|by rewrite Habs|done|cbn; lia]. }
  assert (BUF = Z.to_nat INPUT_BUF) as EB by done. pose proof INPUT_BUF_pos.
  wp_step. wp_step. cbn [console input].
  destruct (Z.leb_spec INPUT_BUF (i_e i - i_r i)) as [Hfull|Hroom].
  { wp_steps. rewrite !decide_True by lia. exists i. rewrite app_nil_r. split_and!; [done|done|done|done|lia]. }
  rewrite !decide_False by lia.
  destruct (stored_ok c i Hok Hc ltac:(lia)) as [Hok' Habs']. destruct (commit_ok _ Hok') as [Hok'' Habs''].
  assert (Z.of_nat (size_of (typed c (abs i))) = i_e i + 1 - i_r i) as Hsz'
    by (rewrite <-Habs', size_abs by done; done).
  destruct (Z.eqb_spec c EOF) as [He'|He']; cbn [orb].
  { wp_call input_store_spec; [cbn; lia|]. intros i' s' [-> ->]. wp_call input_commit_spec. intros [] s' ->.
    wp_steps. rewrite app_nil_r. exists (committed_input (stored c i)). split_and!; [done|exact Hok''|by rewrite Habs'', Habs'|done|cbn; lia]. }
  wp_call input_store_spec; [cbn; lia|]. intros i' s' [-> ->]. wp_step. unfold con_putc. wp_steps.
  { cbn. lia. }
  cbn [stored i_e i_r console input].
  assert ((i_e i + 1 - i_r i =? INPUT_BUF) = bool_decide (size_of (typed c (abs i)) = BUF)) as ->.
  { destruct (Z.eqb_spec (i_e i + 1 - i_r i) INPUT_BUF); symmetry;
      [apply bool_decide_eq_true_2|apply bool_decide_eq_false_2]; lia. }
  destruct ((c =? NL) || _).
  - wp_call input_commit_spec. intros [] s' ->. wp_steps.
    exists (committed_input (stored c i)). split_and!; [done|exact Hok''|by rewrite Habs'', Habs'|done|cbn; lia].
  - wp_steps. exists (stored c i). split_and!; [done|exact Hok'|by rewrite Habs'|done|cbn; lia].
Qed.

(** Bytes received together. *)
Fixpoint cook_all (bs : list u8) (c : cooked) : cooked * bool :=
  match bs with
  | [] => (c, false)
  | b :: bs => let '(c', w) := cook b c in let '(c'', w') := cook_all bs c' in (c'', w || w')
  end.

Fixpoint echo_all (bs : list u8) (c : cooked) : list u8 :=
  match bs with
  | [] => []
  | b :: bs => echo b c ++ echo_all bs (cook b c).1
  end.

Lemma intr_loop_spec bs s w fuel :
  rx (uart (console s)) = bs → bytes_ok bs → (length bs < fuel)%nat →
  Input_ok (input (console s)) → i_e (input (console s)) + Z.of_nat (length bs) ≤ USIZE_MAX →
  wp (while_fuel fuel intr_one w) s (λ w' s', ∃ i',
    s' = put_con (mkUart [] (tx (uart (console s)) ++ echo_all bs (con_state s))) i' s ∧
    Input_ok i' ∧ i_r i' = i_r (input (console s)) ∧
    (abs i', w') = ((cook_all bs (con_state s)).1, w || (cook_all bs (con_state s)).2)).
Proof.
  revert s w fuel. induction bs as [|b bs IH]; intros s w [|fuel] Hrx Hb Hf Hok He; try (cbn in Hf; lia);
    cbn [while_fuel]; wp_step; unfold intr_one at 1, con_getc; wp_steps; rewrite Hrx.
  - wp_steps. exists (input (console s)). rewrite app_nil_r, orb_false_r. split_and!; try done.
    rewrite <-Hrx. destruct s as [???????[[] ?]??]; done.
  - apply Forall_cons in Hb as [Hb Hbs]. wp_steps. cbn [length] in He, Hf.
    wp_call input_putc_spec; [done|done|cbn; lia|]. intros w' s' (i' & -> & Hok' & Hc & Hr & He'). wp_steps.
    cbn in Hr, He'. eapply wp_mono; [apply IH|]; cbn; [done|done|lia|done|lia|].
    intros w'' s' (i'' & -> & Hok'' & Hr' & Hc'). exists i''.
    unfold con_state in *. cbn in Hc, Hr', Hc' |- *. rewrite <-Hc. cbn. rewrite Hc'.
    split_and!; [by rewrite app_assoc|done|congruence|].
    destruct (cook_all bs (abs i')) as [c2 w2]. cbn. by rewrite orb_assoc.
Qed.

Lemma console_intr_spec s :
  held s = [] → length (procs s) = Z.to_nat NPROC → Input_ok (input (console s)) →
  bytes_ok (rx (uart (console s))) →
  i_e (input (console s)) + Z.of_nat (length (rx (uart (console s)))) ≤ USIZE_MAX →
  wp console_intr s (λ _ s', ∃ i' s1,
    s1 = put_con (mkUart [] (tx (uart (console s)) ++ echo_all (rx (uart (console s))) (con_state s))) i' s ∧
    Input_ok i' ∧ i_r i' = i_r (input (console s)) ∧
    abs i' = (cook_all (rx (uart (console s))) (con_state s)).1 ∧
    s' = if (cook_all (rx (uart (console s))) (con_state s)).2 then woken InputChan s1 else s1).
Proof.
  intros Hh Hp Hok Hb He. unfold console_intr. wp_step. apply wp_acquire; [rewrite Hh; apply not_elem_of_nil|].
  wp_step. wp_step. wp_call intr_loop_spec; [done|done|cbn; lia|done|done|].
  intros w s' (i' & -> & Hok' & Hr & Hc). unfold con_state in *. cbn in Hr, Hc. injection Hc as Hc ->.
  wp_step. eapply wp_release; [done|cbn in *; rewrite Hh; apply not_elem_of_nil|].
  destruct (cook_all _ _) as [c' w'] eqn:E. cbn [fst snd orb] in *.
  destruct w'.
  - wp_call wakeup_spec; [intros i; cbn in *; rewrite Hh; apply not_elem_of_nil|done|].
    intros [] s' ->. exists i'. eexists. split_and!; [done..|]. destruct s; cbn in *; by subst.
  - wp_steps. exists i'. eexists. split_and!; [done..|]. destruct s; cbn in *; by subst.
Qed.

(** ** Reading *)

Definition consumed (k : Z) (i : Input) : Input := mkInput (i_buf i) (i_r i + k) (i_w i) (i_e i).

Lemma consumed_ok k i :
  Input_ok i → 0 ≤ k ≤ i_w i - i_r i →
  Input_ok (consumed k i) ∧
  abs (consumed k i) = mkCooked (drop (Z.to_nat k) (committed (abs i))) (editing (abs i)).
Proof.
  intros [Hl Hb Hr Hw] Hk. split; [constructor; cbn; done || lia|].
  unfold abs. cbn. f_equal. by apply ring_seg_drop.
Qed.

Lemma input_getc_spec i b c s :
  input (console s) = i → Input_ok i → committed (abs i) = b :: c → i_w i ≤ USIZE_MAX →
  wp input_getc s (λ r s', r = b ∧ s' = put_con (uart (console s)) (consumed 1 i) s ∧
    Input_ok (consumed 1 i) ∧ abs (consumed 1 i) = mkCooked c (editing (abs i))).
Proof.
  intros <- Hok Hc Hmax. set (i := input (console s)) in *. pose proof (io_r i Hok).
  assert (i_r i < i_w i) as Hlt.
  { apply (f_equal length) in Hc. cbn in Hc. rewrite length_ring_seg in Hc. lia. }
  destruct (consumed_ok 1 i Hok ltac:(lia)) as [Hok' Habs].
  pose proof Hc as Hc'. cbn in Hc'. rewrite ring_seg_cons in Hc' by lia. injection Hc' as Hb Hc'.
  unfold input_getc. wp_steps. fold i. eapply wp_aget; [by apply Z.mod_pos_bound
    |apply (ring_get_lookup _ INPUT_BUF_pos); apply Hok|].
  wp_step. wp_step. wp_step. unfold set_input. wp_steps. split_and!; [done|done|done|].
  rewrite Habs, Hc. done.
Qed.

(** A reader that has [acc] so far: [n] counts it and the buffer starts with it. *)
Definition filled (acc dst : list u8) : list u8 := acc ++ drop (length acc) dst.

Lemma filled_snoc acc dst b :
  (length acc < length dst)%nat →
  <[length acc := b]> (filled acc dst) = filled (acc ++ [b]) dst.
Proof.
  intros Hl. unfold filled. destruct (lookup_lt_is_Some_2 dst (length acc) Hl) as [x Hx].
  rewrite insert_app_r_alt, Nat.sub_diag by lia. rewrite (drop_S _ _ _ Hx), length_app, Nat.add_1_r. cbn.
  by rewrite <-app_assoc.
Qed.

Lemma length_filled acc dst : (length acc ≤ length dst)%nat → length (filled acc dst) = length dst.
Proof. intros. unfold filled. rewrite length_app, length_drop. lia. Qed.

Lemma unget_consumed i : mkInput (i_buf i) (i_r i + 1 - 1) (i_w i) (i_e i) = i.
Proof. destruct i; cbn. f_equal. lia. Qed.

Lemma console_loop_spec room acc dst s fuel :
  (length acc + room = length dst)%nat → (room < fuel)%nat → Z.of_nat (length dst) ≤ ISIZE_MAX →
  held s = [LConsole] → Input_ok (input (console s)) → i_w (input (console s)) ≤ USIZE_MAX →
  wp (while_fuel fuel console_read_one (Z.of_nat (length acc), filled acc dst)) s (λ r s',
    let '(acc', rest, fin) := read_cooked room acc (committed (con_state s)) in
    ∃ i', Input_ok i' ∧ abs i' = mkCooked rest (editing (con_state s)) ∧
    if (fin : bool)
    then r = Return (Z.of_nat (length acc'), filled acc' dst) ∧
         s' = set_held [] (put_con (uart (console s)) i' s)
    else r = Block InputChan LConsole (Z.of_nat (length acc'), filled acc' dst) ∧
         s' = put_con (uart (console s)) i' s).
Proof.
  revert acc s fuel. unfold con_state. induction room as [|room IH]; intros acc s [|fuel] Hl Hf Hd Hh Hok Hmax;
    try lia; cbn [while_fuel read_cooked]; wp_step; unfold console_read_one at 1;
    rewrite length_filled by lia.
  - rewrite (proj2 (Z.ltb_ge _ _)) by lia. wp_step. eapply wp_release; [done|apply not_elem_of_nil|]. wp_steps.
    exists (input (console s)). rewrite as_isize_small by lia. rewrite put_con_id.
    split_and!; [done|by destruct (abs _)|done|done].
  - rewrite (proj2 (Z.ltb_lt _ _)) by lia. wp_step. unfold input_available. wp_steps.
    destruct (committed (abs (input (console s)))) as [|b c] eqn:Hc.
    + assert (i_r (input (console s)) = i_w (input (console s))) as ->.
      { pose proof (io_r _ Hok). apply (f_equal length) in Hc. cbn in Hc. rewrite length_ring_seg in Hc. lia. }
      rewrite Z.eqb_refl. cbn [negb]. wp_steps. exists (input (console s)). rewrite put_con_id.
      split_and!; [done| |done|done]. rewrite <-Hc. by destruct (abs _).
    + rewrite (proj2 (Z.eqb_neq _ _)).
      2: { intros E. cbn in Hc. rewrite E, ring_seg_nil in Hc. done. }
      cbn [negb]. wp_call input_getc_spec; [done|done|done|done|]. intros r s' (-> & -> & Hok' & Habs).
      destruct (Z.eqb_spec b EOF) as [->|HE].
      * destruct acc as [|x acc]; [change (0 <? Z.of_nat (@length u8 [])) with false|
          rewrite (proj2 (Z.ltb_lt _ _)) by (cbn [length]; lia)].
        -- wp_steps. eapply wp_release; [done|apply not_elem_of_nil|]. wp_steps.
           exists (consumed 1 (input (console s))). by split_and!.
        -- wp_step. wp_step. wp_step. wp_step. wp_step; [pose proof (io_r _ Hok); cbn; lia|]. unfold set_input.
           wp_steps. eapply wp_release; [done|apply not_elem_of_nil|]. wp_steps.
           rewrite as_isize_small by lia. exists (input (console s)).
           split_and!; [done|rewrite <-Hc; by destruct (abs _)|done|]. cbn [put_con console input set_console consumed i_buf i_r i_w i_e uart].
           by rewrite unget_consumed.
      * wp_step. wp_step; [unfold ISIZE_MAX, USIZE_MAX in *; lia|].
        rewrite Nat2Z.id, filled_snoc by lia.
        replace (Z.of_nat (length acc) + 1) with (Z.of_nat (length (acc ++ [b]))) by (rewrite length_app; cbn; lia).
        assert (length (acc ++ [b]) = S (length acc)) as Hl' by (rewrite length_app; cbn; lia).
        destruct (b =? NL).
        -- wp_step. eapply wp_release; [done|apply not_elem_of_nil|]. wp_steps.
           rewrite as_isize_small by lia. exists (consumed 1 (input (console s))). by split_and!.
        -- wp_steps. wp_call (IH (acc ++ [b])); [lia|lia|done|done|done|done|]. cbn [console input put_con set_console].
           rewrite Habs. cbn [committed editing]. intros r s'.
           destruct (read_cooked room (acc ++ [b]) c) as [[acc' rest] fin]. intros (i' & ? & ? & Hr).
           exists i'. split_and!; [done|done|]. destruct fin; destruct Hr as [-> ->]; done.
Qed.

Lemma console_read_loop_spec acc dst s :
  (length acc ≤ length dst)%nat → Z.of_nat (length dst) ≤ ISIZE_MAX →
  held s = [LConsole] → Input_ok (input (console s)) → i_w (input (console s)) ≤ USIZE_MAX →
  wp (console_read_loop (Z.of_nat (length acc)) (filled acc dst)) s (λ r s',
    let '(acc', rest, fin) := read_cooked (length dst - length acc) acc (committed (con_state s)) in
    ∃ i', Input_ok i' ∧ abs i' = mkCooked rest (editing (con_state s)) ∧
    if (fin : bool)
    then r = Return (Z.of_nat (length acc'), filled acc' dst) ∧
         s' = set_held [] (put_con (uart (console s)) i' s)
    else r = Block InputChan LConsole (Z.of_nat (length acc'), filled acc' dst) ∧
         s' = put_con (uart (console s)) i' s).
Proof.
  intros. unfold console_read_loop. apply console_loop_spec; [lia|rewrite length_filled by lia; lia|done..].
Qed.

(** ** Theorems *)

Lemma console_read_spec s dst :
  dst ≠ [] → held s = [] → Z.of_nat (length dst) ≤ ISIZE_MAX →
  Input_ok (input (console s)) → i_w (input (console s)) ≤ USIZE_MAX →
  wp (console_read dst) s (λ r s',
    let '(acc, rest, fin) := read_cooked (length dst) [] (committed (con_state s)) in
    con_state s' = mkCooked rest (editing (con_state s)) ∧ uart (console s') = uart (console s) ∧
    held s' = (if (fin : bool) then [] else [LConsole]) ∧
    r = (if fin then Return else Block InputChan LConsole) (Z.of_nat (length acc), filled acc dst)).
Proof.
  intros Hne Hh Hd Hok Hw. destruct dst as [|x dst]; [done|]. unfold console_read. wp_step.
  apply wp_acquire; [rewrite Hh; apply not_elem_of_nil|].
  wp_call (console_read_loop_spec [] (x :: dst)); [cbn; lia|done|cbn in *; by rewrite Hh|done|done|].
  intros r s'. change (con_state _) with (con_state s) at 1. rewrite Nat.sub_0_r.
  destruct (read_cooked _ _ _) as [[acc rest] fin]. intros (i' & _ & Habs & Hend).
  destruct fin; destruct Hend as [-> ->]; (split_and!; [exact Habs|done| |done]); [done|cbn in *; by rewrite Hh].
Qed.

Definition ordinary (b : u8) : Prop :=
  byte_ok b ∧ b ≠ CR ∧ b ≠ NL ∧ b ≠ BACKSPACE ∧ b ≠ DELETE ∧ b ≠ EOF.

Lemma cook_ordinary b c :
  ordinary b → (size_of c + 1 < BUF)%nat → cook b c = (typed b c, false) ∧ echo b c = [b].
Proof.
  intros (_ & Hcr & Hnl & Hbs & Hdel & Heof) Hsz.
  assert (size_of (typed b c) = S (size_of c)) as Hs
    by (unfold size_of, typed; cbn [committed editing]; rewrite length_app; cbn; lia).
  unfold cook, echo. rewrite (proj2 (Z.eqb_neq _ _) Hcr), (proj2 (Z.eqb_neq _ _) Hbs), (proj2 (Z.eqb_neq _ _) Hdel).
  cbn [orb]. rewrite !decide_False by lia. rewrite (proj2 (Z.eqb_neq _ _) Heof), (proj2 (Z.eqb_neq _ _) Hnl).
  cbn [orb]. rewrite bool_decide_eq_false_2 by lia. done.
Qed.

Lemma cook_line l c :
  Forall ordinary l → (size_of c + length l < BUF)%nat →
  cook_all (l ++ [CR]) c = (mkCooked (committed c ++ editing c ++ l ++ [NL]) [], true) ∧
  echo_all (l ++ [CR]) c = l ++ [NL].
Proof.
  intros Hl. revert c. induction Hl as [|b l Hb Hl IH]; intros c Hsz; cbn [app cook_all echo_all length] in *.
  - unfold cook, echo. change (CR =? CR) with true. cbn match. change ((NL =? BACKSPACE) || (NL =? DELETE)) with false.
    cbn match. rewrite !decide_False by lia. change ((NL =? EOF) || (NL =? NL)) with true. cbn.
    split; [|done]. unfold commit, typed. cbn. done.
  - destruct (cook_ordinary b c Hb ltac:(lia)) as [-> ->]. cbn [fst].
    destruct (IH (typed b c)) as [-> ->].
    { unfold size_of, typed in *. cbn in *. rewrite length_app. cbn. lia. }
    unfold typed. cbn. by rewrite <-!app_assoc.
Qed.

Lemma read_line l acc rest room :
  Forall ordinary l → (length l < room)%nat →
  read_cooked room acc (l ++ NL :: rest) = (acc ++ l ++ [NL], rest, true).
Proof.
  intros Hl. revert acc room. induction Hl as [|b l (_ & Hcr & Hnl & _ & _ & Heof) Hl IH]; intros acc [|room] Hr;
    cbn [length] in Hr; try lia; cbn [app read_cooked].
  - done.
  - rewrite (proj2 (Z.eqb_neq _ _) Heof), (proj2 (Z.eqb_neq _ _) Hnl), IH by lia. by rewrite <-app_assoc.
Qed.

(** The console interrupt implements the line discipline: whatever bytes the
    device received, the ring holds what editing the byte lists gives (erasing,
    dropping when full, committing at a newline, end-of-file or a full buffer),
    the echo is the specified one, and readers are woken exactly when something
    was committed. *)
Theorem console_intr_refines s :
  held s = [] → length (procs s) = Z.to_nat NPROC → Input_ok (input (console s)) →
  bytes_ok (rx (uart (console s))) →
  i_e (input (console s)) + Z.of_nat (length (rx (uart (console s)))) ≤ USIZE_MAX →
  wp console_intr s (λ _ s', let bs := rx (uart (console s)) in
    Input_ok (input (console s')) ∧ con_state s' = (cook_all bs (con_state s)).1 ∧
    uart (console s') = mkUart [] (tx (uart (console s)) ++ echo_all bs (con_state s)) ∧
    procs s' = if (cook_all bs (con_state s)).2 then wake InputChan (procs s) else procs s).
Proof.
  intros Hh Hp Hok Hb He. wp_call console_intr_spec; [done..|]. intros [] s' (i' & s1 & -> & Hok' & _ & Habs & ->).
  cbn zeta. destruct (cook_all _ _).2; (split_and!; [exact Hok'|exact Habs|done|done]).
Qed.

(** Reading the console delivers the committed bytes in order, up to and
    including the first newline; an end-of-file mark ends the call (it is
    consumed only by a call that delivers nothing), and the call sleeps exactly
    when the committed bytes run out first, keeping what it has. *)
Theorem console_read_refines s dst :
  dst ≠ [] → held s = [] → Z.of_nat (length dst) ≤ ISIZE_MAX →
  Input_ok (input (console s)) → i_w (input (console s)) ≤ USIZE_MAX →
  wp (console_read dst) s (λ r s',
    let '(acc, rest, fin) := read_cooked (length dst) [] (committed (con_state s)) in
    con_state s' = mkCooked rest (editing (con_state s)) ∧ uart (console s') = uart (console s) ∧
    held s' = (if (fin : bool) then [] else [LConsole]) ∧
    r = (if fin then Return else Block InputChan LConsole) (Z.of_nat (length acc), filled acc dst)).
Proof. apply console_read_spec. Qed.

(** A typed line is read back: the bytes of a line and a carriage return,
    received into an empty buffer, are echoed, and the next read returns the line
    with its newline and leaves the buffer empty. *)
Theorem typed_line_read s l dst :
  Forall ordinary l → (length l < BUF)%nat → (length l < length dst)%nat →
  Z.of_nat (length dst) ≤ ISIZE_MAX →
  held s = [] → length (procs s) = Z.to_nat NPROC → Input_ok (input (console s)) →
  con_state s = mkCooked [] [] → rx (uart (console s)) = l ++ [CR] →
  i_e (input (console s)) + INPUT_BUF ≤ USIZE_MAX →
  wp (console_intr;; console_read dst) s (λ r s',
    r = Return (Z.of_nat (length l) + 1, filled (l ++ [NL]) dst) ∧
    con_state s' = mkCooked [] [] ∧ tx (uart (console s')) = tx (uart (console s)) ++ l ++ [NL]).
Proof.
  intros Hl Hbuf Hd Hmax Hh Hp Hok Hc Hrx He. pose proof INPUT_BUF_eq as EB.
  assert (BUF = 128%nat) as EB' by done.
  assert (bytes_ok (l ++ [CR])) as Hb.
  { apply Forall_app. split; [|by repeat constructor]. eapply Forall_impl; [exact Hl|]. by intros b [? _]. }
  destruct (cook_line l (mkCooked [] []) Hl) as [Hcook Hecho]; [cbn; lia|].
  wp_call console_intr_spec; [done|done|done|by rewrite Hrx|rewrite Hrx, length_app; cbn; lia|].
  intros [] s1 (i' & s2 & -> & Hok' & Hr & Habs & ->). rewrite Hrx, Hc, Hcook, Hecho in *. cbn [fst snd] in *.
  wp_call console_read_spec; [intros ->; cbn in Hd; lia|done|done|done| |].
  { pose proof (io_w _ Hok'). pose proof (io_w _ Hok). pose proof (io_r _ Hok). cbn. lia. }
  intros r s'. rewrite (Habs : con_state (woken InputChan (put_con _ i' s)) = _). cbn [committed editing app].
  rewrite (read_line l [] [] (length dst) Hl Hd). intros (Hc' & Hu & _ & ->).
  rewrite Hu. split_and!; [|done|done]. cbn [app]. by rewrite length_app, Nat2Z.inj_add.
Qed.

(** ** Witnesses *)

Definition con_kernel (bs : list u8) : kernel := {|
  k_held := []; procs := replicate (Z.to_nat NPROC) Process_unused;
  cpu_proc := None; next_pid := 1; initproc := None; ftable := []; pipes := [];
  console := mkConsole (mkUart bs []) Input_new;
  k_fs := mkFs [] [] [] []; k_ram := mkMachine ∅ 0 [];
|}.

Lemma Input_new_ok : Input_ok Input_new.
Proof. by repeat constructor. Qed.

Lemma console_intr_refines_witness :
  wp console_intr (con_kernel (bytes_of_string "ab")) (λ _ s',
    Input_ok (input (console s')) ∧
    con_state s' = (cook_all (bytes_of_string "ab") (con_state (con_kernel (bytes_of_string "ab")))).1 ∧
    uart (console s') = mkUart [] (echo_all (bytes_of_string "ab") (con_state (con_kernel (bytes_of_string "ab")))) ∧
    procs s' = procs (con_kernel [])).
Proof.
  apply (console_intr_refines (con_kernel (bytes_of_string "ab"))); [done|done|exact Input_new_ok
    |by repeat constructor|done].
Defined.

Lemma console_read_refines_witness :
  wp (console_read [0; 0]) (con_kernel []) (λ r s',
    con_state s' = con_state (con_kernel []) ∧ uart (console s') = mkUart [] [] ∧ held s' = [LConsole] ∧
    r = Block InputChan LConsole (0, [0; 0])).
Proof. apply (console_read_refines (con_kernel []) [0; 0]); [done|done|done|exact Input_new_ok|done]. Defined.

Lemma typed_line_read_witness :
  wp (console_intr;; console_read (replicate 8 0)) (con_kernel (bytes_of_string "ls" ++ [CR])) (λ r s',
    r = Return (3, bytes_of_string "ls" ++ [NL; 0; 0; 0; 0; 0]) ∧
    con_state s' = mkCooked [] [] ∧ tx (uart (console s')) = bytes_of_string "ls" ++ [NL]).
Proof.
  apply (typed_line_read (con_kernel (bytes_of_string "ls" ++ [CR])) (bytes_of_string "ls") (replicate 8 0));
    [by repeat constructor|vm_compute; lia|cbn; lia|done|done|done|exact Input_new_ok|done|done|done].
Defined.

(** Editing, erasing and end of file, run on the code. *)
Example console_run :
  (let m := console_intr;; console_read (replicate 4 0) in
   match m (con_kernel (bytes_of_string "lx" ++ [DELETE] ++ bytes_of_string "s" ++ [CR; EOF])) with
   | Ok (r, s') => (r, tx (uart (console s')), committed (con_state s'))
   | Fault _ => (Return (-1, []), [], [])
   end) =
  (Return (3, bytes_of_string "ls" ++ [NL; 0]), bytes_of_string "lx" ++ [8; 32; 8] ++ bytes_of_string "s" ++ [NL], [EOF]).
Proof. by vm_compute. Qed.
