(* ===== verification/Uart.v ===== *)
(** * The serial driver (src/src/uart.rs)

    The driver over the registers of a 16550 device.  The device is a parameter:
    the class [Uart16550] states what its documentation says of the registers
    the driver touches.  The driver implements what the console relies on, a
    queue of received and a log of transmitted bytes ([Kernel.Uart]). *)

From S2P Require Import Prelude Kernel Console.

(** ** Operations *)

Definition THR : usize := 0.
Definition RBR : usize := 0.
Definition IER : usize := 1.
Definition FCR : usize := 2.
Definition LCR : usize := 3.
Definition LSR : usize := 5.

Definition LCR_BAUD_LATCH : u8 := Z.shiftl 1 7.
Definition LCR_EIGHT_BITS : u8 := 3.
Definition FCR_FIFO_ENABLE : u8 := Z.shiftl 1 0.
Definition FCR_FIFO_CLEAR : u8 := Z.shiftl 3 1.
Definition LSR_RX_READY : u8 := Z.shiftl 1 0.
Definition LSR_TX_IDLE : u8 := Z.shiftl 1 5.
Definition IER_RX_ENABLE : u8 := Z.shiftl 1 0.

(** Accesses to the device's registers, with their side effects. *)
Class Mmio (D : Type) := {
  dev_read : usize → D → u8 * D;
  dev_write : usize → u8 → D → D;
}.

Section driver.
Context {D : Type} `{!Mmio D}.

Definition read (off : usize) : M D u8 := λ d, Ok (dev_read off d).
Definition write (off : usize) (v : u8) : M D unit := λ d, Ok (tt, dev_write off v d).

Definition init : M D unit :=
  write IER 0x00;;
  write LCR LCR_BAUD_LATCH;;
  write 0 0x03;;
  write 1 0x00;;
  write LCR LCR_EIGHT_BITS;;
  write FCR (Z.lor FCR_FIFO_ENABLE FCR_FIFO_CLEAR);;
  write IER IER_RX_ENABLE.

Definition getc : M D (option u8) :=
  s ← read LSR;
  if Z.land s LSR_RX_READY =? 0 then mret None
  else b ← read RBR; mret (Some b).

(** Polling is bounded by [fuel]: how often the device may report that it is
    still sending. *)
Definition putc (fuel : nat) (c : u8) : M D unit :=
  while_fuel fuel (λ _ : unit,
    s ← read LSR;
    if Z.land s LSR_TX_IDLE =? 0 then mret (inl tt) else mret (inr tt)) tt;;
  write THR c.

(** [fmt::Write::write_str] *)
Definition write_str (fuel : nat) (s : list u8) : M D unit := for_fold s (λ b _, putc fuel b) tt.
End driver.

(** ** The device *)

(** [rbr] is the receive queue, [sent_bytes] what has left the transmitter, and
    [busy] for how many more reads of the status register it reports that it is
    sending; [lcr], [ier] and [divisor] are the programmed registers.  Bit 7 of
    the line control register switches the first two registers to the divisor. *)
Class Uart16550 (D : Type) `{!Mmio D} := {
  rbr : D → list u8;
  sent_bytes : D → list u8;
  busy : D → nat;
  lcr : D → u8;
  ier : D → u8;
  divisor : D → Z;
  fifo : D → bool;
  lsr_status d : let '(v, d') := dev_read LSR d in
    (Z.testbit v 0 = true ↔ rbr d ≠ []) ∧ (Z.testbit v 5 = true ↔ busy d = 0%nat) ∧
    rbr d' = rbr d ∧ sent_bytes d' = sent_bytes d ∧ busy d' = Nat.pred (busy d) ∧
    lcr d' = lcr d ∧ ier d' = ier d ∧ divisor d' = divisor d ∧ fifo d' = fifo d;
  rbr_read d b l : Z.testbit (lcr d) 7 = false → rbr d = b :: l →
    let '(v, d') := dev_read RBR d in
    v = b ∧ rbr d' = l ∧ sent_bytes d' = sent_bytes d ∧ busy d' = busy d ∧
    lcr d' = lcr d ∧ ier d' = ier d ∧ divisor d' = divisor d ∧ fifo d' = fifo d;
  thr_write c d : Z.testbit (lcr d) 7 = false → busy d = 0%nat →
    let d' := dev_write THR c d in
    rbr d' = rbr d ∧ sent_bytes d' = sent_bytes d ++ [c] ∧
    lcr d' = lcr d ∧ ier d' = ier d ∧ divisor d' = divisor d ∧ fifo d' = fifo d;
  lcr_write v d : let d' := dev_write LCR v d in
    lcr d' = v ∧ rbr d' = rbr d ∧ sent_bytes d' = sent_bytes d ∧ ier d' = ier d ∧ divisor d' = divisor d ∧ fifo d' = fifo d;
  dll_write v d : Z.testbit (lcr d) 7 = true →
    let d' := dev_write 0 v d in
    divisor d' = Z.lor (Z.land (divisor d) 0xff00) v ∧
    lcr d' = lcr d ∧ rbr d' = rbr d ∧ sent_bytes d' = sent_bytes d ∧ ier d' = ier d ∧ fifo d' = fifo d;
  dlm_write v d : Z.testbit (lcr d) 7 = true →
    let d' := dev_write 1 v d in
    divisor d' = Z.lor (Z.land (divisor d) 0xff) (Z.shiftl v 8) ∧
    lcr d' = lcr d ∧ rbr d' = rbr d ∧ sent_bytes d' = sent_bytes d ∧ ier d' = ier d ∧ fifo d' = fifo d;
  ier_write v d : Z.testbit (lcr d) 7 = false →
    let d' := dev_write IER v d in
    ier d' = v ∧ lcr d' = lcr d ∧ rbr d' = rbr d ∧ sent_bytes d' = sent_bytes d ∧ divisor d' = divisor d ∧ fifo d' = fifo d;
  fcr_write v d :
    let d' := dev_write FCR v d in
    fifo d' = Z.testbit v 0 ∧ rbr d' = (if Z.testbit v 1 then [] else rbr d) ∧
    lcr d' = lcr d ∧ ier d' = ier d ∧ sent_bytes d' = sent_bytes d ∧ divisor d' = divisor d;
}.

(** ** The driver implements the console's device *)

Section refine.
Context {D : Type} `{!Mmio D} `{U : !Uart16550 D}.
Implicit Types d : D.

(** As [init] leaves it: eight bits without parity at divisor 3, queues enabled,
    an interrupt for each received byte. *)
Definition configured d : Prop := lcr d = LCR_EIGHT_BITS ∧ ier d = IER_RX_ENABLE ∧ divisor d = 3 ∧ fifo d = true.

Definition abs d : Uart := mkUart (rbr d) (sent_bytes d).

Lemma land_shifted_bit v n : 0 ≤ n → (Z.land v (Z.shiftl 1 n) =? 0) = negb (Z.testbit v n).
Proof.
  intros Hn. destruct (Z.testbit v n) eqn:Hv; cbn [negb].
  - apply Z.eqb_neq. intros H. apply (f_equal (λ z, Z.testbit z n)) in H.
    rewrite Z.land_spec, Z.shiftl_spec, Z.sub_diag, Hv, Z.testbit_0_l in H by lia. done.
  - apply Z.eqb_eq, Z.bits_inj'. intros m Hm. rewrite Z.land_spec, Z.shiftl_spec, Z.testbit_0_l by lia.
    destruct (decide (m = n)) as [->|Hne]; [by rewrite Hv|]. rewrite andb_comm.
    destruct (Z.ltb_spec m n); [by rewrite (Z.testbit_neg_r 1) by lia|].
    replace (Z.testbit 1 (m - n)) with false; [done|]. symmetry. apply (Z.pow2_bits_false 0). lia.
Qed.

Lemma configured_dlab d : configured d → Z.testbit (lcr d) 7 = false.
Proof. by intros (-> & _). Qed.

Lemma init_spec d :
  wp init d (λ _ d', configured d' ∧ abs d' = mkUart [] (sent_bytes d)).
Proof.
  unfold init. set (d1 := dev_write IER 0 d).
  assert (sent_bytes d1 = sent_bytes d) as H1.
  { subst d1. destruct (Z.testbit (lcr d) 7) eqn:H7.
    - apply (dlm_write 0 d) in H7. tauto.
    - apply (ier_write 0 d) in H7. tauto. }
  set (d2 := dev_write LCR LCR_BAUD_LATCH d1). pose proof (lcr_write LCR_BAUD_LATCH d1) as H2. cbn zeta in H2. fold d2 in H2.
  assert (Z.testbit (lcr d2) 7 = true) as L2 by (by destruct H2 as [-> _]).
  set (d3 := dev_write 0 3 d2). pose proof (dll_write 3 d2 L2) as H3. cbn zeta in H3. fold d3 in H3.
  assert (Z.testbit (lcr d3) 7 = true) as L3 by (by destruct H3 as (_ & -> & _)).
  set (d4 := dev_write 1 0 d3). pose proof (dlm_write 0 d3 L3) as H4. cbn zeta in H4. fold d4 in H4.
  set (d5 := dev_write LCR LCR_EIGHT_BITS d4). pose proof (lcr_write LCR_EIGHT_BITS d4) as H5. cbn zeta in H5. fold d5 in H5.
  set (v := Z.lor FCR_FIFO_ENABLE FCR_FIFO_CLEAR).
  set (d6 := dev_write FCR v d5). pose proof (fcr_write v d5) as H6. cbn zeta in H6. fold d6 in H6.
  assert (lcr d6 = LCR_EIGHT_BITS) as L6 by (destruct H5 as (? & _), H6 as (_ & _ & ? & _); congruence).
  pose proof (ier_write IER_RX_ENABLE d6 ltac:(by rewrite L6)) as H7. cbn zeta in H7.
  change (configured (dev_write IER IER_RX_ENABLE d6) ∧ abs (dev_write IER IER_RX_ENABLE d6) = mkUart [] (sent_bytes d)).
  generalize dependent (dev_write IER IER_RX_ENABLE d6). intros d7 H7.
  destruct H2 as (_ & _ & S2 & _), H3 as (E3 & _ & _ & S3 & _), H4 as (E4 & _ & _ & S4 & _), H5 as (_ & _ & S5 & _ & E5 & _),
    H6 as (F6 & R6 & _ & _ & S6 & E6), H7 as (I7 & L7 & R7 & S7 & E7 & F7).
  change (Z.testbit v 1) with true in R6. cbn match in R6.
  split; [split_and!|unfold abs; f_equal; congruence]; [congruence|done| |by rewrite F7, F6].
  rewrite E7, E6, E5, E4, E3. rewrite Z.shiftl_0_l, Z.lor_0_r, Z.land_lor_distr_l, <-Z.land_assoc.
  change (Z.land 65280 255) with 0. by rewrite Z.land_0_r.
Qed.

Lemma getc_spec d :
  configured d → wp getc d (λ r d', configured d' ∧ busy d' = Nat.pred (busy d) ∧
    r = head (rx (abs d)) ∧ abs d' = mkUart (tail (rx (abs d))) (tx (abs d))).
Proof.
  intros Hc. unfold getc, wp, mbind, M_bind, read. pose proof (lsr_status d) as Hs. destruct (dev_read LSR d) as [v d1].
  destruct Hs as (Hrx & _ & R1 & S1 & B1 & L1 & I1 & E1 & F1). unfold LSR_RX_READY. rewrite land_shifted_bit by lia.
  assert (configured d1) as Hc1 by (unfold configured in *; by rewrite L1, I1, E1, F1).
  unfold abs in *. cbn [rx tx] in *. destruct (Z.testbit v 0); cbn [negb].
  - destruct (rbr d) as [|b l] eqn:Hr; [by destruct (proj1 Hrx eq_refl)|].
    pose proof (rbr_read d1 b l (configured_dlab _ Hc1)) as H. destruct (dev_read RBR d1) as [b' d2].
    destruct (H ltac:(congruence)) as (-> & R2 & S2 & B2 & L2 & I2 & E2 & F2). cbn.
    split_and!; [unfold configured in *; by rewrite L2, I2, E2, F2|congruence|done|congruence].
  - assert (rbr d = []) as Hr by (destruct (rbr d); [done|]; by destruct Hrx as [_ Hrx]; specialize (Hrx ltac:(done))).
    cbn. split_and!; [done|done|by rewrite Hr|rewrite Hr; cbn; congruence].
Qed.

Lemma putc_spec fuel c d :
  configured d → (busy d < fuel)%nat →
  wp (putc fuel c) d (λ _ d', configured d' ∧ abs d' = mkUart (rx (abs d)) (tx (abs d) ++ [c])).
Proof.
  intros Hc Hf. unfold putc. apply wp_bind.
  apply (wp_while_bound (λ n _ d1, n = busy d1 ∧ configured d1 ∧ abs d1 = abs d) _ _ (busy d)); [|done|done].
  intros n [] d1 (-> & Hc1 & Ha). unfold wp, mbind, M_bind, read. pose proof (lsr_status d1) as Hs.
  destruct (dev_read LSR d1) as [v d2]. destruct Hs as (_ & Htx & R2 & S2 & B2 & L2 & I2 & E2 & F2).
  assert (configured d2) as Hc2 by (unfold configured in *; by rewrite L2, I2, E2, F2).
  assert (abs d2 = abs d) as Ha2 by (unfold abs in *; by rewrite R2, S2).
  unfold LSR_TX_IDLE. rewrite land_shifted_bit by lia. destruct (Z.testbit v 5); cbn [negb].
  - assert (busy d1 = 0%nat) as Hb by (by apply Htx). unfold write. cbn.
    destruct (thr_write c d2 (configured_dlab _ Hc2) ltac:(by rewrite B2, Hb)) as (R3 & S3 & L3 & I3 & E3 & F3).
    split; [unfold configured in *; by rewrite L3, I3, E3, F3|]. injection Ha2 as HR HS. unfold abs. by rewrite R3, S3, HR, HS.
  - exists (busy d2). split_and!; [|done|done|done]. rewrite B2. destruct (busy d1); [|lia].
    by destruct Htx as [_ Htx]; specialize (Htx eq_refl).
Qed.
End refine.

(** C37: the serial driver is the device the console is specified with.  [init]
    configures the device whatever state it is in and empties its receive queue.
    On a configured device, [getc] returns and removes the oldest received byte
    or reports that there is none, and [putc], once the device has finished
    sending (within [fuel] polls), sends exactly the byte: both as the console's
    own operations on its queue and log do, and the device stays configured. *)
Theorem uart_driver_refines {D} `{!Mmio D} `{!Uart16550 D} fuel c (d : D) (s : kernel) :
  wp init d (λ _ d', configured d' ∧ abs d' = mkUart [] (sent_bytes d)) ∧
  (configured d → uart (console s) = abs d →
   wp getc d (λ r d', configured d' ∧ wp con_getc s (λ r' s', r' = r ∧ uart (console s') = abs d')) ∧
   ((busy d < fuel)%nat →
    wp (putc fuel c) d (λ _ d', configured d' ∧ wp (con_putc c) s (λ _ s', uart (console s') = abs d')))).
Proof.
  split; [apply init_spec|]. intros Hc Hu. split.
  - eapply wp_mono; [by apply getc_spec|]. intros r d' (Hc' & _ & -> & Ha). split; [done|].
    rewrite Ha. clear Ha. revert Hu. generalize (abs d). intros [r t] Hu. unfold con_getc. wp_steps. rewrite Hu. cbn [rx tx].
    destruct r as [|b l]; wp_steps; done.
  - intros Hf. eapply wp_mono; [by apply putc_spec|]. intros [] d' [Hc' Ha]. split; [done|].
    unfold con_putc. wp_steps. cbn. by rewrite Hu, Ha.
Qed.

(** ** A device

    It is busy for two polls after each byte. *)

Record chip := mkChip { c_rx : list u8; c_tx : list u8; c_busy : nat; c_lcr : u8; c_ier : u8; c_div : Z; c_fifo : bool }.

Definition chip_lsr (d : chip) : u8 :=
  Z.lor (if decide (c_rx d = []) then 0 else 1) (if decide (c_busy d = 0%nat) then 32 else 0).

#[export] Instance chip_mmio : Mmio chip := {|
  dev_read off d :=
    if off =? LSR then (chip_lsr d, mkChip (c_rx d) (c_tx d) (Nat.pred (c_busy d)) (c_lcr d) (c_ier d) (c_div d) (c_fifo d))
    else if (off =? RBR) && negb (Z.testbit (c_lcr d) 7) then
      (default 0 (head (c_rx d)), mkChip (tail (c_rx d)) (c_tx d) (c_busy d) (c_lcr d) (c_ier d) (c_div d) (c_fifo d))
    else (0, d);
  dev_write off v d :=
    if off =? LCR then mkChip (c_rx d) (c_tx d) (c_busy d) v (c_ier d) (c_div d) (c_fifo d)
    else if off =? FCR then
      mkChip (if Z.testbit v 1 then [] else c_rx d) (c_tx d) (c_busy d) (c_lcr d) (c_ier d) (c_div d) (Z.testbit v 0)
    else if off =? 0 then
      if Z.testbit (c_lcr d) 7 then
        mkChip (c_rx d) (c_tx d) (c_busy d) (c_lcr d) (c_ier d) (Z.lor (Z.land (c_div d) 0xff00) v) (c_fifo d)
      else mkChip (c_rx d) (c_tx d ++ [v]) 2 (c_lcr d) (c_ier d) (c_div d) (c_fifo d)
    else if off =? 1 then
      if Z.testbit (c_lcr d) 7 then
        mkChip (c_rx d) (c_tx d) (c_busy d) (c_lcr d) (c_ier d) (Z.lor (Z.land (c_div d) 0xff) (Z.shiftl v 8)) (c_fifo d)
      else mkChip (c_rx d) (c_tx d) (c_busy d) (c_lcr d) v (c_div d) (c_fifo d)
    else d;
|}.

#[export] Program Instance chip_uart : Uart16550 chip := {|
  rbr := c_rx; sent_bytes := c_tx; busy := c_busy; lcr := c_lcr; ier := c_ier; divisor := c_div; fifo := c_fifo;
|}.
Next Obligation.
  intros d. cbn. unfold chip_lsr. destruct (decide (c_rx d = [])), (decide (c_busy d = 0%nat)); cbn; naive_solver.
Qed.
Next Obligation. intros d b l H7 Hr. unfold dev_read, chip_mmio. rewrite H7. cbn. by rewrite Hr. Qed.
Next Obligation. intros c d H7 Hb. unfold dev_write, chip_mmio. by rewrite H7. Qed.
Next Obligation. done. Qed.
Next Obligation. intros v d H7. unfold dev_write, chip_mmio. by rewrite H7. Qed.
Next Obligation. intros v d H7. unfold dev_write, chip_mmio. by rewrite H7. Qed.
Next Obligation. intros v d H7. unfold dev_write, chip_mmio. by rewrite H7. Qed.
Next Obligation. done. Qed.

Definition demo_chip : chip := mkChip [104; 105] [] 2 3 1 3 true.

Lemma uart_driver_refines_witness :
  let s := con_kernel [104; 105] in
  wp getc demo_chip (λ r d', configured d' ∧ wp con_getc s (λ r' s', r' = r ∧ uart (console s') = abs d')) ∧
  wp (putc 3 33) demo_chip (λ _ d', configured d' ∧ wp (con_putc 33) s (λ _ s', uart (console s') = abs d')).
Proof.
  destruct (uart_driver_refines 3 33 demo_chip (con_kernel [104; 105])) as [_ H].
  destruct (H ltac:(done) ltac:(done)) as [H1 H2]. split; [exact H1|]. apply H2. cbn. lia.
Defined.
