(* ===== verification/File.v ===== *)
(** * Open files (src/src/file.rs)

    The table of open files shared by all processes, and the dispatch of reads
    and writes to the console, the file system and pipes. *)

From stdpp Require Import gmultiset.
From S2P Require Import Prelude Ring Spinlock FsBase Bcache Balloc Bmap Inode Dir Icache Kalloc Kernel Sched Pipe Console.

(** ** Operations *)

Definition file_slot (i : nat) : M kernel File :=
  l ← gets ftable; expect (l !! i) "index out of bounds".
Definition set_file (i : nat) (f : File) : M kernel unit :=
  modify (λ s, set_ftable (<[i := f]> (ftable s)) s).

Definition file_slots : list nat := seq 0 (Z.to_nat NFILE).

Definition file_alloc_try (i : nat) (_ : unit) : M kernel (unit + nat) :=
  f ← file_slot i;
  if f_refcnt f =? 0 then
    set_file i (mkFile 1 (readable File_unused) (writable File_unused) (kind File_unused));;
    release FTABLE_LOCK;;
    mret (inr i)
  else mret (inl tt).

Definition file_alloc : M kernel (option nat) :=
  acquire FTABLE_LOCK;;
  r ← for_each file_slots file_alloc_try tt;
  match r with
  | inr i => mret (Some i)
  | inl _ => release FTABLE_LOCK;; mret None
  end.

Definition set_kind (k : FileKind) (f : File) : File := mkFile (f_refcnt f) (readable f) (writable f) k.

(** A read that sleeps keeps the bytes it has (the console) or none (a pipe). *)
Definition file_read (i : nat) (dst : list u8) : M kernel (segment (Z * list u8) (isize * list u8)) :=
  f ← file_slot i;
  if negb (readable f) then mret (Return (-1, dst))
  else
    match kind f with
    | KDevice major =>
        if major =? CONSOLE_MAJOR then console_read dst else mret (Return (-1, dst))
    | KInode inode off append =>
        '(n, dst) ← in_fs (readi inode off dst);
        (if 0 <? n then
           off' ← add_at USIZE_MAX off n;
           set_file i (set_kind (KInode inode off' append) f)
         else mret tt);;
        mret (Return (n, dst))
    | KPipe p =>
        r ← pipe_read p dst;
        mret (match r with Return v => Return v | Block c lk _ => Block c lk (0, dst) end)
    | KNone => mret (Return (-1, dst))
    end.

Definition file_write (i : nat) (src : list u8) : M kernel (segment Z isize) :=
  f ← file_slot i;
  if negb (writable f) then mret (Return (-1))
  else
    match kind f with
    | KDevice major =>
        if major =? CONSOLE_MAJOR
        then console_write_bytes src;; mret (Return (as_isize (Z.of_nat (length src))))
        else mret (Return (-1))
    | KInode inode off append =>
        if (append : bool) then
          '(n, new_off) ← in_fs (appendi inode src);
          (if 0 <? n then set_file i (set_kind (KInode inode new_off append) f) else mret tt);;
          mret (Return n)
        else
          n ← in_fs (writei inode off src);
          (if 0 <? n then
             off' ← add_at USIZE_MAX off n;
             set_file i (set_kind (KInode inode off' append) f)
           else mret tt);;
          mret (Return n)
    | KPipe p => pipe_write p src
    | KNone => mret (Return (-1))
    end.

Definition file_stat (i : nat) : M kernel (option Stat) :=
  f ← file_slot i;
  match kind f with
  | KInode inode _ _ => st ← in_fs (stati inode); mret (Some st)
  | _ => mret None
  end.

Definition file_dup (i : nat) : M kernel unit :=
  acquire FTABLE_LOCK;;
  f ← file_slot i;
  assert (0 <? f_refcnt f) "dup: invalid refcnt";;
  n ← add_at USIZE_MAX (f_refcnt f) 1;
  set_file i (mkFile n (readable f) (writable f) (kind f));;
  release FTABLE_LOCK.

Definition file_close (i : nat) : M kernel unit :=
  acquire FTABLE_LOCK;;
  f ← file_slot i;
  assert (0 <? f_refcnt f) "close: invalid refcnt";;
  n ← sub_at USIZE_MAX (f_refcnt f) 1;
  if n =? 0 then
    set_file i (mkFile n false false KNone);;
    release FTABLE_LOCK;;
    match kind f with
    | KInode inode _ _ => in_fs (iput inode)
    | KPipe p => pipe_close p (writable f)
    | _ => mret tt
    end
  else
    set_file i (mkFile n (readable f) (writable f) (kind f));;
    release FTABLE_LOCK.

(** ** Reference counting *)

Definition inode_of (f : File) : option InodeRef :=
  match kind f with KInode j _ _ => Some j | _ => None end.

(** How many open files hold inode-cache slot [j]. *)
Definition inode_files (j : nat) (l : list File) : nat := length (filter (λ f, inode_of f = Some j) l).

(** [refs] collects the references processes hold to open files. *)
Record files_ok (s : kernel) (refs : gmultiset nat) : Prop := {
  fo_len : length (ftable s) = Z.to_nat NFILE;
  fo_count i f : ftable s !! i = Some f → f_refcnt f = Z.of_nat (multiplicity i refs);
  fo_dom i : i ∈ refs → (i < Z.to_nat NFILE)%nat;
  fo_free i f : ftable s !! i = Some f → f_refcnt f = 0 → kind f = KNone;
  fo_pipe i f p : ftable s !! i = Some f → kind f = KPipe p → is_Some (pipes s !! p);
  fo_inode j : (0 < inode_files j (ftable s))%nat → ∃ ip, icache (k_fs s) !! j = Some ip ∧
    Z.of_nat (inode_files j (ftable s)) ≤ i_refcnt ip ≤ USIZE_MAX;
}.

Definition put_file (i : nat) (f : File) (s : kernel) : kernel := set_ftable (<[i := f]> (ftable s)) s.

Lemma wp_file_slot i f s Q : ftable s !! i = Some f → Q f s → wp (file_slot i) s Q.
Proof. intros ??. unfold file_slot. wp_steps. by eapply wp_expect. Qed.

Lemma wp_set_file i f s Q : Q tt (put_file i f s) → wp (set_file i f) s Q.
Proof. done. Qed.

Lemma file_dup_spec i f s :
  ftable s !! i = Some f → 0 < f_refcnt f < USIZE_MAX → FTABLE_LOCK ∉ held s →
  wp (file_dup i) s (λ _ s', s' = put_file i (mkFile (f_refcnt f + 1) (readable f) (writable f) (kind f)) s).
Proof.
  intros Hf Hr Hh. unfold file_dup. wp_step. apply wp_acquire; [done|].
  wp_step. eapply wp_file_slot; [done|]. wp_step. wp_step; [apply Z.ltb_lt; lia|]. wp_step. wp_step.
  wp_step. apply wp_set_file. eapply wp_release; [done|done|]. by destruct s.
Qed.

Lemma file_alloc_spec s :
  held s = [] → length (ftable s) = Z.to_nat NFILE →
  wp file_alloc s (λ r s',
    match r with
    | Some i => ∃ f, ftable s !! i = Some f ∧ f_refcnt f = 0 ∧ s' = put_file i (mkFile 1 false false KNone) s ∧
        ∀ j f', (j < i)%nat → ftable s !! j = Some f' → f_refcnt f' ≠ 0
    | None => s' = s ∧ ∀ j f', ftable s !! j = Some f' → f_refcnt f' ≠ 0
    end).
Proof.
  intros Hh Hl. unfold file_alloc. wp_step. apply wp_acquire; [rewrite Hh; apply not_elem_of_nil|]. wp_step.
  apply (wp_scan (ftable s) (λ f, f_refcnt f =? 0)); [done| | |].
  - intros i f Hf Hu. unfold file_alloc_try. wp_step. eapply wp_file_slot; [done|]. rewrite Hu. by wp_steps.
  - intros i f Hf Hu Hall. unfold file_alloc_try. wp_step. eapply wp_file_slot; [done|]. rewrite Hu.
    wp_step. apply wp_set_file. wp_step.
    eapply wp_release; [done|cbn in *; rewrite Hh; apply not_elem_of_nil|]. wp_steps.
    exists f. split_and!; [done|by apply Z.eqb_eq|destruct s; cbn in *; by subst|].
    intros j f' Hj Hf'. apply Z.eqb_neq. by eapply Hall.
  - intros Hall. wp_step. eapply wp_release; [done|cbn in *; rewrite Hh; apply not_elem_of_nil|]. wp_steps.
    split; [destruct s; cbn in *; by subst|]. intros j f' Hj. apply Z.eqb_neq. by eapply Hall.
Qed.

(** [iput] as the file layer sees it. *)
Lemma in_fs_iput_spec j ip s :
  icache (k_fs s) !! j = Some ip → 1 ≤ i_refcnt ip ≤ USIZE_MAX → held s = [] →
  wp (in_fs (iput j)) s (λ _ s', ∃ f, s' = set_k_fs f s ∧
    disk f = disk (k_fs s) ∧ bcache f = bcache (k_fs s) ∧
    icache f = <[j := set_refcnt (i_refcnt ip - 1) ip]> (icache (k_fs s))).
Proof.
  intros Hj Hr Hh. apply wp_zoom. cbn in Hh. rewrite Hh.
  wp_call (iput_spec j ip); [split; intros; apply not_elem_of_nil|done|done|]. intros [] f ->.
  exists (put_inode j (set_refcnt (i_refcnt ip - 1) ip) (set_held [] (k_fs s))).
  split; [destruct s; cbn in *; by subst|done].
Qed.

(** What closing the last reference to [f] does to the object behind it. *)
Definition released (f : File) (s s' : kernel) : Prop :=
  match kind f with
  | KInode j _ _ => ∃ ip g, icache (k_fs s) !! j = Some ip ∧ s' = set_k_fs g s ∧
      disk g = disk (k_fs s) ∧ bcache g = bcache (k_fs s) ∧
      icache g = <[j := set_refcnt (i_refcnt ip - 1) ip]> (icache (k_fs s))
  | KPipe p => ∃ q, pipes s !! p = Some q ∧
      s' = put_pipe p (closed (writable f) q) (woken (close_chan p (writable f)) s)
  | _ => s' = s
  end.

Lemma inode_files_insert j i f f' l :
  l !! i = Some f →
  (inode_files j (<[i := f']> l) + (if decide (inode_of f = Some j) then 1 else 0) =
   inode_files j l + (if decide (inode_of f' = Some j) then 1 else 0))%nat.
Proof.
  intros Hi. unfold inode_files. rewrite insert_take_drop by (by eapply lookup_lt_Some).
  rewrite <-(take_drop_middle l i f Hi) at 3. rewrite !filter_app, !length_app, !filter_cons.
  destruct (decide (inode_of f = Some j)), (decide (inode_of f' = Some j)); cbn; lia.
Qed.

Lemma inode_files_pos j i f l : l !! i = Some f → inode_of f = Some j → (0 < inode_files j l)%nat.
Proof.
  intros Hi Hf. unfold inode_files. rewrite <-(take_drop_middle l i f Hi), filter_app, filter_cons_True by done.
  rewrite length_app. cbn. lia.
Qed.

(** Updating one entry of the table. *)
Lemma files_ok_put s refs refs' i f f' :
  files_ok s refs → ftable s !! i = Some f → f_refcnt f' = Z.of_nat (multiplicity i refs') →
  (∀ j, j ≠ i → multiplicity j refs' = multiplicity j refs) →
  (f_refcnt f' = 0 → kind f' = KNone) → kind f' = kind f ∨ kind f' = KNone →
  files_ok (put_file i f' s) refs'.
Proof.
  intros [Hl Hc Hd Hfr Hp Hin] Hi Hn Hother Hfree Hkind. pose proof (lookup_lt_Some _ _ _ Hi) as Hlt.
  assert (∀ k g, <[i := f']> (ftable s) !! k = Some g → k = i ∧ g = f' ∨ k ≠ i ∧ ftable s !! k = Some g) as Hlk.
  { intros k g. destruct (decide (k = i)) as [->|Hne].
    - rewrite list_lookup_insert_eq by done. intros [= <-]. by left.
    - rewrite list_lookup_insert_ne by done. by right. }
  constructor; cbn [ftable put_file set_ftable pipes k_fs].
  - by rewrite length_insert.
  - intros k g [[-> ->]|[Hne Hg]]%Hlk; [done|]. rewrite Hother by done. by apply Hc.
  - intros k Hk. rewrite elem_of_multiplicity in Hk. destruct (decide (k = i)) as [->|Hne]; [by rewrite <-Hl|].
    rewrite Hother in Hk by done. apply Hd. by apply elem_of_multiplicity.
  - intros k g [[-> ->]|[Hne Hg]]%Hlk; [done|]. by eapply Hfr.
  - intros k g p [[-> ->]|[Hne Hg]]%Hlk; [|by eapply Hp]. destruct Hkind as [->| ->]; [by eapply Hp|done].
  - intros j Hj. pose proof (inode_files_insert j i f f' (ftable s) Hi) as Hcount.
    assert (inode_files j (<[i := f']> (ftable s)) ≤ inode_files j (ftable s))%nat as Hle.
    { destruct (decide (inode_of f' = Some j)) as [Hj'|], (decide (inode_of f = Some j)) as [|Hn'] in Hcount; try lia.
      exfalso. unfold inode_of in *. destruct Hkind as [Hk|Hk]; rewrite Hk in Hj'; [by apply Hn'|done]. }
    destruct (Hin j) as (ip & Hip & Hb); [lia|]. exists ip. split; [done|lia].
Qed.

Lemma file_close_spec i f s refs :
  files_ok s refs → ftable s !! i = Some f → i ∈ refs → f_refcnt f ≤ USIZE_MAX →
  held s = [] → length (procs s) = Z.to_nat NPROC →
  wp (file_close i) s (λ _ s',
    if decide (f_refcnt f = 1)
    then released f (put_file i (mkFile 0 false false KNone) s) s'
    else s' = put_file i (mkFile (f_refcnt f - 1) (readable f) (writable f) (kind f)) s).
Proof.
  intros Hok Hi Href Hsz Hh Hp. pose proof (fo_count _ _ Hok i f Hi) as Hc.
  rewrite elem_of_multiplicity in Href.
  unfold file_close. wp_step. apply wp_acquire; [rewrite Hh; apply not_elem_of_nil|].
  wp_step. eapply wp_file_slot; [done|]. wp_step. wp_step; [apply Z.ltb_lt; lia|]. wp_step. wp_step.
  destruct (decide (f_refcnt f = 1)) as [->|H1].
  - change (1 - 1 =? 0) with true. change (1 - 1) with 0. cbn match. wp_step. apply wp_set_file.
    wp_step. eapply wp_release; [done|cbn in *; rewrite Hh; apply not_elem_of_nil|].
    replace (set_held _ _) with (put_file i (mkFile 0 false false KNone) s) by (clear Hok; destruct s; cbn in *; by subst).
    unfold released. destruct (kind f) as [|major|j off app|p] eqn:Hk; [by wp_steps|by wp_steps| |].
    + destruct (fo_inode _ _ Hok j) as (ip & Hip & Hb).
      { eapply inode_files_pos; [done|]. unfold inode_of. by rewrite Hk. }
      assert (0 < inode_files j (ftable s))%nat by (eapply inode_files_pos; [done|]; unfold inode_of; by rewrite Hk).
      wp_call (in_fs_iput_spec j ip); [done|lia|done|]. intros [] s' (g & -> & ? & ? & ?). by exists ip, g.
    + destruct (fo_pipe _ _ Hok i f p Hi Hk) as [q Hq].
      wp_call (pipe_close_spec p q); [done|done|done|]. intros [] s' ->. by exists q.
  - rewrite (proj2 (Z.eqb_neq _ _)) by lia. wp_step. apply wp_set_file.
    eapply wp_release; [done|cbn in *; rewrite Hh; apply not_elem_of_nil|].
    clear Hok. destruct s; cbn in *; by subst.
Qed.

(** ** The table as a multiset of references *)

Inductive file_op := FAlloc | FDup (i : nat) | FClose (i : nat).

Definition file_exec (op : file_op) : M kernel (option nat) :=
  match op with
  | FAlloc => file_alloc
  | FDup i => file_dup i;; mret None
  | FClose i => file_close i;; mret None
  end.

(** The abstract table: references are added and removed, and a slot is handed
    out only when nothing refers to it. *)
Inductive file_spec : file_op → option nat → gmultiset nat → gmultiset nat → Prop :=
| spec_alloc i refs : i ∉ refs → file_spec FAlloc (Some i) refs (refs ⊎ {[+ i +]})
| spec_full refs : (∀ i, (i < Z.to_nat NFILE)%nat → i ∈ refs) → file_spec FAlloc None refs refs
| spec_dup i refs : file_spec (FDup i) None refs (refs ⊎ {[+ i +]})
| spec_close i refs : file_spec (FClose i) None refs (refs ∖ {[+ i +]}).

Definition op_ok (op : file_op) (refs : gmultiset nat) : Prop :=
  match op with
  | FAlloc => True
  | FDup i => i ∈ refs ∧ Z.of_nat (multiplicity i refs) < USIZE_MAX
  | FClose i => i ∈ refs ∧ Z.of_nat (multiplicity i refs) ≤ USIZE_MAX
  end.

(** Whether the operation drops the last reference to a file. *)
Definition last_close (op : file_op) (refs : gmultiset nat) : bool :=
  match op with FClose i => bool_decide (multiplicity i refs = 1%nat) | _ => false end.

Record table_ok (s : kernel) (refs : gmultiset nat) : Prop := {
  to_files : files_ok s refs;
  to_held : held s = [];
  to_procs : length (procs s) = Z.to_nat NPROC;
}.

Lemma file_lookup s refs i : files_ok s refs → i ∈ refs → ∃ f, ftable s !! i = Some f.
Proof. intros Hok Hi. apply lookup_lt_is_Some_2. rewrite (fo_len _ _ Hok). by apply (fo_dom _ _ Hok). Qed.

(** Releasing the object behind a file that has just left the table. *)
Lemma released_ok f i s s' refs :
  files_ok s refs → ftable s !! i = Some f → held s = [] → length (procs s) = Z.to_nat NPROC →
  files_ok (put_file i (mkFile 0 false false KNone) s) (refs ∖ {[+ i +]}) →
  released f (put_file i (mkFile 0 false false KNone) s) s' → table_ok s' (refs ∖ {[+ i +]}).
Proof.
  intros Hok Hi Hh Hp Hput Hrel. unfold released in Hrel. destruct (kind f) as [|major|j off app|p] eqn:Hk.
  - subst s'. by constructor.
  - subst s'. by constructor.
  - destruct Hrel as (ip & g & Hip & -> & _ & _ & Hg). constructor; [|done|done]. destruct Hput as [H1 H2 H3 H4 H5 H6].
    constructor; [exact H1|exact H2|exact H3|exact H4|exact H5|]. intros j' Hj'. cbn [set_k_fs k_fs ftable] in *.
    rewrite Hg. pose proof (inode_files_insert j i f (mkFile 0 false false KNone) (ftable s) Hi) as Hcount.
    assert (inode_of f = Some j) as Hj by (unfold inode_of; by rewrite Hk).
    rewrite decide_True, decide_False in Hcount by done.
    destruct (decide (j' = j)) as [->|Hne].
    + destruct (fo_inode _ _ Hok j) as (ip' & Hip' & Hb); [lia|]. cbn in Hip. simplify_eq.
      eexists. split; [apply list_lookup_insert_eq; by eapply lookup_lt_Some|]. cbn [i_refcnt set_refcnt ftable put_file set_ftable]. lia.
    + destruct (H6 j' Hj') as (ip' & Hip' & Hb). exists ip'. by rewrite list_lookup_insert_ne.
  - destruct Hrel as (q & Hq & ->). constructor; [|done|etrans; [apply length_wake|done]].
    destruct Hput as [H1 H2 H3 H4 H5 H6].
    constructor; [exact H1|exact H2|exact H3|exact H4| |exact H6].
    intros k g p' Hkg Hkp. destruct (H5 k g p' Hkg Hkp) as [q' Hq'].
    apply lookup_lt_is_Some. cbn. rewrite length_insert. by eapply lookup_lt_Some.
Qed.

(** A process that may have been woken, and is otherwise the same. *)
Definition roused (p p' : Process) : Prop := p' = p ∨ state p = Sleeping ∧ p' = set_state Runnable p.

#[global] Instance roused_preorder : PreOrder roused.
Proof.
  split; [by left|]. intros p1 p2 p3 [->|[H ->]] H2; [done|]. destruct H2 as [->|[H2 _]]; [by right|done].
Qed.

Lemma wake_roused c l : Forall2 roused l (wake c l).
Proof.
  unfold wake. apply Forall2_fmap_r, Forall_Forall2_diag, Forall_true. intros p. cbn. unfold wake_one.
  destruct (decide (state p = Sleeping ∧ p_chan p = c)) as [[]|]; [by right|by left].
Qed.

(** Nothing about the processes changes but that sleepers may be woken. *)
Record framed (s s' : kernel) : Prop := {
  fr_procs : Forall2 roused (procs s) (procs s');
  fr_cpu : cpu_proc s' = cpu_proc s;
  fr_pid : next_pid s' = next_pid s;
  fr_init : initproc s' = initproc s;
  fr_console : console s' = console s;
  fr_ram : k_ram s' = k_ram s;
}.

Lemma framed_refl s : framed s s.
Proof. by split. Qed.
Lemma framed_trans s1 s2 s3 : framed s1 s2 → framed s2 s3 → framed s1 s3.
Proof. intros [] []. split; [by etrans|congruence..]. Qed.
Lemma framed_put i f s : framed s (put_file i f s).
Proof. by split. Qed.

Lemma framed_released f s s' : released f s s' → framed s s'.
Proof.
  unfold released. destruct (kind f); [intros ->; apply framed_refl..| |].
  - intros (ip & g & _ & -> & _). by split.
  - intros (q & _ & ->). split; try done. apply wake_roused.
Qed.

Lemma file_alloc_refs s refs :
  table_ok s refs →
  wp file_alloc s (λ r s',
    match r with
    | Some i => (i ∉ refs) ∧ table_ok s' (refs ⊎ {[+ i +]}) ∧ s' = put_file i (mkFile 1 false false KNone) s
    | None => (∀ i, (i < Z.to_nat NFILE)%nat → i ∈ refs) ∧ s' = s
    end).
Proof.
  intros [Hok Hh Hp]. wp_call file_alloc_spec; [done|apply Hok|]. intros [i|] s'.
  - intros (f & Hi & H0 & -> & _). pose proof (fo_count _ _ Hok i f Hi) as Hc.
    split_and!; [apply not_elem_of_multiplicity; lia| |done].
    constructor; [|done|done]. eapply files_ok_put; [done|done| |..].
    + rewrite multiplicity_add, decide_True by done. cbn. lia.
    + intros j Hj. rewrite multiplicity_add, decide_False by done. lia.
    + done.
    + by right.
  - intros [-> Hall]. split; [|done]. intros i Hi.
    destruct (lookup_lt_is_Some_2 (ftable s) i) as [f Hf]; [by rewrite (fo_len _ _ Hok)|].
    specialize (Hall i f Hf). rewrite (fo_count _ _ Hok i f Hf) in Hall. apply elem_of_multiplicity. lia.
Qed.

(** Other locks may be held while a file is duplicated. *)
Lemma file_dup_files i s refs :
  files_ok s refs → i ∈ refs → Z.of_nat (multiplicity i refs) < USIZE_MAX → FTABLE_LOCK ∉ held s →
  wp (file_dup i) s (λ _ s', files_ok s' (refs ⊎ {[+ i +]}) ∧
    ∃ f, ftable s !! i = Some f ∧ s' = put_file i (mkFile (f_refcnt f + 1) (readable f) (writable f) (kind f)) s).
Proof.
  intros Hok Hi Hmax Hh. destruct (file_lookup s refs i Hok Hi) as [f Hf].
  pose proof (fo_count _ _ Hok i f Hf) as Hc. rewrite elem_of_multiplicity in Hi.
  wp_call (file_dup_spec i f); [done|lia|done|]. intros [] s' ->. split; [|by exists f].
  eapply files_ok_put; [done|done| |..].
  - rewrite multiplicity_add, decide_True by done. cbn. lia.
  - intros j Hj. rewrite multiplicity_add, decide_False by done. lia.
  - cbn. lia.
  - by left.
Qed.

Lemma file_dup_refs i s refs :
  table_ok s refs → i ∈ refs → Z.of_nat (multiplicity i refs) < USIZE_MAX →
  wp (file_dup i) s (λ _ s', table_ok s' (refs ⊎ {[+ i +]}) ∧
    ∃ f, ftable s !! i = Some f ∧ s' = put_file i (mkFile (f_refcnt f + 1) (readable f) (writable f) (kind f)) s).
Proof.
  intros [Hok Hh Hp] Hi Hmax. eapply wp_mono; [apply file_dup_files; try done; rewrite Hh; apply not_elem_of_nil|].
  intros [] s' (Hok' & f & Hf & ->). split; [by constructor|eauto].
Qed.

Lemma file_close_refs i s refs :
  table_ok s refs → i ∈ refs → Z.of_nat (multiplicity i refs) ≤ USIZE_MAX →
  wp (file_close i) s (λ _ s', table_ok s' (refs ∖ {[+ i +]}) ∧ framed s s' ∧
    ∃ f, ftable s !! i = Some f ∧
      if decide (multiplicity i refs = 1%nat)
      then released f (put_file i (mkFile 0 false false KNone) s) s'
      else s' = put_file i (mkFile (f_refcnt f - 1) (readable f) (writable f) (kind f)) s).
Proof.
  intros [Hok Hh Hp] Hi Hmax. destruct (file_lookup s refs i Hok Hi) as [f Hf].
  pose proof (fo_count _ _ Hok i f Hf) as Hc.
  wp_call (file_close_spec i f s refs); [done|done|done|lia|done|done|]. intros [] s' Hs'.
  rewrite elem_of_multiplicity in Hi.
  assert (∀ f', f_refcnt f' = f_refcnt f - 1 → (f_refcnt f' = 0 → kind f' = KNone) → kind f' = kind f ∨ kind f' = KNone →
    files_ok (put_file i f' s) (refs ∖ {[+ i +]})) as Hput.
  { intros f' H1 H2 H3. eapply files_ok_put; [done|done| |..]; [| |done|done].
    - rewrite multiplicity_remove, decide_True by done. lia.
    - intros j Hj. rewrite multiplicity_remove, decide_False by done. lia. }
  destruct (decide (f_refcnt f = 1)) as [H1|H1].
  - split; [|split; [eapply framed_trans; [apply framed_put|by eapply framed_released]|]].
    + eapply released_ok; [done..| |exact Hs']. apply Hput; cbn; [lia|done|by right].
    + exists f. by rewrite decide_True by lia.
  - subst s'. split; [|split; [apply framed_put|exists f; by rewrite decide_False by lia]].
    constructor; [|done|done]. apply Hput; cbn; [done|lia|by left].
Qed.

(** C34: the table of open files implements a multiset of references: opening
    returns a slot to which nothing refers (or reports that every slot is
    referenced), duplicating and closing add and remove one reference, the counts
    agree with the multiset throughout, the inode or pipe end behind a file is
    released when its last reference goes and never before, and no operation
    faults. *)
Theorem file_table_refines s refs op :
  table_ok s refs → op_ok op refs →
  wp (file_exec op) s (λ r s',
    (∃ refs', file_spec op r refs refs' ∧ table_ok s' refs') ∧
    if last_close op refs
    then ∀ i f, op = FClose i → ftable s !! i = Some f → released f (put_file i (mkFile 0 false false KNone) s) s'
    else pipes s' = pipes s ∧ k_fs s' = k_fs s).
Proof.
  intros Hok Hop. destruct op as [|i|i]; cbn [file_exec op_ok last_close] in *.
  - wp_call file_alloc_refs; [done|]. intros [i|] s'.
    + intros (Hi & Hok' & ->). split; [|done]. eexists. split; [by constructor|done].
    + intros [Hall ->]. split; [|done]. exists refs. split; [by constructor|done].
  - destruct Hop as [Hi Hmax]. wp_call file_dup_refs; [done|done|done|]. intros [] s' (Hok' & f & Hf & ->).
    wp_steps. split; [|done]. eexists. split; [constructor|done].
  - destruct Hop as [Hi Hmax]. wp_call file_close_refs; [done|done|done|]. intros [] s' (Hok' & _ & f & Hf & Hs').
    wp_steps. split; [eexists; split; [constructor|done]|].
    case_bool_decide as Hm; [rewrite decide_True in Hs' by done|rewrite decide_False in Hs' by done; by subst s'].
    intros i' f' [= <-] Hf'. by simplify_eq.
Qed.

(** ** Witness: the writing end of a pipe, shared by two descriptors *)

Definition shared_end : File := mkFile 2 false true (KPipe 0).

Definition file_kernel : kernel := {|
  k_held := []; procs := replicate (Z.to_nat NPROC) Process_unused;
  cpu_proc := None; next_pid := 1; initproc := None;
  ftable := shared_end :: replicate 99 File_unused; pipes := [opened Pipe_unused];
  console := mkConsole (mkUart [] []) Input_new;
  k_fs := mkFs [] [] [] []; k_ram := mkMachine ∅ 0 [];
|}.

Definition file_refs : gmultiset nat := {[+ 0%nat; 0%nat +]}.

Lemma file_refs_count i : multiplicity i file_refs = if decide (i = 0%nat) then 2%nat else 0%nat.
Proof. unfold file_refs. rewrite multiplicity_add, multiplicity_singleton. by destruct (decide _). Qed.

Lemma file_kernel_lookup i f :
  ftable file_kernel !! i = Some f → i = 0%nat ∧ f = shared_end ∨ i ≠ 0%nat ∧ f = File_unused.
Proof. destruct i as [|i]; [intros [= <-]; by left|]. intros Hf. apply (lookup_replicate_1 99 File_unused f i) in Hf as [-> _]. by right. Qed.

Lemma file_kernel_ok : table_ok file_kernel file_refs.
Proof.
  constructor; [|done|done]. constructor.
  - done.
  - intros i f [[-> ->]|[Hi ->]]%file_kernel_lookup; rewrite file_refs_count; [done|by rewrite decide_False].
  - intros i. rewrite elem_of_multiplicity, file_refs_count. change NFILE with 100. destruct (decide _); lia.
  - by intros i f [[-> ->]|[Hi ->]]%file_kernel_lookup.
  - intros i f p [[-> ->]|[Hi ->]]%file_kernel_lookup; [intros [= <-]; by eexists|done].
  - intros j Hj. exfalso. assert (inode_files j (ftable file_kernel) = 0%nat) as E; [|lia].
    by vm_compute.
Qed.

Lemma file_table_refines_witness :
  wp (file_exec (FClose 0)) file_kernel (λ r s',
    (∃ refs', file_spec (FClose 0) r file_refs refs' ∧ table_ok s' refs') ∧
    if last_close (FClose 0) file_refs
    then ∀ i f, FClose 0 = FClose i → ftable file_kernel !! i = Some f →
           released f (put_file i (mkFile 0 false false KNone) file_kernel) s'
    else pipes s' = pipes file_kernel ∧ k_fs s' = k_fs file_kernel).
Proof.
  apply (file_table_refines file_kernel file_refs (FClose 0)); [exact file_kernel_ok|].
  split; [apply elem_of_multiplicity; rewrite file_refs_count; rewrite decide_True by done; lia|by rewrite file_refs_count].
Defined.

(** The second close frees the pipe end; a third is refused. *)
Example close_run :
  (match (file_close 0;; file_close 0) file_kernel with
   | Ok (_, s') => Some (writeopen <$> pipes s', f_refcnt <$> take 1 (ftable s'))
   | Fault _ => None
   end = Some ([false], [0])) ∧
  (file_close 0;; file_close 0;; file_close 0) file_kernel = Fault (Panic "close: invalid refcnt").
Proof. by vm_compute. Qed.
