(* ===== verification/Wakeup.v ===== *)
(** * Processes that sleep on pipes and on the console

    The kernel as a labelled transition system: processes make calls that may
    sleep, the scheduler resumes them, bytes arrive on the console.  System
    calls run with interrupts off, so a segment between two sleeps is atomic
    and only the order of segments varies. *)

From S2P Require Import Prelude Ring Spinlock FsBase Kalloc Kernel Sched Pipe Console.

(** ** The transition system *)

(** What a process does when it next runs: return to user mode, or continue a
    call that sleeps. *)
Inductive task :=
| TUser
| TPipeRead (p : nat) (dst : list u8)
| TPipeWrite (p : nat) (src : list u8) (n : Z)
| TConsRead (n : Z) (dst : list u8).

#[global] Instance task_eq_dec : EqDecision task.
Proof. solve_decision. Defined.

(** The data that a segment moves. *)
Inductive event :=
| EvNone
| EvOpen (p : option nat)
| EvSent (p : nat) (bs : list u8)
| EvRcvd (p : nat) (bs : list u8)
| EvLine (bs : list u8).

Inductive call :=
| CPipe
| CRead (p : nat) (dst : list u8)
| CWrite (p : nat) (src : list u8)
| CClose (p : nat) (writable : bool)
| CConsRead (dst : list u8)
| CConsWrite (bs : list u8).

(** Results of the blocking loops as segments of the system. *)
Definition on_read (p : nat) (dst : list u8) (r : segment unit (isize * list u8)) : event * segment task unit :=
  match r with
  | Return (n, dst') => (EvRcvd p (take (Z.to_nat n) dst'), Return tt)
  | Block c lk _ => (EvNone, Block c lk (TPipeRead p dst))
  end.

Definition on_write (p : nat) (src : list u8) (n : Z) (r : segment Z isize) : event * segment task unit :=
  match r with
  | Return v => (EvSent p (if v =? -1 then [] else drop (Z.to_nat n) src), Return tt)
  | Block c lk n' => (EvSent p (slice (Z.to_nat n) (Z.to_nat (n' - n)) src), Block c lk (TPipeWrite p src n'))
  end.

Definition on_line (r : segment (Z * list u8) (isize * list u8)) : event * segment task unit :=
  match r with
  | Return (n, dst) => (EvLine (take (Z.to_nat n) dst), Return tt)
  | Block c lk (n, dst) => (EvNone, Block c lk (TConsRead n dst))
  end.

Definition exec_call (c : call) : M kernel (event * segment task unit) :=
  match c with
  | CPipe => r ← pipe_alloc; mret (EvOpen r, Return tt)
  | CRead p dst => r ← pipe_read p dst; mret (on_read p dst r)
  | CWrite p src => r ← pipe_write p src; mret (on_write p src 0 r)
  | CClose p w => pipe_close p w;; mret (EvNone, Return tt)
  | CConsRead dst => r ← console_read dst; mret (on_line r)
  | CConsWrite bs => console_write_bytes bs;; mret (EvNone, Return tt)
  end.

Definition resume (t : task) : M kernel (event * segment task unit) :=
  match t with
  | TUser => yield_leave;; mret (EvNone, Return tt)
  | TPipeRead p dst => sleep_leave (LPipe p);; r ← read_loop p dst; mret (on_read p dst r)
  | TPipeWrite p src n => sleep_leave (LPipe p);; r ← write_loop p src n; mret (on_write p src n r)
  | TConsRead n dst => sleep_leave LConsole;; r ← console_read_loop n dst; mret (on_line r)
  end.

(** The end of a segment of process [i]. *)
Definition settle (i : nat) (r : event * segment task unit) : M kernel (event * task) :=
  match r.2 with
  | Return _ => mret (r.1, TUser)
  | Block c lk t => sleep_enter c lk;; scheduler_back i;; mret (r.1, t)
  end.

Definition run_call (i : nat) (c : call) : M kernel (event * task) := exec_call c ≫= settle i.

(** The scheduler picks [i] and the process runs to the end of its segment. *)
Definition run_task (i : nat) (t : task) : M kernel (option (event * task)) :=
  b ← scheduler_take i;
  if (b : bool) then r ← resume t; r ← settle i r; mret (Some r) else mret None.

Definition run_yield (i : nat) : M kernel unit := yield_enter;; scheduler_back i.

(** Bytes arrive at the serial device, and its interrupt is served. *)
Definition run_intr (bs : list u8) : M kernel unit :=
  modify (λ s, put_con (mkUart (rx (uart (console s)) ++ bs) (tx (uart (console s)))) (input (console s)) s);;
  console_intr.

Record sys := mkSys { kern : kernel; tasks : list task }.

(** The buffers of [sys_read] and [sys_write] have 128 bytes. *)
Definition CHUNK : Z := 128.

Definition is_pipe (p : nat) : Prop := (p < Z.to_nat NPIPE)%nat.

Definition call_ok (c : call) : Prop :=
  match c with
  | CRead p dst => is_pipe p ∧ Z.of_nat (length dst) ≤ CHUNK
  | CWrite p src => is_pipe p ∧ Z.of_nat (length src) ≤ CHUNK ∧ bytes_ok src
  | CClose p _ => is_pipe p
  | CConsRead dst => Z.of_nat (length dst) ≤ CHUNK
  | CPipe | CConsWrite _ => True
  end.

(** The 64-bit counters of the rings have not run out. *)
Definition room (k : kernel) : Prop :=
  Forall (λ q, nwrite q + 1024 ≤ USIZE_MAX) (pipes k) ∧ i_e (input (console k)) + 1024 ≤ USIZE_MAX.

Inductive step : sys → event → sys → Prop :=
| step_call i c k ts k' e t :
    room k → cpu_proc k = Some i → ts !! i = Some TUser → call_ok c →
    run_call i c k = Ok ((e, t), k') → step (mkSys k ts) e (mkSys k' (<[i := t]> ts))
| step_yield i k ts k' :
    cpu_proc k = Some i → run_yield i k = Ok (tt, k') → step (mkSys k ts) EvNone (mkSys k' ts)
| step_task i t k ts k' e t' :
    room k → cpu_proc k = None → ts !! i = Some t →
    run_task i t k = Ok (Some (e, t'), k') → step (mkSys k ts) e (mkSys k' (<[i := t']> ts))
| step_intr bs k ts k' :
    room k → bytes_ok bs → Z.of_nat (length bs) ≤ CHUNK →
    run_intr bs k = Ok (tt, k') → step (mkSys k ts) EvNone (mkSys k' ts).

Inductive steps : sys → list event → sys → Prop :=
| steps_nil s : steps s [] s
| steps_snoc s tr s' e s'' : steps s tr s' → step s' e s'' → steps s (tr ++ [e]) s''.

(** ** The invariant *)

Definition chan_of (t : task) : chan :=
  match t with
  | TUser => NoChan
  | TPipeRead p _ => ReadChan p
  | TPipeWrite p _ _ => WriteChan p
  | TConsRead _ _ => InputChan
  end.

Definition lock_of (t : task) : lock :=
  match t with
  | TPipeRead p _ | TPipeWrite p _ _ => LPipe p
  | _ => LConsole
  end.

(** The condition a sleeping process waits out. *)
Definition blocked (k : kernel) (t : task) : Prop :=
  match t with
  | TUser => False
  | TPipeRead p _ => ∃ q, pipes k !! p = Some q ∧ queued q = [] ∧ writeopen q = true
  | TPipeWrite p _ _ => ∃ q, pipes k !! p = Some q ∧ full q ∧ readopen q = true
  | TConsRead _ _ => committed (con_state k) = []
  end.

Definition task_ok (t : task) : Prop :=
  match t with
  | TUser => True
  | TPipeRead p dst => is_pipe p ∧ Z.of_nat (length dst) ≤ CHUNK
  | TPipeWrite p src n => is_pipe p ∧ Z.of_nat (length src) ≤ CHUNK ∧ bytes_ok src ∧
      0 ≤ n ≤ Z.of_nat (length src)
  | TConsRead n dst => 0 ≤ n ≤ Z.of_nat (length dst) ∧ Z.of_nat (length dst) ≤ CHUNK
  end.

Definition pipe_good (q : Pipe) : Prop :=
  Pipe_ok q ∧ (used q = false → readopen q = false ∧ writeopen q = false).

Record data_ok (k : kernel) : Prop := {
  do_procs : length (procs k) = Z.to_nat NPROC;
  do_pipes : length (pipes k) = Z.to_nat NPIPE;
  do_good : Forall pipe_good (pipes k);
  do_input : Input_ok (input (console k));
  do_rx : rx (uart (console k)) = [];
}.

(** Every sleeping process but [i] waits on its channel for a condition that
    still holds. *)
Definition sleepers (i : option nat) (k : kernel) (ts : list task) : Prop :=
  ∀ j t pr, Some j ≠ i → ts !! j = Some t → procs k !! j = Some pr → state pr = Sleeping →
    p_chan pr = chan_of t ∧ blocked k t.

Record sys_ok (s : sys) : Prop := {
  so_data : data_ok (kern s);
  so_held : held (kern s) = [];
  so_len : length (tasks s) = Z.to_nat NPROC;
  so_tasks : Forall task_ok (tasks s);
  so_sleep : sleepers (cpu_proc (kern s)) (kern s) (tasks s);
  so_cpu i : cpu_proc (kern s) = Some i → tasks s !! i = Some TUser ∧
    ∃ pr, procs (kern s) !! i = Some pr ∧ state pr = Running;
}.

(** ** Segments keep it *)

Definition pipe_bytes (k : kernel) (p : nat) : list u8 := from_option queued [] (pipes k !! p).

Definition sent (p : nat) (e : event) : list u8 :=
  match e with EvSent p' bs => if decide (p = p') then bs else [] | _ => [] end.
Definition rcvd (p : nat) (e : event) : list u8 :=
  match e with EvRcvd p' bs => if decide (p = p') then bs else [] | _ => [] end.

(** No byte is lost, duplicated or reordered, unless the slot is reopened. *)
Definition flow (k : kernel) (e : event) (k' : kernel) : Prop :=
  ∀ p, e ≠ EvOpen (Some p) → pipe_bytes k p ++ sent p e = rcvd p e ++ pipe_bytes k' p.

Definition seg_end (sg : segment task unit) (k : kernel) : Prop :=
  match sg with
  | Return _ => held k = []
  | Block c lk t => held k = [lk] ∧ c = chan_of t ∧ lk = lock_of t ∧ blocked k t ∧ task_ok t
  end.

Record good_seg (i : nat) (k : kernel) (r : event * segment task unit) (k' : kernel) : Prop := {
  gs_data : data_ok k';
  gs_cpu : cpu_proc k' = cpu_proc k;
  gs_running pr : procs k !! i = Some pr → state pr = Running → procs k' !! i = Some pr;
  gs_sleep ts : sleepers (Some i) k ts → sleepers (Some i) k' ts;
  gs_flow : flow k r.1 k';
  gs_end : seg_end r.2 k';
}.

Definition waking (c : option chan) (k : kernel) : kernel :=
  match c with Some c => woken c k | None => k end.

Lemma waking_lookup c k j pr' :
  procs (waking c k) !! j = Some pr' →
  ∃ pr, procs k !! j = Some pr ∧
    (state pr' = Sleeping → pr' = pr ∧ c ≠ Some (p_chan pr)).
Proof.
  destruct c as [c|]; cbn; [|by eauto]. unfold wake. rewrite list_lookup_fmap.
  destruct (procs k !! j) as [pr|]; cbn; [|done]. intros <-%(inj Some). exists pr. split; [done|].
  unfold wake_one. destruct (decide _) as [|Hn]; [done|]. intros Hst. split; [done|]. intros [= ->]. by apply Hn.
Qed.

Lemma waking_running c k i pr :
  procs k !! i = Some pr → state pr = Running → procs (waking c k) !! i = Some pr.
Proof.
  intros Hi Hr. destruct c as [c|]; cbn; [|done]. unfold wake. rewrite list_lookup_fmap, Hi. cbn.
  unfold wake_one. rewrite decide_False; [done|]. rewrite Hr. by intros [? _].
Qed.

Lemma sleepers_waking i c k k' ts :
  procs k' = procs (waking c k) →
  (∀ t, blocked k t → blocked k' t ∨ c = Some (chan_of t)) → sleepers i k ts → sleepers i k' ts.
Proof.
  intros Hp Hb Hs j t pr' Hj Ht Hpr Hst. rewrite Hp in Hpr.
  destruct (waking_lookup _ _ _ _ Hpr) as (pr & Hpr' & Hsame). destruct (Hsame Hst) as [-> Hc].
  destruct (Hs j t pr Hj Ht Hpr' Hst) as [Hch Hbl]. split; [done|].
  destruct (Hb t Hbl) as [?|Hw]; [done|]. by rewrite <-Hch in Hw.
Qed.

Lemma waking_procs_length c k : length (procs (waking c k)) = length (procs k).
Proof. destruct c; [apply length_wake|done]. Qed.

Lemma waking_rest c k :
  pipes (waking c k) = pipes k ∧ console (waking c k) = console k ∧ cpu_proc (waking c k) = cpu_proc k ∧
  held (waking c k) = held k.
Proof. by destruct c. Qed.

Section pipe_effect.
Context (i : nat) (k : kernel) (p : nat) (q q' : Pipe) (c : option chan) (h : list lock).
Context (Hdata : data_ok k) (Hq : pipes k !! p = Some q) (Hgood : pipe_good q').
Context (Hread : queued q = [] → writeopen q = true →
  queued q' = [] ∧ writeopen q' = true ∨ c = Some (ReadChan p)).
Context (Hwrite : full q → readopen q = true → full q' ∧ readopen q' = true ∨ c = Some (WriteChan p)).

Let k' := set_held h (waking c (put_pipe p q' k)).

Lemma pipe_effect_pipes j : pipes k' !! j = if decide (j = p) then Some q' else pipes k !! j.
Proof.
  unfold k'. cbn [pipes set_held Locks_kernel]. rewrite (proj1 (waking_rest _ _)).
  change (pipes (put_pipe p q' k)) with (<[p := q']> (pipes k)).
  destruct (decide (j = p)) as [->|Hne].
  - apply list_lookup_insert_eq. by eapply lookup_lt_Some.
  - by apply list_lookup_insert_ne.
Qed.

Lemma pipe_effect_blocked t : blocked k t → blocked k' t ∨ c = Some (chan_of t).
Proof.
  destruct t as [|p' dst|p' src n|n dst]; cbn [blocked chan_of]; [done| | |].
  - intros (q0 & Hq0 & He & Hw). rewrite pipe_effect_pipes. destruct (decide (p' = p)) as [->|]; [|naive_solver].
    simplify_eq. destruct (Hread He Hw) as [[? ?]| ->]; [left; eauto|by right].
  - intros (q0 & Hq0 & He & Hw). rewrite pipe_effect_pipes. destruct (decide (p' = p)) as [->|]; [|naive_solver].
    simplify_eq. destruct (Hwrite He Hw) as [[? ?]| ->]; [left; eauto|by right].
  - intros ?. left. unfold k', con_state. by destruct c.
Qed.

Lemma pipe_effect_data : data_ok k'.
Proof.
  destruct Hdata as [Hd1 Hd2 Hd3 Hd4 Hd5]. constructor.
  - unfold k'. cbn. rewrite waking_procs_length. done.
  - replace (pipes k') with (<[p := q']> (pipes k)) by (unfold k'; by destruct c). by rewrite length_insert.
  - replace (pipes k') with (<[p := q']> (pipes k)) by (unfold k'; by destruct c). by apply Forall_insert.
  - unfold k'. by destruct c.
  - unfold k'. by destruct c.
Qed.

Lemma pipe_effect_flow e :
  (∀ j, j ≠ p → e ≠ EvOpen (Some j) → sent j e = [] ∧ rcvd j e = []) →
  (e ≠ EvOpen (Some p) → queued q ++ sent p e = rcvd p e ++ queued q') → flow k e k'.
Proof.
  intros Hother Hp j Hj. unfold pipe_bytes. rewrite pipe_effect_pipes.
  destruct (decide (j = p)) as [->|Hne]; [rewrite Hq; by apply Hp|].
  destruct (Hother j Hne Hj) as [-> ->]. by rewrite app_nil_r.
Qed.

Lemma pipe_effect e sg :
  flow k e k' → seg_end sg k' → good_seg i k (e, sg) k'.
Proof.
  intros Hf He. constructor; cbn [fst snd]; [apply pipe_effect_data|unfold k'; by destruct c| | |done|done].
  - intros pr Hpr Hr. unfold k'. cbn. by apply waking_running.
  - intros ts. apply (sleepers_waking _ c); [|apply pipe_effect_blocked]. unfold k'. by destruct c.
Qed.
End pipe_effect.

(** Facts about a slot of a well-formed state with room. *)
Lemma data_pipe k p : data_ok k → is_pipe p → ∃ q, pipes k !! p = Some q ∧ pipe_good q.
Proof.
  intros Hd Hp. destruct (lookup_lt_is_Some_2 (pipes k) p) as [q Hq]; [by rewrite (do_pipes k Hd)|].
  exists q. split; [done|]. by eapply Forall_lookup_1; [apply (do_good k Hd)|].
Qed.

Lemma room_pipe k p q : room k → pipes k !! p = Some q → nwrite q + 1024 ≤ USIZE_MAX.
Proof. intros [Hr _] Hq. by eapply (Forall_lookup_1 _ _ _ _ Hr). Qed.

Lemma keep_held k q p : pipes k !! p = Some q → set_held (held k) (waking None (put_pipe p q k)) = k.
Proof. intros Hq. cbn [waking]. rewrite put_pipe_id by done. apply set_held_held. Qed.

Lemma advance_good k q : pipe_good q → 0 ≤ k ≤ nwrite q - nread q → pipe_good (advance k q).
Proof. intros [Hok Hu] Hk. split; [by apply queued_advance|done]. Qed.

Ltac no_other_pipe :=
  intros; cbn; rewrite ?decide_False by done; done.

Lemma read_seg i k p dst :
  data_ok k → room k → held k = [LPipe p] → is_pipe p → Z.of_nat (length dst) ≤ CHUNK →
  wp (read_loop p dst) k (λ r k', good_seg i k (on_read p dst r) k').
Proof.
  intros Hd Hr Hh Hp Hdst. destruct (data_pipe k p Hd Hp) as (q & Hq & Hg). pose proof Hg as [Hok _].
  pose proof (room_pipe k p q Hr Hq) as Hroom. unfold CHUNK in *.
  wp_call (read_loop_spec p q k Hq Hok Hh (do_procs k Hd) dst); [lia|unfold ISIZE_MAX; lia|].
  intros r k'. destruct (decide _) as [[He Hw]|Hgo].
  - intros [-> ->]. cbn [on_read]. rewrite <-(keep_held k q p Hq) at 2.
    apply (pipe_effect i k p q q None); [done..|tauto|tauto| |].
    + apply (pipe_effect_flow k p q q); [done|no_other_pipe|]. intros _. cbn. by rewrite app_nil_r.
    + rewrite keep_held by done. cbn. split_and!; [done|done|done|eauto|done|done].
  - set (n := read_count q dst). intros [-> ->]. cbn [on_read].
    pose proof (length_queued q Hok) as Hlen. assert (n ≤ length (queued q))%nat as Hn by apply Nat.le_min_r.
    destruct (queued_advance q (Z.of_nat n) Hok ltac:(lia)) as [Hc _]. rewrite Nat2Z.id in Hc.
    apply (pipe_effect i k p q (advance (Z.of_nat n) q) (Some (WriteChan p)) []); [done|done| |tauto|by right| |done].
    { apply advance_good; [done|lia]. }
    apply (pipe_effect_flow k p q); [done|no_other_pipe|]. intros _. cbn. rewrite decide_True by done.
    rewrite Nat2Z.id, take_app_le, take_take, Nat.min_id by (rewrite length_take; lia).
    by rewrite app_nil_r, Hc, take_drop.
Qed.

Lemma write_seg i k p src n :
  data_ok k → room k → held k = [LPipe p] → is_pipe p → Z.of_nat (length src) ≤ CHUNK → bytes_ok src →
  0 ≤ n ≤ Z.of_nat (length src) →
  wp (write_loop p src n) k (λ r k', good_seg i k (on_write p src n r) k').
Proof.
  intros Hd Hr Hh Hp Hsrc Hb Hn. destruct (data_pipe k p Hd Hp) as (q & Hq & Hg). pose proof Hg as [Hok Hu].
  pose proof (room_pipe k p q Hr Hq) as Hroom. pose proof PIPESIZE_eq. unfold CHUNK in *.
  wp_call (write_loop_spec p q k Hq Hok Hh (do_procs k Hd) src n); [lia|done|unfold ISIZE_MAX; lia|lia|].
  intros r k' (j & q' & Hj & Hnj & Hok' & Hc & Hnr & Hnw & Hus & Hro & Hwo & Hend).
  assert (pipe_good q') as Hg' by (split; [done|]; rewrite Hus, Hro, Hwo; done).
  assert (full q → readopen q = true → full q' ∧ readopen q' = true ∨ Some (ReadChan p) = Some (WriteChan p)) as Hfull.
  { intros Hf Ho. left. rewrite Hro. split; [|done]. unfold full in *. pose proof (qo_cap q' Hok'). lia. }
  destruct r as [v|c lk n']; cbn [on_write].
  - destruct (decide (v = -1)) as [->|Hv].
    + destruct Hend as (-> & _ & _ & ->). cbn [Z.eqb].
      rewrite <-(put_pipe_id p q k Hq) at 2.
      apply (pipe_effect i k p q q None []); [done..|tauto|tauto| |done].
      apply (pipe_effect_flow k p q q); [done|no_other_pipe|]. intros _. cbn.
      rewrite decide_True by done. by rewrite app_nil_r.
    + destruct Hend as (-> & Hnj' & ->). rewrite (proj2 (Z.eqb_neq _ _)) by done.
      apply (pipe_effect i k p q q' (Some (ReadChan p)) []); [done..|by right|done| |done].
      apply (pipe_effect_flow k p q q'); [done|no_other_pipe|]. intros _. cbn. rewrite decide_True by done.
      rewrite Hc. unfold slice. rewrite (take_ge (drop _ src)) by (rewrite length_drop; lia). done.
  - destruct Hend as (-> & -> & -> & Hlt & Hf & Ho & ->).
    replace (woken (ReadChan p) (put_pipe p q' k)) with (set_held [LPipe p] (waking (Some (ReadChan p)) (put_pipe p q' k)))
      by (rewrite <-Hh; by destruct k).
    apply (pipe_effect i k p q q' (Some (ReadChan p)) [LPipe p]); [done..|by right|done| |].
    + apply (pipe_effect_flow k p q q'); [done|no_other_pipe|]. intros _. cbn. rewrite decide_True by done.
      rewrite Hc. do 2 f_equal. lia.
    + cbn. split_and!; try done; [|lia..]. exists q'. split_and!; [|done|congruence].
      apply list_lookup_insert_eq. by eapply lookup_lt_Some.
Qed.

Lemma close_seg i k p w :
  data_ok k → held k = [] → is_pipe p → wp (pipe_close p w) k (λ _ k', good_seg i k (EvNone, Return tt) k').
Proof.
  intros Hd Hh Hp. destruct (data_pipe k p Hd Hp) as (q & Hq & Hok & Hu).
  wp_call pipe_close_spec; [done|done|apply Hd|]. intros [] k' ->.
  assert (queued (closed w q) = queued q ∧ (full (closed w q) ↔ full q)) as [Hc Hf]
    by (unfold closed; destruct w, (negb _ && _); done).
  replace (put_pipe p (closed w q) (woken (close_chan p w) k)) with
    (set_held [] (waking (Some (close_chan p w)) (put_pipe p (closed w q) k))) by (rewrite <-Hh; by destruct k).
  apply (pipe_effect i k p q (closed w q)); [done|done| | | | |done].
  - split; [destruct Hok; unfold closed; destruct w, (negb _ && _); by constructor|].
    unfold closed. destruct w; cbn; [destruct (readopen q)|destruct (writeopen q)]; cbn; try done; intros Hn;
      destruct (Hu Hn); done.
  - rewrite Hc. destruct w; [by right|]. intros He Hw. left. split; [done|].
    unfold closed. cbn. by rewrite Hw.
  - rewrite Hf. destruct w; [|by right]. intros He Hw. left. split; [done|]. unfold closed. cbn. by rewrite Hw.
  - apply (pipe_effect_flow k p q (closed w q)); [done|no_other_pipe|]. intros _. cbn. by rewrite app_nil_r, Hc.
Qed.

Lemma alloc_seg i k :
  data_ok k → held k = [] → wp pipe_alloc k (λ r k', good_seg i k (EvOpen r, Return tt) k').
Proof.
  intros Hd Hh. wp_call pipe_alloc_spec; [done|apply Hd|]. intros [p|] k'.
  - intros (q & Hq & Hused & -> & _). assert (pipe_good q) as [Hok Hu] by (eapply Forall_lookup_1; [apply (do_good k Hd)|done]).
    destruct (Hu Hused) as [Hro Hwo].
    replace (put_pipe p (opened q) k) with (set_held [] (waking None (put_pipe p (opened q) k)))
      by (rewrite <-Hh; by destruct k).
    apply (pipe_effect i k p q (opened q)); [done|done| |congruence|congruence| |done].
    + split; [destruct Hok|done]. constructor; cbn; [done|done|lia|pose proof PIPESIZE_eq; lia].
    + apply (pipe_effect_flow k p q (opened q)); [done|no_other_pipe|done].
  - intros [-> _]. constructor; cbn [fst snd]; try done. intros p _. cbn. by rewrite app_nil_r.
Qed.

(** A change of the console only. *)
Lemma con_effect_rest k u j c h :
  let k' := set_held h (waking c (put_con u j k)) in
  pipes k' = pipes k ∧ console k' = mkConsole u j ∧ cpu_proc k' = cpu_proc k ∧ held k' = h ∧
  procs k' = procs (waking c k).
Proof. by destruct c. Qed.

Section con_effect.
Context (k : kernel) (u : Uart) (j : Input) (c : option chan) (h : list lock).
Context (Hd : data_ok k) (Hj : Input_ok j) (Hu : rx u = []).
Context (Hc : committed (con_state k) = [] → committed (abs j) = [] ∨ c = Some InputChan).

Local Abbreviation k' := (set_held h (waking c (put_con u j k))).

Lemma con_effect_data : data_ok k'.
Proof.
  destruct (con_effect_rest k u j c h) as (Hp1 & Hp2 & _ & _ & Hp). destruct Hd. constructor; rewrite ?Hp1, ?Hp2, ?Hp; try done.
  by rewrite waking_procs_length.
Qed.

Lemma con_effect_sleep i ts : sleepers i k ts → sleepers i k' ts.
Proof.
  destruct (con_effect_rest k u j c h) as (Hp1 & Hp2 & _ & _ & Hp).
  apply (sleepers_waking _ c); [done|].
  intros [|p dst|p src n|n dst]; cbn [blocked chan_of]; rewrite ?Hp1; [tauto|tauto|tauto|].
  unfold con_state at 2. rewrite Hp2. exact Hc.
Qed.

Lemma con_effect_flow e : (∀ p, sent p e = [] ∧ rcvd p e = []) → flow k e k'.
Proof.
  intros Hev p _. unfold pipe_bytes. rewrite (proj1 (con_effect_rest k u j c h) : pipes k' = pipes k). destruct (Hev p) as [-> ->].
  by rewrite app_nil_r.
Qed.

Lemma con_effect i e sg :
  (∀ p, sent p e = [] ∧ rcvd p e = []) → seg_end sg k' → good_seg i k (e, sg) k'.
Proof.
  intros Hev Hend. destruct (con_effect_rest k u j c h) as (Hp1 & Hp2 & Hp3 & _ & Hp).
  constructor; cbn [fst snd]; [apply con_effect_data|done| |apply con_effect_sleep|by apply con_effect_flow|done].
  intros pr Hpr Hr. rewrite Hp. by apply waking_running.
Qed.
End con_effect.

Lemma filled_take n (dst : list u8) : (n ≤ length dst)%nat → filled (take n dst) dst = dst.
Proof. intros. unfold filled. by rewrite length_take, Nat.min_l, take_drop. Qed.

Lemma read_cooked_block room acc c acc' rest :
  read_cooked room acc c = (acc', rest, false) → rest = [] ∧ (length acc' ≤ length acc + room)%nat.
Proof.
  revert acc c. induction room as [|room IH]; intros acc c; cbn; [done|].
  destruct c as [|b c]; [intros [= <- <-]; split; [done|lia]|].
  destruct (b =? EOF); [done|]. destruct (b =? NL); [done|].
  intros [-> Hl]%IH. rewrite length_app in Hl. cbn in Hl. split; [done|lia].
Qed.

Lemma line_seg i k n dst :
  data_ok k → room k → held k = [LConsole] → 0 ≤ n ≤ Z.of_nat (length dst) → Z.of_nat (length dst) ≤ CHUNK →
  wp (console_read_loop n dst) k (λ r k', good_seg i k (on_line r) k').
Proof.
  intros Hd [_ Hr] Hh Hn Hdst. pose proof (do_input k Hd) as Hok. pose proof (io_w _ Hok). unfold CHUNK in *.
  set (acc := take (Z.to_nat n) dst).
  assert (length acc = Z.to_nat n) as Hacc by (unfold acc; rewrite length_take; lia).
  assert (filled acc dst = dst) as Hfill by (apply filled_take; lia).
  rewrite <-Hfill at 1. replace n with (Z.of_nat (length acc)) by lia.
  wp_call console_read_loop_spec; [lia|unfold ISIZE_MAX; lia|done|done|lia|].
  intros r k'. destruct (read_cooked _ acc _) as [[acc' rest] fin] eqn:Hrc.
  intros (j & Hj & Habs & Hend). pose proof (do_rx k Hd). destruct fin; destruct Hend as [-> ->]; cbn [on_line].
  - apply (con_effect k _ j None []); try done. intros He. rewrite Habs. cbn. left.
    rewrite He in Hrc. destruct (length dst - length acc)%nat; cbn in Hrc; by simplify_eq.
  - apply read_cooked_block in Hrc as [-> Hl].
    replace (put_con (uart (console k)) j k) with (set_held [LConsole] (waking None (put_con (uart (console k)) j k)))
      by (rewrite <-Hh; by destruct k).
    apply (con_effect k _ j None [LConsole]); try done.
    + intros _. left. by rewrite Habs.
    + unfold seg_end, blocked, task_ok, con_state. cbn [waking set_held Locks_kernel console put_con set_console input].
      rewrite Habs, length_filled by lia. split_and!; [done..|lia|lia|done].
Qed.

Lemma con_write_seg i k bs :
  data_ok k → held k = [] → wp (console_write_bytes bs) k (λ _ k', good_seg i k (EvNone, Return tt) k').
Proof.
  intros Hd Hh. unfold console_write_bytes. wp_step. apply wp_acquire; [rewrite Hh; apply not_elem_of_nil|].
  wp_call con_write_bytes_spec. intros [] k' ->. eapply wp_release; [done|cbn in *; rewrite Hh; apply not_elem_of_nil|].
  replace (set_held _ _) with (set_held [] (waking None (put_con (mkUart (rx (uart (console k)))
    (tx (uart (console k)) ++ bs)) (input (console k)) k))) by (rewrite <-Hh; by destruct k).
  pose proof (do_input k Hd). pose proof (do_rx k Hd). apply con_effect; try done. by left.
Qed.

(** ** Steps keep the invariant *)

Lemma blocked_ext k k' t : pipes k' = pipes k → console k' = console k → blocked k t → blocked k' t.
Proof. intros Hp Hc. destruct t; cbn; unfold con_state; by rewrite ?Hp, ?Hc. Qed.

Lemma sleepers_ext i k k' ts :
  pipes k' = pipes k → console k' = console k →
  (∀ j, Some j ≠ i → procs k' !! j = procs k !! j) → sleepers i k ts → sleepers i k' ts.
Proof.
  intros Hp Hc Hpr Hs j t pr Hj Ht Hjp Hst. rewrite Hpr in Hjp by done.
  destruct (Hs j t pr Hj Ht Hjp Hst). split; [done|]. by eapply blocked_ext.
Qed.

Lemma sleepers_insert i k ts t : sleepers (Some i) k ts → sleepers (Some i) k (<[i := t]> ts).
Proof. intros Hs j t' pr Hj. rewrite list_lookup_insert_ne by congruence. by apply Hs. Qed.

Lemma data_ext k k' :
  pipes k' = pipes k → console k' = console k → length (procs k') = length (procs k) → data_ok k → data_ok k'.
Proof. intros Hp Hc Hl []. constructor; by rewrite ?Hp, ?Hc, ?Hl. Qed.

Lemma flow_ext k k1 e k' : pipes k1 = pipes k → flow k1 e k' → flow k e k'.
Proof. intros Hp Hf p Hne. specialize (Hf p Hne). unfold pipe_bytes in *. by rewrite Hp in Hf. Qed.

(** A segment of process [i], which is on the hart, up to the next switch. *)
Definition after (k : kernel) (i : nat) (ts : list task) (et : event * task) (k' : kernel) : Prop :=
  sys_ok (mkSys k' (<[i := et.2]> ts)) ∧ flow k et.1 k'.

Lemma settle_spec i k r k1 ts pr :
  good_seg i k r k1 → cpu_proc k = Some i → procs k !! i = Some pr → state pr = Running →
  length ts = Z.to_nat NPROC → Forall task_ok ts → sleepers (Some i) k ts →
  wp (settle i r) k1 (after k i ts).
Proof.
  intros [Hd Hcpu Hrun Hsl Hf Hend] Hc Hpr Hst Hlen Hts Hs. rewrite Hc in Hcpu.
  specialize (Hrun pr Hpr Hst). specialize (Hsl ts Hs).
  assert (i < length ts)%nat as Hi by (rewrite Hlen, <-(do_procs k1 Hd); by eapply lookup_lt_Some).
  unfold settle. destruct r as [e [[]|c lk t]]; cbn [fst snd] in *.
  - wp_steps. split; [|done]. constructor; cbn; [done|done|by rewrite length_insert|by apply Forall_insert| |].
    + rewrite Hcpu. by apply sleepers_insert.
    + intros j. rewrite Hcpu. intros [= <-]. split; [by apply list_lookup_insert_eq|by eauto].
  - destruct Hend as (Hh & -> & -> & Hb & Ht).
    assert (wp (sleep_enter (chan_of t) (lock_of t);; scheduler_back i) k1 (λ _ k', k' =
      set_held [] (set_cpu_proc None (set_procs (<[i := set_state Sleeping (set_chan (chan_of t) pr)]> (procs k1)) k1))))
      as Hsleep by (apply (sleep_enter_spec _ _ i pr); [done|done|done|by destruct t]).
    apply wp_ok in Hsleep as ([] & k' & Hrun' & ->). unfold mbind, M_bind, wp in *.
    destruct (sleep_enter (chan_of t) (lock_of t) k1) as [[[] k2]|]; [|done]. rewrite Hrun'. cbn.
    split; [|done]. constructor; cbn; [|done|by rewrite length_insert|by apply Forall_insert| |done].
    + eapply data_ext; [..|exact Hd]; [done|done|cbn; by rewrite length_insert].
    + intros j t' pr' _ Ht' Hpr' Hst'. cbn in Hpr'. destruct (decide (j = i)) as [->|Hne].
      * rewrite list_lookup_insert_eq in Ht' by done. injection Ht' as <-.
        rewrite list_lookup_insert_eq in Hpr' by (by eapply lookup_lt_Some). injection Hpr' as <-.
        split; [done|]. by eapply blocked_ext; [..|exact Hb].
      * rewrite list_lookup_insert_ne in Ht' by congruence. rewrite list_lookup_insert_ne in Hpr' by congruence.
        destruct (Hsl j t' pr') as [Hch Hbl]; [congruence|done|done|done|].
        split; [done|]. by eapply blocked_ext; [..|exact Hbl].
Qed.

Lemma good_seg_ext i k k1 r k' :
  pipes k1 = pipes k → console k1 = console k → cpu_proc k1 = cpu_proc k → procs k1 = procs k →
  good_seg i k1 r k' → good_seg i k r k'.
Proof.
  intros Hp Hc Hcpu Hpr [H1 H2 H3 H4 H5 H6]. constructor; try done.
  - by rewrite H2.
  - by rewrite <-Hpr.
  - intros ts Hs. apply H4. eapply sleepers_ext; [..|exact Hs]; [done|done|by rewrite Hpr].
  - by eapply flow_ext.
Qed.

Lemma exec_call_spec i k c :
  data_ok k → held k = [] → room k → call_ok c → wp (exec_call c) k (good_seg i k).
Proof.
  intros Hd Hh Hr Hok.
  assert (∀ l, data_ok (set_held [l] k)) as Hd' by (intros l; by eapply data_ext; [..|exact Hd]).
  assert (∀ l, l ∉ held k) as Hn by (intros l; rewrite Hh; apply not_elem_of_nil).
  assert (∀ l, set_held (l :: held k) k = set_held [l] k) as Hset by (intros l; by rewrite Hh).
  destruct c as [|p dst|p src|p w|dst|bs]; cbn [exec_call call_ok] in *.
  - wp_call (alloc_seg i k); [done|done|]. intros r k' Hg. by wp_steps.
  - unfold pipe_read. wp_steps. apply wp_acquire; [done|]. rewrite Hset.
    wp_call (read_seg i); [done|done|done|apply Hok|apply Hok|]. intros r k' Hg. wp_steps.
    by eapply good_seg_ext; [..|exact Hg].
  - unfold pipe_write. wp_steps. apply wp_acquire; [done|]. rewrite Hset.
    wp_call (write_seg i); [done|done|done|apply Hok|apply Hok|apply Hok|lia|]. intros r k' Hg. wp_steps.
    by eapply good_seg_ext; [..|exact Hg].
  - wp_call (close_seg i); [done|done|done|]. intros [] k' Hg. by wp_steps.
  - unfold console_read. destruct dst as [|x dst].
    + wp_steps. cbn. constructor; cbn [fst snd]; try done. intros p _. cbn. by rewrite app_nil_r.
    + wp_steps. apply wp_acquire; [done|]. rewrite Hset.
      wp_call (line_seg i); [done|done|done|lia|done|]. intros r k' Hg. wp_steps.
      by eapply good_seg_ext; [..|exact Hg].
  - wp_call (con_write_seg i); [done|done|]. intros [] k' Hg. by wp_steps.
Qed.

Lemma run_call_spec i k ts c :
  sys_ok (mkSys k ts) → room k → cpu_proc k = Some i → call_ok c → wp (run_call i c) k (after k i ts).
Proof.
  intros [Hd Hh Hlen Hts Hs Hcpu] Hr Hc Hok. cbn in *. rewrite Hc in Hs.
  destruct (Hcpu i Hc) as [_ (pr & Hpr & Hst)]. unfold run_call.
  wp_call (exec_call_spec i k c); [done..|]. intros r k1 Hg. by eapply settle_spec.
Qed.

(** Process [i] continues with its task, switched to by the scheduler. *)
Lemma resume_spec i k t pr :
  data_ok k → held k = [LProc i] → room k → cpu_proc k = Some i → procs k !! i = Some pr → task_ok t →
  wp (resume t) k (λ r k', ∃ k1,
    good_seg i k1 r k' ∧ pipes k1 = pipes k ∧ console k1 = console k ∧ cpu_proc k1 = Some i ∧
    procs k1 = if decide (t = TUser) then procs k else <[i := set_chan NoChan pr]> (procs k)).
Proof.
  intros Hd Hh Hr Hc Hpr Hok.
  set (k1 l := set_held [l] (set_procs (<[i := set_chan NoChan pr]> (procs k)) k)).
  assert (∀ l, data_ok (k1 l)) as Hd1
    by (intros l; eapply data_ext; [..|exact Hd]; [done|done|cbn; by rewrite length_insert]).
  destruct t as [|p dst|p src n|n dst]; cbn [resume task_ok] in *.
  - wp_call yield_leave_spec; [done|done|]. intros [] k' ->. wp_steps. exists (set_held [] k).
    split_and!; [|done..]. constructor; cbn [fst snd]; try done.
    + by eapply data_ext; [..|exact Hd].
    + intros p _. cbn. by rewrite app_nil_r.
  - wp_call sleep_leave_spec; [done..|]. intros [] k' ->.
    wp_call (read_seg i (k1 (LPipe p))); [done|done|done|apply Hok|apply Hok|]. intros r k' Hg. wp_steps.
    exists (k1 (LPipe p)). by rewrite decide_False by done.
  - wp_call sleep_leave_spec; [done..|]. intros [] k' ->.
    wp_call (write_seg i (k1 (LPipe p))); [done|done|done|apply Hok|apply Hok|apply Hok|apply Hok|].
    intros r k' Hg. wp_steps. exists (k1 (LPipe p)). by rewrite decide_False by done.
  - wp_call sleep_leave_spec; [done..|]. intros [] k' ->.
    wp_call (line_seg i (k1 LConsole)); [done|done|done|apply Hok|apply Hok|]. intros r k' Hg. wp_steps.
    exists (k1 LConsole). by rewrite decide_False by done.
Qed.

Lemma run_task_spec i k ts t pr :
  sys_ok (mkSys k ts) → room k → cpu_proc k = None → ts !! i = Some t → procs k !! i = Some pr →
  wp (run_task i t) k (λ r k',
    match r with
    | Some et => state pr = Runnable ∧ after k i ts et k'
    | None => state pr ≠ Runnable ∧ k' = k
    end).
Proof.
  intros [Hd Hh Hlen Hts Hs _] Hr Hc Ht Hpr. cbn in *. rewrite Hc in Hs. unfold run_task.
  wp_call scheduler_take_spec; [done|done|]. intros b k1 [-> Hk1].
  destruct (decide (state pr = Runnable)) as [Hrun|Hrun];
    [rewrite bool_decide_eq_true_2 in * by done|rewrite bool_decide_eq_false_2 in * by done]; [|by wp_steps].
  assert (i < length (procs k))%nat as Hi by (by eapply lookup_lt_Some).
  subst k1. wp_call (resume_spec i _ t (set_state Running pr)).
  - eapply data_ext; [..|exact Hd]; [done|done|cbn; by rewrite length_insert].
  - done.
  - done.
  - done.
  - cbn. by apply list_lookup_insert_eq.
  - by eapply Forall_lookup_1.
  - intros r k' (k2 & Hg & Hp & Hcon & Hcpu & Hprocs). cbn in Hp, Hcon, Hprocs.
    assert (∃ pr', procs k2 !! i = Some pr' ∧ state pr' = Running) as (pr' & Hpr' & Hst').
    { rewrite Hprocs. destruct (decide _); eexists; (split; [apply list_lookup_insert_eq; by rewrite ?length_insert|done]). }
    assert (∀ j, j ≠ i → procs k2 !! j = procs k !! j) as Hsame.
    { intros j Hj. rewrite Hprocs. destruct (decide _); by rewrite !list_lookup_insert_ne by congruence. }
    wp_call (settle_spec i k2 r k' ts pr'); [done|done|done|done|done|done| |].
    + intros j t' p' Hj Ht' Hp' Hst''. rewrite Hsame in Hp' by congruence.
      destruct (Hs j t' p') as [? Hbl]; [done..|]. split; [done|]. by eapply blocked_ext; [..|exact Hbl].
    + intros et k3 [Hok Hf]. wp_steps. split; [done|]. split; [done|]. by eapply flow_ext.
Qed.

Lemma run_yield_spec i k ts :
  sys_ok (mkSys k ts) → cpu_proc k = Some i →
  wp (run_yield i) k (λ _ k', sys_ok (mkSys k' ts) ∧ flow k EvNone k').
Proof.
  intros [Hd Hh Hlen Hts Hs Hcpu] Hc. cbn in *. destruct (Hcpu i Hc) as [Ht (pr & Hpr & Hst)].
  unfold run_yield. eapply wp_mono; [by eapply yield_enter_spec|]. intros [] k' ->.
  split; [|intros p _; cbn; by rewrite app_nil_r]. constructor; cbn; [|done|done|done| |done].
  - eapply data_ext; [..|exact Hd]; [done|done|cbn; by rewrite length_insert].
  - intros j t' pr' _ Ht' Hpr' Hst'. cbn in Hpr'. destruct (decide (j = i)) as [->|Hne].
    + rewrite list_lookup_insert_eq in Hpr' by (by eapply lookup_lt_Some). by injection Hpr' as <-.
    + rewrite list_lookup_insert_ne in Hpr' by congruence.
      destruct (Hs j t' pr') as [? Hbl]; [congruence|done..|]. split; [done|]. by eapply blocked_ext; [..|exact Hbl].
Qed.

Lemma cook_quiet bs c : (cook_all bs c).2 = false → committed (cook_all bs c).1 = committed c.
Proof.
  revert c. induction bs as [|b bs IH]; intros c; cbn [cook_all]; [done|].
  assert ((cook b c).2 = false → committed (cook b c).1 = committed c) as H1.
  { unfold cook. destruct (_ || _); [done|]. destruct (decide _); [done|]. destruct (_ || _ || _); done. }
  destruct (cook b c) as [c1 w1]. specialize (IH c1). destruct (cook_all bs c1) as [c2 w2]. cbn in *.
  intros [-> ->]%orb_false_iff. rewrite IH by done. by apply H1.
Qed.

Lemma run_intr_spec k ts bs :
  sys_ok (mkSys k ts) → room k → bytes_ok bs → Z.of_nat (length bs) ≤ CHUNK →
  wp (run_intr bs) k (λ _ k', sys_ok (mkSys k' ts) ∧ flow k EvNone k' ∧
    con_state k' = (cook_all bs (con_state k)).1).
Proof.
  intros [Hd Hh Hlen Hts Hs Hcpu] [_ Hr] Hb Hl. cbn in *. unfold run_intr, CHUNK in *. wp_step. wp_step.
  rewrite (do_rx k Hd). wp_call console_intr_spec; [done|apply Hd|apply Hd|done|cbn; lia|].
  intros [] k' (j & k1 & Hk1 & Hj & _ & Habs & ->). cbn [console put_con set_console uart rx tx app] in Habs, Hk1 |- *.
  assert (con_state (put_con (mkUart bs (tx (uart (console k)))) (input (console k)) k) = con_state k) as E0 by done.
  rewrite E0 in Hk1, Habs |- *. clear E0.
  set (u := mkUart [] (tx (uart (console k)) ++ echo_all bs (con_state k))) in *.
  set (c := if (cook_all bs (con_state k)).2 then Some InputChan else None).
  assert ((if (cook_all bs (con_state k)).2 then woken InputChan k1 else k1) =
    set_held [] (waking c (put_con u j k))) as ->.
  { subst k1 c. destruct (cook_all _ _).2; rewrite <-Hh; by destruct k. }
  assert (committed (con_state k) = [] → committed (abs j) = [] ∨ c = Some InputChan) as Hquiet.
  { rewrite Habs. unfold c. destruct (cook_all bs (con_state k)).2 eqn:Hw; [by right|]. left. by rewrite cook_quiet. }
  destruct (con_effect_rest k u j c []) as (Hp1 & Hp2 & Hp3 & Hp4 & Hp5).
  split_and!; [constructor; cbn [kern tasks]| |].
  - by apply con_effect_data.
  - done.
  - done.
  - done.
  - rewrite Hp3. by apply con_effect_sleep.
  - intros i. rewrite Hp3, Hp5. intros Hc. destruct (Hcpu i Hc) as (Ht & pr & Hpr & Hst).
    split; [done|]. exists pr. split; [by apply waking_running|done].
  - by apply con_effect_flow.
  - unfold con_state at 1. by rewrite Hp2.
Qed.

Lemma step_ok s e s' : sys_ok s → step s e s' → sys_ok s' ∧ flow (kern s) e (kern s').
Proof.
  intros Hs Hstep. destruct Hstep as [i c k ts k' e t Hr Hc Ht Hok Hrun|i k ts k' Hc Hrun
    |i t k ts k' e t' Hr Hc Ht Hrun|bs k ts k' Hr Hb Hl Hrun].
  - exact (wp_run _ _ _ _ _ (run_call_spec i k ts c Hs Hr Hc Hok) Hrun).
  - exact (wp_run _ _ _ _ _ (run_yield_spec i k ts Hs Hc) Hrun).
  - pose proof (so_len _ Hs) as Hlen. pose proof (do_procs _ (so_data _ Hs)) as Hlen'. cbn in *.
    destruct (lookup_lt_is_Some_2 (procs k) i) as [pr Hpr].
    { rewrite Hlen', <-Hlen. by eapply lookup_lt_Some. }
    exact (proj2 (wp_run _ _ _ _ _ (run_task_spec i k ts t pr Hs Hr Hc Ht Hpr) Hrun)).
  - destruct (wp_run _ _ _ _ _ (run_intr_spec k ts bs Hs Hr Hb Hl) Hrun) as (? & ? & _). done.
Qed.

Lemma steps_ok s tr s' : sys_ok s → steps s tr s' → sys_ok s'.
Proof. intros Hs Hst. induction Hst as [|s tr s' e s'' _ IH Hstep]; [done|]. by eapply step_ok; [apply IH|]. Qed.

(** ** Theorems *)

(** C5: no wakeup is lost: however the calls of the processes, the scheduler and
    the arrival of console input are interleaved, a process that is asleep waits
    on the channel of its call and what it waits for has not happened: a reader's
    pipe is empty with a writing end open, a writer's pipe is full with a reading
    end open, and no console line is ready. *)
Theorem no_lost_wakeup s0 tr s i pr :
  sys_ok s0 → steps s0 tr s → procs (kern s) !! i = Some pr → state pr = Sleeping →
  ∃ t, tasks s !! i = Some t ∧ p_chan pr = chan_of t ∧ blocked (kern s) t.
Proof.
  intros Hs0 Hst Hpr Hsl. destruct (steps_ok _ _ _ Hs0 Hst) as [Hd Hh Hlen Hts Hs Hcpu].
  destruct (lookup_lt_is_Some_2 (tasks s) i) as [t Ht].
  { rewrite Hlen, <-(do_procs _ Hd). by eapply lookup_lt_Some. }
  exists t. split; [done|]. apply (Hs i t pr); try done. intros Hc. symmetry in Hc.
  destruct (Hcpu i Hc) as (_ & pr' & Hpr' & Hrun). congruence.
Qed.

(** C9: a pipe is a queue: along every interleaving, the bytes that were in the
    pipe followed by the bytes writers handed over are exactly the bytes readers
    received followed by the bytes still in the pipe, until the slot is opened
    anew. *)
Theorem pipe_fifo s0 tr s p :
  sys_ok s0 → steps s0 tr s → Forall (λ e, e ≠ EvOpen (Some p)) tr →
  pipe_bytes (kern s0) p ++ concat (sent p <$> tr) = concat (rcvd p <$> tr) ++ pipe_bytes (kern s) p.
Proof.
  intros Hs0 Hst. induction Hst as [s|s tr s' e s'' Hst IH Hstep]; intros Htr; [by cbn; rewrite app_nil_r|].
  apply Forall_app in Htr as [Htr [He _]%Forall_cons].
  destruct (step_ok _ _ _ (steps_ok _ _ _ Hs0 Hst) Hstep) as [_ Hf].
  rewrite !fmap_app, !concat_app. cbn. rewrite !app_nil_r, app_assoc, IH by done.
  by rewrite <-app_assoc, (Hf p He), app_assoc.
Qed.

(** C33: the system never stops in a panic or on a lock: in every reachable state
    the process on the hart can make any call, an idle hart can take any runnable
    process, and a console interrupt can be served. *)
Theorem system_progress s0 tr k ts :
  sys_ok s0 → steps s0 tr (mkSys k ts) → room k →
  (∀ i c, cpu_proc k = Some i → call_ok c → ∃ e t k',
     run_call i c k = Ok ((e, t), k') ∧ step (mkSys k ts) e (mkSys k' (<[i := t]> ts))) ∧
  (∀ i pr, cpu_proc k = None → procs k !! i = Some pr → state pr = Runnable → ∃ t e t' k',
     run_task i t k = Ok (Some (e, t'), k') ∧ step (mkSys k ts) e (mkSys k' (<[i := t']> ts))) ∧
  (∀ bs, bytes_ok bs → Z.of_nat (length bs) ≤ CHUNK → ∃ k',
     run_intr bs k = Ok (tt, k') ∧ step (mkSys k ts) EvNone (mkSys k' ts)).
Proof.
  intros Hs0 Hst Hr. pose proof (steps_ok _ _ _ Hs0 Hst) as Hs. split_and!.
  - intros i c Hc Hok. pose proof (run_call_spec i k ts c Hs Hr Hc Hok) as Hw.
    apply wp_ok in Hw as ([e t] & k' & Hrun & _). exists e, t, k'. split; [done|]. eapply step_call; try done.
    by apply (so_cpu _ Hs).
  - intros i pr Hc Hpr Hst'. destruct (lookup_lt_is_Some_2 ts i) as [t Ht].
    { rewrite (so_len _ Hs : length ts = _), <-(do_procs _ (so_data _ Hs)). by eapply lookup_lt_Some. }
    pose proof (run_task_spec i k ts t pr Hs Hr Hc Ht Hpr) as Hw.
    apply wp_ok in Hw as ([[e t']|] & k' & Hrun & Hres); [|by destruct Hres].
    exists t, e, t', k'. split; [done|]. by eapply step_task.
  - intros bs Hb Hl. pose proof (run_intr_spec k ts bs Hs Hr Hb Hl) as Hw.
    apply wp_ok in Hw as ([] & k' & Hrun & _). exists k'. split; [done|]. by eapply step_intr.
Qed.

(** ** A run

    Two processes; process 0 is on the hart, opens a pipe and reads from it
    while it is empty, process 1 writes. *)

Definition demo_kernel : kernel := {|
  k_held := [];
  procs := [set_state Running Process_unused; set_state Runnable Process_unused] ++
           replicate 14 Process_unused;
  cpu_proc := Some 0%nat; next_pid := 3; initproc := None;
  ftable := []; pipes := replicate (Z.to_nat NPIPE) Pipe_unused;
  console := mkConsole (mkUart [] []) Input_new;
  k_fs := mkFs [] [] [] []; k_ram := mkMachine ∅ 0 [];
|}.

Definition demo_tasks : list task := replicate (Z.to_nat NPROC) TUser.

Definition state_after {A} (m : M kernel A) (k : kernel) : kernel :=
  match m k with Ok (_, k') => k' | Fault _ => k end.

Definition demo_opened : kernel := state_after (run_call 0 CPipe) demo_kernel.
Definition demo_asleep : kernel := state_after (run_call 0 (CRead 0 [0; 0; 0])) demo_opened.
Definition demo_switched : kernel := state_after (run_task 1 TUser) demo_asleep.
Definition demo_written : kernel := state_after (run_call 1 (CWrite 0 (bytes_of_string "hi"))) demo_switched.

Definition reader_task : task := TPipeRead 0 [0; 0; 0].

Lemma demo_sys_ok : sys_ok (mkSys demo_kernel demo_tasks).
Proof.
  constructor; cbn [kern tasks]; [|done|done| | |].
  - constructor; [done|done| |by repeat constructor|done].
    apply Forall_replicate. split; [by repeat constructor|done].
  - by apply Forall_replicate.
  - intros j t pr _ _ Hpr Hst. exfalso.
    assert (Forall (λ pr, state pr ≠ Sleeping) (procs demo_kernel)) as Hall by (by repeat constructor).
    by eapply (Forall_lookup_1 _ _ _ _ Hall Hpr).
  - intros i [= <-]. split; [done|]. by eexists.
Qed.

Lemma demo_room_fixed k : forallb (λ q, nwrite q + 1024 <=? USIZE_MAX) (pipes k) = true →
  (i_e (input (console k)) + 1024 <=? USIZE_MAX) = true → room k.
Proof.
  intros Hp He. split; [|by apply Z.leb_le]. apply Forall_forall. intros q Hq.
  apply Z.leb_le. rewrite forallb_forall in Hp. apply Hp. by apply list_elem_of_In.
Qed.

Definition demo_yielded : kernel := state_after (run_yield 1) demo_written.
Definition demo_read : kernel := state_after (run_task 0 reader_task) demo_yielded.

Definition ts_opened : list task := <[0%nat := TUser]> demo_tasks.
Definition ts_asleep : list task := <[0%nat := reader_task]> ts_opened.
Definition ts_switched : list task := <[1%nat := TUser]> ts_asleep.
Definition ts_written : list task := <[1%nat := TUser]> ts_switched.
Definition ts_read : list task := <[0%nat := TUser]> ts_written.

Lemma demo_is_pipe : is_pipe 0.
Proof. unfold is_pipe. change NPIPE with 64. lia. Qed.

Lemma demo_step_open : step (mkSys demo_kernel demo_tasks) (EvOpen (Some 0%nat)) (mkSys demo_opened ts_opened).
Proof. apply (step_call 0 CPipe); [by apply demo_room_fixed|done|done|done|by vm_compute]. Qed.

Lemma demo_step_sleep : step (mkSys demo_opened ts_opened) EvNone (mkSys demo_asleep ts_asleep).
Proof.
  apply (step_call 0 (CRead 0 [0; 0; 0])); [by apply demo_room_fixed|by vm_compute|done| |by vm_compute].
  split; [exact demo_is_pipe|done].
Qed.

Lemma demo_step_switch : step (mkSys demo_asleep ts_asleep) EvNone (mkSys demo_switched ts_switched).
Proof. apply (step_task 1 TUser); [by apply demo_room_fixed|by vm_compute|done|by vm_compute]. Qed.

Lemma demo_step_write :
  step (mkSys demo_switched ts_switched) (EvSent 0 (bytes_of_string "hi")) (mkSys demo_written ts_written).
Proof.
  apply (step_call 1 (CWrite 0 (bytes_of_string "hi"))); [by apply demo_room_fixed|by vm_compute|done| |by vm_compute].
  split; [exact demo_is_pipe|]. split; [done|by repeat constructor].
Qed.

Lemma demo_step_yield : step (mkSys demo_written ts_written) EvNone (mkSys demo_yielded ts_written).
Proof. apply (step_yield 1); by vm_compute. Qed.

Lemma demo_step_read : step (mkSys demo_yielded ts_written) (EvRcvd 0 (bytes_of_string "hi")) (mkSys demo_read ts_read).
Proof. apply (step_task 0 reader_task); [by apply demo_room_fixed|by vm_compute|done|by vm_compute]. Qed.

Lemma demo_steps_asleep :
  steps (mkSys demo_kernel demo_tasks) [EvOpen (Some 0%nat); EvNone] (mkSys demo_asleep ts_asleep).
Proof.
  apply (steps_snoc _ [EvOpen (Some 0%nat)] (mkSys demo_opened ts_opened)); [|exact demo_step_sleep].
  apply (steps_snoc _ [] (mkSys demo_kernel demo_tasks)); [constructor|exact demo_step_open].
Qed.

Lemma demo_opened_ok : sys_ok (mkSys demo_opened ts_opened).
Proof. exact (proj1 (step_ok _ _ _ demo_sys_ok demo_step_open)). Qed.

(** The reader resumes and receives what was written. *)
Definition demo_trace : list event :=
  [EvNone; EvNone; EvSent 0 (bytes_of_string "hi"); EvNone; EvRcvd 0 (bytes_of_string "hi")].

Lemma demo_steps_read : steps (mkSys demo_opened ts_opened) demo_trace (mkSys demo_read ts_read).
Proof.
  refine (steps_snoc _ [_; _; _; _] _ _ _ _ demo_step_read).
  refine (steps_snoc _ [_; _; _] _ _ _ _ demo_step_yield).
  refine (steps_snoc _ [_; _] _ _ _ _ demo_step_write).
  refine (steps_snoc _ [_] _ _ _ _ demo_step_switch).
  exact (steps_snoc _ [] _ _ _ (steps_nil _) demo_step_sleep).
Qed.

Lemma no_lost_wakeup_witness :
  ∃ t, ts_asleep !! 0%nat = Some t ∧ ReadChan 0 = chan_of t ∧ blocked demo_asleep t.
Proof.
  apply (no_lost_wakeup _ _ _ 0%nat (set_state Sleeping (set_chan (ReadChan 0) Process_unused))
           demo_sys_ok demo_steps_asleep); [by vm_compute|done].
Defined.

Lemma pipe_fifo_witness :
  pipe_bytes (kern (mkSys demo_opened ts_opened)) 0 ++ concat (sent 0 <$> demo_trace) =
  concat (rcvd 0 <$> demo_trace) ++ pipe_bytes (kern (mkSys demo_read ts_read)) 0.
Proof.
  refine (pipe_fifo (mkSys demo_opened ts_opened) demo_trace (mkSys demo_read ts_read) 0 demo_opened_ok demo_steps_read _).
  by repeat constructor.
Defined.

Lemma system_progress_witness :
  ∃ e t k', run_call 1 (CClose 0 true) demo_switched = Ok ((e, t), k') ∧
    step (mkSys demo_switched ts_switched) e (mkSys k' (<[1%nat := t]> ts_switched)).
Proof.
  apply (system_progress (mkSys demo_kernel demo_tasks) ([EvOpen (Some 0%nat); EvNone] ++ [EvNone])).
  - exact demo_sys_ok.
  - exact (steps_snoc _ _ _ _ _ demo_steps_asleep demo_step_switch).
  - by apply demo_room_fixed.
  - by vm_compute.
  - exact demo_is_pipe.
Defined.
