(* ===== verification/Proc.v ===== *)
(** * Process lifecycle (src/src/proc.rs)

    Allocation and release of process slots, [fork], [exit], [wait], and the
    argument stack of [exec].  [exit] and [wait] are split at their switch to the
    scheduler like [sleep]. *)

From S2P Require Import Prelude Ring Spinlock FsBase Icache Kalloc Vm Kernel Sched Pipe Console File.

Section proc.
(** Linker symbols and the address of [forkret]. *)
Context (kernel_end trampoline_start forkret : usize).

(** ** Process slots *)

Definition null_ofile : list (option nat) := replicate (Z.to_nat NOFILE) None.

(** [for fd in 0..NOFILE] of [freeproc] and [close_open_files]; [early] clears
    the entry before the file is closed. *)
Definition close_fd (early : bool) (i : nat) (fd : nat) (_ : unit) : M kernel unit :=
  p ← proc_slot i;
  f ← expect (ofile p !! fd) "index out of bounds";
  match f with
  | None => mret tt
  | Some f =>
      let clear := p ← proc_slot i;
        set_proc i (mkProcess (state p) (pid p) (context p) (parent p) (xstate p) (p_chan p) (pagetable p)
          (trapframe p) (sz p) (kstack p) (<[fd := None]> (ofile p)) (cwd p)) in
      if early then clear;; file_close f else file_close f;; clear
  end.

Definition fds : list nat := seq 0 (Z.to_nat NOFILE).

Definition freeproc (i : nat) : M kernel unit :=
  h ← gets held;
  assert (bool_decide (LProc i ∈ h)) "freeproc: p.lock not held";;
  p ← proc_slot i;
  (if negb (trapframe p =? 0) then in_ram (kfree kernel_end (trapframe p)) else mret tt);;
  (if negb (pagetable p =? 0) then in_ram (proc_freepagetable kernel_end (pagetable p) (sz p)) else mret tt);;
  (if negb (kstack p =? 0) then in_ram (kfree kernel_end (kstack p)) else mret tt);;
  for_fold fds (close_fd false i) tt;;
  p ← proc_slot i;
  in_fs (iput (cwd p));;
  set_proc i (mkProcess Unused 0 Context_zero None 0 NoChan 0 0 0 0 (ofile p) root_placeholder).

(** [NEXT_PID.fetch_add(1)] wraps around. *)
Definition fetch_pid : M kernel usize :=
  n ← gets next_pid;
  modify (λ s, mkKernel (k_held s) (procs s) (cpu_proc s) ((n + 1) mod 2 ^ 64) (initproc s) (ftable s) (pipes s)
                 (console s) (k_fs s) (k_ram s));;
  mret n.

Definition set_memory (pt tf kst : usize) (p : Process) : Process :=
  mkProcess (state p) (pid p) (context p) (parent p) (xstate p) (p_chan p) pt tf (sz p) kst (ofile p) (cwd p).

(** Give up a half-initialised slot. *)
Definition allocproc_fail (i : nat) : M kernel (unit + option nat) :=
  freeproc i;; release (LProc i);; mret (inr None).

Definition allocproc_try (i : nat) (_ : unit) : M kernel (unit + option nat) :=
  acquire (LProc i);;
  p ← proc_slot i;
  if decide (state p ≠ Unused) then release (LProc i);; mret (inl tt)
  else
    n ← fetch_pid;
    r ← in_fs root;
    set_proc i (mkProcess Used n Context_zero None 0 NoChan 0 0 0 0 null_ofile r);;
    tf ← in_ram kalloc_zeroed;
    match tf with
    | None => allocproc_fail i
    | Some tf =>
        p ← proc_slot i;
        set_proc i (set_memory 0 tf 0 p);;
        pt ← in_ram (proc_pagetable kernel_end trampoline_start tf);
        match pt with
        | None => allocproc_fail i
        | Some pt =>
            p ← proc_slot i;
            set_proc i (set_memory pt tf 0 p);;
            kst ← in_ram kalloc;
            match kst with
            | None => allocproc_fail i
            | Some kst =>
                p ← proc_slot i;
                set_proc i (set_memory pt tf kst p);;
                mret (inr (Some i))
            end
        end
    end.

(** On success the new slot's lock is held. *)
Definition allocproc : M kernel (option nat) :=
  r ← for_each proc_slots allocproc_try tt;
  match r with
  | inr r => mret r
  | inl _ => mret None
  end.

(** ** Fork *)

(** [size_of::<Trapframe>()] and the offset of [a0]. *)
Definition TRAPFRAME_SIZE : nat := 288.
Definition A0 : usize := 112.

(** [copy_nonoverlapping(src, dst, 1)] of a trapframe. *)
Definition copy_trapframe (src dst : usize) : M machine unit :=
  d ← load_page src;
  d' ← load_page dst;
  store_page dst (take TRAPFRAME_SIZE d ++ drop TRAPFRAME_SIZE d').

Definition fork_fail (child : nat) : M kernel (option usize) :=
  freeproc child;; release (LProc child);; mret None.

Definition fork_fd (par child : nat) (fd : nat) (_ : unit) : M kernel unit :=
  p ← proc_slot par;
  f ← expect (ofile p !! fd) "index out of bounds";
  match f with
  | None => mret tt
  | Some f =>
      file_dup f;;
      c ← proc_slot child;
      set_proc child (mkProcess (state c) (pid c) (context c) (parent c) (xstate c) (p_chan c) (pagetable c)
        (trapframe c) (sz c) (kstack c) (<[fd := Some f]> (ofile c)) (cwd c))
  end.

Definition set_parent_sz (par : option nat) (n : usize) (c : Process) : Process :=
  mkProcess (state c) (pid c) (context c) par (xstate c) (p_chan c) (pagetable c) (trapframe c) n
    (kstack c) (ofile c) (cwd c).

Definition fork : M kernel (option usize) :=
  par ← myproc "null pointer dereference";
  r ← allocproc;
  match r with
  | None => mret None
  | Some child =>
      c ← proc_slot child;
      set_proc child (set_parent_sz (Some par) (sz c) c);;
      p ← proc_slot par;
      r ← in_ram (uvmcopy kernel_end (pagetable p) (pagetable c) (sz p));
      match r with
      | None => fork_fail child
      | Some _ =>
          c ← proc_slot child;
          set_proc child (set_parent_sz (Some par) (sz p) c);;
          in_ram (copy_trapframe (trapframe p) (trapframe c));;
          in_ram (store64 (trapframe c + A0) 0);;
          r ← in_ram (uvmcopy_stack kernel_end (pagetable p) (pagetable c));
          match r with
          | None => fork_fail child
          | Some _ =>
              sp ← add_at USIZE_MAX (kstack c) PGSIZE;
              c ← proc_slot child;
              set_proc child (mkProcess (state c) (pid c) (mkContext forkret sp (c_sregs (context c))) (parent c)
                (xstate c) (p_chan c) (pagetable c) (trapframe c) (sz c) (kstack c) (ofile c) (cwd c));;
              for_fold fds (fork_fd par child) tt;;
              p ← proc_slot par;
              r ← in_fs (idup (cwd p));
              c ← proc_slot child;
              set_proc child (mkProcess Runnable (pid c) (context c) (parent c) (xstate c) (p_chan c) (pagetable c)
                (trapframe c) (sz c) (kstack c) (ofile c) r);;
              release (LProc child);;
              mret (Some (pid c))
          end
      end
  end.

(** ** Exit *)

Definition close_open_files (i : nat) : M kernel unit := for_fold fds (close_fd true i) tt.

Definition reparent_one (par init : nat) (i : nat) (need_wakeup : bool) : M kernel bool :=
  acquire (LProc i);;
  c ← proc_slot i;
  b ← (if decide (parent c = Some par)
       then set_proc i (set_parent_sz (Some init) (sz c) c);; mret true
       else mret need_wakeup);
  release (LProc i);;
  mret b.

Definition reparent (par : nat) : M kernel unit :=
  r ← gets initproc;
  match r with
  | None => mret tt
  | Some init =>
      if decide (par = init) then mret tt
      else
        need_wakeup ← for_fold proc_slots (reparent_one par init) false;
        if (need_wakeup : bool) then wakeup (ProcChan init) else mret tt
  end.

(** The address of a process as a channel; a null parent is address [0]. *)
Definition proc_chan (p : option nat) : chan := from_option ProcChan NoChan p.

(** [exit] up to the switch; it never comes back. *)
Definition exit_enter (code : i32) : M kernel unit :=
  i ← myproc "exit: no proc";
  close_open_files i;;
  acquire WAIT_LOCK;;
  reparent i;;
  p ← proc_slot i;
  wakeup (proc_chan (parent p));;
  acquire (LProc i);;
  p ← proc_slot i;
  set_proc i (mkProcess Zombie (pid p) (context p) (parent p) code (p_chan p) (pagetable p) (trapframe p) (sz p)
                (kstack p) (ofile p) (cwd p));;
  release WAIT_LOCK;;
  sched.

(** ** Wait *)

(** One slot of the scan: [inr] leaves [wait] with a result. *)
Definition wait_one (par : nat) (status_va : usize) (i : nat) (have_child : bool) : M kernel (bool + isize) :=
  acquire (LProc i);;
  c ← proc_slot i;
  if decide (parent c = Some par) then
    if decide (state c = Zombie) then
      ok ← (if negb (status_va =? 0) then
              p ← proc_slot par;
              in_ram (copyout (pagetable p) status_va (le_bytes 4 (xstate c mod 2 ^ 32)))
            else mret (Some tt));
      match ok with
      | None => release (LProc i);; mret (inr (-1))
      | Some _ =>
          freeproc i;;
          release (LProc i);;
          release WAIT_LOCK;;
          mret (inr (as_isize (pid c)))
      end
    else release (LProc i);; mret (inl true)
  else release (LProc i);; mret (inl have_child).

(** [wait] from the head of its loop, with [WAIT_LOCK] held. *)
Definition wait_loop (status_va : usize) : M kernel (segment unit isize) :=
  par ← myproc "wait: no proc";
  r ← for_each proc_slots (wait_one par status_va) false;
  match r with
  | inr v => mret (Return v)
  | inl have_child =>
      if negb have_child then release WAIT_LOCK;; mret (Return (-1))
      else mret (Block (ProcChan par) WAIT_LOCK tt)
  end.

Definition wait (status_va : usize) : M kernel (segment unit isize) :=
  myproc "wait: no proc";; acquire WAIT_LOCK;; wait_loop status_va.
End proc.

(** ** Runs

    A kernel with forty pages of memory and an empty file system.  Process 0 gets
    a user stack and runs. *)

Definition small_end : usize := ram_end 40.
Definition boot_kernel : kernel := {|
  k_held := []; procs := replicate (Z.to_nat NPROC) Process_unused;
  cpu_proc := None; next_pid := 1; initproc := Some 0%nat;
  ftable := replicate (Z.to_nat NFILE) File_unused; pipes := replicate (Z.to_nat NPIPE) Pipe_unused;
  console := mkConsole (mkUart [] []) Input_new; k_fs := boot_fs; k_ram := zero_machine 40;
|}.

Definition start_first : M kernel unit :=
  in_fs (fs_reset;; populate [] []);;
  in_ram (kinit small_end);;
  r ← allocproc small_end KERNBASE;
  i ← expect r "allocproc";
  p ← proc_slot i;
  st ← in_ram kalloc_zeroed;
  st ← expect st "stack";
  r ← in_ram (mappages (pagetable p) USER_STACK PGSIZE st (Z.lor (Z.lor PTE_U PTE_R) PTE_W));
  expect r "map stack";;
  set_proc i (set_state Running p);;
  modify (set_cpu_proc (Some i));;
  release (LProc i).

(** Fork, run the child to its exit, and reap it. *)
Definition fork_exit_wait (status_va : usize) : M kernel (option usize * segment unit isize) :=
  child ← fork small_end KERNBASE 0;
  yield_enter;; scheduler_back 0;;
  scheduler_take 1;;
  release (LProc 1);;
  exit_enter 7;; scheduler_back 1;;
  scheduler_take 0;; yield_leave;;
  r ← wait small_end status_va;
  mret (child, r).

Fixpoint chain_length (fuel : nat) (m : gmap Z (list u8)) (h : Z) : nat :=
  match fuel with
  | O => 0
  | S fuel => if h =? 0 then 0 else S (chain_length fuel m (next_of m h))
  end.

(** Free pages, and the reference count of the root inode's slot. *)
Definition resources : M kernel (nat * Z) :=
  gets (λ s, (chain_length 100 (mem (k_ram s)) (head (k_ram s)),
              from_option i_refcnt 0 (icache (k_fs s) !! 0%nat))).

(** The parent learns the child's pid and every page comes back; the reference
    to the root directory that [allocproc] took for the child does not. *)
Example fork_exit_wait_run :
  match (start_first;; before ← resources; r ← fork_exit_wait 0; after ← resources; mret (r, before, after)) boot_kernel with
  | Ok ((r, before, after), s) => (r, (after.1 =? before.1)%nat, after.2 - before.2, held s)
  | Fault _ => (None, Return 0, false, 0, [])
  end = (Some 2, Return 2, true, 1, []).
Proof. by vm_compute. Qed.

(** A status address that is not mapped: [wait] returns [-1] and keeps
    [WAIT_LOCK], and the next [wait] stops the kernel. *)
Example wait_bad_status_run :
  match (start_first;; fork_exit_wait 4096) boot_kernel with
  | Ok ((_, r), s) => (r, held s, match wait small_end 0 s with Fault e => Some e | Ok _ => None end)
  | Fault _ => (Return 0, [], None)
  end = (Return (-1), [WAIT_LOCK], Some (Panic "RawSpinlock::acquire: already holding")).
Proof. by vm_compute. Qed.
