(* ===== verification/ProcMem.v ===== *)
(** * The resources of a process (src/src/proc.rs [allocproc], [freeproc])

    A process slot in use owns pages (trapframe, kernel stack, page tables, user
    frames) and a reference to its working directory.  [allocproc] takes them,
    and gives back what it has taken when it fails; [freeproc] gives them all
    back. *)

From stdpp Require Import gmultiset.
From S2P Require Import Prelude Ring Spinlock FsBase Icache Kalloc Vm PageTable UserMem Space Kernel Sched Pipe Console File Proc.

(** ** Memory and file system as the running kernel code sees them *)

Definition ram_of (s : kernel) : machine := set_held (k_held s) (k_ram s).
Definition fs_of (s : kernel) : fs := set_held (k_held s) (k_fs s).

(** The state a run ends in. *)
Definition after {A} (m : M kernel A) (s : kernel) : kernel := match m s with Ok (_, s') => s' | Fault _ => s end.

Lemma after_wp {A} (m : M kernel A) s (Q : A → kernel → Prop) (R : kernel → Prop) :
  wp m s Q → (∀ a s', Q a s' → R s') → R (after m s).
Proof. unfold wp, after. destruct (m s) as [[a s']|]; [|done]. intros HQ HR. by eapply HR. Qed.

(** Only memory has changed; only the file system has changed. *)
Definition only_ram (s s' : kernel) : Prop := s' = set_k_ram (k_ram s') s.
Definition only_fs (s s' : kernel) : Prop := s' = set_k_fs (k_fs s') s.

Lemma only_ram_refl s : only_ram s s.
Proof. by destruct s. Qed.
Lemma only_ram_trans s s1 s2 : only_ram s s1 → only_ram s1 s2 → only_ram s s2.
Proof. unfold only_ram. intros H1 H2. rewrite H2, H1. by destruct s. Qed.

Lemma wp_ram {A} (m : M machine A) s R :
  wp m (ram_of s) (λ a r, held r = k_held s ∧ ∀ s', only_ram s s' → ram_of s' = r → R a s') → wp (in_ram m) s R.
Proof.
  intros Hm. apply wp_zoom. eapply wp_mono; [exact Hm|]. intros a r [Hh HR]. apply HR.
  - unfold only_ram. rewrite Hh. by destruct s.
  - unfold ram_of. rewrite Hh. destruct r. cbn in *. by subst.
Qed.

Lemma wp_fs {A} (m : M fs A) s R :
  wp m (fs_of s) (λ a f, held f = k_held s ∧ ∀ s', only_fs s s' → fs_of s' = f → R a s') → wp (in_fs m) s R.
Proof.
  intros Hm. apply wp_zoom. eapply wp_mono; [exact Hm|]. intros a r [Hh HR]. apply HR.
  - unfold only_fs. rewrite Hh. by destruct s.
  - unfold fs_of. rewrite Hh. destruct r. cbn in *. by subst.
Qed.

(** ** The pages of a process *)

Definition page_list (p : Z) : list Z := if p =? 0 then [] else [p].

Definition proc_pages (q : Process) (oT : option ptree) : list Z :=
  page_list (trapframe q) ++ page_list (kstack q) ++ from_option (λ T, user_frames T (sz q) ++ tables T) [] oT.

Section proc_mem.
Context (kernel_end : usize) (Hend_pos : 0 < kernel_end).

Local Abbreviation space_ok := (space_ok kernel_end).
Local Abbreviation kinv := (kinv kernel_end).
Local Abbreviation ram_page := (ram_page kernel_end).

(** [q] has the page table [oT], if any; all its pages are its own. *)
Record proc_mem (m : machine) (fl : list Z) (q : Process) (oT : option ptree) : Prop := {
  pm_kinv : kinv m fl;
  pm_ram : Forall ram_page (page_list (trapframe q) ++ page_list (kstack q));
  pm_tree : match oT with
            | None => pagetable q = 0
            | Some T => pagetable q = pt_root T ∧ space_ok m T fl ∧ proc_space T (sz q)
            end;
  pm_nodup : NoDup (proc_pages q oT ++ fl);
}.

(** Freeing: each step moves pages to the free list and touches nothing else. *)
Record pages_freed (m : machine) (fl ps : list Z) (m' : machine) (fl' : list Z) : Prop := {
  fe_kinv : kinv m' fl';
  fe_free : fl' ≡ₚ ps ++ fl;
  fe_held : held m' = held m;
  fe_mem p : p ∉ ps → mem m' !! p = mem m !! p;
}.

Lemma freed_nil m fl : kinv m fl → pages_freed m fl [] m fl.
Proof. by split. Qed.

Lemma freed_trans m fl ps m1 fl1 ps' m2 fl2 :
  pages_freed m fl ps m1 fl1 → pages_freed m1 fl1 ps' m2 fl2 → pages_freed m fl (ps' ++ ps) m2 fl2.
Proof.
  intros [A1 A2 A3 A4] [B1 B2 B3 B4]. split; [done|by rewrite B2, A2, app_assoc|congruence|].
  intros p [Hp Hp']%not_elem_of_app. by rewrite B4, A4.
Qed.

Lemma kfree_page m fl p :
  kinv m fl → Forall ram_page (page_list p) → NoDup (page_list p ++ fl) →
  wp (if negb (p =? 0) then kfree kernel_end p else mret tt) m (λ _ m', ∃ fl', pages_freed m fl (page_list p) m' fl').
Proof.
  unfold page_list. intros Hk Hr Hnd. destruct (p =? 0); cbn [negb].
  - wp_steps. exists fl. by apply freed_nil.
  - rewrite Forall_singleton in Hr. apply NoDup_cons in Hnd as [Hn _].
    wp_call (kfree_spec kernel_end Hend_pos); [done|done|done|]. intros [] m' (Hh & Hk' & d & Hm). exists (p :: fl).
    split; [done|done|done|]. intros q Hq. rewrite list_elem_of_singleton in Hq. by rewrite Hm, lookup_insert_ne by done.
Qed.

Lemma free_tree m fl n T :
  space_ok m T fl → proc_space T n →
  wp (proc_freepagetable kernel_end (pt_root T) n) m (λ _ m', ∃ fl', pages_freed m fl (user_frames T n ++ tables T) m' fl').
Proof.
  intros Hsp Hps. wp_call (proc_freepagetable_spec kernel_end Hend_pos); [done|done|].
  intros [] m' (fl' & K & F & H & Hm). exists fl'. split; [done|by rewrite F, app_assoc|done|].
  intros p Hp. apply Hm. rewrite (owned_frames T n p Hps). rewrite not_elem_of_app in Hp. tauto.
Qed.

Lemma wp_if_ram (b : bool) (m : M machine unit) s (Q : machine → Prop) :
  wp (if b then m else mret tt) (ram_of s) (λ _ r, held r = k_held s ∧ Q r) →
  wp (if b then in_ram m else mret tt) s (λ _ s', only_ram s s' ∧ Q (ram_of s')).
Proof.
  intros H. destruct b.
  - apply wp_ram. eapply wp_mono; [exact H|]. intros [] r [Hh HQ]. split; [done|]. by intros s' Hs' ->.
  - wp_steps. split; [apply only_ram_refl|apply H].
Qed.

(** The pages of a process given back: the first part of [freeproc]. *)
Lemma free_memory s q oT fl (K : M kernel unit) (R : unit → kernel → Prop) :
  proc_mem (ram_of s) fl q oT →
  (∀ s' fl', only_ram s s' → pages_freed (ram_of s) fl (proc_pages q oT) (ram_of s') fl' → wp K s' R) →
  wp ((if negb (trapframe q =? 0) then in_ram (kfree kernel_end (trapframe q)) else mret tt);;
      (if negb (pagetable q =? 0) then in_ram (proc_freepagetable kernel_end (pagetable q) (sz q)) else mret tt);;
      (if negb (kstack q =? 0) then in_ram (kfree kernel_end (kstack q)) else mret tt);; K) s R.
Proof.
  intros [Hk Hr HT Hnd] HK. apply Forall_app in Hr as [Hrt Hrk]. unfold proc_pages in *.
  set (tp := page_list (trapframe q)) in *. set (kp := page_list (kstack q)) in *. set (up := from_option _ _ _) in *.
  rewrite <-!app_assoc in Hnd. apply NoDup_app in Hnd as (Ht & Hdt & Hnd).
  assert (NoDup (tp ++ fl)) as Hnt.
  { apply NoDup_app. split_and!; [done| |apply Hk]. intros x Hx. specialize (Hdt x Hx). rewrite !not_elem_of_app in Hdt. tauto. }
  wp_step. eapply wp_mono; [eapply (wp_if_ram _ _ s (λ r, ∃ fl', pages_freed (ram_of s) fl tp r fl')); eapply wp_mono; [by apply kfree_page|]|].
  { intros [] r (fl1 & Hf). split; [apply (fe_held _ _ _ _ _ Hf)|eauto]. }
  intros [] s1 (O1 & fl1 & F1).
  assert (wp (if negb (pagetable q =? 0) then proc_freepagetable kernel_end (pagetable q) (sz q) else mret tt) (ram_of s1)
    (λ _ m', ∃ fl', pages_freed (ram_of s1) fl1 up m' fl')) as Htree.
  { destruct oT as [T|]; cbn [from_option] in up.
    - destruct HT as (-> & Hsp & Hps).
      assert (space_ok (ram_of s1) T fl1) as Hsp1.
      { eapply space_frame; [exact Hsp|apply F1|]. intros p Hp. rewrite (owned_frames T (sz q) p Hps) in Hp.
        assert (p ∈ up) as Hpu by (unfold up; rewrite elem_of_app; tauto).
        assert (p ∉ tp) as Hpt by (intros Hx; specialize (Hdt p Hx); rewrite !not_elem_of_app in Hdt; tauto).
        split; [by apply F1|]. rewrite (fe_free _ _ _ _ _ F1), not_elem_of_app. split; [done|].
        apply NoDup_app in Hnd as (_ & _ & Hnd). apply NoDup_app in Hnd as (_ & Hd & _). by apply Hd. }
      rewrite (proj2 (Z.eqb_neq _ _)); [by apply free_tree|].
      destruct (own_page kernel_end _ _ _ (pt_root T) (so_own _ _ _ _ Hsp) (in_root T)) as [[? _] _]. lia.
    - rewrite HT. wp_steps. exists fl1. apply freed_nil, F1. }
  wp_step. eapply wp_mono; [eapply (wp_if_ram _ _ s1 (λ r, ∃ fl', pages_freed (ram_of s1) fl1 up r fl')); eapply wp_mono; [exact Htree|]|].
  { intros [] r (fl2 & Hf). split; [apply (fe_held _ _ _ _ _ Hf)|eauto]. }
  intros [] s2 (O2 & fl2 & F2).
  assert (NoDup (kp ++ fl2)) as Hnk.
  { rewrite (fe_free _ _ _ _ _ F2), (fe_free _ _ _ _ _ F1). rewrite !app_assoc, (Permutation_app_comm _ tp), <-!app_assoc.
    apply NoDup_app. by split_and!. }
  wp_step. eapply wp_mono; [eapply (wp_if_ram _ _ s2 (λ r, ∃ fl', pages_freed (ram_of s2) fl2 kp r fl')); eapply wp_mono; [apply kfree_page; [apply F2|done|done]|]|].
  { intros [] r (fl3 & Hf). split; [apply (fe_held _ _ _ _ _ Hf)|eauto]. }
  intros [] s3 (O3 & fl3 & F3). eapply HK; [eapply only_ram_trans; [exact O1|by eapply only_ram_trans]|].
  pose proof (freed_trans _ _ _ _ _ _ _ _ (freed_trans _ _ _ _ _ _ _ _ F1 F2) F3) as [A1 A2 A3 A4].
  split; [done| |done|].
  - rewrite A2. fold kp up tp. solve_Permutation.
  - intros p Hp. apply A4. rewrite !not_elem_of_app in *. tauto.
Qed.

(** ** Giving a slot back *)

Lemma null_ofile_len : length null_ofile = Z.to_nat NOFILE.
Proof. done. Qed.

Lemma close_none s c q early :
  procs s !! c = Some q → ofile q = null_ofile → wp (for_fold fds (close_fd early c) tt) s (λ _ s', s' = s).
Proof.
  intros Hq Ho. apply (wp_for_fold (λ _ _ s', s' = s)); [done| |done].
  intros pre fd post [] s' Hpre ->. assert (fd < Z.to_nat NOFILE)%nat as Hfd.
  { assert (fds !! length pre = Some fd) as Hi by (rewrite Hpre; by apply list_lookup_middle). apply lookup_seq in Hi. lia. }
  unfold close_fd. wp_step. eapply wp_proc_slot; [done|]. wp_step.
  eapply wp_expect; [rewrite Ho; unfold null_ofile; by apply lookup_replicate_2|by wp_steps].
Qed.

(** One reference to the inode in slot [k] less. *)
Definition drop_ref (k : nat) (f : fs) : fs :=
  match icache f !! k with Some ip => put_inode k (set_refcnt (i_refcnt ip - 1) ip) f | None => f end.
Definition add_ref (k : nat) (f : fs) : fs :=
  match icache f !! k with Some ip => put_inode k (set_refcnt (i_refcnt ip + 1) ip) f | None => f end.

Lemma drop_add_ref k f : drop_ref k (add_ref k f) = f.
Proof.
  unfold drop_ref, add_ref. destruct (icache f !! k) as [ip|] eqn:Hk; [|by rewrite Hk].
  cbn. rewrite list_lookup_insert_eq by (by eapply lookup_lt_Some). unfold put_inode, set_icache. cbn.
  rewrite list_insert_insert_eq, list_insert_id; [by destruct f|]. rewrite Hk. f_equal.
  destruct ip as [? n ? ? ? ? ? ? ?]. unfold set_refcnt. cbn. f_equal. lia.
Qed.

(** Slot [k] has a reference to give. *)
Definition has_ref (k : nat) (f : fs) : Prop := ∃ ip, icache f !! k = Some ip ∧ 1 ≤ i_refcnt ip ≤ USIZE_MAX.

(** What the inode cache needs to work with: none of its locks is taken. *)
Definition fs_unlocked (h : list lock) : Prop := (ICACHE_LOCK ∉ h) ∧ (∀ i, LInode i ∉ h).

Lemma in_fs_iput s k :
  has_ref k (k_fs s) → fs_unlocked (k_held s) →
  wp (in_fs (iput k)) s (λ _ s', only_fs s s' ∧ fs_of s' = drop_ref k (fs_of s)).
Proof.
  intros (ip & Hk & Hr) Hl. apply wp_fs. wp_call (iput_spec k ip); [done|done|done|]. intros [] f ->.
  split; [done|]. intros s' Hs' ->. split; [done|]. unfold drop_ref. change (icache (fs_of s)) with (icache (k_fs s)). by rewrite Hk.
Qed.

Lemma freeproc_spec s c q oT fl :
  LProc c ∈ held s → procs s !! c = Some q → ofile q = null_ofile → proc_mem (ram_of s) fl q oT →
  has_ref (cwd q) (k_fs s) → fs_unlocked (held s) →
  wp (freeproc kernel_end c) s (λ _ s', ∃ fl',
    s' = set_procs (<[c := Process_unused]> (procs s)) (set_k_fs (k_fs s') (set_k_ram (k_ram s') s)) ∧
    pages_freed (ram_of s) fl (proc_pages q oT) (ram_of s') fl' ∧ fs_of s' = drop_ref (cwd q) (fs_of s)).
Proof.
  intros Hc Hq Ho Hmem Href Hl. unfold freeproc. wp_step. wp_step. wp_step. wp_step; [by apply bool_decide_eq_true|].
  wp_step. eapply wp_proc_slot; [done|]. eapply free_memory; [done|]. intros s1 fl1 O1 F1.
  assert (procs s1 = procs s ∧ k_fs s1 = k_fs s ∧ k_held s1 = k_held s) as (Hp1 & Hf1 & Hh1) by (by rewrite O1).
  wp_step. eapply wp_mono; [apply (close_none s1 c q); [by rewrite Hp1|done]|]. intros [] s1' ->.
  wp_step. eapply wp_proc_slot; [by rewrite Hp1|].
  wp_call (in_fs_iput s1); [by rewrite Hf1|by rewrite Hh1|]. intros [] s2 [O2 F2]. apply wp_set_proc.
  exists fl1. assert (ram_of s2 = ram_of s1) as Hr2 by (by rewrite O2). split_and!.
  - rewrite O2, O1, Ho. by destruct s.
  - change (ram_of (set_procs _ s2)) with (ram_of s2). by rewrite Hr2.
  - change (fs_of (set_procs _ s2)) with (fs_of s2). rewrite F2. unfold fs_of. by rewrite Hf1, Hh1.
Qed.

(** ** Taking a slot *)

(** The root directory is cached in slot [k], and there only. *)
Record root_cached (f : fs) (k : nat) : Prop := {
  rc_len : length (icache f) = Z.to_nat NINODE;
  rc_slot : ∃ ip, icache f !! k = Some ip ∧ uses ROOTINO ip = true;
  rc_uniq j jp : icache f !! j = Some jp → uses ROOTINO jp = true → j = k;
  rc_max j ip : icache f !! j = Some ip → 0 ≤ i_refcnt ip < USIZE_MAX;
}.

Lemma in_fs_root s k :
  root_cached (k_fs s) k → fs_unlocked (k_held s) →
  wp (in_fs root) s (λ r s', r = k ∧ only_fs s s' ∧ fs_of s' = add_ref k (fs_of s)).
Proof.
  intros [Hl (ip & Hk & Hu) Huniq Hmax] Hlk. apply wp_fs. unfold root. wp_call (iget_spec ROOTINO); [done|done|exact Hmax|].
  intros [j|] f.
  - intros (jp & Hj & Hr). destruct (uses ROOTINO jp) eqn:Hju.
    + assert (j = k) as -> by (by eapply Huniq). cbn in Hj. simplify_eq. eapply wp_expect; [done|].
      split; [done|]. intros s' Hs' ->. split_and!; [done|done|]. unfold add_ref. change (icache (fs_of s)) with (icache (k_fs s)). by rewrite Hk.
    + destruct Hr as (_ & _ & Hno). by rewrite (Hno k ip Hk) in Hu.
  - intros [_ Hno]. destruct (Hno k ip Hk) as [_ Hf]. congruence.
Qed.

Lemma root_has_ref f k : root_cached f k → has_ref k (add_ref k f).
Proof.
  intros [_ (ip & Hk & Hu) _ Hmax]. unfold add_ref. rewrite Hk. exists (set_refcnt (i_refcnt ip + 1) ip). split.
  - cbn. apply list_lookup_insert_eq. by eapply lookup_lt_Some.
  - cbn. pose proof (Hmax k ip Hk). lia.
Qed.

Definition set_next_pid (n : usize) (s : kernel) : kernel :=
  mkKernel (k_held s) (procs s) (cpu_proc s) n (initproc s) (ftable s) (pipes s) (console s) (k_fs s) (k_ram s).
Definition bump_pid (s : kernel) : kernel := set_next_pid ((next_pid s + 1) mod 2 ^ 64) s.

(** From [s], slot [c] has been taken for [q], whose pages came from the free
    list; its lock is held, and it refers to the root directory. *)
Record taking (s : kernel) (fl : list Z) (c k : nat) (q : Process) (oT : option ptree) (s1 : kernel) (fl1 : list Z) : Prop := {
  tk_state : s1 = set_held [LProc c] (set_procs (<[c := q]> (procs s)) (set_k_fs (k_fs s1) (set_k_ram (k_ram s1) (bump_pid s))));
  tk_fs : fs_of s1 = set_held [LProc c] (add_ref k (k_fs s));
  tk_cwd : cwd q = k;
  tk_ofile : ofile q = null_ofile;
  tk_mem : proc_mem (ram_of s1) fl1 q oT;
  tk_pages : proc_pages q oT ++ fl1 ≡ₚ fl;
  tk_frame p : p ∉ fl → mem (ram_of s1) !! p = mem (k_ram s) !! p;
}.

(** Nothing is left of an attempt but the process number it used up. *)
Definition undone (s : kernel) (fl : list Z) (s' : kernel) : Prop :=
  s' = set_k_fs (k_fs s') (set_k_ram (k_ram s') (bump_pid s)) ∧ fs_of s' = fs_of s ∧
  ∃ fl', restored kernel_end (ram_of s) fl (ram_of s') fl'.

Section taking.
Context (s : kernel) (fl : list Z) (c k : nat).
Context (Hh : k_held s = []) (Hc : procs s !! c = Some Process_unused) (Hroot : root_cached (k_fs s) k).

Lemma giving_up q oT s1 fl1 :
  taking s fl c k q oT s1 fl1 →
  wp (freeproc kernel_end c;; release (LProc c)) s1 (λ _ s', undone s fl s').
Proof.
  intros [T1 T2 T3 T4 T5 T6 T7].
  assert (held s1 = [LProc c]) as Hh1 by (by rewrite T1). pose proof (lookup_lt_Some _ _ _ Hc) as Hlt.
  assert (fs_unlocked [LProc c]) as Hlk by (split; [|intros i]; by rewrite list_elem_of_singleton).
  wp_call (freeproc_spec s1 c q oT fl1); [rewrite Hh1; by left| |done|done| |by rewrite Hh1|].
  { rewrite T1. cbn. by apply list_lookup_insert_eq. }
  { pose proof (root_has_ref _ _ Hroot) as (ip & Hip & Hr). exists ip. split; [|done]. rewrite T3.
    change (icache (k_fs s1)) with (icache (fs_of s1)). by rewrite T2. }
  intros [] s2 (fl2 & S2 & [F1 F2 F3 F4] & Hfs). eapply wp_release; [rewrite S2; exact Hh1|apply not_elem_of_nil|].
  split_and!.
  - rewrite S2, T1. cbn [set_held Locks_kernel set_procs procs]. rewrite list_insert_insert_eq, list_insert_id by done.
    destruct s. cbn in *. by subst.
  - transitivity (set_held [] (fs_of s2)); [done|]. rewrite Hfs, T2, T3. transitivity (set_held [] (drop_ref k (add_ref k (k_fs s)))).
    + unfold drop_ref. cbn. by destruct (icache _ !! k).
    + rewrite drop_add_ref. unfold fs_of. by rewrite Hh.
  - exists fl2. split.
    + destruct F1 as [K1 K2 K3 K4 K5 K6]. split; try done. cbn. apply not_elem_of_nil.
    + by rewrite F2.
    + cbn. by rewrite Hh.
    + intros p Hp. transitivity (mem (ram_of s2) !! p); [done|]. rewrite F4; [by apply T7|].
      rewrite <-T6, not_elem_of_app in Hp. tauto.
Qed.

Context (Hfl : NoDup fl).

(** A step of the construction: more pages of the free list go to the slot, or
    pages of the slot change. *)
Lemma taking_next q oT s1 fl1 q' oT' s2 fl2 :
  taking s fl c k q oT s1 fl1 → only_ram s1 s2 → cwd q' = k → ofile q' = null_ofile →
  kinv (ram_of s2) fl2 → Forall ram_page (page_list (trapframe q') ++ page_list (kstack q')) →
  match oT' with
  | None => pagetable q' = 0
  | Some T => pagetable q' = pt_root T ∧ space_ok (ram_of s2) T fl2 ∧ proc_space T (sz q')
  end →
  proc_pages q' oT' ++ fl2 ≡ₚ proc_pages q oT ++ fl1 →
  (∀ p, p ∉ proc_pages q oT ++ fl1 → mem (ram_of s2) !! p = mem (ram_of s1) !! p) →
  taking s fl c k q' oT' (set_procs (<[c := q']> (procs s2)) s2) fl2.
Proof.
  intros [T1 T2 T3 T4 T5 T6 T7] O Hcwd Ho Hk Hr HT Hp Hm. split; try done.
  - rewrite O, T1. cbn. by rewrite list_insert_insert_eq.
  - change (fs_of (set_procs _ s2)) with (fs_of s2). rewrite <-T2. by rewrite O.
  - change (ram_of (set_procs _ s2)) with (ram_of s2). split; try done. by rewrite Hp, T6.
  - by rewrite Hp.
  - intros p Hpn. change (ram_of (set_procs _ s2)) with (ram_of s2). rewrite Hm; [by apply T7|]. by rewrite T6.
Qed.

Lemma taking_slot q oT s1 fl1 : taking s fl c k q oT s1 fl1 → procs s1 !! c = Some q.
Proof. intros [-> _ _ _ _ _ _]. cbn. apply list_lookup_insert_eq. by eapply lookup_lt_Some. Qed.

(** The slot itself stays. *)
Lemma taking_keep q oT s1 fl1 oT' s2 fl2 :
  taking s fl c k q oT s1 fl1 → only_ram s1 s2 →
  kinv (ram_of s2) fl2 →
  match oT' with
  | None => pagetable q = 0
  | Some T => pagetable q = pt_root T ∧ space_ok (ram_of s2) T fl2 ∧ proc_space T (sz q)
  end →
  proc_pages q oT' ++ fl2 ≡ₚ proc_pages q oT ++ fl1 →
  (∀ p, p ∉ proc_pages q oT ++ fl1 → mem (ram_of s2) !! p = mem (ram_of s1) !! p) →
  taking s fl c k q oT' s2 fl2.
Proof.
  intros Htk O Hk HT Hp Hm. pose proof (taking_slot _ _ _ _ Htk) as Hq.
  replace s2 with (set_procs (<[c := q]> (procs s2)) s2).
  - eapply taking_next; try done; [apply (tk_cwd _ _ _ _ _ _ _ _ Htk)|apply (tk_ofile _ _ _ _ _ _ _ _ Htk)|].
    apply (pm_ram _ _ _ _ (tk_mem _ _ _ _ _ _ _ _ Htk)).
  - rewrite list_insert_id; [by destruct s2|]. rewrite O. exact Hq.
Qed.

Lemma taking_held q oT s1 fl1 : taking s fl c k q oT s1 fl1 → k_held s1 = [LProc c].
Proof. by intros [-> _ _ _ _ _ _]. Qed.

Definition newp (n : usize) (pt tf kst : usize) : Process :=
  mkProcess Used n Context_zero None 0 NoChan pt tf 0 kst null_ofile k.

Lemma ram_page_list p : ram_page p → page_list p = [p].
Proof. intros [Hp _]. unfold page_list. by rewrite (proj2 (Z.eqb_neq _ _)) by lia. Qed.

Lemma taken_ram s1 fl1 p : kinv (ram_of s1) (p :: fl1) → ram_page p.
Proof. intros Hk. by apply (Forall_inv (ki_free _ _ _ Hk)). Qed.

Lemma take_trapframe n s1 fl1 :
  taking s fl c k (newp n 0 0 0) None s1 fl1 →
  wp (in_ram kalloc_zeroed) s1 (λ r s2,
    match r with
    | None => ∃ fl2, taking s fl c k (newp n 0 0 0) None s2 fl2
    | Some tf => procs s2 !! c = Some (newp n 0 0 0) ∧ ram_page tf ∧ mem (ram_of s2) !! tf = Some zero_page ∧
        ∃ fl2, taking s fl c k (newp n 0 tf 0) None (set_procs (<[c := newp n 0 tf 0]> (procs s2)) s2) fl2
    end).
Proof.
  intros Htk. pose proof (taking_slot _ _ _ _ Htk) as Hq. pose proof (pm_kinv _ _ _ _ (tk_mem _ _ _ _ _ _ _ _ Htk)) as Hk.
  apply wp_ram. wp_call (kalloc_zeroed_spec kernel_end Hend_pos); [exact Hk|]. intros r m (Hh2 & Hr). split; [done|].
  intros s2 O Hm2. destruct fl1 as [|p fl1]; destruct Hr as (-> & Hm & Hk2); subst m.
  - exists []. eapply taking_keep; try done. intros p _. by rewrite Hm.
  - pose proof (taken_ram _ _ _ Hk) as Hp. split_and!; [by rewrite O|done|by rewrite Hm, lookup_insert_eq|].
    exists fl1. eapply taking_next; try done.
    + cbn. rewrite ram_page_list by done. by apply Forall_singleton.
    + unfold proc_pages. cbn. by rewrite ram_page_list.
    + intros x Hx. cbn in Hx. apply not_elem_of_cons in Hx as [Hx _]. by rewrite Hm, lookup_insert_ne by done.
Qed.

Context (trampoline_start : usize) (Htramp : trampoline_start mod PGSIZE = 0) (Htramp0 : 0 ≤ trampoline_start < PHYSTOP).

Lemma tramp_addr : page_addr trampoline_start.
Proof. split; [|done]. change (2 ^ 56) with 72057594037927936. mem_lia. Qed.

Lemma fresh_leaf tf w e :
  ram_page tf → fresh_leaves trampoline_start tf !! w = Some e →
  (w = TRAMPOLINE_VPN ∨ w = TRAPFRAME_VPN) ∧ is_user e = false.
Proof.
  intros Htf. unfold fresh_leaves, is_user. rewrite lookup_insert_Some, lookup_singleton_Some.
  intros [[<- <-]|[_ [<- <-]]]; (split; [tauto|]).
  - by rewrite land_leaf_bits by (done || by eapply ram_page_addr).
  - by rewrite land_leaf_bits by (done || apply tramp_addr).
Qed.

(** The page table [allocproc] makes is the address space of an empty process. *)
Lemma fresh_space m T fl1 tf :
  ram_page tf → pt_own kernel_end m T fl1 → L T = fresh_leaves trampoline_start tf →
  space_ok m T fl1 ∧ proc_space T 0 ∧ user_frames T 0 = [].
Proof.
  intros Htf Hown HL. assert (L T !! STACK_VPN = None) as Hst.
  { rewrite HL. unfold fresh_leaves. by rewrite lookup_insert_ne, lookup_singleton_ne. }
  split_and!.
  - split; [done| |]; rewrite HL; [intros w e He Hu|intros w w' e e' He _ Hu _]; destruct (fresh_leaf _ _ _ Htf He); congruence.
  - split.
    + mem_lia.
    + intros w Hw. rewrite HL. assert (is_Some (fresh_leaves trampoline_start tf !! w)) as [e He].
      { unfold fresh_leaves. destruct Hw as [-> | ->]; [|rewrite lookup_insert_eq; by eexists].
        rewrite lookup_insert_ne, lookup_singleton_eq by done. by eexists. }
      exists e. split; [done|]. by destruct (fresh_leaf _ _ _ Htf He).
    + intros w Hw. change (pages 0) with 0 in Hw. lia.
    + by rewrite Hst.
    + intros w e He. rewrite HL in He. destruct (fresh_leaf _ _ _ Htf He). tauto.
  - unfold user_frames. by rewrite Hst.
Qed.

Lemma take_pagetable n tf s1 fl1 :
  ram_page tf → taking s fl c k (newp n 0 tf 0) None s1 fl1 →
  wp (in_ram (proc_pagetable kernel_end trampoline_start tf)) s1 (λ r s2,
    mem (ram_of s2) !! tf = mem (ram_of s1) !! tf ∧
    match r with
    | None => ∃ fl2, taking s fl c k (newp n 0 tf 0) None s2 fl2
    | Some pt => procs s2 !! c = Some (newp n 0 tf 0) ∧ ∃ T fl2, pt = pt_root T ∧ L T = fresh_leaves trampoline_start tf ∧
        taking s fl c k (newp n pt tf 0) (Some T) (set_procs (<[c := newp n pt tf 0]> (procs s2)) s2) fl2
    end).
Proof.
  intros Htf Htk. pose proof (taking_slot _ _ _ _ Htk) as Hq. pose proof (tk_mem _ _ _ _ _ _ _ _ Htk) as [Hk _ _ Hnd].
  unfold proc_pages in Hnd. cbn [trapframe kstack newp from_option] in Hnd. rewrite ram_page_list in Hnd by done.
  apply NoDup_cons in Hnd as [Hn _].
  apply wp_ram. wp_call (proc_pagetable_spec kernel_end Hend_pos trampoline_start Htramp Htramp0); [exact Hk|done|].
  intros [pt|] m.
  - intros (T & fl2 & -> & [B1 B2 B3 B4 B5]). split; [done|]. intros s2 O <-. split; [by apply B5|]. split; [by rewrite O|].
    destruct (fresh_space _ _ _ _ Htf B1 B2) as (Hsp & Hps & Huf). exists T, fl2. split_and!; [done|done|].
    eapply taking_next; try done; [apply B1| | |].
    + cbn. rewrite ram_page_list by done. by apply Forall_singleton.
    + unfold proc_pages. cbn. rewrite Huf, ram_page_list by done. cbn. by rewrite B3.
    + intros p Hp. apply B5. rewrite not_elem_of_app in Hp. tauto.
  - intros (fl2 & [R1 R2 R3 R4]). split; [done|]. intros s2 O <-. split; [by apply R4|]. exists fl2.
    eapply taking_keep; try done; [by rewrite R2|]. intros p Hp. apply R4. rewrite not_elem_of_app in Hp. tauto.
Qed.

Lemma take_kstack n tf T s1 fl1 :
  ram_page tf → taking s fl c k (newp n (pt_root T) tf 0) (Some T) s1 fl1 →
  wp (in_ram kalloc) s1 (λ r s2, mem (ram_of s2) = mem (ram_of s1) ∧
    match r with
    | None => ∃ fl2, taking s fl c k (newp n (pt_root T) tf 0) (Some T) s2 fl2
    | Some kst => procs s2 !! c = Some (newp n (pt_root T) tf 0) ∧ ram_page kst ∧ ∃ fl2,
        taking s fl c k (newp n (pt_root T) tf kst) (Some T) (set_procs (<[c := newp n (pt_root T) tf kst]> (procs s2)) s2) fl2
    end).
Proof.
  intros Htf Htk. pose proof (taking_slot _ _ _ _ Htk) as Hq. pose proof (tk_mem _ _ _ _ _ _ _ _ Htk) as [Hk _ (_ & Hsp & Hps) _].
  apply wp_ram. wp_call (kalloc_spec kernel_end Hend_pos); [exact Hk|]. intros r m (Hm & Hh2 & Hr). split; [done|].
  intros s2 O <-. split; [done|].
  assert (∀ fl2, kinv (ram_of s2) fl2 → (∀ x, x ∈ fl2 → x ∈ fl1) → space_ok (ram_of s2) T fl2) as Hsp2.
  { intros fl2 Hk2 Hin. eapply space_frame; [exact Hsp|done|]. intros p Hp. destruct (owned_used _ _ _ _ _ Hsp Hp) as [_ Hn].
    split; [by rewrite Hm|]. intros ?%Hin. done. }
  destruct fl1 as [|p fl1]; destruct Hr as (-> & Hk2).
  - exists []. eapply taking_keep; try done; [|by intros p _; rewrite Hm]. split_and!; [done|by apply Hsp2|done].
  - pose proof (taken_ram _ _ _ Hk) as Hp. split_and!; [by rewrite O|done|]. exists fl1.
    eapply taking_next; try done; [| | |by intros x _; rewrite Hm].
    + cbn. rewrite !ram_page_list by done. by repeat apply Forall_cons_2.
    + split_and!; [done|apply Hsp2; [done|by right]|done].
    + unfold proc_pages. cbn. rewrite !ram_page_list by done. cbn. apply Permutation_skip. apply Permutation_middle.
Qed.

(** What [allocproc] hands out: an empty address space, a zeroed trapframe and a
    kernel stack. *)
Definition allocated (s' : kernel) : Prop :=
  ∃ T tf kst fl', L T = fresh_leaves trampoline_start tf ∧ ram_page tf ∧ ram_page kst ∧
    mem (ram_of s') !! tf = Some zero_page ∧ taking s fl c k (newp (next_pid s) (pt_root T) tf kst) (Some T) s' fl'.

Lemma allocproc_fail_spec q oT s1 fl1 :
  taking s fl c k q oT s1 fl1 → wp (allocproc_fail kernel_end c) s1 (λ r s', r = inr None ∧ undone s fl s').
Proof.
  intros Htk. unfold allocproc_fail. apply wp_assoc_r. wp_step. eapply wp_mono; [by eapply giving_up|].
  intros [] s' Hu. by wp_steps.
Qed.

Lemma taking_first s1 :
  kinv (ram_of s) fl →
  s1 = set_held [LProc c] (set_procs (<[c := newp (next_pid s) 0 0 0]> (procs s)) (set_k_fs (k_fs s1) (bump_pid s))) →
  fs_of s1 = set_held [LProc c] (add_ref k (k_fs s)) → taking s fl c k (newp (next_pid s) 0 0 0) None s1 fl.
Proof.
  intros Hk Hs1 Hfs. split; try done; [by rewrite Hs1| |by rewrite Hs1].
  split; try done. destruct Hk as [K1 K2 K3 K4 K5 K6]. rewrite Hs1. split; try done.
  change (KMEM ∉ [LProc c]). by rewrite list_elem_of_singleton.
Qed.

Lemma allocproc_hit :
  kinv (ram_of s) fl →
  wp (allocproc_try kernel_end trampoline_start c tt) s (λ r s',
    match r with
    | inl _ => False
    | inr (Some c') => c' = c ∧ allocated s'
    | inr None => undone s fl s'
    end).
Proof.
  intros Hk. pose proof (lookup_lt_Some _ _ _ Hc) as Hlt. unfold allocproc_try.
  assert (∀ q oT s1 fl1, taking s fl c k q oT s1 fl1 → wp (allocproc_fail kernel_end c) s1 (λ r s',
    match r with inl _ => False | inr (Some c') => c' = c ∧ allocated s' | inr None => undone s fl s' end)) as Hfail.
  { intros q oT s1 fl1 Htk. eapply wp_mono; [by eapply allocproc_fail_spec|]. by intros r s' [-> ?]. }
  wp_step. apply wp_acquire; [cbn; rewrite Hh; apply not_elem_of_nil|]. wp_step. eapply wp_proc_slot; [done|].
  rewrite decide_False by (intros Hn; by apply Hn). unfold fetch_pid. wp_steps.
  eapply wp_mono; [apply (in_fs_root _ k)|].
  { exact Hroot. }
  { cbn. rewrite Hh. split; [|intros i]; by rewrite list_elem_of_singleton. }
  intros r s1 (-> & O1 & F1). wp_step. apply wp_set_proc. fold (newp (next_pid s) 0 0 0). 
  assert (taking s fl c k (newp (next_pid s) 0 0 0) None (set_procs (<[c := newp (next_pid s) 0 0 0]> (procs s1)) s1) fl) as Htk1.
  { apply taking_first; [done| |].
    - rewrite O1. destruct s; cbn in *; by subst.
    - change (fs_of (set_procs _ s1)) with (fs_of s1). rewrite F1. unfold fs_of. cbn. rewrite Hh. unfold add_ref. cbn.
      by destruct (icache _ !! k). }
  set (s1' := set_procs _ s1) in *. clearbody s1'.
  wp_call (take_trapframe _ s1' fl Htk1). intros [tf|] s2; [|intros (fl2 & Htk2); by eapply Hfail].
  intros (Hq2 & Htf & Hz2 & fl2 & Htk2). wp_step. eapply wp_proc_slot; [done|]. wp_step. apply wp_set_proc.
  change (set_memory 0 tf 0 _) with (newp (next_pid s) 0 tf 0).
  change (ram_of s2) with (ram_of (set_procs (<[c := newp (next_pid s) 0 tf 0]> (procs s2)) s2)) in Hz2.
  set (s2' := set_procs _ s2) in *. clearbody s2'.
  wp_call (take_pagetable _ tf s2' fl2 Htf Htk2). intros [pt|] s3; [|intros (_ & fl3 & Htk3); by eapply Hfail].
  intros (Hm3 & Hq3 & T & fl3 & -> & HL & Htk3). wp_step. eapply wp_proc_slot; [done|]. wp_step. apply wp_set_proc.
  change (set_memory _ tf 0 _) with (newp (next_pid s) (pt_root T) tf 0). rewrite Hz2 in Hm3.
  change (ram_of s3) with (ram_of (set_procs (<[c := newp (next_pid s) (pt_root T) tf 0]> (procs s3)) s3)) in Hm3.
  set (s3' := set_procs _ s3) in *. clearbody s3'.
  wp_call (take_kstack _ tf T s3' fl3 Htf Htk3). intros [kst|] s4; [|intros (_ & fl4 & Htk4); by eapply Hfail].
  intros (Hm4 & Hq4 & Hks & fl4 & Htk4). wp_step. eapply wp_proc_slot; [done|]. wp_step. apply wp_set_proc. wp_steps.
  split; [done|]. exists T, tf, kst, fl4. change (set_memory _ tf kst _) with (newp (next_pid s) (pt_root T) tf kst).
  split_and!; try done. change (ram_of (set_procs _ s4)) with (ram_of s4). by rewrite Hm4.
Qed.
End taking.

Section allocproc.
Context (s : kernel) (fl : list Z) (k : nat).
Context (Hh : k_held s = []) (Hlen : length (procs s) = Z.to_nat NPROC) (Hroot : root_cached (k_fs s) k) (Hk : kinv (ram_of s) fl).
Context (Hclean : ∀ i q, procs s !! i = Some q → state q = Unused → q = Process_unused).
Context (trampoline_start : usize) (Htramp : trampoline_start mod PGSIZE = 0) (Htramp0 : 0 ≤ trampoline_start < PHYSTOP).

(** The first unused slot is taken, unless there is none or memory runs out. *)
Lemma allocproc_spec :
  wp (allocproc kernel_end trampoline_start) s (λ r s',
    match r with
    | Some c => procs s !! c = Some Process_unused ∧ allocated s fl c k trampoline_start s'
    | None => (∀ i q, procs s !! i = Some q → state q ≠ Unused) ∧ s' = s ∨ undone s fl s'
    end).
Proof.
  unfold allocproc. wp_step. apply (wp_scan (procs s) (λ q, bool_decide (state q = Unused))); [done| | |].
  - intros i q Hq Hu. apply bool_decide_eq_false in Hu. unfold allocproc_try. wp_step.
    apply wp_acquire; [cbn; rewrite Hh; apply not_elem_of_nil|]. wp_step. eapply wp_proc_slot; [done|]. rewrite decide_True by done.
    wp_step. eapply wp_release; [done|cbn; rewrite Hh; apply not_elem_of_nil|]. wp_steps. split; [done|]. by destruct s.
  - intros i q Hq Hu _. apply bool_decide_eq_true in Hu. assert (q = Process_unused) as -> by (by eapply Hclean).
    eapply wp_mono; [apply (allocproc_hit s fl i k); [done|done|done|apply Hk|done|done|done]|].
    intros [[]|[c'|]] s'; [done| |].
    + intros [-> Ha]. by wp_steps.
    + intros Hu'. wp_steps. by right.
  - intros Hall. wp_steps. left. split; [|done]. intros i q Hq. specialize (Hall i q Hq). by apply bool_decide_eq_false in Hall.
Qed.
End allocproc.
End proc_mem.
