(* ===== verification/Exec.v ===== *)
(** * Program loading and exec (src/src/loader.rs, proc.rs: exec_from_inode, userinit)

    The ELF loader, from memory and from a file, the replacement of a process
    image by [exec], and the first process. *)

From S2P Require Import Prelude Spinlock FsBase Icache Path Kalloc Vm PageTable UserMem Argv Kernel Sched File Proc.

(** ** ELF structures *)

Record Ehdr := mkEhdr {
  e_ident : list u8; e_type : u16; e_machine : u16; e_version : u32; e_entry : u64; e_phoff : u64; e_shoff : u64;
  e_flags : u32; e_ehsize : u16; e_phentsize : u16; e_phnum : u16; e_shentsize : u16; e_shnum : u16; e_shstrndx : u16;
}.

Record Phdr := mkPhdr {
  p_type : u32; p_flags : u32; p_offset : u64; p_vaddr : u64; p_paddr : u64; p_filesz : u64; p_memsz : u64; p_align : u64;
}.

Definition EHDR_SIZE : usize := 64.
Definition PHDR_SIZE : usize := 56.

(** The [n]-byte field at [off] of a [repr(C)] structure. *)
Definition field (bs : list u8) (off n : nat) : Z := le_val (slice off n bs).

Definition Ehdr_of_bytes (b : list u8) : Ehdr :=
  mkEhdr (take 16 b) (field b 16 2) (field b 18 2) (field b 20 4) (field b 24 8) (field b 32 8) (field b 40 8)
    (field b 48 4) (field b 52 2) (field b 54 2) (field b 56 2) (field b 58 2) (field b 60 2) (field b 62 2).

Definition Phdr_of_bytes (b : list u8) : Phdr :=
  mkPhdr (field b 0 4) (field b 4 4) (field b 8 8) (field b 16 8) (field b 24 8) (field b 32 8) (field b 40 8) (field b 48 8).

Definition ELF_MAGIC : list u8 := [127; 69; 76; 70].
Definition ELFCLASS64 : u8 := 2.
Definition ELFDATA2LSB : u8 := 1.
Definition ET_EXEC : u16 := 2.
Definition EM_RISCV : u16 := 243.
Definition PT_LOAD : u32 := 1.
Definition PF_X : u32 := 1.
Definition PF_W : u32 := 2.
Definition PF_R : u32 := 4.

Record LoadedImage := mkImage { li_entry : usize; li_sp : usize; li_sz : usize }.

(** The checks on the header that both loaders make. *)
Definition ehdr_ok (h : Ehdr) : bool :=
  bool_decide (take 4 (e_ident h) = ELF_MAGIC) &&
  bool_decide (e_ident h !! 4%nat = Some ELFCLASS64) &&
  bool_decide (e_ident h !! 5%nat = Some ELFDATA2LSB) &&
  (e_machine h =? EM_RISCV) && (e_type h =? ET_EXEC) && (e_phentsize h =? PHDR_SIZE).

Definition segment_perm (h : Phdr) : u64 :=
  Z.lor (Z.lor (Z.lor PTE_U (if negb (Z.land (p_flags h) PF_R =? 0) then PTE_R else 0))
    (if negb (Z.land (p_flags h) PF_W =? 0) then PTE_W else 0))
    (if negb (Z.land (p_flags h) PF_X =? 0) then PTE_X else 0).

Section exec.
(** Linker symbols and the address of [forkret]. *)
Context (kernel_end trampoline_start forkret : usize).

(** ** Segments *)

Definition cleanup_user (pt sz : usize) : M machine unit :=
  e ← page_round_up sz;
  let npages := e / PGSIZE in
  if 0 <? npages then uvmunmap kernel_end pt 0 npages true else mret tt.

(** Take back the pages of the segment that is being loaded. *)
Definition unload (pt start_va mapped_pages : usize) : M machine unit :=
  if 0 <? mapped_pages then uvmunmap kernel_end pt start_va mapped_pages true else mret tt.

(** [while off < phdr.p_memsz]: [fill] copies the file-backed part of a page. *)
Definition load_page_at (pt : usize) (h : Phdr) (fill : u64 → usize → usize → M kernel bool) (st : usize * u64) :
  M kernel (usize * u64 + option unit) :=
  let '(mapped_pages, off) := st in
  if off <? p_memsz h then
    r ← in_ram kalloc_zeroed;
    match r with
    | None => in_ram (unload pt (p_vaddr h) mapped_pages);; mret (inr None)
    | Some pa =>
        ok ← (if off <? p_filesz h then fill off pa (Z.min PGSIZE (p_filesz h - off)) else mret true);
        if negb ok then
          in_ram (kfree kernel_end pa);; in_ram (unload pt (p_vaddr h) mapped_pages);; mret (inr None)
        else
          va ← add_at USIZE_MAX (p_vaddr h) off;
          r ← in_ram (mappages pt va PGSIZE pa (segment_perm h));
          match r with
          | None =>
              in_ram (kfree kernel_end pa);; in_ram (unload pt (p_vaddr h) mapped_pages);; mret (inr None)
          | Some _ =>
              mapped_pages ← add_at USIZE_MAX mapped_pages 1;
              off ← add_at USIZE_MAX off PGSIZE;
              mret (inl (mapped_pages, off))
          end
    end
  else mret (inr (Some tt)).

Definition load_pages (pt : usize) (h : Phdr) (fill : u64 → usize → usize → M kernel bool) : M kernel (option unit) :=
  while_fuel (2 + Z.to_nat (p_memsz h / PGSIZE)) (load_page_at pt h fill) (0, 0).

Definition load_segment (pt : usize) (h : Phdr) (elf : list u8) : M kernel (option unit) :=
  if negb (p_vaddr h mod PGSIZE =? 0) then mret None
  else if p_memsz h <? p_filesz h then mret None
  else
    e ← add_at USIZE_MAX (p_offset h) (p_filesz h);
    if Z.of_nat (length elf) <? e then mret None
    else load_pages pt h (λ off pa n,
      o ← add_at USIZE_MAX (p_offset h) off;
      chunk ← subslice elf o n;
      d ← in_ram (load_page pa);
      d ← copy_into d 0 chunk;
      in_ram (store_page pa d);;
      mret true).

Definition read_exact_inode (inode : InodeRef) (off : usize) (dst : list u8) : M kernel (option unit * list u8) :=
  '(n, dst) ← in_fs (readi inode off dst);
  mret (if n =? Z.of_nat (length dst) then Some tt else None, dst).

Definition load_segment_from_inode (pt : usize) (h : Phdr) (inode : InodeRef) : M kernel (option unit) :=
  if negb (p_vaddr h mod PGSIZE =? 0) then mret None
  else if p_memsz h <? p_filesz h then mret None
  else load_pages pt h (λ off pa n,
    o ← add_at USIZE_MAX (p_offset h) off;
    d ← in_ram (load_page pa);
    dst ← subslice d 0 n;
    '(r, dst) ← read_exact_inode inode o dst;
    d ← copy_into d 0 dst;
    in_ram (store_page pa d);;
    mret (bool_decide (is_Some r))).

(** ** Images *)

(** [end] of a segment and the new size of the image. *)
Definition grow_sz (h : Phdr) (sz : usize) : M kernel usize :=
  e ← add_at USIZE_MAX (p_vaddr h) (p_memsz h);
  mret (if sz <? e then e else sz).

(** The user stack, after all segments. *)
Definition map_stack (pt : usize) (h : Ehdr) (sz : usize) : M machine (option LoadedImage) :=
  e ← add_at USIZE_MAX sz PGSIZE;
  let sz := Z.ldiff (e - 1) (PGSIZE - 1) in
  r ← kalloc_zeroed;
  match r with
  | None => cleanup_user pt sz;; mret None
  | Some stack_pa =>
      r ← mappages pt USER_STACK PGSIZE stack_pa (Z.lor (Z.lor PTE_U PTE_R) PTE_W);
      match r with
      | None => kfree kernel_end stack_pa;; cleanup_user pt sz;; mret None
      | Some _ => mret (Some (mkImage (e_entry h) (USER_STACK + PGSIZE) sz))
      end
  end.

Definition load_elf_phdr (pt : usize) (ehdr : Ehdr) (elf : list u8) (i : Z) (sz : usize) : M kernel (usize + unit) :=
  o ← mul_at USIZE_MAX i (e_phentsize ehdr);
  phoff ← add_at USIZE_MAX (e_phoff ehdr) o;
  b ← subslice elf phoff PHDR_SIZE;
  let phdr := Phdr_of_bytes b in
  if negb (p_type phdr =? PT_LOAD) then mret (inl sz)
  else
    r ← load_segment pt phdr elf;
    match r with
    | None => in_ram (cleanup_user pt sz);; mret (inr tt)
    | Some _ => sz ← grow_sz phdr sz; mret (inl sz)
    end.

Definition load_elf (pt : usize) (elf : list u8) : M kernel (option LoadedImage) :=
  if Z.of_nat (length elf) <? EHDR_SIZE then mret None
  else
    let ehdr := Ehdr_of_bytes (take (Z.to_nat EHDR_SIZE) elf) in
    if negb (ehdr_ok ehdr) then mret None
    else
      n ← mul_at USIZE_MAX (e_phnum ehdr) (e_phentsize ehdr);
      ph_table_end ← add_at USIZE_MAX (e_phoff ehdr) n;
      if Z.of_nat (length elf) <? ph_table_end then mret None
      else
        r ← for_each (range 0 (e_phnum ehdr)) (load_elf_phdr pt ehdr elf) 0;
        match r with
        | inr _ => mret None
        | inl sz => in_ram (map_stack pt ehdr sz)
        end.

(** A program header that cannot be read ends the load without clean-up. *)
Definition load_inode_phdr (pt : usize) (ehdr : Ehdr) (inode : InodeRef) (i : Z) (sz : usize) : M kernel (usize + unit) :=
  o ← mul_at USIZE_MAX i (e_phentsize ehdr);
  phoff ← add_at USIZE_MAX (e_phoff ehdr) o;
  '(r, b) ← read_exact_inode inode phoff (replicate (Z.to_nat PHDR_SIZE) 0);
  match r with
  | None => mret (inr tt)
  | Some _ =>
      let phdr := Phdr_of_bytes b in
      if negb (p_type phdr =? PT_LOAD) then mret (inl sz)
      else
        r ← load_segment_from_inode pt phdr inode;
        match r with
        | None => in_ram (cleanup_user pt sz);; mret (inr tt)
        | Some _ => sz ← grow_sz phdr sz; mret (inl sz)
        end
  end.

Definition load_elf_from_inode (pt : usize) (inode : InodeRef) : M kernel (option LoadedImage) :=
  '(r, b) ← read_exact_inode inode 0 (replicate (Z.to_nat EHDR_SIZE) 0);
  match r with
  | None => mret None
  | Some _ =>
      let ehdr := Ehdr_of_bytes b in
      if negb (ehdr_ok ehdr) then mret None
      else
        match checked USIZE_MAX (e_phnum ehdr * e_phentsize ehdr) with
        | None => mret None
        | Some ph_table_size =>
            match checked USIZE_MAX (e_phoff ehdr + ph_table_size) with
            | None => mret None
            | Some _ =>
                r ← for_each (range 0 (e_phnum ehdr)) (load_inode_phdr pt ehdr inode) 0;
                match r with
                | inr _ => mret None
                | inl sz => in_ram (map_stack pt ehdr sz)
                end
            end
        end
  end.

(** ** Exec *)

(** Offsets in [Trapframe]. *)
Definition TF_EPC : usize := 24.
Definition TF_SP : usize := 48.
Definition TF_A1 : usize := 120.

Definition set_image (pt n : usize) (p : Process) : Process :=
  mkProcess (state p) (pid p) (context p) (parent p) (xstate p) (p_chan p) pt (trapframe p) n (kstack p) (ofile p) (cwd p).

Definition exec_from_inode (inode : InodeRef) (argv : KernelArgs) : M kernel (option unit) :=
  i ← myproc "null pointer dereference";
  p ← proc_slot i;
  r ← in_ram (proc_pagetable kernel_end trampoline_start (trapframe p));
  match r with
  | None => mret None
  | Some new_pt =>
      r ← load_elf_from_inode new_pt inode;
      match r with
      | None => in_ram (proc_freepagetable kernel_end new_pt 0);; mret None
      | Some image =>
          r ← in_ram (push_argv new_pt (li_sp image) argv);
          match r with
          | None => in_ram (proc_freepagetable kernel_end new_pt (li_sz image));; mret None
          | Some (sp, argv_va) =>
              set_proc i (set_image new_pt (li_sz image) p);;
              in_ram (store64 (trapframe p + A0) (argc argv));;
              in_ram (store64 (trapframe p + TF_A1) argv_va);;
              in_ram (store64 (trapframe p + TF_EPC) (li_entry image));;
              in_ram (store64 (trapframe p + TF_SP) sp);;
              in_ram (proc_freepagetable kernel_end (pagetable p) (sz p));;
              mret (Some tt)
          end
      end
  end.

(** ** The first process *)

Definition open_console (rd wr : bool) : M kernel (option nat) :=
  r ← file_alloc;
  match r with
  | None => mret None
  | Some fp =>
      f ← file_slot fp;
      set_file fp (mkFile (f_refcnt f) rd wr (KDevice CONSOLE_MAJOR));;
      mret (Some fp)
  end.

Definition set_fd (i fd f : nat) : M kernel unit :=
  p ← proc_slot i;
  set_proc i (mkProcess (state p) (pid p) (context p) (parent p) (xstate p) (p_chan p) (pagetable p)
    (trapframe p) (sz p) (kstack p) (<[fd := Some f]> (ofile p)) (cwd p)).

Definition set_initproc (i : nat) : M kernel unit :=
  modify (λ s, match initproc s with
               | Some _ => s
               | None => mkKernel (k_held s) (procs s) (cpu_proc s) (next_pid s) (Some i) (ftable s) (pipes s)
                           (console s) (k_fs s) (k_ram s)
               end).

(** [INIT_ELF] is included from the build of the user programs. *)
Definition userinit (init_elf : list u8) : M kernel nat :=
  r ← allocproc kernel_end trampoline_start;
  i ← expect r "userinit: allocproc";
  set_initproc i;;
  p ← proc_slot i;
  r ← load_elf (pagetable p) init_elf;
  image ← expect r "exec init";
  in_ram (store64 (trapframe p + TF_EPC) (li_entry image));;
  in_ram (store64 (trapframe p + TF_SP) (li_sp image));;
  ksp ← add_at USIZE_MAX (kstack p) PGSIZE;
  set_proc i (mkProcess Runnable (pid p) (mkContext forkret ksp (c_sregs (context p))) (parent p) (xstate p) (p_chan p)
    (pagetable p) (trapframe p) (li_sz image) (kstack p) (ofile p) (cwd p));;
  r ← open_console true false; f ← expect r "userinit: stdin"; set_fd i 0 f;;
  r ← open_console false true; f ← expect r "userinit: stdout"; set_fd i 1 f;;
  r ← open_console false true; f ← expect r "userinit: stderr"; set_fd i 2 f;;
  release (LProc i);;
  mret i.
End exec.

(** ** Runs *)

(** A program of one segment: [code] in a page of its own with a zeroed tail. *)
Definition tiny_elf (code : list u8) (memsz : Z) : list u8 :=
  ELF_MAGIC ++ [ELFCLASS64; ELFDATA2LSB] ++ replicate 10 0 ++ le_bytes 2 ET_EXEC ++ le_bytes 2 EM_RISCV ++
  le_bytes 4 1 ++ le_bytes 8 0 ++ le_bytes 8 EHDR_SIZE ++ le_bytes 8 0 ++ le_bytes 4 0 ++ le_bytes 2 EHDR_SIZE ++
  le_bytes 2 PHDR_SIZE ++ le_bytes 2 1 ++ le_bytes 2 0 ++ le_bytes 2 0 ++ le_bytes 2 0 ++
  le_bytes 4 PT_LOAD ++ le_bytes 4 (PF_R + PF_X) ++ le_bytes 8 120 ++ le_bytes 8 0 ++ le_bytes 8 0 ++
  le_bytes 8 (Z.of_nat (length code)) ++ le_bytes 8 memsz ++ le_bytes 8 4096 ++ code.

(** Install a program as a file and execute it in the first process. *)
Definition exec_tiny (elf : list u8) : M kernel (option unit) :=
  i ← myproc "no proc";
  p ← proc_slot i;
  f ← in_fs (create (cwd p) (bytes_of_string "/prog"));
  f ← expect f "create";
  in_fs (writei f 0 elf);;
  exec_from_inode small_end KERNBASE f demo_args.

(** The new image: registers, code, and the first argument. *)
Definition observe : M kernel (Z * list u64 * option unit * list u8 * option Z * list u8) :=
  i ← myproc "no proc";
  p ← proc_slot i;
  d ← in_ram (load_page (trapframe p));
  '(r, code) ← in_ram (copyin (pagetable p) (replicate 4 9) 0);
  '(_, ptr) ← in_ram (copyin (pagetable p) (replicate 8 9) (field d 120 8));
  '(n, arg) ← in_ram (copyinstr (pagetable p) (replicate 4 9) (le_val ptr));
  mret (sz p, (λ off, field d off 8) <$> [112; 24]%nat, r, code, n, take 3 arg).

Example exec_run :
  match (start_first;; _ ← exec_tiny (tiny_elf [1; 2; 3] 5000); n ← resources;
         r ← exec_tiny (tiny_elf [1; 2; 3] 5000); n' ← resources; o ← observe; mret (r, (n.1 =? n'.1)%nat, o)) boot_kernel with
  | Ok (r, s) => Some (r, held s)
  | Fault _ => None
  end = Some (Some tt, true, (8192, [2; 0], Some tt, [1; 2; 3; 0], Some 2, bytes_of_string "ls" ++ [0]), []).
Proof. by vm_compute. Qed.

(** The first process: runnable, with the console on its first three
    descriptors. *)
Definition boot_userinit : M kernel (nat * Process * list FileKind) :=
  in_fs (fs_reset;; populate [] []);;
  in_ram (kinit small_end);;
  i ← userinit small_end KERNBASE 77 (tiny_elf [1; 2; 3] 3);
  p ← proc_slot i;
  l ← gets ftable;
  mret (i, p, kind <$> take 3 l).

Example userinit_run :
  match boot_userinit boot_kernel with
  | Ok (i, p, k, s) =>
      Some (i, state p, c_ra (context p), sz p, take 4 (ofile p), k, held s)
  | Fault _ => None
  end = Some (0%nat, Runnable, 77, 4096, [Some 0; Some 1; Some 2; None]%nat, replicate 3 (KDevice CONSOLE_MAJOR), []).
Proof. by vm_compute. Qed.

(** A file that announces two program headers and ends before the second one:
    the load gives up with the first segment still mapped, and the page-table
    teardown of [exec] stops the kernel. *)
Example truncated_phdr_panics :
  match (start_first;; exec_tiny (splice 56 (le_bytes 2 2) (tiny_elf [1; 2; 3] 3))) boot_kernel with
  | Ok _ => None
  | Fault e => Some e
  end = Some (Panic "freewalk: leaf").
Proof. by vm_compute. Qed.

(** The layout of a program is not checked: one whose segment starts above page 0,
    or grants no access at all, is executed, and the kernel stops when its memory
    is taken down by the next [exec]. *)
Definition exec_twice (elf : list u8) : M kernel (option unit) :=
  exec_tiny elf;;
  i ← myproc "no proc";
  p ← proc_slot i;
  f ← in_fs (namei (cwd p) (bytes_of_string "/prog"));
  f ← expect f "namei";
  in_fs (writei f 0 (tiny_elf [1; 2; 3] 5000));;
  exec_from_inode small_end KERNBASE f demo_args.

Definition outcome_of {A} (m : M kernel A) : option fault := match m boot_kernel with Ok _ => None | Fault e => Some e end.

Example layout_unchecked :
  let elf := tiny_elf [1; 2; 3] 5000 in
  (outcome_of (start_first;; exec_twice elf), outcome_of (start_first;; exec_twice (splice 80 (le_bytes 8 8192) elf)),
   outcome_of (start_first;; exec_twice (splice 68 (le_bytes 4 0) elf))) =
  (None, Some (Panic "uvmunmap: not mapped"), Some (Panic "uvmunmap: not leaf")).
Proof. by vm_compute. Qed.
