(* ===== verification/Syscall.v ===== *)
(** * System calls (src/src/syscall.rs)

    The dispatch on [a7], argument checks, the descriptor table of a process and
    the copies between user and kernel memory.  A call that sleeps is split like
    the operation it waits in; [pending] is what is left to do when it wakes. *)

From S2P Require Import Prelude Ring Spinlock FsBase Bcache Inode Icache Path Kalloc Vm PageTable UserMem Argv Kernel Sched Pipe Console File Proc Exec.

Definition SYS_FORK : usize := 1.
Definition SYS_EXIT : usize := 2.
Definition SYS_WAIT : usize := 3.
Definition SYS_PIPE : usize := 4.
Definition SYS_READ : usize := 5.
Definition SYS_EXEC : usize := 7.
Definition SYS_FSTAT : usize := 8.
Definition SYS_CHDIR : usize := 9.
Definition SYS_DUP : usize := 10.
Definition SYS_GETPID : usize := 11.
Definition SYS_SBRK : usize := 12.
Definition SYS_OPEN : usize := 15.
Definition SYS_WRITE : usize := 16.
Definition SYS_MKDIR : usize := 20.
Definition SYS_CLOSE : usize := 21.

Definition O_WRONLY : usize := 0x001.
Definition O_RDWR : usize := 0x002.
Definition O_CREATE : usize := 0x200.
Definition O_TRUNC : usize := 0x400.
Definition O_APPEND : usize := 0x800.

Definition SYSERR : Z := -1.

(** [Replaced] leaves [a0] as [exec] set it. *)
Inductive SyscallResult := SReturn (v : Z) | Replaced.

(** Calls that sleep. *)
Inductive pending :=
| PConsRead (buf : usize) (n : Z) (dst : list u8)
| PPipeRead (buf : usize) (p : nat) (dst : list u8)
| PPipeWrite (p : nat) (src : list u8) (n : Z)
| PWait (status_va : usize).

(** [exit] does not come back. *)
Inductive sys_end := Finished | Asleep (c : chan) (lk : lock) (t : pending) | Gone.

(** ** Arguments *)

(** The argument registers of [Trapframe]. *)
Record Targs := mkTargs { tf_a0 : u64; tf_a1 : u64; tf_a2 : u64; tf_a7 : u64 }.

Definition TF_A2 : usize := 128.
Definition TF_A7 : usize := 168.

Definition trapframe_args (tf : usize) : M kernel Targs :=
  a0 ← in_ram (load64 (tf + A0));
  a1 ← in_ram (load64 (tf + TF_A1));
  a2 ← in_ram (load64 (tf + TF_A2));
  a7 ← in_ram (load64 (tf + TF_A7));
  mret (mkTargs a0 a1 a2 a7).

Definition curproc : M kernel (nat * Process) :=
  i ← myproc "null pointer dereference"; p ← proc_slot i; mret (i, p).

(** The open file behind a descriptor, when there is one. *)
Definition fd_file (p : Process) (fd : usize) : option nat :=
  if NOFILE <=? fd then None else mjoin (ofile p !! Z.to_nat fd).

Definition set_ofile (l : list (option nat)) (p : Process) : Process :=
  mkProcess (state p) (pid p) (context p) (parent p) (xstate p) (p_chan p) (pagetable p) (trapframe p) (sz p) (kstack p) l (cwd p).

Definition put_fd (i : nat) (fd : nat) (f : option nat) : M kernel unit :=
  p ← proc_slot i; set_proc i (set_ofile (<[fd := f]> (ofile p)) p).

(** The first free entry gets [f]. *)
Fixpoint free_fd (l : list (option nat)) : option nat :=
  match l with
  | [] => None
  | None :: _ => Some 0%nat
  | Some _ :: l => S <$> free_fd l
  end.

Definition fdalloc (i : nat) (f : nat) : M kernel (option nat) :=
  p ← proc_slot i;
  match free_fd (ofile p) with
  | None => mret None
  | Some fd => put_fd i fd (Some f);; mret (Some fd)
  end.

(** The path argument of [exec], [chdir], [open] and [mkdir]. *)
Definition fetch_path (pt va : usize) : M kernel (option (list u8)) :=
  '(r, path) ← in_ram (copyinstr pt (replicate 128 0) va);
  match r with
  | None => mret None
  | Some n => path ← subslice path 0 n; mret (Some path)
  end.

(** The checks of [sys_read] and [sys_write] after the descriptor: a result, or
    the number of bytes to transfer. *)
Definition check_range (buf len : usize) : SyscallResult + Z :=
  if len =? 0 then inl (SReturn 0)
  else if ISIZE_MAX <? len then inl (SReturn SYSERR)
  else
    match checked USIZE_MAX (buf + len) with
    | None => inl (SReturn SYSERR)
    | Some e => if MAXVA <? e then inl (SReturn SYSERR) else inr (Z.min 128 len)
    end.

Section syscalls.
(** Linker symbols, the address of [forkret], and the padding bytes of [Stat]. *)
Context (kernel_end trampoline_start forkret : usize) (pad1 pad2 : list u8).

(** ** Reading and writing *)

Definition write_done (nw : isize) : SyscallResult :=
  if nw <? 0 then SReturn SYSERR else if nw =? 0 then SReturn SYSERR else SReturn nw.

Definition on_write_end (p : nat) (src : list u8) (r : segment Z isize) : segment pending SyscallResult :=
  match r with
  | Return nw => Return (write_done nw)
  | Block c lk n => Block c lk (PPipeWrite p src n)
  end.

Definition sys_write (a : Targs) : M kernel (segment pending SyscallResult) :=
  '(_, p) ← curproc;
  match fd_file p (tf_a0 a) with
  | None => mret (Return (SReturn SYSERR))
  | Some fp =>
      f ← file_slot fp;
      if negb (writable f) then mret (Return (SReturn SYSERR))
      else
        match check_range (tf_a1 a) (tf_a2 a) with
        | inl r => mret (Return r)
        | inr n =>
            '(r, chunk) ← in_ram (copyin (pagetable p) (replicate (Z.to_nat n) 0) (tf_a1 a));
            match r with
            | None => mret (Return (SReturn SYSERR))
            | Some _ =>
                r ← file_write fp chunk;
                mret (on_write_end (match kind f with KPipe q => q | _ => 0%nat end) chunk r)
            end
        end
  end.

Definition read_done (buf : usize) (r : isize * list u8) : M kernel SyscallResult :=
  let '(nr, kbuf) := r in
  if nr <? 0 then mret (SReturn SYSERR)
  else
    '(_, p) ← curproc;
    bs ← subslice kbuf 0 nr;
    r ← in_ram (copyout (pagetable p) buf bs);
    match r with
    | None => mret (SReturn SYSERR)
    | Some _ => mret (SReturn nr)
    end.

(** The state a sleeping read resumes from depends on what is read. *)
Definition on_read_end (buf : usize) (k : FileKind) (r : segment (Z * list u8) (isize * list u8)) :
  M kernel (segment pending SyscallResult) :=
  match r with
  | Return v => res ← read_done buf v; mret (Return res)
  | Block c lk (n, dst) =>
      mret (Block c lk (match k with KPipe p => PPipeRead buf p dst | _ => PConsRead buf n dst end))
  end.

Definition sys_read (a : Targs) : M kernel (segment pending SyscallResult) :=
  '(_, p) ← curproc;
  match fd_file p (tf_a0 a) with
  | None => mret (Return (SReturn SYSERR))
  | Some fp =>
      f ← file_slot fp;
      if negb (readable f) then mret (Return (SReturn SYSERR))
      else
        match check_range (tf_a1 a) (tf_a2 a) with
        | inl r => mret (Return r)
        | inr cap =>
            r ← file_read fp (replicate (Z.to_nat cap) 0);
            on_read_end (tf_a1 a) (kind f) r
        end
  end.

(** ** Descriptors *)

Definition sys_dup (a : Targs) : M kernel SyscallResult :=
  '(i, p) ← curproc;
  match fd_file p (tf_a0 a) with
  | None => mret (SReturn SYSERR)
  | Some fp =>
      r ← fdalloc i fp;
      match r with
      | None => mret (SReturn SYSERR)
      | Some newfd => file_dup fp;; mret (SReturn (Z.of_nat newfd))
      end
  end.

Definition sys_close (a : Targs) : M kernel SyscallResult :=
  '(i, p) ← curproc;
  match fd_file p (tf_a0 a) with
  | None => mret (SReturn SYSERR)
  | Some fp => put_fd i (Z.to_nat (tf_a0 a)) None;; file_close fp;; mret (SReturn 0)
  end.

(** [repr(C)] bytes of [Stat]: two bytes of padding after each [i16]. *)
Definition Stat_bytes (st : Stat) : list u8 :=
  le_bytes 2 (st_typ st mod 2 ^ 16) ++ pad1 ++ le_bytes 4 (st_ino st) ++
  le_bytes 2 (st_nlink st mod 2 ^ 16) ++ pad2 ++ le_bytes 4 (st_size st).

Definition sys_fstat (a : Targs) : M kernel SyscallResult :=
  '(_, p) ← curproc;
  match fd_file p (tf_a0 a) with
  | None => mret (SReturn SYSERR)
  | Some fp =>
      r ← file_stat fp;
      match r with
      | None => mret (SReturn SYSERR)
      | Some st =>
          r ← in_ram (copyout (pagetable p) (tf_a1 a) (Stat_bytes st));
          mret (SReturn (match r with None => SYSERR | Some _ => 0 end))
      end
  end.

(** Both ends of the new pipe, given up. *)
Definition close_both (rfp wfp : nat) : M kernel SyscallResult :=
  file_close rfp;; file_close wfp;; mret (SReturn SYSERR).

Definition set_end (fp : nat) (rd wr : bool) (pipe : nat) : M kernel unit :=
  f ← file_slot fp; set_file fp (mkFile (f_refcnt f) rd wr (KPipe pipe)).

(** The descriptors of the two ends, and their numbers for the caller. *)
Definition install_ends (i : nat) (pt va : usize) (read_fp write_fp : nat) : M kernel SyscallResult :=
  r ← fdalloc i read_fp;
  match r with
  | None => close_both read_fp write_fp
  | Some read_fd =>
      r ← fdalloc i write_fp;
      match r with
      | None => put_fd i read_fd None;; close_both read_fp write_fp
      | Some write_fd =>
          r ← in_ram (copyout pt va (le_bytes 4 (Z.of_nat read_fd) ++ le_bytes 4 (Z.of_nat write_fd)));
          match r with
          | None => put_fd i read_fd None;; put_fd i write_fd None;; close_both read_fp write_fp
          | Some _ => mret (SReturn 0)
          end
      end
  end.

Definition sys_pipe (a : Targs) : M kernel SyscallResult :=
  '(i, p) ← curproc;
  r ← pipe_alloc;
  match r with
  | None => mret (SReturn SYSERR)
  | Some pipe =>
      r ← file_alloc;
      match r with
      | None => free_allocated pipe;; mret (SReturn SYSERR)
      | Some read_fp =>
          r ← file_alloc;
          match r with
          | None => file_close read_fp;; free_allocated pipe;; mret (SReturn SYSERR)
          | Some write_fp =>
              set_end read_fp true false pipe;;
              set_end write_fp false true pipe;;
              install_ends i (pagetable p) (tf_a0 a) read_fp write_fp
          end
      end
  end.

(** ** Paths *)

Definition set_cwd (c : InodeRef) (p : Process) : Process :=
  mkProcess (state p) (pid p) (context p) (parent p) (xstate p) (p_chan p) (pagetable p) (trapframe p) (sz p) (kstack p) (ofile p) c.

Definition sys_chdir (a : Targs) : M kernel SyscallResult :=
  '(i, p) ← curproc;
  r ← fetch_path (pagetable p) (tf_a0 a);
  match r with
  | None => mret (SReturn SYSERR)
  | Some path =>
      r ← in_fs (namei (cwd p) path);
      match r with
      | None => mret (SReturn SYSERR)
      | Some inode =>
          t ← in_fs (inode_type inode);
          match t with
          | IDir => in_fs (iput (cwd p));; set_proc i (set_cwd inode p);; mret (SReturn 0)
          | _ => in_fs (iput inode);; mret (SReturn SYSERR)
          end
      end
  end.

Definition sys_mkdir (a : Targs) : M kernel SyscallResult :=
  '(_, p) ← curproc;
  r ← fetch_path (pagetable p) (tf_a0 a);
  match r with
  | None => mret (SReturn SYSERR)
  | Some path =>
      r ← in_fs (mkdir (cwd p) path);
      match r with
      | None => mret (SReturn SYSERR)
      | Some inode => in_fs (iput inode);; mret (SReturn 0)
      end
  end.

Definition flag (flags bit : usize) : bool := negb (Z.land flags bit =? 0).

Definition is_file (t : InodeType) : bool := match t with IFile => true | _ => false end.
Definition is_dir (t : InodeType) : bool := match t with IDir => true | _ => false end.

(** The descriptor part of [sys_open], once the inode and its use are settled. *)
Definition open_inode (i : nat) (inode : InodeRef) (t : InodeType) (rd wr truncate append : bool) :
  M kernel SyscallResult :=
  r ← file_alloc;
  match r with
  | None => in_fs (iput inode);; mret (SReturn SYSERR)
  | Some fp =>
      f ← file_slot fp;
      (match t with
       | IFile => set_file fp (mkFile (f_refcnt f) rd wr (KInode inode 0 append))
       | IDevice major => set_file fp (mkFile (f_refcnt f) rd wr (KDevice major));; in_fs (iput inode)
       | IDir => set_file fp (mkFile (f_refcnt f) rd wr (KInode inode 0 false))
       end);;
      r ← fdalloc i fp;
      match r with
      | None => file_close fp;; mret (SReturn SYSERR)
      | Some fd =>
          (if truncate then in_fs (trunc inode) else mret tt);;
          mret (SReturn (Z.of_nat fd))
      end
  end.

Definition sys_open (a : Targs) : M kernel SyscallResult :=
  '(i, p) ← curproc;
  r ← fetch_path (pagetable p) (tf_a0 a);
  match r with
  | None => mret (SReturn SYSERR)
  | Some path =>
      let flags := tf_a1 a in
      r ← in_fs (if flag flags O_CREATE then create (cwd p) path else namei (cwd p) path);
      match r with
      | None => mret (SReturn SYSERR)
      | Some inode =>
          t ← in_fs (inode_type inode);
          let rd := negb (flag flags O_WRONLY) in
          let wr := flag flags (Z.lor O_WRONLY O_RDWR) in
          let truncate := flag flags O_TRUNC in
          if is_dir t && wr then in_fs (iput inode);; mret (SReturn SYSERR)
          else if truncate && (negb (is_file t) || negb wr) then in_fs (iput inode);; mret (SReturn SYSERR)
          else open_inode i inode t rd wr truncate (flag flags O_APPEND)
      end
  end.

(** ** Exec *)

(** One iteration of the loop of [copy_argv]. *)
Definition copy_arg (pt argv_va : usize) (kargs : KernelArgs) : M machine (KernelArgs + option KernelArgs) :=
  o ← mul_at USIZE_MAX (argc kargs) 8;
  match checked USIZE_MAX (argv_va + o) with
  | None => mret (inr None)
  | Some ptr_va =>
      '(r, ptr_bytes) ← copyin pt (replicate 8 0) ptr_va;
      match r with
      | None => mret (inr None)
      | Some _ =>
          let arg_va := le_val ptr_bytes in
          if arg_va =? 0 then mret (inr (if argc kargs =? 0 then None else Some kargs))
          else if MAXARG <=? argc kargs then mret (inr None)
          else
            dst ← aget (args kargs) (argc kargs);
            '(r, dst) ← copyinstr pt dst arg_va;
            match r with
            | None => mret (inr None)
            | Some len =>
                l ← copy_into (args kargs) (argc kargs) [dst];
                ln ← copy_into (lens kargs) (argc kargs) [len];
                n ← add_at USIZE_MAX (argc kargs) 1;
                mret (inl (mkArgs n l ln))
            end
      end
  end.

(** At most [MAXARG] arguments and the terminator are read. *)
Definition copy_argv (pt argv_va : usize) (kargs : KernelArgs) : M machine (option KernelArgs) :=
  if argv_va =? 0 then mret None else while_fuel (Z.to_nat (MAXARG + 2)) (copy_arg pt argv_va) kargs.

Definition zero_args : KernelArgs :=
  mkArgs 0 (replicate (Z.to_nat MAXARG) (replicate (Z.to_nat MAXARGLEN) 0)) (replicate (Z.to_nat MAXARG) 0).

(** The [KernelArgs] live in a page of their own, which nothing else looks at;
    here they are a value and the page is only taken and given back. *)
Definition sys_exec (a : Targs) : M kernel SyscallResult :=
  '(_, p) ← curproc;
  r ← fetch_path (pagetable p) (tf_a0 a);
  match r with
  | None => mret (SReturn SYSERR)
  | Some path =>
      r ← in_fs (namei (cwd p) path);
      match r with
      | None => mret (SReturn SYSERR)
      | Some inode =>
          r ← in_ram kalloc_zeroed;
          match r with
          | None => in_fs (iput inode);; mret (SReturn SYSERR)
          | Some kargs_pa =>
              r ← in_ram (copy_argv (pagetable p) (tf_a1 a) zero_args);
              match r with
              | None => in_ram (kfree kernel_end kargs_pa);; in_fs (iput inode);; mret (SReturn SYSERR)
              | Some kargs =>
                  r ← exec_from_inode kernel_end trampoline_start inode kargs;
                  in_fs (iput inode);;
                  in_ram (kfree kernel_end kargs_pa);;
                  mret (match r with Some _ => Replaced | None => SReturn SYSERR end)
              end
          end
      end
  end.

(** ** Processes and memory *)

Definition sys_fork : M kernel SyscallResult :=
  r ← fork kernel_end trampoline_start forkret;
  mret (match r with Some pid => SReturn (as_isize pid) | None => SReturn SYSERR end).

Definition on_wait_end (status_va : usize) (r : segment unit isize) : segment pending SyscallResult :=
  match r with
  | Return v => Return (SReturn v)
  | Block c lk _ => Block c lk (PWait status_va)
  end.

Definition sys_wait (a : Targs) : M kernel (segment pending SyscallResult) :=
  r ← wait kernel_end (tf_a0 a); mret (on_wait_end (tf_a0 a) r).

Definition sys_getpid : M kernel SyscallResult := '(_, p) ← curproc; mret (SReturn (as_isize (pid p))).

Definition set_sz (n : usize) (p : Process) : Process :=
  mkProcess (state p) (pid p) (context p) (parent p) (xstate p) (p_chan p) (pagetable p) (trapframe p) n (kstack p) (ofile p) (cwd p).

Definition sys_sbrk (a : Targs) : M kernel SyscallResult :=
  '(i, p) ← curproc;
  let n := as_isize (tf_a0 a) in
  if n <? 0 then mret (SReturn (-1))
  else
    let oldsz := sz p in
    match checked USIZE_MAX (oldsz + n) with
    | None => mret (SReturn (-1))
    | Some newsz =>
        match checked USIZE_MAX (newsz + (PGSIZE - 1)) with
        | None => mret (SReturn (-1))
        | Some v =>
            if USER_STACK <? Z.ldiff v (PGSIZE - 1) then mret (SReturn (-1))
            else
              r ← in_ram (uvmalloc kernel_end (pagetable p) oldsz newsz);
              match r with
              | None => mret (SReturn (-1))
              | Some _ => set_proc i (set_sz newsz p);; mret (SReturn (as_isize oldsz))
              end
        end
    end.

(** [tf.a0 as i32] *)
Definition sys_exit (a : Targs) : M kernel unit := exit_enter (to_signed 32 (tf_a0 a mod 2 ^ 32)).

(** ** Dispatch *)

(** [println!("unknown syscall {}", num)] *)
Fixpoint digits (fuel : nat) (n : Z) : list u8 :=
  match fuel with
  | O => []
  | S fuel => if n <? 10 then [48 + n] else digits fuel (n / 10) ++ [48 + n mod 10]
  end.

Definition unknown_syscall (num : usize) : M kernel SyscallResult :=
  console_write_bytes (bytes_of_string "unknown syscall " ++ digits 20 num ++ [NL]);; mret (SReturn SYSERR).

Definition returns (m : M kernel SyscallResult) : M kernel (segment pending SyscallResult) := r ← m; mret (Return r).

Definition dispatch (num : usize) (a : Targs) : M kernel (segment pending SyscallResult) :=
  if num =? SYS_FORK then returns sys_fork
  else if num =? SYS_PIPE then returns (sys_pipe a)
  else if num =? SYS_WRITE then sys_write a
  else if num =? SYS_WAIT then sys_wait a
  else if num =? SYS_GETPID then returns sys_getpid
  else if num =? SYS_READ then sys_read a
  else if num =? SYS_EXEC then returns (sys_exec a)
  else if num =? SYS_FSTAT then returns (sys_fstat a)
  else if num =? SYS_CHDIR then returns (sys_chdir a)
  else if num =? SYS_DUP then returns (sys_dup a)
  else if num =? SYS_OPEN then returns (sys_open a)
  else if num =? SYS_MKDIR then returns (sys_mkdir a)
  else if num =? SYS_CLOSE then returns (sys_close a)
  else if num =? SYS_SBRK then returns (sys_sbrk a)
  else returns (unknown_syscall num).

(** The result goes to [a0] of the process that made the call. *)
Definition sys_result (r : segment pending SyscallResult) : M kernel sys_end :=
  match r with
  | Return (SReturn v) =>
      '(_, p) ← curproc; in_ram (store64 (trapframe p + A0) (v mod 2 ^ 64));; mret Finished
  | Return Replaced => mret Finished
  | Block c lk t => mret (Asleep c lk t)
  end.

Definition syscall : M kernel sys_end :=
  '(_, p) ← curproc;
  a ← trapframe_args (trapframe p);
  if tf_a7 a =? SYS_EXIT then sys_exit a;; mret Gone
  else r ← dispatch (tf_a7 a) a; sys_result r.

(** A sleeping call, when its process runs again. *)
Definition sys_resume (t : pending) : M kernel (segment pending SyscallResult) :=
  match t with
  | PConsRead buf n dst =>
      sleep_leave LConsole;; r ← console_read_loop n dst; on_read_end buf (KDevice CONSOLE_MAJOR) r
  | PPipeRead buf p dst =>
      sleep_leave (LPipe p);; r ← read_loop p dst;
      on_read_end buf (KPipe p) (match r with Return v => Return v | Block c lk _ => Block c lk (0, dst) end)
  | PPipeWrite p src n => sleep_leave (LPipe p);; r ← write_loop p src n; mret (on_write_end p src r)
  | PWait status_va => sleep_leave WAIT_LOCK;; r ← wait_loop kernel_end status_va; mret (on_wait_end status_va r)
  end.

Definition syscall_resume (t : pending) : M kernel sys_end := r ← sys_resume t; sys_result r.
End syscalls.

(** ** A run

    A process grows its memory, creates a file, writes it, reads it back through
    a second descriptor, and talks to itself through a pipe. *)

Definition do_call (num a0 a1 a2 : Z) : M kernel (Z * sys_end) :=
  '(_, p) ← curproc;
  in_ram (store64 (trapframe p + TF_A7) num);;
  in_ram (store64 (trapframe p + A0) a0);;
  in_ram (store64 (trapframe p + TF_A1) a1);;
  in_ram (store64 (trapframe p + TF_A2) a2);;
  e ← syscall small_end KERNBASE 0 [0; 0] [0; 0];
  r ← in_ram (load64 (trapframe p + A0));
  mret (as_isize r, e).

Definition user_poke (va : Z) (bs : list u8) : M kernel unit :=
  '(_, p) ← curproc; r ← in_ram (copyout (pagetable p) va bs); expect r "poke".
Definition user_peek (va : Z) (n : nat) : M kernel (list u8) :=
  '(_, p) ← curproc; '(r, bs) ← in_ram (copyin (pagetable p) (replicate n 0) va); expect r "peek";; mret bs.

Definition syscall_script : M kernel (list Z * list u8 * list u8 * list u8) :=
  start_first;;
  '(r1, _) ← do_call SYS_SBRK 4096 0 0;
  user_poke 0 (bytes_of_string "/f" ++ [0]);;
  user_poke 16 (bytes_of_string "hello");;
  '(r2, _) ← do_call SYS_OPEN 0 (O_CREATE + O_RDWR) 0;
  '(r3, _) ← do_call SYS_WRITE 0 16 5;
  '(r4, _) ← do_call SYS_DUP 0 0 0;
  '(r5, _) ← do_call SYS_CLOSE 0 0 0;
  '(r6, _) ← do_call SYS_OPEN 0 0 0;
  '(r7, _) ← do_call SYS_READ 0 32 64;
  b ← user_peek 32 5;
  '(r8, _) ← do_call SYS_PIPE 64 0 0;
  f ← user_peek 64 8;
  '(r9, _) ← do_call SYS_WRITE 3 16 5;
  '(r10, _) ← do_call SYS_READ 2 96 3;
  c ← user_peek 96 4;
  '(r11, _) ← do_call SYS_READ 9 96 3;
  '(r12, _) ← do_call 99 0 0 0;
  '(r13, _) ← do_call SYS_FSTAT 0 128 0;
  '(r14, _) ← do_call SYS_GETPID 0 0 0;
  mret ([r1; r2; r3; r4; r5; r6; r7; r8; r9; r10; r11; r12; r13; r14], b, f, c).

Example syscall_run :
  match syscall_script boot_kernel with
  | Ok ((rs, b, f, c), s) => Some (rs, b, f, c, held s, tx (uart (console s)))
  | Fault _ => None
  end = Some ([0; 0; 5; 1; 0; 0; 5; 0; 5; 3; -1; -1; 0; 1], bytes_of_string "hello", [2; 0; 0; 0; 3; 0; 0; 0],
              bytes_of_string "hel" ++ [0], [], bytes_of_string "unknown syscall 99" ++ [NL]).
Proof. by vm_compute. Qed.
