(* ===== verification/ExecArgs.v ===== *)
(** * The arguments of exec, from the old program to the new one

    [copy_argv] reads exactly the argument vector the calling program built, and
    together with [push_argv] the new program finds the same strings. *)

From S2P Require Import Prelude Spinlock Kalloc Vm PageTable UserMem Argv Syscall.

(** ** Words and strings in user memory *)

Definition cstring (str : list u8) : Prop := ∃ body, str = body ++ [0] ∧ 0 ∉ body.

Lemma words_app ps qs : words (ps ++ qs) = words ps ++ words qs.
Proof. unfold words. by rewrite fmap_app, concat_app. Qed.

Lemma words_lookup ps i p : ps !! i = Some p → slice (8 * i) 8 (words ps) = le_bytes 8 p.
Proof.
  intros Hi. rewrite <-(take_drop_middle ps i p Hi). rewrite words_app. unfold slice.
  assert (length (words (take i ps)) = (8 * i)%nat) as Hl.
  { rewrite length_words, length_take. apply lookup_lt_Some in Hi. lia. }
  rewrite <-Hl at 1. rewrite drop_app_length.
  change (words (p :: drop (S i) ps)) with (le_bytes 8 p ++ words (drop (S i) ps)).
  apply take_app_length'. by rewrite length_le_bytes.
Qed.

Lemma user_bytes_prefix m T perm va bs bs' : user_bytes m T perm va (bs ++ bs') → user_bytes m T perm va bs.
Proof.
  intros Hb i Hi. rewrite Hb by (rewrite length_app; lia). by rewrite lookup_app_l.
Qed.

Lemma user_bytes_slice m T perm va bs off n :
  user_bytes m T perm va bs → (off + n ≤ length bs)%nat → user_bytes m T perm (va + Z.of_nat off) (slice off n bs).
Proof. apply user_bytes_part. Qed.

(** The bytes of a range are determined. *)
Lemma user_bytes_det m T perm va bs bs' :
  user_bytes m T perm va bs → user_bytes m T perm va bs' → length bs = length bs' → bs = bs'.
Proof.
  intros H1 H2 Hl. apply list_eq. intros i. destruct (decide (i < length bs)%nat).
  - rewrite <-H1, <-H2 by lia. done.
  - rewrite !lookup_ge_None_2 by lia. done.
Qed.

Lemma user_word m T va ps i p :
  user_bytes m T PTE_R va (words ps) → ps !! i = Some p → user_bytes m T PTE_R (va + 8 * Z.of_nat i) (le_bytes 8 p).
Proof.
  intros Hb Hi. rewrite <-(words_lookup _ _ _ Hi). replace (8 * Z.of_nat i) with (Z.of_nat (8 * i)) by lia.
  apply user_bytes_slice; [done|]. rewrite length_words. apply lookup_lt_Some in Hi. lia.
Qed.

Lemma user_word_det m T va p q :
  user_bytes m T PTE_R va (le_bytes 8 p) → user_bytes m T PTE_R va (le_bytes 8 q) →
  0 ≤ p < 2 ^ 64 → 0 ≤ q < 2 ^ 64 → p = q.
Proof.
  intros H1 H2 Hp Hq. assert (le_bytes 8 p = le_bytes 8 q) as Heq
    by (eapply user_bytes_det; [exact H1|exact H2|by rewrite !length_le_bytes]).
  apply (f_equal le_val) in Heq. by rewrite !le_val_bytes_id in Heq.
Qed.

(** ** Collected arguments *)

Lemma splice_insert {A} (l : list A) i x : (i < length l)%nat → splice i [x] l = <[i := x]> l.
Proof. intros Hi. unfold splice. by rewrite insert_take_drop, Nat.add_1_r. Qed.

(** One more argument. *)
Definition add_arg (k : KernelArgs) (dst : list u8) (len : Z) : KernelArgs :=
  mkArgs (argc k + 1) (<[Z.to_nat (argc k) := dst]> (args k)) (<[Z.to_nat (argc k) := len]> (lens k)).

Lemma strings_add k dst len :
  kargs_ok k → argc k < MAXARG → strings (add_arg k dst len) = strings k ++ [take (Z.to_nat (len + 1)) dst].
Proof.
  intros [H1 H2 H3 _ _ _] Hlt. unfold strings, add_arg. cbn [argc args lens].
  replace (Z.to_nat (argc k + 1)) with (S (Z.to_nat (argc k))) by lia.
  rewrite (take_S_r _ _ (len, dst)).
  - rewrite fmap_app. f_equal. f_equal. by rewrite !zip_with_take, !take_insert_ge by lia.
  - rewrite lookup_zip_with, !list_lookup_insert_eq by lia. done.
Qed.

Lemma add_arg_ok k dst len :
  kargs_ok k → argc k < MAXARG → Z.of_nat (length dst) = MAXARGLEN → 0 ≤ len < MAXARGLEN →
  bytes_ok (take (Z.to_nat (len + 1)) dst) →
  kargs_ok (add_arg k dst len).
Proof.
  intros Hk Hlt Hd Hl Hb. pose proof Hk as [H1 H2 H3 H4 H5 H6]. split; cbn [argc args lens add_arg].
  - lia.
  - by rewrite length_insert.
  - by rewrite length_insert.
  - apply Forall_forall, Forall_insert; [by apply Forall_forall|done].
  - apply Forall_forall, Forall_insert; [by apply Forall_forall|done].
  - rewrite strings_add by done. by apply Forall_app, conj; [|apply Forall_singleton].
Qed.

Lemma zero_args_ok : kargs_ok zero_args ∧ strings zero_args = [].
Proof.
  split; [|done]. split; cbn [argc args lens zero_args]; [done|by rewrite length_replicate|by rewrite length_replicate| | |constructor].
  - intros a ->%elem_of_replicate_inv. by rewrite length_replicate.
  - by intros l ->%elem_of_replicate_inv.
Qed.

(** ** Reading the argument vector *)

(** An argument vector that [exec] accepts: one to sixteen strings of at most
    128 bytes with their NUL. *)
Definition argv_given (m : gmap Z (list u8)) (T : ptree) (va : Z) (ss : list (list u8)) : Prop :=
  user_argv m T va ss ∧ 1 ≤ Z.of_nat (length ss) ≤ MAXARG ∧
  Forall (λ str, cstring str ∧ Z.of_nat (length str) ≤ MAXARGLEN) ss.

Section copy_argv.
Context (kernel_end : usize) (Hend_pos : 0 < kernel_end).
Context (s : machine) (T : ptree) (fl : list Z) (va : Z).
Context (Hsp : space_ok kernel_end s T fl) (Hva : 0 < va ≤ USIZE_MAX).

(** The arguments read so far. *)
Record collected (k : KernelArgs) (ptrs : list Z) : Prop := {
  cl_ok : kargs_ok k;
  cl_len : Z.of_nat (length ptrs) = argc k;
  cl_words : user_bytes (mem s) T PTE_R va (words ptrs);
  cl_ptr i p : ptrs !! i = Some p → 0 < p < 2 ^ 64;
  cl_strs : Forall2 (user_bytes (mem s) T PTE_R) ptrs (strings k);
  cl_cstr : Forall (λ str, cstring str ∧ Z.of_nat (length str) ≤ MAXARGLEN) (strings k);
}.

(** The word that a vector the code would accept has after those read. *)
Lemma given_next k ptrs ss :
  collected k ptrs → argv_given (mem s) T va ss →
  (length ptrs ≤ length ss)%nat ∧
  ∃ w, user_bytes (mem s) T PTE_R (va + 8 * argc k) (le_bytes 8 w) ∧
    (length ptrs = length ss ∧ w = 0 ∨
     (length ptrs < length ss)%nat ∧ 0 < w < 2 ^ 64 ∧ ∃ str, user_bytes (mem s) T PTE_R w str ∧ cstring str ∧ Z.of_nat (length str) ≤ MAXARGLEN).
Proof.
  intros [C1 C2 C3 C4 _ _] [(ps & Hl & Hw & Hps) [Hn Hall]].
  assert (length ptrs ≤ length ss)%nat as Hle.
  { destruct (decide (length ptrs ≤ length ss)%nat) as [|Hgt]; [done|]. exfalso.
    destruct (lookup_lt_is_Some_2 ptrs (length ss)) as [p Hp]; [lia|].
    assert ((ps ++ [0]) !! length ss = Some 0) as H0 by (by rewrite lookup_app_r, Hl, Nat.sub_diag by lia).
    pose proof (C4 _ _ Hp). pose proof (user_word_det _ _ _ _ _ (user_word _ _ _ _ _ _ C3 Hp) (user_word _ _ _ _ _ _ Hw H0)). lia. }
  split; [done|]. replace (8 * argc k) with (8 * Z.of_nat (length ptrs)) by lia.
  destruct (decide (length ptrs = length ss)) as [Heq|Hne].
  - exists 0. split; [|by left]. eapply user_word; [exact Hw|]. by rewrite lookup_app_r, Heq, Hl, Nat.sub_diag by lia.
  - destruct (lookup_lt_is_Some_2 ps (length ptrs)) as [w Hpw]; [lia|].
    destruct (lookup_lt_is_Some_2 ss (length ptrs)) as [str Hstr]; [lia|].
    destruct (Hps _ _ _ Hpw Hstr) as [? ?]. rewrite Forall_lookup in Hall. destruct (Hall _ _ Hstr).
    exists w. split; [|right; split; [lia|eauto]]. eapply user_word; [exact Hw|]. by rewrite lookup_app_l by lia.
Qed.

(** A string within bounds cannot make [copyinstr] fail. *)
Lemma cstring_readable w str n dst :
  user_bytes (mem s) T PTE_R w str → cstring str → Z.of_nat (length str) ≤ MAXARGLEN → 0 ≤ n →
  string_prefix (mem s) T w n dst → n = MAXARGLEN ∨ ubyte (mem s) T PTE_R (w + n) = None → False.
Proof.
  intros Hb (body & -> & Hnul) Hlen Hn Hpre Hend. rewrite length_app in Hlen. cbn in Hlen.
  destruct (decide (Z.of_nat (length body) < n)) as [Hlt|Hge].
  - destruct (Hpre (Z.of_nat (length body)) ltac:(lia)) as [E1 E2]. rewrite Hb in E1 by (rewrite length_app; cbn; lia).
    rewrite lookup_app_r, Nat.sub_diag in E1 by lia. cbn in E1. congruence.
  - destruct Hend as [->|Hnone]; [lia|].
    specialize (Hb (Z.to_nat n)). rewrite Z2Nat.id, Hnone in Hb by done. rewrite length_app in Hb. cbn in Hb.
    symmetry in Hb. specialize (Hb ltac:(lia)). apply lookup_ge_None in Hb. rewrite length_app in Hb. cbn in Hb. lia.
Qed.

(** What [copyinstr] returns is such a string. *)
Lemma copied_cstring w n dst :
  0 ≤ n < Z.of_nat (length dst) → string_prefix (mem s) T w n dst →
  ubyte (mem s) T PTE_R (w + n) = Some 0 → dst !! Z.to_nat n = Some 0 →
  user_bytes (mem s) T PTE_R w (take (Z.to_nat (n + 1)) dst) ∧ cstring (take (Z.to_nat (n + 1)) dst).
Proof.
  intros Hn Hpre Hend H0. replace (Z.to_nat (n + 1)) with (S (Z.to_nat n)) by lia. rewrite (take_S_r _ _ _ H0).
  assert (length (take (Z.to_nat n) dst) = Z.to_nat n) as Hl by (rewrite length_take; lia). split.
  - apply user_bytes_app.
    + intros i Hi. rewrite lookup_take_lt by lia. destruct (Hpre (Z.of_nat i) ltac:(lia)) as [-> _]. by rewrite Nat2Z.id.
    + intros [|i] Hi; [|cbn in Hi; lia]. rewrite Hl, Z.add_0_r, Z2Nat.id by lia. done.
  - exists (take (Z.to_nat n) dst). split; [done|]. intros (i & Hi)%list_elem_of_lookup.
    assert (i < Z.to_nat n)%nat by (apply lookup_lt_Some in Hi; lia). rewrite lookup_take_lt in Hi by lia.
    destruct (Hpre (Z.of_nat i) ltac:(lia)) as [_ Hne]. by rewrite Nat2Z.id in Hne.
Qed.

Lemma user_bytes_ok a bs : user_bytes (mem s) T PTE_R a bs → bytes_ok bs.
Proof.
  intros Hb. apply Forall_lookup. intros i b Hi. specialize (Hb i (lookup_lt_Some _ _ _ Hi)). rewrite Hi in Hb.
  unfold ubyte in Hb. destruct (user_leaf T PTE_R _) as [e|] eqn:He; [|done]. cbn in Hb.
  destruct (space_page kernel_end _ _ _ _ _ _ Hsp He) as (_ & _ & _ & d & Hd & Hok). rewrite Hd in Hb. cbn in Hb.
  destruct Hok as [_ Hok]. rewrite Forall_lookup in Hok. by eapply Hok.
Qed.

(** One more string is read. *)
Lemma collected_add k ptrs w n dst :
  collected k ptrs → argc k < MAXARG → 0 < w < 2 ^ 64 → Z.of_nat (length dst) = MAXARGLEN →
  user_bytes (mem s) T PTE_R (va + 8 * argc k) (le_bytes 8 w) → 0 ≤ n < MAXARGLEN →
  user_bytes (mem s) T PTE_R w (take (Z.to_nat (n + 1)) dst) → cstring (take (Z.to_nat (n + 1)) dst) →
  collected (add_arg k dst n) (ptrs ++ [w]).
Proof.
  intros [C1 C2 C3 C4 C5 C6] Hlt Hw Hd Hword Hn Hs Hc. split.
  - apply add_arg_ok; try done. by eapply user_bytes_ok.
  - rewrite length_app. cbn [length add_arg argc]. lia.
  - rewrite words_app. apply user_bytes_app; [done|].
    rewrite length_words. replace (Z.of_nat (8 * length ptrs)) with (8 * argc k) by lia. done.
  - intros i p. rewrite lookup_app. destruct (ptrs !! i) eqn:Hi; [intros [= <-]; by eapply C4|].
    intros [_ ->]%list_lookup_singleton_Some. done.
  - rewrite strings_add by done. by apply Forall2_app; [|constructor].
  - rewrite strings_add by done. apply Forall_app. split; [done|]. apply Forall_singleton. split; [done|].
    rewrite length_take. unfold MAXARGLEN in *. lia.
Qed.

Lemma collected_given k ptrs :
  collected k ptrs → user_bytes (mem s) T PTE_R (va + 8 * argc k) (le_bytes 8 0) → argc k ≠ 0 →
  argv_given (mem s) T va (strings k).
Proof.
  intros [C1 C2 C3 C4 C5 C6] Hz Hne. pose proof (length_strings _ C1) as Hl. pose proof (ka_argc _ C1). split_and!; [|lia|lia|done].
  exists ptrs. split_and!; [by apply Forall2_length in C5| |].
  - rewrite words_app. apply user_bytes_app; [done|].
    rewrite length_words. replace (Z.of_nat (8 * length ptrs)) with (8 * argc k) by lia. done.
  - intros i p str Hp Hs. split; [by eapply C4|]. by eapply Forall2_lookup_lr in C5.
Qed.

(** The word after those read. *)
Lemma word_none k ptrs ss i :
  collected k ptrs → (i < 8)%nat → ubyte (mem s) T PTE_R (va + 8 * argc k + Z.of_nat i) = None →
  ¬ argv_given (mem s) T va ss.
Proof.
  intros Hc Hi Hn Hg. destruct (given_next _ _ _ Hc Hg) as (_ & w & Hw & _).
  rewrite Hw in Hn by (by rewrite length_le_bytes). apply lookup_ge_None in Hn. rewrite length_le_bytes in Hn. lia.
Qed.

Lemma word_next k ptrs ss w :
  collected k ptrs → user_bytes (mem s) T PTE_R (va + 8 * argc k) (le_bytes 8 w) → 0 ≤ w < 2 ^ 64 →
  argv_given (mem s) T va ss →
  if w =? 0 then argc k ≠ 0
  else argc k < MAXARG ∧ ∃ str, user_bytes (mem s) T PTE_R w str ∧ cstring str ∧ Z.of_nat (length str) ≤ MAXARGLEN.
Proof.
  intros Hc Hw Hr Hg. destruct (given_next _ _ _ Hc Hg) as (Hle & w' & Hw' & Hcase).
  pose proof (cl_len _ _ Hc). destruct Hg as (_ & Hn & _).
  assert (w = w') as <- by (eapply user_word_det; [done|done|done|lia]).
  destruct (Z.eqb_spec w 0) as [->|Hnz]; destruct Hcase as [[Heq ?]|(? & ? & Hstr)]; try lia.
  split; [lia|done].
Qed.

Lemma copy_arg_spec k ptrs :
  collected k ptrs →
  wp (copy_arg (pt_root T) va k) s (λ r s', s' = s ∧
    match r with
    | inl k' => argc k < MAXARG ∧ argc k' = argc k + 1 ∧ ∃ ptrs', collected k' ptrs'
    | inr (Some k') => kargs_ok k' ∧ argv_given (mem s) T va (strings k')
    | inr None => ∀ ss, ¬ argv_given (mem s) T va ss
    end).
Proof.
  intros Hc. pose proof (cl_ok _ _ Hc) as Hk. pose proof Hk as [Ha Hka Hkl Harg _ _]. change MAXARG with 16 in Ha. unfold copy_arg.
  wp_step. apply wp_mul_at; [mem_lia|]. replace (argc k * 8) with (8 * argc k) by lia.
  destruct (checked USIZE_MAX (va + 8 * argc k)) as [a|] eqn:Hchk; cycle 1.
  { wp_steps. split; [done|]. intros ss. apply (word_none k ptrs ss 0%nat Hc); [lia|]. apply ubyte_none.
    apply checked_None in Hchk. mem_lia. }
  apply checked_range in Hchk as [-> Hrange].
  wp_call (copyin_spec kernel_end Hend_pos s T fl); [done|lia|by rewrite length_replicate|].
  intros [[[]|] bs] s1 (-> & Hl & Hr); change (length (replicate 8 0)) with 8%nat in *; cycle 1.
  { destruct Hr as (i & Hi & Hn). wp_steps. split; [done|]. intros ss. by eapply word_none. }
  pose proof (user_bytes_ok _ _ Hr) as Hbs. pose proof (le_val_bound _ Hbs) as Hw.
  rewrite <-(le_bytes_val _ Hbs), Hl in Hr. rewrite Hl in Hw. change (256 ^ Z.of_nat 8) with (2 ^ 64) in Hw. cbv zeta. generalize dependent (le_val bs). intros w Hr Hw.
  pose proof (λ ss, word_next k ptrs ss w Hc Hr Hw) as Hnext. destruct (Z.eqb_spec w 0) as [E0|Hnz].
  { rewrite E0 in Hr. destruct (Z.eqb_spec (argc k) 0) as [|Hne]; wp_steps; (split; [done|]).
    - intros ss Hg. by apply (Hnext ss Hg).
    - split; [done|]. by eapply collected_given. }
  destruct (Z.leb_spec MAXARG (argc k)) as [|Hlt].
  { wp_steps. split; [done|]. intros ss Hg. destruct (Hnext ss Hg). lia. }
  destruct (lookup_lt_is_Some_2 (args k) (Z.to_nat (argc k))) as [dst Hdst]; [lia|].
  pose proof (Harg _ (list_elem_of_lookup_2 _ _ _ Hdst)) as Hdl.
  wp_step. eapply wp_aget; [lia|done|].
  wp_call (copyinstr_spec kernel_end Hend_pos s T fl); [done|mem_lia|rewrite Hdl; by vm_compute|].
  intros [[n|] dst'] s1 (-> & Hl' & Hr'); cycle 1.
  { wp_steps. split; [done|]. intros ss Hg. destruct (Hnext ss Hg) as (_ & str & Hs1 & Hs2 & Hs3).
    destruct Hr' as (n & Hn & Hpre & Hend). eapply cstring_readable; [exact Hs1|done|done| |done|]; [lia|].
    by rewrite Hdl in Hend. }
  destruct Hr' as (Hn & Hpre & He & Hd0). rewrite Hdl in Hn.
  wp_step. apply wp_copy_into; [lia|cbn [length]; lia|]. wp_step. apply wp_copy_into; [lia|cbn [length]; lia|].
  wp_step. apply wp_add_at; [mem_lia|]. wp_steps. rewrite !splice_insert by lia. split_and!; [done|done|done|].
  destruct (copied_cstring w n dst') as [Hb Hcs]; [lia|done|done|done|].
  exists (ptrs ++ [w]). apply (collected_add k ptrs w n dst'); try done; lia.
Qed.

Lemma copy_argv_spec :
  wp (copy_argv (pt_root T) va zero_args) s (λ r s', s' = s ∧
    match r with
    | Some k => kargs_ok k ∧ argv_given (mem s) T va (strings k)
    | None => ∀ ss, ¬ argv_given (mem s) T va ss
    end).
Proof.
  unfold copy_argv. destruct (Z.eqb_spec va 0) as [|_]; [lia|]. destruct zero_args_ok as [Hz Hs].
  apply (wp_while_bound (λ n k s', s' = s ∧ (∃ ptrs, collected k ptrs) ∧ n = Z.to_nat (MAXARG - argc k))
           _ _ 16%nat); [|split_and!; [done| |done]|by vm_compute; lia].
  - intros n k s' (-> & (ptrs & Hc) & ->). eapply wp_mono; [by eapply copy_arg_spec|].
    intros [k'|[k'|]] s' (-> & Hr); [|done|done]. destruct Hr as (Hlt & Hk' & Hc').
    exists (Z.to_nat (MAXARG - argc k')). split; [lia|done].
  - exists []. split; rewrite ?Hs; try done; [by intros i Hi; cbn in Hi; lia|constructor..].
Qed.
End copy_argv.

(** ** The vector is determined *)

Lemma cstring_det m T a str str' :
  user_bytes m T PTE_R a str → user_bytes m T PTE_R a str' → cstring str → cstring str' → str = str'.
Proof.
  intros H1 H2 (b & -> & Hb) (b' & -> & Hb').
  assert (∀ b b', user_bytes m T PTE_R a (b ++ [0]) → user_bytes m T PTE_R a (b' ++ [0]) → 0 ∉ b' →
    ¬ (length b < length b')%nat) as Hlen.
  { intros c c' E1 E2 Hc' Hlt. apply Hc'. apply list_elem_of_lookup. exists (length c).
    rewrite <-(lookup_app_l c' [0]) by done. rewrite <-E2 by (rewrite length_app; lia).
    rewrite E1 by (rewrite length_app; cbn; lia). by rewrite lookup_app_r, Nat.sub_diag by lia. }
  eapply user_bytes_det; [done|done|]. rewrite !length_app.
  pose proof (Hlen _ _ H1 H2 Hb'). pose proof (Hlen _ _ H2 H1 Hb). cbn. lia.
Qed.

Lemma argv_given_len m T va ss ss' : argv_given m T va ss → argv_given m T va ss' → (length ss ≤ length ss')%nat.
Proof.
  intros [(ps & Hl & Hw & Hps) _] [(ps' & Hl' & Hw' & _) _].
  destruct (decide (length ss ≤ length ss')%nat) as [|Hgt]; [done|]. exfalso.
  destruct (lookup_lt_is_Some_2 ps (length ss')) as [p Hp]; [lia|].
  destruct (lookup_lt_is_Some_2 ss (length ss')) as [str Hstr]; [lia|]. destruct (Hps _ _ _ Hp Hstr) as [Hpos _].
  assert (p = 0); [|lia]. eapply user_word_det; [by eapply (user_word _ _ _ _ _ _ Hw), lookup_app_l_Some| |lia|done].
  eapply user_word; [exact Hw'|]. by rewrite lookup_app_r, Hl', Nat.sub_diag by lia.
Qed.

Lemma argv_given_det m T va ss ss' : argv_given m T va ss → argv_given m T va ss' → ss = ss'.
Proof.
  intros H1 H2. pose proof (argv_given_len _ _ _ _ _ H1 H2). pose proof (argv_given_len _ _ _ _ _ H2 H1).
  destruct H1 as [(ps & Hl & Hw & Hps) [_ Hall]], H2 as [(ps' & Hl' & Hw' & Hps') [_ Hall']].
  apply list_eq_same_length with (length ss); [lia|done|]. intros i x y Hi Hx Hy.
  destruct (lookup_lt_is_Some_2 ps i) as [p Hp]; [lia|]. destruct (lookup_lt_is_Some_2 ps' i) as [p' Hp']; [lia|].
  destruct (Hps _ _ _ Hp Hx) as [Hr Hb], (Hps' _ _ _ Hp' Hy) as [Hr' Hb'].
  rewrite Forall_lookup in Hall, Hall'. destruct (Hall _ _ Hx), (Hall' _ _ Hy).
  assert (p = p') as <-; [|by eapply cstring_det].
  eapply user_word_det; [by eapply (user_word _ _ _ _ _ _ Hw), lookup_app_l_Some|by eapply (user_word _ _ _ _ _ _ Hw'), lookup_app_l_Some|lia|lia].
Qed.

(** ** What [exec] passes on *)

Section exec_args.
Context (kernel_end : usize) (Hend_pos : 0 < kernel_end) (Hend_max : kernel_end ≤ PHYSTOP).

(** [copy_argv] reads exactly the calling program's argument vector. It
    succeeds if and only if the pointer array at [argv_va] holds one to sixteen
    pointers to NUL-terminated strings of at most 128 bytes, all of it readable
    by user code, and a null pointer; the strings it collects are then that
    vector's and the collected arguments are well formed. In every other case
    (a null or overflowing address, an unreadable byte, an unterminated or too
    long string, no argument, more than sixteen) it fails, and in no case does
    it fault, loop or change memory. *)
Theorem copy_argv_exact s T fl va :
  space_ok kernel_end s T fl → 0 ≤ va ≤ USIZE_MAX →
  wp (copy_argv (pt_root T) va zero_args) s (λ r s', s' = s ∧
    match r with
    | Some k => va ≠ 0 ∧ kargs_ok k ∧ ∀ ss, argv_given (mem s) T va ss ↔ ss = strings k
    | None => va = 0 ∨ ∀ ss, ¬ argv_given (mem s) T va ss
    end).
Proof.
  intros Hsp Hva. destruct (decide (va = 0)) as [->|Hne]; [by wp_steps; split; [|left]|].
  eapply wp_mono; [apply (copy_argv_spec kernel_end Hend_pos s T fl va Hsp); lia|].
  intros [k|] s' (-> & Hr); (split; [done|]); [|by right]. destruct Hr as [Hk Hg].
  split_and!; [done|done|]. intros ss. split; [|by intros ->]. intros Hg'. by eapply argv_given_det.
Qed.

(** The arguments of [exec] reach the new program: if the vector at
    [va] in the calling program is [ss], [copy_argv] succeeds, and pushing what
    it collected onto the stack of any other address space, in any later state
    of the machine, either builds a vector there through which user code reads
    [ss] again, or reports that [ss] does not fit in the stack page. *)
Theorem exec_args_roundtrip s T fl va ss :
  space_ok kernel_end s T fl → 0 < va ≤ USIZE_MAX → argv_given (mem s) T va ss →
  wp (copy_argv (pt_root T) va zero_args) s (λ r _, ∃ k, r = Some k ∧
    ∀ s2 T2 fl2 top, space_ok kernel_end s2 T2 fl2 → PGSIZE ≤ top ≤ MAXVA →
      (∀ a, top - PGSIZE ≤ a < top → is_Some (user_leaf T2 PTE_W a) ∧ is_Some (user_leaf T2 PTE_R a)) →
      wp (push_argv (pt_root T2) top k) s2 (λ r s',
        match r with
        | Some (sp, va') => sp = va' ∧ sp = final_sp top ss ∧ argv_given (mem s') T2 va' ss
        | None => final_sp top ss < top - PGSIZE
        end)).
Proof.
  intros Hsp Hva Hg. eapply wp_mono; [apply (copy_argv_spec kernel_end Hend_pos s T fl va Hsp Hva)|].
  intros [k|] s' (-> & Hr); [|by destruct (Hr _ Hg)]. destruct Hr as [Hk Hg'].
  rewrite (argv_given_det _ _ _ _ _ Hg Hg'). exists k. split; [done|]. intros s2 T2 fl2 top H2 Htop Hst.
  eapply wp_mono; [by eapply push_argv_spec|]. intros [[sp va']|] s'; [|by intros []].
  intros (-> & _ & _ & -> & _ & Hu). split_and!; [done|done|]. destruct Hg' as (_ & ? & ?). done.
Qed.
End exec_args.

(** ** A run: the vector of [push_argv_run], read back *)

Definition demo_pushed : machine :=
  match push_argv (demo_pg 0) 4096 demo_args demo_vm with Ok (_, s) => s | Fault _ => demo_vm end.

Lemma demo_pushed_given :
  space_ok (ram_end 4) demo_pushed demo_tree [] ∧ argv_given (mem demo_pushed) demo_tree 4064 (strings demo_args).
Proof.
  pose proof (push_argv_spec (ram_end 4) demo_end_pos demo_vm demo_tree [] 4096 demo_args
    demo_space demo_args_ok ltac:(mem_lia) demo_stack) as H.
  assert (match push_argv (demo_pg 0) 4096 demo_args demo_vm with Ok (r, _) => r | Fault _ => None end = Some (4064, 4064)) as Hr
    by (by vm_compute).
  unfold wp in H. unfold demo_pushed. change (pt_root demo_tree) with (demo_pg 0) in H.
  destruct (push_argv _ _ _ _) as [[r s]|]; [|done]. subst r. destruct H as (_ & _ & _ & _ & Hw & Hu).
  split; [apply Hw|]. split_and!; [done|by vm_compute|by vm_compute|].
  change (strings demo_args) with (map (λ b, b ++ [0]) [[108; 115]; [45; 97]]).
  repeat (constructor; [split; [eexists; split; [done|by apply (bool_decide_unpack _)]|by vm_compute]|]). constructor.
Qed.

Lemma copy_argv_exact_witness :
  wp (copy_argv (demo_pg 0) 4064 zero_args) demo_pushed (λ r s', s' = demo_pushed ∧
    match r with
    | Some k => 4064 ≠ 0 ∧ kargs_ok k ∧ ∀ ss, argv_given (mem demo_pushed) demo_tree 4064 ss ↔ ss = strings k
    | None => 4064 = 0 ∨ ∀ ss, ¬ argv_given (mem demo_pushed) demo_tree 4064 ss
    end).
Proof.
  apply (copy_argv_exact (ram_end 4) demo_end_pos demo_pushed demo_tree [] 4064);
    [apply demo_pushed_given|by vm_compute].
Defined.

Lemma exec_args_roundtrip_witness :
  wp (copy_argv (demo_pg 0) 4064 zero_args) demo_pushed (λ r _, ∃ k, r = Some k ∧
    ∀ s2 T2 fl2 top, space_ok (ram_end 4) s2 T2 fl2 → PGSIZE ≤ top ≤ MAXVA →
      (∀ a, top - PGSIZE ≤ a < top → is_Some (user_leaf T2 PTE_W a) ∧ is_Some (user_leaf T2 PTE_R a)) →
      wp (push_argv (pt_root T2) top k) s2 (λ r s',
        match r with
        | Some (sp, va') =>
            sp = va' ∧ sp = final_sp top (strings demo_args) ∧ argv_given (mem s') T2 va' (strings demo_args)
        | None => final_sp top (strings demo_args) < top - PGSIZE
        end)).
Proof.
  apply (exec_args_roundtrip (ram_end 4) demo_end_pos demo_pushed demo_tree [] 4064 (strings demo_args));
    [apply demo_pushed_given|by vm_compute|apply demo_pushed_given].
Defined.
