(* ===== verification/Descr.v ===== *)
(** * File descriptors

    The descriptor tables of all processes together account for every reference
    to an open file, and the open files for every open end of a pipe.  [dup],
    [close] and [pipe], the closing of all descriptors in [exit] and their
    duplication in [fork] keep it so. *)

From stdpp Require Import gmultiset.
From S2P Require Import Prelude Ring Spinlock FsBase Icache Kalloc Vm PageTable UserMem Kernel Sched Pipe Console File Proc Argv Exec Syscall.

(** ** References held by descriptor tables *)

Definition refs_of (l : list (option nat)) : gmultiset nat := list_to_set_disj (omap id l).

Lemma refs_of_app l k : refs_of (l ++ k) = refs_of l ⊎ refs_of k.
Proof. unfold refs_of. by rewrite omap_app, list_to_set_disj_app. Qed.

Lemma refs_of_insert l i old new :
  l !! i = Some old → refs_of (<[i := new]> l) ⊎ refs_of [old] = refs_of l ⊎ refs_of [new].
Proof.
  intros Hi. rewrite <-(take_drop_middle l i old Hi) at 2. rewrite insert_take_drop by (by eapply lookup_lt_Some).
  rewrite !refs_of_app. change (new :: drop (S i) l) with ([new] ++ drop (S i) l).
  change (old :: drop (S i) l) with ([old] ++ drop (S i) l). rewrite !refs_of_app. multiset_solver.
Qed.

Lemma refs_of_one y : refs_of [Some y] = {[+ y +]}.
Proof.
  change (refs_of [Some y]) with (list_to_set_disj [y] : gmultiset nat).
  rewrite list_to_set_disj_cons, list_to_set_disj_nil. multiset_solver.
Qed.
Lemma refs_of_none : refs_of [None] = ∅.
Proof. done. Qed.

Lemma refs_of_count x l : (multiplicity x (refs_of l) ≤ length l)%nat.
Proof.
  induction l as [|o l IH]; [done|]. change (o :: l) with ([o] ++ l). rewrite refs_of_app, multiplicity_disj_union.
  cbn [length app]. assert (multiplicity x (refs_of [o]) ≤ 1)%nat; [|lia].
  destruct o as [y|]; [|rewrite refs_of_none, multiplicity_empty; lia].
  rewrite refs_of_one, multiplicity_singleton. destruct (decide _); lia.
Qed.

Lemma refs_of_elem l i x : l !! i = Some (Some x) → x ∈ refs_of l.
Proof.
  intros Hi. apply elem_of_list_to_set_disj, list_elem_of_omap. exists (Some x). split; [by eapply list_elem_of_lookup_2|done].
Qed.

(** All tables. *)
Definition fd_tables (s : kernel) : list (list (option nat)) := ofile <$> procs s.
Definition all_refs (t : list (list (option nat))) : gmultiset nat := refs_of (concat t).

Lemma all_refs_insert t i l l' k :
  t !! i = Some l → refs_of l' ⊎ k = refs_of l → all_refs (<[i := l']> t) ⊎ k = all_refs t.
Proof.
  intros Hi Hl. unfold all_refs. rewrite <-(take_drop_middle t i l Hi) at 2.
  rewrite insert_take_drop by (by eapply lookup_lt_Some). rewrite !concat_app. cbn [concat].
  rewrite !refs_of_app, <-Hl. multiset_solver.
Qed.

Lemma all_refs_put t i l fd old new :
  t !! i = Some l → l !! fd = Some old →
  all_refs (<[i := <[fd := new]> l]> t) ⊎ refs_of [old] = all_refs t ⊎ refs_of [new].
Proof.
  intros Hi Hfd. unfold all_refs. rewrite <-(take_drop_middle t i l Hi) at 2.
  rewrite insert_take_drop by (by eapply lookup_lt_Some). rewrite !concat_app. cbn [concat].
  rewrite !refs_of_app. pose proof (refs_of_insert l fd old new Hfd). multiset_solver.
Qed.

Lemma all_refs_elem t i l fd x : t !! i = Some l → l !! fd = Some (Some x) → x ∈ all_refs t.
Proof.
  intros Hi Hfd. unfold all_refs. rewrite <-(take_drop_middle t i l Hi), concat_app. cbn [concat].
  rewrite !refs_of_app. apply gmultiset_elem_of_disj_union. right. apply gmultiset_elem_of_disj_union. left. by eapply refs_of_elem.
Qed.

Lemma all_refs_small t i :
  length t = Z.to_nat NPROC → Forall (λ l, length l = Z.to_nat NOFILE) t → Z.of_nat (multiplicity i (all_refs t)) ≤ 256.
Proof.
  intros Ht Hl. assert (length (concat t) = 16 * length t)%nat as Hc.
  { clear Ht. induction Hl as [|l t Hl _ IH]; [done|]. cbn [concat length]. rewrite length_app, IH, Hl.
    change (Z.to_nat NOFILE) with 16%nat. lia. }
  pose proof (refs_of_count i (concat t)). change (Z.to_nat NPROC) with 16%nat in Ht. unfold all_refs. lia.
Qed.

(** ** Pipe ends *)

Definition end_file (p : nat) (w : bool) (f : File) : Prop := kind f = KPipe p ∧ writable f = w.
Definition end_open (w : bool) (q : Pipe) : bool := if w then writeopen q else readopen q.

(** An end of a pipe is open exactly while some open file stands for it, and a
    pipe is in use exactly while one of its ends is open. *)
Record ends_ok (s : kernel) : Prop := {
  eo_uniq i j f g p w : ftable s !! i = Some f → ftable s !! j = Some g → end_file p w f → end_file p w g → i = j;
  eo_open p q w : pipes s !! p = Some q →
    end_open w q = true ↔ ∃ i f, ftable s !! i = Some f ∧ end_file p w f;
  eo_used p q : pipes s !! p = Some q → used q = readopen q || writeopen q;
}.

(** Changing a count, the offset or the flags of a file that is no pipe end. *)
Lemma ends_ok_put s i f f' :
  ends_ok s → ftable s !! i = Some f → (∀ p w, end_file p w f' ↔ end_file p w f) → ends_ok (put_file i f' s).
Proof.
  intros [U O D] Hi Hf.
  assert (∀ k g, <[i := f']> (ftable s) !! k = Some g → ∃ g0, ftable s !! k = Some g0 ∧ ∀ p w, end_file p w g ↔ end_file p w g0) as Hlk.
  { intros k g. destruct (decide (k = i)) as [->|Hne].
    - rewrite list_lookup_insert_eq by (by eapply lookup_lt_Some). intros [= <-]. by exists f.
    - rewrite list_lookup_insert_ne by done. intros ?. by exists g. }
  split; cbn [ftable pipes put_file set_ftable].
  - intros a b g h p w (g0 & Hg & Eg)%Hlk (h0 & Hh & Eh)%Hlk H1%Eg H2%Eh. by eapply U.
  - intros p q w Hq. rewrite (O p q w Hq). split.
    + intros (k & g & Hk & Hg). destruct (decide (k = i)) as [->|Hne].
      * exists i, f'. rewrite list_lookup_insert_eq by (by eapply lookup_lt_Some). split; [done|].
        simplify_eq. by apply Hf.
      * exists k, g. by rewrite list_lookup_insert_ne.
    + intros (k & g & (g0 & Hg & Eg)%Hlk & He). exists k, g0. split; [done|by apply Eg].
  - done.
Qed.

Lemma closed_open w w' q : end_open w (closed w' q) = end_open w q && negb (eqb w w').
Proof. destruct q as [u d nr nw [] []], w, w'; done. Qed.

Lemma closed_used w q : used q = readopen q || writeopen q → used (closed w q) = readopen (closed w q) || writeopen (closed w q).
Proof. destruct q as [u d nr nw [] []], w; cbn; intros ->; done. Qed.

(** Closing the last reference to a file closes the end it stands for. *)
Lemma ends_ok_close s i f p q :
  ends_ok s → ftable s !! i = Some f → kind f = KPipe p → pipes s !! p = Some q →
  ends_ok (put_pipe p (closed (writable f) q) (put_file i (mkFile 0 false false KNone) s)).
Proof.
  intros [U O D] Hi Hk Hq.
  assert (∀ k g p w, <[i := mkFile 0 false false KNone]> (ftable s) !! k = Some g → end_file p w g →
    k ≠ i ∧ ftable s !! k = Some g) as Hlk.
  { intros k g p' w Hg [He _]. destruct (decide (k = i)) as [->|Hne].
    - rewrite list_lookup_insert_eq in Hg by (by eapply lookup_lt_Some). by injection Hg as <-.
    - by rewrite list_lookup_insert_ne in Hg. }
  assert (∀ k q', <[p := closed (writable f) q]> (pipes s) !! k = Some q' →
    k = p ∧ q' = closed (writable f) q ∨ k ≠ p ∧ pipes s !! k = Some q') as Hpk.
  { intros k q'. destruct (decide (k = p)) as [->|Hne].
    - rewrite list_lookup_insert_eq by (by eapply lookup_lt_Some). intros [= <-]. by left.
    - rewrite list_lookup_insert_ne by done. by right. }
  split; cbn [ftable pipes put_file put_pipe set_ftable set_pipes].
  - intros a b g h p' w Hg Hh H1 H2. destruct (Hlk _ _ _ _ Hg H1), (Hlk _ _ _ _ Hh H2). by eapply U.
  - intros p' q' w Hq'.
    assert (end_open w q' = true ↔ ¬ end_file p' w f ∧ ∃ k g, ftable s !! k = Some g ∧ end_file p' w g) as ->.
    { apply Hpk in Hq' as [[-> ->]|[Hne Hq']].
      - rewrite closed_open, andb_true_iff, negb_true_iff, eqb_false_iff, (O p q w Hq).
        assert (end_file p w f ↔ w = writable f) as -> by (split; [by intros []|by intros ->]). tauto.
      - rewrite (O p' q' w Hq'). assert (¬ end_file p' w f) by (intros []; congruence). tauto. }
    split.
    + intros (Hnf & k & g & Hg & He). exists k, g. split; [|done]. rewrite list_lookup_insert_ne; [done|]. by intros ->; simplify_eq.
    + intros (k & g & Hg & He). destruct (Hlk _ _ _ _ Hg He) as [Hne Hg0]. split; [|eauto].
      intros Hf. apply Hne. by eapply U.
  - intros p' q' [[-> ->]|[Hne Hq']]%Hpk; [apply closed_used|]; by eapply D.
Qed.

Lemma ends_ok_released s i f s' :
  ends_ok s → ftable s !! i = Some f → released f (put_file i (mkFile 0 false false KNone) s) s' → ends_ok s'.
Proof.
  intros Hok Hi Hrel. unfold released in Hrel.
  assert ((∀ p w, ¬ end_file p w f) → ends_ok (put_file i (mkFile 0 false false KNone) s)) as Hno.
  { intros Hf. eapply ends_ok_put; [done|done|]. intros p w. split; [by intros []|by intros ?%Hf]. }
  destruct (kind f) as [|m|j off app|p] eqn:Hk.
  - subst s'. apply Hno. intros p w []. congruence.
  - subst s'. apply Hno. intros p w []. congruence.
  - destruct Hrel as (ip & g & _ & -> & _). destruct Hno as [A B C]; [intros p w []; congruence|]. by split.
  - destruct Hrel as (q & Hq & ->). destruct (ends_ok_close s i f p q Hok Hi Hk Hq) as [A B C]. by split.
Qed.

(** ** The invariant *)

Record fds_ok (s : kernel) : Prop := {
  fd_table : table_ok s (all_refs (fd_tables s));
  fd_len : Forall (λ l, length l = Z.to_nat NOFILE) (fd_tables s);
  fd_ends : ends_ok s;
}.

Lemma table_ok_procs s refs l : table_ok s refs → length l = length (procs s) → table_ok (set_procs l s) refs.
Proof. intros [[A B C D E F] Hh Hp] Hl. by split; [split| |cbn; rewrite Hl]. Qed.
Lemma ends_ok_procs s l : ends_ok s → ends_ok (set_procs l s).
Proof. intros [A B C]. by split. Qed.

Lemma roused_ofile p p' : roused p p' → ofile p' = ofile p.
Proof. by intros [->|[_ ->]]. Qed.

Lemma framed_tables s s' : framed s s' → fd_tables s' = fd_tables s.
Proof.
  intros [H _ _ _ _ _]. unfold fd_tables. induction H as [|p p' l l' Hp _ IH]; [done|].
  rewrite !fmap_cons, IH. by rewrite (roused_ofile _ _ Hp).
Qed.

(** Writing one entry of a descriptor table. *)
Definition with_fd (i fd : nat) (f : option nat) (s : kernel) : kernel :=
  set_procs (alter (λ p, set_ofile (<[fd := f]> (ofile p)) p) i (procs s)) s.

Lemma alter_at {A} (f : A → A) (l : list A) i x : l !! i = Some x → alter f i l = <[i := f x]> l.
Proof. intros Hi. rewrite list_insert_alter. apply list_alter_ext; [|done]. intros y Hy. by simplify_eq. Qed.

Lemma tables_with_fd i fd f p s :
  procs s !! i = Some p → fd_tables (with_fd i fd f s) = <[i := <[fd := f]> (ofile p)]> (fd_tables s).
Proof. intros Hp. unfold fd_tables, with_fd. cbn [procs set_procs]. by rewrite (alter_at _ _ _ _ Hp), list_fmap_insert. Qed.

Lemma wp_put_fd i fd f p s Q : procs s !! i = Some p → Q tt (with_fd i fd f s) → wp (put_fd i fd f) s Q.
Proof.
  intros Hp HQ. unfold put_fd. wp_step. eapply wp_proc_slot; [done|]. apply wp_set_proc.
  unfold with_fd in HQ. by rewrite (alter_at _ _ _ _ Hp) in HQ.
Qed.

Lemma table_ok_with_fd i fd f s refs : table_ok s refs → table_ok (with_fd i fd f s) refs.
Proof. intros H. apply table_ok_procs; [done|]. apply length_alter. Qed.

Lemma wp_curproc i p s Q : cpu_proc s = Some i → procs s !! i = Some p → Q (i, p) s → wp curproc s Q.
Proof. intros Hi Hp HQ. unfold curproc. wp_step. eapply wp_myproc; [done|]. wp_step. eapply wp_proc_slot; [done|]. by wp_steps. Qed.

Lemma tables_lookup s i p : procs s !! i = Some p → fd_tables s !! i = Some (ofile p).
Proof. intros Hp. unfold fd_tables. by rewrite list_lookup_fmap, Hp. Qed.

Lemma fds_len s i p : fds_ok s → procs s !! i = Some p → length (ofile p) = Z.to_nat NOFILE.
Proof. intros Hok Hp. by eapply (Forall_lookup_1 _ _ _ _ (fd_len _ Hok)), tables_lookup. Qed.

Lemma fds_count s x : fds_ok s → Z.of_nat (multiplicity x (all_refs (fd_tables s))) ≤ 256.
Proof. intros [H Hl _]. apply all_refs_small; [|done]. unfold fd_tables. rewrite length_fmap. apply H. Qed.

Lemma fd_file_lookup s i p fd :
  fds_ok s → procs s !! i = Some p → 0 ≤ fd → fd_file p fd = mjoin (ofile p !! Z.to_nat fd).
Proof.
  intros Hok Hp Hfd. unfold fd_file. destruct (Z.leb_spec NOFILE fd); [|done].
  rewrite lookup_ge_None_2; [done|]. rewrite (fds_len _ _ _ Hok Hp). lia.
Qed.

(** [free_fd] finds the lowest free entry. *)
Definition lowest_free (l : list (option nat)) (n : nat) : Prop :=
  l !! n = Some None ∧ ∀ m, (m < n)%nat → l !! m ≠ Some None.

Lemma free_fd_spec l :
  match free_fd l with Some n => lowest_free l n | None => ∀ m, l !! m ≠ Some None end.
Proof.
  induction l as [|[x|] l IH]; cbn [free_fd].
  - done.
  - destruct (free_fd l) as [n|]; cbn [fmap option_fmap option_map].
    + destruct IH as [H1 H2]. split; [done|]. intros [|m] Hm; [done|]. apply H2. lia.
    + intros [|m]; [done|apply IH].
  - split; [done|]. lia.
Qed.

Lemma wp_fdalloc i f p s Q :
  procs s !! i = Some p →
  match free_fd (ofile p) with Some n => Q (Some n) (with_fd i n (Some f) s) | None => Q None s end →
  wp (fdalloc i f) s Q.
Proof.
  intros Hp HQ. unfold fdalloc. wp_step. eapply wp_proc_slot; [done|].
  destruct (free_fd (ofile p)); [|by wp_steps]. wp_step. eapply wp_put_fd; [done|]. by wp_steps.
Qed.

(** ** [dup] and [close] on one table *)

Inductive fd_call := Dup (fd : nat) | Close (fd : nat).

Inductive fd_step : fd_call → list (option nat) → Z → list (option nat) → Prop :=
| step_dup fd f n l : l !! fd = Some (Some f) → lowest_free l n → fd_step (Dup fd) l (Z.of_nat n) (<[n := Some f]> l)
| step_dup_full fd f l : l !! fd = Some (Some f) → (∀ m, l !! m ≠ Some None) → fd_step (Dup fd) l (-1) l
| step_close fd f l : l !! fd = Some (Some f) → fd_step (Close fd) l 0 (<[fd := None]> l)
| step_dup_bad fd l : (∀ f, l !! fd ≠ Some (Some f)) → fd_step (Dup fd) l (-1) l
| step_close_bad fd l : (∀ f, l !! fd ≠ Some (Some f)) → fd_step (Close fd) l (-1) l.

Lemma mjoin_None {A} (o : option (option A)) : mjoin o = None → ∀ x, o ≠ Some (Some x).
Proof. by destruct o as [[]|]. Qed.
Lemma mjoin_Some {A} (o : option (option A)) x : mjoin o = Some x → o = Some (Some x).
Proof. destruct o as [[]|]; cbn; congruence. Qed.

(** A table changed in one entry. *)
Lemma tables_ok_insert s i p fd new :
  fds_ok s → procs s !! i = Some p → Forall (λ l, length l = Z.to_nat NOFILE) (<[i := <[fd := new]> (ofile p)]> (fd_tables s)).
Proof. intros Hok Hp. apply Forall_insert; [apply Hok|]. rewrite length_insert. by eapply fds_len. Qed.

(** *** Inodes behind open files *)

Definition file_inodes (s : kernel) : gmultiset nat := refs_of (inode_of <$> ftable s).

(** The inode cache follows the file table: what files refer to is counted, other
    references [X] stay as they are. *)
Record inodes_follow (s s' : kernel) : Prop := {
  nf_inum : inum <$> icache (k_fs s') = inum <$> icache (k_fs s);
  nf_ok X : icache_ok (k_fs s) (file_inodes s ⊎ X) → icache_ok (k_fs s') (file_inodes s' ⊎ X);
}.

#[export] Instance inodes_follow_preorder : PreOrder inodes_follow.
Proof.
  split; [by split|]. intros s s1 s2 [A1 A2] [B1 B2]. split; [congruence|]. intros X HX. by apply B2, A2.
Qed.

Lemma follow_same s s' : k_fs s' = k_fs s → file_inodes s' = file_inodes s → inodes_follow s s'.
Proof. intros H1 H2. split; rewrite ?H1, ?H2; done. Qed.

Lemma file_inodes_put s i f f' :
  ftable s !! i = Some f → file_inodes (put_file i f' s) ⊎ refs_of [inode_of f] = file_inodes s ⊎ refs_of [inode_of f'].
Proof. intros Hi. unfold file_inodes, put_file. cbn. rewrite list_fmap_insert. apply refs_of_insert. by rewrite list_lookup_fmap, Hi. Qed.

Lemma put_follow s i f f' : ftable s !! i = Some f → inode_of f' = inode_of f → inodes_follow s (put_file i f' s).
Proof.
  intros Hi Hf. apply follow_same; [done|]. unfold file_inodes, put_file. cbn. rewrite list_fmap_insert, list_insert_id; [done|].
  rewrite list_lookup_fmap, Hi. cbn. by rewrite Hf.
Qed.

Lemma released_follow s i f s' :
  ftable s !! i = Some f → released f (put_file i (mkFile 0 false false KNone) s) s' → inodes_follow s s'.
Proof.
  intros Hi Hr. pose proof (file_inodes_put s i f (mkFile 0 false false KNone) Hi) as Hput.
  change (refs_of [inode_of (mkFile 0 false false KNone)]) with (∅ : gmultiset nat) in Hput. rewrite (right_id_L ∅ (⊎)) in Hput.
  set (s1 := put_file i _ s) in *. unfold released in Hr. unfold inode_of in Hput. destruct (kind f) as [|m|j off app|q].
  1, 2: subst s'; rewrite refs_of_none, (right_id_L ∅ (⊎)) in Hput; by apply follow_same.
  - destruct Hr as (ip & g & Hip & -> & _ & _ & Hg). rewrite refs_of_one in Hput. change (k_fs s1) with (k_fs s) in *. split.
    + cbn. rewrite Hg, list_fmap_insert, list_insert_id; [done|]. by rewrite list_lookup_fmap, Hip.
    + intros X HX. change (file_inodes (set_k_fs g s1)) with (file_inodes s1).
      replace (file_inodes s1 ⊎ X) with ((file_inodes s ⊎ X) ∖ {[+ j +]}) by (rewrite <-Hput; clear; multiset_solver).
      destruct (one_less_ref _ _ j ip HX Hip) as [A B C D]; [|split; cbn; rewrite ?Hg; done].
      apply gmultiset_elem_of_disj_union. left. rewrite <-Hput. clear. multiset_solver.
  - destruct Hr as (x & Hx & ->). rewrite refs_of_none, (right_id_L ∅ (⊎)) in Hput. by apply follow_same.
Qed.

(** The entry is cleared and the file closed. *)
Lemma close_entry_spec s i p fd f :
  fds_ok s → procs s !! i = Some p → ofile p !! fd = Some (Some f) →
  wp (file_close f) (with_fd i fd None s) (λ _ s', fds_ok s' ∧ framed (with_fd i fd None s) s' ∧
    fd_tables s' = <[i := <[fd := None]> (ofile p)]> (fd_tables s) ∧
    (f ∈ all_refs (fd_tables s') → pipes s' = pipes s ∧ k_fs s' = k_fs s) ∧ inodes_follow s s').
Proof.
  intros Hok Hp Hf. pose proof (tables_lookup _ _ _ Hp) as Ht.
  pose proof (fds_count s f Hok) as Hcount. pose proof (all_refs_elem _ _ _ _ _ Ht Hf) as Hin.
  wp_call (file_close_refs f (with_fd i fd None s)); [by apply table_ok_with_fd, Hok|done|unfold USIZE_MAX; lia|].
  intros [] s' (Htab & Hfr & g & Hg & Hs').
  pose proof (framed_tables _ _ Hfr) as Htabs. rewrite (tables_with_fd _ _ _ _ _ Hp) in Htabs.
  pose proof (all_refs_put _ _ _ _ _ None Ht Hf) as Hrefs. rewrite refs_of_none, refs_of_one in Hrefs.
  split_and!; try done; cycle 1.
  { intros Hin'. rewrite Htabs, elem_of_multiplicity in Hin'. rewrite decide_False in Hs'; [by subst s'|].
    rewrite <-(right_id_L ∅ (⊎) (all_refs (fd_tables s))), <-Hrefs, multiplicity_disj_union, multiplicity_singleton_eq. lia. }
  { transitivity (with_fd i fd None s); [by apply follow_same|].
    destruct (decide _); [by eapply released_follow|]. subst s'. by eapply put_follow. }
  split; rewrite ?Htabs.
  - replace (all_refs _) with (all_refs (fd_tables s) ∖ {[+ f +]}) by multiset_solver. done.
  - by apply tables_ok_insert.
  - destruct (decide _).
    + by eapply ends_ok_released; [apply ends_ok_procs, Hok| |].
    + subst s'. eapply ends_ok_put; [apply ends_ok_procs, Hok|done|done].
Qed.

Section calls.
Context (s : kernel) (i : nat) (p : Process) (a : Targs).
Context (Hok : fds_ok s) (Hi : cpu_proc s = Some i) (Hp : procs s !! i = Some p) (Ha : 0 ≤ tf_a0 a).

Lemma sys_dup_spec :
  wp (sys_dup a) s (λ r s', ∃ v l', r = SReturn v ∧ fd_step (Dup (Z.to_nat (tf_a0 a))) (ofile p) v l' ∧
    fd_tables s' = <[i := l']> (fd_tables s) ∧ fds_ok s' ∧ pipes s' = pipes s ∧ k_fs s' = k_fs s ∧ k_ram s' = k_ram s).
Proof.
  pose proof (tables_lookup _ _ _ Hp) as Ht. unfold sys_dup. wp_step. eapply wp_curproc; [done|done|].
  rewrite (fd_file_lookup s i p) by done.
  destruct (mjoin _) as [f|] eqn:Hf; cycle 1.
  { wp_steps. exists (-1), (ofile p). split_and!; try done; [by apply step_dup_bad, mjoin_None|].
    by rewrite list_insert_id. }
  apply mjoin_Some in Hf. wp_step. eapply wp_fdalloc; [done|]. pose proof (free_fd_spec (ofile p)) as Hfree.
  destruct (free_fd (ofile p)) as [n|]; cycle 1.
  { wp_steps. exists (-1), (ofile p). split_and!; try done; [by eapply step_dup_full|by rewrite list_insert_id]. }
  pose proof (fds_count s f Hok) as Hcount. pose proof (all_refs_elem _ _ _ _ _ Ht Hf) as Hin.
  wp_call (file_dup_refs f (with_fd i n (Some f) s)); [by apply table_ok_with_fd, Hok|done|unfold USIZE_MAX; lia|].
  intros [] s' (Htab & g & Hg & ->). wp_steps. exists (Z.of_nat n), (<[n := Some f]> (ofile p)).
  assert (fd_tables (put_file f (mkFile (f_refcnt g + 1) (readable g) (writable g) (kind g)) (with_fd i n (Some f) s)) =
    <[i := <[n := Some f]> (ofile p)]> (fd_tables s)) as Htabs by (by rewrite <-(tables_with_fd i n (Some f) p s)).
  split_and!; try done; [by econstructor|]. destruct Hfree as [Hn _].
  pose proof (all_refs_put _ _ _ _ _ (Some f) Ht Hn) as Hrefs. rewrite refs_of_none, refs_of_one in Hrefs.
  split; rewrite ?Htabs.
  - replace (all_refs _) with (all_refs (fd_tables s) ⊎ {[+ f +]}) by multiset_solver. done.
  - by apply tables_ok_insert.
  - eapply ends_ok_put; [apply ends_ok_procs, Hok|done|done].
Qed.

Lemma sys_close_spec :
  wp (sys_close a) s (λ r s', ∃ v l', r = SReturn v ∧ fd_step (Close (Z.to_nat (tf_a0 a))) (ofile p) v l' ∧
    fd_tables s' = <[i := l']> (fd_tables s) ∧ fds_ok s' ∧ k_ram s' = k_ram s ∧
    ∀ f, ofile p !! Z.to_nat (tf_a0 a) = Some (Some f) → f ∈ all_refs (fd_tables s') → pipes s' = pipes s ∧ k_fs s' = k_fs s).
Proof.
  pose proof (tables_lookup _ _ _ Hp) as Ht. unfold sys_close. wp_step. eapply wp_curproc; [done|done|].
  rewrite (fd_file_lookup s i p) by done.
  destruct (mjoin _) as [f|] eqn:Hf; cycle 1.
  { wp_steps. exists (-1), (ofile p). split_and!; try done; [by apply step_close_bad, mjoin_None|].
    by rewrite list_insert_id. }
  apply mjoin_Some in Hf. wp_step. eapply wp_put_fd; [done|].
  wp_call (close_entry_spec s i p); [done|done|done|]. intros [] s' (Hok' & Hfr & Htabs & Hlast & _). wp_steps.
  eexists 0, _. split_and!; try done; [by econstructor|apply Hfr|]. intros f' Hf' Hin. simplify_eq. by apply Hlast.
Qed.
End calls.

(** ** Creating a pipe *)

Lemma ends_ok_eq s s' : ends_ok s → ftable s' = ftable s → pipes s' = pipes s → ends_ok s'.
Proof. intros [A B C] Hf Hq. split; rewrite ?Hf, ?Hq; done. Qed.

(** A pipe that is not in use has no open file. *)
Lemma unused_no_file s p q :
  ends_ok s → pipes s !! p = Some q → used q = false →
  readopen q = false ∧ writeopen q = false ∧ ∀ i f w, ftable s !! i = Some f → ¬ end_file p w f.
Proof.
  intros [U O D] Hq Hu. pose proof (D _ _ Hq) as Hd. rewrite Hu in Hd. symmetry in Hd. apply orb_false_iff in Hd as [Hr Hw].
  split_and!; [done|done|]. intros i f w Hf He. assert (end_open w q = true) as Ho by (apply (O p q w Hq); eauto).
  destruct w; cbn in Ho; congruence.
Qed.

Lemma ends_ok_unused s p q d :
  ends_ok s → pipes s !! p = Some q → used q = false → ends_ok (put_pipe p (mkPipe false d 0 0 false false) s).
Proof.
  intros Hok Hq Hu. destruct (unused_no_file _ _ _ Hok Hq Hu) as (_ & _ & Hno). destruct Hok as [U O D].
  assert (∀ k q', <[p := mkPipe false d 0 0 false false]> (pipes s) !! k = Some q' →
    k = p ∧ q' = mkPipe false d 0 0 false false ∨ pipes s !! k = Some q') as Hpk.
  { intros k q'. destruct (decide (k = p)) as [->|Hne].
    - rewrite list_lookup_insert_eq by (by eapply lookup_lt_Some). intros [= <-]. by left.
    - rewrite list_lookup_insert_ne by done. by right. }
  split; cbn [ftable pipes put_pipe set_pipes].
  - done.
  - intros p' q' w [[-> ->]|Hq']%Hpk; [|by apply O]. split; [by destruct w|].
    intros (i & f & Hf & He). by destruct (Hno _ _ _ Hf He).
  - by intros p' q' [[-> ->]|Hq']%Hpk; [|eapply D].
Qed.

(** The two ends of a new pipe. *)
Definition read_end (p : nat) : File := mkFile 1 true false (KPipe p).
Definition write_end (p : nat) : File := mkFile 1 false true (KPipe p).

Section new_pipe.
Context (s : kernel) (p : nat) (q : Pipe) (r w : nat) (fr fw : File).
Context (Hok : ends_ok s) (Hq : pipes s !! p = Some q) (Hu : used q = false) (Hrw : r ≠ w).
Context (Hr : ftable s !! r = Some fr) (Hkr : kind fr = KNone) (Hw : ftable s !! w = Some fw) (Hkw : kind fw = KNone).

Let ft := <[w := write_end p]> (<[r := read_end p]> (ftable s)).

(** Which files stand for which ends. *)
Lemma new_ends k p' w' :
  (∃ g, ft !! k = Some g ∧ end_file p' w' g) ↔
  p' = p ∧ k = (if w' then w else r) ∨ p' ≠ p ∧ ∃ g, ftable s !! k = Some g ∧ end_file p' w' g.
Proof.
  destruct (unused_no_file _ _ _ Hok Hq Hu) as (_ & _ & Hno). unfold ft.
  destruct (decide (k = w)) as [->|Hkw']; [|destruct (decide (k = r)) as [->|Hkr']].
  - rewrite list_lookup_insert_eq by (rewrite length_insert; by eapply lookup_lt_Some).
    split; [intros (g & [= <-] & [[= <-] <-]); by left|].
    intros [[-> ?]|(_ & g & Hg & Hk & _)]; [destruct w'; [by eexists|done]|congruence].
  - rewrite list_lookup_insert_ne, list_lookup_insert_eq by (done || by eapply lookup_lt_Some).
    split; [intros (g & [= <-] & [[= <-] <-]); by left|].
    intros [[-> ?]|(_ & g & Hg & Hk & _)]; [destruct w'; [done|by eexists]|congruence].
  - rewrite !list_lookup_insert_ne by done. split.
    + intros (g & Hg & He). right. split; [|eauto]. intros ->. by eapply Hno.
    + intros [[-> ?]|[_ ?]]; [by destruct w'|done].
Qed.

Lemma ends_ok_new : ends_ok (put_file w (write_end p) (put_file r (read_end p) (put_pipe p (opened q) s))).
Proof.
  destruct Hok as [U O D].
  split; cbn [ftable pipes put_file put_pipe set_ftable set_pipes]; fold ft.
  - intros a b f g p' w' Hf Hg H1 H2.
    destruct (proj1 (new_ends a p' w') (ex_intro _ _ (conj Hf H1))) as [[-> ->]|(Hne & f0 & Hf0 & E1)];
    destruct (proj1 (new_ends b _ w') (ex_intro _ _ (conj Hg H2))) as [[? ->]|(Hne' & g0 & Hg0 & E2)]; try done. by eapply U.
  - intros p' q' w' Hq'. transitivity (p' = p ∨ p' ≠ p ∧ ∃ k g, ftable s !! k = Some g ∧ end_file p' w' g).
    + destruct (decide (p' = p)) as [->|Hne].
      * rewrite list_lookup_insert_eq in Hq' by (by eapply lookup_lt_Some). injection Hq' as <-. destruct w'; cbn; tauto.
      * rewrite list_lookup_insert_ne in Hq' by done. rewrite (O _ _ w' Hq'). tauto.
    + split.
      * intros [->|(Hne & k & g & Hg)]; [|destruct (proj2 (new_ends k p' w')) as (g' & ?); [right; eauto|eauto]].
        destruct (proj2 (new_ends (if w' then w else r) p w')) as (g' & ?); [by left|eauto].
      * intros (k & g & Hg). destruct (proj1 (new_ends k p' w')) as [[-> _]|(Hne & g' & ?)]; [eauto|by left|right; eauto].
  - intros p' q'. destruct (decide (p' = p)) as [->|Hne].
    + rewrite list_lookup_insert_eq by (by eapply lookup_lt_Some). by intros [= <-].
    + rewrite list_lookup_insert_ne by done. apply D.
Qed.
End new_pipe.

Lemma table_ok_put_pipe s refs p q : table_ok s refs → is_Some (pipes s !! p) → table_ok (put_pipe p q s) refs.
Proof.
  intros [[A B C D E F] Hh Hp] Hsome. split; [split|done|done]; try done.
  intros i f p' Hf Hk. destruct (E i f p' Hf Hk). apply lookup_lt_is_Some. cbn. rewrite length_insert. by apply lookup_lt_is_Some.
Qed.

(** An allocated file becomes an end of a pipe. *)
Lemma table_ok_set_end s refs i f f' p :
  table_ok s refs → ftable s !! i = Some f → kind f = KNone → f_refcnt f' = f_refcnt f → f_refcnt f ≠ 0 →
  kind f' = KPipe p → is_Some (pipes s !! p) → table_ok (put_file i f' s) refs.
Proof.
  intros [[A B C D E F] Hh Hp] Hi Hk Hn H0 Hk' Hsome.
  assert (∀ k g, <[i := f']> (ftable s) !! k = Some g → k = i ∧ g = f' ∨ k ≠ i ∧ ftable s !! k = Some g) as Hlk.
  { intros k g. destruct (decide (k = i)) as [->|Hne].
    - rewrite list_lookup_insert_eq by (by eapply lookup_lt_Some). intros [= <-]. by left.
    - rewrite list_lookup_insert_ne by done. by right. }
  split; [split|done|done]; cbn [ftable put_file set_ftable pipes k_fs].
  - by rewrite length_insert.
  - intros k g [[-> ->]|[Hne Hg]]%Hlk; [rewrite Hn|]; by apply B.
  - done.
  - intros k g [[-> ->]|[Hne Hg]]%Hlk; [congruence|by eapply D].
  - intros k g p' [[-> ->]|[Hne Hg]]%Hlk; [by rewrite Hk'; intros [= <-]|by eapply E].
  - intros j. pose proof (inode_files_insert j i f f' (ftable s) Hi) as Hc.
    unfold inode_of in Hc. rewrite Hk, Hk' in Hc. cbn in Hc. rewrite !Nat.add_0_r in Hc. rewrite Hc. apply F.
Qed.

Lemma wp_set_end i rd wr p f s Q :
  ftable s !! i = Some f → Q tt (put_file i (mkFile (f_refcnt f) rd wr (KPipe p)) s) → wp (set_end i rd wr p) s Q.
Proof. intros Hi HQ. unfold set_end. wp_step. eapply wp_file_slot; [done|]. by apply wp_set_file. Qed.

Lemma free_allocated_spec p q s :
  pipes s !! p = Some q → held s = [] →
  wp (free_allocated p) s (λ _ s', s' = put_pipe p (mkPipe false (p_data q) 0 0 false false) s).
Proof.
  intros Hq Hh. unfold free_allocated. wp_step. apply wp_acquire; [rewrite Hh; apply not_elem_of_nil|].
  wp_step. eapply wp_pipe_slot; [done|]. wp_step. apply wp_set_pipe. wp_step.
  eapply wp_release; [done|cbn in *; rewrite Hh; apply not_elem_of_nil|].
  wp_call pipe_unuse_spec; [cbn; apply list_lookup_insert_eq; by eapply lookup_lt_Some|by cbn in *|].
  intros [] s' ->. destruct s. cbn in *. subst. unfold put_pipe, set_pipes, set_used. cbn. by rewrite list_insert_insert_eq.
Qed.

(** Closing one reference, whichever it is. *)
Lemma file_close_ends i s refs :
  table_ok s refs → ends_ok s → i ∈ refs → Z.of_nat (multiplicity i refs) ≤ USIZE_MAX →
  wp (file_close i) s (λ _ s', table_ok s' (refs ∖ {[+ i +]}) ∧ ends_ok s' ∧ framed s s').
Proof.
  intros Htab Hends Hi Hmax. wp_call file_close_refs; [done|done|done|]. intros [] s' (Hok & Hfr & f & Hf & Hs').
  split_and!; [done| |done]. destruct (decide _); [by eapply ends_ok_released|]. subst s'. by eapply ends_ok_put.
Qed.

Lemma close_both_spec r w s refs :
  table_ok s (refs ⊎ {[+ r +]} ⊎ {[+ w +]}) → ends_ok s → r ∉ refs → w ∉ refs ⊎ {[+ r +]} →
  wp (close_both r w) s (λ v s', v = SReturn SYSERR ∧ table_ok s' refs ∧ ends_ok s' ∧ framed s s').
Proof.
  intros Htab Hends Hr Hw. apply not_elem_of_multiplicity in Hr, Hw. rewrite multiplicity_disj_union in Hw. unfold close_both.
  assert (r ≠ w) as Hne. { intros ->. rewrite multiplicity_singleton_eq in Hw. lia. }
  rewrite multiplicity_singleton_ne in Hw by done.
  wp_call (file_close_ends r); [done|done|multiset_solver| |].
  { rewrite !multiplicity_disj_union, Hr, multiplicity_singleton_eq, multiplicity_singleton_ne by done. done. }
  intros [] s1 (Ht1 & He1 & Hf1). replace (_ ∖ {[+ r +]}) with (refs ⊎ {[+ w +]}) in Ht1 by multiset_solver.
  wp_call (file_close_ends w); [done|done|multiset_solver| |].
  { rewrite multiplicity_disj_union, multiplicity_singleton_eq. replace (multiplicity w refs) with 0%nat by lia. done. }
  intros [] s2 (Ht2 & He2 & Hf2). replace (_ ∖ {[+ w +]}) with refs in Ht2 by multiset_solver.
  wp_steps. split_and!; [done|done|done|by eapply framed_trans].
Qed.

Lemma with_fd_undo i n x p s :
  procs s !! i = Some p → ofile p !! n = Some None → fd_tables (with_fd i n None (with_fd i n x s)) = fd_tables s.
Proof.
  intros Hp Hn. assert (procs (with_fd i n x s) !! i = Some (set_ofile (<[n := x]> (ofile p)) p)) as Hp'.
  { cbn. by rewrite list_lookup_alter_eq, Hp. }
  rewrite (tables_with_fd _ _ _ _ _ Hp'), (tables_with_fd _ _ _ _ _ Hp). cbn [ofile set_ofile].
  rewrite list_insert_insert_eq, list_insert_insert_eq, (list_insert_id (ofile p)) by done.
  apply list_insert_id. by apply tables_lookup.
Qed.

Lemma with_fd_lookup i n x p s :
  procs s !! i = Some p → procs (with_fd i n x s) !! i = Some (set_ofile (<[n := x]> (ofile p)) p).
Proof. intros Hp. cbn. by rewrite list_lookup_alter_eq, Hp. Qed.

(** An operation on memory, run by the kernel with no lock held. *)
Lemma wp_in_ram {A} (m : M machine A) s (Q : A → machine → Prop) (R : A → kernel → Prop) :
  held s = [] → wp m (set_held [] (k_ram s)) Q →
  (∀ a r, Q a r → held r = [] ∧ R a (set_k_ram r s)) → wp (in_ram m) s R.
Proof.
  intros Hh Hm HR. apply wp_zoom. cbn in Hh. rewrite Hh. eapply wp_mono; [exact Hm|].
  intros a r [Hr HRr]%HR. rewrite Hr. by destruct s; cbn in *; subst.
Qed.

Lemma undo_two (l : list (option nat)) n1 n2 x y :
  l !! n1 = Some None → <[n1 := Some x]> l !! n2 = Some None →
  <[n2 := None]> (<[n1 := None]> (<[n2 := Some y]> (<[n1 := Some x]> l))) = l.
Proof.
  intros H1 H2. assert (n1 ≠ n2) as Hne.
  { intros ->. rewrite list_lookup_insert_eq in H2 by (by eapply lookup_lt_Some). done. }
  rewrite list_lookup_insert_ne in H2 by done.
  pose proof (lookup_lt_Some _ _ _ H1). pose proof (lookup_lt_Some _ _ _ H2). apply list_eq. intros k.
  rewrite !list_lookup_insert, !length_insert. repeat case_decide; destruct_and?; subst; first [congruence|tauto].
Qed.

(** The same for two descriptors, whatever else changed in between. *)
Lemma with_fd_undo_two i n1 n2 r w p s s2 :
  procs s !! i = Some p → ofile p !! n1 = Some None → <[n1 := Some r]> (ofile p) !! n2 = Some None →
  procs s2 = procs (with_fd i n2 (Some w) (with_fd i n1 (Some r) s)) →
  fd_tables (with_fd i n2 None (with_fd i n1 None s2)) = fd_tables s.
Proof.
  intros Hp H1 H2 Hs. pose proof (with_fd_lookup i n1 (Some r) p s Hp) as Hp1.
  pose proof (with_fd_lookup i n2 (Some w) _ _ Hp1) as Hp2. rewrite <-Hs in Hp2.
  assert (fd_tables s2 = fd_tables (with_fd i n2 (Some w) (with_fd i n1 (Some r) s))) as Ht by (unfold fd_tables; by rewrite Hs).
  rewrite (tables_with_fd _ _ _ _ _ (with_fd_lookup i n1 None _ s2 Hp2)), (tables_with_fd _ _ _ _ s2 Hp2), Ht.
  rewrite (tables_with_fd _ _ _ _ _ Hp1), (tables_with_fd _ _ _ _ _ Hp). cbn [ofile set_ofile].
  rewrite !list_insert_insert_eq, undo_two by done. by apply list_insert_id, tables_lookup.
Qed.

Lemma all_refs_put2 t i l n1 n2 x y :
  t !! i = Some l → l !! n1 = Some None → <[n1 := Some x]> l !! n2 = Some None →
  all_refs (<[i := <[n2 := Some y]> (<[n1 := Some x]> l)]> t) = all_refs t ⊎ {[+ x +]} ⊎ {[+ y +]}.
Proof.
  intros Hi H1 H2. pose proof (all_refs_put t i l n1 None (Some x) Hi H1) as E1.
  assert (<[i := <[n1 := Some x]> l]> t !! i = Some (<[n1 := Some x]> l)) as Hi'
    by (apply list_lookup_insert_eq; by eapply lookup_lt_Some).
  pose proof (all_refs_put _ i _ n2 None (Some y) Hi' H2) as E2. rewrite list_insert_insert_eq in E2.
  rewrite refs_of_none, refs_of_one in E1, E2. multiset_solver.
Qed.

(** The bytes of a complete copy. *)
Lemma copied_bytes kernel_end s T fl va bs s' :
  copied kernel_end s T fl va bs (Z.of_nat (length bs)) s' → space_ok kernel_end s T fl → 0 ≤ va →
  (∀ i, 0 ≤ i < Z.of_nat (length bs) → is_Some (user_leaf T PTE_W (va + i))) → user_bytes (mem s') T PTE_W va bs.
Proof.
  intros [_ _ C3 _] Hsp Hva Hmap j Hj. rewrite C3 by lia.
  destruct (leaf_ubyte kernel_end s T fl PTE_W (va + Z.of_nat j) Hsp) as [x ->]; [lia|apply Hmap; lia|]. cbn.
  rewrite decide_True by lia. replace (Z.to_nat (va + Z.of_nat j - va)) with j by lia.
  symmetry. by apply list_lookup_lookup_total_lt.
Qed.

Lemma free_file s refs r : table_ok s refs → r ∉ refs → (r < Z.to_nat NFILE)%nat →
  ∃ f, ftable s !! r = Some f ∧ f_refcnt f = 0 ∧ kind f = KNone.
Proof.
  intros [Hf _ _] Hr Hlt. destruct (lookup_lt_is_Some_2 (ftable s) r) as [f Hi]; [by rewrite (fo_len _ _ Hf)|].
  exists f. pose proof (fo_count _ _ Hf r f Hi) as Hc. apply not_elem_of_multiplicity in Hr.
  split_and!; [done|lia|]. eapply fo_free; [done|done|lia].
Qed.

(** No room for the second file. *)
Lemma pipe_one_file s pp q r :
  fds_ok s → pipes s !! pp = Some q → used q = false → r ∉ all_refs (fd_tables s) →
  let s2 := put_file r (mkFile 1 false false KNone) (put_pipe pp (opened q) s) in
  table_ok s2 (all_refs (fd_tables s) ⊎ {[+ r +]}) →
  wp (file_close r;; free_allocated pp;; mret (SReturn SYSERR)) s2 (λ v s',
    v = SReturn SYSERR ∧ fd_tables s' = fd_tables s ∧ fds_ok s' ∧ k_ram s' = k_ram s).
Proof.
  intros Hok Hq Hu Hr s2 Htab. pose proof Hr as Hr0. apply not_elem_of_multiplicity in Hr0.
  assert (r < Z.to_nat NFILE)%nat as Hlt by (eapply fo_dom; [apply Htab|multiset_solver]).
  destruct (free_file _ _ r (fd_table _ Hok) Hr Hlt) as (f0 & Hf0 & _ & Hk0).
  assert (ftable s2 !! r = Some (mkFile 1 false false KNone)) as Hf by (apply list_lookup_insert_eq; by eapply lookup_lt_Some).
  assert (multiplicity r (all_refs (fd_tables s) ⊎ {[+ r +]}) = 1%nat) as H1
    by (rewrite multiplicity_disj_union, multiplicity_singleton_eq; lia).
  wp_call (file_close_refs r); [done|multiset_solver|by rewrite H1|]. intros [] s3 (Ht3 & Hfr & f & Hf' & Hs3).
  rewrite decide_True in Hs3 by done. rewrite Hf in Hf'. injection Hf' as <-. cbn in Hs3. subst s3.
  replace (_ ∖ {[+ r +]}) with (all_refs (fd_tables s)) in Ht3 by multiset_solver.
  wp_call (free_allocated_spec pp (opened q)); [cbn; apply list_lookup_insert_eq; by eapply lookup_lt_Some|apply Ht3|].
  intros [] s4 ->. wp_steps. split_and!; [done|done| |done].
  split; [apply table_ok_put_pipe; [done|apply lookup_lt_is_Some; cbn; rewrite length_insert; by eapply lookup_lt_Some]|apply Hok|].
  apply (ends_ok_eq (put_pipe pp (mkPipe false (p_data q) 0 0 false false) (put_file r (mkFile 0 false false KNone) s))).
  - eapply ends_ok_unused; [|done|done]. eapply ends_ok_put; [apply Hok|done|].
    intros p' w'. unfold end_file. rewrite Hk0. split; by intros [].
  - cbn. by rewrite list_insert_insert_eq.
  - cbn. by rewrite list_insert_insert_eq.
Qed.

(** The two new files become the ends. *)
Lemma pipe_two_files s pp q r w :
  fds_ok s → pipes s !! pp = Some q → used q = false → r ∉ all_refs (fd_tables s) → w ∉ all_refs (fd_tables s) ⊎ {[+ r +]} →
  let s3 := put_file w (mkFile 1 false false KNone) (put_file r (mkFile 1 false false KNone) (put_pipe pp (opened q) s)) in
  table_ok s3 (all_refs (fd_tables s) ⊎ {[+ r +]} ⊎ {[+ w +]}) →
  wp (set_end r true false pp;; set_end w false true pp) s3 (λ _ s4,
    s4 = put_file w (write_end pp) (put_file r (read_end pp) (put_pipe pp (opened q) s)) ∧
    table_ok s4 (all_refs (fd_tables s) ⊎ {[+ r +]} ⊎ {[+ w +]}) ∧ ends_ok s4).
Proof.
  intros Hok Hq Hu Hr Hw s3 Htab. assert (r ≠ w) as Hne by multiset_solver.
  assert (r < Z.to_nat NFILE ∧ w < Z.to_nat NFILE)%nat as [Hlr Hlw]
    by (split; eapply fo_dom; [apply Htab|multiset_solver|apply Htab|multiset_solver]).
  destruct (free_file _ _ r (fd_table _ Hok) Hr Hlr) as (fr & Hfr & _ & Hkr).
  destruct (free_file _ _ w (fd_table _ Hok) ltac:(multiset_solver) Hlw) as (fw & Hfw & _ & Hkw).
  set (s1 := put_pipe pp (opened q) s) in *.
  assert (∀ x y, ftable (put_file w y (put_file r x s1)) !! r = Some x) as Lr.
  { intros x y. cbn. rewrite list_lookup_insert_ne by done. apply list_lookup_insert_eq. by eapply lookup_lt_Some. }
  assert (∀ x y, ftable (put_file w y (put_file r x s1)) !! w = Some y) as Lw.
  { intros x y. cbn. apply list_lookup_insert_eq. rewrite length_insert. by eapply lookup_lt_Some. }
  assert (∀ x x' y, put_file r x' (put_file w y (put_file r x s1)) = put_file w y (put_file r x' s1)) as Sr.
  { intros. unfold put_file, set_ftable. cbn. by rewrite list_insert_insert_ne, list_insert_insert_eq by done. }
  assert (∀ x y y', put_file w y' (put_file w y (put_file r x s1)) = put_file w y' (put_file r x s1)) as Sw.
  { intros. unfold put_file, set_ftable. cbn. by rewrite list_insert_insert_eq. }
  assert (is_Some (pipes s1 !! pp)) as Hsome by (eexists; by apply put_pipe_lookup).
  wp_step. eapply wp_set_end; [apply Lr|]. eapply wp_set_end; [unfold s3; rewrite Sr; apply Lw|].
  unfold s3. rewrite Sr, Sw. split_and!; [done| |by eapply ends_ok_new; [apply Hok|..]].
  cbn [f_refcnt]. rewrite <-(Sw _ (mkFile 1 false false KNone)).
  eapply table_ok_set_end; [|apply Lw|done..]. rewrite <-(Sr (mkFile 1 false false KNone)).
  by eapply table_ok_set_end; [exact Htab|apply Lr|..].
Qed.

Section sys_pipe.
Context (kernel_end : usize) (Hend_pos : 0 < kernel_end) (Hend_max : kernel_end ≤ PHYSTOP).
Context (i : nat) (p : Process) (T : ptree) (fl : list Z) (va : Z) (Hva : 0 ≤ va ≤ USIZE_MAX).

(** Only the eight bytes at [va] of the caller's memory may differ. *)
Definition mem_pair (s s' : kernel) : Prop :=
  space_ok kernel_end (set_held [] (k_ram s')) T fl ∧
  ∀ perm a, 0 ≤ a → ¬ va ≤ a < va + 8 → ubyte (mem (k_ram s')) T perm a = ubyte (mem (k_ram s)) T perm a.

Lemma mem_pair_refl s s' :
  space_ok kernel_end (set_held [] (k_ram s)) T fl → k_ram s' = k_ram s → mem_pair s s'.
Proof. intros Hsp Hr. unfold mem_pair. by rewrite Hr. Qed.

(** Either nothing is left of the new files, or they have the lowest free
    descriptors and the caller can read their numbers. *)
Definition ends_installed (s : kernel) (r w : nat) (v : SyscallResult) (s' : kernel) : Prop :=
  v = SReturn SYSERR ∧ fd_tables s' = fd_tables s ∨
  v = SReturn 0 ∧ ftable s' = ftable s ∧ pipes s' = pipes s ∧
    ∃ n1 n2, lowest_free (ofile p) n1 ∧ lowest_free (<[n1 := Some r]> (ofile p)) n2 ∧
      fd_tables s' = <[i := <[n2 := Some w]> (<[n1 := Some r]> (ofile p))]> (fd_tables s) ∧
      user_bytes (mem (k_ram s')) T PTE_W va (le_bytes 4 (Z.of_nat n1) ++ le_bytes 4 (Z.of_nat n2)).

(** Giving the ends up again. *)
Lemma give_up_ends r w s s0 :
  table_ok s (all_refs (fd_tables s0) ⊎ {[+ r +]} ⊎ {[+ w +]}) → ends_ok s →
  r ∉ all_refs (fd_tables s0) → w ∉ all_refs (fd_tables s0) ⊎ {[+ r +]} →
  fd_tables s = fd_tables s0 → Forall (λ l, length l = Z.to_nat NOFILE) (fd_tables s0) → mem_pair s0 s →
  wp (close_both r w) s (λ v s', fds_ok s' ∧ mem_pair s0 s' ∧ ends_installed s0 r w v s').
Proof.
  intros Ht He Hr Hw Hrefs Hlen Hm. wp_call close_both_spec; [done..|]. intros v s' (-> & Ht' & He' & Hfr).
  pose proof (framed_tables _ _ Hfr) as Htabs. rewrite Hrefs in Htabs. split_and!.
  - split; rewrite ?Htabs; done.
  - destruct Hm as [H1 H2]. unfold mem_pair. by rewrite (fr_ram _ _ Hfr).
  - by left.
Qed.

Lemma install_ends_spec s r w :
  procs s !! i = Some p → pagetable p = pt_root T →
  space_ok kernel_end (set_held [] (k_ram s)) T fl → Forall (λ l, length l = Z.to_nat NOFILE) (fd_tables s) →
  table_ok s (all_refs (fd_tables s) ⊎ {[+ r +]} ⊎ {[+ w +]}) → ends_ok s →
  r ∉ all_refs (fd_tables s) → w ∉ all_refs (fd_tables s) ⊎ {[+ r +]} →
  wp (install_ends i (pagetable p) va r w) s (λ v s', fds_ok s' ∧ mem_pair s s' ∧ ends_installed s r w v s').
Proof.
  intros Hp Hpt Hsp Hlen Htab Hends Hr Hw. unfold install_ends. pose proof (tables_lookup _ _ _ Hp) as Ht.
  wp_step. eapply wp_fdalloc; [done|]. pose proof (free_fd_spec (ofile p)) as Hf1.
  destruct (free_fd (ofile p)) as [n1|]; [|by apply give_up_ends; try apply mem_pair_refl].
  set (l1 := <[n1 := Some r]> (ofile p)). pose proof (with_fd_lookup i n1 (Some r) p s Hp) as Hp1.
  wp_step. eapply wp_fdalloc; [done|]. cbn [ofile set_ofile]. fold l1. pose proof (free_fd_spec l1) as Hf2.
  destruct (free_fd l1) as [n2|]; cycle 1.
  { wp_step. eapply wp_put_fd; [done|]. apply give_up_ends;
      [by do 2 apply table_ok_with_fd|by do 2 apply ends_ok_procs|done|done| |done|by apply mem_pair_refl].
    apply (with_fd_undo i n1 (Some r) p s Hp), Hf1. }
  set (s2 := with_fd i n2 (Some w) (with_fd i n1 (Some r) s)).
  pose proof (with_fd_lookup i n2 (Some w) _ _ Hp1) as Hp2. fold s2 in Hp2. cbn [ofile set_ofile] in Hp2. fold l1 in Hp2.
  assert (table_ok s2 (all_refs (fd_tables s) ⊎ {[+ r +]} ⊎ {[+ w +]})) as Htab2 by (by do 2 apply table_ok_with_fd).
  assert (ends_ok s2) as Hends2 by (by do 2 apply ends_ok_procs).
  set (bs := le_bytes 4 (Z.of_nat n1) ++ le_bytes 4 (Z.of_nat n2)). rewrite Hpt.
  wp_step. eapply wp_in_ram; [apply Htab2|apply (copyout_spec kernel_end Hend_pos _ T fl bs va Hsp Hva); [done|]|].
  { apply Forall_app. split; apply le_bytes_ok. }
  intros res ram (k & Hcp & Hres). pose proof Hcp as [C1 C2 C3 _]. split; [by rewrite C2|].
  assert (mem_pair s (set_k_ram ram s2)) as Hmp.
  { split; cbn [k_ram set_k_ram]; [by replace (set_held [] ram) with ram by (by destruct ram; cbn in *; subst)|].
    intros perm b Hb Hout. rewrite C3 by done. cbn. destruct (ubyte _ _ _ _); [|done]. cbn. rewrite decide_False; [done|].
    intros Hin. apply Hout. assert (Z.of_nat (length bs) = 8) by done. destruct res; destruct Hres; lia. }
  destruct res as [[]|].
  - destruct Hres as [-> Hmap]. wp_steps.
    assert (fd_tables (set_k_ram ram s2) = <[i := <[n2 := Some w]> l1]> (fd_tables s)) as Htabs.
    { change (fd_tables (set_k_ram ram s2)) with (fd_tables s2). unfold s2. rewrite (tables_with_fd _ _ _ _ _ Hp1), (tables_with_fd _ _ _ _ _ Hp).
      cbn [ofile set_ofile]. by rewrite list_insert_insert_eq. }
    split_and!; [|done|].
    + split; rewrite ?Htabs.
      * unfold l1. rewrite (all_refs_put2 (fd_tables s) i (ofile p) n1 n2 r w Ht (proj1 Hf1) (proj1 Hf2)).
        by destruct Htab2 as [[] ? ?]; split; [split| |].
      * apply Forall_insert; [done|]. unfold l1. rewrite !length_insert. by eapply (Forall_lookup_1 _ _ _ _ Hlen).
      * by destruct Hends2; split.
    + right. split_and!; try done. exists n1, n2. split_and!; try done. by eapply copied_bytes; [exact Hcp|exact Hsp|lia|].
  - wp_step. eapply wp_put_fd; [exact Hp2|].
    wp_step. eapply wp_put_fd; [by eapply with_fd_lookup|].
    apply give_up_ends; try done.
    + do 2 apply table_ok_with_fd. by destruct Htab2 as [[] ? ?]; split; [split| |].
    + do 2 apply ends_ok_procs. by destruct Hends2; split.
    + by apply (with_fd_undo_two i n1 n2 r w p s); [|apply Hf1|apply Hf2|].
Qed.

(** What a successful [pipe] leaves: a pipe that was not in use, empty and open
    at both ends, two new files for the ends, and their descriptors. *)
Definition pipe_made (s s' : kernel) : Prop :=
  ∃ pp q r w n1 n2, pipes s !! pp = Some q ∧ used q = false ∧ pipes s' = <[pp := opened q]> (pipes s) ∧
    (r ∉ all_refs (fd_tables s)) ∧ (w ∉ all_refs (fd_tables s)) ∧ r ≠ w ∧
    ftable s' = <[w := write_end pp]> (<[r := read_end pp]> (ftable s)) ∧
    lowest_free (ofile p) n1 ∧ lowest_free (<[n1 := Some r]> (ofile p)) n2 ∧
    fd_tables s' = <[i := <[n2 := Some w]> (<[n1 := Some r]> (ofile p))]> (fd_tables s) ∧
    user_bytes (mem (k_ram s')) T PTE_W va (le_bytes 4 (Z.of_nat n1) ++ le_bytes 4 (Z.of_nat n2)).

Lemma sys_pipe_spec s a :
  fds_ok s → length (pipes s) = Z.to_nat NPIPE → cpu_proc s = Some i → procs s !! i = Some p →
  pagetable p = pt_root T → space_ok kernel_end (set_held [] (k_ram s)) T fl → tf_a0 a = va →
  wp (sys_pipe a) s (λ v s', fds_ok s' ∧ mem_pair s s' ∧
    (v = SReturn SYSERR ∧ fd_tables s' = fd_tables s ∨ v = SReturn 0 ∧ pipe_made s s')).
Proof.
  intros Hok Hnp Hi Hp Hpt Hsp Ha. pose proof (fd_table _ Hok) as Htab. unfold sys_pipe. wp_step. eapply wp_curproc; [done|done|].
  wp_call pipe_alloc_spec; [apply Htab|done|]. intros [pp|] s1; cycle 1.
  { intros [-> _]. wp_steps. split_and!; [done|by apply mem_pair_refl|by left]. }
  intros (q & Hq & Hu & -> & _). set (s1 := put_pipe pp (opened q) s).
  assert (table_ok s1 (all_refs (fd_tables s))) as Ht1 by (by apply table_ok_put_pipe).
  assert (pipes s1 !! pp = Some (opened q)) as Hq1 by (by apply put_pipe_lookup).
  wp_call file_alloc_refs; [done|]. intros [r|] s2; cycle 1.
  { intros [_ ->]. wp_call (free_allocated_spec pp (opened q)); [done|apply Ht1|]. intros [] s3 ->. wp_steps.
    split_and!; [|by apply mem_pair_refl|by left]. split; [by apply table_ok_put_pipe|apply Hok|].
    eapply ends_ok_eq; [by apply (ends_ok_unused s pp q (p_data q)); [apply Hok| |]|done|]. cbn. by rewrite list_insert_insert_eq. }
  intros (Hr & Ht2 & ->). set (s2 := put_file r _ s1) in *.
  wp_call file_alloc_refs; [done|]. intros [w|] s3; cycle 1.
  { intros [_ ->]. eapply wp_mono; [by apply (pipe_one_file s pp q r)|].
    intros v s' (-> & Htabs & Hok' & Hram). split_and!; [done|by apply mem_pair_refl|by left]. }
  intros (Hw & Ht3 & ->). apply wp_assoc_r. wp_step. eapply wp_mono; [by apply (pipe_two_files s pp q r w)|].
  intros [] s4 (-> & Ht4 & He4). rewrite Ha.
  wp_call (install_ends_spec _ r w); [exact Hp|exact Hpt|exact Hsp|apply Hok|exact Ht4|exact He4|exact Hr|exact Hw|].
  intros v s' (Hok' & Hm & [[-> Hs']|(-> & Hft & Hps & n1 & n2 & H1 & H2 & H3 & H4)]); (split_and!; [done|done|]); [by left|right].
  split; [done|]. exists pp, q, r, w, n1, n2. split_and!; try done; clear -Hw; multiset_solver.
Qed.
End sys_pipe.

(** ** Theorems *)

(** C10: [dup] and [close] act on the caller's descriptor table as they should
    and keep the whole system consistent.  [dup] puts the file of the given
    descriptor at the lowest free number and returns it, [close] frees the entry;
    a descriptor that is not open, or a full table, gives [-1] and changes no
    table.  The tables of other processes stay, every file's count is the number
    of descriptors that refer to it, a pipe end is open exactly while a descriptor
    somewhere refers to it, and the object behind a file is left alone while one
    still does. *)
Theorem descriptor_calls_refine s i p a :
  fds_ok s → cpu_proc s = Some i → procs s !! i = Some p → 0 ≤ tf_a0 a →
  wp (sys_dup a) s (λ r s', ∃ v l', r = SReturn v ∧ fd_step (Dup (Z.to_nat (tf_a0 a))) (ofile p) v l' ∧
    fd_tables s' = <[i := l']> (fd_tables s) ∧ fds_ok s' ∧ pipes s' = pipes s ∧ k_fs s' = k_fs s ∧ k_ram s' = k_ram s) ∧
  wp (sys_close a) s (λ r s', ∃ v l', r = SReturn v ∧ fd_step (Close (Z.to_nat (tf_a0 a))) (ofile p) v l' ∧
    fd_tables s' = <[i := l']> (fd_tables s) ∧ fds_ok s' ∧ k_ram s' = k_ram s ∧
    ∀ f, ofile p !! Z.to_nat (tf_a0 a) = Some (Some f) → f ∈ all_refs (fd_tables s') → pipes s' = pipes s ∧ k_fs s' = k_fs s).
Proof. intros. split; [by eapply sys_dup_spec|by eapply sys_close_spec]. Qed.

(** C23: [pipe] is all or nothing.  When it returns [0], a pipe that was not in use
    is empty and open at both ends, two files nobody referred to stand for its
    ends, they have the two lowest free descriptors of the caller, and the caller
    finds these numbers at [va].  When it returns [-1], for lack of pipes, files
    or descriptors or because [va] cannot be written, no descriptor table has
    changed and nothing of the pipe or its files remains in use.  Either way
    descriptors, files and pipe ends agree, and no memory but the eight bytes at
    [va] is touched. *)
Theorem sys_pipe_atomic kernel_end s i p a T fl :
  0 < kernel_end → fds_ok s → length (pipes s) = Z.to_nat NPIPE → cpu_proc s = Some i → procs s !! i = Some p →
  pagetable p = pt_root T → space_ok kernel_end (set_held [] (k_ram s)) T fl → 0 ≤ tf_a0 a ≤ USIZE_MAX →
  wp (sys_pipe a) s (λ v s', fds_ok s' ∧ mem_pair kernel_end T fl (tf_a0 a) s s' ∧
    (v = SReturn SYSERR ∧ fd_tables s' = fd_tables s ∨ v = SReturn 0 ∧ pipe_made i p T (tf_a0 a) s s')).
Proof. intros. by apply sys_pipe_spec. Qed.

(** ** A system with one pipe

    Process 1 runs and holds the writing end of pipe 0 twice; the first process
    sleeps in [wait]. *)

Definition demo_proc (st : ProcessState) (par : option nat) (c : chan) (fds : list (option nat)) : Process :=
  mkProcess st 1 Context_zero par 0 c (demo_pg 0) 0 0 0 (fds ++ replicate (Z.to_nat NOFILE - length fds) None) 0%nat.

Definition fd_kernel : kernel := {|
  k_held := [];
  procs := [demo_proc Sleeping None (ProcChan 0) []; demo_proc Running (Some 0%nat) NoChan [Some 0; Some 0]%nat] ++
           replicate 14 Process_unused;
  cpu_proc := Some 1%nat; next_pid := 3; initproc := Some 0%nat;
  ftable := shared_end :: replicate 99 File_unused;
  pipes := closed false (opened Pipe_unused) :: replicate 63 Pipe_unused;
  console := mkConsole (mkUart [] []) Input_new;
  k_fs := mkFs [] [] [] []; k_ram := demo_vm;
|}.

Lemma fd_kernel_file i f : ftable fd_kernel !! i = Some f → i = 0%nat ∧ f = shared_end ∨ i ≠ 0%nat ∧ f = File_unused.
Proof. apply file_kernel_lookup. Qed.

Lemma fd_kernel_pipe i q :
  pipes fd_kernel !! i = Some q → i = 0%nat ∧ q = closed false (opened Pipe_unused) ∨ i ≠ 0%nat ∧ q = Pipe_unused.
Proof.
  destruct i as [|i]; [intros [= <-]; by left|]. intros H. apply (lookup_replicate_1 63 Pipe_unused q i) in H as [-> _]. by right.
Qed.

Lemma fd_kernel_ends : ends_ok fd_kernel.
Proof.
  split.
  - intros i j f g p w [[-> ->]|[_ ->]]%fd_kernel_file [[-> ->]|[_ ->]]%fd_kernel_file [H1 _] [H2 _]; done.
  - intros p q w [[-> ->]|[Hp ->]]%fd_kernel_pipe; destruct w; cbn.
    + split; [|done]. intros _. by exists 0%nat, shared_end.
    + split; [done|]. intros (i & f & [[-> ->]|[_ ->]]%fd_kernel_file & [H1 H2]); done.
    + split; [done|]. intros (i & f & [[-> ->]|[_ ->]]%fd_kernel_file & [[= H1] H2]). done.
    + split; [done|]. intros (i & f & [[-> ->]|[_ ->]]%fd_kernel_file & [[= H1] H2]). done.
  - by intros p q [[-> ->]|[Hp ->]]%fd_kernel_pipe.
Qed.

Lemma fd_kernel_ok : fds_ok fd_kernel.
Proof.
  split; [|by vm_compute; repeat constructor|apply fd_kernel_ends].
  replace (all_refs (fd_tables fd_kernel)) with file_refs by (by vm_compute).
  split; [|done|done]. destruct file_kernel_ok as [[A B C D E F] _ _]. split; try done.
  intros i f p [[-> ->]|[_ ->]]%fd_kernel_file; [|done]. intros [= <-]. by eexists.
Qed.

Lemma descriptor_calls_refine_witness :
  let a := mkTargs 1 0 0 SYS_DUP in
  let p := demo_proc Running (Some 0%nat) NoChan [Some 0; Some 0]%nat in
  wp (sys_dup a) fd_kernel (λ r s', ∃ v l', r = SReturn v ∧ fd_step (Dup 1) (ofile p) v l' ∧
    fd_tables s' = <[1%nat := l']> (fd_tables fd_kernel) ∧ fds_ok s' ∧ pipes s' = pipes fd_kernel ∧
    k_fs s' = k_fs fd_kernel ∧ k_ram s' = k_ram fd_kernel) ∧
  wp (sys_close a) fd_kernel (λ r s', ∃ v l', r = SReturn v ∧ fd_step (Close 1) (ofile p) v l' ∧
    fd_tables s' = <[1%nat := l']> (fd_tables fd_kernel) ∧ fds_ok s' ∧ k_ram s' = k_ram fd_kernel ∧
    ∀ f, ofile p !! 1%nat = Some (Some f) → f ∈ all_refs (fd_tables s') →
      pipes s' = pipes fd_kernel ∧ k_fs s' = k_fs fd_kernel).
Proof. apply (descriptor_calls_refine fd_kernel 1 _ (mkTargs 1 0 0 SYS_DUP)); [apply fd_kernel_ok|done|done|done]. Defined.

Lemma sys_pipe_atomic_witness :
  wp (sys_pipe (mkTargs 16 0 0 SYS_PIPE)) fd_kernel (λ v s', fds_ok s' ∧ mem_pair (ram_end 4) demo_tree [] 16 fd_kernel s' ∧
    (v = SReturn SYSERR ∧ fd_tables s' = fd_tables fd_kernel ∨
     v = SReturn 0 ∧ pipe_made 1 (demo_proc Running (Some 0%nat) NoChan [Some 0; Some 0]%nat) demo_tree 16 fd_kernel s')).
Proof.
  apply (sys_pipe_atomic (ram_end 4) fd_kernel 1 _ (mkTargs 16 0 0 SYS_PIPE) demo_tree []);
    [apply demo_end_pos|apply fd_kernel_ok|done|done|done|done|apply demo_space|done].
Defined.

(** The run behind it: descriptors 2 and 3, in pipe 1. *)
Example sys_pipe_run :
  match sys_pipe (mkTargs 16 0 0 SYS_PIPE) fd_kernel with
  | Ok (v, s) => Some (v, take 5 (fd_tables s !!! 1%nat), take 3 (kind <$> ftable s), slice 16 8 (mem (k_ram s) !!! demo_pg 3))
  | Fault _ => None
  end = Some (SReturn 0, [Some 0; Some 0; Some 1; Some 2; None]%nat, [KPipe 0; KPipe 1; KPipe 1],
              [2; 0; 0; 0; 3; 0; 0; 0]).
Proof. by vm_compute. Qed.
