(* ===== verification/Exit.v ===== *)
(** * Exit (src/src/proc.rs)

    A process that exits closes its descriptors, hands its children to the first
    process, wakes whoever waits for it and stays behind as a zombie. *)

From stdpp Require Import gmultiset.
From S2P Require Import Prelude Ring Spinlock FsBase Icache Kalloc Kernel Sched Pipe Console File Proc Syscall Descr.

(** ** Closing every descriptor *)

Definition clear_fds (k : nat) (p : Process) : Process := set_ofile (replicate k None ++ drop k (ofile p)) p.
Definition cleared (i k : nat) (s : kernel) : kernel := set_procs (alter (clear_fds k) i (procs s)) s.

Lemma framed_with_fd i fd f s s' : framed s s' → framed (with_fd i fd f s) (with_fd i fd f s').
Proof.
  intros [H1 H2 H3 H4 H5 H6]. split; try done. cbn. revert i. induction H1 as [|p p' l l' Hp H IH]; intros [|i]; cbn.
  - constructor.
  - constructor.
  - constructor; [|done]. destruct Hp as [->|[? ->]]; [by left|by right].
  - constructor; [done|apply IH].
Qed.

Lemma framed_at s s' i p : framed s s' → procs s !! i = Some p → ∃ p', procs s' !! i = Some p' ∧ roused p p'.
Proof. intros [H _ _ _ _ _] Hi. by eapply Forall2_lookup_l in H. Qed.

Lemma roused_awake l l' i p : Forall2 roused l l' → l !! i = Some p → state p ≠ Sleeping → l' !! i = Some p.
Proof. intros H Hi Hs. destruct (Forall2_lookup_l _ _ _ _ _ H Hi) as (p' & Hp' & [->|[? _]]); done. Qed.

Lemma cleared_step i k p s :
  procs s !! i = Some p → length (ofile p) = Z.to_nat NOFILE → (k < Z.to_nat NOFILE)%nat →
  with_fd i k None (cleared i k s) = cleared i (S k) s.
Proof.
  intros Hp Hl Hk. unfold with_fd, cleared, set_procs. cbn. f_equal. rewrite list_alter_alter_eq. apply list_alter_ext; [|done].
  intros x Hx. simplify_eq. unfold clear_fds, set_ofile, compose. cbn. f_equal.
  change (None :: replicate k None ++ drop (S k) (ofile p)) with (replicate (S k) None ++ drop (S k) (ofile p)).
  rewrite replicate_S_end, <-app_assoc, insert_app_r_alt, length_replicate, Nat.sub_diag by (rewrite length_replicate; lia).
  destruct (lookup_lt_is_Some_2 (ofile p) k) as [x Hxk]; [lia|]. by rewrite (drop_S _ x k Hxk).
Qed.

Lemma close_fd_spec i fd s p :
  fds_ok s → procs s !! i = Some p → (fd < Z.to_nat NOFILE)%nat →
  wp (close_fd true i fd tt) s (λ _ s', fds_ok s' ∧ framed (with_fd i fd None s) s' ∧ inodes_follow s s').
Proof.
  intros Hok Hp Hfd. pose proof (fds_len _ _ _ Hok Hp) as Hl. destruct (lookup_lt_is_Some_2 (ofile p) fd) as [o Ho]; [lia|].
  unfold close_fd. wp_step. eapply wp_proc_slot; [done|]. wp_step. eapply wp_expect; [done|].
  destruct o as [f|].
  - cbn match. wp_step. wp_step. eapply wp_proc_slot; [done|]. apply wp_set_proc.
    pose proof (close_entry_spec s i p fd f Hok Hp Ho) as H. unfold with_fd in *. rewrite (alter_at _ _ _ _ Hp) in *.
    eapply wp_mono; [exact H|]. by intros [] s' (H1 & H2 & _ & _ & H3).
  - wp_steps. split_and!; [done| |done]. unfold with_fd. rewrite (alter_at _ _ _ _ Hp), (list_insert_id (ofile p)) by done.
    rewrite list_insert_id; [rewrite set_procs_id; apply framed_refl|]. rewrite Hp. by destruct p.
Qed.

Lemma close_open_files_spec i s p :
  fds_ok s → procs s !! i = Some p →
  wp (close_open_files i) s (λ _ s', fds_ok s' ∧ framed (cleared i (Z.to_nat NOFILE) s) s' ∧ inodes_follow s s').
Proof.
  intros Hok Hp. pose proof (fds_len _ _ _ Hok Hp) as Hl. unfold close_open_files.
  apply (wp_for_fold (λ pre _ s', fds_ok s' ∧ framed (cleared i (length pre) s) s' ∧ inodes_follow s s')).
  - split_and!; [done| |done]. unfold cleared. rewrite (alter_at _ _ _ _ Hp). cbn [length]. rewrite list_insert_id.
    + rewrite set_procs_id. apply framed_refl.
    + rewrite Hp. by destruct p.
  - intros pre fd post [] s' Hpre (Hok' & Hfr & Hfol).
    assert (fd = length pre ∧ (fd < Z.to_nat NOFILE)%nat) as [-> Hfd].
    { assert (fds !! length pre = Some fd) as Hi by (rewrite Hpre; by apply list_lookup_middle).
      apply lookup_seq in Hi. lia. }
    destruct (framed_at _ _ i (clear_fds (length pre) p) Hfr) as (p' & Hp' & _).
    { cbn. by rewrite list_lookup_alter_eq, Hp. }
    eapply wp_mono; [by eapply close_fd_spec|]. intros [] s'' (H1 & H2 & H3). split_and!; [done| |by etrans].
    rewrite length_app. cbn [length]. rewrite Nat.add_1_r, <-(cleared_step i (length pre) p) by done.
    eapply framed_trans; [by apply framed_with_fd|done].
  - by intros [] s'.
Qed.

(** ** Children *)

(** The child [q] of [i], after [i] has exited: an orphan belongs to the first
    process, unless that is the one that exits. *)
Definition adopt (i : nat) (init : option nat) (q : Process) : Process :=
  match init with
  | Some k => if decide (parent q = Some i ∧ i ≠ k) then set_parent_sz (Some k) (sz q) q else q
  | None => q
  end.

Lemma adopt_roused i init p p' : roused p p' → roused (adopt i init p) (adopt i init p').
Proof.
  intros [->|[Hs ->]]; [done|]. unfold adopt. destruct init as [k|]; [|by right].
  change (parent (set_state Runnable p)) with (parent p). destruct (decide _); by right.
Qed.

Definition has_child (i : nat) (l : list Process) : bool := existsb (λ q, bool_decide (parent q = Some i)) l.

Lemma has_child_fold i b l :
  foldl (λ b q, if decide (parent q = Some i) then true else b) b l = b || has_child i l.
Proof.
  revert b. induction l as [|q l IH]; intros b; cbn; [by rewrite orb_false_r|]. rewrite IH. unfold has_child.
  destruct (decide _); [rewrite bool_decide_eq_true_2 by done; by destruct b|by rewrite bool_decide_eq_false_2 by done].
Qed.

(** The process table after [reparent]. *)
Definition reparented (i : nat) (init : option nat) (l : list Process) : list Process :=
  let l' := adopt i init <$> l in
  match init with
  | Some k => if bool_decide (i ≠ k) && has_child i l then wake (ProcChan k) l' else l'
  | None => l'
  end.

Lemma adopt_none i (l : list Process) : adopt i None <$> l = l.
Proof. induction l as [|q l IH]; [done|]. by rewrite fmap_cons, IH. Qed.
Lemma adopt_self i (l : list Process) : adopt i (Some i) <$> l = l.
Proof.
  induction l as [|q l IH]; [done|]. rewrite fmap_cons, IH. f_equal. cbn. rewrite decide_False; [done|]. by intros [].
Qed.

Lemma reparent_spec i s :
  no_proc_lock s → length (procs s) = Z.to_nat NPROC →
  wp (reparent i) s (λ _ s', s' = set_procs (reparented i (initproc s) (procs s)) s).
Proof.
  intros Hh Hl. unfold reparent, reparented. wp_step. wp_step. destruct (initproc s) as [k|] eqn:Hk; cycle 1.
  { wp_steps. by rewrite adopt_none, set_procs_id. }
  destruct (decide (i = k)) as [<-|Hne].
  { wp_steps. rewrite adopt_self, bool_decide_eq_false_2 by (by intros []). cbn [andb]. by rewrite set_procs_id. }
  rewrite bool_decide_eq_true_2 by done. cbn [andb].
  wp_call (wp_map_procs (adopt i (Some k)) (λ b q, if decide (parent q = Some i) then true else b)); [done| |].
  - intros j q b s' Hq Hs'. unfold reparent_one. wp_step. apply wp_acquire; [rewrite Hs'; apply Hh|].
    wp_step. eapply wp_proc_slot; [done|]. wp_step. cbn [adopt].
    destruct (decide (parent q = Some i)) as [Hc|Hc].
    + rewrite decide_True by done. wp_step. apply wp_set_proc. wp_steps.
      eapply wp_release; [done|rewrite Hs'; apply Hh|]. wp_steps. split; [done|]. by destruct s'.
    + rewrite decide_False by tauto. wp_steps. eapply wp_release; [done|rewrite Hs'; apply Hh|]. wp_steps.
      split; [done|]. rewrite list_insert_id by done. by destruct s'.
  - intros b s' [-> ->]. rewrite has_child_fold. cbn [orb]. destruct (has_child i (procs s)); [|by wp_steps].
    wp_call wakeup_spec; [exact Hh|cbn; by rewrite length_fmap|]. by intros [] s' ->.
Qed.

(** ** The whole of [exit] *)

Ltac not_in := repeat (apply not_elem_of_cons; split; [done|]); apply not_elem_of_nil.

Definition zombie (code : i32) (p : Process) : Process :=
  mkProcess Zombie (pid p) (context p) (parent p) code (p_chan p) (pagetable p) (trapframe p) (sz p)
    (kstack p) (ofile p) (cwd p).

Lemma length_reparented i init l : length (reparented i init l) = length l.
Proof.
  unfold reparented. destruct init as [k|]; [destruct (_ && _)|]; rewrite ?length_wake, length_fmap; done.
Qed.

Lemma reparented_roused i init l : Forall2 roused (adopt i init <$> l) (reparented i init l).
Proof. unfold reparented. destruct init as [k|]; [destruct (_ && _)|]; by try apply wake_roused. Qed.

Lemma exit_enter_spec s i p code :
  fds_ok s → cpu_proc s = Some i → procs s !! i = Some p → state p = Running → parent p ≠ Some i →
  wp (exit_enter code) s (λ _ s', ∃ s1, fds_ok s1 ∧ framed (cleared i (Z.to_nat NOFILE) s) s1 ∧ inodes_follow s s1 ∧
    procs s1 !! i = Some (clear_fds (Z.to_nat NOFILE) p) ∧
    s' = set_held [LProc i] (set_procs (<[i := zombie code (clear_fds (Z.to_nat NOFILE) p)]>
           (wake (proc_chan (parent p)) (reparented i (initproc s) (procs s1)))) s1)).
Proof.
  intros Hok Hi Hp Hrun Hpar. unfold exit_enter. wp_step. eapply wp_myproc; [done|].
  wp_call close_open_files_spec; [done|done|]. intros [] s1 (Hok1 & Hfr & Hfol). set (p1 := clear_fds (Z.to_nat NOFILE) p).
  assert (procs s1 !! i = Some p1) as Hp1.
  { eapply roused_awake; [apply Hfr|cbn; by rewrite list_lookup_alter_eq, Hp|]. unfold p1. cbn. by rewrite Hrun. }
  pose proof (fd_table _ Hok1) as [_ Hheld Hlen]. cbn in Hheld.
  wp_step. apply wp_acquire; [cbn; rewrite Hheld; apply not_elem_of_nil|].
  wp_call reparent_spec; [intros j; cbn; rewrite Hheld; not_in|done|]. intros [] s2 ->.
  assert (initproc s1 = initproc s) as Hinit by apply Hfr. set (l2 := reparented i _ _).
  assert (l2 !! i = Some p1) as Hp2.
  { eapply roused_awake; [apply reparented_roused| |unfold p1; cbn; by rewrite Hrun].
    cbn [procs set_held Locks_kernel]. rewrite list_lookup_fmap, Hp1. cbn. f_equal. unfold adopt. destruct (initproc _); [|done].
    rewrite decide_False; [done|]. by intros []. }
  wp_step. eapply wp_proc_slot; [exact Hp2|]. change (parent p1) with (parent p).
  wp_call wakeup_spec; [intros j; cbn; rewrite Hheld; not_in|cbn; unfold l2; by rewrite length_reparented|]. intros [] s3 ->.
  set (l3 := wake (proc_chan (parent p)) l2).
  assert (l3 !! i = Some p1) as Hp3 by (eapply roused_awake; [apply wake_roused|done|unfold p1; cbn; by rewrite Hrun]).
  wp_step. apply wp_acquire; [cbn; rewrite Hheld; not_in|].
  wp_step. eapply wp_proc_slot; [exact Hp3|]. wp_step. apply wp_set_proc.
  wp_step. eapply (wp_release_in _ [LProc i] []); [cbn; by rewrite Hheld|not_in|].
  eapply wp_mono; [apply (sched_spec i (zombie code p1)); [etrans; [apply (fr_cpu _ _ Hfr)|done]| |done|done]|].
  - cbn. apply list_lookup_insert_eq. by eapply lookup_lt_Some.
  - intros [] s' ->. exists s1. split_and!; [done|done|done|done|].
    unfold l3, l2. cbn [initproc procs set_held Locks_kernel]. rewrite Hinit. by destruct s1; cbn in *; subst.
Qed.

(** A process asleep on [c] runs again once [c] has been woken. *)
Lemma wake_asleep c p p' : roused p p' → state p = Sleeping → p_chan p = c → state (wake_one c p') = Runnable.
Proof.
  intros H Hs Hc. unfold wake_one. destruct H as [->|[_ ->]]; [by rewrite decide_True|].
  by destruct (decide _).
Qed.

Lemma roused_runnable p p' : roused p p' → state p = Runnable → state p' = Runnable.
Proof. by intros [->|[? _]] ?; [|congruence]. Qed.

Lemma wake_one_roused c p : roused p (wake_one c p).
Proof. unfold wake_one. destruct (decide _) as [[]|]; [by right|by left]. Qed.

Lemma adopt_state i init q : state (adopt i init q) = state q ∧ p_chan (adopt i init q) = p_chan q ∧ ofile (adopt i init q) = ofile q.
Proof. unfold adopt. destruct init; [|done]. by destruct (decide _). Qed.

Lemma reparented_lookup i init l j q :
  l !! j = Some q → ∃ q', reparented i init l !! j = Some q' ∧ roused (adopt i init q) q' ∧
    (init = Some j → i ≠ j → has_child i l = true → state q = Sleeping → p_chan q = ProcChan j → state q' = Runnable).
Proof.
  intros Hq. destruct (adopt_state i init q) as (Hs & Hc & _). unfold reparented.
  assert ((adopt i init <$> l) !! j = Some (adopt i init q)) as Hl by (by rewrite list_lookup_fmap, Hq).
  destruct init as [k|]; [|by exists (adopt i None q)].
  destruct (bool_decide (i ≠ k) && has_child i l) eqn:Hb.
  - exists (wake_one (ProcChan k) (adopt i (Some k) q)). unfold wake. rewrite list_lookup_fmap, Hl.
    split_and!; [done|apply wake_one_roused|]. intros [= ->] _ _ H1 H2. eapply wake_asleep; [done|congruence|congruence].
  - exists (adopt i (Some k) q). split_and!; [done|done|]. intros [= ->] Hne Hh.
    by rewrite Hh, bool_decide_eq_true_2 in Hb.
Qed.

Lemma has_child_at i l k q : l !! k = Some q → parent q = Some i → has_child i l = true.
Proof.
  intros Hk Hq. apply existsb_exists. exists q. split; [by apply list_elem_of_In; eapply list_elem_of_lookup_2|].
  by apply bool_decide_eq_true.
Qed.

Lemma roused_parent p p' : roused p p' → parent p' = parent p.
Proof. by intros [->|[_ ->]]. Qed.

Lemma fds_ok_procs s l : fds_ok s → ofile <$> l = fd_tables s → fds_ok (set_procs l s).
Proof.
  intros [H1 H2 H3] Hl. assert (fd_tables (set_procs l s) = fd_tables s) as Ht by done.
  split; rewrite ?Ht; [|done|by apply ends_ok_procs]. apply table_ok_procs; [done|].
  apply (f_equal length) in Hl. unfold fd_tables in Hl. by rewrite !length_fmap in Hl.
Qed.

Lemma ofile_roused l l' : Forall2 roused l l' → ofile <$> l' = ofile <$> l.
Proof.
  induction 1 as [|p p' l l' Hp _ IH]; [done|]. rewrite !fmap_cons, IH. by rewrite (roused_ofile _ _ Hp).
Qed.

Lemma ofile_exit i init c code p (l : list Process) :
  l !! i = Some p → ofile <$> <[i := zombie code p]> (wake c (reparented i init l)) = ofile <$> l.
Proof.
  intros Hp. rewrite list_fmap_insert. rewrite (ofile_roused _ _ (wake_roused c _)), (ofile_roused _ _ (reparented_roused i init l)).
  assert (ofile <$> (adopt i init <$> l) = ofile <$> l) as ->.
  { rewrite <-list_fmap_compose. apply list_fmap_ext. intros ? q _. apply adopt_state. }
  apply list_insert_id. by rewrite list_lookup_fmap, Hp.
Qed.

(** What [exit] does not touch. *)
Record left_alone (s s' : kernel) : Prop := {
  la_console : console s' = console s;
  la_ram : k_ram s' = k_ram s;
  la_init : initproc s' = initproc s;
  la_cpu : cpu_proc s' = cpu_proc s;
  la_len : length (procs s') = length (procs s);
  la_inodes : inodes_follow s s';
}.

(** What [exit] leaves behind. *)
Lemma exit_zombie s i p code :
  fds_ok s → cpu_proc s = Some i → procs s !! i = Some p → state p = Running → parent p ≠ Some i →
  wp (exit_enter code) s (λ _ s',
    held s' = [LProc i] ∧ fds_ok (set_held [] s') ∧
    procs s' !! i = Some (zombie code (set_ofile (replicate (Z.to_nat NOFILE) None) p)) ∧ left_alone s s' ∧
    (∀ j q, j ≠ i → procs s !! j = Some q → ∃ q', procs s' !! j = Some q' ∧ roused (adopt i (initproc s) q) q' ∧
      (state q = Sleeping → p_chan q = ProcChan j → parent p = Some j → state q' = Runnable) ∧
      (state q = Sleeping → p_chan q = ProcChan j → initproc s = Some j →
         (∃ k c, procs s !! k = Some c ∧ parent c = Some i) → state q' = Runnable))).
Proof.
  intros Hok Hi Hp Hrun Hpar. eapply wp_mono; [by eapply exit_enter_spec|].
  intros [] s' (s1 & Hok1 & Hfr & Hfol & Hp1 & ->). pose proof (fd_table _ Hok1) as [_ Hheld _]. cbn in Hheld.
  set (l3 := wake _ _). split_and!; [done| | | |].
  - replace (set_held [] _) with (set_procs (<[i := zombie code (clear_fds (Z.to_nat NOFILE) p)]> l3) s1)
      by (by destruct s1; cbn in *; subst). apply fds_ok_procs; [done|]. by apply ofile_exit.
  - cbn. rewrite list_lookup_insert_eq.
    + unfold clear_fds. rewrite drop_ge, app_nil_r; [done|]. by rewrite (fds_len _ _ _ Hok Hp).
    + unfold l3. rewrite length_wake, length_reparented. by eapply lookup_lt_Some.
  - destruct Hfr as [F1 F2 F3 F4 F5 F6]. split; try done; [|etrans; [exact Hfol|by apply follow_same]].
    apply Forall2_length in F1. cbn in F1. rewrite length_alter in F1. cbn. unfold l3. by rewrite length_insert, length_wake, length_reparented.
  - intros j q Hj Hq. destruct (framed_at _ _ j q Hfr) as (q1 & Hq1 & Hr1); [cbn; by rewrite list_lookup_alter_ne|].
    destruct (reparented_lookup i (initproc s) _ j q1 Hq1) as (q2 & Hq2 & Hr2 & Hinit).
    set (c := proc_chan (parent p)) in *. exists (wake_one c q2). destruct (adopt_state i (initproc s) q) as (Hs & Hc & _).
    assert (roused (adopt i (initproc s) q) q2) as Hr12 by (etrans; [by apply adopt_roused|done]).
    split_and!.
    + cbn. rewrite list_lookup_insert_ne by done. unfold l3, wake. by rewrite list_lookup_fmap, Hq2.
    + etrans; [exact Hr12|apply wake_one_roused].
    + intros H1 H2 H3. eapply wake_asleep; [exact Hr12|congruence|]. unfold c. rewrite Hc, H2, H3. done.
    + intros H1 H2 H3 (k & ch & Hk & Hch). eapply roused_runnable; [apply wake_one_roused|].
      assert (k ≠ i) by (intros ->; by simplify_eq).
      destruct (framed_at _ _ k ch Hfr) as (ch1 & Hch1 & Hrc); [cbn; by rewrite list_lookup_alter_ne|].
      destruct Hr1 as [->|[_ ->]].
      * apply Hinit; try done. eapply has_child_at; [done|]. by rewrite (roused_parent _ _ Hrc).
      * eapply roused_runnable; [exact Hr2|]. by destruct (adopt_state i (initproc s) (set_state Runnable q)) as [-> _].
Qed.

(** C16: [exit] leaves the process a zombie with its exit code and no open
    descriptor, and what it had otherwise (in particular its memory, which [wait]
    will free); descriptors and open files of the system still agree.  Its
    children now belong to the first process, every other process is at most
    woken, and whoever must learn of the exit runs again: a parent asleep in
    [wait], and the first process asleep in [wait] if it has inherited a child.
    The call never faults and stops in the scheduler with only the lock of the
    process held. *)
Theorem exit_leaves_zombie s i p code :
  fds_ok s → cpu_proc s = Some i → procs s !! i = Some p → state p = Running → parent p ≠ Some i →
  wp (exit_enter code) s (λ _ s',
    held s' = [LProc i] ∧ fds_ok (set_held [] s') ∧
    procs s' !! i = Some (zombie code (set_ofile (replicate (Z.to_nat NOFILE) None) p)) ∧
    (∀ j q, j ≠ i → procs s !! j = Some q → ∃ q', procs s' !! j = Some q' ∧ roused (adopt i (initproc s) q) q' ∧
      (state q = Sleeping → p_chan q = ProcChan j → parent p = Some j → state q' = Runnable) ∧
      (state q = Sleeping → p_chan q = ProcChan j → initproc s = Some j →
         (∃ k c, procs s !! k = Some c ∧ parent c = Some i) → state q' = Runnable))).
Proof.
  intros. eapply wp_mono; [by apply exit_zombie|]. intros [] s' (? & ? & ? & _ & ?). done.
Qed.

Lemma exit_leaves_zombie_witness :
  let p := demo_proc Running (Some 0%nat) NoChan [Some 0; Some 0]%nat in
  wp (exit_enter 7) fd_kernel (λ _ s',
    held s' = [LProc 1] ∧ fds_ok (set_held [] s') ∧
    procs s' !! 1%nat = Some (zombie 7 (set_ofile (replicate (Z.to_nat NOFILE) None) p)) ∧
    (∀ j q, j ≠ 1%nat → procs fd_kernel !! j = Some q → ∃ q', procs s' !! j = Some q' ∧ roused (adopt 1 (Some 0%nat) q) q' ∧
      (state q = Sleeping → p_chan q = ProcChan j → parent p = Some j → state q' = Runnable) ∧
      (state q = Sleeping → p_chan q = ProcChan j → Some 0%nat = Some j →
         (∃ k c, procs fd_kernel !! k = Some c ∧ parent c = Some 1%nat) → state q' = Runnable))).
Proof. apply (exit_leaves_zombie fd_kernel 1); [apply fd_kernel_ok|done|done|done|done]. Defined.

(** The parent runs again, both references to the pipe end are gone and the pipe
    is free. *)
Example exit_run :
  match exit_enter 7 fd_kernel with
  | Ok (_, s) => Some (state <$> take 2 (procs s), f_refcnt <$> take 1 (ftable s), used <$> take 1 (pipes s))
  | Fault _ => None
  end = Some ([Runnable; Zombie], [0], [false]).
Proof. by vm_compute. Qed.
