(* ===== verification/Fork.v ===== *)
(** * Fork (src/src/proc.rs)

    [fork] gives the child a copy of the parent's memory in pages of its own, the
    parent's registers with a zero result, its descriptors and its working
    directory.  When memory or slots run out, nothing is left of the attempt. *)

From stdpp Require Import gmultiset.
From S2P Require Import Prelude Ring Spinlock FsBase Icache Kalloc Vm PageTable UserMem Space Kernel Sched Pipe Console File Proc ProcMem Syscall Descr Exit.

(** ** Pages of the copy *)

Definition rwx (perm : Z) : Prop := perm = PTE_R ∨ perm = PTE_W ∨ perm = PTE_X.

(** Page [w] of [T] has the contents and the permissions page [w] of [T0] had. *)
Definition page_same (m0 : gmap Z (list u8)) (T0 : ptree) (m : gmap Z (list u8)) (T : ptree) (w : Z) : Prop :=
  ∃ e0 e, L T0 !! w = Some e0 ∧ L T !! w = Some e ∧ is_user e0 = is_user e ∧
    (∀ perm, rwx perm → Z.land e perm = Z.land e0 perm) ∧ m !! pte_pa e = m0 !! pte_pa e0.

Lemma page_same_byte m0 T0 m T perm a :
  rwx perm → page_same m0 T0 m T (vpn a) → ubyte m T perm a = ubyte m0 T0 perm a.
Proof.
  intros Hp (e0 & e & H0 & H & Hu & Hperm & Hm). unfold ubyte, user_leaf. rewrite H0, H. destruct (MAXVA <=? a); [done|].
  cbn. rewrite Hu, (Hperm perm Hp). destruct (is_user e && _); [|done]. cbn. by rewrite Hm.
Qed.

(** Neither tree has a user page at [w]. *)
Lemma no_page_byte m0 T0 m T perm a :
  (∀ e, L T0 !! vpn a = Some e → is_user e = false) → (∀ e, L T !! vpn a = Some e → is_user e = false) →
  ubyte m T perm a = ubyte m0 T0 perm a.
Proof.
  intros H0 H. unfold ubyte, user_leaf. destruct (MAXVA <=? a); [done|].
  destruct (L T0 !! vpn a) as [e0|], (L T !! vpn a) as [e|]; cbn; rewrite ?(H0 _ eq_refl), ?(H _ eq_refl); done.
Qed.

Lemma page_same_frame m0 T0 m T m' T' w :
  page_same m0 T0 m T w → L T' !! w = L T !! w → (∀ e, L T !! w = Some e → m' !! pte_pa e = m !! pte_pa e) →
  page_same m0 T0 m' T' w.
Proof.
  intros (e0 & e & H0 & H & Hu & Hperm & Hm) HL Hm'. exists e0, e. rewrite HL, (Hm' e H). by split_and!.
Qed.

(** Two address spaces of the same size whose pages are the same. *)
Lemma spaces_same m0 T0 m T n perm a :
  rwx perm → proc_space T0 n → proc_space T n →
  (∀ w, 0 ≤ w < pages n ∨ w = STACK_VPN → page_same m0 T0 m T w) → ubyte m T perm a = ubyte m0 T0 perm a.
Proof.
  intros Hp H0 H Hsame. destruct (decide (0 ≤ vpn a < pages n ∨ vpn a = STACK_VPN)) as [Hin|Hout];
    [by apply page_same_byte; [|apply Hsame]|].
  assert (∀ T, proc_space T n → ∀ e, L T !! vpn a = Some e → is_user e = false) as Hno.
  { intros T' HT' e He. destruct (ps_only _ _ HT' _ _ He) as [?|[?|Hfix]]; [tauto|tauto|].
    destruct (ps_fixed _ _ HT' (vpn a) ltac:(tauto)) as (e' & He' & Hu'). congruence. }
  apply no_page_byte; by apply Hno.
Qed.

Lemma rwx_leaf p f perm : page_addr p → 0 ≤ f < 1024 → rwx perm → Z.land (leaf_bits p f) perm = Z.land f perm.
Proof.
  intros Hp Hf Hperm. rewrite land_leaf_bits by (try done; destruct Hperm as [-> | [-> | ->]]; done).
  unfold leaf_flags. rewrite !Z.land_lor_distr_l. destruct Hperm as [-> | [-> | ->]];
    change (Z.land PTE_V _) with 0; change (Z.land PTE_A _) with 0; change (Z.land PTE_D _) with 0; by rewrite !Z.lor_0_r.
Qed.

Lemma rwx_pte e perm : rwx perm → Z.land (pte_flags e) perm = Z.land e perm.
Proof. intros Hp. unfold pte_flags. rewrite <-Z.land_assoc. f_equal. by destruct Hp as [-> | [-> | ->]]. Qed.

(** ** Trees with equal leaves *)

Lemma proc_space_ext T T' n : proc_space T n → (∀ w, L T' !! w = L T !! w) → proc_space T' n ∧ user_frames T' n = user_frames T n.
Proof.
  intros [P1 P2 P3 P4 P5] HL. split.
  - split; [done|..]; intros *; rewrite ?HL; [apply P2|apply P3|apply P4|apply P5].
  - unfold user_frames. rewrite HL. f_equal. apply frames_ext. intros i _. apply HL.
Qed.

(** The trapframe of the child: the parent's registers, [a0] zero. *)
Definition fork_trapframe (dp dc : list u8) : list u8 :=
  splice (Z.to_nat A0) (le_bytes 8 0) (take TRAPFRAME_SIZE dp ++ drop TRAPFRAME_SIZE dc).

Lemma fork_trapframe_ok dp dc :
  page_ok dp → page_ok dc → page_ok (take TRAPFRAME_SIZE dp ++ drop TRAPFRAME_SIZE dc) ∧ page_ok (fork_trapframe dp dc).
Proof.
  intros [Hl Hb] [Hl' Hb']. assert (page_ok (take TRAPFRAME_SIZE dp ++ drop TRAPFRAME_SIZE dc)) as Hok.
  { split; [|apply Forall_app; split; [by apply Forall_take|by apply Forall_drop]].
    rewrite length_app, length_take, length_drop, Hl, Hl'. done. }
  split; [done|]. apply store64_page_ok; [done|]. by apply leb_complete.
Qed.

Section fork_mem.
Context (kernel_end : usize) (Hend_pos : 0 < kernel_end).

Local Abbreviation space_ok := (space_ok kernel_end).
Local Abbreviation kinv := (kinv kernel_end).
Local Abbreviation ram_page := (ram_page kernel_end).
Local Abbreviation proc_mem := (proc_mem kernel_end).
Local Abbreviation taking := (taking kernel_end).

(** The user stack has its page. *)
Definition stack_mapped (T : ptree) : Prop := ∃ ps, ram_page ps ∧ L T !! STACK_VPN = Some (leaf_bits ps URW).

(** The heap of the copy. *)
Lemma filled_heap m0 To Tn fl0 n m T fl :
  pages_filled kernel_end (old_flags To) (old_data m0 To) m0 Tn fl0 0 (Z.to_nat (pages n)) m T fl →
  (∀ w, 0 ≤ w < pages n → uflags (old_flags To w)) →
  0 ≤ n ≤ USER_STACK → proc_space Tn 0 → user_frames Tn 0 = [] →
  proc_space T n ∧ L T !! STACK_VPN = None ∧ user_frames T n ++ tables T ++ fl ≡ₚ tables Tn ++ fl0.
Proof.
  intros [G1 G2 G3 G4 G5 G6 G7] Hfl Hn Hps Huf. pose proof (pages_nonneg n ltac:(lia)) as Hp0.
  pose proof (proj1 (pages_stack n) ltac:(lia)) as Hp1. change (USER_STACK / PGSIZE) with STACK_VPN in Hp1.
  assert (L Tn !! STACK_VPN = None) as Hst.
  { unfold user_frames in Huf. by destruct (L Tn !! STACK_VPN). }
  assert (L T !! STACK_VPN = None) as Hst' by (rewrite G4 by vpn_lia; done). split_and!; [|done|].
  - split; [done| | | |].
    + intros w Hw. rewrite G4 by (vpn_lia). by apply (ps_fixed _ _ Hps).
    + intros w Hw. destruct (G5 w ltac:(lia)) as (q & Hq & Hrq & _). eexists. split; [exact Hq|].
      apply user_entry; [by eapply ram_page_addr|by apply Hfl].
    + by rewrite Hst'.
    + intros w e He. destruct (decide (0 ≤ w < pages n)) as [?|Hout]; [by left|]. rewrite G4 in He by lia.
      destruct (ps_only _ _ Hps w e He) as [Hw|?]; [change (pages 0) with 0 in Hw; lia|by right].
  - unfold user_frames. by rewrite Hst'.
Qed.

(** The stack of the copy. *)
Lemma filled_stack data m1 T1 fl1 n m T fl :
  pages_filled kernel_end (λ _, URW) data m1 T1 fl1 STACK_VPN 1 m T fl → proc_space T1 n → L T1 !! STACK_VPN = None →
  proc_space T n ∧ user_frames T n ++ tables T ++ fl ≡ₚ user_frames T1 n ++ tables T1 ++ fl1.
Proof.
  intros [G1 G2 G3 G4 G5 G6 G7] Hps Hst. pose proof (proc_pages_small T1 n Hps) as Hpg.
  destruct (G5 STACK_VPN ltac:(lia)) as (q & Hq & Hrq & _).
  destruct (user_entry q URW (ram_page_addr kernel_end Hend_pos q Hrq) uflags_URW) as [Hu Hpa].
  assert (∀ w, w ≠ STACK_VPN → L T !! w = L T1 !! w) as Hother by (intros w Hw; apply G4; lia). split.
  - destruct Hps as [P1 P2 P3 P4 P5]. split; [done| | | |].
    + intros w Hw. rewrite Hother by vpn_lia. by apply P2.
    + intros w Hw. rewrite Hother by vpn_lia. by apply P3.
    + rewrite Hq. by intros e [= <-].
    + intros w e. destruct (decide (w = STACK_VPN)) as [->|Hne]; [tauto|]. rewrite Hother by done. apply P5.
  - unfold user_frames. rewrite Hq, Hst. cbn [from_option]. rewrite Hpa.
    rewrite (frames_ext _ _ _ (L T1)) by (intros j Hj; apply Hother; vpn_lia).
    cbn [frames] in G6. rewrite Z.add_0_r, Hq in G6. cbn [default from_option id] in G6. rewrite Hpa in G6.
    rewrite <-G6. cbn [app]. by rewrite <-Permutation_middle.
Qed.

(** Only where the pages are and what the free list is matters. *)
Lemma proc_mem_eq m fl q oT m' q' :
  proc_mem m fl q oT → mem m' = mem m → head m' = head m → KMEM ∉ held m' →
  pagetable q' = pagetable q → trapframe q' = trapframe q → kstack q' = kstack q → sz q' = sz q → proc_mem m' fl q' oT.
Proof.
  intros [P1 P2 P3 P4] Hm Hh Hl E1 E2 E3 E4.
  assert (kinv m' fl) as Hk by (destruct P1 as [A B C D E _]; split; rewrite ?Hm, ?Hh; done).
  split; [done|by rewrite E2, E3| |unfold proc_pages; rewrite E2, E3, E4; exact P4].
  destruct oT as [T|]; [|congruence]. destruct P3 as (A & B & C). rewrite E1, E4. split_and!; [done| |done].
  eapply space_frame; [exact B|done|]. intros x Hx. rewrite Hm. split; [done|]. by apply (owned_used kernel_end _ _ _ _ B).
Qed.

(** ** The parent while the child is built *)
Section building.
Context (s : kernel) (fl : list Z) (c k i : nat) (p : Process) (T : ptree).
Context (Hh : k_held s = []) (Hc : procs s !! c = Some Process_unused) (Hroot : root_cached (k_fs s) k) (Hfl : NoDup fl).
Context (Hp : procs s !! i = Some p) (Hic : i ≠ c) (Hpar : proc_mem (ram_of s) fl p (Some T)).

Lemma parent_space : pagetable p = pt_root T ∧ space_ok (ram_of s) T fl ∧ proc_space T (sz p).
Proof. apply (pm_tree _ _ _ _ _ Hpar). Qed.

(** No page of the parent is free. *)
Lemma parent_pages_used x : x ∈ proc_pages p (Some T) → x ∉ fl.
Proof. intros Hx. pose proof (pm_nodup _ _ _ _ _ Hpar) as Hnd. apply NoDup_app in Hnd as (_ & Hd & _). by apply Hd. Qed.

Lemma parent_owns x : owns_page T x → x ∈ proc_pages p (Some T).
Proof.
  destruct parent_space as (_ & _ & Hps). rewrite (owned_frames T (sz p) x Hps). unfold proc_pages. cbn [from_option].
  rewrite !elem_of_app. tauto.
Qed.

Section at_step.
Context (q : Process) (oT : option ptree) (s1 : kernel) (fl1 : list Z) (Htk : taking s fl c k q oT s1 fl1).

Lemma parent_slot : procs s1 !! i = Some p.
Proof. rewrite (tk_state _ _ _ _ _ _ _ _ _ Htk). cbn. by rewrite list_lookup_insert_ne. Qed.

Lemma free_before x : x ∈ proc_pages q oT ++ fl1 → x ∈ fl.
Proof. by rewrite (tk_pages _ _ _ _ _ _ _ _ _ Htk). Qed.

Lemma parent_same x : x ∈ proc_pages p (Some T) → mem (ram_of s1) !! x = mem (k_ram s) !! x ∧ x ∉ proc_pages q oT ++ fl1.
Proof.
  intros Hx%parent_pages_used. split; [by apply (tk_frame _ _ _ _ _ _ _ _ _ Htk)|]. by intros ?%free_before.
Qed.

Lemma parent_kept : space_ok (ram_of s1) T fl1.
Proof.
  destruct parent_space as (_ & Hsp & _). eapply space_frame; [exact Hsp|apply (tk_mem _ _ _ _ _ _ _ _ _ Htk)|].
  intros x Hx%parent_owns%parent_same. rewrite not_elem_of_app in Hx. tauto.
Qed.

Lemma parent_apart Tn x : oT = Some Tn → owns_page T x → ¬ owns_page Tn x.
Proof.
  intros Ho Hx%parent_owns%parent_same Hn. destruct Hx as [_ Hx]. apply Hx. apply elem_of_app. left.
  pose proof (pm_tree _ _ _ _ _ (tk_mem _ _ _ _ _ _ _ _ _ Htk)) as HT. rewrite Ho in HT |- *. destruct HT as (_ & _ & Hps).
  rewrite (owned_frames Tn _ x Hps) in Hn.
  unfold proc_pages. cbn [from_option]. rewrite !elem_of_app. tauto.
Qed.
End at_step.

(** The parent's page behind a user page, when the copy has been made from [s1]. *)
Lemma old_parent q oT s1 fl1 w e :
  taking s fl c k q oT s1 fl1 → L T !! w = Some e → is_user e = true →
  Some (old_data (ram_of s1) T w) = mem (k_ram s) !! pte_pa e ∧ old_flags T w = pte_flags e ∧ uflags (old_flags T w).
Proof.
  intros Htk He Hu. destruct parent_space as (_ & Hsp & _).
  destruct (old_page kernel_end (ram_of s1) T fl1 (parent_kept q oT s1 fl1 Htk) w e He Hu) as (Hf & Ho & d & Hd & _ & Hdat).
  split_and!; [|unfold old_flags; by rewrite He|done]. rewrite Hdat, <-Hd. by apply (parent_same q oT s1 fl1 Htk), parent_owns.
Qed.

Lemma copied_page q oT s1 fl1 w e x f m2 T2 :
  taking s fl c k q oT s1 fl1 → L T !! w = Some e → is_user e = true → ram_page x → uflags f →
  (∀ perm, rwx perm → Z.land f perm = Z.land e perm) →
  L T2 !! w = Some (leaf_bits x f) → mem m2 !! x = Some (old_data (ram_of s1) T w) →
  page_same (mem (k_ram s)) T (mem m2) T2 w.
Proof.
  intros Htk He Hu Hx Hf Hperm H2 Hm2. pose proof (ram_page_addr kernel_end Hend_pos x Hx) as Hxa.
  destruct (user_entry x f Hxa Hf) as [Hux Hpx]. exists e, (leaf_bits x f). split_and!; [done|done|congruence| |].
  - intros perm Hp'. rewrite rwx_leaf by (done || apply Hf). by apply Hperm.
  - rewrite Hpx, Hm2. by destruct (old_parent q oT s1 fl1 w e Htk He Hu) as (-> & _).
Qed.

Lemma fork_heap q s1 fl1 Tn :
  taking s fl c k q (Some Tn) s1 fl1 → sz q = 0 → user_frames Tn 0 = [] →
  wp (in_ram (uvmcopy kernel_end (pagetable p) (pagetable q) (sz p))) s1 (λ r s2,
    (∀ x, x ∈ page_list (trapframe q) → mem (ram_of s2) !! x = mem (ram_of s1) !! x) ∧
    match r with
    | None => ∃ T2 fl2, taking s fl c k q (Some T2) s2 fl2
    | Some _ => procs s2 !! c = Some q ∧ ∃ T2 fl2, let q' := set_parent_sz (Some i) (sz p) q in
        taking s fl c k q' (Some T2) (set_procs (<[c := q']> (procs s2)) s2) fl2 ∧
        (∀ w, ¬ 0 ≤ w < pages (sz p) → L T2 !! w = L Tn !! w) ∧
        (∀ w, 0 ≤ w < pages (sz p) → page_same (mem (k_ram s)) T (mem (ram_of s2)) T2 w)
    end).
Proof.
  intros Htk Hsz Huf. pose proof Htk as [_ _ T3 T4 [Hk Hr (Hpt & Hspn & Hpsn) Hnd] T6 T7]. rewrite Hsz in Hpsn.
  destruct parent_space as (Hptp & Hsp & Hps). pose proof (ps_size _ _ Hps) as Hn. pose proof (proc_pages_small T _ Hps) as Hpg.
  pose proof (taking_slot kernel_end s fl c k Hc _ _ _ _ Htk) as Hq.
  assert (∀ w, 0 ≤ w < pages (sz p) → L Tn !! w = None) as Hfresh.
  { intros w Hw. destruct (L Tn !! w) as [e|] eqn:He; [|done]. pose proof (ps_only _ _ Hpsn w e He) as Hor.
    change (pages 0) with 0 in Hor. vpn_lia. }
  rewrite Hptp, Hpt. apply wp_ram.
  wp_call (uvmcopy_spec kernel_end Hend_pos (ram_of s1) T Tn fl1 (sz p)); [by eapply parent_kept|done| |done|apply Hps|done|].
  { intros x. by eapply parent_apart. }
  intros r m (T2 & fl2 & Hg). pose proof Hg as [G1 G2 G3 G4 G5 G6 G7]. split; [exact G3|]. intros s2 O <-.
  assert (∀ x, x ∉ proc_pages q (Some Tn) ++ fl1 → mem (ram_of s2) !! x = mem (ram_of s1) !! x) as Hframe.
  { intros x Hx. apply G7. unfold proc_pages in Hx. cbn [from_option] in Hx. rewrite !not_elem_of_app in *. tauto. }
  split.
  { intros x Hx. apply G7. unfold proc_pages in Hnd. cbn [from_option] in Hnd. rewrite <-!app_assoc in Hnd.
    apply NoDup_app in Hnd as (_ & Hd & _). specialize (Hd x Hx). rewrite !not_elem_of_app in *. tauto. }
  destruct r as [[]|].
  - split; [by rewrite O|]. exists T2, fl2. cbv zeta.
    assert (∀ w, 0 ≤ w < pages (sz p) → uflags (old_flags T w)) as Hufl.
    { intros w Hw. destruct (ps_heap _ _ Hps w Hw) as (e & He & Hu). by eapply old_parent. }
    destruct (filled_heap _ _ _ _ _ _ _ _ Hg Hufl Hn Hpsn Huf) as (Hps2 & Hst2 & Hpg2). split_and!.
    + eapply taking_next; try done; [apply G1| |].
      * split_and!; [by rewrite G2|done|done].
      * unfold proc_pages. cbn [trapframe kstack sz set_parent_sz from_option]. rewrite Hsz, Huf. cbn [app].
        by rewrite <-!app_assoc, Hpg2.
    + intros w Hw. apply G4. lia.
    + intros w Hw. destruct (ps_heap _ _ Hps w Hw) as (e & He & Hu). destruct (G5 w ltac:(lia)) as (x & Hx & Hrx & Hmx).
      destruct (old_parent q _ s1 fl1 w e Htk He Hu) as (_ & Hof & Huf').
      eapply copied_page; try done. intros perm Hp'. rewrite Hof. by apply rwx_pte.
  - exists T2, fl2. assert (∀ w, L T2 !! w = L Tn !! w) as HL by (intros w; apply G4; lia).
    destruct (proc_space_ext _ _ _ Hpsn HL) as [Hps2 Huf2].
    eapply taking_keep; try done; [apply G1|by rewrite Hsz, G2|].
    unfold proc_pages. cbn [from_option]. rewrite Hsz, Huf2, Huf. cbn [app]. cbn [frames app] in G6. by rewrite <-!app_assoc, G6.
Qed.

Lemma trapframe_apart q T2 s1 fl1 :
  taking s fl c k q (Some T2) s1 fl1 → ram_page (trapframe q) → (trapframe q ∉ tables T2 ++ fl1) ∧ ¬ owns_page T2 (trapframe q).
Proof.
  intros Htk Hr. pose proof (tk_mem _ _ _ _ _ _ _ _ _ Htk) as [_ _ (_ & _ & Hps) Hnd].
  unfold proc_pages in Hnd. rewrite (ram_page_list kernel_end Hend_pos) in Hnd by done. cbn [from_option app] in Hnd.
  apply NoDup_cons in Hnd as [Hn _]. rewrite (owned_frames T2 _ _ Hps). rewrite !not_elem_of_app in *. tauto.
Qed.

Lemma fork_registers q T2 s1 fl1 dp dc :
  taking s fl c k q (Some T2) s1 fl1 → ram_page (trapframe q) → ram_page (trapframe p) →
  mem (k_ram s) !! trapframe p = Some dp → mem (ram_of s1) !! trapframe q = Some dc →
  wp (in_ram (copy_trapframe (trapframe p) (trapframe q));; in_ram (store64 (trapframe q + A0) 0)) s1 (λ _ s2,
    taking s fl c k q (Some T2) s2 fl1 ∧ mem (ram_of s2) = <[trapframe q := fork_trapframe dp dc]> (mem (ram_of s1))).
Proof.
  intros Htk Hrq Hrp Hdp Hdc. destruct (trapframe_apart _ _ _ _ Htk Hrq) as [Hnt Hno].
  pose proof (tk_mem _ _ _ _ _ _ _ _ _ Htk) as [Hk Hr (Hpt & Hsp & Hps) Hnd].
  assert (mem (ram_of s1) !! trapframe p = Some dp) as Hdp1.
  { rewrite <-Hdp. apply (parent_same q _ s1 fl1 Htk). unfold proc_pages. rewrite (ram_page_list kernel_end Hend_pos (trapframe p)) by done. by left. }
  destruct (fork_trapframe_ok dp dc (ki_pages _ _ _ Hk _ _ Hdp1) (ki_pages _ _ _ Hk _ _ Hdc)) as [Hok1 Hok2].
  wp_step. apply wp_ram. unfold copy_trapframe. wp_step. eapply wp_load_page; [done|]. wp_step. eapply wp_load_page; [done|].
  apply wp_store_page; [by eexists|]. split; [done|]. intros s2 O2 Hm2.
  assert (mem (ram_of s2) !! trapframe q = Some (take TRAPFRAME_SIZE dp ++ drop TRAPFRAME_SIZE dc)) as Hd2
    by (rewrite Hm2; cbn; apply lookup_insert_eq).
  assert (pbase (trapframe q + A0) = trapframe q ∧ poff (trapframe q + A0) = A0) as [Hb Ho].
  { unfold pbase, poff, A0. destruct Hrq as [_ Hmod]. rewrite Z.add_mod, Hmod by mem_lia. change ((0 + 112 mod PGSIZE) mod PGSIZE) with 112. lia. }
  apply wp_ram. eapply wp_store64; [rewrite Hb; exact Hd2|]. split; [done|]. intros s3 O3 Hm3. rewrite Hb, Ho in Hm3.
  fold (fork_trapframe dp dc) in Hm3.
  assert (ram_of s3 = set_mem (<[trapframe q := fork_trapframe dp dc]> (mem (ram_of s1))) (ram_of s1)) as Hm.
  { rewrite Hm3, Hm2. cbn. by rewrite insert_insert_eq. }
  split; [|by rewrite Hm]. apply not_elem_of_app in Hnt as Hnt'.
  eapply taking_keep; try done.
  - eapply only_ram_trans; [exact O2|done].
  - rewrite Hm. apply kinv_store; try done. tauto.
  - split_and!; [done| |done]. rewrite Hm. by apply space_store.
  - intros x Hx. rewrite Hm. cbn. rewrite lookup_insert_ne; [done|]. intros <-. apply Hx.
    unfold proc_pages. rewrite (ram_page_list kernel_end Hend_pos (trapframe q)) by done. by left.
Qed.

Lemma fork_stack q s1 fl1 T2 ps :
  taking s fl c k q (Some T2) s1 fl1 → L T2 !! STACK_VPN = None → ram_page ps → L T !! STACK_VPN = Some (leaf_bits ps URW) →
  wp (in_ram (uvmcopy_stack kernel_end (pagetable p) (pagetable q))) s1 (λ r s2,
    match r with
    | None => ∃ T4 fl4, taking s fl c k q (Some T4) s2 fl4
    | Some _ => ∃ T4 fl4, taking s fl c k q (Some T4) s2 fl4 ∧
        (∀ w, w ≠ STACK_VPN → L T4 !! w = L T2 !! w) ∧ page_same (mem (k_ram s)) T (mem (ram_of s2)) T4 STACK_VPN ∧ stack_mapped T4 ∧
        (∀ x, x ∉ tables T2 ++ fl1 → mem (ram_of s2) !! x = mem (ram_of s1) !! x)
    end).
Proof.
  intros Htk Hst2 Hps Hst. pose proof (tk_mem _ _ _ _ _ _ _ _ _ Htk) as [Hk Hr (Hpt & Hspn & Hpsn) Hnd].
  destruct parent_space as (Hptp & Hsp & _).
  destruct (user_entry ps URW (ram_page_addr kernel_end Hend_pos ps Hps) uflags_URW) as [Hu Hpa].
  rewrite Hptp, Hpt. apply wp_ram.
  wp_call (uvmcopy_stack_spec kernel_end Hend_pos (ram_of s1) T T2 fl1); [by eapply parent_kept|done| |done|done|done|].
  { intros x. by eapply parent_apart. }
  intros r m (T4 & fl4 & Hg). pose proof Hg as [G1 G2 G3 G4 G5 G6 G7]. split; [exact G3|]. intros s2 O <-.
  assert (∀ x, x ∉ proc_pages q (Some T2) ++ fl1 → mem (ram_of s2) !! x = mem (ram_of s1) !! x) as Hframe.
  { intros x Hx. apply G7. unfold proc_pages in Hx. cbn [from_option] in Hx. rewrite !not_elem_of_app in *. tauto. }
  destruct r as [[]|]; exists T4, fl4.
  - destruct (filled_stack _ _ _ _ _ _ _ _ Hg Hpsn Hst2) as [Hps4 Hpg4]. split_and!; [|intros w Hw; apply G4; lia| | |done].
    + eapply taking_keep; try done; [apply G1|by rewrite G2|].
      unfold proc_pages. cbn [from_option]. by rewrite <-!app_assoc, Hpg4.
    + destruct (G5 STACK_VPN ltac:(lia)) as (x & Hx & Hrx & Hmx). eapply (copied_page q _ s1 fl1 STACK_VPN _ x URW); [done|done|done|done|apply uflags_URW| |done|done].
      intros perm Hp'. by rewrite rwx_leaf by (done || by eapply ram_page_addr).
    + destruct (G5 STACK_VPN ltac:(lia)) as (x & Hx & Hrx & Hmx). by exists x.
  - assert (∀ w, L T4 !! w = L T2 !! w) as HL by (intros w; apply G4; lia).
    destruct (proc_space_ext _ _ _ Hpsn HL) as [Hps4 Huf4]. eapply taking_keep; try done; [apply G1|by rewrite G2|].
    unfold proc_pages. cbn [from_option]. rewrite Huf4. cbn [frames app] in G6. by rewrite <-!app_assoc, G6.
Qed.
End building.
End fork_mem.

(** ** Descriptors of the child *)

Lemma files_ok_procs s refs l : files_ok s refs → files_ok (set_procs l s) refs.
Proof. by intros [A B C D E F]; split. Qed.

(** The first [n] descriptors have been shared. *)
Definition shared_fds (n : nat) (l : list (option nat)) : list (option nat) := take n l ++ drop n null_ofile.

Lemma shared_fds_S n l o :
  length l = Z.to_nat NOFILE → l !! n = Some o → shared_fds (S n) l = <[n := o]> (shared_fds n l).
Proof.
  intros Hl Hn. pose proof (lookup_lt_Some _ _ _ Hn) as Hlt. unfold shared_fds. rewrite (take_S_r l n o Hn).
  assert (null_ofile !! n = Some None) as Hnull by (apply lookup_replicate_2; lia).
  rewrite (drop_S null_ofile None n Hnull), <-app_assoc. rewrite insert_app_r_alt by (rewrite length_take; lia).
  rewrite length_take, Nat.min_l, Nat.sub_diag by lia. done.
Qed.

Lemma shared_fds_lookup n l : length l = Z.to_nat NOFILE → (n < Z.to_nat NOFILE)%nat → shared_fds n l !! n = Some None.
Proof.
  intros Hl Hn. unfold shared_fds. rewrite lookup_app_r by (rewrite length_take; lia). rewrite length_take, Nat.min_l by lia.
  rewrite lookup_drop. apply lookup_replicate_2. lia.
Qed.

Lemma length_shared_fds n l : length l = Z.to_nat NOFILE → length (shared_fds n l) = Z.to_nat NOFILE.
Proof. intros Hl. unfold shared_fds. rewrite length_app, length_take, length_drop, null_ofile_len. lia. Qed.

Section fork_fds.
Context (s1 : kernel) (i c : nat) (p q : Process).
Context (Hi : procs s1 !! i = Some p) (Hc : procs s1 !! c = Some q) (Hic : i ≠ c) (Hq : ofile q = null_ofile).
Context (Hlen : length (procs s1) = Z.to_nat NPROC) (Hlens : Forall (λ l, length l = Z.to_nat NOFILE) (fd_tables s1)).
Context (Hlock : FTABLE_LOCK ∉ held s1).

(** The state after [n] descriptors. *)
Record sharing (n : nat) (s : kernel) (ft : list File) : Prop := {
  sg_state : s = set_ftable ft (set_procs (<[c := set_ofile (shared_fds n (ofile p)) q]> (procs s1)) s1);
  sg_kinds : inode_of <$> ft = inode_of <$> ftable s1;
  sg_files : files_ok s (all_refs (fd_tables s));
  sg_ends : ends_ok s;
}.

Lemma parent_fds : length (ofile p) = Z.to_nat NOFILE.
Proof. eapply (Forall_lookup_1 _ _ i _ Hlens). unfold fd_tables. by rewrite list_lookup_fmap, Hi. Qed.

Lemma sharing_tables n s ft : sharing n s ft → fd_tables s = <[c := shared_fds n (ofile p)]> (fd_tables s1).
Proof. intros [-> _ _ _]. unfold fd_tables. cbn. by rewrite list_fmap_insert. Qed.

Lemma sharing_small n s ft x : sharing n s ft → Z.of_nat (multiplicity x (all_refs (fd_tables s))) ≤ 256.
Proof.
  intros Hs. rewrite (sharing_tables _ _ _ Hs). apply all_refs_small.
  - unfold fd_tables. by rewrite length_insert, length_fmap.
  - apply Forall_insert; [done|]. apply length_shared_fds, parent_fds.
Qed.

Lemma sharing_first : files_ok s1 (all_refs (fd_tables s1)) → ends_ok s1 → sharing 0 s1 (ftable s1).
Proof.
  intros Hf He. split; try done. change (shared_fds 0 (ofile p)) with null_ofile. rewrite <-Hq, list_insert_id; [by destruct s1|].
  rewrite Hc. by destruct q.
Qed.

(** One descriptor. *)
Lemma fork_fd_spec n s ft :
  sharing n s ft → (n < Z.to_nat NOFILE)%nat → wp (fork_fd i c n tt) s (λ _ s', ∃ ft', sharing (S n) s' ft').
Proof.
  intros Hs Hn. pose proof Hs as [S1 S2 S3 S4]. pose proof parent_fds as Hl. pose proof (lookup_lt_Some _ _ _ Hc) as Hlt.
  destruct (lookup_lt_is_Some_2 (ofile p) n) as [o Ho]; [lia|].
  assert (procs s !! i = Some p ∧ procs s !! c = Some (set_ofile (shared_fds n (ofile p)) q)) as [Hip Hcq].
  { rewrite S1. cbn. by rewrite list_lookup_insert_ne, list_lookup_insert_eq. }
  pose proof (shared_fds_S n (ofile p) o Hl Ho) as HS. pose proof (shared_fds_lookup n (ofile p) Hl Hn) as Hnone.
  unfold fork_fd. wp_step. eapply wp_proc_slot; [done|]. wp_step. eapply wp_expect; [done|]. destruct o as [f|]; cycle 1.
  { wp_steps. exists ft. rewrite (list_insert_id _ _ _ Hnone) in HS. split; [by rewrite HS|done..]. }
  assert (f ∈ all_refs (fd_tables s)) as Hf by (eapply all_refs_elem; [by apply (tables_lookup s i p)|exact Ho]).
  pose proof (sharing_small _ _ _ f Hs) as Hsmall.
  wp_call (file_dup_files f s); [done|done|unfold USIZE_MAX; lia|by rewrite S1|]. intros [] s' (Hf' & g & Hg & ->).
  set (g' := mkFile _ _ _ _) in *. wp_step. eapply wp_proc_slot; [exact Hcq|]. apply wp_set_proc.
  exists (<[f := g']> ft). rewrite S1 in Hg. cbn in Hg.
  assert (fd_tables (set_procs (<[c := set_ofile (shared_fds (S n) (ofile p)) q]> (procs s)) s) =
    <[c := <[n := Some f]> (shared_fds n (ofile p))]> (fd_tables s)) as Htabs.
  { unfold fd_tables. cbn. by rewrite list_fmap_insert, HS. }
  split.
  - rewrite HS. rewrite S1. unfold put_file, set_ftable, set_procs. cbn. by rewrite list_insert_insert_eq.
  - rewrite <-S2, list_fmap_insert. apply list_insert_id. by rewrite list_lookup_fmap, Hg.
  - assert (fd_tables s !! c = Some (shared_fds n (ofile p))) as Htc by (by rewrite (tables_lookup _ _ _ Hcq)).
    pose proof (all_refs_put _ _ _ _ _ (Some f) Htc Hnone) as Hrefs. rewrite refs_of_none, refs_of_one, (right_id_L ∅ (⊎)) in Hrefs.
    match goal with |- files_ok ?x _ => change (fd_tables x) with (fd_tables (set_procs (<[c := set_ofile (<[n := Some f]> (shared_fds n (ofile p))) q]> (procs s)) s)) end.
    rewrite <-HS, Htabs, Hrefs. by apply files_ok_procs.
  - apply ends_ok_procs. eapply ends_ok_put; [done|by rewrite S1|done].
Qed.

Lemma fork_fds_spec :
  files_ok s1 (all_refs (fd_tables s1)) → ends_ok s1 →
  wp (for_fold fds (fork_fd i c) tt) s1 (λ _ s2, ∃ ft,
    s2 = set_ftable ft (set_procs (<[c := set_ofile (ofile p) q]> (procs s1)) s1) ∧
    inode_of <$> ft = inode_of <$> ftable s1 ∧ files_ok s2 (all_refs (fd_tables s2)) ∧ ends_ok s2).
Proof.
  intros Hf He. apply (wp_for_fold (λ pre _ s, ∃ ft, sharing (length pre) s ft)).
  - exists (ftable s1). by apply sharing_first.
  - intros pre fd post [] s Hpre (ft & Hs).
    assert (fd = length pre ∧ (fd < Z.to_nat NOFILE)%nat) as [-> Hfd].
    { assert (fds !! length pre = Some fd) as Hx by (rewrite Hpre; by apply list_lookup_middle). apply lookup_seq in Hx. lia. }
    rewrite length_app, Nat.add_1_r. by eapply fork_fd_spec.
  - intros [] s (ft & [S1 S2 S3 S4]). exists ft. unfold fds in S1. rewrite length_seq in S1. unfold shared_fds in S1.
    rewrite take_ge, drop_ge, app_nil_r in S1 by (rewrite ?parent_fds, ?null_ofile_len; lia). by split_and!.
Qed.
End fork_fds.

(** ** References to inodes

    Open files and the working directories of processes refer to cached inodes;
    [leak] are references nobody will give back. *)

Definition cwd_of (p : Process) : option nat := if decide (state p = Unused) then None else Some (cwd p).

Definition inode_refs (s : kernel) (leak : gmultiset nat) : gmultiset nat :=
  refs_of (inode_of <$> ftable s) ⊎ refs_of (cwd_of <$> procs s) ⊎ leak.

Definition inodes_ok (s : kernel) (leak : gmultiset nat) : Prop :=
  icache_ok (k_fs s) (inode_refs s leak) ∧ ∀ j, Z.of_nat (multiplicity j (inode_refs s leak)) + 2 < USIZE_MAX.

Lemma icache_ok_icache f g refs : icache_ok f refs → icache g = icache f → icache_ok g refs.
Proof. intros [A B C D] H. split; rewrite ?H; done. Qed.

(** Slots keep their inode number and reference count. *)
Definition inode_ref (ip : Inode) : Z * Z := (inum ip, i_refcnt ip).
Definition same_inodes (f f' : fs) : Prop := inode_ref <$> icache f' = inode_ref <$> icache f.

Lemma same_inodes_lookup f f' j ip' :
  same_inodes f f' → icache f' !! j = Some ip' → ∃ ip, icache f !! j = Some ip ∧ inum ip' = inum ip ∧ i_refcnt ip' = i_refcnt ip.
Proof.
  intros H Hj. apply (f_equal (lookup j)) in H. rewrite !list_lookup_fmap, Hj in H. destruct (icache f !! j) as [ip|]; [|done].
  injection H as H1 H2. by exists ip.
Qed.

Lemma same_inodes_sym f f' : same_inodes f f' → same_inodes f' f.
Proof. unfold same_inodes. congruence. Qed.

Lemma icache_ok_same f f' refs : icache_ok f refs → same_inodes f f' → icache_ok f' refs.
Proof.
  intros [A B C D] H. assert (length (icache f') = length (icache f)) as Hl by (apply (f_equal length) in H; by rewrite !length_fmap in H).
  split; [congruence| |done|].
  - intros j ip' Hj. destruct (same_inodes_lookup _ _ _ _ H Hj) as (ip & Hip & _ & ->). by apply B.
  - intros i j ip' jp' Hi Hj. destruct (same_inodes_lookup _ _ _ _ H Hi) as (ip & Hip & -> & ->).
    destruct (same_inodes_lookup _ _ _ _ H Hj) as (jp & Hjp & -> & ->). by apply D.
Qed.

Lemma holds_same f f' j n : holds f j n → same_inodes f f' → holds f' j n.
Proof.
  intros (ip & Hip & Hn) H%same_inodes_sym. destruct (same_inodes_lookup _ _ _ _ H Hip) as (ip' & Hip' & E & _). exists ip'. split; [done|congruence].
Qed.

Lemma icache_add_ref k f g : icache f = icache g → icache (add_ref k f) = icache (add_ref k g).
Proof. intros H. unfold add_ref. rewrite H. destruct (icache g !! k); cbn; by rewrite H. Qed.

Lemma add_ref_inum k f : inum <$> icache (add_ref k f) = inum <$> icache f.
Proof.
  unfold add_ref. destruct (icache f !! k) as [ip|] eqn:Hk; [|done]. cbn. rewrite list_fmap_insert. apply list_insert_id.
  by rewrite list_lookup_fmap, Hk.
Qed.

Lemma cwd_referred s leak i p : procs s !! i = Some p → state p ≠ Unused → cwd p ∈ inode_refs s leak.
Proof.
  intros Hp Hs. unfold inode_refs. rewrite !gmultiset_elem_of_disj_union. left. right.
  apply (refs_of_elem _ i). rewrite list_lookup_fmap, Hp. cbn. unfold cwd_of. by rewrite decide_False.
Qed.

Lemma root_cached_ok f refs k :
  icache_ok f refs → (∀ j, Z.of_nat (multiplicity j refs) < USIZE_MAX) → k ∈ refs → holds f k ROOTINO → root_cached f k.
Proof.
  intros Hok Hmax Hk Hroot. destruct (holds_uses f refs k ROOTINO Hok Hk Hroot) as (ip & Hip & Hu). split.
  - apply Hok.
  - eauto.
  - intros j jp Hj Hju. unfold uses in *. apply andb_true_iff in Hju as [Hj1%Z.ltb_lt Hj2%Z.eqb_eq], Hu as [Hk1%Z.ltb_lt Hk2%Z.eqb_eq].
    eapply (ic_inj _ _ Hok); [done|done|done|done|congruence].
  - intros j jp Hj. rewrite (ic_count _ _ Hok j jp Hj). specialize (Hmax j). lia.
Qed.

Lemma add_ref_ok f refs k :
  icache_ok f refs → k ∈ refs → icache_ok (add_ref k f) (refs ⊎ {[+ k +]}).
Proof.
  intros Hok Hk. destruct (lookup_lt_is_Some_2 (icache f) k) as [ip Hip]; [rewrite (ic_len _ _ Hok); by apply Hok|].
  unfold add_ref. rewrite Hip. apply more_ref; [done|done|]. rewrite (ic_count _ _ Hok k ip Hip).
  rewrite elem_of_multiplicity in Hk. lia.
Qed.

Lemma has_ref_ok f refs k : icache_ok f refs → k ∈ refs → Z.of_nat (multiplicity k refs) ≤ USIZE_MAX → has_ref k f.
Proof.
  intros Hok Hk Hmax. destruct (lookup_lt_is_Some_2 (icache f) k) as [ip Hip]; [rewrite (ic_len _ _ Hok); by apply Hok|].
  exists ip. split; [done|]. rewrite (ic_count _ _ Hok k ip Hip). rewrite elem_of_multiplicity in Hk. lia.
Qed.

(** The file table needs no more than that references do not disappear. *)
Lemma files_ok_fs s refs s' :
  files_ok s refs → ftable s' = ftable s → pipes s' = pipes s →
  (∀ j ip, icache (k_fs s) !! j = Some ip → ∃ ip', icache (k_fs s') !! j = Some ip' ∧ i_refcnt ip ≤ i_refcnt ip' ≤ USIZE_MAX) →
  files_ok s' refs.
Proof.
  intros [A B C D E F] Hf Hq Hic. split; rewrite ?Hf, ?Hq; try done.
  intros j Hj. destruct (F j Hj) as (ip & Hip & Hb). destruct (Hic j ip Hip) as (ip' & Hip' & Hb'). exists ip'. split; [done|lia].
Qed.

Lemma add_ref_grows f k j ip :
  (∀ j ip, icache f !! j = Some ip → i_refcnt ip < USIZE_MAX) → icache f !! j = Some ip →
  ∃ ip', icache (add_ref k f) !! j = Some ip' ∧ i_refcnt ip ≤ i_refcnt ip' ≤ USIZE_MAX.
Proof.
  intros Hmax Hj. pose proof (Hmax j ip Hj). unfold add_ref. destruct (icache f !! k) as [kp|] eqn:Hk; [|exists ip; split; [done|lia]].
  cbn. destruct (decide (j = k)) as [->|Hne].
  - simplify_eq. rewrite list_lookup_insert_eq by (by eapply lookup_lt_Some). eexists. split; [done|]. cbn. lia.
  - rewrite list_lookup_insert_ne by done. exists ip. split; [done|lia].
Qed.

Lemma in_fs_idup s k :
  (∃ ip, icache (k_fs s) !! k = Some ip ∧ 1 ≤ i_refcnt ip < USIZE_MAX) → fs_unlocked (k_held s) →
  wp (in_fs (idup k)) s (λ r s', r = k ∧ only_fs s s' ∧ fs_of s' = add_ref k (fs_of s)).
Proof.
  intros (ip & Hk & Hr) Hl. apply wp_fs. wp_call (idup_spec k ip); [done|done|done|]. intros r f [-> ->].
  split; [done|]. intros s' Hs' ->. split_and!; [done|done|]. unfold add_ref. change (icache (fs_of s)) with (icache (k_fs s)). by rewrite Hk.
Qed.

(** ** The whole of [fork] *)

Section fork.
Context (kernel_end : usize) (Hend_pos : 0 < kernel_end).
Context (trampoline_start : usize) (Htramp : trampoline_start mod PGSIZE = 0) (Htramp0 : 0 ≤ trampoline_start < PHYSTOP).
Context (forkret : usize).

Local Abbreviation ram_page := (ram_page kernel_end).
Local Abbreviation proc_mem := (proc_mem kernel_end).
Local Abbreviation taking := (taking kernel_end).

(** A process that may call [fork]: it runs, its pages are its own, and its stack
    is mapped. *)
Record forkable (s : kernel) (fl : list Z) (leak : gmultiset nat) (k i : nat) (p : Process) (T : ptree) : Prop := {
  fb_fds : fds_ok s;
  fb_inodes : inodes_ok s leak;
  fb_root : k ∈ inode_refs s leak ∧ holds (k_fs s) k ROOTINO;
  fb_clean j q : procs s !! j = Some q → state q = Unused → q = Process_unused;
  fb_cpu : cpu_proc s = Some i;
  fb_proc : procs s !! i = Some p;
  fb_state : state p = Running;
  fb_mem : proc_mem (ram_of s) fl p (Some T);
  fb_tf : ram_page (trapframe p);
  fb_stack : stack_mapped kernel_end T;
}.

(** The child [q], in slot [c] with the page table [T']. *)
Record forked (s : kernel) (fl : list Z) (leak : gmultiset nat) (k i : nat) (p : Process) (T : ptree)
    (s' : kernel) (c : nat) (q : Process) (T' : ptree) (fl' : list Z) : Prop := {
  fk_slot : procs s !! c = Some Process_unused;
  fk_procs : procs s' = <[c := q]> (procs s);
  fk_child : q = mkProcess Runnable (next_pid s) (mkContext forkret (kstack q + PGSIZE) (replicate 12 0)) (Some i) 0 NoChan
                   (pt_root T') (trapframe q) (sz p) (kstack q) (ofile p) (cwd p);
  fk_mem : proc_mem (ram_of s') fl' q (Some T');
  fk_parent : proc_mem (ram_of s') fl' p (Some T);
  fk_pages : proc_pages q (Some T') ++ fl' ≡ₚ fl;
  fk_frame x : x ∉ fl → mem (k_ram s') !! x = mem (k_ram s) !! x;
  fk_tf : ram_page (trapframe q) ∧ ram_page (kstack q);
  fk_stack : stack_mapped kernel_end T';
  fk_bytes perm a : rwx perm → ubyte (mem (k_ram s')) T' perm a = ubyte (mem (k_ram s)) T perm a;
  fk_regs : ∃ d, mem (k_ram s) !! trapframe p = Some d ∧ mem (k_ram s') !! trapframe q = Some (fork_trapframe d zero_page);
  fk_fixed w : w = TRAMPOLINE_VPN ∨ w = TRAPFRAME_VPN → L T' !! w = fresh_leaves trampoline_start (trapframe q) !! w;
  fk_inodes : icache_ok (k_fs s') (inode_refs s' (leak ⊎ {[+ k +]}));
  fk_inums : inum <$> icache (k_fs s') = inum <$> icache (k_fs s);
  fk_rest : held s' = held s ∧ cpu_proc s' = cpu_proc s ∧ next_pid s' = (next_pid s + 1) mod 2 ^ 64 ∧
            initproc s' = initproc s ∧ pipes s' = pipes s ∧ console s' = console s;
}.

Section child.
Context (s : kernel) (fl : list Z) (leak : gmultiset nat) (k i : nat) (p : Process) (T : ptree).
Context (Hf : forkable s fl leak k i p T).

Lemma fork_held : k_held s = [].
Proof. apply (fd_table _ (fb_fds _ _ _ _ _ _ _ Hf)). Qed.

Lemma fork_root : root_cached (k_fs s) k.
Proof.
  destruct (fb_inodes _ _ _ _ _ _ _ Hf) as [Hok Hmax], (fb_root _ _ _ _ _ _ _ Hf) as [Hk Hh].
  eapply root_cached_ok; [done| |done|done]. intros j. specialize (Hmax j). lia.
Qed.

(** After the memory has been copied. *)
Record cloned (c : nat) (tf kst : usize) (s4 : kernel) (T4 : ptree) (fl4 : list Z) : Prop := {
  cl_slot : procs s !! c = Some Process_unused;
  cl_taking : taking s fl c k (set_parent_sz (Some i) (sz p) (newp k (next_pid s) (pt_root T4) tf kst)) (Some T4) s4 fl4;
  cl_tf : ram_page tf;
  cl_kst : ram_page kst;
  cl_stack : stack_mapped kernel_end T4;
  cl_bytes perm a : rwx perm → ubyte (mem (ram_of s4)) T4 perm a = ubyte (mem (k_ram s)) T perm a;
  cl_regs : ∃ d, mem (k_ram s) !! trapframe p = Some d ∧ mem (ram_of s4) !! tf = Some (fork_trapframe d zero_page);
  cl_fixed w : w = TRAMPOLINE_VPN ∨ w = TRAPFRAME_VPN → L T4 !! w = fresh_leaves trampoline_start tf !! w;
}.

Lemma fork_fail_spec c q oT s1 fl1 :
  procs s !! c = Some Process_unused → taking s fl c k q oT s1 fl1 →
  wp (fork_fail kernel_end c) s1 (λ r s', r = None ∧ undone kernel_end s fl s').
Proof.
  intros Hc Htk. unfold fork_fail. apply wp_assoc_r. wp_step.
  eapply wp_mono; [by eapply (giving_up kernel_end Hend_pos s fl c k fork_held Hc fork_root)|]. intros [] s' Hu. by wp_steps.
Qed.

(** The rest of [fork]: context, descriptors, working directory. *)
Definition fork_rest (c : nat) (kst : usize) : M kernel (option usize) :=
  sp ← add_at USIZE_MAX kst PGSIZE;
  q ← proc_slot c;
  set_proc c (mkProcess (state q) (pid q) (mkContext forkret sp (c_sregs (context q))) (parent q)
    (xstate q) (p_chan q) (pagetable q) (trapframe q) (sz q) (kstack q) (ofile q) (cwd q));;
  for_fold fds (fork_fd i c) tt;;
  p ← proc_slot i;
  r ← in_fs (idup (cwd p));
  q ← proc_slot c;
  set_proc c (mkProcess Runnable (pid q) (context q) (parent q) (xstate q) (p_chan q) (pagetable q)
    (trapframe q) (sz q) (kstack q) (ofile q) r);;
  release (LProc c);;
  mret (Some (pid q)).

Lemma parent_not_child c : procs s !! c = Some Process_unused → i ≠ c.
Proof.
  intros Hc ->. pose proof (fb_state _ _ _ _ _ _ _ Hf) as Hs. pose proof (fb_proc _ _ _ _ _ _ _ Hf) as Hp.
  rewrite Hc in Hp. injection Hp as Hp. by rewrite <-Hp in Hs.
Qed.

(** Registers and stack. *)
Lemma fork_copy_rest c pt tf kst T2 s2 fl2 (R : option usize → kernel → Prop) :
  let q2 := set_parent_sz (Some i) (sz p) (newp k (next_pid s) pt tf kst) in
  procs s !! c = Some Process_unused → taking s fl c k q2 (Some T2) s2 fl2 → ram_page tf → ram_page kst →
  mem (ram_of s2) !! tf = Some zero_page → L T2 !! STACK_VPN = None →
  (∀ w, w = TRAMPOLINE_VPN ∨ w = TRAPFRAME_VPN → L T2 !! w = fresh_leaves trampoline_start tf !! w) →
  (∀ w, 0 ≤ w < pages (sz p) → page_same (mem (k_ram s)) T (mem (ram_of s2)) T2 w) →
  (∀ q oT s1 fl1, taking s fl c k q oT s1 fl1 → wp (fork_fail kernel_end c) s1 R) →
  (∀ tf kst s4 T4 fl4, cloned c tf kst s4 T4 fl4 → wp (fork_rest c kst) s4 R) →
  wp (in_ram (copy_trapframe (trapframe p) tf);;
      in_ram (store64 (tf + A0) 0);;
      r ← in_ram (uvmcopy_stack kernel_end (pagetable p) pt);
      match r with None => fork_fail kernel_end c | Some _ => fork_rest c kst end) s2 R.
Proof.
  intros q2 Hc Htk2 Htf Hkst Hz Hst2 Hfix2 Hsame2 Hfail Hrest.
  pose proof (fb_proc _ _ _ _ _ _ _ Hf) as Hp. pose proof (fb_mem _ _ _ _ _ _ _ Hf) as Hpar. pose proof (fb_tf _ _ _ _ _ _ _ Hf) as Htfp.
  pose proof (parent_not_child c Hc) as Hic. pose proof (pm_kinv _ _ _ _ _ Hpar) as Hk0. pose proof (ki_nodup _ _ _ Hk0) as Hnd.
  destruct (pm_tree _ _ _ _ _ Hpar) as (_ & Hsp & Hps). pose proof (proc_pages_small _ _ Hps) as Hpg.
  destruct (fb_stack _ _ _ _ _ _ _ Hf) as (ps & Hrps & Hst). destruct (kinv_lookup _ _ _ _ Hk0 Htfp) as (d & Hd & Hdok).
  apply wp_assoc_r. wp_step.
  eapply wp_mono; [by apply (fork_registers kernel_end Hend_pos s fl c k i p T Hc Hnd Hic Hpar q2 T2 s2 fl2 d zero_page)|].
  intros [] s3 [Htk3 Hm3]. destruct (trapframe_apart kernel_end Hend_pos s fl c k q2 T2 s3 fl2 Htk3 Htf) as [Htf3 Hno3].
  change (trapframe q2) with tf in *. change pt with (pagetable q2).
  wp_call (fork_stack kernel_end Hend_pos s fl c k i p T Hc Hnd Hic Hpar q2 s3 fl2 T2 ps Htk3 Hst2 Hrps Hst).
  intros [[]|] s4; [|intros (T4 & fl4 & Htk4); by eapply Hfail]. intros (T4 & fl4 & Htk4 & Hother4 & Hsame4 & Hst4 & Hm4).
  pose proof (pm_tree _ _ _ _ _ (tk_mem _ _ _ _ _ _ _ _ _ Htk4)) as (Hpt4 & _ & Hps4).
  pose proof (pm_tree _ _ _ _ _ (tk_mem _ _ _ _ _ _ _ _ _ Htk3)) as (_ & Hsp3 & Hps3).
  apply (Hrest tf kst s4 T4 fl4). split; try done.
  - change (pagetable q2) with pt in Hpt4. by rewrite <-Hpt4.
  - intros perm a Hperm. apply (spaces_same _ _ _ _ (sz p) _ _ Hperm Hps Hps4). intros w [Hw| ->]; [|done].
    eapply page_same_frame; [by apply Hsame2|apply Hother4; vpn_lia|]. intros e He.
    destruct (ps_heap _ _ Hps3 w Hw) as (e' & He' & Hu'). simplify_eq. destruct (so_frame _ _ _ _ Hsp3 _ _ He Hu') as [_ Hn].
    rewrite Hm4, Hm3, lookup_insert_ne; [done| |done]. intros ->. apply Hno3. right. eauto.
  - exists d. split; [done|]. by rewrite Hm4, Hm3, lookup_insert_eq.
  - intros w Hw. rewrite Hother4 by vpn_lia. by apply Hfix2.
Qed.

(** The body of [fork] once it has a slot. *)
Lemma fork_copy c s1 (R : option usize → kernel → Prop) :
  procs s !! c = Some Process_unused → allocated kernel_end s fl c k trampoline_start s1 →
  (∀ s', undone kernel_end s fl s' → R None s') →
  (∀ tf kst s4 T4 fl4, cloned c tf kst s4 T4 fl4 → wp (fork_rest c kst) s4 R) →
  wp (q ← proc_slot c;
      set_proc c (set_parent_sz (Some i) (sz q) q);;
      p ← proc_slot i;
      r ← in_ram (uvmcopy kernel_end (pagetable p) (pagetable q) (sz p));
      match r with
      | None => fork_fail kernel_end c
      | Some _ =>
          q ← proc_slot c;
          set_proc c (set_parent_sz (Some i) (sz p) q);;
          in_ram (copy_trapframe (trapframe p) (trapframe q));;
          in_ram (store64 (trapframe q + A0) 0);;
          r ← in_ram (uvmcopy_stack kernel_end (pagetable p) (pagetable q));
          match r with
          | None => fork_fail kernel_end c
          | Some _ => fork_rest c (kstack q)
          end
      end) s1 R.
Proof.
  intros Hc (Tn & tf & kst & fl1 & HL & Htf & Hkst & Hz & Htk) Hundone Hrest.
  pose proof (fb_proc _ _ _ _ _ _ _ Hf) as Hp. pose proof (fb_mem _ _ _ _ _ _ _ Hf) as Hpar. pose proof (fb_tf _ _ _ _ _ _ _ Hf) as Htfp.
  pose proof (parent_not_child c Hc) as Hic.
  assert (∀ q oT s1 fl1, taking s fl c k q oT s1 fl1 → wp (fork_fail kernel_end c) s1 R) as Hfail.
  { intros q oT s' fl' Htk'. eapply wp_mono; [by eapply fork_fail_spec|]. intros r s'' [-> Hu]. by apply Hundone. }
  pose proof (pm_kinv _ _ _ _ _ Hpar) as Hk0. pose proof (ki_nodup _ _ _ Hk0) as Hnd.
  destruct (pm_tree _ _ _ _ _ Hpar) as (_ & Hsp & Hps). pose proof (proc_pages_small _ _ Hps) as Hpg.
  destruct (fresh_space kernel_end Hend_pos trampoline_start Htramp Htramp0 _ _ _ _ Htf
    (so_own _ _ _ _ (proj1 (proj2 (pm_tree _ _ _ _ _ (tk_mem _ _ _ _ _ _ _ _ _ Htk))))) HL) as (_ & _ & Huf).
  (* the parent is recorded *)
  set (q0 := newp k _ _ _ _) in Htk. wp_step. eapply wp_proc_slot; [by eapply taking_slot|]. wp_step. apply wp_set_proc.
  set (q1 := set_parent_sz (Some i) (sz q0) q0).
  assert (taking s fl c k q1 (Some Tn) (set_procs (<[c := q1]> (procs s1)) s1) fl1) as Htk1.
  { pose proof (tk_mem _ _ _ _ _ _ _ _ _ Htk) as [M1 M2 M3 M4]. eapply taking_next; try done. apply only_ram_refl. }
  change (ram_of s1) with (ram_of (set_procs (<[c := q1]> (procs s1)) s1)) in Hz.
  set (s1' := set_procs _ s1) in *. clearbody s1'. clear Htk s1.
  (* the heap *)
  wp_step. eapply wp_proc_slot; [by eapply parent_slot|].
  wp_call (fork_heap kernel_end Hend_pos s fl c k i p T Hc Hnd Hic Hpar q1 s1' fl1 Tn Htk1 eq_refl Huf).
  intros r s2 [Hz2 Hr]. specialize (Hz2 tf). rewrite Hz in Hz2. destruct r as [[]|]; [|destruct Hr as (T2 & fl2 & Htk2); by eapply Hfail].
  destruct Hr as (Hq2 & T2 & fl2 & Htk2 & Hother2 & Hsame2). cbv zeta in Htk2.
  wp_step. eapply wp_proc_slot; [done|]. wp_step. apply wp_set_proc. set (q2 := set_parent_sz (Some i) (sz p) q1) in *.
  assert (mem (ram_of s2) !! tf = Some zero_page) as Hz2'.
  { apply Hz2. change (trapframe q1) with tf. rewrite (ram_page_list kernel_end Hend_pos) by done. by left. }
  change (ram_of s2) with (ram_of (set_procs (<[c := q2]> (procs s2)) s2)) in Hz2', Hsame2.
  set (s2' := set_procs _ s2) in *. clearbody s2'.
  eapply (fork_copy_rest c (pt_root Tn) tf kst T2 s2' fl2); try done.
  - rewrite Hother2 by vpn_lia. rewrite HL. unfold fresh_leaves. by rewrite lookup_insert_ne, lookup_singleton_ne.
  - intros w Hw. rewrite Hother2 by vpn_lia. by rewrite HL.
Qed.

(** *** References *)

Lemma fork_icache :
  icache_ok (add_ref k (k_fs s)) (inode_refs s leak ⊎ {[+ k +]}) ∧
  icache_ok (add_ref (cwd p) (add_ref k (k_fs s))) (inode_refs s leak ⊎ {[+ k +]} ⊎ {[+ cwd p +]}).
Proof.
  destruct (fb_inodes _ _ _ _ _ _ _ Hf) as [Hok _], (fb_root _ _ _ _ _ _ _ Hf) as [Hk _].
  assert (cwd p ∈ inode_refs s leak) as Hcwd.
  { eapply cwd_referred; [apply (fb_proc _ _ _ _ _ _ _ Hf)|]. by rewrite (fb_state _ _ _ _ _ _ _ Hf). }
  pose proof (add_ref_ok _ _ _ Hok Hk) as Hok1. split; [done|]. apply add_ref_ok; [done|].
  apply gmultiset_elem_of_disj_union. by left.
Qed.

(** A reference count has room for what [fork] adds. *)
Lemma fork_room f refs j ip :
  icache_ok f refs → (∀ j, (multiplicity j refs ≤ multiplicity j (inode_refs s leak) + 1)%nat) →
  icache f !! j = Some ip → i_refcnt ip < USIZE_MAX.
Proof.
  intros Hok Hle Hj. destruct (fb_inodes _ _ _ _ _ _ _ Hf) as [_ Hmax].
  rewrite (ic_count _ _ Hok j ip Hj). specialize (Hle j). specialize (Hmax j). lia.
Qed.

Lemma fork_ref_room j ip : icache (add_ref k (k_fs s)) !! j = Some ip → i_refcnt ip < USIZE_MAX.
Proof.
  apply (fork_room _ _ _ _ (proj1 fork_icache)). intros x. rewrite multiplicity_disj_union.
  destruct (decide (x = k)) as [->|]; [rewrite multiplicity_singleton_eq|rewrite multiplicity_singleton_ne by done]; lia.
Qed.

Lemma fork_grows j ip :
  icache (k_fs s) !! j = Some ip →
  (∃ ip', icache (add_ref k (k_fs s)) !! j = Some ip' ∧ i_refcnt ip ≤ i_refcnt ip' ≤ USIZE_MAX) ∧
  (∃ ip', icache (add_ref (cwd p) (add_ref k (k_fs s))) !! j = Some ip' ∧ i_refcnt ip ≤ i_refcnt ip' ≤ USIZE_MAX).
Proof.
  destruct (fb_inodes _ _ _ _ _ _ _ Hf) as [Hok _]. intros Hj.
  assert (∀ j ip, icache (k_fs s) !! j = Some ip → i_refcnt ip < USIZE_MAX) as R0.
  { intros j' ip'. apply (fork_room _ _ _ _ Hok). lia. }
  destruct (add_ref_grows _ k _ _ R0 Hj) as (ip1 & Hj1 & Hb1). split; [eauto|].
  destruct (add_ref_grows _ (cwd p) _ _ fork_ref_room Hj1) as (ip2 & Hj2 & Hb2). exists ip2. split; [done|lia].
Qed.

Lemma fork_cwd f :
  icache f = icache (add_ref k (k_fs s)) → ∃ ip, icache f !! cwd p = Some ip ∧ 1 ≤ i_refcnt ip < USIZE_MAX.
Proof.
  intros ->. destruct fork_icache as [Hok _].
  assert (cwd p ∈ inode_refs s leak ⊎ {[+ k +]}) as Hin.
  { apply gmultiset_elem_of_disj_union. left. eapply cwd_referred; [apply (fb_proc _ _ _ _ _ _ _ Hf)|]. by rewrite (fb_state _ _ _ _ _ _ _ Hf). }
  destruct (lookup_lt_is_Some_2 (icache (add_ref k (k_fs s))) (cwd p)) as [ip Hip]; [rewrite (ic_len _ _ Hok); by apply Hok|].
  exists ip. split; [done|]. split; [|by eapply fork_ref_room].
  rewrite (ic_count _ _ Hok _ _ Hip). rewrite elem_of_multiplicity in Hin. lia.
Qed.

(** The references of a kernel in which the child has the parent's directory. *)
Lemma forked_refs s' c q :
  procs s !! c = Some Process_unused → procs s' = <[c := q]> (procs s) → inode_of <$> ftable s' = inode_of <$> ftable s →
  state q ≠ Unused → cwd q = cwd p →
  inode_refs s' (leak ⊎ {[+ k +]}) = inode_refs s leak ⊎ {[+ k +]} ⊎ {[+ cwd p +]}.
Proof.
  intros Hc Hps Hft Hst Hcwd. unfold inode_refs. rewrite Hps, Hft, list_fmap_insert.
  assert ((cwd_of <$> procs s) !! c = Some None) as Hn by (by rewrite list_lookup_fmap, Hc).
  assert (cwd_of q = Some (cwd p)) as Hq by (unfold cwd_of; by rewrite decide_False, Hcwd).
  pose proof (refs_of_insert _ c None (cwd_of q) Hn) as Hr. rewrite Hq, refs_of_none, refs_of_one, (right_id_L ∅ (⊎)) in Hr.
  rewrite Hq, Hr, <-!(assoc_L (⊎)). do 2 f_equal. by rewrite (comm_L (⊎)), <-(assoc_L (⊎)).
Qed.

(** *** From the copy to the child *)

Definition set_context (ctx : Context) (q : Process) : Process :=
  mkProcess (state q) (pid q) ctx (parent q) (xstate q) (p_chan q) (pagetable q) (trapframe q) (sz q) (kstack q) (ofile q) (cwd q).

Lemma cloned_fds c tf kst s4 T4 fl4 ctx :
  cloned c tf kst s4 T4 fl4 →
  let q4 := set_parent_sz (Some i) (sz p) (newp k (next_pid s) (pt_root T4) tf kst) in
  let s5 := set_procs (<[c := set_context ctx q4]> (procs s4)) s4 in
  files_ok s5 (all_refs (fd_tables s5)) ∧ ends_ok s5 ∧ fd_tables s5 = fd_tables s ∧ procs s5 = <[c := set_context ctx q4]> (procs s) ∧
  held s5 = [LProc c].
Proof.
  intros [Hc Htk _ _ _ _ _ _] q4 s5. pose proof Htk as [T1 T2 _ _ _ _ _]. destruct (fb_fds _ _ _ _ _ _ _ Hf) as [[Hfo _ _] _ He].
  assert (procs s5 = <[c := set_context ctx q4]> (procs s)) as Hps.
  { unfold s5. rewrite T1. cbn. by rewrite list_insert_insert_eq. }
  assert (fd_tables s5 = fd_tables s) as Ht.
  { unfold fd_tables. rewrite Hps, list_fmap_insert. apply list_insert_id. by rewrite list_lookup_fmap, Hc. }
  assert (ftable s5 = ftable s ∧ pipes s5 = pipes s) as [Hft Hpi] by (unfold s5; by rewrite T1).
  split_and!; [|by eapply ends_ok_eq|done|done|unfold s5; by rewrite T1]. rewrite Ht. eapply files_ok_fs; [done|done|done|].
  assert (icache (k_fs s5) = icache (add_ref k (k_fs s))) as -> by exact (f_equal icache T2). intros j ip Hj. apply fork_grows, Hj.
Qed.

Lemma cloned_child c tf kst s4 T4 fl4 s' q :
  cloned c tf kst s4 T4 fl4 →
  q = mkProcess Runnable (next_pid s) (mkContext forkret (kst + PGSIZE) (replicate 12 0)) (Some i) 0 NoChan
        (pt_root T4) tf (sz p) kst (ofile p) (cwd p) →
  procs s' = <[c := q]> (procs s) → inode_of <$> ftable s' = inode_of <$> ftable s →
  icache (k_fs s') = icache (add_ref (cwd p) (add_ref k (k_fs s))) → k_ram s' = k_ram s4 → held s' = [] →
  cpu_proc s' = cpu_proc s → next_pid s' = next_pid s4 → initproc s' = initproc s → pipes s' = pipes s → console s' = console s →
  forked s fl leak k i p T s' c q T4 fl4.
Proof.
  intros [Hc Htk Htf Hkst Hst' Hbytes Hregs Hfix] Hq Hps Hft Hic Hram Hh H1 H2 H3 H4 H5.
  pose proof (fb_proc _ _ _ _ _ _ _ Hf) as Hp. pose proof (fb_mem _ _ _ _ _ _ _ Hf) as Hpar.
  pose proof (parent_not_child c Hc) as Hic'. pose proof (ki_nodup _ _ _ (pm_kinv _ _ _ _ _ Hpar)) as Hnd.
  pose proof (parent_kept kernel_end s fl c k p T Hpar _ _ s4 fl4 Htk) as Hkept.
  pose proof Htk as [T1 T2 _ _ T5 T6 T7].
  assert (mem (ram_of s') = mem (ram_of s4) ∧ head (ram_of s') = head (ram_of s4)) as [Hm Hhd] by (unfold ram_of; by rewrite Hram).
  assert (KMEM ∉ held (ram_of s')) as Hkm by (change (held (ram_of s')) with (held s'); rewrite Hh; apply not_elem_of_nil).
  assert (proc_mem (ram_of s') fl4 q (Some T4)) as Hmem.
  { eapply proc_mem_eq; [exact T5|done|done|done|by rewrite Hq..]. }
  split; try done.
  - by rewrite Hq.
  - destruct Hpar as [P1 P2 (P3 & P4 & P5) P6]. split; [apply Hmem|done| |].
    + split_and!; [done| |done]. eapply space_frame; [exact Hkept|apply Hmem|]. intros x Hx. rewrite Hm. split; [done|].
      by apply (owned_used kernel_end _ _ _ _ Hkept).
    + apply NoDup_app in P6 as (P6 & P7 & _). apply NoDup_app. split_and!; [done| |apply (pm_kinv _ _ _ _ _ Hmem)].
      intros x Hx Hin. apply (P7 x Hx). rewrite <-T6. apply elem_of_app. by right.
  - by rewrite Hq.
  - intros x Hx. change (mem (k_ram s')) with (mem (ram_of s')). rewrite Hm. by apply T7.
  - by rewrite Hq.
  - intros perm a Ha. change (mem (k_ram s')) with (mem (ram_of s')). rewrite Hm. by apply Hbytes.
  - destruct Hregs as (d & Hd & Hd'). exists d. change (mem (k_ram s')) with (mem (ram_of s')). by rewrite Hm, Hq.
  - by rewrite Hq.
  - rewrite (forked_refs s' c q) by (done || by rewrite Hq). eapply icache_ok_icache; [apply fork_icache|done].
  - by rewrite Hic, !add_ref_inum.
  - split_and!; try done; [rewrite Hh; symmetry; exact fork_held|]. rewrite H2, T1. done.
Qed.

Lemma fork_rest_spec c tf kst s4 T4 fl4 :
  cloned c tf kst s4 T4 fl4 →
  wp (fork_rest c kst) s4 (λ r s', r = Some (next_pid s) ∧ fds_ok s' ∧ ∃ q, forked s fl leak k i p T s' c q T4 fl4).
Proof.
  intros Hcl. pose proof Hcl as [Hc Htk Htf Hkst _ _ _ _]. pose proof (lookup_lt_Some _ _ _ Hc) as Hlt.
  pose proof (parent_not_child c Hc) as Hic. pose proof (fb_proc _ _ _ _ _ _ _ Hf) as Hp.
  unfold fork_rest. wp_step. apply wp_add_at; [destruct Hkst as [? _]; unfold USIZE_MAX, PHYSTOP, PGSIZE in *; lia|].
  wp_step. eapply wp_proc_slot; [by eapply taking_slot|]. wp_step. apply wp_set_proc.
  set (q4 := set_parent_sz _ _ _) in *. set (ctx := mkContext _ _ _). change (mkProcess _ _ ctx _ _ _ _ _ _ _ _ _) with (set_context ctx q4).
  pose proof (cloned_fds c tf kst s4 T4 fl4 ctx Hcl) as (Hfo & He & Ht & Hps & Hh). fold q4 in Hfo, He, Ht, Hps, Hh.
  set (s5 := set_procs _ s4) in *. destruct (fb_fds _ _ _ _ _ _ _ Hf) as [[_ _ Hlen] Hlens _].
  wp_call (fork_fds_spec s5 i c p (set_context ctx q4)); try done.
  { by rewrite Hps, list_lookup_insert_ne. }
  { by rewrite Hps, list_lookup_insert_eq. }
  { by rewrite Hps, length_insert. }
  { by rewrite Ht. }
  { rewrite Hh. not_in. }
  intros [] s6 (ft & Hs6 & Hft & Hfo6 & He6). set (q6 := set_ofile _ _) in Hs6.
  assert (procs s6 = <[c := q6]> (procs s)) as Hps6 
    by (etrans; [by rewrite Hs6|]; rewrite Hps; apply list_insert_insert_eq).
  wp_step. eapply wp_proc_slot; [rewrite Hps6, list_lookup_insert_ne by done; exact Hp|].
  assert (icache (fs_of s6) = icache (add_ref k (k_fs s))) as Hic6 by (rewrite Hs6; exact (f_equal icache (tk_fs _ _ _ _ _ _ _ _ _ Htk))).
  wp_call (in_fs_idup s6 (cwd p)); [by apply fork_cwd|rewrite Hs6; change (k_held _) with (held s5); rewrite Hh; split; intros; not_in|].
  intros r s7 (-> & O7 & Hfs7%(f_equal icache)). rewrite (icache_add_ref _ _ _ Hic6) in Hfs7. change (icache (fs_of s7)) with (icache (k_fs s7)) in Hfs7.
  unfold only_fs in O7. revert O7 Hfs7. generalize (k_fs s7). intros f7 -> Hfs7.
  wp_step. eapply wp_proc_slot; [etrans; [exact (f_equal (lookup c) Hps6)|]; by apply list_lookup_insert_eq|].
  wp_step. apply wp_set_proc. set (q' := mkProcess Runnable _ _ _ _ _ _ _ _ _ _ _). wp_step.
  eapply (wp_release_in _ [] []); [rewrite Hs6; exact Hh|not_in|]. wp_steps. split; [done|].
  set (s' := set_held _ _).
  assert (procs s' = <[c := q']> (procs s)) as Hps' by (change (<[c := q']> (procs s6) = <[c := q']> (procs s)); rewrite Hps6; apply list_insert_insert_eq).
  assert (fd_tables s' = fd_tables s6) as Ht' by (unfold fd_tables; by rewrite Hps', Hps6, !list_fmap_insert).
  pose proof (tk_state _ _ _ _ _ _ _ _ _ Htk) as T1. split.
  - split; rewrite ?Ht'.
    + split; [|done|by rewrite Hps', length_insert]. eapply files_ok_fs; [exact Hfo6|done|done|].
      change (k_fs s') with f7. rewrite Hfs7. change (icache (k_fs s6)) with (icache (fs_of s6)). rewrite Hic6.
      intros j ip. apply add_ref_grows, fork_ref_room.
    + unfold fd_tables. rewrite Hps6, list_fmap_insert. apply Forall_insert; [done|]. by apply (fds_len s i p); [apply (fb_fds _ _ _ _ _ _ _ Hf)|].
    + by eapply ends_ok_eq.
  - exists q'. eapply cloned_child; try done; try (unfold s'; rewrite Hs6; unfold s5; rewrite T1; done).
    change (inode_of <$> ftable s6 = inode_of <$> ftable s). rewrite Hs6. etrans; [exact Hft|]. unfold s5. by rewrite T1.
Qed.

Lemma fork_spec :
  wp (fork kernel_end trampoline_start forkret) s (λ r s',
    match r with
    | Some n => n = next_pid s ∧ fds_ok s' ∧ ∃ c q T' fl', forked s fl leak k i p T s' c q T' fl'
    | None => (∀ j q, procs s !! j = Some q → state q ≠ Unused) ∧ s' = s ∨ undone kernel_end s fl s'
    end).
Proof.
  pose proof (fb_fds _ _ _ _ _ _ _ Hf) as [[_ _ Hlen] _ _]. unfold fork. wp_step.
  eapply wp_myproc; [apply (fb_cpu _ _ _ _ _ _ _ Hf)|].
  wp_call (allocproc_spec kernel_end Hend_pos s fl k fork_held Hlen fork_root (pm_kinv _ _ _ _ _ (fb_mem _ _ _ _ _ _ _ Hf))
    (fb_clean _ _ _ _ _ _ _ Hf) trampoline_start Htramp Htramp0).
  intros [c|] s1; [|intros H; wp_steps; exact H]. intros [Hc Ha].
  eapply (fork_copy c s1); [done|done|by right|].
  intros tf kst s4 T4 fl4 Hcl. eapply wp_mono; [by eapply fork_rest_spec|].
  intros r s' (-> & Hok & q & Hfk). split_and!; [done|done|]. by exists c, q, T4, fl4.
Qed.
End child.
End fork.
