(* ===== verification/Loader.v ===== *)
(** * What the loader builds (src/src/loader.rs)

    The image an ELF file describes, and the proof that the loader, reading from
    memory or from a file, builds it: page after page with the bytes and the
    permissions of the segments, zeros behind them and a stack at the top; when it
    fails, every page has been given back. *)

From S2P Require Import Prelude Spinlock FsBase Bcache Balloc Bmap Inode Icache Kalloc Vm PageTable UserMem Space Kernel Proc ProcMem Exec Fork.

(** ** The image of a file *)

(** Page [i] of a segment: bytes of the file, then zeros. *)
Definition segment_page (elf : list u8) (h : Phdr) (i : Z) : list u8 :=
  let off := PGSIZE * i in
  splice 0 (if off <? p_filesz h
            then slice (Z.to_nat (p_offset h + off)) (Z.to_nat (Z.min PGSIZE (p_filesz h - off))) elf
            else []) zero_page.

(** The pages of a segment with their permissions. *)
Definition segment_image (elf : list u8) (h : Phdr) : list (Z * list u8) :=
  (λ i, (segment_perm h, segment_page elf h i)) <$> seqZ 0 (pages (p_memsz h)).

Definition elf_ehdr (elf : list u8) : Ehdr := Ehdr_of_bytes (take (Z.to_nat EHDR_SIZE) elf).

Definition elf_phdr (elf : list u8) (i : Z) : Phdr :=
  Phdr_of_bytes (slice (Z.to_nat (e_phoff (elf_ehdr elf) + i * PHDR_SIZE)) (Z.to_nat PHDR_SIZE) elf).

Definition segments_below (elf : list u8) (n : Z) : list Phdr :=
  filter (λ h, p_type h = PT_LOAD) (elf_phdr elf <$> range 0 n).

Definition segments (elf : list u8) : list Phdr := segments_below elf (e_phnum (elf_ehdr elf)).

Definition elf_image (elf : list u8) : list (Z * list u8) := segments elf ≫= segment_image elf.

(** The layout the loader relies on: the segments follow each other from address
    0 without a gap, end below the stack, and every one of them can be read,
    written or executed. *)
Fixpoint laid_out (k : Z) (hs : list Phdr) : bool :=
  match hs with
  | [] => k <=? STACK_VPN
  | h :: hs =>
      (p_vaddr h =? PGSIZE * k) && negb (Z.land (p_flags h) 7 =? 0) && (p_offset h + p_memsz h <=? USIZE_MAX) &&
      laid_out (k + pages (p_memsz h)) hs
  end.

(** The program headers lie in the file. *)
Definition headers_fit (elf : list u8) : bool :=
  (e_phoff (elf_ehdr elf) + e_phnum (elf_ehdr elf) * PHDR_SIZE <=? Z.of_nat (length elf)).

Definition loadable (elf : list u8) : bool := headers_fit elf && laid_out 0 (segments elf).

(** The file has the bytes of the segment. *)
Definition segment_fits (elf : list u8) (h : Phdr) : Prop :=
  p_filesz h ≤ p_memsz h ∧ (0 < p_filesz h → p_offset h + p_filesz h ≤ Z.of_nat (length elf)).

(** The same, with a place in the file even when there are none. *)
Definition segment_inside (elf : list u8) (h : Phdr) : Prop :=
  p_filesz h ≤ p_memsz h ∧ p_offset h + p_filesz h ≤ Z.of_nat (length elf).

(** The fields of a header are unsigned words. *)
Record phdr_ok (h : Phdr) : Prop := {
  ph_flags : 0 ≤ p_flags h;
  ph_offset : 0 ≤ p_offset h;
  ph_vaddr : 0 ≤ p_vaddr h;
  ph_filesz : 0 ≤ p_filesz h;
  ph_memsz : 0 ≤ p_memsz h;
}.

Lemma bytes_ok_slice off n bs : bytes_ok bs → bytes_ok (slice off n bs).
Proof. intros H. by apply Forall_take, Forall_drop. Qed.

Lemma field_nonneg bs off n : bytes_ok bs → 0 ≤ field bs off n.
Proof. intros H. apply le_val_bound. by apply bytes_ok_slice. Qed.

Lemma Phdr_of_bytes_ok bs : bytes_ok bs → phdr_ok (Phdr_of_bytes bs).
Proof. intros H. split; by apply field_nonneg. Qed.

(** *** Images and layouts *)

Lemma length_segment_image elf h : phdr_ok h → length (segment_image elf h) = Z.to_nat (pages (p_memsz h)).
Proof. intros _. unfold segment_image. by rewrite length_fmap, length_seqZ. Qed.

Lemma segment_image_lookup elf h j :
  (j < Z.to_nat (pages (p_memsz h)))%nat →
  segment_image elf h !! j = Some (segment_perm h, segment_page elf h (Z.of_nat j)).
Proof.
  intros Hj. unfold segment_image. rewrite list_lookup_fmap.
  by rewrite (proj2 (lookup_seqZ 0 _ j (Z.of_nat j))) by lia.
Qed.

Definition laid_pages (hs : list Phdr) : Z := Z.of_nat (length (hs ≫= segment_image [])).

Lemma image_length elf hs : Z.of_nat (length (hs ≫= segment_image elf)) = laid_pages hs.
Proof.
  unfold laid_pages. induction hs as [|h hs IH]; [done|]. rewrite !bind_cons, !length_app, !Nat2Z.inj_add, IH.
  unfold segment_image. by rewrite !length_fmap.
Qed.

Lemma laid_pages_snoc hs h : phdr_ok h → laid_pages (hs ++ [h]) = laid_pages hs + pages (p_memsz h).
Proof.
  intros Hh. unfold laid_pages. rewrite bind_app, bind_singleton, length_app, length_segment_image by done.
  pose proof (pages_nonneg _ (ph_memsz _ Hh)). lia.
Qed.

Lemma laid_out_bound k hs : Forall phdr_ok hs → laid_out k hs = true → k + laid_pages hs ≤ STACK_VPN.
Proof.
  intros Hok. revert k. induction Hok as [|h hs Hh _ IH]; intros k H; cbn [laid_out] in H.
  - apply Z.leb_le in H. change (laid_pages []) with 0. lia.
  - apply andb_true_iff in H as [_ H]. specialize (IH _ H). unfold laid_pages in *. rewrite bind_cons, length_app, length_segment_image by done.
    pose proof (pages_nonneg _ (ph_memsz _ Hh)). lia.
Qed.

(** Where a segment of a well laid-out file goes. *)
Lemma laid_out_at k pre h post :
  Forall phdr_ok (pre ++ h :: post) → laid_out k (pre ++ h :: post) = true →
  p_vaddr h = PGSIZE * (k + laid_pages pre) ∧ Z.land (p_flags h) 7 ≠ 0 ∧ p_offset h + p_memsz h ≤ USIZE_MAX.
Proof.
  revert k. induction pre as [|g pre IH]; intros k Hok H; cbn [app laid_out] in H.
  - apply andb_true_iff in H as [H _]. apply andb_true_iff in H as [H Ho]. apply andb_true_iff in H as [Hv Hf].
    change (laid_pages []) with 0. rewrite Z.add_0_r. split_and!; [by apply Z.eqb_eq|by apply Z.eqb_neq, negb_true_iff|by apply Z.leb_le].
  - apply Forall_cons in Hok as [Hg Hok]. apply andb_true_iff in H as [_ H]. destruct (IH _ Hok H) as (-> & Hr).
    split; [|exact Hr]. unfold laid_pages. rewrite bind_cons, length_app, length_segment_image by done.
    pose proof (pages_nonneg _ (ph_memsz _ Hg)). f_equal. lia.
Qed.

Lemma segment_perm_user h : 0 ≤ p_flags h → Z.land (p_flags h) 7 ≠ 0 → uflags (segment_perm h).
Proof.
  intros H0 H7. unfold segment_perm.
  assert (Z.land (p_flags h) 7 = Z.lor (Z.lor (Z.land (p_flags h) PF_R) (Z.land (p_flags h) PF_W)) (Z.land (p_flags h) PF_X)) as H.
  { change 7 with (Z.lor (Z.lor PF_R PF_W) PF_X). by rewrite !Z.land_lor_distr_r. }
  destruct (Z.land (p_flags h) PF_R =? 0) eqn:E1, (Z.land (p_flags h) PF_W =? 0) eqn:E2, (Z.land (p_flags h) PF_X =? 0) eqn:E3;
    cbn [negb]; try (by apply (bool_decide_unpack _)).
  exfalso. apply H7. rewrite H. apply Z.eqb_eq in E1 as ->. apply Z.eqb_eq in E2 as ->. by apply Z.eqb_eq in E3 as ->.
Qed.

(** Permissions and bytes of page [w]. *)
Definition image_flags (img : list (Z * list u8)) (w : Z) : Z := from_option fst URW (img !! Z.to_nat w).
Definition image_data (img : list (Z * list u8)) (w : Z) : list u8 := from_option snd [] (img !! Z.to_nat w).

Lemma image_flags_user elf hs k : Forall phdr_ok hs → laid_out k hs = true → ∀ w, uflags (image_flags (hs ≫= segment_image elf) w).
Proof.
  intros Hok Hl w. unfold image_flags. destruct (_ !! Z.to_nat w) as [[f d]|] eqn:E; [|apply uflags_URW]. cbn.
  apply list_elem_of_lookup_2, list_elem_of_bind in E as (h & Hin & Hh).
  unfold segment_image in Hin. apply list_elem_of_fmap in Hin as (i & [= -> ->] & _).
  apply list_elem_of_split in Hh as (pre & post & ->). destruct (laid_out_at k pre h post Hok Hl) as (_ & Hf & _).
  apply segment_perm_user; [|done]. apply Forall_app in Hok as [_ Hok]. apply Forall_cons in Hok as [Hh _]. apply Hh.
Qed.

Lemma segment_page_ok elf h i : bytes_ok elf → page_ok (segment_page elf h i).
Proof.
  intros Hb. unfold segment_page. destruct zero_page_ok as [Hl Hz]. destruct (_ <? _); [|by rewrite splice_nil].
  set (c := slice _ _ elf). assert (length c ≤ Z.to_nat PGSIZE)%nat by (unfold c, slice; rewrite length_take; lia).
  split; [rewrite length_splice; [done|lia]|]. unfold splice. apply Forall_app. split; [by apply Forall_take|].
  apply Forall_app. split; [by apply bytes_ok_slice|by apply Forall_drop].
Qed.

(** Only memory and the file system have changed. *)
Definition only_io (s s' : kernel) : Prop := s' = set_k_fs (k_fs s') (set_k_ram (k_ram s') s).

#[export] Instance only_io_preorder : PreOrder only_io.
Proof. split; [by intros []|]. unfold only_io. intros s s1 s2 H1 H2. rewrite H2, H1. by destruct s. Qed.

Lemma only_ram_io s s' : only_ram s s' → only_io s s'.
Proof. unfold only_ram, only_io. intros ->. by destruct s. Qed.
Lemma only_fs_io s s' : only_fs s s' → only_io s s'.
Proof. unfold only_fs, only_io. intros ->. by destruct s. Qed.
Lemma only_ram_fs s s' : only_ram s s' → fs_of s' = fs_of s.
Proof. unfold only_ram. intros ->. by destruct s. Qed.
Lemma only_fs_ram s s' : only_fs s s' → ram_of s' = ram_of s.
Proof. unfold only_fs. intros ->. by destruct s. Qed.

(** What the loader asks of a file with contents [elf]: reading keeps [J], fills
    the destination from the file, and says whether it could. *)
Definition reads (J : fs → Prop) (inode : InodeRef) (elf : list u8) : Prop :=
  ∀ f off dst, J f → 0 ≤ off ≤ USIZE_MAX → dst ≠ [] →
    wp (readi inode off dst) f (λ '(n, dst') f', J f' ∧ held f' = held f ∧ length dst' = length dst ∧ (bytes_ok dst → bytes_ok dst') ∧
      (n = Z.of_nat (length dst) ↔ off + Z.of_nat (length dst) ≤ Z.of_nat (length elf)) ∧
      (n = Z.of_nat (length dst) → dst' = slice (Z.to_nat off) (length dst) elf)).

Section load.
Context (kernel_end : usize) (Hend_pos : 0 < kernel_end).

Local Abbreviation space_ok := (space_ok kernel_end).
Local Abbreviation kinv := (kinv kernel_end).
Local Abbreviation ram_page := (ram_page kernel_end).

(** The file and its image. [J] is what reading it preserves. *)
Context (J : fs → Prop) (elf : list u8) (Helf : bytes_ok elf).

(** [fill] copies the file-backed part of a page of segment [h], if it can. *)
Definition fills (h : Phdr) (fill : u64 → usize → usize → M kernel bool) : Prop :=
  ∀ s i pa, J (fs_of s) → mem (ram_of s) !! pa = Some zero_page → 0 ≤ i → PGSIZE * i < p_filesz h →
    let n := Z.min PGSIZE (p_filesz h - PGSIZE * i) in
    wp (fill (PGSIZE * i) pa n) s (λ ok s', only_io s s' ∧ J (fs_of s') ∧
      ∃ d, page_ok d ∧ ram_of s' = set_mem (<[pa := d]> (mem (ram_of s))) (ram_of s) ∧
        (ok = true → d = segment_page elf h i ∧ p_offset h + PGSIZE * i + n ≤ Z.of_nat (length elf)) ∧
        (ok = false → Z.of_nat (length elf) < p_offset h + PGSIZE * i + n)).

(** The address space the image is loaded into. *)
Context (m0 : machine) (T0 : ptree) (fl0 : list Z) (Hsp0 : space_ok m0 T0 fl0).
Context (Hfresh : ∀ w, 0 ≤ w ≤ STACK_VPN → L T0 !! w = None) (Htab : tables_for 0 T0).
Context (Hsegs : Forall phdr_ok (segments elf)) (Hlaid : laid_out 0 (segments elf) = true).

Local Abbreviation filled := (pages_filled kernel_end (image_flags (elf_image elf)) (image_data (elf_image elf)) m0 T0 fl0 0).

Lemma image_small : 0 ≤ laid_pages (segments elf) ≤ STACK_VPN.
Proof. pose proof (laid_out_bound 0 _ Hsegs Hlaid). unfold laid_pages in *. lia. Qed.

Lemma image_user w : uflags (image_flags (elf_image elf) w).
Proof. by eapply image_flags_user. Qed.

(** The pages that are enough for the image: its frames and tables, the stack, the
    root and the two tables of the topmost pages, and one to spare. *)
Definition pages_needed : Z :=
  let n := laid_pages (segments elf) in n + low_tables n + mid_tables n + 5.

Definition out_of_memory : Prop := Z.of_nat (length (tables T0 ++ fl0)) < pages_needed.

(** [k] pages are in place. *)
Definition loading (s : kernel) (k : nat) (s' : kernel) : Prop :=
  only_io s s' ∧ J (fs_of s') ∧ ∃ T fl, filled k (ram_of s') T fl.

(** The same while the load goes on: no table is there without need. *)
Definition advancing (s : kernel) (k : nat) (s' : kernel) : Prop :=
  only_io s s' ∧ J (fs_of s') ∧ ∃ T fl, filled k (ram_of s') T fl ∧ tables_for (laid_pages (segments elf)) T.

Lemma advancing_loading s k s' : advancing s k s' → loading s k s'.
Proof. intros (O & HJ & T & fl & Hg & _). split_and!; [done|done|eauto]. Qed.

(** Nothing is free any more. *)
Lemma exhausted (k : nat) (used : list Z) T l :
  used ++ frames 0 k l ++ tables T ≡ₚ tables T0 ++ fl0 → Z.of_nat (length used + k) ≤ laid_pages (segments elf) + 1 →
  tables_for (laid_pages (segments elf)) T → out_of_memory.
Proof.
  intros Hp Hk Ht. unfold out_of_memory, pages_needed. rewrite <-(Permutation_length Hp), !length_app, length_frames.
  pose proof (tables_for_bound _ T (proj1 image_small) Ht). lia.
Qed.

Lemma in_ram_loading {A} s k s1 T fl (m : M machine A) (R : A → kernel → Prop) :
  only_io s s1 → J (fs_of s1) → filled k (ram_of s1) T fl →
  wp m (ram_of s1) (λ a r, held r = k_held s1 ∧ ∀ s2, only_io s s2 → J (fs_of s2) → ram_of s2 = r → R a s2) →
  wp (in_ram m) s1 R.
Proof.
  intros O HJ Hg Hm. apply wp_ram. eapply wp_mono; [exact Hm|]. intros a r [Hh HR]. split; [done|]. intros s2 O2 Hr.
  apply HR; [|by rewrite (only_ram_fs _ _ O2)|done]. etrans; [exact O|]. by apply only_ram_io.
Qed.

Lemma filled_heldk k s1 T fl : filled k (ram_of s1) T fl → k_held s1 = held m0.
Proof. intros Hg. apply (fi_held _ _ _ _ _ _ _ _ _ _ _ Hg). Qed.

(** Giving back the last [j] pages. *)
Lemma unload_spec s k j s1 T fl va :
  only_io s s1 → J (fs_of s1) → filled (k + j) (ram_of s1) T fl → Z.of_nat (k + j) ≤ STACK_VPN → va = PGSIZE * Z.of_nat k →
  wp (in_ram (unload kernel_end (pt_root T0) va (Z.of_nat j))) s1 (λ _ s', loading s k s').
Proof.
  intros O HJ Hg Hmax ->. rewrite <-(fi_root _ _ _ _ _ _ _ _ _ _ _ Hg).
  eapply in_ram_loading; [done|done|exact Hg|]. unfold unload. destruct (Z.ltb_spec 0 (Z.of_nat j)) as [Hj|Hj].
  - eapply wp_mono; [eapply (fill_trimmed kernel_end Hend_pos _ _ m0 T0 fl0 0 (k + j)); try done; try lia|].
    + vpn_lia.
    + intros w Hw. apply Hfresh. lia.
    + intros w _. apply image_user.
    + intros [] r (T' & fl' & Hg'). pose proof (fi_held _ _ _ _ _ _ _ _ _ _ _ Hg') as Hh. split; [rewrite Hh; symmetry; by eapply filled_heldk|].
      intros s2 O2 HJ2 <-. split_and!; [done|done|eauto].
  - wp_steps. split; [done|]. intros s2 O2 HJ2 Hr. assert (j = 0%nat) as -> by lia. rewrite Nat.add_0_r in Hg.
    split_and!; [done|done|]. rewrite Hr. eauto.
Qed.

(** Page [p] with bytes [d] has been taken for page [k]. *)
Definition holding (s : kernel) (k : nat) (p : Z) (d : list u8) (s1 : kernel) : Prop :=
  only_io s s1 ∧ J (fs_of s1) ∧ ∃ m T fl, filled k m T (p :: fl) ∧ tables_for (laid_pages (segments elf)) T ∧ ram_page p ∧ (p ∉ tables T ++ fl) ∧
    mem (ram_of s1) = <[p := d]> (mem m) ∧ held (ram_of s1) = held m ∧ pt_own kernel_end (ram_of s1) T fl.

Lemma give_back s k p m T fl m1 d T2 fl2 s1 :
  only_io s s1 → J (fs_of s1) → filled k m T (p :: fl) → ram_page p → p ∉ tables T ++ fl → mem m1 = <[p := d]> (mem m) →
  held m1 = held m → updated kernel_end m1 T fl (L T) (ram_of s1) T2 fl2 →
  wp (in_ram (kfree kernel_end p)) s1 (λ _ s2, loading s k s2).
Proof.
  intros O HJ Hg Hp Hn Hm Hh Hup. apply wp_ram.
  eapply wp_mono; [eapply (fill_given_back kernel_end Hend_pos _ _ m0 T0 fl0 0 k m T p fl Hg); try done|].
  - split; [|intros w _]; apply image_user.
  - intros [] r Hg'. pose proof (up_held _ _ _ _ _ _ _ _ Hup) as Hh1. split.
    + rewrite (fi_held _ _ _ _ _ _ _ _ _ _ _ Hg'), <-(fi_held _ _ _ _ _ _ _ _ _ _ _ Hg), <-Hh, <-Hh1. done.
    + intros s2 O2 <-. split_and!; [etrans; [exact O|by apply only_ram_io]|by rewrite (only_ram_fs _ _ O2)|eauto].
Qed.

Lemma take_page s k s1 :
  advancing s k s1 → Z.of_nat k ≤ laid_pages (segments elf) →
  wp (in_ram kalloc_zeroed) s1 (λ r s2,
    match r with None => loading s k s2 ∧ out_of_memory | Some p => holding s k p zero_page s2 end).
Proof.
  intros (O & HJ & T & fl & Hg & Ht) Hk. pose proof (fi_space _ _ _ _ _ _ _ _ _ _ _ Hg) as Hsp. eapply in_ram_loading; [done|done|exact Hg|].
  eapply wp_mono; [apply (own_kalloc_zeroed kernel_end Hend_pos _ T fl), Hsp|]. intros r m (Hh & Hr). split; [done|].
  intros s2 O2 HJ2 <-. destruct fl as [|p fl]; destruct Hr as (-> & Hm & Hr).
  - split; [split_and!; [done|done|]; exists T, []; by eapply filled_mem|].
    pose proof (fi_pages _ _ _ _ _ _ _ _ _ _ _ Hg) as Hp. rewrite app_nil_r in Hp. by eapply (exhausted k []); [exact Hp|cbn; lia|].
  - destruct Hr as (Hown & Hp & Hn). split_and!; [done|done|]. by exists (ram_of s1), T, fl.
Qed.

Lemma give_page s k p d s1 : holding s k p d s1 → wp (in_ram (kfree kernel_end p)) s1 (λ _ s2, loading s k s2).
Proof.
  intros (O & HJ & m & T & fl & Hg & _ & Hp & Hn & Hm & Hh & Hown). eapply give_back; try done.
Qed.

Lemma map_page s k p s1 va flags :
  holding s k p (image_data (elf_image elf) (Z.of_nat k)) s1 → Z.of_nat k < laid_pages (segments elf) →
  va = PGSIZE * Z.of_nat k → flags = image_flags (elf_image elf) (Z.of_nat k) →
  wp (in_ram (mappages (pt_root T0) va PGSIZE p flags)) s1 (λ r s2,
    match r with
    | Some _ => advancing s (S k) s2
    | None => wp (in_ram (kfree kernel_end p)) s2 (λ _ s3, loading s k s3) ∧ out_of_memory
    end).
Proof.
  intros (O & HJ & m & T & fl & Hg & Ht & Hp & Hn & Hm & Hh & Hown) Hk -> ->. pose proof image_small as Hsm.
  destruct (image_user (Z.of_nat k)) as (Hb & Hrwx & _). apply wp_ram. rewrite <-(fi_root _ _ _ _ _ _ _ _ _ _ _ Hg).
  wp_call (map_one_grows kernel_end Hend_pos (ram_of s1) T fl (Z.of_nat k) p); [done|lia|vpn_lia|apply Hp|destruct Hp; lia| |done|done|].
  { destruct Hp. change (2 ^ 55) with 36028797018963968. mem_lia. }
  intros r m2 (T2 & fl2 & Hnew & Hr). split; [destruct r; apply Hr|]. intros s2 O2 <-.
  assert (only_io s s2) as Os by (etrans; [exact O|by apply only_ram_io]).
  assert (J (fs_of s2)) as HJ2 by (by rewrite (only_ram_fs _ _ O2)).
  assert (tables_for (laid_pages (segments elf)) T2) as Ht2 by (eapply tables_for_map; [exact Ht|exact Hnew|left; lia]).
  destruct r as [[]|].
  - split_and!; [done|done|]. exists T2, fl2. split; [|done].
    eapply (fill_mapped kernel_end Hend_pos _ _ m0 T0 fl0 0 k m T p fl Hg); try done. split; [|intros w _]; apply image_user.
  - destruct Hr as [Hup [->|[e He]]]; cycle 1.
    { rewrite (fi_old _ _ _ _ _ _ _ _ _ _ _ Hg), Hfresh in He by lia. done. }
    split; [by eapply give_back|]. pose proof (taken_pages kernel_end _ _ _ _ _ _ _ _ _ _ _ Hg) as Hpg.
    rewrite <-(up_pages _ _ _ _ _ _ _ _ Hup), app_nil_r in Hpg. by eapply (exhausted k [p]); [exact Hpg|cbn; lia|].
Qed.

(** ** One segment *)
Section segment.
Context (pre post : list Phdr) (h : Phdr) (Hseg : segments elf = pre ++ h :: post).
Context (fill : u64 → usize → usize → M kernel bool) (Hfill : fills h fill) (Hfm : p_filesz h ≤ p_memsz h).

Definition first_page : nat := Z.to_nat (laid_pages pre).
Definition npages : nat := Z.to_nat (pages (p_memsz h)).

Lemma segment_ok : phdr_ok h.
Proof. rewrite Hseg in Hsegs. apply Forall_app in Hsegs as [_ H]. by apply Forall_cons in H as [H _]. Qed.

Lemma segment_place :
  p_vaddr h = PGSIZE * Z.of_nat first_page ∧ p_offset h + p_memsz h ≤ USIZE_MAX ∧ Z.of_nat (first_page + npages) ≤ STACK_VPN ∧
  Z.of_nat npages = pages (p_memsz h) ∧ Z.of_nat first_page = laid_pages pre.
Proof.
  pose proof segment_ok as Hh. pose proof Hsegs as Hs. pose proof Hlaid as Hl. rewrite Hseg in Hs, Hl.
  destruct (laid_out_at 0 pre h post Hs Hl) as (Hv & _ & Ho). pose proof (laid_out_bound 0 _ Hs Hl) as Hb.
  pose proof (pages_nonneg _ (ph_memsz _ Hh)) as Hp. unfold first_page, npages.
  assert (0 ≤ laid_pages pre ∧ 0 ≤ laid_pages post) as [H0 H1] by (unfold laid_pages; lia).
  assert (laid_pages (pre ++ h :: post) = laid_pages pre + pages (p_memsz h) + laid_pages post) as E.
  { unfold laid_pages. rewrite bind_app, bind_cons, !length_app, length_segment_image by done. lia. }
  rewrite Hv. split_and!; [f_equal; lia|done|lia|lia|lia].
Qed.

Lemma segment_within : Z.of_nat (first_page + npages) ≤ laid_pages (segments elf).
Proof.
  destruct segment_place as (_ & _ & _ & Hn & Hf). rewrite Hseg. unfold laid_pages at 1. rewrite bind_app, bind_cons, !length_app.
  rewrite length_segment_image by apply segment_ok. fold npages. unfold laid_pages in Hf. lia.
Qed.

Lemma segment_at j : (j < npages)%nat →
  image_flags (elf_image elf) (Z.of_nat (first_page + j)) = segment_perm h ∧
  image_data (elf_image elf) (Z.of_nat (first_page + j)) = segment_page elf h (Z.of_nat j).
Proof.
  intros Hj. assert (elf_image elf !! (first_page + j)%nat = Some (segment_perm h, segment_page elf h (Z.of_nat j))) as E.
  { unfold elf_image. rewrite Hseg, bind_app, bind_cons. pose proof (image_length elf pre) as Hl.
    assert (length (pre ≫= segment_image elf) = first_page) as Hlp by (unfold first_page; lia).
    rewrite lookup_app_r, Hlp by lia. replace (first_page + j - first_page)%nat with j by lia.
    rewrite lookup_app_l by (rewrite length_segment_image by apply segment_ok; exact Hj). by apply segment_image_lookup. }
  unfold image_flags, image_data. rewrite Nat2Z.id, E. done.
Qed.

Lemma more_pages j : (PGSIZE * Z.of_nat j <? p_memsz h) = bool_decide (j < npages)%nat.
Proof.
  destruct segment_place as (_ & _ & _ & Hn & _). pose proof (ph_memsz _ segment_ok) as H0. unfold pages in Hn.
  pose proof (Z.div_mod (p_memsz h + (PGSIZE - 1)) PGSIZE ltac:(mem_lia)) as Hd.
  pose proof (Z.mod_pos_bound (p_memsz h + (PGSIZE - 1)) PGSIZE ltac:(mem_lia)) as Hm.
  apply eq_bool_prop_intro. rewrite bool_decide_spec. split.
  - intros H%Is_true_true%Z.ltb_lt. mem_lia.
  - intros H. apply Is_true_true, Z.ltb_lt. mem_lia.
Qed.

(** The file had what has been read of the segment. *)
Definition read_to (j : nat) : Prop :=
  0 < Z.min (p_filesz h) (PGSIZE * Z.of_nat j) → p_offset h + Z.min (p_filesz h) (PGSIZE * Z.of_nat j) ≤ Z.of_nat (length elf).

(** The bytes of a page. *)
Lemma fill_spec s j p s1 :
  holding s (first_page + j) p zero_page s1 → (j < npages)%nat → read_to j →
  wp (if PGSIZE * Z.of_nat j <? p_filesz h then fill (PGSIZE * Z.of_nat j) p (Z.min PGSIZE (p_filesz h - PGSIZE * Z.of_nat j)) else mret true) s1
    (λ ok s2, ∃ d, holding s (first_page + j) p d s2 ∧ (ok = true → d = segment_page elf h (Z.of_nat j) ∧ read_to (S j)) ∧
      (ok = false → ¬ segment_fits elf h)).
Proof.
  intros Hh Hj Hr. destruct (Z.ltb_spec (PGSIZE * Z.of_nat j) (p_filesz h)) as [Hlt|Hge].
  - destruct Hh as (O & HJ & m & T & fl & Hg & Ht & Hp & Hn & Hm & Hhd & Hown).
    eapply wp_mono; [apply Hfill; [done|by rewrite Hm, lookup_insert_eq|lia|lia]|].
    intros ok s2 (O2 & HJ2 & d & Hd & Hram & Hok & Hbad). exists d. split_and!.
    + split_and!; [by etrans|done|]. exists m, T, fl. rewrite Hram. split_and!; try done.
      * cbn [mem set_mem]. by rewrite Hm, insert_insert_eq.
      * by apply own_store_frame.
    + intros [-> Hl]%Hok. split; [done|]. unfold read_to. intros _. mem_lia.
    + intros Hf%Hbad [_ Hfits]. mem_lia.
  - wp_steps. exists zero_page. split_and!; [done| |done]. intros _. split.
    + unfold segment_page. rewrite (proj2 (Z.ltb_ge _ _)) by lia. by rewrite splice_nil.
    + unfold read_to in *. mem_lia.
Qed.

(** One round of the loop. *)
Lemma load_page_spec s j s1 :
  advancing s (first_page + j) s1 → (j ≤ npages)%nat → read_to j →
  wp (load_page_at kernel_end (pt_root T0) h fill (Z.of_nat j, PGSIZE * Z.of_nat j)) s1 (λ r s2,
    match r with
    | inl st => st = (Z.of_nat (S j), PGSIZE * Z.of_nat (S j)) ∧ (j < npages)%nat ∧ advancing s (first_page + S j) s2 ∧ read_to (S j)
    | inr (Some _) => advancing s (first_page + npages) s2 ∧ segment_fits elf h
    | inr None => loading s first_page s2 ∧ (¬ segment_fits elf h ∨ out_of_memory)
    end).
Proof.
  intros Hl Hj Hr. destruct segment_place as (Hv & Ho & Hmax & Hn & _). pose proof segment_within as Hin.
  assert (∀ s2, loading s (first_page + j) s2 → ¬ segment_fits elf h ∨ out_of_memory →
    wp (in_ram (unload kernel_end (pt_root T0) (p_vaddr h) (Z.of_nat j));; mret (inr None)) s2
    (λ (r : Z * Z + option unit) s3, match r with inr None => loading s first_page s3 ∧ (¬ segment_fits elf h ∨ out_of_memory) | _ => False end)) as Hback.
  { intros s2 (O2 & HJ2 & T & fl & Hg) Hwhy. wp_step. eapply wp_mono; [eapply unload_spec; [done|done|exact Hg|lia|done]|].
    intros [] s3 H3. by wp_steps. }
  unfold load_page_at. rewrite more_pages. case_bool_decide as Hjn; cycle 1.
  { wp_steps. assert (j = npages) as -> by lia. split; [done|]. split; [done|]. unfold read_to in Hr. intros Hpos.
    assert (Z.min (p_filesz h) (PGSIZE * Z.of_nat npages) = p_filesz h) as E; [|rewrite E in Hr; auto].
    pose proof (more_pages npages) as Hmp. rewrite bool_decide_eq_false_2 in Hmp by lia. apply Z.ltb_ge in Hmp. lia. }
  wp_step. eapply wp_mono; [apply take_page; [done|lia]|].
  intros [p|] s2 Hs2; [|destruct Hs2; eapply wp_mono; [by apply Hback; [|right]|]; by intros [?|[[]|]] s3].
  wp_step. eapply wp_mono; [by apply fill_spec|]. intros ok s3 (d & Hs3 & Hok & Hbad). destruct ok; cbn [negb]; cycle 1.
  { wp_step. eapply wp_mono; [by eapply give_page|]. intros [] s4 Hs4. eapply wp_mono; [apply Hback; [done|left; by apply Hbad]|]. by intros [?|[[]|]] s5. }
  destruct (Hok eq_refl) as [-> Hr']. destruct (segment_at j Hjn) as [Hf Hd]. rewrite <-Hd in Hs3.
  pose proof image_small. wp_step. apply wp_add_at; [rewrite Hv; vpn_lia|].
  wp_step. eapply wp_mono; [eapply map_page; [exact Hs3|lia|rewrite Hv; lia|done]|]. intros [[]|] s4 Hs4; cycle 1.
  { destruct Hs4 as [Hs4 Hoom]. wp_step. eapply wp_mono; [exact Hs4|]. intros [] s5 Hs5.
    eapply wp_mono; [by apply Hback; [|right]|]. by intros [?|[[]|]] s6. }
  wp_step. apply wp_add_at; [vpn_lia|]. wp_step. apply wp_add_at; [vpn_lia|]. wp_steps.
  split_and!; [f_equal; lia|done|by replace (first_page + S j)%nat with (S (first_page + j)) by lia|done].
Qed.

Lemma load_pages_spec s s1 :
  advancing s first_page s1 →
  wp (load_pages kernel_end (pt_root T0) h fill) s1 (λ r s2,
    match r with
    | Some _ => advancing s (first_page + npages) s2 ∧ segment_fits elf h
    | None => loading s first_page s2 ∧ (¬ segment_fits elf h ∨ out_of_memory)
    end).
Proof.
  intros Hl. unfold load_pages. destruct segment_place as (_ & _ & _ & Hn & _).
  apply (wp_while (λ st s', ∃ j : nat, st = (Z.of_nat j, PGSIZE * Z.of_nat j) ∧ (j ≤ npages)%nat ∧ advancing s (first_page + j) s' ∧ read_to j)
    (λ st, (npages - Z.to_nat st.1)%nat)).
  - intros st s2 (j & -> & Hj & Hs2 & Hr). eapply wp_mono; [by apply load_page_spec|].
    intros [st|[[]|]] s3; [|done|done]. intros (-> & Hlt & Hs3 & Hr3). split; [|cbn [fst]; lia]. exists (S j). by split_and!.
  - exists 0%nat. rewrite Nat.add_0_r. split_and!; [done|lia|done|]. unfold read_to. lia.
  - cbn [fst]. change (Z.to_nat 0) with 0%nat. unfold npages, pages. pose proof (ph_memsz _ segment_ok) as H0.
    assert ((p_memsz h + (PGSIZE - 1)) / PGSIZE ≤ p_memsz h / PGSIZE + 1).
    { rewrite <-(Z.div_add (p_memsz h) 1 PGSIZE) by mem_lia. apply Z.div_le_mono; mem_lia. }
    pose proof (Z.div_pos (p_memsz h) PGSIZE H0 ltac:(mem_lia)). lia.
Qed.
End segment.

(** ** The headers *)

Definition mapped_to (i : Z) : nat := Z.to_nat (laid_pages (segments_below elf i)).

Lemma segments_below_next i :
  0 ≤ i → segments_below elf (i + 1) = segments_below elf i ++ (if decide (p_type (elf_phdr elf i) = PT_LOAD) then [elf_phdr elf i] else []).
Proof.
  intros Hi. unfold segments_below. rewrite range_snoc, fmap_app, filter_app by done. done.
Qed.

(** A loadable header and the headers around it. *)
Lemma segments_split i :
  0 ≤ i < e_phnum (elf_ehdr elf) → p_type (elf_phdr elf i) = PT_LOAD →
  ∃ post, segments elf = segments_below elf i ++ elf_phdr elf i :: post.
Proof.
  intros Hi Ht. unfold segments, segments_below. set (n := e_phnum _) in *.
  assert (range 0 n = range 0 i ++ i :: range (i + 1) n) as ->.
  { unfold range. replace (n - 0) with ((i - 0) + (1 + (n - (i + 1)))) by lia. rewrite seqZ_app by lia. f_equal.
    rewrite seqZ_app by lia. rewrite (seqZ_cons _ 1) by lia. cbn [app].
    change (seqZ (Z.succ (0 + (i - 0))) (Z.pred 1)) with (@nil Z). f_equal; [lia|]. cbn [app]. f_equal. lia. }
  rewrite fmap_app, fmap_cons, filter_app, filter_cons, decide_True by done. eauto.
Qed.

(** The first [i] headers have been loaded; the image has [sz] bytes. *)
Record at_header (s : kernel) (i : Z) (sz : usize) (s' : kernel) : Prop := {
  ah_loading : advancing s (mapped_to i) s';
  ah_size : 0 ≤ sz ≤ USER_STACK;
  ah_pages : pages sz = laid_pages (segments_below elf i);
  ah_fits : Forall (segment_fits elf) (segments_below elf i);
}.

Lemma cleanup_filled k m T fl n :
  filled k m T fl → 0 ≤ n ≤ USER_STACK → pages n = Z.of_nat k →
  wp (cleanup_user kernel_end (pt_root T0) n) m (λ _ m', ∃ T' fl', filled 0 m' T' fl').
Proof.
  intros Hg Hn Hk. pose proof (proj1 (pages_stack n) ltac:(lia)) as Hst. unfold cleanup_user. wp_step.
  apply wp_page_round_up; [lia|mem_lia|]. cbv zeta. rewrite (Z.mul_comm PGSIZE), Z.div_mul, Hk by mem_lia.
  destruct (Z.ltb_spec 0 (Z.of_nat k)) as [Hpos|Hz].
  - rewrite <-(fi_root _ _ _ _ _ _ _ _ _ _ _ Hg). change 0 with (PGSIZE * 0) at 1.
    change (USER_STACK / PGSIZE) with STACK_VPN in Hst.
    eapply (fill_undone kernel_end Hend_pos _ _ m0 T0 fl0 0 k); try done; try lia; [vpn_lia| |].
    + intros w Hw. apply Hfresh. lia.
    + intros w _. apply image_user.
  - wp_steps. assert (k = 0%nat) as -> by lia. eauto.
Qed.

Lemma cleanup_spec s i sz s1 :
  loading s (mapped_to i) s1 → 0 ≤ sz ≤ USER_STACK → pages sz = laid_pages (segments_below elf i) → wp (in_ram (cleanup_user kernel_end (pt_root T0) sz)) s1 (λ _ s2, loading s 0 s2).
Proof.
  intros (O & HJ & T & fl & Hg) Hsz Hpg. eapply in_ram_loading; [done|done|exact Hg|].
  eapply wp_mono; [eapply cleanup_filled; [exact Hg|done|]|].
  - rewrite Hpg. unfold mapped_to, laid_pages. lia.
  - intros [] r (T' & fl' & Hg'). split; [rewrite (fi_held _ _ _ _ _ _ _ _ _ _ _ Hg'); symmetry; by eapply filled_heldk|].
    intros s2 O2 HJ2 <-. split_and!; [done|done|eauto].
Qed.

Lemma pages_above k n : 0 ≤ n → pages (PGSIZE * k + n) = k + pages n.
Proof.
  intros Hn. unfold pages. replace (PGSIZE * k + n + (PGSIZE - 1)) with ((n + (PGSIZE - 1)) + k * PGSIZE) by lia.
  rewrite Z.div_add by mem_lia. lia.
Qed.

Lemma pages_max a b : pages (Z.max a b) = Z.max (pages a) (pages b).
Proof. pose proof (pages_mono a b). pose proof (pages_mono b a). destruct (Z.max_spec a b) as [[? ->]|[? ->]]; lia. Qed.

(** What loading a segment does, from memory or from a file. *)
Definition loads_segment (i : Z) (m : M kernel (option unit)) : Prop :=
  ∀ s s1, advancing s (mapped_to i) s1 →
    wp m s1 (λ r s2,
      match r with
      | Some _ => advancing s (mapped_to (i + 1)) s2 ∧ segment_fits elf (elf_phdr elf i)
      | None => loading s (mapped_to i) s2 ∧ (¬ segment_inside elf (elf_phdr elf i) ∨ out_of_memory)
      end).

(** Why a load fails. *)
Definition load_error : Prop :=
  Z.of_nat (length elf) < EHDR_SIZE ∨ ehdr_ok (elf_ehdr elf) = false ∨ ¬ Forall (segment_inside elf) (segments elf) ∨ out_of_memory.

Lemma segment_step s i sz s1 m :
  at_header s i sz s1 → 0 ≤ i < e_phnum (elf_ehdr elf) → p_type (elf_phdr elf i) = PT_LOAD → loads_segment i m →
  wp (r ← m;
      match r with
      | None => in_ram (cleanup_user kernel_end (pt_root T0) sz);; mret (inr tt)
      | Some _ => sz ← grow_sz (elf_phdr elf i) sz; mret (inl sz)
      end) s1 (λ r s2, match r with inl sz' => at_header s (i + 1) sz' s2 | inr _ => loading s 0 s2 ∧ load_error end).
Proof.
  intros Hat Hi Ht Hm. destruct (segments_split i Hi Ht) as [post Hsplit]. pose proof Hat as [Hl Hsz Hpg Hfit].
  destruct (segment_place _ _ _ Hsplit) as (Hv & _ & Hmax & Hn & Hf). pose proof (segment_ok _ _ _ Hsplit) as Hh.
  set (h := elf_phdr elf i) in *. wp_step. eapply wp_mono; [by apply Hm|]. intros [[]|] s2 Hs2; cycle 1.
  { destruct Hs2 as [Hs2 Hwhy]. wp_step. eapply wp_mono; [by eapply cleanup_spec|]. intros [] s3 Hs3. wp_steps. split; [done|].
    unfold load_error. destruct Hwhy as [Hno|?]; [|tauto]. right; right; left. rewrite Hsplit, Forall_app, Forall_cons. tauto. }
  destruct Hs2 as [Hs2 Hfits]. unfold first_page, npages in *. pose proof (ph_memsz _ Hh) as Hm0.
  assert (laid_pages (segments_below elf (i + 1)) = laid_pages (segments_below elf i) + pages (p_memsz h)) as Hnext.
  { rewrite segments_below_next, decide_True by (done || lia). by apply laid_pages_snoc. }
  assert (pages (p_vaddr h + p_memsz h) = laid_pages (segments_below elf (i + 1))) as Hend.
  { rewrite Hv, Hf, pages_above, Hnext by lia. done. }
  assert (p_vaddr h + p_memsz h ≤ USER_STACK) as Hbelow.
  { apply pages_stack. rewrite Hend, Hnext. change (USER_STACK / PGSIZE) with STACK_VPN. lia. }
  unfold grow_sz. wp_step. wp_step. apply wp_add_at; [mem_lia|]. wp_steps.
  replace (if sz <? p_vaddr h + p_memsz h then p_vaddr h + p_memsz h else sz) with (Z.max sz (p_vaddr h + p_memsz h))
    by (destruct (Z.ltb_spec sz (p_vaddr h + p_memsz h)); lia).
  split; [done|lia| |].
  - rewrite pages_max, Hend, Hpg. pose proof (pages_nonneg _ Hm0). lia.
  - rewrite segments_below_next, decide_True by (done || lia). apply Forall_app. split; [done|by apply Forall_singleton].
Qed.

Lemma header_skip s i sz s1 :
  at_header s i sz s1 → 0 ≤ i → p_type (elf_phdr elf i) ≠ PT_LOAD → at_header s (i + 1) sz s1.
Proof.
  intros [A B C D] Hi Ht. assert (segments_below elf (i + 1) = segments_below elf i) as E.
  { rewrite segments_below_next, decide_False, app_nil_r by done. done. }
  split; [unfold mapped_to; by rewrite E|done|by rewrite E|by rewrite E].
Qed.

(** ** From memory *)

Lemma fills_memory h :
  phdr_ok h → p_offset h + p_filesz h ≤ Z.of_nat (length elf) → p_offset h + p_filesz h ≤ USIZE_MAX →
  fills h (λ off pa n,
    o ← add_at USIZE_MAX (p_offset h) off;
    chunk ← subslice elf o n;
    d ← in_ram (load_page pa);
    d ← copy_into d 0 chunk;
    in_ram (store_page pa d);;
    mret true).
Proof.
  intros Hh Hl Hmax s i pa HJ Hpa Hi Hlt n. destruct Hh as [_ H0 _ _ _].
  assert (0 < n ∧ n ≤ PGSIZE ∧ PGSIZE * i + n ≤ p_filesz h) as (Hn0 & Hn1 & Hn2) by (unfold n; mem_lia).
  wp_step. apply wp_add_at; [mem_lia|]. wp_step. apply wp_subslice; [mem_lia|lia|lia|].
  set (chunk := slice _ _ elf). assert (length chunk = Z.to_nat n) as Hc by (apply length_slice; mem_lia).
  destruct zero_page_ok as [Hz _]. wp_step. apply wp_ram. eapply wp_load_page; [exact Hpa|]. split; [done|].
  intros s1 O1 Hr1. wp_step. apply wp_copy_into; [lia|rewrite Hz, Hc; mem_lia|]. wp_step. apply wp_ram.
  apply wp_store_page; [rewrite Hr1; by eexists|]. split; [done|]. intros s2 O2 Hr2. wp_steps.
  assert (splice (Z.to_nat 0) chunk zero_page = segment_page elf h i) as Hd.
  { unfold segment_page. by rewrite (proj2 (Z.ltb_lt _ _)) by lia. }
  rewrite Hd in Hr2. split_and!.
  - apply only_ram_io. by eapply only_ram_trans.
  - by rewrite (only_ram_fs _ _ O2), (only_ram_fs _ _ O1).
  - exists (segment_page elf h i). split_and!; [by apply segment_page_ok|by rewrite Hr2, Hr1| |done]. intros _. split; [done|]. fold n. lia.
Qed.

(** The part both loaders share. *)
Lemma checked_segment i fill :
  0 ≤ i < e_phnum (elf_ehdr elf) → p_type (elf_phdr elf i) = PT_LOAD → p_filesz (elf_phdr elf i) ≤ p_memsz (elf_phdr elf i) →
  fills (elf_phdr elf i) fill →
  loads_segment i (load_pages kernel_end (pt_root T0) (elf_phdr elf i) fill).
Proof.
  intros Hi Ht Hfm Hfill s s1 Hl. destruct (segments_split i Hi Ht) as [post Hsplit]. pose proof (segment_ok _ _ _ Hsplit) as Hh.
  assert (mapped_to (i + 1) = (first_page (segments_below elf i) + npages (elf_phdr elf i))%nat) as ->.
  { unfold mapped_to, first_page, npages. rewrite segments_below_next, decide_True, laid_pages_snoc by (done || lia).
    pose proof (pages_nonneg _ (ph_memsz _ Hh)). unfold laid_pages. lia. }
  eapply wp_mono; [by eapply (load_pages_spec (segments_below elf i) post _ Hsplit)|]. intros [[]|] s2; [done|].
  intros [H1 [Hno|?]]; (split; [done|]); [left|by right]. intros [Hi1 Hi2]. apply Hno. split; [done|]. intros _. done.
Qed.

(** A segment of the file: its place and the range of its bytes. *)
Lemma segment_facts i :
  0 ≤ i < e_phnum (elf_ehdr elf) → p_type (elf_phdr elf i) = PT_LOAD →
  phdr_ok (elf_phdr elf i) ∧ p_vaddr (elf_phdr elf i) mod PGSIZE = 0 ∧
  p_offset (elf_phdr elf i) + p_memsz (elf_phdr elf i) ≤ USIZE_MAX.
Proof.
  intros Hi Ht. destruct (segments_split i Hi Ht) as [post Hsplit]. split; [by eapply segment_ok|].
  destruct (segment_place _ _ _ Hsplit) as (-> & Ho & _). split; [|done]. rewrite Z.mul_comm. apply Z.mod_mul. mem_lia.
Qed.

Lemma load_segment_spec i :
  0 ≤ i < e_phnum (elf_ehdr elf) → p_type (elf_phdr elf i) = PT_LOAD →
  loads_segment i (load_segment kernel_end (pt_root T0) (elf_phdr elf i) elf).
Proof.
  intros Hi Ht s s1 Hl. destruct (segment_facts i Hi Ht) as (Hh & Hv & Ho). unfold load_segment. rewrite Hv. cbn [Z.eqb negb].
  destruct (Z.ltb_spec (p_memsz (elf_phdr elf i)) (p_filesz (elf_phdr elf i))) as [Hfm|Hfm];
    [wp_steps; split; [by apply advancing_loading|left; intros [? _]; lia]|].
  pose proof (ph_offset _ Hh) as H0. pose proof (ph_filesz _ Hh) as H1. wp_step. apply wp_add_at; [lia|].
  destruct (Z.ltb_spec (Z.of_nat (length elf)) (p_offset (elf_phdr elf i) + p_filesz (elf_phdr elf i))) as [Hlen|Hlen].
  { wp_steps. split; [by apply advancing_loading|]. left. intros [_ Hin]. lia. }
  apply checked_segment; [done|done|lia| |done]. apply fills_memory; [done|lia|lia].
Qed.

Context (Hfit : headers_fit elf = true) (Hnum : 0 ≤ e_phnum (elf_ehdr elf)) (Hoff : 0 ≤ e_phoff (elf_ehdr elf)).
Context (Hsize : Z.of_nat (length elf) ≤ ISIZE_MAX).

Lemma entry_size : ehdr_ok (elf_ehdr elf) = true → e_phentsize (elf_ehdr elf) = PHDR_SIZE.
Proof. unfold ehdr_ok. rewrite !andb_true_iff. intros [_ H]. by apply Z.eqb_eq. Qed.

Lemma header_range i : 0 ≤ i < e_phnum (elf_ehdr elf) →
  0 ≤ i * PHDR_SIZE ∧ e_phoff (elf_ehdr elf) + i * PHDR_SIZE + PHDR_SIZE ≤ Z.of_nat (length elf).
Proof. intros Hi. unfold headers_fit in Hfit. apply Z.leb_le in Hfit. change PHDR_SIZE with 56 in *. lia. Qed.

Lemma load_elf_phdr_spec s i sz s1 :
  at_header s i sz s1 → 0 ≤ i < e_phnum (elf_ehdr elf) → ehdr_ok (elf_ehdr elf) = true →
  wp (load_elf_phdr kernel_end (pt_root T0) (elf_ehdr elf) elf i sz) s1
    (λ r s2, match r with inl sz' => at_header s (i + 1) sz' s2 | inr _ => loading s 0 s2 ∧ load_error end).
Proof.
  intros Hat Hi Hok. destruct (header_range i Hi) as [H0 H1]. unfold load_elf_phdr. rewrite entry_size by done.
  wp_step. apply wp_mul_at; [unfold ISIZE_MAX in Hsize; change PHDR_SIZE with 56 in *; mem_lia|].
  wp_step. apply wp_add_at; [unfold ISIZE_MAX in Hsize; change PHDR_SIZE with 56 in *; mem_lia|].
  wp_step. apply wp_subslice; [lia|done|lia|]. fold (elf_phdr elf i). cbv zeta.
  destruct (Z.eqb_spec (p_type (elf_phdr elf i)) PT_LOAD) as [Ht|Ht]; cbn [negb].
  - apply segment_step; try done. by apply load_segment_spec.
  - wp_steps. apply header_skip; [done|lia|done].
Qed.

(** ** The stack, and the whole image *)

Definition image_size : Z := PGSIZE * laid_pages (segments elf).

(** What a successful load leaves. *)
Record loaded (m : machine) (T : ptree) (fl : list Z) : Prop := {
  ld_space : space_ok m T fl;
  ld_root : pt_root T = pt_root T0;
  ld_held : held m = held m0;
  ld_image w : 0 ≤ w < laid_pages (segments elf) → ∃ p, L T !! w = Some (leaf_bits p (image_flags (elf_image elf) w)) ∧ ram_page p ∧
    mem m !! p = Some (image_data (elf_image elf) w);
  ld_stack : ∃ p, L T !! STACK_VPN = Some (leaf_bits p URW) ∧ ram_page p ∧ mem m !! p = Some zero_page;
  ld_rest w : ¬ 0 ≤ w < laid_pages (segments elf) → w ≠ STACK_VPN → L T !! w = L T0 !! w;
  ld_pages : user_frames T image_size ++ tables T ++ fl ≡ₚ tables T0 ++ fl0;
  ld_mem p : p ∉ tables T0 ++ fl0 → mem m !! p = mem m0 !! p;
}.

Lemma pages_exact k : pages (PGSIZE * k) = k.
Proof. pose proof (pages_above k 0) as H. change (pages 0) with 0 in H. rewrite !Z.add_0_r in H. by apply H. Qed.

Lemma loaded_intro k m T fl m' T' fl' :
  filled k m T fl → Z.of_nat k = laid_pages (segments elf) →
  pages_filled kernel_end (λ _, URW) (λ _, zero_page) m T fl STACK_VPN 1 m' T' fl' → loaded m' T' fl'.
Proof.
  intros [G1 G2 G3 G4 G5 G6 G7] Hk [F1 F2 F3 F4 F5 F6 F7]. pose proof image_small as Hsm.
  assert (∀ w, w ≠ STACK_VPN → L T' !! w = L T !! w) as HL by (intros w Hw; apply F4; lia).
  destruct (F5 STACK_VPN ltac:(lia)) as (st & Hst & Hrst & Hzst).
  destruct (user_entry st URW (ram_page_addr kernel_end Hend_pos st Hrst) uflags_URW) as [Hust Hpst].
  split; [done|congruence|congruence| |by exists st| | |].
  - intros w Hw. destruct (G5 w ltac:(lia)) as (p & Hp & Hrp & Hmp). exists p. rewrite HL by lia. split_and!; [done|done|].
    destruct (user_entry p _ (ram_page_addr kernel_end Hend_pos p Hrp) (image_user w)) as [Hu Hpa].
    destruct (so_frame _ _ _ _ G1 _ _ Hp Hu) as [_ Hn]. rewrite Hpa in Hn. by rewrite F7.
  - intros w Hw Hne. rewrite HL by done. apply G4. lia.
  - unfold user_frames, image_size. rewrite Hst, pages_exact. cbn [from_option]. rewrite Hpst, <-Hk, Nat2Z.id.
    rewrite (frames_ext _ _ _ (L T)) by (intros j Hj; apply HL; lia).
    cbn [frames] in F6. rewrite Z.add_0_r, Hst in F6. cbn [default from_option id app] in F6. rewrite Hpst in F6.
    rewrite <-G6, <-F6. cbn [app]. solve_Permutation.
  - intros p Hp. rewrite F7; [by apply G7|]. rewrite <-G6, not_elem_of_app in Hp. tauto.
Qed.

Lemma map_stack_spec s sz s1 :
  at_header s (e_phnum (elf_ehdr elf)) sz s1 →
  wp (in_ram (map_stack kernel_end (pt_root T0) (elf_ehdr elf) sz)) s1 (λ r s2,
    match r with
    | Some im => im = mkImage (e_entry (elf_ehdr elf)) (USER_STACK + PGSIZE) image_size ∧ Forall (segment_fits elf) (segments elf) ∧
        only_io s s2 ∧ J (fs_of s2) ∧ ∃ T fl, loaded (ram_of s2) T fl
    | None => loading s 0 s2 ∧ out_of_memory
    end).
Proof.
  intros [(O & HJ & T & fl & Hg & Ht) Hsz Hpg Hfits]. fold (segments elf) in Hpg, Hfits. pose proof image_small as Hsm.
  set (k := mapped_to (e_phnum (elf_ehdr elf))) in *.
  assert (Z.of_nat k = laid_pages (segments elf)) as Hk by (unfold k, mapped_to; fold (segments elf); lia).
  assert (∀ m T' fl', filled 0 m T' fl' → held m = k_held s1) as Hheld.
  { intros m T' fl' Hg'. rewrite (fi_held _ _ _ _ _ _ _ _ _ _ _ Hg'). symmetry. by eapply filled_heldk. }
  assert (∀ m T1 fl1, filled k m T1 fl1 → wp (cleanup_user kernel_end (pt_root T0) image_size;; mret None) m
    (λ (r : option LoadedImage) m', r = None ∧ ∃ T' fl', filled 0 m' T' fl')) as Hclean.
  { intros m T1 fl1 Hg1. wp_step. eapply wp_mono; [eapply cleanup_filled; [exact Hg1| |]|].
    - unfold image_size. vpn_lia.
    - unfold image_size. by rewrite pages_exact.
    - intros [] m' (T' & fl' & Hg'). wp_steps. eauto. }
  eapply in_ram_loading; [done|done|exact Hg|]. pose proof (fi_space _ _ _ _ _ _ _ _ _ _ _ Hg) as Hsp.
  unfold map_stack. wp_step. apply wp_add_at; [mem_lia|].
  assert (Z.ldiff (sz + PGSIZE - 1) (PGSIZE - 1) = image_size) as ->.
  { unfold image_size. rewrite <-Hpg. change (PGSIZE - 1) with (Z.ones 12) at 1.
    rewrite Z.ldiff_ones_r, Z.shiftr_div_pow2, Z.shiftl_mul_pow2 by lia. change (2 ^ 12) with PGSIZE.
    unfold pages. rewrite Z.mul_comm. do 2 f_equal. lia. }
  cbv zeta. wp_step. eapply wp_mono; [apply (own_kalloc_zeroed kernel_end Hend_pos _ T fl), Hsp|].
  intros r m1 (Hh1 & Hr). destruct fl as [|p fl]; destruct Hr as (-> & Hm1 & Hr).
  { eapply wp_mono; [eapply Hclean; by eapply filled_mem|]. intros r m2 [-> (T' & fl' & Hg')]. split; [by eapply Hheld|].
    intros s2 O2 HJ2 <-. split; [split_and!; [done|done|eauto]|].
    pose proof (fi_pages _ _ _ _ _ _ _ _ _ _ _ Hg) as Hp. rewrite app_nil_r in Hp. eapply (exhausted k []); [exact Hp|cbn; lia|done]. }
  destruct Hr as (Hown & Hp & Hn). rewrite <-(fi_root _ _ _ _ _ _ _ _ _ _ _ Hg) at 1. change USER_STACK with (PGSIZE * STACK_VPN).
  wp_call (map_one_grows kernel_end Hend_pos m1 T fl STACK_VPN p URW Hown); [vpn_lia|vpn_lia|apply Hp|destruct Hp; lia| |done|done|].
  { destruct Hp. change (2 ^ 55) with 36028797018963968. mem_lia. }
  intros [[]|] m2 (T2 & fl2 & Hnew & Hup); cycle 1.
  { destruct Hup as [Hup Hwhy]. assert (out_of_memory) as Hoom.
    { destruct Hwhy as [->|[e He]]; [|rewrite (fi_old _ _ _ _ _ _ _ _ _ _ _ Hg), Hfresh in He by lia; done].
      pose proof (taken_pages kernel_end _ _ _ _ _ _ _ _ _ _ _ Hg) as Hpp. rewrite <-(up_pages _ _ _ _ _ _ _ _ Hup), app_nil_r in Hpp.
      eapply (exhausted k [p]); [exact Hpp|cbn; lia|]. eapply tables_for_map; [exact Ht|exact Hnew|right; vpn_lia]. }
    wp_step. eapply wp_mono; [eapply (fill_given_back kernel_end Hend_pos _ _ m0 T0 fl0 0 k _ T p fl Hg); try done|].
    - split; [|intros w _]; apply image_user.
    - intros [] m3 Hg3. eapply wp_mono; [by eapply Hclean|]. intros r m4 [-> (T' & fl' & Hg')]. split; [by eapply Hheld|].
      intros s2 O2 HJ2 <-. split; [split_and!; [done|done|eauto]|done]. }
  wp_steps. split; [rewrite (up_held _ _ _ _ _ _ _ _ Hup), Hh1; done|]. intros s2 O2 HJ2 <-. split_and!; try done.
  exists T2, fl2. eapply loaded_intro; [exact Hg|done|].
  eapply (fill_mapped kernel_end Hend_pos (λ _, URW) (λ _, zero_page) _ T (p :: fl) STACK_VPN 0 _ T p fl); try done; by apply filled_refl.
Qed.

(** The outcome of a load. *)
Definition load_outcome (s : kernel) (r : option LoadedImage) (s' : kernel) : Prop :=
  match r with
  | Some im => ehdr_ok (elf_ehdr elf) = true ∧ Forall (segment_fits elf) (segments elf) ∧
      im = mkImage (e_entry (elf_ehdr elf)) (USER_STACK + PGSIZE) image_size ∧
      only_io s s' ∧ J (fs_of s') ∧ ∃ T fl, loaded (ram_of s') T fl
  | None => loading s 0 s' ∧ load_error
  end.

Lemma at_first s s1 : advancing s 0 s1 → at_header s 0 0 s1.
Proof. intros Hl. by split. Qed.

(** All headers, then the stack. *)
Lemma load_headers_spec s s1 (body : Z → usize → M kernel (usize + unit)) :
  advancing s 0 s1 → ehdr_ok (elf_ehdr elf) = true →
  (∀ i sz s1, at_header s i sz s1 → 0 ≤ i < e_phnum (elf_ehdr elf) →
    wp (body i sz) s1 (λ r s2, match r with inl sz' => at_header s (i + 1) sz' s2 | inr _ => loading s 0 s2 ∧ load_error end)) →
  wp (r ← for_each (range 0 (e_phnum (elf_ehdr elf))) body 0;
      match r with inr _ => mret None | inl sz => in_ram (map_stack kernel_end (pt_root T0) (elf_ehdr elf) sz) end) s1
    (load_outcome s).
Proof.
  intros Hl Hok Hbody. wp_step.
  apply (wp_for_each_range (at_header s) 0 (e_phnum (elf_ehdr elf)) body
    (λ r s2, wp (match r with inr _ => mret None | inl sz => in_ram (map_stack kernel_end (pt_root T0) (elf_ehdr elf) sz) end) s2 (load_outcome s))).
  - done.
  - by apply at_first.
  - intros i sz s2 Hi Hat. eapply wp_mono; [by apply Hbody|]. intros [sz'|[]] s3 H3; [done|by wp_steps].
  - intros sz s2 Hat. eapply wp_mono; [by apply map_stack_spec|]. intros [im|] s3; [|intros [? ?]; split; [done|unfold load_error; tauto]].
    intros (-> & Hf & O & HJ & HT). by split_and!.
Qed.

Lemma advancing_refl s : J (fs_of s) → ram_of s = m0 → advancing s 0 s.
Proof.
  intros HJ Hm. split_and!; [done|done|]. exists T0, fl0. rewrite Hm. split; [by apply filled_refl|].
  destruct Htab as [A B]. split; [intros k Hk; destruct (A k Hk) as [?|Hk']; [by left|]|intros k Hk; destruct (B k Hk) as [?|Hk']; [by left|]].
  - change (low_tables 0) with 0 in Hk'. lia.
  - change (mid_tables 0) with 0 in Hk'. lia.
Qed.

Lemma load_elf_spec s :
  J (fs_of s) → ram_of s = m0 → EHDR_SIZE ≤ Z.of_nat (length elf) →
  wp (load_elf kernel_end (pt_root T0) elf) s (load_outcome s).
Proof.
  intros HJ Hm Hlen. pose proof (advancing_refl s HJ Hm) as Hl.
  unfold load_elf. rewrite (proj2 (Z.ltb_ge _ _)) by lia. fold (elf_ehdr elf).
  destruct (ehdr_ok (elf_ehdr elf)) eqn:Hok; cbn [negb]; [|wp_steps; split; [by apply advancing_loading|unfold load_error; tauto]].
  unfold headers_fit in Hfit. apply Z.leb_le in Hfit as Hf. rewrite entry_size by done. change PHDR_SIZE with 56 in Hf. unfold ISIZE_MAX in Hsize.
  wp_step. apply wp_mul_at; [change PHDR_SIZE with 56; mem_lia|]. wp_step. apply wp_add_at; [change PHDR_SIZE with 56; mem_lia|].
  rewrite (proj2 (Z.ltb_ge _ _)) by (change PHDR_SIZE with 56; lia). apply load_headers_spec; [done|done|].
  intros i sz s1 Hat Hi. by apply load_elf_phdr_spec.
Qed.

(** ** From a file *)
Section file.
Context (inode : InodeRef) (Hread : reads J inode elf).

Lemma read_exact_spec off dst s :
  J (fs_of s) → 0 ≤ off ≤ USIZE_MAX → dst ≠ [] →
  wp (read_exact_inode inode off dst) s (λ '(r, dst') s', only_fs s s' ∧ J (fs_of s') ∧ length dst' = length dst ∧
    (bytes_ok dst → bytes_ok dst') ∧ (is_Some r ↔ off + Z.of_nat (length dst) ≤ Z.of_nat (length elf)) ∧
    (is_Some r → dst' = slice (Z.to_nat off) (length dst) elf)).
Proof.
  intros HJ Hoff0 Hdst. unfold read_exact_inode. wp_step. apply wp_fs. eapply wp_mono; [by apply Hread|].
  intros [n dst'] f (HJ' & Hh & Hl & Hb & Hn & Hd). split; [done|]. intros s' O <-. wp_steps. rewrite Hl, <-Hn.
  destruct (Z.eqb_spec n (Z.of_nat (length dst))) as [E|E]; split_and!; try done; try (by intros _; apply Hd).
Qed.

Lemma fills_file h :
  phdr_ok h → p_offset h + p_filesz h ≤ USIZE_MAX →
  fills h (λ off pa n,
    o ← add_at USIZE_MAX (p_offset h) off;
    d ← in_ram (load_page pa);
    dst ← subslice d 0 n;
    '(r, dst) ← read_exact_inode inode o dst;
    d ← copy_into d 0 dst;
    in_ram (store_page pa d);;
    mret (bool_decide (is_Some r))).
Proof.
  intros Hh Hmax s i pa HJ Hpa Hi Hlt n. destruct Hh as [_ H0 _ _ _].
  assert (0 < n ∧ n ≤ PGSIZE ∧ PGSIZE * i + n ≤ p_filesz h) as (Hn0 & Hn1 & Hn2) by (unfold n; mem_lia).
  destruct zero_page_ok as [Hz Hzb]. wp_step. apply wp_add_at; [mem_lia|]. wp_step. apply wp_ram. eapply wp_load_page; [exact Hpa|].
  split; [done|]. intros s1 O1 Hr1. wp_step. apply wp_subslice; [lia|lia|rewrite Hz; mem_lia|].
  set (dst := slice _ _ zero_page). assert (length dst = Z.to_nat n) as Hl by (apply length_slice; rewrite Hz; mem_lia).
  assert (bytes_ok dst) as Hdb by (by apply bytes_ok_slice).
  wp_step. eapply wp_mono; [apply read_exact_spec; [by rewrite (only_ram_fs _ _ O1)|mem_lia|by intros E; rewrite E in Hl; cbn in Hl; lia]|].
  intros [r dst'] s2 (O2 & HJ2 & Hl2 & Hb2 & Hr & Hd). rewrite Hl in Hl2, Hr, Hd. pose proof (only_fs_ram _ _ O2) as Hr2.
  wp_step. apply wp_copy_into; [lia|rewrite Hz, Hl2; mem_lia|]. wp_step. apply wp_ram.
  apply wp_store_page; [rewrite Hr2, Hr1; by eexists|]. split; [done|]. intros s3 O3 Hr3. wp_steps.
  split_and!.
  - etrans; [by apply only_ram_io|]. etrans; [by apply only_fs_io|by apply only_ram_io].
  - by rewrite (only_ram_fs _ _ O3).
  - exists (splice (Z.to_nat 0) dst' zero_page). split_and!.
    + split; [rewrite length_splice; [done|rewrite Hl2, Hz; mem_lia]|]. unfold splice. rewrite take_0. cbn [app].
      apply Forall_app. split; [by apply Hb2|by apply Forall_drop].
    + by rewrite Hr3, Hr2, Hr1.
    + intros Hsome%bool_decide_eq_true_1. rewrite (Hd Hsome). apply Hr in Hsome. split; [|fold n; lia].
      unfold segment_page. rewrite (proj2 (Z.ltb_lt _ _)) by lia. done.
    + intros Hnone%bool_decide_eq_false_1. rewrite Hr in Hnone. fold n. lia.
Qed.

Lemma load_segment_from_inode_spec i :
  0 ≤ i < e_phnum (elf_ehdr elf) → p_type (elf_phdr elf i) = PT_LOAD →
  loads_segment i (load_segment_from_inode kernel_end (pt_root T0) (elf_phdr elf i) inode).
Proof.
  intros Hi Ht s s1 Hl. destruct (segment_facts i Hi Ht) as (Hh & Hv & Ho). unfold load_segment_from_inode. rewrite Hv. cbn [Z.eqb negb].
  destruct (Z.ltb_spec (p_memsz (elf_phdr elf i)) (p_filesz (elf_phdr elf i))) as [Hfm|Hfm];
    [wp_steps; split; [by apply advancing_loading|left; intros [? _]; lia]|].
  apply checked_segment; [done|done|lia| |done]. apply fills_file; [done|lia].
Qed.

Lemma advancing_fs s k s1 s2 : advancing s k s1 → only_fs s1 s2 → J (fs_of s2) → advancing s k s2.
Proof.
  intros (O & _ & T & fl & Hg & Ht) O2 HJ. split_and!; [etrans; [exact O|by apply only_fs_io]|done|]. exists T, fl. by rewrite (only_fs_ram _ _ O2).
Qed.

Lemma load_inode_phdr_spec s i sz s1 :
  at_header s i sz s1 → 0 ≤ i < e_phnum (elf_ehdr elf) → ehdr_ok (elf_ehdr elf) = true →
  wp (load_inode_phdr kernel_end (pt_root T0) (elf_ehdr elf) inode i sz) s1
    (λ r s2, match r with inl sz' => at_header s (i + 1) sz' s2 | inr _ => loading s 0 s2 ∧ load_error end).
Proof.
  intros Hat Hi Hok. destruct (header_range i Hi) as [H0 H1]. unfold load_inode_phdr. rewrite entry_size by done.
  assert (e_phoff (elf_ehdr elf) + i * PHDR_SIZE ≤ USIZE_MAX) as Hmax by (unfold ISIZE_MAX in Hsize; change PHDR_SIZE with 56 in *; mem_lia).
  wp_step. apply wp_mul_at; [lia|]. wp_step. apply wp_add_at; [lia|].
  wp_step. eapply wp_mono; [apply read_exact_spec; [apply (ah_loading _ _ _ _ Hat)|lia|done]|].
  intros [r b] s2 (O & HJ & _ & _ & Hr & Hb). rewrite length_replicate in Hr, Hb. rewrite Z2Nat.id in Hr by done.
  assert (is_Some r) as Hs by (apply Hr; lia). specialize (Hb Hs). destruct Hs as [[] ->]. rewrite Hb. fold (elf_phdr elf i). cbv zeta.
  assert (at_header s i sz s2) as Hat2 by (destruct Hat; split; try done; by eapply advancing_fs).
  destruct (Z.eqb_spec (p_type (elf_phdr elf i)) PT_LOAD) as [Ht|Ht]; cbn [negb].
  - apply segment_step; try done. by apply load_segment_from_inode_spec.
  - wp_steps. apply header_skip; [done|lia|done].
Qed.

(** The file header is read and checked first. *)
Lemma load_header_spec s :
  J (fs_of s) → ram_of s = m0 →
  (∀ s1, ehdr_ok (elf_ehdr elf) = true → advancing s 0 s1 →
    wp (match checked USIZE_MAX (e_phnum (elf_ehdr elf) * e_phentsize (elf_ehdr elf)) with
        | None => mret None
        | Some ph_table_size =>
            match checked USIZE_MAX (e_phoff (elf_ehdr elf) + ph_table_size) with
            | None => mret None
            | Some _ =>
                r ← for_each (range 0 (e_phnum (elf_ehdr elf))) (load_inode_phdr kernel_end (pt_root T0) (elf_ehdr elf) inode) 0;
                match r with
                | inr _ => mret None
                | inl sz => in_ram (map_stack kernel_end (pt_root T0) (elf_ehdr elf) sz)
                end
            end
        end) s1 (load_outcome s)) →
  wp (load_elf_from_inode kernel_end (pt_root T0) inode) s (load_outcome s).
Proof.
  intros HJ Hm Hrest. pose proof (advancing_refl s HJ Hm) as Hl.
  unfold load_elf_from_inode. wp_step. eapply wp_mono; [apply read_exact_spec; [done|mem_lia|done]|].
  intros [r b] s1 (O & HJ1 & _ & _ & Hr & Hb). rewrite length_replicate in Hr, Hb. pose proof (advancing_fs _ _ _ _ Hl O HJ1) as Hl1.
  destruct r as [[]|]; cycle 1.
  { wp_steps. split; [by apply advancing_loading|]. left. apply Z.lt_nge. intros Hge. assert (is_Some (@None unit)) as []; [apply Hr; lia|done]. }
  specialize (Hb ltac:(by eexists)). unfold slice in Hb. rewrite drop_0 in Hb. rewrite Hb. fold (elf_ehdr elf). cbv zeta.
  destruct (ehdr_ok (elf_ehdr elf)) eqn:Hok; cbn [negb]; [by apply Hrest|wp_steps; split; [by apply advancing_loading|unfold load_error; tauto]].
Qed.

Lemma load_elf_from_inode_spec s :
  J (fs_of s) → ram_of s = m0 →
  wp (load_elf_from_inode kernel_end (pt_root T0) inode) s (load_outcome s).
Proof.
  intros HJ Hm. apply load_header_spec; [done|done|]. intros s1 Hok Hl1.
  unfold headers_fit in Hfit. apply Z.leb_le in Hfit as Hf. rewrite entry_size by done. change PHDR_SIZE with 56 in *. unfold ISIZE_MAX in Hsize.
  rewrite !checked_Some by mem_lia. apply load_headers_spec; [done|done|]. intros i sz s2 Hat Hi. by apply load_inode_phdr_spec.
Qed.
End file.
End load.

(** ** Reading a cached file *)

(** The inode in a slot, once it is locked. *)
Definition locked_inode (f : fs) (ip : Inode) : Inode :=
  if i_valid ip then ip else load_inode (dinode (disk f) (inum ip)) ip.

(** Slot [k] holds a file with contents [elf] that can be read. *)
Record file_at (f : fs) (k : nat) (elf : list u8) : Prop := {
  fa_ready : ready 1 f;
  fa_lock : LInode k ∉ held f;
  fa_file : ∃ ip, icache f !! k = Some ip ∧ is_inum (inum ip) ∧ file_ok (disk f) (locked_inode f ip) ∧
    contents (disk f) (locked_inode f ip) = elf;
}.

Lemma file_at_unique f k elf elf' : file_at f k elf → file_at f k elf' → elf = elf'.
Proof. intros [_ _ (ip & Hip & _ & _ & <-)] [_ _ (ip' & Hip' & _ & _ & <-)]. by simplify_eq. Qed.

(** Reading may load the inode and fill buffers, and changes nothing else. *)
Definition read_only (f0 : fs) (k : nat) (elf : list u8) (f : fs) : Prop :=
  file_at f k elf ∧ held f = held f0 ∧ disk f = disk f0 ∧ same_inodes f0 f.

Lemma file_bytes_ok f k elf : file_at f k elf → bytes_ok elf ∧ Z.of_nat (length elf) ≤ MAXFILE * BSIZE.
Proof.
  intros [Hr _ (ip & _ & _ & [Hm Hsz Hmap] & <-)]. split; [|rewrite length_contents; lia].
  apply Forall_lookup_2. intros i x Hi. assert (i < Z.to_nat (size (locked_inode f ip)))%nat as Hlt
    by (rewrite <-(length_contents (disk f)); by eapply lookup_lt_Some).
  rewrite lookup_contents in Hi by lia. injection Hi as <-. unfold fbyte. destruct (_ =? 0) eqn:E; [done|].
  apply Z.eqb_neq in E. destruct (mapped_block (disk f) _ (Z.of_nat i) (ready_disk _ _ Hr) Hm) as (_ & _ & Hl & Hb); [split; lia|done|].
  apply (Forall_lookup_total_1 _ _ _ Hb). rewrite Hl. pose proof (Z.mod_pos_bound (Z.of_nat i) BSIZE ltac:(fs_lia)). fs_lia.
Qed.

Lemma same_inodes_put f k ip ip' :
  icache f !! k = Some ip → inode_ref ip' = inode_ref ip → same_inodes f (put_inode k ip' f).
Proof.
  intros Hk He. unfold same_inodes, put_inode. cbn. rewrite list_fmap_insert, He. apply list_insert_id.
  by rewrite list_lookup_fmap, Hk.
Qed.

Lemma ilock_spec f k elf :
  file_at f k elf →
  wp (ilock k) f (λ ip f1, ∃ ip0, icache f !! k = Some ip0 ∧ ip = locked_inode f ip0 ∧ file_ok (disk f) ip ∧ contents (disk f) ip = elf ∧
    disk f1 = disk f ∧ ready 1 f1 ∧ held f1 = LInode k :: held f ∧ same_inodes f f1 ∧ icache f1 !! k = Some ip).
Proof.
  intros [Hr Hlk (ip & Hip & Hin & Hf & Hc)]. pose proof (lookup_lt_Some _ _ _ Hip) as Hlt.
  unfold ilock. wp_step. apply wp_acquire; [done|]. wp_step. eapply wp_islot; [exact Hip|].
  assert (ready 1 (set_held (LInode k :: held f) f)) as Hr1.
  { destruct Hr as [A B [C1 C2]]. split; [done|done|]. split; [|intros i]; apply not_elem_of_cons; by split. }
  unfold locked_inode in *. destruct (i_valid ip) eqn:Hv.
  - wp_steps. exists ip. rewrite Hv. by split_and!.
  - wp_call (read_dinode_spec 0); [done|done|]. intros d f1 [-> He]. wp_step. apply wp_set_islot. wp_steps.
    pose proof He as [E1 E2 E3 E4 E5]. exists ip. rewrite Hv. cbn [disk set_held Locks_fs] in *.
    pose proof (ext_ready _ _ _ _ Hr1 He) as [A B C]. split_and!; try done.
    + unfold same_inodes, put_inode. cbn. rewrite E4. cbn. rewrite list_fmap_insert. apply list_insert_id. by rewrite list_lookup_fmap, Hip.
    + cbn. rewrite E4. by apply list_lookup_insert_eq.
Qed.

Lemma locked_valid f ip f' : locked_inode f' (locked_inode f ip) = locked_inode f ip.
Proof. unfold locked_inode. destruct (i_valid ip) eqn:E; [by rewrite E|done]. Qed.

Lemma locked_inum f ip : inum (locked_inode f ip) = inum ip.
Proof. unfold locked_inode. by destruct (i_valid ip). Qed.

(** What is left of a read: the slot is unlocked again. *)
Lemma read_done f0 f k elf ip0 f1 f2 :
  read_only f0 k elf f → icache f !! k = Some ip0 → file_ok (disk f) (locked_inode f ip0) → contents (disk f) (locked_inode f ip0) = elf →
  disk f1 = disk f → ready 1 f1 → held f1 = LInode k :: held f → same_inodes f f1 → icache f1 !! k = Some (locked_inode f ip0) →
  ext f1 (disk f1) f2 → read_only f0 k elf (set_held (held f) (put_inode k (locked_inode f ip0) f2)).
Proof.
  intros ([[A B C] Hlk (ip & Hip & Hin & _)] & Hh & Hd & Hsame) Hk Hf Hc Hd1 Hr1 Hh1 Hs1 Hip1 He. simplify_eq.
  pose proof (ext_ready _ _ _ _ Hr1 He) as [E1 E2 _]. pose proof He as [D1 D2 D3 D4 D5].
  assert (icache (put_inode k (locked_inode f ip) f2) = icache f1) as Hic.
  { unfold put_inode. cbn. rewrite D4. by apply list_insert_id. }
  split; [split|split_and!]; cbn [held disk set_held Locks_fs].
  - split; [exact E1|exact E2|done].
  - done.
  - exists (locked_inode f ip). rewrite locked_valid. split_and!; [by change (icache (put_inode k (locked_inode f ip) f2) !! k = Some (locked_inode f ip)); rewrite Hic|by rewrite locked_inum| |].
    + change (file_ok (disk f2) (locked_inode f ip)). by rewrite D1, Hd1.
    + change (contents (disk f2) (locked_inode f ip) = contents (disk f) (locked_inode f ip)). by rewrite D1, Hd1.
  - done.
  - change (disk f2 = disk f0). by rewrite D1, Hd1.
  - unfold same_inodes. change (inode_ref <$> icache (put_inode k (locked_inode f ip) f2) = inode_ref <$> icache f0). by rewrite Hic, Hs1.
Qed.

(** The inode interface gives the loader what it asks for. *)
Lemma readi_reads f0 k elf : reads (read_only f0 k elf) k elf.
Proof.
  intros f off dst Hro Hoff Hdst. pose proof Hro as (Hfa & _). destruct (file_bytes_ok f k elf Hfa) as [Hbytes Hlen].
  assert (0 < Z.of_nat (length dst)) as Hpos by (destruct dst; [done|cbn; lia]).
  unfold readi, u32_try_from. destruct (Z.leb_spec off U32_MAX) as [Hu|Hu]; cycle 1.
  { wp_steps. split_and!; try done; [|lia]. split; [lia|]. unfold U32_MAX in Hu. fs_lia. }
  unfold with_inode. wp_step. eapply wp_mono; [by apply ilock_spec|].
  intros ip f1 (ip0 & Hip0 & -> & Hf & Hc & Hd1 & Hr1 & Hh1 & Hs1 & Hip1). wp_step. wp_step.
  eapply wp_mono; [apply (readi_spec 0); [done|by rewrite Hd1|lia]|]. cbv zeta. set (ip := locked_inode f ip0) in *.
  assert (Z.of_nat (length elf) = size ip) as Hsz by (rewrite <-Hc, length_contents; destruct Hf; lia).
  set (n := Z.max _ _). intros [n' dst'] f2 [[= -> ->] He]. wp_steps. apply wp_set_islot. wp_step.
  assert (0 ≤ n ≤ Z.of_nat (length dst)) as Hn by (unfold n; lia).
  eapply (wp_release _ (held f)); [change (held f2 = LInode k :: held f); by rewrite (ext_held _ _ _ He)|apply Hfa|]. wp_steps.
  assert (fbytes (disk f1) (addrs ip) off n = slice (Z.to_nat off) (Z.to_nat n) elf) as Hfb.
  { destruct (decide (0 < n)) as [Hn0|Hn0]; [rewrite Hd1, <-Hc; apply fbytes_contents; unfold n in *; lia|].
    replace n with 0 by lia. unfold slice. by rewrite take_0. }
  assert (length (splice 0 (fbytes (disk f1) (addrs ip) off n) dst) = length dst) as Hl
    by (apply length_splice; rewrite length_fbytes; lia).
  assert (as_isize n = n) as ->.
  { unfold as_isize, to_signed. destruct (Z.ltb_spec n (2 ^ (64 - 1))); [done|].
    assert (n ≤ size ip) by (unfold n; destruct Hf; lia). destruct Hf as [_ Hmx _]. change (2 ^ (64 - 1)) with 9223372036854775808 in *. fs_lia. }
  split_and!.
  - by eapply read_done.
  - done.
  - exact Hl.
  - intros Hb. unfold splice. rewrite take_0. cbn [app]. apply Forall_app. split; [rewrite Hfb; by apply bytes_ok_slice|by apply Forall_drop].
  - rewrite Hsz. unfold n. lia.
  - intros E. unfold splice. rewrite take_0, length_fbytes, Hfb, E. cbn [app]. rewrite drop_ge, app_nil_r by lia.
    by rewrite Nat2Z.id.
Qed.

(** ** Loading a cached file *)

Lemma elf_facts elf : bytes_ok elf → Forall phdr_ok (segments elf) ∧ 0 ≤ e_phnum (elf_ehdr elf) ∧ 0 ≤ e_phoff (elf_ehdr elf).
Proof.
  intros Hb. split_and!; [|by apply field_nonneg, Forall_take..]. apply Forall_forall.
  intros h [_ (i & -> & _)%list_elem_of_fmap]%list_elem_of_filter. by apply Phdr_of_bytes_ok, bytes_ok_slice.
Qed.

(** A file that the loader turns down by its header, or a program laid out as the
    comment on [cleanup_user] in loader.rs says it assumes: dense from address 0,
    with its header table in the file.  The loader checks neither: on other files
    it can panic ([Exec.truncated_phdr_panics], [Exec.layout_unchecked]). *)
Definition program_ok (elf : list u8) : Prop := ehdr_ok (elf_ehdr elf) = true → loadable elf = true.

Lemma load_file_spec kernel_end f0 k elf T0 fl0 s :
  0 < kernel_end → space_ok kernel_end (ram_of s) T0 fl0 → (∀ w, 0 ≤ w ≤ STACK_VPN → L T0 !! w = None) →
  tables_for 0 T0 → program_ok elf → read_only f0 k elf (fs_of s) →
  wp (load_elf_from_inode kernel_end (pt_root T0) k) s (load_outcome kernel_end (read_only f0 k elf) elf (ram_of s) T0 fl0 s).
Proof.
  intros Hend Hsp Hfresh Htab Hprog Hro. destruct (file_bytes_ok _ _ _ (proj1 Hro)) as [Hb Hlen].
  destruct (elf_facts elf Hb) as (Hs & Hn & Ho). pose proof (readi_reads f0 k elf) as Hread.
  destruct (ehdr_ok (elf_ehdr elf)) eqn:Hok.
  - specialize (Hprog Hok). apply andb_true_iff in Hprog as [Hfit Hlaid].
    eapply load_elf_from_inode_spec; try done. unfold ISIZE_MAX. fs_lia.
  - eapply load_header_spec; try done. congruence.
Qed.
