(* ===== verification/Sbrk.v ===== *)
(** * Growing a process (src/src/vm.rs [uvmalloc], src/src/syscall.rs [sys_sbrk])

    [uvmalloc] maps fresh zeroed pages after the last page of the process;
    [sys_sbrk] keeps the heap below the user stack. *)

From S2P Require Import Prelude Spinlock Kalloc Vm PageTable UserMem Space Kernel Sched Pipe Argv Proc Exec Syscall Descr.

Section grow.
Context (kernel_end : usize) (Hend_pos : 0 < kernel_end) (Hend_max : kernel_end ≤ PHYSTOP).

Local Abbreviation space_ok := (space_ok kernel_end).
Local Abbreviation pt_own := (pt_own kernel_end).
Local Abbreviation ram_page := (ram_page kernel_end).

(** [k] pages at page [v] of [T] have been mapped to fresh zeroed frames. *)
Definition heap_grown (s : machine) (T : ptree) (fl : list Z) (v : Z) (k : nat) (s' : machine) (T' : ptree) (fl' : list Z) : Prop :=
  pages_filled kernel_end (λ _, URW) (λ _, zero_page) s T fl v k s' T' fl'.

(** What [n] pages at page [v] can take from the free list: the pages and the
    tables on the way to them. *)
Definition grow_needs (v n : Z) : Z := n + span_tables v (v + n - 1).

Section uvmalloc.
Context (s0 : machine) (T0 : ptree) (fl0 : list Z) (v : Z) (n : nat).
Context (Hsp : space_ok s0 T0 fl0) (Hv : 0 ≤ v) (Hmax : PGSIZE * (v + Z.of_nat n) ≤ MAXVA).
Context (Hfresh : ∀ w, v ≤ w < v + Z.of_nat n → L T0 !! w = None).

Local Abbreviation in_span := (λ T, new_tables T0 T v (v + Z.of_nat n - 1)).

(** When no page is left, no more were free than the pages and tables wanted. *)
Lemma none_left k T (used : list Z) l :
  (k < n)%nat → (length used ≤ 1)%nat → in_span T → used ++ frames v k l ++ tables T ≡ₚ tables T0 ++ fl0 →
  Z.of_nat (length fl0) ≤ grow_needs v (Z.of_nat n).
Proof.
  intros Hk Hu Ht Hp%Permutation_length. pose proof (new_tables_bound T0 T v (v + Z.of_nat n - 1) ltac:(lia) Ht) as Hb.
  rewrite !length_app, length_frames in Hp. unfold grow_needs. lia.
Qed.

(** One iteration of [uvmalloc]. *)
Lemma grow_one k s T fl :
  heap_grown s0 T0 fl0 v k s T fl → in_span T → (k < n)%nat →
  wp (uvmalloc_page kernel_end (pt_root T0) (PGSIZE * v) (PGSIZE * (v + Z.of_nat n)) (PGSIZE * (v + Z.of_nat k))) s (λ r s',
    match r with
    | inl a => a = PGSIZE * (v + Z.of_nat (S k)) ∧ ∃ T' fl', heap_grown s0 T0 fl0 v (S k) s' T' fl' ∧ in_span T'
    | inr (Some _) => False
    | inr None => ∃ k' T' fl', (k' < n)%nat ∧ heap_grown s0 T0 fl0 v k' s' T' fl' ∧ (k' = 0%nat ∨ fl' = []) ∧
        Z.of_nat (length fl0) ≤ grow_needs v (Z.of_nat n)
    end).
Proof.
  intros Hg Ht Hk. pose proof Hg as [G1 G2 G3 G4 G5 G6 G7]. unfold uvmalloc_page. rewrite <-G2.
  rewrite (proj2 (Z.ltb_lt (PGSIZE * (v + Z.of_nat k)) _)) by mem_lia. fold URW.
  wp_call (own_kalloc_zeroed kernel_end); [done|apply G1|]. intros r s1 (Hh1 & Hr).
  destruct fl as [|p fl]; destruct Hr as (-> & Hm1 & Hr).
  { wp_steps. exists k, T, []. split_and!; [done|by eapply filled_mem|by right|].
    rewrite app_nil_r in G6. by eapply (none_left k T []); [|cbn; lia| |exact G6]. }
  destruct Hr as (Hown1 & Hp & Hpn).
  assert (∀ w, v ≤ w < v + Z.of_nat n → uflags URW) as Hfl by (intros; apply uflags_URW).
  wp_call (fill_step_grows kernel_end Hend_pos (λ _, URW) (λ _, zero_page) s0 T0 fl0 v n Hv Hmax Hfresh Hfl k s T p fl s1 Hg); [done..|].
  intros [[]|] s2 (T2 & fl2 & Hnew & Hr); (assert (in_span T2) as Ht2 by (eapply new_tables_within; [exact Ht|exact Hnew|lia|lia])).
  - wp_step. apply wp_add_at; [mem_lia|]. wp_steps.
    replace (PGSIZE * (v + Z.of_nat k) + PGSIZE) with (PGSIZE * (v + Z.of_nat (S k))) by lia. eauto.
  - destruct Hr as (Hroot & Hpg & Hfree). assert (Z.of_nat (length fl0) ≤ grow_needs v (Z.of_nat n)) as Hout
      by (by eapply (none_left k T2 [p]); [|cbn; lia| |exact Hpg]). wp_step. eapply wp_mono; [exact Hfree|]. intros [] s3 Hg3. rewrite <-Hroot.
    destruct (Z.ltb_spec (PGSIZE * v) (PGSIZE * (v + Z.of_nat k))) as [Hlt|Hge].
    + replace ((PGSIZE * (v + Z.of_nat k) - PGSIZE * v) / PGSIZE) with (Z.of_nat k).
      2: { replace (_ - _) with (Z.of_nat k * PGSIZE) by lia. symmetry. apply Z.div_mul. mem_lia. }
      wp_call (fill_undone kernel_end Hend_pos (λ _, URW) (λ _, zero_page) s0 T0 fl0 v n Hv Hmax Hfresh Hfl k s3 T2 _ Hg3); [mem_lia|].
      intros [] s4 (T4 & fl4 & Hg4). wp_steps. exists 0%nat, T4, fl4. split_and!; [lia|done|by left|done].
    + wp_steps. assert (k = 0%nat) as -> by mem_lia. exists 0%nat, T2, (p :: fl2). split_and!; [lia|done|by left|done].
Qed.

Lemma uvmalloc_spec oldsz newsz :
  0 ≤ oldsz → newsz + PGSIZE ≤ USIZE_MAX → oldsz ≤ newsz → v = pages oldsz → pages newsz = v + Z.of_nat n →
  wp (uvmalloc kernel_end (pt_root T0) oldsz newsz) s0 (λ r s',
    match r with
    | Some _ => ∃ T' fl', heap_grown s0 T0 fl0 v n s' T' fl'
    | None => ∃ k T' fl', (k < n)%nat ∧ heap_grown s0 T0 fl0 v k s' T' fl' ∧ (k = 0%nat ∨ fl' = []) ∧
        Z.of_nat (length fl0) ≤ grow_needs v (Z.of_nat n)
    end).
Proof.
  intros H0 Hu Hle Hv0 Hn. unfold uvmalloc. wp_step. apply wp_page_round_up; [done|lia|].
  wp_step. apply wp_page_round_up; [lia|done|]. rewrite <-Hv0, Hn.
  replace ((PGSIZE * (v + Z.of_nat n) - PGSIZE * v) / PGSIZE) with (Z.of_nat n).
  2: { replace (_ - _) with (Z.of_nat n * PGSIZE) by lia. symmetry. apply Z.div_mul. mem_lia. }
  rewrite Nat2Z.id.
  apply (wp_while_bound (λ m a s, ∃ k T fl, (k ≤ n)%nat ∧ m = (n - k)%nat ∧ a = PGSIZE * (v + Z.of_nat k) ∧
    heap_grown s0 T0 fl0 v k s T fl ∧ in_span T) _ _ n); [| |lia].
  - intros m a s (k & T & fl & Hk & -> & -> & Hg & Ht). destruct (decide (k < n)%nat) as [Hlt|Hge].
    + eapply wp_mono; [by eapply grow_one|]. intros [a|[[]|]] s'; [|done|done].
      intros (-> & T' & fl' & Hg' & Ht'). exists (n - S k)%nat. split; [lia|]. exists (S k), T', fl'. split_and!; [lia|done|done|done|done].
    + unfold uvmalloc_page. rewrite (proj2 (Z.ltb_ge _ _)) by mem_lia. wp_steps. assert (k = n) as -> by lia. eauto.
  - exists 0%nat, T0, fl0. split_and!; [lia|lia|lia|by apply filled_refl|apply new_tables_refl].
Qed.
End uvmalloc.

(** What user code sees: old memory as it was, new memory zero. *)
Lemma heap_grown_old s T fl v k s' T' fl' perm a :
  heap_grown s T fl v k s' T' fl' → space_ok s T fl → 0 ≤ a → ¬ v ≤ vpn a < v + Z.of_nat k →
  ubyte (mem s') T' perm a = ubyte (mem s) T perm a.
Proof.
  intros [G1 G2 G3 G4 G5 G6 G7] Hsp Ha Hout. unfold ubyte, user_leaf. rewrite G4 by done. destruct (MAXVA <=? a); [done|].
  destruct (L T !! vpn a) as [e|] eqn:He; [|done]. cbn. destruct (is_user e) eqn:Hu; [|done]. cbn.
  destruct (_ =? perm); [|done]. cbn. rewrite G7; [done|]. by eapply so_frame.
Qed.

Lemma heap_grown_new s T fl v k s' T' fl' perm a :
  heap_grown s T fl v k s' T' fl' → 0 ≤ a < MAXVA → v ≤ vpn a < v + Z.of_nat k → perm = PTE_R ∨ perm = PTE_W →
  ubyte (mem s') T' perm a = Some 0.
Proof.
  intros [G1 G2 G3 G4 G5 G6 G7] Ha Hin Hperm. destruct (G5 _ Hin) as (p & Hp & Hr & Hz).
  pose proof (ram_page_addr kernel_end Hend_pos p Hr) as Hpa. destruct (user_entry p URW Hpa uflags_URW) as [Hu Hpp].
  assert (Z.land (leaf_bits p URW) perm = perm) as Hland by (destruct Hperm as [-> | ->]; by rewrite land_leaf_bits).
  unfold ubyte, user_leaf. rewrite (proj2 (Z.leb_gt _ _)), Hp by lia. cbn. rewrite Hu. cbn. rewrite Hland, Z.eqb_refl. cbn.
  rewrite Hpp, Hz. cbn. unfold zero_page. apply lookup_replicate. split; [done|].
  pose proof (Z.mod_pos_bound a PGSIZE ltac:(mem_lia)). lia.
Qed.
End grow.

(** ** [sbrk] *)

(** No page between the end of the process and its stack is mapped. *)
Definition heap_ok (T : ptree) (n : Z) : Prop := ∀ w, pages n ≤ w < USER_STACK / PGSIZE → L T !! w = None.

(** The process has grown from [sz p] to [newsz] bytes. *)
Definition process_grown (kernel_end : Z) (T : ptree) (fl : list Z) (s : kernel) (i : nat) (p : Process) (newsz : Z) (s' : kernel) : Prop :=
  ∃ ram T' fl', s' = set_procs (<[i := set_sz newsz p]> (procs s)) (set_k_ram ram s) ∧
    space_ok kernel_end ram T' fl' ∧ pt_root T' = pt_root T ∧ heap_ok T' newsz ∧
    heap_grown kernel_end (set_held [] (k_ram s)) T fl (pages (sz p)) (Z.to_nat (pages newsz - pages (sz p))) ram T' fl' ∧
    (∀ perm a, 0 ≤ a → ¬ pages (sz p) ≤ vpn a < pages newsz → ubyte (mem ram) T' perm a = ubyte (mem (k_ram s)) T perm a) ∧
    (∀ perm a, 0 ≤ a < MAXVA → pages (sz p) ≤ vpn a < pages newsz → perm = PTE_R ∨ perm = PTE_W → ubyte (mem ram) T' perm a = Some 0).

(** Memory ran out: no more pages were free than the growth can take.  The process
    keeps its size and its bytes; [k] of the pages wanted may stay mapped beyond
    its end, but only when no page is left. *)
Definition not_grown (kernel_end : Z) (T : ptree) (fl : list Z) (s : kernel) (p : Process) (newsz : Z) (s' : kernel) : Prop :=
  pages (sz p) < pages newsz ∧ Z.of_nat (length fl) ≤ grow_needs (pages (sz p)) (pages newsz - pages (sz p)) ∧
  ∃ k ram T' fl', s' = set_k_ram ram s ∧ heap_grown kernel_end (set_held [] (k_ram s)) T fl (pages (sz p)) k ram T' fl' ∧
    (k = 0%nat ∨ fl' = []) ∧ heap_ok T' newsz ∧
    (∀ perm a, 0 ≤ a → ¬ pages (sz p) ≤ vpn a < pages newsz → ubyte (mem ram) T' perm a = ubyte (mem (k_ram s)) T perm a).

Lemma heap_ok_grown kernel_end s T fl v k s' T' fl' n :
  heap_grown kernel_end s T fl v k s' T' fl' → heap_ok T n → v = pages n → (∀ m, pages m = v + Z.of_nat k → heap_ok T' m).
Proof.
  intros Hg Hok -> m Hm w Hw. rewrite (fi_old _ _ _ _ _ _ _ _ _ _ _ Hg) by lia. apply Hok. lia.
Qed.

Section sbrk.
Context (kernel_end : usize) (Hend_pos : 0 < kernel_end).
Context (s : kernel) (i : nat) (p : Process) (T : ptree) (fl : list Z).
Context (Hh : held s = []) (Hi : cpu_proc s = Some i) (Hp : procs s !! i = Some p) (Hpt : pagetable p = pt_root T).
Context (Hsp : space_ok kernel_end (set_held [] (k_ram s)) T fl) (Hsz : 0 ≤ sz p ≤ USER_STACK) (Hheap : heap_ok T (sz p)).

Lemma sbrk_alloc newsz :
  sz p ≤ newsz ≤ USER_STACK →
  wp (in_ram (uvmalloc kernel_end (pagetable p) (sz p) newsz)) s (λ r s',
    match r with
    | Some _ => procs s' = procs s ∧ process_grown kernel_end T fl s i p newsz (set_procs (<[i := set_sz newsz p]> (procs s)) s')
    | None => not_grown kernel_end T fl s p newsz s'
    end).
Proof.
  intros Hnew. rewrite Hpt. set (n := Z.to_nat (pages newsz - pages (sz p))).
  pose proof (pages_mono _ _ (proj1 Hnew)) as Hmono. pose proof (proj1 (pages_stack newsz) ltac:(lia)) as Hst.
  change (USER_STACK / PGSIZE) with 67108861 in Hst.
  assert (0 ≤ pages (sz p)) as Hp0 by (apply Z.div_pos; mem_lia).
  eapply wp_in_ram; [done|apply (uvmalloc_spec kernel_end Hend_pos (set_held [] (k_ram s)) T fl (pages (sz p)) n Hsp Hp0)|].
  - unfold n. mem_lia.
  - intros w Hw. apply Hheap. unfold n in Hw. change (USER_STACK / PGSIZE) with 67108861. lia.
  - lia.
  - mem_lia.
  - lia.
  - done.
  - unfold n. lia.
  - assert (∀ k ram T' fl', (k ≤ n)%nat → heap_grown kernel_end (set_held [] (k_ram s)) T fl (pages (sz p)) k ram T' fl' →
      ∀ perm a, 0 ≤ a → ¬ pages (sz p) ≤ vpn a < pages newsz → ubyte (mem ram) T' perm a = ubyte (mem (k_ram s)) T perm a) as Hold.
    { intros k ram T' fl' Hk Hg perm a Ha Hout. eapply (heap_grown_old kernel_end _ _ _ _ _ _ _ _ perm a Hg Hsp Ha). unfold n in Hk. lia. }
    intros [[]|] ram.
    + intros (T' & fl' & Hg). split; [by rewrite (fi_held _ _ _ _ _ _ _ _ _ _ _ Hg)|].
      split; [done|]. exists ram, T', fl'. split_and!; [done|apply Hg|apply Hg| |exact Hg|by eapply Hold|].
      * eapply heap_ok_grown; [done|done|done|]. unfold n. lia.
      * intros perm a Ha Hin Hperm. eapply (heap_grown_new kernel_end Hend_pos); [done|done| |done]. unfold n. lia.
    + intros (k & T' & fl' & Hk & Hg & Hor & Hout). split; [by rewrite (fi_held _ _ _ _ _ _ _ _ _ _ _ Hg)|].
      unfold n in Hk, Hout. rewrite Z2Nat.id in Hout by lia. split_and!; [lia|done|].
      exists k, ram, T', fl'. split_and!; [done|done|done| |eapply Hold; [|done]; unfold n; lia].
      intros w Hw. rewrite (fi_old _ _ _ _ _ _ _ _ _ _ _ Hg); [apply Hheap; lia|]. lia.
Qed.
End sbrk.

Lemma sys_sbrk_spec kernel_end s i p a T fl :
  0 < kernel_end → held s = [] → cpu_proc s = Some i → procs s !! i = Some p → pagetable p = pt_root T →
  space_ok kernel_end (set_held [] (k_ram s)) T fl → 0 ≤ sz p ≤ USER_STACK → heap_ok T (sz p) →
  wp (sys_sbrk kernel_end a) s (λ r s', let n := as_isize (tf_a0 a) in
    if decide (0 ≤ n ∧ sz p + n ≤ USER_STACK)
    then r = SReturn (sz p) ∧ process_grown kernel_end T fl s i p (sz p + n) s' ∨
         r = SReturn (-1) ∧ not_grown kernel_end T fl s p (sz p + n) s'
    else r = SReturn (-1) ∧ s' = s).
Proof.
  intros Hend Hh Hi Hp Hpt Hsp Hsz Hheap. unfold sys_sbrk. wp_step. eapply wp_curproc; [done|done|]. cbv zeta.
  set (n := as_isize (tf_a0 a)). destruct (Z.ltb_spec n 0) as [Hn|Hn].
  { wp_steps. by rewrite decide_False by lia. }
  destruct (checked USIZE_MAX (sz p + n)) as [newsz|] eqn:H1; cycle 1.
  { apply checked_None in H1. wp_steps. rewrite decide_False by mem_lia. done. }
  apply checked_range in H1 as [-> H1]. destruct (checked USIZE_MAX _) as [x|] eqn:H2; cycle 1.
  { apply checked_None in H2. wp_steps. rewrite decide_False by mem_lia. done. }
  apply checked_range in H2 as [-> H2].
  assert (Z.ldiff (sz p + n + (PGSIZE - 1)) (PGSIZE - 1) = PGSIZE * pages (sz p + n)) as ->.
  { change (PGSIZE - 1) with (Z.ones 12) at 2. rewrite Z.ldiff_ones_r, Z.shiftr_div_pow2, Z.shiftl_mul_pow2 by lia. apply Z.mul_comm. }
  pose proof (pages_stack (sz p + n)) as Hst. change (USER_STACK / PGSIZE) with 67108861 in Hst.
  destruct (Z.ltb_spec USER_STACK (PGSIZE * pages (sz p + n))) as [Hbig|Hfit].
  { wp_steps. rewrite decide_False; [done|]. intros [_ Hle%Hst]. mem_lia. }
  destruct (decide (0 ≤ n ∧ sz p + n ≤ USER_STACK)) as [_|Hno]; [|exfalso; apply Hno; split; [done|]; apply Hst; mem_lia].
  wp_call (sbrk_alloc kernel_end Hend s i p T fl Hh Hpt Hsp Hsz Hheap (sz p + n)); [split; [lia|]; apply Hst; mem_lia|].
  intros [[]|] s' Hs'; [|wp_steps; by right].
  wp_step. apply wp_set_proc. wp_steps. left. split; [by rewrite as_isize_small by (unfold ISIZE_MAX; mem_lia)|].
  destruct Hs' as [-> Hs']. exact Hs'.
Qed.

(** C36: [sbrk] within bounds: a negative increment, a sum that overflows, and a
    size that would reach the user stack are refused with [-1] and nothing
    changes; the size never passes [USER_STACK].  Otherwise the call either
    returns the old size, the process is [n] bytes larger, every byte it had is
    unchanged and every byte of the new pages is readable and writable and zero,
    or memory ran out (no more pages were free than the new pages and their tables
    can take) and it returns [-1], size and bytes as before.  It never faults,
    although the sums it computes may overflow. *)
Theorem sys_sbrk_bounds kernel_end s i p a T fl :
  0 < kernel_end → held s = [] → cpu_proc s = Some i → procs s !! i = Some p → pagetable p = pt_root T →
  space_ok kernel_end (set_held [] (k_ram s)) T fl → 0 ≤ sz p ≤ USER_STACK → heap_ok T (sz p) →
  wp (sys_sbrk kernel_end a) s (λ r s', let n := as_isize (tf_a0 a) in
    if decide (0 ≤ n ∧ sz p + n ≤ USER_STACK)
    then r = SReturn (sz p) ∧ process_grown kernel_end T fl s i p (sz p + n) s' ∨
         r = SReturn (-1) ∧ not_grown kernel_end T fl s p (sz p + n) s'
    else r = SReturn (-1) ∧ s' = s).
Proof. apply sys_sbrk_spec. Qed.

(** ** Witness: one page mapped, no page free *)

Definition sbrk_proc : Process := set_sz 4096 (demo_proc Running (Some 0%nat) NoChan []).
Definition sbrk_kernel : kernel := set_procs (<[1%nat := sbrk_proc]> (procs fd_kernel)) fd_kernel.

Lemma sbrk_heap : heap_ok demo_tree 4096.
Proof. intros w Hw. change (pages 4096) with 1 in Hw. cbn [L demo_tree]. apply lookup_singleton_ne. lia. Qed.

Lemma sys_sbrk_bounds_witness :
  wp (sys_sbrk (ram_end 4) (mkTargs 8192 0 0 SYS_SBRK)) sbrk_kernel (λ r s', let n := as_isize 8192 in
    if decide (0 ≤ n ∧ 4096 + n ≤ USER_STACK)
    then r = SReturn 4096 ∧ process_grown (ram_end 4) demo_tree [] sbrk_kernel 1 sbrk_proc (4096 + n) s' ∨
         r = SReturn (-1) ∧ not_grown (ram_end 4) demo_tree [] sbrk_kernel sbrk_proc (4096 + n) s'
    else r = SReturn (-1) ∧ s' = sbrk_kernel).
Proof.
  apply (sys_sbrk_bounds (ram_end 4) sbrk_kernel 1 sbrk_proc (mkTargs 8192 0 0 SYS_SBRK) demo_tree []);
    [apply demo_end_pos|done|done|done|done|apply demo_space|by vm_compute|apply sbrk_heap].
Defined.

(** The first process of a booted kernel grows from nothing to two pages and a
    byte, and cannot pass its stack. *)
Definition sbrk_script : M kernel (list Z * list u8) :=
  start_first;;
  '(r1, _) ← do_call SYS_SBRK 8193 0 0;
  '(r2, _) ← do_call SYS_SBRK 0 0 0;
  '(r3, _) ← do_call SYS_SBRK USER_STACK 0 0;
  '(r4, _) ← do_call SYS_SBRK USIZE_MAX 0 0;
  b ← user_peek 12284 4;
  mret ([r1; r2; r3; r4], b).

Example sbrk_run :
  match sbrk_script boot_kernel with Ok (r, _) => Some r | Fault _ => None end = Some ([0; 8193; -1; -1], [0; 0; 0; 0]).
Proof. by vm_compute. Qed.
