(* ===== verification/Lifecycle.v ===== *)
(** * The life of processes (src/src/proc.rs)

    The memory of all processes together: every page of it belongs to one
    process or to the free list.  [fork], [exit], [wait], [sbrk] and the context
    switches keep that, and no page is ever lost. *)

From stdpp Require Import gmultiset.
From S2P Require Import Prelude Ring Spinlock FsBase Icache Kalloc Vm PageTable UserMem Space Kernel Sched Pipe Console File Proc ProcMem Syscall Descr Exit Fork Sbrk.

(** ** The memory of all processes *)

Definition all_pages (l : list Process) (Ts : list (option ptree)) : list Z := concat (zip_with proc_pages l Ts).

Lemma all_pages_insert l Ts c q oT q' oT' :
  l !! c = Some q → Ts !! c = Some oT →
  proc_pages q oT ++ all_pages (<[c := q']> l) (<[c := oT']> Ts) ≡ₚ proc_pages q' oT' ++ all_pages l Ts.
Proof.
  unfold all_pages. revert Ts c. induction l as [|x l IH]; intros [|o Ts] [|c] Hq HT; try done; cbn in *.
  - simplify_eq. by rewrite !(assoc_L (++)), (comm (++) (proc_pages q oT)).
  - rewrite (Permutation_app_swap_app (proc_pages q oT)), (IH Ts c Hq HT). apply Permutation_app_swap_app.
Qed.

Lemma all_pages_elem l Ts c q oT x : l !! c = Some q → Ts !! c = Some oT → x ∈ proc_pages q oT → x ∈ all_pages l Ts.
Proof.
  intros Hq HT Hx. unfold all_pages. apply list_elem_of_In, in_concat. exists (proc_pages q oT). split; [|by apply list_elem_of_In].
  apply list_elem_of_In, (list_elem_of_lookup_2 _ c). by rewrite lookup_zip_with, Hq, HT.
Qed.

(** Two slots share no page. *)
Lemma all_pages_apart l Ts c q oT d r oR x :
  NoDup (all_pages l Ts) → l !! c = Some q → Ts !! c = Some oT → l !! d = Some r → Ts !! d = Some oR → c ≠ d →
  x ∈ proc_pages q oT → x ∉ proc_pages r oR.
Proof.
  intros Hnd Hq HT Hr HR Hcd Hx Hx'.
  pose proof (all_pages_insert l Ts c q oT Process_unused None Hq HT) as Hp.
  change (proc_pages Process_unused None) with (@nil Z) in Hp. rewrite app_nil_l in Hp. rewrite <-Hp in Hnd.
  apply NoDup_app in Hnd as (_ & Hd & _). apply (Hd x Hx). eapply all_pages_elem; [..|exact Hx']; by rewrite list_lookup_insert_ne.
Qed.

(** What of a process its memory depends on. *)
Definition same_mem (q q' : Process) : Prop :=
  pagetable q' = pagetable q ∧ trapframe q' = trapframe q ∧ kstack q' = kstack q ∧ sz q' = sz q.

#[export] Instance same_mem_preorder : PreOrder same_mem.
Proof. split; [done|]. unfold same_mem. intros q q1 q2. intuition congruence. Qed.

Lemma all_pages_same l l' Ts : Forall2 same_mem l l' → all_pages l' Ts = all_pages l Ts.
Proof.
  intros H. revert Ts. induction H as [|q q' l l' (_ & E1 & E2 & E3) _ IH]; [done|]. intros [|o Ts]; [done|].
  unfold all_pages in *. cbn. rewrite IH. f_equal. unfold proc_pages. by rewrite E1, E2, E3.
Qed.

Section mem_ok.
Context (kernel_end : usize) (Hend_pos : 0 < kernel_end).

Local Abbreviation proc_mem := (proc_mem kernel_end).

(** Process [j] has the address space [Ts !! j]; nothing is shared. *)
Record mem_ok (m : machine) (l : list Process) (Ts : list (option ptree)) (fl : list Z) : Prop := {
  mo_len : length Ts = length l;
  mo_proc j q oT : l !! j = Some q → Ts !! j = Some oT → proc_mem m fl q oT;
  mo_kinv : kinv kernel_end m fl;
  mo_nodup : NoDup (all_pages l Ts ++ fl);
}.

Lemma mem_ok_at m l Ts fl j q : mem_ok m l Ts fl → l !! j = Some q → ∃ oT, Ts !! j = Some oT ∧ proc_mem m fl q oT.
Proof.
  intros Hok Hq. destruct (lookup_lt_is_Some_2 Ts j) as [oT HT]; [rewrite (mo_len _ _ _ _ Hok); by eapply lookup_lt_Some|].
  exists oT. split; [done|]. by eapply (mo_proc _ _ _ _ Hok).
Qed.

(** A process whose pages are left alone. *)
Lemma proc_mem_frame m fl q oT m' fl' :
  proc_mem m fl q oT → kinv kernel_end m' fl' → (∀ x, x ∈ proc_pages q oT → mem m' !! x = mem m !! x ∧ x ∉ fl') →
  proc_mem m' fl' q oT.
Proof.
  intros [P1 P2 P3 P4] Hk Hx. split; [done|done| |].
  - destruct oT as [T|]; [|done]. destruct P3 as (A & B & C). split_and!; [done| |done].
    eapply space_frame; [exact B|done|]. intros x Ho. apply Hx. rewrite (owned_frames T _ x C) in Ho.
    unfold proc_pages. cbn [from_option]. rewrite !elem_of_app. tauto.
  - apply NoDup_app in P4 as (P4 & _ & _). apply NoDup_app. split_and!; [done|intros x Hin; by apply Hx|apply Hk].
Qed.

Lemma pages_free_apart m l Ts fl j r oR c q oT x :
  mem_ok m l Ts fl → l !! j = Some r → Ts !! j = Some oR → l !! c = Some q → Ts !! c = Some oT → j ≠ c →
  x ∈ proc_pages r oR → x ∉ proc_pages q oT ++ fl.
Proof.
  intros Hok Hr HR Hq HT Hne Hx. pose proof (mo_nodup _ _ _ _ Hok) as (Hnd & Hd & _)%NoDup_app.
  apply not_elem_of_app. split; [by eapply (all_pages_apart l Ts j r oR c q oT)|].
  apply Hd. by eapply (all_pages_elem l Ts j r oR).
Qed.

(** One process exchanges pages with the free list; the others keep theirs. *)
Lemma mem_ok_step m l Ts fl c q oT m' q' oT' fl' :
  mem_ok m l Ts fl → l !! c = Some q → Ts !! c = Some oT →
  proc_mem m' fl' q' oT' → proc_pages q' oT' ++ fl' ≡ₚ proc_pages q oT ++ fl →
  (∀ x, x ∉ proc_pages q oT ++ fl → mem m' !! x = mem m !! x) →
  mem_ok m' (<[c := q']> l) (<[c := oT']> Ts) fl' ∧
  all_pages (<[c := q']> l) (<[c := oT']> Ts) ++ fl' ≡ₚ all_pages l Ts ++ fl.
Proof.
  intros Hok Hq HT Hmem Hpg Hm. pose proof (mo_nodup _ _ _ _ Hok) as Hnd.
  assert (all_pages (<[c := q']> l) (<[c := oT']> Ts) ++ fl' ≡ₚ all_pages l Ts ++ fl) as Hall.
  { pose proof (all_pages_insert l Ts c q oT q' oT' Hq HT) as Hins. apply (Permutation_app_inv_l (proc_pages q oT)).
    rewrite (assoc_L (++)), Hins, <-(assoc_L (++)), (Permutation_app_swap_app (proc_pages q' oT')), Hpg.
    by rewrite (Permutation_app_swap_app (all_pages l Ts)). }
  split; [|done]. split.
  - rewrite !length_insert. apply Hok.
  - intros j r oR Hr HR. destruct (decide (j = c)) as [->|Hne].
    + rewrite list_lookup_insert_eq in Hr by (by eapply lookup_lt_Some). rewrite list_lookup_insert_eq in HR by (by eapply lookup_lt_Some). by simplify_eq.
    + rewrite list_lookup_insert_ne in Hr by done. rewrite list_lookup_insert_ne in HR by done.
      eapply proc_mem_frame; [by eapply (mo_proc _ _ _ _ Hok)|apply Hmem|]. intros x Hx.
      assert (x ∉ proc_pages q oT ++ fl) as Hn by (by eapply (pages_free_apart m l Ts fl j r oR)).
      split; [by apply Hm|]. rewrite <-Hpg in Hn. rewrite not_elem_of_app in Hn. tauto.
  - apply Hmem.
  - by rewrite Hall.
Qed.

(** Fields that have nothing to do with memory. *)
Lemma mem_ok_same m l Ts fl m' l' :
  mem_ok m l Ts fl → Forall2 same_mem l l' → mem m' = mem m → head m' = head m → KMEM ∉ held m' → mem_ok m' l' Ts fl.
Proof.
  intros Hok Hs Hm Hh Hl. split.
  - rewrite (mo_len _ _ _ _ Hok). by eapply Forall2_length.
  - intros j q' oT Hq' HT. destruct (Forall2_lookup_r _ _ _ _ _ Hs Hq') as (q & Hq & E1 & E2 & E3 & E4).
    eapply (proc_mem_eq kernel_end); [by eapply (mo_proc _ _ _ _ Hok)|done..].
  - destruct (mo_kinv _ _ _ _ Hok) as [A B C D E _]. split; rewrite ?Hm, ?Hh; done.
  - rewrite (all_pages_same _ _ _ Hs). apply Hok.
Qed.
End mem_ok.

(** ** The invariant *)

Section procs.
Context (kernel_end : usize) (Hend_pos : 0 < kernel_end).

Local Abbreviation proc_mem := (proc_mem kernel_end).
Local Abbreviation mem_ok := (mem_ok kernel_end).
Local Abbreviation ram_page := (ram_page kernel_end).

(** Between two system calls: [Ts] are the address spaces of the processes, [fl]
    is the free list, [leak] are inode references that nobody holds any more. *)
Record procs_ok (s : kernel) (Ts : list (option ptree)) (fl : list Z) (leak : gmultiset nat) : Prop := {
  po_fds : fds_ok s;
  po_inodes : icache_ok (k_fs s) (inode_refs s leak);
  po_mem : mem_ok (ram_of s) (procs s) Ts fl;
  po_clean j q : procs s !! j = Some q → state q = Unused → q = Process_unused;
  po_alive j q : procs s !! j = Some q → state q ≠ Unused →
    ram_page (trapframe q) ∧ ∃ T, Ts !! j = Some (Some T) ∧ stack_mapped kernel_end T;
  po_zombie j q : procs s !! j = Some q → state q = Zombie → ofile q = null_ofile;
  po_parent j q : procs s !! j = Some q → parent q ≠ Some j;
  po_init : ∃ j q, initproc s = Some j ∧ procs s !! j = Some q ∧ state q ≠ Unused ∧ parent q = None ∧
    holds (k_fs s) (cwd q) ROOTINO;
  po_running i : cpu_proc s = Some i → ∃ p, procs s !! i = Some p ∧ state p = Running;
}.

Lemma multiplicity_size (j : nat) (m : gmultiset nat) : (multiplicity j m ≤ base.size m)%nat.
Proof.
  transitivity (base.size (multiplicity j m *: {[+ j +]} : gmultiset nat)).
  - rewrite gmultiset_size_scalar_mul, gmultiset_size_singleton. lia.
  - apply gmultiset_subseteq_size. intros x. rewrite multiplicity_scalar_mul, multiplicity_singleton. destruct (decide (x = j)); subst; lia.
Qed.

Lemma refs_small s leak j :
  length (ftable s) = Z.to_nat NFILE → length (procs s) = Z.to_nat NPROC → Z.of_nat (base.size leak) < 2 ^ 63 →
  Z.of_nat (multiplicity j (inode_refs s leak)) + 2 < USIZE_MAX.
Proof.
  intros Hf Hp Hleak. unfold inode_refs. rewrite !multiplicity_disj_union.
  pose proof (refs_of_count j (inode_of <$> ftable s)) as H1. pose proof (refs_of_count j (cwd_of <$> procs s)) as H2.
  rewrite length_fmap in H1. rewrite length_fmap in H2. rewrite Hf in H1. rewrite Hp in H2. pose proof (multiplicity_size j leak).
  change (Z.to_nat NFILE) with 100%nat in H1. change (Z.to_nat NPROC) with 16%nat in H2. unfold USIZE_MAX. lia.
Qed.

Lemma inode_refs_small s leak j :
  fds_ok s → Z.of_nat (base.size leak) < 2 ^ 63 → Z.of_nat (multiplicity j (inode_refs s leak)) + 2 < USIZE_MAX.
Proof. intros [[Hf _ Hp] _ _]. by apply refs_small; [apply Hf|]. Qed.

(** The files of an inode are among its references. *)
Lemma inode_files_refs j l : inode_files j l = multiplicity j (refs_of (inode_of <$> l)).
Proof.
  induction l as [|f l IH]; [done|]. rewrite fmap_cons. change (inode_of f :: ?t) with ([inode_of f] ++ t).
  change (inode_of f :: (inode_of <$> l)) with ([inode_of f] ++ (inode_of <$> l)).
  rewrite refs_of_app, multiplicity_disj_union, <-IH. unfold inode_files. rewrite filter_cons.
  destruct (decide (inode_of f = Some j)) as [->|Hne]; [by rewrite refs_of_one, multiplicity_singleton_eq|].
  destruct (inode_of f) as [x|]; [rewrite refs_of_one, multiplicity_singleton_ne by congruence; done|by rewrite refs_of_none].
Qed.

Lemma files_ok_refs s refs s' leak :
  files_ok s refs → ftable s' = ftable s → pipes s' = pipes s → length (procs s') = Z.to_nat NPROC →
  icache_ok (k_fs s') (inode_refs s' leak) → Z.of_nat (base.size leak) < 2 ^ 63 → files_ok s' refs.
Proof.
  intros [A B C D E F] Hf Hq Hlen Hic Hleak. split; rewrite ?Hf, ?Hq; try done. intros j Hj.
  pose proof (refs_small s' leak j) as Hsmall. rewrite Hf in Hsmall. specialize (Hsmall A Hlen Hleak).
  rewrite inode_files_refs in Hj |- *. rewrite <-Hf in Hj |- *.
  assert (j ∈ inode_refs s' leak) as Hin by (apply elem_of_multiplicity; unfold inode_refs; rewrite !multiplicity_disj_union; lia).
  destruct (lookup_lt_is_Some_2 (icache (k_fs s')) j) as [ip Hip]; [rewrite (ic_len _ _ Hic); by apply Hic|].
  exists ip. split; [done|]. rewrite (ic_count _ _ Hic j ip Hip). unfold inode_refs in *. rewrite !multiplicity_disj_union in *. lia.
Qed.

(** Process [j] has the pages it had and what was in them, unless it was a zombie
    child of [i] that has been collected. *)
Definition undisturbed (i : nat) (s : kernel) (Ts : list (option ptree)) (s' : kernel) (Ts' : list (option ptree)) (j : nat) : Prop :=
  ∀ q oT, procs s !! j = Some q → Ts !! j = Some oT → proc_pages q oT ≠ [] →
    (∃ q', procs s' !! j = Some q' ∧ same_mem q q') ∧ Ts' !! j = Some oT ∧
      (∀ x, x ∈ proc_pages q oT → mem (k_ram s') !! x = mem (k_ram s) !! x) ∨
    state q = Zombie ∧ parent q = Some i ∧ procs s' !! j = Some Process_unused.

(** A change confined to one slot and the free list. *)
Lemma slot_undisturbed i s Ts fl s' c q oT q' oT' j :
  mem_ok (ram_of s) (procs s) Ts fl → procs s !! c = Some q → Ts !! c = Some oT → procs s' = <[c := q']> (procs s) →
  (∀ x, x ∉ proc_pages q oT ++ fl → mem (k_ram s') !! x = mem (k_ram s) !! x) → j ≠ c → undisturbed i s Ts s' (<[c := oT']> Ts) j.
Proof.
  intros Hok Hq HT Hps Hm Hne r oR Hr HR _. left. rewrite Hps, !list_lookup_insert_ne by done. split_and!; [by exists r|done|].
  intros x Hx. apply Hm. by eapply (pages_free_apart _ _ _ _ _ j r oR).
Qed.

(** *** Collecting a child *)

Section wait.
Context (s : kernel) (Ts : list (option ptree)) (fl : list Z) (leak : gmultiset nat) (i : nat) (p : Process) (T : ptree).
Context (Hok : procs_ok s Ts fl leak) (Hleak : Z.of_nat (base.size leak) < 2 ^ 63).
Context (Hi : cpu_proc s = Some i) (Hp : procs s !! i = Some p) (HT : Ts !! i = Some (Some T)).
Context (va : usize) (Hva : 0 ≤ va ≤ USIZE_MAX).

Definition status_bytes (q : Process) : list u8 := le_bytes 4 (xstate q mod 2 ^ 32).

(** The exit status on its way to the parent. *)
Lemma wait_status q s1 :
  procs s1 !! i = Some p → proc_mem (ram_of s1) fl p (Some T) →
  wp (if negb (va =? 0) then p ← proc_slot i; in_ram (copyout (pagetable p) va (status_bytes q)) else mret (Some tt)) s1 (λ r s2,
    only_ram s1 s2 ∧ ∃ k, copied kernel_end (ram_of s1) T fl va (status_bytes q) k (ram_of s2) ∧
    match r with
    | Some _ => k = if decide (va = 0) then 0 else 4
    | None => va ≠ 0 ∧ 0 ≤ k < 4 ∧ user_leaf T PTE_W (va + k) = None
    end).
Proof.
  intros Hp1 [_ _ (Hpt & Hsp & _) _]. destruct (Z.eqb_spec va 0) as [->|Hne]; cbn [negb].
  - wp_steps. split; [apply only_ram_refl|]. exists 0. split; [|done]. split; [done|done| |done].
    intros perm a Ha. rewrite (option_fmap_ext _ id); [by rewrite option_fmap_id|]. intros x. by rewrite decide_False by lia.
  - wp_step. eapply wp_proc_slot; [done|]. rewrite Hpt. apply wp_ram.
    assert (length (status_bytes q) = 4%nat) as Hl by apply length_le_bytes.
    wp_call (copyout_spec kernel_end Hend_pos (ram_of s1) T fl (status_bytes q) va Hsp Hva); [rewrite Hl; done|apply le_bytes_ok|].
    intros r m (k & Hc & Hr). split; [apply (cp_held _ _ _ _ _ _ _ _ Hc)|]. intros s2 O <-. split; [done|]. exists k.
    split; [done|]. rewrite decide_False by done. rewrite Hl in Hr. destruct r; [lia|]. split_and!; [done|lia|lia|apply Hr].
Qed.

(** Child [c] is gone: its slot is free and clean, its pages are on the free list,
    its working directory has one reference less, and the parent finds the exit
    status where it asked for it. *)
Record reaped (c : nat) (q : Process) (oT : option ptree) (s' : kernel) (fl' : list Z) : Prop := {
  rp_state : s' = set_procs (<[c := Process_unused]> (procs s)) (set_k_fs (k_fs s') (set_k_ram (k_ram s') s));
  rp_fs : fs_of s' = drop_ref (cwd q) (fs_of s);
  rp_free : fl' ≡ₚ proc_pages q oT ++ fl;
  rp_bytes perm a : 0 ≤ a → ubyte (mem (k_ram s')) T perm a =
    (λ x, if decide (va ≠ 0 ∧ va ≤ a < va + 4) then status_bytes q !!! Z.to_nat (a - va) else x) <$> ubyte (mem (k_ram s)) T perm a;
  rp_frame x : x ∉ proc_pages q oT → ¬ owns_page T x → mem (k_ram s') !! x = mem (k_ram s) !! x;
  rp_mem : mem_ok (ram_of s') (procs s') (<[c := None]> Ts) fl';
  rp_pages : all_pages (procs s') (<[c := None]> Ts) ++ fl' ≡ₚ all_pages (procs s) Ts ++ fl;
}.

(** Writing to the parent's memory. *)
Lemma wait_copied s1 s2 src k :
  procs s1 = procs s → mem_ok (ram_of s1) (procs s) Ts fl → only_ram s1 s2 → copied kernel_end (ram_of s1) T fl va src k (ram_of s2) →
  mem_ok (ram_of s2) (procs s) Ts fl ∧ ∀ x, ¬ owns_page T x → mem (ram_of s2) !! x = mem (ram_of s1) !! x.
Proof.
  intros Hps Hm O [C1 C2 C3 C4].
  assert (∀ x, ¬ owns_page T x → mem (ram_of s2) !! x = mem (ram_of s1) !! x) as Hframe.
  { intros x Hx. apply C4. intros w e Hw Hu He. apply Hx. right. eauto. }
  split; [|done]. pose proof (mo_proc _ _ _ _ _ Hm i p _ Hp HT) as [P1 P2 (P3 & P4 & P5) P6].
  destruct (mem_ok_step kernel_end (ram_of s1) (procs s) Ts fl i p (Some T) (ram_of s2) p (Some T) fl) as [H _]; try done.
  - split; [apply C1|done|by split_and!|done].
  - intros x Hx. apply Hframe. rewrite (owned_frames T _ x P5). intros Ho. apply Hx.
    unfold proc_pages. cbn [from_option]. rewrite !elem_of_app. tauto.
  - by rewrite !list_insert_id in H.
Qed.

Lemma drop_ref_held h k f : set_held h (drop_ref k f) = drop_ref k (set_held h f).
Proof. unfold drop_ref. change (icache (set_held h f)) with (icache f). by destruct (icache f !! k). Qed.

Lemma wait_held : k_held s = [].
Proof. apply (fd_table _ (po_fds _ _ _ _ Hok)). Qed.

(** From the copied status and the freed process to the final state. *)
Lemma wait_reaped c q oT s1 s2 s3 fl' k :
  procs s !! c = Some q → Ts !! c = Some oT → i ≠ c → k = (if decide (va = 0) then 0 else 4) →
  s1 = set_held [LProc c; WAIT_LOCK] s → mem_ok (ram_of s1) (procs s) Ts fl →
  only_ram s1 s2 → copied kernel_end (ram_of s1) T fl va (status_bytes q) k (ram_of s2) →
  s3 = set_procs (<[c := Process_unused]> (procs s2)) (set_k_fs (k_fs s3) (set_k_ram (k_ram s3) s2)) →
  pages_freed kernel_end (ram_of s2) fl (proc_pages q oT) (ram_of s3) fl' → fs_of s3 = drop_ref (cwd q) (fs_of s2) →
  reaped c q oT (set_held [] s3) fl'.
Proof.
  intros Hq HTc Hic Hk E1 Hm1 O2 Hcp E3 [F1 F2 F3 F4] Hfs.
  assert (procs s1 = procs s) as Hps1 by (by rewrite E1). destruct (wait_copied s1 s2 _ _ Hps1 Hm1 O2 Hcp) as [Hm2 Hfr2].
  pose proof (mo_nodup _ _ _ _ _ Hm2) as Hnd.
  assert (∀ x, owns_page T x → x ∉ proc_pages q oT) as Hapart.
  { intros x Hx. pose proof (mo_proc _ _ _ _ _ Hm2 i p _ Hp HT) as [_ _ (_ & _ & Hps) _]. rewrite (owned_frames T _ x Hps) in Hx.
    apply NoDup_app in Hnd as (Hnd & _ & _). eapply (all_pages_apart _ _ i p (Some T)); try done.
    unfold proc_pages. cbn [from_option]. rewrite !elem_of_app. tauto. }
  assert (KMEM ∉ held (ram_of (set_held [] s3))) as Hkm by apply not_elem_of_nil.
  assert (procs s3 = <[c := Process_unused]> (procs s)) as Hps3 by (rewrite E3, O2; cbn; by rewrite Hps1).
  destruct (mem_ok_step kernel_end (ram_of s2) (procs s) Ts fl c q oT (ram_of s3) Process_unused None fl') as [Hm3 Hpg]; try done.
  { split; [done|by apply Forall_nil|done|apply F1]. }
  { intros x Hx. apply F4. rewrite not_elem_of_app in Hx. tauto. }
  split.
  - rewrite E3, O2, E1. unfold set_procs, set_k_fs, set_k_ram. cbn. by rewrite wait_held.
  - apply (f_equal (set_held [])) in Hfs. rewrite drop_ref_held in Hfs. unfold fs_of in *. rewrite wait_held.
    rewrite O2, E1 in Hfs. exact Hfs.
  - done.
  - intros perm a Ha. change (mem (k_ram (set_held [] s3))) with (mem (ram_of s3)).
    rewrite (ubyte_frame (mem (ram_of s2))) by (intros x Hx; apply F4, Hapart, Hx). rewrite (cp_bytes _ _ _ _ _ _ _ _ Hcp perm a Ha), E1.
    apply option_fmap_ext. intros x. rewrite Hk. destruct (decide (va = 0)) as [->|]; (destruct (decide _), (decide _); try done; lia).
  - intros x Hx Ho. change (mem (k_ram (set_held [] s3))) with (mem (ram_of s3)). rewrite F4, Hfr2 by done. by rewrite E1.
  - eapply mem_ok_same; [exact Hm3| |done|done|done]. change (procs (set_held [] s3)) with (procs s3). rewrite Hps3.
    reflexivity.
  - change (procs (set_held [] s3)) with (procs s3). by rewrite Hps3.
Qed.

Definition zombie_of (q : Process) : bool := bool_decide (parent q = Some i) && bool_decide (state q = Zombie).

(** The status address is bad: [WAIT_LOCK] stays taken. *)
Definition status_lost (s' : kernel) : Prop :=
  ∃ k, 0 ≤ k < 4 ∧ va ≠ 0 ∧ user_leaf T PTE_W (va + k) = None ∧ held s' = [WAIT_LOCK] ∧ procs s' = procs s.

Lemma wait_one_hit c q b :
  procs s !! c = Some q → zombie_of q = true →
  wp (wait_one kernel_end i va c b) (set_held [WAIT_LOCK] s) (λ r s',
    match r with
    | inl _ => False
    | inr v => v = as_isize (pid q) ∧ (∃ oT fl', Ts !! c = Some oT ∧ reaped c q oT s' fl') ∨ v = -1 ∧ status_lost s'
    end).
Proof.
  intros Hq Hz. apply andb_true_iff in Hz as [Hpar%bool_decide_eq_true Hz%bool_decide_eq_true].
  assert (i ≠ c) as Hic by (intros <-; by apply (po_parent _ _ _ _ Hok _ _ Hq)).
  destruct (mem_ok_at kernel_end _ _ _ _ _ _ (po_mem _ _ _ _ Hok) Hq) as (oT & HTc & _).
  unfold wait_one. wp_step. apply wp_acquire; [not_in|]. wp_step. eapply wp_proc_slot; [exact Hq|].
  rewrite decide_True, decide_True by done. set (s1 := set_held [LProc c; WAIT_LOCK] s).
  assert (mem_ok (ram_of s1) (procs s) Ts fl) as Hm1.
  { eapply mem_ok_same; [apply Hok|reflexivity|done|done|]. change (held (ram_of s1)) with [LProc c; WAIT_LOCK]. not_in. }
  wp_step. eapply wp_mono; [apply (wait_status q s1); [done|by eapply (mo_proc _ _ _ _ _ Hm1)]|].
  intros [[]|] s2 (O2 & k & Hcp & Hk).
  - destruct (wait_copied s1 s2 _ _ eq_refl Hm1 O2 Hcp) as [Hm2 _].
    assert (procs s2 = procs s ∧ held s2 = [LProc c; WAIT_LOCK] ∧ k_fs s2 = k_fs s) as (Hps2 & Hh2 & Hfs2) by (by rewrite O2).
    wp_call (freeproc_spec kernel_end Hend_pos s2 c q oT fl).
    { rewrite Hh2. by left. } { by rewrite Hps2. } { by eapply (po_zombie _ _ _ _ Hok). } { by eapply (mo_proc _ _ _ _ _ Hm2). }
    { rewrite Hfs2. eapply has_ref_ok; [apply Hok|eapply cwd_referred; [done|by rewrite Hz]|].
      pose proof (inode_refs_small s leak (cwd q) (po_fds _ _ _ _ Hok) Hleak). lia. }
    { rewrite Hh2. split; intros; not_in. }
    intros [] s3 (fl' & E3 & F3 & Hfs3). assert (held s3 = [LProc c; WAIT_LOCK]) as Hh3 by (by rewrite E3).
    wp_step. eapply (wp_release_in _ [] [WAIT_LOCK]); [done|not_in|]. wp_step.
    eapply (wp_release_in _ [] []); [done|not_in|]. wp_steps. left. split; [done|]. exists oT, fl'. split; [done|].
    by eapply (wait_reaped c q oT s1 s2 s3 fl' k).
  - destruct Hk as (Hne & Hk & Hnone). wp_step. eapply (wp_release_in _ [] [WAIT_LOCK]); [by rewrite O2|not_in|]. wp_steps.
    right. split; [done|]. exists k. split_and!; try done; lia || by rewrite O2.
Qed.

Lemma wait_one_miss c q b :
  procs s !! c = Some q → zombie_of q = false →
  wp (wait_one kernel_end i va c b) (set_held [WAIT_LOCK] s) (λ r s',
    r = inl (if decide (parent q = Some i) then true else b) ∧ s' = set_held [WAIT_LOCK] s).
Proof.
  intros Hq Hz. unfold wait_one. wp_step. apply wp_acquire; [not_in|]. wp_step. eapply wp_proc_slot; [exact Hq|].
  assert (∀ v : bool + isize, wp (release (LProc c);; mret v) (set_held (LProc c :: held (set_held [WAIT_LOCK] s)) (set_held [WAIT_LOCK] s))
    (λ r s', r = v ∧ s' = set_held [WAIT_LOCK] s)) as Hrel.
  { intros v. wp_step. eapply (wp_release_in _ [] [WAIT_LOCK]); [done|not_in|]. by wp_steps. }
  destruct (decide (parent q = Some i)) as [Hpar|]; [|apply Hrel]. rewrite decide_False; [apply Hrel|].
  intros Hs. unfold zombie_of in Hz. by rewrite !bool_decide_eq_true_2 in Hz.
Qed.

(** [wait]: which child it takes, and what it says when there is none. *)
Definition waited (r : segment unit isize) (s' : kernel) : Prop :=
  match r with
  | Return v =>
      has_child i (procs s) = false ∧ v = -1 ∧ s' = s ∨
      ∃ c q, procs s !! c = Some q ∧ zombie_of q = true ∧ (∀ j y, (j < c)%nat → procs s !! j = Some y → zombie_of y = false) ∧
        (v = as_isize (pid q) ∧ (∃ oT fl', Ts !! c = Some oT ∧ reaped c q oT s' fl') ∨ v = -1 ∧ status_lost s')
  | Block ch lk _ =>
      has_child i (procs s) = true ∧ (∀ j y, procs s !! j = Some y → zombie_of y = false) ∧
      ch = ProcChan i ∧ lk = WAIT_LOCK ∧ s' = set_held [WAIT_LOCK] s
  end.

Lemma wait_loop_spec : wp (wait_loop kernel_end va) (set_held [WAIT_LOCK] s) waited.
Proof.
  pose proof (fd_table _ (po_fds _ _ _ _ Hok)) as [_ _ Hlen]. unfold wait_loop. wp_step. eapply wp_myproc; [exact Hi|].
  apply wp_bind. apply (wp_for_each (λ pre b s', s' = set_held [WAIT_LOCK] s ∧ b = has_child i (take (length pre) (procs s)) ∧
    ∀ j y, (j < length pre)%nat → procs s !! j = Some y → zombie_of y = false)).
  - split_and!; [done|done|]. cbn. lia.
  - intros pre c post b s' Hpre (-> & -> & Hseen).
    assert (c = length pre ∧ (c < Z.to_nat NPROC)%nat) as [-> Hc].
    { assert (proc_slots !! length pre = Some c) as Hx by (rewrite Hpre; by apply list_lookup_middle). apply lookup_seq in Hx. lia. }
    destruct (lookup_lt_is_Some_2 (procs s) (length pre)) as [q Hq]; [lia|]. destruct (zombie_of q) eqn:Hz.
    + eapply wp_mono; [by apply (wait_one_hit _ q)|]. intros [?|v] s' H; [done|]. wp_steps. right. exists (length pre), q. by split_and!.
    + eapply wp_mono; [by apply (wait_one_miss _ q)|]. intros r s' [-> ->]. rewrite length_app. cbn [length]. rewrite Nat.add_1_r.
      split_and!; [done| |].
      * rewrite (take_S_r _ _ _ Hq). unfold has_child. rewrite existsb_app. cbn. rewrite orb_false_r.
        destruct (decide _); [rewrite bool_decide_eq_true_2 by done; by rewrite orb_true_r|rewrite bool_decide_eq_false_2 by done; by rewrite orb_false_r].
      * intros j y Hj Hy. destruct (decide (j = length pre)) as [->|]; [by simplify_eq|]. apply (Hseen j y); [lia|done].
  - intros b s' (-> & -> & Hseen). unfold proc_slots in *. rewrite length_seq, <-Hlen, firstn_all in *.
    assert (∀ j y, procs s !! j = Some y → zombie_of y = false) as Hnone.
    { intros j y Hy. apply (Hseen j y); [by eapply lookup_lt_Some|done]. }
    destruct (has_child i (procs s)) eqn:Hch; cbn [negb].
    + wp_steps. by split_and!.
    + wp_step. eapply (wp_release_in _ [] []); [done|not_in|]. wp_steps. left. split_and!; [done|done|].
      pose proof wait_held as Hh. clear - Hh. destruct s. cbn in *. by subst.
Qed.

Lemma wait_spec : wp (wait kernel_end va) s waited.
Proof.
  unfold wait. wp_step. eapply wp_myproc; [exact Hi|]. wp_step. apply wp_acquire; [change (held s) with (k_held s); rewrite wait_held; apply not_elem_of_nil|].
  change (held s) with (k_held s). rewrite wait_held. apply wait_loop_spec.
Qed.

(** *** The invariant after a child has been collected *)

Lemma drop_ref_ok f refs k : icache_ok f refs → k ∈ refs → icache_ok (drop_ref k f) (refs ∖ {[+ k +]}).
Proof.
  intros Hic Hk. destruct (lookup_lt_is_Some_2 (icache f) k) as [ip Hip]; [rewrite (ic_len _ _ Hic); by apply Hic|].
  unfold drop_ref. rewrite Hip. by apply one_less_ref.
Qed.

Lemma drop_ref_holds f k j n : holds f j n → holds (drop_ref k f) j n.
Proof.
  intros (ip & Hj & Hn). unfold drop_ref. destruct (icache f !! k) as [kp|] eqn:Hk; [|by exists ip].
  unfold holds, put_inode. cbn. destruct (decide (j = k)) as [->|Hne].
  - rewrite list_lookup_insert_eq by (by eapply lookup_lt_Some). simplify_eq. by eexists.
  - rewrite list_lookup_insert_ne by done. by exists ip.
Qed.

Lemma holds_icache f g j n : holds f j n → icache g = icache f → holds g j n.
Proof. intros (ip & H & Hn) Hi'. exists ip. by rewrite Hi'. Qed.

(** The slot of the child and the others. *)
Lemma reaped_lookup c q oT s' fl' j r :
  reaped c q oT s' fl' → procs s !! c = Some q → procs s' !! j = Some r → j = c ∧ r = Process_unused ∨ j ≠ c ∧ procs s !! j = Some r.
Proof.
  intros [E _ _ _ _ _ _] Hq. rewrite E. cbn. destruct (decide (j = c)) as [->|Hne].
  - rewrite list_lookup_insert_eq by (by eapply lookup_lt_Some). intros [= <-]. by left.
  - rewrite list_lookup_insert_ne by done. by right.
Qed.

Lemma reaped_inodes c q oT s' fl' :
  procs s !! c = Some q → state q = Zombie → reaped c q oT s' fl' → icache_ok (k_fs s') (inode_refs s' leak).
Proof.
  intros Hq Hz [E Hfs _ _ _ _ _]. assert (cwd q ∈ inode_refs s leak) as Hin by (eapply cwd_referred; [done|by rewrite Hz]).
  assert (inode_refs s' leak = inode_refs s leak ∖ {[+ cwd q +]}) as ->.
  { assert ((cwd_of <$> procs s) !! c = Some (Some (cwd q))) as Hc by (rewrite list_lookup_fmap, Hq; cbn; unfold cwd_of; by rewrite Hz).
    pose proof (refs_of_insert _ c _ None Hc) as Hr. rewrite refs_of_one, refs_of_none, (right_id_L ∅ (⊎)) in Hr.
    unfold inode_refs. rewrite E. cbn [ftable procs set_procs set_k_fs set_k_ram]. rewrite list_fmap_insert.
    change (cwd_of Process_unused) with (@None nat). rewrite <-Hr. clear. multiset_solver. }
  eapply icache_ok_icache; [by apply drop_ref_ok; [apply Hok|exact Hin]|].
  apply (f_equal icache) in Hfs. etrans; [exact Hfs|]. unfold drop_ref, fs_of. change (icache (set_held ?h ?f)) with (icache f).
  by destruct (icache (k_fs s) !! cwd q).
Qed.

Lemma reaped_undisturbed c q oT s' fl' j :
  procs s !! c = Some q → Ts !! c = Some oT → zombie_of q = true → reaped c q oT s' fl' → j ≠ i →
  undisturbed i s Ts s' (<[c := None]> Ts) j.
Proof.
  clear Hva Hleak. intros Hq HTc [Hpar%bool_decide_eq_true Hz%bool_decide_eq_true]%andb_true_iff [E _ _ _ Hfr _ _] Hji r oR Hr HR _. pose proof (po_mem _ _ _ _ Hok) as Hm.
  assert (procs s' = <[c := Process_unused]> (procs s)) as Hps by (by rewrite E). rewrite Hps.
  destruct (decide (j = c)) as [->|Hne].
  - right. rewrite list_lookup_insert_eq by (by eapply lookup_lt_Some). by simplify_eq.
  - left. rewrite !list_lookup_insert_ne by done. split_and!; [by exists r|done|]. intros x Hx. apply Hfr.
    + pose proof (pages_free_apart _ _ _ _ _ j r oR c q oT x Hm Hr HR Hq HTc Hne Hx) as Hn. rewrite not_elem_of_app in Hn. tauto.
    + intros Ho. pose proof (pages_free_apart _ _ _ _ _ j r oR i p (Some T) x Hm Hr HR Hp HT Hji Hx) as Hn. apply Hn.
      destruct (mo_proc _ _ _ _ _ Hm i p _ Hp HT) as [_ _ (_ & _ & Hps') _]. rewrite (owned_frames T _ x Hps') in Ho.
      unfold proc_pages. cbn [from_option]. rewrite !elem_of_app. tauto.
Qed.

Lemma reaped_fds c q oT s' fl' : procs s !! c = Some q → state q = Zombie → reaped c q oT s' fl' → fds_ok s'.
Proof.
  intros Hq Hz Hr. destruct (po_fds _ _ _ _ Hok) as [[Hfo Hh Hlen] Hlens He]. pose proof (rp_state _ _ _ _ _ Hr) as E.
  assert (procs s' = <[c := Process_unused]> (procs s)) as Hps by (by rewrite E).
  assert (fd_tables s' = fd_tables s) as Ht.
  { unfold fd_tables. rewrite Hps, list_fmap_insert. apply list_insert_id. rewrite list_lookup_fmap, Hq. cbn.
    by rewrite (po_zombie _ _ _ _ Hok _ _ Hq Hz). }
  split; rewrite ?Ht; [|done|eapply ends_ok_eq; [done|by rewrite E..]]. split; [|by rewrite E|by rewrite Hps, length_insert].
  eapply files_ok_refs; [done|by rewrite E|by rewrite E|by rewrite Hps, length_insert|by eapply reaped_inodes|done].
Qed.

Lemma reaped_ok c q oT s' fl' :
  procs s !! c = Some q → zombie_of q = true → reaped c q oT s' fl' → procs_ok s' (<[c := None]> Ts) fl' leak.
Proof.
  intros Hq Hzo Hr. apply andb_true_iff in Hzo as [Hpar%bool_decide_eq_true Hz%bool_decide_eq_true].
  pose proof (reaped_lookup c q oT s' fl') as Hlk. pose proof (rp_state _ _ _ _ _ Hr) as E.
  split; [by eapply reaped_fds|by eapply reaped_inodes|apply Hr|..].
  - intros j r Hj Hu. destruct (Hlk j r Hr Hq Hj) as [(_ & ->)|[_ Hj']]; [done|]. by eapply (po_clean _ _ _ _ Hok).
  - intros j r Hj Hu. destruct (Hlk j r Hr Hq Hj) as [(_ & ->)|[Hne Hj']]; [done|]. rewrite list_lookup_insert_ne by done.
    by eapply (po_alive _ _ _ _ Hok).
  - intros j r Hj Hu. destruct (Hlk j r Hr Hq Hj) as [(_ & ->)|[Hne Hj']]; [done|]. by eapply (po_zombie _ _ _ _ Hok).
  - intros j r Hj. destruct (Hlk j r Hr Hq Hj) as [(_ & ->)|[Hne Hj']]; [done|]. by eapply (po_parent _ _ _ _ Hok).
  - destruct (po_init _ _ _ _ Hok) as (j & r & Hj & Hr' & Hs & Hp' & Hh). exists j, r. split_and!; [by rewrite E| |done|done|].
    + rewrite E. cbn. rewrite list_lookup_insert_ne; [done|]. intros ->. congruence.
    + eapply holds_icache; [exact (drop_ref_holds _ (cwd q) _ _ Hh)|]. etrans; [exact (f_equal icache (rp_fs _ _ _ _ _ Hr))|].
      unfold drop_ref, fs_of. change (icache (set_held ?h ?f)) with (icache f). by destruct (icache (k_fs s) !! cwd q).
  - intros j Hj. assert (cpu_proc s = Some j) as Hj' by (by rewrite E in Hj).
    destruct (po_running _ _ _ _ Hok j Hj') as (r & Hr' & Hs). exists r. split; [|done]. rewrite E. cbn.
    rewrite list_lookup_insert_ne; [done|]. intros ->. congruence.
Qed.
End wait.

(** *** Changes that leave memory alone *)

Definition kept (q q' : Process) : Prop :=
  same_mem q q' ∧ cwd q' = cwd q ∧ (state q = Unused → q' = q) ∧ (state q ≠ Unused → state q' ≠ Unused).

#[local] Instance kept_preorder : PreOrder kept.
Proof.
  split; [by intros q|]. intros q q1 q2 (A1 & A2 & A3 & A4) (B1 & B2 & B3 & B4). split_and!; [by etrans|congruence| |tauto].
  intros Hu. rewrite B3; [by apply A3|]. by rewrite A3.
Qed.

Lemma kept_cwds l l' : Forall2 kept l l' → cwd_of <$> l' = cwd_of <$> l.
Proof.
  induction 1 as [|q q' l l' (_ & Hc & Hu & Ha) _ IH]; [done|]. rewrite !fmap_cons, IH. f_equal. unfold cwd_of.
  destruct (decide (state q = Unused)) as [Hs|Hs]; [rewrite Hu by done; by rewrite decide_True|rewrite decide_False by auto; by rewrite Hc].
Qed.

Lemma procs_ok_kept s Ts fl leak s' :
  procs_ok s Ts fl leak → Forall2 kept (procs s) (procs s') → k_ram s' = k_ram s → fds_ok s' → inodes_follow s s' →
  initproc s' = initproc s →
  (∀ j q, procs s' !! j = Some q → state q = Zombie → ofile q = null_ofile) →
  (∀ j q q', procs s !! j = Some q → procs s' !! j = Some q' → parent q' ≠ Some j ∧ (parent q = None → parent q' = None)) →
  (∀ i, cpu_proc s' = Some i → ∃ p, procs s' !! i = Some p ∧ state p = Running) →
  procs_ok s' Ts fl leak.
Proof.
  intros Hok Hl Hram Hfds [Hinum Hfol] Hin Hz Hpar Hrun.
  assert (KMEM ∉ held (ram_of s')) as Hkm.
  { change (held (ram_of s')) with (held s'). rewrite (to_held _ _ (fd_table _ Hfds)). apply not_elem_of_nil. }
  split; [done| | | | |done| | |done].
  - unfold inode_refs. rewrite (kept_cwds _ _ Hl), <-(assoc_L (⊎)). apply Hfol. rewrite (assoc_L (⊎)). apply Hok.
  - eapply mem_ok_same; [apply Hok| |unfold ram_of; by rewrite Hram..|done]. eapply Forall2_impl; [exact Hl|]. by intros q q' [].
  - intros j q' Hj Hu. destruct (Forall2_lookup_r _ _ _ _ _ Hl Hj) as (q & Hq & (_ & _ & H1 & H2)).
    destruct (decide (state q = Unused)) as [Hs|Hs]; [|by apply H2 in Hs]. rewrite H1 by done. by eapply (po_clean _ _ _ _ Hok).
  - intros j q' Hj Hu. destruct (Forall2_lookup_r _ _ _ _ _ Hl Hj) as (q & Hq & ((_ & Htf & _) & _ & H1 & _)). rewrite Htf.
    apply (po_alive _ _ _ _ Hok j q Hq). intros Hs. apply Hu. by rewrite H1.
  - intros j q' Hj. destruct (Forall2_lookup_r _ _ _ _ _ Hl Hj) as (q & Hq & _). by eapply Hpar.
  - destruct (po_init _ _ _ _ Hok) as (j & q & Hj & Hq & Hs & Hp & (ip & Hip & Hn)).
    destruct (Forall2_lookup_l _ _ _ _ _ Hl Hq) as (q' & Hq' & (_ & Hcwd & _ & H2)). exists j, q'.
    destruct (Hpar j q q' Hq Hq') as [_ Hnone]. split_and!; [congruence|done|auto|auto|].
    apply (f_equal (lookup (cwd q))) in Hinum. rewrite !list_lookup_fmap, Hip in Hinum. unfold holds. rewrite Hcwd.
    destruct (icache (k_fs s') !! cwd q) as [ip'|]; [|done]. exists ip'. split; [done|]. cbn in Hinum. congruence.
Qed.

Lemma fds_ok_same s s' :
  fds_ok s → fd_tables s' = fd_tables s → ftable s' = ftable s → pipes s' = pipes s → same_inodes (k_fs s) (k_fs s') →
  held s' = [] → fds_ok s'.
Proof.
  intros [[[A B C D E F] Hh Hl] Hlens He] Ht Hf Hp Hk Hh'. split; rewrite ?Ht; [|done|by eapply ends_ok_eq]. split; [|done|].
  - split; rewrite ?Hf, ?Hp; try done. intros j Hj. destruct (F j Hj) as (ip & Hip & Hb).
    destruct (same_inodes_lookup _ _ _ _ (same_inodes_sym _ _ Hk) Hip) as (ip' & Hip' & _ & E'). exists ip'. split; [done|lia].
  - apply (f_equal length) in Ht. unfold fd_tables in Ht. rewrite !length_fmap in Ht. congruence.
Qed.

Lemma fds_ok_fields s s' :
  fds_ok s → fd_tables s' = fd_tables s → ftable s' = ftable s → pipes s' = pipes s → icache (k_fs s') = icache (k_fs s) →
  held s' = [] → fds_ok s'.
Proof. intros Hok Ht Hf Hp Hk. apply (fds_ok_same s); try done. unfold same_inodes. by rewrite Hk. Qed.

(** A process is moved between the states of the scheduler. *)
Definition moved (q q' : Process) : Prop :=
  ∃ st ch, q' = set_state st (set_chan ch q) ∧ state q ≠ Unused ∧ state q ≠ Zombie ∧ st ≠ Unused ∧ st ≠ Zombie.

Lemma moved_kept l i q q' : l !! i = Some q → moved q q' → Forall2 kept l (<[i := q']> l).
Proof.
  intros Hq (st & ch & -> & Hu & _ & Hu' & _). rewrite <-(list_insert_id l i q Hq) at 1.
  apply Forall2_insert; [reflexivity|]. by repeat split.
Qed.

Lemma procs_ok_moved s Ts fl leak i q q' o s' :
  procs_ok s Ts fl leak → procs s !! i = Some q → moved q q' →
  s' = set_procs (<[i := q']> (procs s)) (set_cpu_proc o s) → (∀ j, o = Some j → j = i ∧ state q' = Running) →
  procs_ok s' Ts fl leak.
Proof.
  intros Hok Hq (st & ch & Hq' & Hu & Hz & Hu' & Hz') -> Ho. pose proof (lookup_lt_Some _ _ _ Hq) as Hlt.
  assert (∀ j r, <[i := q']> (procs s) !! j = Some r → ∃ r0, procs s !! j = Some r0 ∧ parent r = parent r0 ∧ ofile r = ofile r0 ∧
    (state r = Zombie → state r0 = Zombie)) as Hlk.
  { intros j r. destruct (decide (j = i)) as [->|Hne]; [|rewrite list_lookup_insert_ne by done; by exists r].
    rewrite list_lookup_insert_eq by done. intros [= <-]. exists q. subst q'. done. }
  eapply procs_ok_kept; [exact Hok| |done| |by apply follow_same|done| | |].
  - cbn. apply (moved_kept _ _ q); [done|]. by exists st, ch.
  - eapply fds_ok_fields; [apply Hok| |done|done|done|apply Hok]. unfold fd_tables. cbn. rewrite list_fmap_insert. apply list_insert_id.
    rewrite list_lookup_fmap, Hq. by subst q'.
  - intros j r Hj Hs. destruct (Hlk j r Hj) as (r0 & Hr0 & _ & -> & H0). eapply (po_zombie _ _ _ _ Hok); eauto.
  - intros j r0 r Hj Hj'. destruct (Hlk j r Hj') as (r1 & Hr1 & -> & _). simplify_eq. split; [|done]. by eapply (po_parent _ _ _ _ Hok).
  - intros j [-> Hj]%Ho. exists q'. split; [|done]. cbn. by apply list_lookup_insert_eq.
Qed.

(** A step of process [i]: the invariant holds again, the processes and the free
    list together have the pages they had, and the other processes theirs. *)
Definition carried (i : nat) (s : kernel) (Ts : list (option ptree)) (fl : list Z) (leak : gmultiset nat) (s' : kernel) : Prop :=
  ∃ Ts' fl' leak', procs_ok s' Ts' fl' leak' ∧ all_pages (procs s') Ts' ++ fl' ≡ₚ all_pages (procs s) Ts ++ fl ∧
    (base.size leak' ≤ base.size leak + 1)%nat ∧ ∀ j, j ≠ i → undisturbed i s Ts s' Ts' j.

Lemma undisturbed_kept i s Ts s' j :
  Forall2 kept (procs s) (procs s') → mem (k_ram s') = mem (k_ram s) → undisturbed i s Ts s' Ts j.
Proof.
  intros Hl Hm q oT Hq HT _. left. destruct (Forall2_lookup_l _ _ _ _ _ Hl Hq) as (q' & Hq' & [Hsm _]).
  split_and!; [by exists q'|done|by rewrite Hm].
Qed.

Lemma carried_kept i s Ts fl leak s' :
  procs_ok s' Ts fl leak → Forall2 kept (procs s) (procs s') → k_ram s' = k_ram s → carried i s Ts fl leak s'.
Proof.
  intros Hok Hl Hm. exists Ts, fl, leak. split_and!; [done| |lia|intros j _; apply undisturbed_kept; [done|by rewrite Hm]]. rewrite (all_pages_same (procs s)); [done|].
  eapply Forall2_impl; [exact Hl|]. by intros q q' [].
Qed.

Lemma carried_moved s Ts fl leak i q q' o :
  procs_ok s Ts fl leak → procs s !! i = Some q → moved q q' → (∀ j, o = Some j → j = i ∧ state q' = Running) →
  carried i s Ts fl leak (set_procs (<[i := q']> (procs s)) (set_cpu_proc o s)).
Proof.
  intros Hok Hq Hm Ho. apply carried_kept; [by eapply procs_ok_moved|by apply (moved_kept _ _ q)|done].
Qed.

Lemma carried_refl i s Ts fl leak : procs_ok s Ts fl leak → carried i s Ts fl leak s.
Proof. intros Hok. by apply carried_kept. Qed.

Section steps.
Context (s : kernel) (Ts : list (option ptree)) (fl : list Z) (leak : gmultiset nat).
Context (Hok : procs_ok s Ts fl leak).

Lemma idle_held : k_held s = [].
Proof. apply (fd_table _ (po_fds _ _ _ _ Hok)). Qed.

(** *** Giving up and getting the processor *)

Lemma moved_state q st : state q ≠ Unused → state q ≠ Zombie → st ≠ Unused → st ≠ Zombie → moved q (set_state st q).
Proof. intros. exists st, (p_chan q). split_and!; [by destruct q|done..]. Qed.

Lemma yield_carried i :
  cpu_proc s = Some i → wp (yield_enter;; scheduler_back i) s (λ _ s', carried i s Ts fl leak s').
Proof.
  intros Hi. destruct (po_running _ _ _ _ Hok i Hi) as (p & Hp & Hrun).
  eapply wp_mono; [apply (yield_enter_spec i p); [done|done|exact idle_held]|]. intros [] s' ->.
  apply (carried_moved s Ts fl leak i p _ None); [done|done|by apply moved_state; rewrite ?Hrun|done].
Qed.

Lemma resume_state j q' : set_held [] (set_held [LProc j] (set_cpu_proc (Some j) (set_procs (<[j := q']> (procs s)) s))) =
  set_procs (<[j := q']> (procs s)) (set_cpu_proc (Some j) s).
Proof. unfold set_procs, set_cpu_proc. cbn. by rewrite idle_held. Qed.

(** The scheduler runs a process that [yield_cpu] or [fork] has left runnable. *)
Definition run_proc (j : nat) : M kernel unit := b ← scheduler_take j; if (b : bool) then yield_leave else mret tt.

Lemma run_carried j :
  cpu_proc s = None → (j < Z.to_nat NPROC)%nat →
  wp (run_proc j) s (λ _ s', carried j s Ts fl leak s').
Proof.
  intros Hi Hj. destruct (lookup_lt_is_Some_2 (procs s) j) as [q Hq]; [by rewrite (to_procs _ _ (fd_table _ (po_fds _ _ _ _ Hok)))|].
  unfold run_proc. wp_call (scheduler_take_spec j q); [done|exact idle_held|]. intros b s1 [-> ->].
  case_bool_decide as Hr; [|wp_steps; by apply carried_refl].
  unfold yield_leave. wp_step. eapply wp_myproc; [done|]. eapply (wp_release_in _ [] []); [done|not_in|].
  cbn [app]. rewrite resume_state.
  apply (carried_moved s Ts fl leak j q); [done|done|by apply moved_state; rewrite ?Hr|]. by intros ? [= <-].
Qed.

(** *** Waiting *)

(** The address at which process [i] wants the exit status is neither null nor one
    that it may write to. *)
Definition bad_status (i : nat) (va : usize) : Prop :=
  ∃ T k, Ts !! i = Some (Some T) ∧ 0 ≤ k < 4 ∧ va ≠ 0 ∧ user_leaf T PTE_W (va + k) = None.

(** A system call that has blocked sleeps until it is woken. *)
Definition or_sleep (i : nat) (m : M kernel (segment unit isize)) : M kernel (option isize) :=
  r ← m;
  match r with
  | Return v => mret (Some v)
  | Block ch lk _ => sleep_enter ch lk;; scheduler_back i;; mret None
  end.

(** What [wait] leaves, and what is left when the status address was bad. *)
Definition wait_end (i : nat) (va : usize) (s' : kernel) : Prop :=
  carried i s Ts fl leak s' ∨ bad_status i va ∧ held s' = [WAIT_LOCK].

Lemma waited_carried i p T va m s0 :
  Z.of_nat (base.size leak) < 2 ^ 63 → cpu_proc s = Some i → procs s !! i = Some p → state p = Running → Ts !! i = Some (Some T) →
  wp m s0 (waited s Ts fl i T va) → wp (or_sleep i m) s0 (λ _ s', wait_end i va s').
Proof.
  intros Hleak Hi Hp Hrun HT Hm. unfold or_sleep. apply wp_bind. eapply wp_mono; [exact Hm|]. intros [v|ch lk []] s1 Hw.
  - wp_steps. destruct Hw as [(_ & _ & ->)|(c & q & Hq & Hz & _ & [(_ & oT & fl' & HTc & Hr)|(_ & Hlost)])].
    + left. by apply carried_refl.
    + left. exists (<[c := None]> Ts), fl', leak. split_and!; [by eapply reaped_ok|by eapply rp_pages|lia|]. intros j Hj. by eapply (reaped_undisturbed s Ts fl leak i p T Hok Hp HT va c q oT s1 fl' j).
    + destruct Hlost as (k & Hk & Hne & Hnone & Hheld & _). right. split; [|done]. by exists T, k.
  - destruct Hw as (_ & _ & -> & -> & ->). apply wp_assoc_r. wp_step. eapply wp_mono; [apply (sleep_enter_spec _ _ i p); done|].
    intros [] s2 ->. wp_steps. left.
    replace (set_held [] _) with (set_procs (<[i := set_state Sleeping (set_chan (ProcChan i) p)]> (procs s)) (set_cpu_proc None s))
      by (unfold set_procs, set_cpu_proc; cbn; by rewrite idle_held).
    apply (carried_moved s Ts fl leak i p); [done|done| |done]. eexists _, _. split; [done|]. by rewrite Hrun.
Qed.

Lemma running_space i : cpu_proc s = Some i → ∃ p T, procs s !! i = Some p ∧ state p = Running ∧ Ts !! i = Some (Some T) ∧
  ram_page (trapframe p) ∧ stack_mapped kernel_end T.
Proof.
  intros Hi. destruct (po_running _ _ _ _ Hok i Hi) as (p & Hp & Hrun).
  destruct (po_alive _ _ _ _ Hok i p Hp) as (Htf & T & HT & Hst); [by rewrite Hrun|]. by exists p, T.
Qed.

Lemma wait_carried i va :
  Z.of_nat (base.size leak) < 2 ^ 63 → cpu_proc s = Some i → 0 ≤ va ≤ USIZE_MAX →
  wp (or_sleep i (wait kernel_end va)) s (λ _ s', wait_end i va s').
Proof.
  intros Hleak Hi Hva. destruct (running_space i Hi) as (p & T & Hp & Hrun & HT & _).
  eapply waited_carried; try done. by eapply wait_spec.
Qed.
End steps.

(** A process woken up in [wait] looks again. *)
Definition rerun_wait (j : nat) (va : usize) : M kernel unit :=
  b ← scheduler_take j;
  if (b : bool) then sleep_leave WAIT_LOCK;; or_sleep j (wait_loop kernel_end va);; mret tt else mret tt.

Lemma rerun_wait_carried s Ts fl leak j va :
  procs_ok s Ts fl leak → Z.of_nat (base.size leak) < 2 ^ 63 → cpu_proc s = None → (j < Z.to_nat NPROC)%nat → 0 ≤ va ≤ USIZE_MAX →
  wp (rerun_wait j va) s (λ _ s', wait_end s Ts fl leak j va s').
Proof.
  intros Hok Hleak Hi Hj Hva. pose proof (idle_held s Ts fl leak Hok) as Hh.
  destruct (lookup_lt_is_Some_2 (procs s) j) as [q Hq]; [by rewrite (to_procs _ _ (fd_table _ (po_fds _ _ _ _ Hok)))|].
  pose proof (lookup_lt_Some _ _ _ Hq) as Hlt.
  unfold rerun_wait. wp_call (scheduler_take_spec j q); [done|exact Hh|]. intros b s1 [-> ->].
  case_bool_decide as Hr; [|wp_steps; left; by apply carried_refl].
  wp_call (sleep_leave_spec WAIT_LOCK j (set_state Running q)); [done|by apply list_lookup_insert_eq|done|]. intros [] s1 ->.
  set (q' := set_chan NoChan (set_state Running q)).
  set (sA := set_procs (<[j := q']> (procs s)) (set_cpu_proc (Some j) s)).
  assert (moved q q') as Hm by (exists Running, NoChan; by rewrite Hr).
  assert (procs_ok sA Ts fl leak) as HokA.
  { eapply procs_ok_moved; [exact Hok|exact Hq|exact Hm|done|]. by intros ? [= <-]. }
  replace (set_held [WAIT_LOCK] _) with (set_held [WAIT_LOCK] sA)
    by (unfold sA, set_procs, set_cpu_proc; cbn; by rewrite list_insert_insert_eq).
  assert (procs sA !! j = Some q') as HqA by (by apply list_lookup_insert_eq).
  destruct (running_space sA Ts fl leak HokA j eq_refl) as (p & T & Hp & Hrun & HT & _). simplify_eq.
  wp_step. eapply wp_mono.
  - eapply (waited_carried sA Ts fl leak HokA j q' T va); try done. by eapply wait_loop_spec.
  - intros r s' Hw. wp_steps. destruct Hw as [(Ts' & fl' & leak' & A & B & C & D)|Hw]; [left|by right]. exists Ts', fl', leak'.
    split_and!; [done| |done|].
    2: { intros x Hx r0 oT Hr0. rewrite <-(list_lookup_insert_ne (procs s) j x q') in Hr0 by done. exact (D x Hx r0 oT Hr0). }
    rewrite B. rewrite (all_pages_same (procs s)); [done|].
    eapply Forall2_impl; [by eapply (moved_kept (procs s) j q q')|]. by intros ?? [].
Qed.

(** *** Exit *)

Lemma adopt_kept i init q : (state q = Unused → parent q ≠ Some i) → kept q (adopt i init q).
Proof.
  intros Hu. unfold adopt. destruct init as [k|]; [|reflexivity]. destruct (decide _) as [[Hp _]|]; [|reflexivity].
  split_and!; [done|done| |done]. intros Hs. by apply Hu in Hs.
Qed.

Lemma roused_kept q q' : roused q q' → kept q q'.
Proof. intros [->|[Hs ->]]; [reflexivity|]. split_and!; [done|done| |done]. by rewrite Hs. Qed.

Lemma adopt_parent i init q j :
  parent q ≠ Some j → (init = Some j → parent q = None) → parent (adopt i init q) ≠ Some j.
Proof.
  intros Hp Hn. unfold adopt. destruct init as [k|]; [|done]. destruct (decide _) as [[Hpi _]|]; [|done]. cbn.
  intros [= ->]. rewrite Hn in Hpi; done.
Qed.

Lemma exit_carried s Ts fl leak i code :
  procs_ok s Ts fl leak → cpu_proc s = Some i → wp (exit_enter code;; scheduler_back i) s (λ _ s', carried i s Ts fl leak s').
Proof.
  intros Hok Hi. destruct (po_running _ _ _ _ Hok i Hi) as (p & Hp & Hrun).
  wp_call (exit_zombie s i p code (po_fds _ _ _ _ Hok) Hi Hp Hrun (po_parent _ _ _ _ Hok i p Hp)).
  intros [] s1 (Hh & Hfds & Hz & [_ Hram Hin Hcpu Hlen Hfol] & Hothers). set (pz := zombie _ _) in Hz.
  unfold scheduler_back. wp_step. wp_step. eapply (wp_release_in _ [] []); [done|not_in|]. cbn [app].
  assert (∀ j q q', procs s !! j = Some q → procs s1 !! j = Some q' →
    kept q q' ∧ parent q' ≠ Some j ∧ (parent q = None → parent q' = None) ∧ (state q' = Zombie → ofile q' = null_ofile)) as Hlk.
  { intros j q q' Hq Hq'. destruct (decide (j = i)) as [->|Hne].
    - rewrite Hp in Hq. rewrite Hz in Hq'. injection Hq as <-. injection Hq' as <-.
      split_and!; [|exact (po_parent _ _ _ _ Hok i p Hp)|done|done]. split_and!; [done|done| |done]. by rewrite Hrun.
    - destruct (Hothers j q Hne Hq) as (r & Hr & Hro & _). simplify_eq.
      assert (kept q (adopt i (initproc s) q)) as Had.
      { apply adopt_kept. intros Hu. by rewrite (po_clean _ _ _ _ Hok _ _ Hq Hu). }
      rewrite (roused_parent _ _ Hro), (roused_ofile _ _ Hro). destruct (adopt_state i (initproc s) q) as (Hst & _ & ->).
      split_and!; [etrans; [exact Had|by apply roused_kept]| | |].
      + apply adopt_parent; [by eapply (po_parent _ _ _ _ Hok)|]. intros Hj.
        destruct (po_init _ _ _ _ Hok) as (k & r & Hk & Hr' & _ & Hn & _). congruence.
      + intros Hn. unfold adopt. destruct (initproc s); [|done]. by rewrite decide_False by (intros []; congruence).
      + intros Hzq. eapply (po_zombie _ _ _ _ Hok j q Hq). destruct Hro as [->|[_ ->]]; [by rewrite <-Hst|done]. }
  assert (Forall2 kept (procs s) (procs s1)) as Hkept.
  { apply Forall2_same_length_lookup. split; [done|]. intros j q q' Hq Hq'. by apply (Hlk j). }
  apply carried_kept; [|exact Hkept|done]. eapply procs_ok_kept; [exact Hok|exact Hkept|done| |etrans; [exact Hfol|by apply follow_same]|done| | |done].
  - eapply fds_ok_fields; [exact Hfds|done..].
  - intros j q' Hq'. destruct (Forall2_lookup_r _ _ _ _ _ Hkept Hq') as (q & Hq & _). by apply (Hlk j q).
  - intros j q q' Hq Hq'. destruct (Hlk j q q' Hq Hq') as (_ & ? & ? & _). done.
Qed.
(** *** Fork *)

Lemma holds_inums f g j n : inum <$> icache g = inum <$> icache f → holds f j n → holds g j n.
Proof.
  intros He (ip & Hip & Hn). apply (f_equal (lookup j)) in He. rewrite !list_lookup_fmap, Hip in He.
  destruct (icache g !! j) as [ip'|] eqn:Hg; [|done]. exists ip'. cbn in He. split; [done|]. congruence.
Qed.

Lemma procs_forkable s Ts fl leak i :
  procs_ok s Ts fl leak → Z.of_nat (base.size leak) < 2 ^ 63 → cpu_proc s = Some i →
  ∃ k p T, Ts !! i = Some (Some T) ∧ forkable kernel_end s fl leak k i p T.
Proof.
  intros Hok Hleak Hi. destruct (running_space s Ts fl leak Hok i Hi) as (p & T & Hp & Hrun & HT & Htf & Hst).
  destruct (po_init _ _ _ _ Hok) as (j & q & _ & Hq & Hs & _ & Hroot). exists (cwd q), p, T. split; [done|]. split; try done.
  - apply Hok.
  - split; [apply Hok|]. intros x. apply inode_refs_small; [apply Hok|done].
  - split; [by eapply cwd_referred|done].
  - apply (po_clean _ _ _ _ Hok).
  - by eapply (mo_proc _ _ _ _ _ (po_mem _ _ _ _ Hok)).
Qed.

(** An unused slot has no pages. *)
Lemma unused_space s Ts fl leak c oT :
  procs_ok s Ts fl leak → procs s !! c = Some Process_unused → Ts !! c = Some oT → proc_pages Process_unused oT = [].
Proof.
  intros Hok Hc HT. destruct oT as [T|]; [|done]. exfalso.
  destruct (mo_proc _ _ _ _ _ (po_mem _ _ _ _ Hok) c _ _ Hc HT) as [_ _ (Hpt & Hsp & _) _]. cbn in Hpt.
  destruct (owned_used kernel_end _ _ _ (pt_root T) Hsp) as [[Hr _] _]; [by left; left|]. lia.
Qed.

Section fork_ok.
Context (trampoline_start forkret : usize).
Context (s : kernel) (Ts : list (option ptree)) (fl : list Z) (leak : gmultiset nat).
Context (Hok : procs_ok s Ts fl leak).

Lemma forked_ok k i p T s' c q T' fl' :
  fds_ok s' → i ≠ c → cpu_proc s = Some i →
  forked kernel_end trampoline_start forkret s fl leak k i p T s' c q T' fl' → carried i s Ts fl leak s'.
Proof.
  intros Hfds Hic Hi [F1 F2 F3 F4 F5 F6 F7 [Htf _] F8 F9 F10 F11 F12 F13 F14]. pose proof (lookup_lt_Some _ _ _ F1) as Hlt.
  destruct (mem_ok_at kernel_end _ _ _ _ _ _ (po_mem _ _ _ _ Hok) F1) as (oT & HTc & _).
  pose proof (lookup_lt_Some _ _ _ HTc) as HltT.
  destruct F14 as (Hh & Hcpu & _ & Hin & _).
  destruct (mem_ok_step kernel_end (ram_of s) (procs s) Ts fl c Process_unused oT (ram_of s') q (Some T') fl') as [Hm Hpg]; try done.
  { apply Hok. } { by rewrite (unused_space s Ts fl leak c oT). } { by rewrite (unused_space s Ts fl leak c oT). }
  assert (∀ j r, procs s' !! j = Some r → j = c ∧ r = q ∨ j ≠ c ∧ procs s !! j = Some r) as Hlk.
  { intros j r. rewrite F2. destruct (decide (j = c)) as [->|Hne]; [rewrite list_lookup_insert_eq by done|rewrite list_lookup_insert_ne by done; by right].
    intros [= <-]. by left. }
  exists (<[c := Some T']> Ts), fl', (leak ⊎ {[+ k +]}). rewrite F2.
  split_and!; [|done|by rewrite gmultiset_size_disj_union, gmultiset_size_singleton|].
  2: { intros j Hj r oR Hr HR Hne. destruct (decide (j = c)) as [->|Hjc].
    - simplify_eq. by rewrite (unused_space s Ts fl leak c oT) in Hne.
    - eapply (slot_undisturbed i s Ts fl s' c); try done; [apply Hok|]. by rewrite (unused_space s Ts fl leak c oT). }
  split; [done|done|by rewrite F2|..].
  - intros j r Hj Hu. destruct (Hlk j r Hj) as [(_ & ->)|[_ Hj']]; [by rewrite F3 in Hu|by eapply (po_clean _ _ _ _ Hok)].
  - intros j r Hj Hu. destruct (Hlk j r Hj) as [(-> & ->)|[Hne Hj']].
    + split; [done|]. exists T'. by rewrite list_lookup_insert_eq.
    + rewrite list_lookup_insert_ne by done. by eapply (po_alive _ _ _ _ Hok).
  - intros j r Hj Hu. destruct (Hlk j r Hj) as [(_ & ->)|[_ Hj']]; [by rewrite F3 in Hu|by eapply (po_zombie _ _ _ _ Hok)].
  - intros j r Hj. destruct (Hlk j r Hj) as [(-> & ->)|[_ Hj']]; [rewrite F3; cbn; congruence|by eapply (po_parent _ _ _ _ Hok)].
  - destruct (po_init _ _ _ _ Hok) as (j & r & Hj & Hr & Hs & Hn & Hroot). exists j, r. split_and!; [congruence| |done|done|by eapply holds_inums].
    rewrite F2, list_lookup_insert_ne; [done|]. intros <-. rewrite F1 in Hr. injection Hr as <-. done.
  - intros j Hj. rewrite Hcpu in Hj. destruct (po_running _ _ _ _ Hok j Hj) as (r & Hr & Hs). exists r. split; [|done].
    rewrite F2, list_lookup_insert_ne; [done|]. intros <-. congruence.
Qed.

(** An attempt that failed. *)
Lemma undone_ok i p oT s' :
  procs s !! i = Some p → Ts !! i = Some oT → undone kernel_end s fl s' → carried i s Ts fl leak s'.
Proof.
  intros Hp HT (E & Hfs & fl' & [R1 R2 R3 R4]). pose proof (po_mem _ _ _ _ Hok) as Hm.
  assert (proc_mem (ram_of s') fl' p oT) as Hmem.
  { pose proof (mo_proc _ _ _ _ _ Hm i p oT Hp HT) as Hpm. eapply proc_mem_frame; [exact Hpm|done|]. intros x Hx.
    destruct Hpm as [_ _ _ Hnd]. apply NoDup_app in Hnd as (_ & Hd & _). specialize (Hd x Hx). split; [by apply R4|by rewrite R2]. }
  destruct (mem_ok_step kernel_end (ram_of s) (procs s) Ts fl i p oT (ram_of s') p oT fl') as [Hm' Hpg]; try done.
  { by rewrite R2. } { intros x Hx. apply R4. rewrite not_elem_of_app in Hx. tauto. }
  rewrite !list_insert_id in Hm', Hpg by done. assert (procs s' = procs s) as Hps by (by rewrite E).
  assert (icache (k_fs s') = icache (k_fs s)) as Hic by exact (f_equal icache Hfs).
  exists Ts, fl', leak. rewrite Hps. split_and!; [|done|lia|]; cycle 1.
  { intros j Hj. rewrite <-(list_insert_id Ts i oT HT) at 2. eapply (slot_undisturbed i s Ts fl s' i p oT p oT); try done.
    - by rewrite Hps, list_insert_id.
    - intros x Hx. apply R4. rewrite not_elem_of_app in Hx. tauto. }
  destruct Hok as [P1 P2 P3 P4 P5 P6 P7 P8 P9]. split; rewrite ?Hps; try done.
  - eapply fds_ok_fields; [done|unfold fd_tables; by rewrite Hps|by rewrite E|by rewrite E|done|]. rewrite E. apply P1.
  - eapply icache_ok_icache; [|exact Hic]. unfold inode_refs. rewrite Hps. by rewrite E.
  - destruct P8 as (j & r & Hj & Hr & Hs & Hn & Hroot). exists j, r. split_and!; [by rewrite E|done|done|done|by eapply holds_icache].
  - intros j Hj. apply P9. by rewrite E in Hj.
Qed.
End fork_ok.
Lemma fork_carried trampoline_start forkret s Ts fl leak i :
  trampoline_start mod PGSIZE = 0 → 0 ≤ trampoline_start < PHYSTOP →
  procs_ok s Ts fl leak → Z.of_nat (base.size leak) < 2 ^ 63 → cpu_proc s = Some i →
  wp (fork kernel_end trampoline_start forkret) s (λ _ s', carried i s Ts fl leak s').
Proof.
  intros Ht1 Ht2 Hok Hleak Hi. destruct (procs_forkable s Ts fl leak i Hok Hleak Hi) as (k & p & T & HT & Hf).
  eapply wp_mono; [by apply (fork_spec kernel_end Hend_pos trampoline_start Ht1 Ht2 forkret s fl leak k i p T Hf)|].
  pose proof (fb_proc _ _ _ _ _ _ _ _ Hf) as Hp. intros [n|] s'.
  - intros (_ & Hfds & c & q & T' & fl' & Hfk). eapply forked_ok; [done|done| |done|exact Hfk].
    eapply (parent_not_child kernel_end s fl leak k i p T Hf). apply Hfk.
  - intros [[_ ->]|Hu]; [by apply carried_refl|by eapply undone_ok].
Qed.

(** *** Growing *)

Lemma grown_space data m T fl n newsz m' T' fl' :
  pages_filled kernel_end (λ _, URW) data m T fl (pages n) (Z.to_nat (pages newsz - pages n)) m' T' fl' →
  proc_space T n → n ≤ newsz ≤ USER_STACK →
  proc_space T' newsz ∧ L T' !! STACK_VPN = L T !! STACK_VPN ∧
  user_frames T' newsz ++ tables T' ++ fl' ≡ₚ user_frames T n ++ tables T ++ fl.
Proof.
  intros [G1 G2 G3 G4 G5 G6 G7] Hps Hn. pose proof (ps_size _ _ Hps) as Hn0. pose proof (pages_nonneg n ltac:(lia)) as Hp0.
  pose proof (pages_mono n newsz ltac:(lia)) as Hmono. pose proof (proj1 (pages_stack newsz) ltac:(lia)) as Hp1.
  change (USER_STACK / PGSIZE) with STACK_VPN in Hp1.
  assert (∀ w, ¬ pages n ≤ w < pages newsz → L T' !! w = L T !! w) as Hold by (intros w Hw; apply G4; lia).
  assert (L T' !! STACK_VPN = L T !! STACK_VPN) as Hst by (apply Hold; lia). split_and!; [|done|].
  - destruct Hps as [P1 P2 P3 P4 P5]. split; [lia| | | |].
    + intros w Hw. rewrite Hold by vpn_lia. by apply P2.
    + intros w Hw. destruct (decide (w < pages n)) as [Hlt|Hge]; [rewrite Hold by lia; apply P3; lia|].
      destruct (G5 w ltac:(lia)) as (q & Hq & Hrq & _). eexists. split; [exact Hq|].
      apply user_entry; [by eapply ram_page_addr|apply uflags_URW].
    + by rewrite Hst.
    + intros w e He. destruct (decide (pages n ≤ w < pages newsz)) as [Hin|Hout]; [left; lia|]. rewrite Hold in He by done.
      destruct (P5 w e He) as [?|?]; [left; lia|by right].
  - unfold user_frames. rewrite Hst. replace (Z.to_nat (pages newsz)) with (Z.to_nat (pages n) + Z.to_nat (pages newsz - pages n))%nat by lia.
    rewrite frames_app, Z.add_0_l, Z2Nat.id by lia.
    rewrite (frames_ext 0 _ (L T') (L T)) by (intros x Hx; apply Hold; lia).
    rewrite <-!app_assoc. apply Permutation_app_head. rewrite Permutation_app_swap_app. apply Permutation_app_head, G6.
Qed.

Lemma set_held_same (m : machine) h : held m = h → set_held h m = m.
Proof. by destruct m; cbn; intros ->. Qed.

Section grow.
Context (s : kernel) (Ts : list (option ptree)) (fl : list Z) (leak : gmultiset nat) (i : nat) (p : Process) (T : ptree).
Context (Hok : procs_ok s Ts fl leak) (Hi : cpu_proc s = Some i) (Hp : procs s !! i = Some p) (HT : Ts !! i = Some (Some T)).

(** The process with a new address space. *)
Record reimaged (q : Process) (s' : kernel) : Prop := {
  rg_procs : procs s' = <[i := q]> (procs s);
  rg_proc : state q = state p ∧ parent q = parent p ∧ cwd q = cwd p ∧ ofile q = ofile p ∧ trapframe q = trapframe p;
  rg_rest : ftable s' = ftable s ∧ pipes s' = pipes s ∧ initproc s' = initproc s ∧ cpu_proc s' = cpu_proc s ∧ held s' = held s;
  rg_inodes : same_inodes (k_fs s) (k_fs s');
}.

Lemma reimaged_ok q s' T' fl' :
  reimaged q s' → mem_ok (ram_of s') (procs s') (<[i := Some T']> Ts) fl' → stack_mapped kernel_end T' → state p = Running →
  ram_page (trapframe p) → procs_ok s' (<[i := Some T']> Ts) fl' leak.
Proof.
  intros [Hps (Q1 & Q2 & Q3 & Q4 & Q5) (E1 & E2 & E3 & E4 & E5) Hin] Hm Hst Hrun Htf.
  pose proof (lookup_lt_Some _ _ _ Hp) as Hlt. pose proof (lookup_lt_Some _ _ _ HT) as HltT.
  assert (∀ j r, procs s' !! j = Some r → ∃ r0, procs s !! j = Some r0 ∧ (r = r0 ∧ j ≠ i ∨ j = i ∧ r0 = p ∧ r = q)) as Hlk.
  { intros j r. rewrite Hps. destruct (decide (j = i)) as [->|Hne]; [rewrite list_lookup_insert_eq by done|rewrite list_lookup_insert_ne by done; eauto].
    intros [= <-]. exists p. split; [done|]. by right. }
  destruct Hok as [P1 P2 P3 P4 P5 P6 P7 P8 P9]. split; [| |done|..].
  - eapply fds_ok_same; [exact P1| |done|done|done|]; [|rewrite E5; apply P1]. unfold fd_tables. rewrite Hps, list_fmap_insert.
    apply list_insert_id. by rewrite list_lookup_fmap, Hp, Q4.
  - eapply icache_ok_same; [|exact Hin]. unfold inode_refs. rewrite Hps, E1, list_fmap_insert, list_insert_id; [exact P2|].
    rewrite list_lookup_fmap, Hp. unfold cwd_of. by rewrite Q1, Q3.
  - intros j r Hj Hu. destruct (Hlk j r Hj) as (r0 & Hr0 & [[-> _]|(-> & -> & ->)]); [by eapply P4|]. congruence.
  - intros j r Hj Hu. destruct (Hlk j r Hj) as (r0 & Hr0 & [[-> Hne]|(-> & -> & ->)]).
    + rewrite list_lookup_insert_ne by done. by eapply P5.
    + rewrite Q5. split; [done|]. exists T'. by rewrite list_lookup_insert_eq.
  - intros j r Hj Hu. destruct (Hlk j r Hj) as (r0 & Hr0 & [[-> _]|(-> & -> & ->)]); [by eapply P6|]. congruence.
  - intros j r Hj. destruct (Hlk j r Hj) as (r0 & Hr0 & [[-> _]|(-> & -> & ->)]); [by eapply P7|]. rewrite Q2. exact (P7 i p Hp).
  - destruct P8 as (j & r & Hj & Hr & Hs & Hn & Hroot). rewrite E3, Hps. destruct (decide (j = i)) as [->|Hne].
    + simplify_eq. exists i, q. rewrite Q1, Q2, Q3. split_and!; try done; [by rewrite list_lookup_insert_eq|by eapply holds_same].
    + exists j, r. split_and!; try done; [by rewrite list_lookup_insert_ne|by eapply holds_same].
  - intros j Hj. rewrite E4 in Hj. rewrite Hps. destruct (P9 j Hj) as (r & Hr & Hs). destruct (decide (j = i)) as [->|Hne].
    + exists q. split; [by rewrite list_lookup_insert_eq|congruence].
    + exists r. split; [|done]. by rewrite list_lookup_insert_ne.
Qed.

(** Its pages have been exchanged with the free list. *)
Lemma reimaged_carried q s' T' fl' :
  reimaged q s' → proc_mem (ram_of s') fl' q (Some T') → proc_pages q (Some T') ++ fl' ≡ₚ proc_pages p (Some T) ++ fl →
  (∀ x, x ∉ proc_pages p (Some T) ++ fl → mem (ram_of s') !! x = mem (ram_of s) !! x) → stack_mapped kernel_end T' →
  state p = Running → ram_page (trapframe p) → carried i s Ts fl leak s'.
Proof.
  intros Hre Hmem Hpg Hframe Hst Hrun Htf. pose proof (rg_procs _ _ Hre) as Hps.
  destruct (mem_ok_step kernel_end (ram_of s) (procs s) Ts fl i p (Some T) (ram_of s') q (Some T') fl') as [Hm Hall]; try done.
  { apply Hok. }
  exists (<[i := Some T']> Ts), fl', leak. rewrite Hps. split_and!; [|done|lia|].
  - eapply reimaged_ok; [exact Hre|by rewrite Hps|done..].
  - intros j Hj. eapply (slot_undisturbed i s Ts fl s' i p); try done. apply Hok.
Qed.

Lemma grown_carried newsz ram T' fl' :
  heap_grown kernel_end (ram_of s) T fl (pages (sz p)) (Z.to_nat (pages newsz - pages (sz p))) ram T' fl' →
  sz p ≤ newsz ≤ USER_STACK → stack_mapped kernel_end T → state p = Running → ram_page (trapframe p) →
  carried i s Ts fl leak (set_procs (<[i := set_sz newsz p]> (procs s)) (set_k_ram ram s)).
Proof.
  intros Hg Hsz Hst Hrun Htf. pose proof (mo_proc _ _ _ _ _ (po_mem _ _ _ _ Hok) i p _ Hp HT) as [M1 M2 (Hpt & Hsp & Hps) M4].
  destruct (grown_space _ _ _ _ _ _ _ _ _ Hg Hps Hsz) as (Hps' & Hst' & Hpg). pose proof Hg as [G1 G2 G3 G4 G5 G6 G7].
  set (s' := set_procs _ _). assert (ram_of s' = ram) as Hram by exact (set_held_same ram (k_held s) G3).
  assert (proc_pages (set_sz newsz p) (Some T') ++ fl' ≡ₚ proc_pages p (Some T) ++ fl) as Hpg'.
  { unfold proc_pages. cbn [trapframe kstack sz set_sz from_option]. by rewrite <-!app_assoc, Hpg. }
  eapply (reimaged_carried (set_sz newsz p) s' T' fl'); try done.
  - rewrite Hram. split; [apply G1|done|split_and!; [by rewrite G2|apply G1|done]|by rewrite Hpg'].
  - intros x Hx. rewrite Hram. apply G7. unfold proc_pages in Hx. cbn [from_option] in Hx. rewrite !not_elem_of_app in *. tauto.
  - unfold stack_mapped. by rewrite Hst'.
Qed.
End grow.

(** [sbrk] has stopped half way: no more pages were free than the growth can take,
    and none is left. *)
Definition sbrk_half (s : kernel) (fl : list Z) (i : nat) (n : Z) (s' : kernel) : Prop :=
  ∃ p, procs s !! i = Some p ∧ pages (sz p) < pages (sz p + n) ∧
    Z.of_nat (length fl) ≤ grow_needs (pages (sz p)) (pages (sz p + n) - pages (sz p)) ∧ head (k_ram s') = 0.

Lemma sbrk_carried s Ts fl leak i a :
  procs_ok s Ts fl leak → cpu_proc s = Some i →
  wp (sys_sbrk kernel_end a) s (λ r s',
    carried i s Ts fl leak s' ∨ r = SReturn (-1) ∧ sbrk_half s fl i (as_isize (tf_a0 a)) s').
Proof.
  intros Hok Hi. destruct (running_space s Ts fl leak Hok i Hi) as (p & T & Hp & Hrun & HT & Htf & Hst).
  pose proof (mo_proc _ _ _ _ _ (po_mem _ _ _ _ Hok) i p _ Hp HT) as [M1 M2 (Hpt & Hsp & Hps) M4].
  pose proof (idle_held s Ts fl leak Hok) as Hh. assert (ram_of s = set_held [] (k_ram s)) as Hram by (unfold ram_of; by rewrite Hh).
  rewrite Hram in Hsp. eapply wp_mono; [apply (sys_sbrk_spec kernel_end s i p a T fl Hend_pos Hh Hi Hp Hpt Hsp (ps_size _ _ Hps))|].
  - intros w Hw. destruct (L T !! w) as [e|] eqn:He; [|done]. destruct (ps_only _ _ Hps w e He) as [?|?]; [lia|].
    change (USER_STACK / PGSIZE) with STACK_VPN in Hw. vpn_lia.
  - intros r s'. cbv zeta. destruct (decide _) as [Hn|_]; [|intros [-> ->]; left; by apply carried_refl].
    intros [[-> Hgr]|[-> (Hlt & Hout & k & ram & T' & fl' & -> & Hg & Hk & _)]].
    + left. destruct Hgr as (ram & T' & fl' & -> & _ & _ & _ & Hg & _). rewrite <-Hram in Hg.
      eapply grown_carried; try done; lia.
    + destruct Hk as [->| ->]; [left|right].
      * rewrite <-Hram in Hg. pose proof (ps_size _ _ Hps). replace (set_k_ram ram s) with (set_procs (<[i := set_sz (sz p) p]> (procs s)) (set_k_ram ram s)).
        { eapply grown_carried; [done|exact Hp|exact HT|by rewrite Z.sub_diag|lia|done|done|done]. }
        rewrite list_insert_id; [by destruct s|]. by rewrite Hp; destruct p.
      * split; [done|]. exists p. split_and!; [done|done|done|]. cbn [k_ram set_k_ram].
        exact (ki_chain _ _ _ (pw_kinv _ _ _ _ (so_own _ _ _ _ (fi_space _ _ _ _ _ _ _ _ _ _ _ Hg)))).
Qed.
End procs.
