(* ===== verification/ExecSpec.v ===== *)
(** * Replacing a program (src/src/proc.rs: exec_from_inode)

    [exec] builds the new address space beside the old one, hands it the
    arguments, and only then gives the old pages back.  When anything fails the
    process goes on as if nothing had happened. *)

From stdpp Require Import gmultiset.
From S2P Require Import Prelude Spinlock FsBase Bcache Balloc Bmap Inode Icache Kalloc Vm PageTable UserMem Space Argv Kernel Sched File Proc ProcMem Exec Descr Exit Fork Loader Lifecycle.

(** ** What the new program sees *)

(** The byte at [a] of the image, for an access with [perm]. *)
Definition image_byte (elf : list u8) (perm a : Z) : option u8 :=
  if Z.land (image_flags (elf_image elf) (a / PGSIZE)) perm =? perm
  then image_data (elf_image elf) (a / PGSIZE) !! Z.to_nat (a mod PGSIZE) else None.

(** The trapframe: argument count and vector, entry point, stack pointer. *)
Definition exec_trapframe (argc va entry sp : u64) (d : list u8) : list u8 :=
  splice 48 (le_bytes 8 sp) (splice 24 (le_bytes 8 entry) (splice 120 (le_bytes 8 va) (splice 112 (le_bytes 8 argc) d))).

Lemma exec_trapframe_ok argc va entry sp d : page_ok d → page_ok (exec_trapframe argc va entry sp d).
Proof. intros Hd. unfold exec_trapframe. repeat (apply store64_page_ok; [|lia]). done. Qed.

Lemma vpn_div a : vpn a = a / PGSIZE.
Proof. done. Qed.

Section exec.
Context (kernel_end : usize) (Hend_pos : 0 < kernel_end).
Context (trampoline_start : usize) (Htramp : trampoline_start mod PGSIZE = 0) (Htramp0 : 0 ≤ trampoline_start < PHYSTOP).

Local Abbreviation space_ok := (space_ok kernel_end).
Local Abbreviation ram_page := (ram_page kernel_end).

(** User code sees a page with the flags and bytes it was mapped with. *)
Lemma leaf_byte m T p f d perm a :
  L T !! (a / PGSIZE) = Some (leaf_bits p f) → ram_page p → m !! p = Some d → uflags f → rwx perm → 0 ≤ a < MAXVA →
  ubyte m T perm a = if Z.land f perm =? perm then d !! Z.to_nat (a mod PGSIZE) else None.
Proof.
  intros HL Hp Hd Hf Hperm Ha. pose proof (ram_page_addr kernel_end Hend_pos p Hp) as Hpa.
  destruct (user_entry p f Hpa Hf) as [Hu Hpp]. unfold ubyte, user_leaf. rewrite (proj2 (Z.leb_gt _ _)), vpn_div, HL by lia.
  cbn [mbind option_bind]. rewrite Hu, (rwx_leaf p f perm Hpa (proj1 Hf) Hperm). cbn [andb].
  destruct (_ =? perm); [|done]. cbn [mbind option_bind]. by rewrite Hpp, Hd.
Qed.

Lemma loaded_seen elf m0 T0 fl0 m T fl perm a :
  loaded kernel_end elf m0 T0 fl0 m T fl → (∀ w, uflags (image_flags (elf_image elf) w)) → laid_pages (segments elf) ≤ STACK_VPN →
  rwx perm → 0 ≤ a < image_size elf → ubyte (mem m) T perm a = image_byte elf perm a.
Proof.
  intros Hld Hfl Hsm Hperm Ha. unfold image_size in Ha.
  assert (0 ≤ a / PGSIZE < laid_pages (segments elf)) as Hw
    by (split; [apply Z.div_pos; mem_lia|apply Z.div_lt_upper_bound; mem_lia]).
  destruct (ld_image _ _ _ _ _ _ _ _ Hld _ Hw) as (p & HL & Hp & Hd).
  rewrite (leaf_byte _ _ _ _ _ _ _ HL Hp Hd (Hfl _) Hperm) by vpn_lia. done.
Qed.

(** The new address space is that of a process of the size of the image. *)
Lemma loaded_space elf m0 T0 fl0 m T fl :
  loaded kernel_end elf m0 T0 fl0 m T fl → proc_space T0 0 → (∀ w, uflags (image_flags (elf_image elf) w)) →
  0 ≤ laid_pages (segments elf) ≤ STACK_VPN → proc_space T (image_size elf).
Proof.
  intros [L1 L2 L3 L4 L5 L6 L7 L8] [P1 P2 P3 P4 P5] Hfl Hsm.
  assert (pages (image_size elf) = laid_pages (segments elf)) as Hpg by apply pages_exact.
  assert (∀ p f, ram_page p → uflags f → is_user (leaf_bits p f) = true) as Hu
    by (intros p f Hp Hf; apply user_entry; [by apply (ram_page_addr kernel_end)|done]).
  split.
  - unfold image_size. vpn_lia.
  - intros w Hw. rewrite L6 by vpn_lia. by apply P2.
  - rewrite Hpg. intros w Hw. destruct (L4 w Hw) as (p & HL & Hp & _). eexists. split; [done|]. by apply Hu.
  - destruct L5 as (p & HL & Hp & _). rewrite HL. intros e [= <-]. by apply Hu.
  - rewrite Hpg. intros w e He. destruct (decide (0 ≤ w < laid_pages (segments elf))) as [?|Hw]; [tauto|].
    destruct (decide (w = STACK_VPN)) as [?|Hne]; [tauto|]. rewrite L6 in He by done. specialize (P5 w e He). change (pages 0) with 0 in P5. vpn_lia.
Qed.

Section run.
Context (s : kernel) (fl : list Z) (i : nat) (p : Process) (T : ptree).
Context (Hh : k_held s = []) (Hi : cpu_proc s = Some i) (Hp : procs s !! i = Some p).
Context (Hmem : proc_mem kernel_end (ram_of s) fl p (Some T)) (Htf : ram_page (trapframe p)).
Context (k : nat) (elf : list u8) (Hfile : file_at (fs_of s) k elf) (Hprog : program_ok elf).
Context (argv : KernelArgs) (Hargv : kargs_ok argv).

Local Abbreviation J := (read_only (fs_of s) k elf).

(** A new address space made of free pages; all else is as it was. *)
Record new_space (n : Z) (s1 : kernel) (T1 : ptree) (fl1 : list Z) : Prop := {
  ns_io : only_io s s1;
  ns_fs : J (fs_of s1);
  ns_space : space_ok (ram_of s1) T1 fl1;
  ns_proc : proc_space T1 n;
  ns_pages : user_frames T1 n ++ tables T1 ++ fl1 ≡ₚ fl;
  ns_mem x : x ∉ fl → mem (ram_of s1) !! x = mem (ram_of s) !! x;
}.

(** The attempt has left no trace. *)
Definition exec_failed (s' : kernel) : Prop :=
  only_io s s' ∧ J (fs_of s') ∧ ∃ fl', restored kernel_end (ram_of s) fl (ram_of s') fl'.

(** Why [exec] fails: the file is no program or is cut off, there is not enough
    memory, or the arguments do not fit on the stack page. *)
Definition exec_error : Prop :=
  (Z.of_nat (length elf) < EHDR_SIZE ∨ ehdr_ok (elf_ehdr elf) = false ∨ ¬ Forall (segment_inside elf) (segments elf)) ∨
  Z.of_nat (length fl) < pages_needed elf ∨
  final_sp (USER_STACK + PGSIZE) (strings argv) < USER_STACK.

Lemma needed_pos : 5 ≤ pages_needed elf.
Proof.
  unfold pages_needed. set (n := laid_pages (segments elf)). assert (0 ≤ n) by (unfold n, laid_pages; lia).
  assert (0 ≤ low_tables n) by (apply Z.div_pos; lia). assert (0 ≤ mid_tables n) by (apply Z.div_pos; lia). lia.
Qed.

Lemma io_held s1 : only_io s s1 → k_held s1 = [].
Proof. intros ->. exact Hh. Qed.

Lemma new_space_freed n s1 T1 fl1 :
  new_space n s1 T1 fl1 → wp (in_ram (proc_freepagetable kernel_end (pt_root T1) n)) s1 (λ _ s2, exec_failed s2).
Proof.
  intros [N1 N2 N3 N4 N5 N6]. apply wp_ram. wp_call (free_tree kernel_end Hend_pos); [done|done|].
  intros [] m (fl2 & [F1 F2 F3 F4]). split; [done|]. intros s2 O2 <-. split_and!.
  - etrans; [exact N1|by apply only_ram_io].
  - by rewrite (only_ram_fs _ _ O2).
  - exists fl2. split; [done|by rewrite F2, <-app_assoc, N5| |].
    + rewrite F3. exact (eq_trans (io_held s1 N1) (eq_sym Hh)).
    + intros x Hx. rewrite F4; [by apply N6|]. rewrite <-N5, !not_elem_of_app in Hx. rewrite not_elem_of_app. tauto.
Qed.

(** The page table with trampoline and trapframe. *)
Lemma exec_pagetable :
  wp (in_ram (proc_pagetable kernel_end trampoline_start (trapframe p))) s (λ r s1,
    match r with
    | None => exec_failed s1 ∧ exec_error
    | Some pt => ∃ T1 fl1, pt = pt_root T1 ∧ new_space 0 s1 T1 fl1 ∧ tables_for 0 T1 ∧ (∀ w, 0 ≤ w ≤ STACK_VPN → L T1 !! w = None) ∧
        L T1 !! TRAPFRAME_VPN = Some (leaf_bits (trapframe p) (Z.lor PTE_R PTE_W))
    end).
Proof.
  assert (J (fs_of s)) as HJ by (split_and!; done). apply wp_ram.
  wp_call (proc_pagetable_grows kernel_end Hend_pos trampoline_start Htramp Htramp0); [apply Hmem|done|].
  intros [pt|] m.
  - intros (T1 & fl1 & -> & [B1 B2 B3 B4 B5] & Htab). split; [done|]. intros s1 O1 <-.
    destruct (fresh_space kernel_end Hend_pos trampoline_start Htramp Htramp0 _ T1 fl1 (trapframe p) Htf B1 B2) as (Hsp & Hps & Huf).
    exists T1, fl1. split_and!; [done| |done| |].
    + split; [by apply only_ram_io|by rewrite (only_ram_fs _ _ O1)|done|done|by rewrite Huf|done].
    + intros w Hw. rewrite B2. unfold fresh_leaves. rewrite lookup_insert_ne, lookup_singleton_ne by vpn_lia. done.
    + rewrite B2. apply lookup_insert_eq.
  - intros ((fl1 & Hr) & Hlen). split; [apply Hr|]. intros s1 O1 <-.
    split; [split_and!; [by apply only_ram_io|by rewrite (only_ram_fs _ _ O1)|eauto]|]. pose proof needed_pos. right. left. lia.
Qed.

(** The image is in place, with a stack of zeros. *)
Record image_ready (s2 : kernel) (T2 : ptree) (fl2 : list Z) : Prop := {
  ir_space : new_space (image_size elf) s2 T2 fl2;
  ir_valid : ehdr_ok (elf_ehdr elf) = true;
  ir_fits : Forall (segment_fits elf) (segments elf);
  ir_seen perm a : rwx perm → 0 ≤ a < image_size elf → ubyte (mem (ram_of s2)) T2 perm a = image_byte elf perm a;
  ir_stack : stack_mapped kernel_end T2;
  ir_tf : L T2 !! TRAPFRAME_VPN = Some (leaf_bits (trapframe p) (Z.lor PTE_R PTE_W));
}.

Lemma image_facts : ehdr_ok (elf_ehdr elf) = true →
  (∀ w, uflags (image_flags (elf_image elf) w)) ∧ 0 ≤ laid_pages (segments elf) ≤ STACK_VPN.
Proof.
  intros Hok. destruct (file_bytes_ok _ _ _ Hfile) as [Hb _]. destruct (elf_facts elf Hb) as (Hs & _ & _).
  pose proof (Hprog Hok) as Hl. apply andb_true_iff in Hl as [_ Hl]. split.
  - intros w. by eapply image_flags_user.
  - pose proof (laid_out_bound 0 _ Hs Hl). unfold laid_pages in *. lia.
Qed.

Lemma exec_load s1 T1 fl1 :
  new_space 0 s1 T1 fl1 → tables_for 0 T1 → (∀ w, 0 ≤ w ≤ STACK_VPN → L T1 !! w = None) →
  L T1 !! TRAPFRAME_VPN = Some (leaf_bits (trapframe p) (Z.lor PTE_R PTE_W)) →
  wp (load_elf_from_inode kernel_end (pt_root T1) k) s1 (λ r s2,
    match r with
    | None => exec_error ∧ ∃ T2 fl2, pt_root T2 = pt_root T1 ∧ new_space 0 s2 T2 fl2
    | Some im => im = mkImage (e_entry (elf_ehdr elf)) (USER_STACK + PGSIZE) (image_size elf) ∧
        ∃ T2 fl2, pt_root T2 = pt_root T1 ∧ image_ready s2 T2 fl2
    end).
Proof.
  intros [N1 N2 N3 N4 N5 N6] Htab Hfresh Htfl. assert (user_frames T1 0 = []) as Huf.
  { unfold user_frames. rewrite Hfresh by vpn_lia. done. }
  rewrite Huf in N5. cbn [app] in N5.
  eapply wp_mono; [by apply (load_file_spec kernel_end (fs_of s) k elf T1 fl1 s1)|]. intros [im|] s2.
  - intros (Hok & Hfit & -> & O & HJ & T2 & fl2 & Hld). destruct (image_facts Hok) as [Hfl Hsm]. split; [done|].
    exists T2, fl2. split; [apply Hld|]. pose proof Hld as [L1 L2 L3 L4 L5 L6 L7 L8]. split; try done.
    + split; [by etrans|done|done|by eapply loaded_space|by rewrite L7, N5|]. intros x Hx. rewrite L8; [by apply N6|by rewrite N5].
    + intros perm a Hperm Ha. eapply loaded_seen; [done|done|lia|done|done].
    + destruct L5 as (st & Hst & Hr & _). by exists st.
    + rewrite L6; [done|vpn_lia|vpn_lia].
  - intros ((O & HJ & T2 & fl2 & [G1 G2 G3 G4 G5 G6 G7]) & Herr). split.
    { unfold exec_error. unfold load_error, out_of_memory in Herr. rewrite (Permutation_length N5) in Herr. tauto. }
    exists T2, fl2. split; [done|]. cbn [frames app] in G6.
    assert (∀ w, L T2 !! w = L T1 !! w) as HL by (intros w; apply G4; lia).
    destruct (proc_space_ext _ _ _ N4 HL) as [Hps Huf2].
    split; [by etrans|done|done|done|by rewrite Huf2, Huf, G6, N5|]. intros x Hx. rewrite G7; [by apply N6|by rewrite N5].
Qed.

(** The arguments go to the stack page of the new program. *)
Lemma exec_args s2 T2 fl2 :
  image_ready s2 T2 fl2 →
  wp (in_ram (push_argv (pt_root T2) (USER_STACK + PGSIZE) argv)) s2 (λ r s3,
    match r with
    | None => new_space (image_size elf) s3 T2 fl2 ∧ exec_error
    | Some (sp, va) => va = sp ∧ sp = final_sp (USER_STACK + PGSIZE) (strings argv) ∧ USER_STACK ≤ sp ≤ USER_STACK + PGSIZE ∧ image_ready s3 T2 fl2 ∧
        user_argv (mem (ram_of s3)) T2 va (strings argv)
    end).
Proof.
  intros [[N1 N2 N3 N4 N5 N6] Hv Hf Hseen Hst Htfl]. destruct Hst as (ps & Hps & HLs). pose proof (ps_size _ _ N4) as Hn.
  assert (∀ m s3 lo hi, wrote kernel_end (ram_of s2) T2 fl2 lo hi m → only_ram s2 s3 → ram_of s3 = m → new_space (image_size elf) s3 T2 fl2) as Hnew.
  { intros m s3 lo hi [W1 W2 W3 W4] O <-. split; [etrans; [exact N1|by apply only_ram_io]|by rewrite (only_ram_fs _ _ O)|done|done|done|].
    intros x Hx. rewrite W4; [by apply N6|]. intros w e Hw Hu <-. apply Hx. rewrite <-N5.
    assert (owns_page T2 (pte_pa e)) as Hown by (right; eauto). apply (owned_frames T2 _ _ N4) in Hown. rewrite !elem_of_app. tauto. }
  apply wp_ram. wp_call (push_argv_spec kernel_end Hend_pos (ram_of s2) T2 fl2 (USER_STACK + PGSIZE) argv N3 Hargv); [mem_lia| |].
  { intros a Ha. assert (a / PGSIZE = STACK_VPN) as Hva.
    { symmetry. apply (Z.div_unique _ _ _ (a - USER_STACK)); [|change USER_STACK with (PGSIZE * STACK_VPN); lia]. mem_lia. }
    destruct (user_entry ps URW (ram_page_addr kernel_end Hend_pos ps Hps) uflags_URW) as [Hu _].
    unfold user_leaf. rewrite vpn_div, Hva, HLs, (proj2 (Z.leb_gt _ _)) by mem_lia. cbn [mbind option_bind]. rewrite Hu.
    rewrite !rwx_leaf by (try done; try (by apply (ram_page_addr kernel_end)); unfold rwx; tauto). split; by eexists. }
  intros [[sp va]|] m.
  - intros (-> & _ & Hlo & Hsp & Hw & Hargs). split; [apply Hw|]. intros s3 O <-.
    assert (sp ≤ USER_STACK + PGSIZE) as Hhi.
    { rewrite Hsp. pose proof (final_sp_below (USER_STACK + PGSIZE) (strings argv)). unfold string_at in *. lia. }
    split_and!; [done|done|mem_lia|done| |done]. split; try done; [by eapply Hnew| |by exists ps].
    intros perm a Hperm Ha. rewrite (wr_out _ _ _ _ _ _ _ Hw) by lia. by apply Hseen.
  - intros [Hlow Hw]. split; [apply Hw|]. intros s3 O Hm. split; [by eapply Hnew|]. right. right. lia.
Qed.

(** *** The switch to the new program *)

Lemma tf_word off : 0 ≤ off < PGSIZE → pbase (trapframe p + off) = trapframe p ∧ poff (trapframe p + off) = off.
Proof.
  intros Ho. destruct Htf as [_ Hm]. unfold pbase, poff.
  assert ((trapframe p + off) mod PGSIZE = off) as ->; [|lia]. by rewrite Z.add_mod, Hm, Z.add_0_l, Z.mod_mod, Z.mod_small by mem_lia.
Qed.

Lemma store_reg off v s1 d :
  0 ≤ off < PGSIZE → mem (ram_of s1) !! trapframe p = Some d →
  wp (in_ram (store64 (trapframe p + off) v)) s1 (λ _ s2, only_ram s1 s2 ∧
    ram_of s2 = set_mem (<[trapframe p := splice (Z.to_nat off) (le_bytes 8 v) d]> (mem (ram_of s1))) (ram_of s1)).
Proof.
  intros Ho Hd. destruct (tf_word off Ho) as [Hb Hp']. apply wp_ram. eapply wp_store64; [by rewrite Hb|]. rewrite Hb, Hp'.
  split; [done|]. by intros s2 O ->.
Qed.

Lemma store_regs {A} n va e sp s1 d (K : M kernel A) R :
  mem (ram_of s1) !! trapframe p = Some d →
  (∀ s2, only_ram s1 s2 → ram_of s2 = set_mem (<[trapframe p := exec_trapframe n va e sp d]> (mem (ram_of s1))) (ram_of s1) → wp K s2 R) →
  wp (in_ram (store64 (trapframe p + A0) n);; in_ram (store64 (trapframe p + TF_A1) va);;
      in_ram (store64 (trapframe p + TF_EPC) e);; in_ram (store64 (trapframe p + TF_SP) sp);; K) s1 R.
Proof.
  intros Hd HK. wp_step. eapply wp_mono; [by apply store_reg; [unfold A0; mem_lia|]|]. intros [] s2 (O2 & R2).
  wp_step. eapply wp_mono; [eapply store_reg; [unfold TF_A1; mem_lia|rewrite R2; apply lookup_insert_eq]|]. intros [] s3 (O3 & R3).
  wp_step. eapply wp_mono; [eapply store_reg; [unfold TF_EPC; mem_lia|rewrite R3; apply lookup_insert_eq]|]. intros [] s4 (O4 & R4).
  wp_step. eapply wp_mono; [eapply store_reg; [unfold TF_SP; mem_lia|rewrite R4; apply lookup_insert_eq]|]. intros [] s5 (O5 & R5).
  apply HK; [repeat (eapply only_ram_trans; [eassumption|]); apply only_ram_refl|].
  rewrite R5, R4, R3, R2. cbn [mem set_mem]. by rewrite !insert_insert_eq.
Qed.

(** The pages of the old program: in use, and not the new program's. *)
Lemma old_pages x : x ∈ user_frames T (sz p) ++ tables T → (x ∉ fl) ∧ x ≠ trapframe p.
Proof.
  intros Hx. pose proof (pm_nodup _ _ _ _ _ Hmem) as Hnd. unfold proc_pages in Hnd. cbn [from_option] in Hnd.
  rewrite (ram_page_list kernel_end Hend_pos) in Hnd by done. rewrite <-!app_assoc in Hnd. cbn [app] in Hnd.
  apply NoDup_cons in Hnd as [Hn Hnd]. apply NoDup_app in Hnd as (_ & _ & Hnd). rewrite app_assoc in Hnd.
  apply NoDup_app in Hnd as (_ & Hd & _). split; [by apply Hd|]. intros ->. apply Hn. rewrite !elem_of_app in *. tauto.
Qed.

Lemma tf_used : trapframe p ∉ fl.
Proof.
  pose proof (pm_nodup _ _ _ _ _ Hmem) as Hnd. unfold proc_pages in Hnd. rewrite (ram_page_list kernel_end Hend_pos) in Hnd by done.
  cbn [app] in Hnd. apply NoDup_cons in Hnd as [Hn _]. rewrite !not_elem_of_app in Hn. tauto.
Qed.

Lemma new_pages n s1 T1 fl1 x : new_space n s1 T1 fl1 → owns_page T1 x → (x ∈ fl) ∧ (x ∉ fl1).
Proof.
  intros [N1 N2 N3 N4 N5 N6] Hx. split; [|by apply (owned_used kernel_end _ _ _ _ N3)].
  rewrite <-N5. apply (owned_frames T1 _ _ N4) in Hx. rewrite !elem_of_app. tauto.
Qed.

(** The process with its new image. *)
Definition execed (T' : ptree) : Process := set_image (pt_root T') (image_size elf) p.

Record replaced (s' : kernel) (T' : ptree) (fl' : list Z) : Prop := {
  rp_state : s' = set_procs (<[i := execed T']> (procs s)) (set_k_fs (k_fs s') (set_k_ram (k_ram s') s));
  rp_fs : J (fs_of s');
  rp_mem : proc_mem kernel_end (ram_of s') fl' (execed T') (Some T');
  rp_pages : proc_pages (execed T') (Some T') ++ fl' ≡ₚ proc_pages p (Some T) ++ fl;
  rp_frame x : x ∉ proc_pages p (Some T) ++ fl → mem (ram_of s') !! x = mem (ram_of s) !! x;
  rp_valid : ehdr_ok (elf_ehdr elf) = true;
  rp_fits : Forall (segment_fits elf) (segments elf);
  rp_image perm a : rwx perm → 0 ≤ a < image_size elf → ubyte (mem (ram_of s')) T' perm a = image_byte elf perm a;
  rp_args : user_argv (mem (ram_of s')) T' (final_sp (USER_STACK + PGSIZE) (strings argv)) (strings argv);
  rp_stack : stack_mapped kernel_end T';
  rp_tf : L T' !! TRAPFRAME_VPN = Some (leaf_bits (trapframe p) (Z.lor PTE_R PTE_W));
  rp_regs : ∃ d, mem (ram_of s) !! trapframe p = Some d ∧
    let sp := final_sp (USER_STACK + PGSIZE) (strings argv) in
    mem (ram_of s') !! trapframe p = Some (exec_trapframe (argc argv) sp (e_entry (elf_ehdr elf)) sp d);
}.

Lemma user_argv_frame m m' T1 va ss :
  user_argv m T1 va ss → (∀ x, owns_page T1 x → m' !! x = m !! x) → user_argv m' T1 va ss.
Proof.
  intros (ptrs & Hl & Hb & Hs) Hm. assert (∀ perm a bs, user_bytes m T1 perm a bs → user_bytes m' T1 perm a bs) as Hub.
  { intros perm a bs H j Hj. rewrite (ubyte_frame _ _ _ _ _ Hm). by apply H. }
  exists ptrs. split_and!; [done|by apply Hub|]. intros j q str Hq Hstr. destruct (Hs j q str Hq Hstr) as [? ?]. split; [done|by apply Hub].
Qed.

(** The new process, after the old pages are gone. *)
Lemma exec_done s3 T2 fl2 d s4 s5 fl5 :
  image_ready s3 T2 fl2 → let sp := final_sp (USER_STACK + PGSIZE) (strings argv) in
  user_argv (mem (ram_of s3)) T2 sp (strings argv) → mem (ram_of s) !! trapframe p = Some d → page_ok d →
  only_ram (set_procs (<[i := execed T2]> (procs s3)) s3) s4 →
  ram_of s4 = set_mem (<[trapframe p := exec_trapframe (argc argv) sp (e_entry (elf_ehdr elf)) sp d]> (mem (ram_of s3))) (ram_of s3) →
  pages_freed kernel_end (ram_of s4) fl2 (user_frames T (sz p) ++ tables T) (ram_of s5) fl5 → only_ram s4 s5 →
  replaced s5 T2 fl5.
Proof.
  intros [Hns Hv Hf Hseen Hst Htfl] sp Hargs Hd Hdok O4 R4 [F1 F2 F3 F4] O5. pose proof Hns as [N1 N2 N3 N4 N5 N6].
  set (d' := exec_trapframe _ _ _ _ d) in *. pose proof tf_used as Htn. pose proof (only_ram_trans _ _ _ O4 O5) as O.
  assert (∀ x, x ∉ user_frames T (sz p) ++ tables T → x ≠ trapframe p → mem (ram_of s5) !! x = mem (ram_of s3) !! x) as Hm5.
  { intros x Hx Hne. rewrite F4, R4 by done. cbn [mem set_mem]. by rewrite lookup_insert_ne. }
  assert (∀ x, owns_page T2 x → mem (ram_of s5) !! x = mem (ram_of s3) !! x ∧ x ∉ fl5) as Hnew.
  { intros x Hx. destruct (new_pages _ _ _ _ x Hns Hx) as [Hx1 Hx2].
    assert (x ∉ user_frames T (sz p) ++ tables T) as Hx3 by (intros [H3 _]%old_pages; done).
    split; [apply Hm5; [done|congruence]|]. rewrite F2, not_elem_of_app. done. }
  assert (proc_pages (execed T2) (Some T2) ++ fl5 ≡ₚ proc_pages p (Some T) ++ fl) as Hpg.
  { unfold proc_pages, execed. cbn [trapframe kstack sz set_image from_option]. rewrite F2, <-N5. solve_Permutation. }
  assert (mem (ram_of s5) !! trapframe p = Some d') as Hd5.
  { rewrite F4, R4; [apply lookup_insert_eq|]. by intros [_ []]%old_pages. }
  split; try done.
  - rewrite O, N1. done.
  - rewrite (only_ram_fs _ _ O). exact N2.
  - split; [done|apply Hmem| |rewrite Hpg; apply Hmem]. split_and!; [done| |done]. by eapply space_frame.
  - intros x Hx. unfold proc_pages in Hx. rewrite (ram_page_list kernel_end Hend_pos) in Hx by done. cbn [from_option] in Hx.
    rewrite !not_elem_of_app, list_elem_of_singleton in Hx. rewrite Hm5; [apply N6; tauto|rewrite not_elem_of_app; tauto|tauto].
  - intros perm a Hperm Ha. rewrite (ubyte_frame (mem (ram_of s3))); [by apply Hseen|]. intros x Hx. by apply Hnew.
  - eapply user_argv_frame; [exact Hargs|]. intros x Hx. by apply Hnew.
  - exists d. by split.
Qed.

(** The registers are set and the old pages go. *)
Lemma exec_commit s3 T2 fl2 :
  image_ready s3 T2 fl2 → let sp := final_sp (USER_STACK + PGSIZE) (strings argv) in
  user_argv (mem (ram_of s3)) T2 sp (strings argv) →
  wp (set_proc i (execed T2);;
      in_ram (store64 (trapframe p + A0) (argc argv));; in_ram (store64 (trapframe p + TF_A1) sp);;
      in_ram (store64 (trapframe p + TF_EPC) (e_entry (elf_ehdr elf)));; in_ram (store64 (trapframe p + TF_SP) sp);;
      in_ram (proc_freepagetable kernel_end (pagetable p) (sz p));; mret (Some tt)) s3 (λ r s', r = Some tt ∧ ∃ fl', replaced s' T2 fl').
Proof.
  intros [Hns Hv Hf Hseen Hst Htfl] sp Hargs. pose proof Hns as [N1 N2 N3 N4 N5 N6].
  pose proof (pm_tree _ _ _ _ _ Hmem) as (Hpt & Hsp & Hps). pose proof tf_used as Htn.
  destruct (kinv_lookup kernel_end _ _ _ (pm_kinv _ _ _ _ _ Hmem) Htf) as (d & Hd & Hdok).
  assert (mem (ram_of s3) !! trapframe p = Some d) as Hd3 by (by rewrite N6).
  assert (∀ x, x ∈ fl2 → x ∈ fl) as Hsub by (intros x Hx; rewrite <-N5, !elem_of_app; tauto).
  wp_step. apply wp_set_proc. eapply store_regs; [exact Hd3|]. change (ram_of (set_procs _ s3)) with (ram_of s3).
  set (d' := exec_trapframe _ _ _ _ d). intros s4 O4 R4.
  assert (page_ok d') as Hd' by (by apply exec_trapframe_ok).
  assert (space_ok (ram_of s3) T fl2) as Hold3.
  { eapply space_frame; [exact Hsp|apply N3|]. intros x Hx. apply (owned_frames T _ _ Hps) in Hx.
    destruct (old_pages x) as [Hx1 _]; [rewrite elem_of_app; tauto|]. split; [by apply N6|]. intros Hx2. by apply Hx1, Hsub. }
  assert (space_ok (ram_of s4) T fl2) as Hold4.
  { rewrite R4. apply space_store; [done|done| |done]. rewrite not_elem_of_app. split; [|by intros Hx%Hsub].
    intros Hx. destruct (old_pages (trapframe p)) as [_ []]; [rewrite elem_of_app; tauto|done]. }
  rewrite Hpt. wp_step. apply wp_ram. wp_call (free_tree kernel_end Hend_pos); [exact Hold4|exact Hps|].
  intros [] m (fl5 & Hfr). pose proof Hfr as [F1 F2 F3 F4]. split; [done|]. intros s5 O5 <-. wp_steps. split; [done|]. exists fl5.
  by eapply exec_done.
Qed.

Lemma exec_spec :
  wp (exec_from_inode kernel_end trampoline_start k argv) s (λ r s',
    match r with Some _ => ∃ T' fl', replaced s' T' fl' | None => exec_failed s' ∧ exec_error end).
Proof.
  unfold exec_from_inode. wp_step. eapply wp_myproc; [done|]. wp_step. eapply wp_proc_slot; [done|].
  wp_step. eapply wp_mono; [apply exec_pagetable|]. intros [pt|] s1 H1; [|by wp_steps].
  destruct H1 as (T1 & fl1 & -> & Hns & Htab & Hfresh & Htfl).
  wp_step. eapply wp_mono; [by eapply exec_load|]. intros [im|] s2 H2; cycle 1.
  { destruct H2 as (Herr & T2 & fl2 & <- & Hns2). wp_step. eapply wp_mono; [by eapply new_space_freed|]. intros [] s3 H3. by wp_steps. }
  destruct H2 as (-> & T2 & fl2 & <- & Hir). cbn [li_sp li_sz li_entry].
  wp_step. eapply wp_mono; [by eapply exec_args|]. intros [[sp va]|] s3 H3; cycle 1.
  { destruct H3 as [Hns3 Herr]. wp_step. eapply wp_mono; [by eapply new_space_freed|]. intros [] s4 H4. by wp_steps. }
  destruct H3 as (-> & -> & _ & Hir3 & Hargs). eapply wp_mono; [by eapply exec_commit|]. intros r s4 (-> & fl' & Hrp). eauto.
Qed.
End run.

(** [exec] keeps the invariant of all processes, whether it succeeds or not. *)
Lemma exec_carried s Ts fl leak i k elf argv :
  procs_ok kernel_end s Ts fl leak → cpu_proc s = Some i → file_at (fs_of s) k elf → program_ok elf → kargs_ok argv →
  wp (exec_from_inode kernel_end trampoline_start k argv) s (λ _ s', carried kernel_end i s Ts fl leak s').
Proof.
  intros Hok Hi Hfile Hprog Hargv. destruct (running_space kernel_end s Ts fl leak Hok i Hi) as (p & T & Hp & Hrun & HT & Htf & Hst).
  pose proof (mo_proc _ _ _ _ _ (po_mem _ _ _ _ _ Hok) i p _ Hp HT) as Hmem. pose proof (idle_held kernel_end s Ts fl leak Hok) as Hh.
  eapply wp_mono; [by apply (exec_spec s fl i p T Hh Hi Hp Hmem Htf k elf Hfile Hprog argv Hargv)|]. intros [[]|] s'.
  - intros (T' & fl' & [R1 R2 R3 R4 R5 R6 R7 R8 R9 R10 R11 R12]).
    eapply (reimaged_carried kernel_end s Ts fl leak i p T Hok Hp HT (execed p elf T')); try done. split; [by rewrite R1|done|by rewrite R1|].
    by destruct R2 as (_ & _ & _ & ?).
  - intros ((O & (_ & _ & _ & Hin) & fl' & [F1 F2 F3 F4]) & _).
    eapply (reimaged_carried kernel_end s Ts fl leak i p T Hok Hp HT p s' T fl'); try done.
    + split; try (rewrite O; done); [|done]. rewrite O. by rewrite list_insert_id.
    + eapply proc_mem_frame; [exact Hmem|done|]. intros x Hx. pose proof (pm_nodup _ _ _ _ _ Hmem) as (_ & Hd & _)%NoDup_app.
      specialize (Hd x Hx). split; [by apply F4|by rewrite F2].
    + by rewrite F2.
    + intros x Hx. apply F4. rewrite not_elem_of_app in Hx. tauto.
Qed.
End exec.
