(* ===== verification/Isolation.v ===== *)
(** * Isolation of processes

    Processes as the kernel runs them: the steps are the system calls that create
    and end processes or change their memory, and the context switches.  Whatever
    the steps and their order, no page has two owners, none is lost, and a step
    of one process leaves the pages of the others as they are. *)

From stdpp Require Import gmultiset.
From S2P Require Import Prelude Ring Spinlock FsBase Bcache Inode Icache Kalloc Vm PageTable UserMem Space Argv Kernel Sched Pipe Console File Proc ProcMem Exec Syscall Descr Exit Fork Loader Sbrk Lifecycle ExecSpec.

Section isolation.
Context (kernel_end : usize) (trampoline_start forkret : usize).

Local Abbreviation procs_ok := (procs_ok kernel_end).

(** What process [i] can do: the calls that create and end processes or change
    their memory, giving up the processor, and being picked by the scheduler.  A
    process that sleeps in [wait] takes up its work there when it is picked; the
    relation lets it resume in either way. *)
Inductive call :=
| CFork
| CExit (code : Z)
| CWait (va : usize)
| CExec (k : nat) (argv : KernelArgs)
| CSbrk (a : Targs)
| CYield
| CRun
| CRewait (va : usize).

Definition perform (i : nat) (c : call) : M kernel unit :=
  match c with
  | CFork => _ ← fork kernel_end trampoline_start forkret; mret tt
  | CExit code => exit_enter code;; scheduler_back i
  | CWait va => _ ← or_sleep i (wait kernel_end va); mret tt
  | CExec k argv => _ ← exec_from_inode kernel_end trampoline_start k argv; mret tt
  | CSbrk a => _ ← sys_sbrk kernel_end a; mret tt
  | CYield => yield_enter;; scheduler_back i
  | CRun => run_proc i
  | CRewait va => rerun_wait kernel_end i va
  end.

(** When it can do it.  [exec] is the part after the path has been resolved, on a
    file of the inode cache, with arguments that have been copied in. *)
Definition enabled (i : nat) (c : call) (s : kernel) : Prop :=
  match c with
  | CRun => cpu_proc s = None ∧ (i < Z.to_nat NPROC)%nat
  | CRewait va => cpu_proc s = None ∧ (i < Z.to_nat NPROC)%nat ∧ 0 ≤ va ≤ USIZE_MAX
  | CWait va => cpu_proc s = Some i ∧ 0 ≤ va ≤ USIZE_MAX
  | CExec k argv => cpu_proc s = Some i ∧ (∃ elf, file_at (fs_of s) k elf) ∧ kargs_ok argv
  | _ => cpu_proc s = Some i
  end.

(** Every outcome the code has is a step. *)
Definition pstep (i : nat) (c : call) (s s' : kernel) : Prop := enabled i c s ∧ perform i c s = Ok (tt, s').

(** Any number of steps of any processes. *)
Inductive psteps : nat → kernel → kernel → Prop :=
  | psteps_refl s : psteps 0 s s
  | psteps_next n i c s s1 s2 : pstep i c s s1 → psteps n s1 s2 → psteps (S n) s s2.

(** The file that [exec] is given is not laid out the way the loader relies on. *)
Definition unlaid (c : call) (s : kernel) : Prop :=
  match c with CExec k _ => ∃ elf, file_at (fs_of s) k elf ∧ ¬ program_ok elf | _ => False end.

(** The three outcomes after which the invariant is lost: [wait] was given a bad
    address for the status and keeps [WAIT_LOCK]; [sbrk] took the last page and
    has left pages mapped beyond the end of the process; [exec] was given a file
    that is not laid out. *)
Definition mishap (i : nat) (c : call) (s : kernel) (Ts : list (option ptree)) (fl : list Z) (s' : kernel) : Prop :=
  match c with
  | CWait va | CRewait va => bad_status Ts i va ∧ held s' = [WAIT_LOCK]
  | CSbrk a => sbrk_half s fl i (as_isize (tf_a0 a)) s'
  | _ => unlaid c s
  end.

(** A run in which one of them has happened, in a state that was well formed. *)
Inductive strayed : nat → kernel → kernel → Prop :=
  | strayed_here n i c s Ts fl leak s1 s2 :
      procs_ok s Ts fl leak → pstep i c s s1 → mishap i c s Ts fl s1 → psteps n s1 s2 → strayed (S n) s s2
  | strayed_later n i c s s1 s2 : pstep i c s s1 → strayed n s1 s2 → strayed (S n) s s2.

Context (Hend_pos : 0 < kernel_end).
Context (Htramp : trampoline_start mod PGSIZE = 0) (Htramp0 : 0 ≤ trampoline_start < PHYSTOP).

Local Abbreviation carried := (carried kernel_end).

Lemma wp_forget {A} (m : M kernel A) s (Q : kernel → Prop) : wp m s (λ _ s', Q s') → wp (_ ← m; mret tt) s (λ _ s', Q s').
Proof. intros Hm. apply wp_bind. eapply wp_mono; [exact Hm|]. intros a s' HQ. by wp_steps. Qed.

(** Every call comes to an end, unless the file of [exec] is not laid out. *)
Lemma perform_carried i c s Ts fl leak :
  enabled i c s → procs_ok s Ts fl leak → Z.of_nat (base.size leak) < 2 ^ 63 → ¬ unlaid c s →
  wp (perform i c) s (λ _ s', carried i s Ts fl leak s' ∨ mishap i c s Ts fl s').
Proof.
  intros Hen Hok Hleak Hlaid. destruct c as [ |code|va|k argv|a| | |va]; cbn [perform enabled mishap] in *.
  - apply wp_forget. eapply wp_mono; [by apply fork_carried|]. auto.
  - eapply wp_mono; [by apply exit_carried|]. auto.
  - destruct Hen. apply wp_forget. by apply wait_carried.
  - destruct Hen as (Hi & [elf Hfile] & Hargv). apply wp_forget. eapply wp_mono; [eapply exec_carried; try done|auto].
    destruct (decide (program_ok elf)) as [?|Hno]; [done|]. exfalso. apply Hlaid. by exists elf.
  - apply wp_forget. eapply wp_mono; [by apply sbrk_carried|]. intros r s' [?|[_ ?]]; auto.
  - eapply wp_mono; [by apply yield_carried|]. auto.
  - destruct Hen. eapply wp_mono; [by apply run_carried|]. auto.
  - destruct Hen as (? & ? & ?). by apply rerun_wait_carried.
Qed.

Lemma unlaid_mishap i c s Ts fl s' : unlaid c s → mishap i c s Ts fl s'.
Proof. by destruct c. Qed.

Lemma unlaid_dec i c s : enabled i c s → unlaid c s ∨ ¬ unlaid c s.
Proof.
  destruct c as [|code|va|k argv|a| | |va]; cbn; try (intros _; right; by intros []). intros (_ & [elf Hfile] & _).
  destruct (decide (program_ok elf)) as [Hp|Hp]; [right|left; by exists elf].
  intros (elf' & Hfile' & Hno). apply Hno. by rewrite (file_at_unique _ _ _ _ Hfile' Hfile).
Qed.

Lemma pstep_carried i c s s' Ts fl leak :
  pstep i c s s' → procs_ok s Ts fl leak → Z.of_nat (base.size leak) < 2 ^ 63 →
  carried i s Ts fl leak s' ∨ mishap i c s Ts fl s'.
Proof.
  intros [Hen Hr] Hok Hleak. destruct (unlaid_dec i c s Hen) as [Hu|Hu]; [right; by apply unlaid_mishap|].
  exact (wp_run _ _ _ _ _ (perform_carried i c s Ts fl leak Hen Hok Hleak Hu) Hr).
Qed.

Lemma psteps_ok n s s' Ts fl leak :
  psteps n s s' → procs_ok s Ts fl leak → Z.of_nat (base.size leak + n) < 2 ^ 63 →
  strayed n s s' ∨
  ∃ Ts' fl' leak', procs_ok s' Ts' fl' leak' ∧ all_pages (procs s') Ts' ++ fl' ≡ₚ all_pages (procs s) Ts ++ fl ∧
    (base.size leak' ≤ base.size leak + n)%nat.
Proof.
  intros Hs. revert Ts fl leak. induction Hs as [s|n i c s s1 s2 Hstep Hs IH]; intros Ts fl leak Hok Hleak.
  - right. exists Ts, fl, leak. split_and!; [done|done|lia].
  - destruct (pstep_carried i c s s1 Ts fl leak Hstep Hok ltac:(lia)) as [(Ts1 & fl1 & leak1 & Hok1 & Hp1 & Hl1 & _)|Hm]; [|left; by eapply strayed_here].
    destruct (IH Ts1 fl1 leak1 Hok1 ltac:(lia)) as [?|(Ts2 & fl2 & leak2 & Hok2 & Hp2 & Hl2)]; [left; by eapply strayed_later|].
    right. exists Ts2, fl2, leak2. split_and!; [done|by rewrite Hp2|lia].
Qed.
End isolation.

(** ** The first process

    A kernel with one process satisfies the invariant.  The process is made the
    way [userinit] makes it, with an empty program. *)

(** What holds if a computation comes to an end. *)
Definition pwp {A} (m : M kernel A) (s : kernel) (Q : A → kernel → Prop) : Prop :=
  match m s with Ok (a, s') => Q a s' | Fault _ => True end.

Lemma pwp_wp {A} (m : M kernel A) s Q : wp m s Q → pwp m s Q.
Proof. unfold wp, pwp. by destruct (m s) as [[a s']|]. Qed.

Lemma pwp_bind {A B} (m : M kernel A) (f : A → M kernel B) s Q :
  wp m s (λ a s', pwp (f a) s' Q) → pwp (a ← m; f a) s Q.
Proof. unfold wp, pwp, mbind, M_bind. by destruct (m s) as [[a s']|]. Qed.

Lemma pwp_expect {A B} (o : option A) msg (f : A → M kernel B) s Q :
  (∀ a, o = Some a → pwp (f a) s Q) → pwp (a ← expect o msg; f a) s Q.
Proof. intros H. destruct o as [a|]; [by apply H|done]. Qed.

Section first.
Context (kernel_end : usize) (trampoline_start : usize).

Definition first_proc : M kernel unit :=
  r ← allocproc kernel_end trampoline_start;
  i ← expect r "allocproc";
  set_initproc i;;
  p ← proc_slot i;
  st ← in_ram kalloc_zeroed;
  st ← expect st "stack";
  r ← in_ram (mappages (pagetable p) USER_STACK PGSIZE st URW);
  expect r "map stack";;
  set_proc i (set_state Running p);;
  modify (set_cpu_proc (Some i));;
  release (LProc i).

(** Nothing runs yet; the root directory is in the inode cache for good. *)
Record fresh_kernel (s : kernel) (fl : list Z) (leak : gmultiset nat) (k : nat) : Prop := {
  fn_fds : fds_ok s;
  fn_inodes : icache_ok (k_fs s) (inode_refs s leak);
  fn_leak : Z.of_nat (base.size leak) < 2 ^ 63;
  fn_root : k ∈ leak ∧ holds (k_fs s) k ROOTINO;
  fn_procs : procs s = replicate (Z.to_nat NPROC) Process_unused;
  fn_mem : kinv kernel_end (ram_of s) fl;
  fn_init : initproc s = None;
}.

Context (Hend_pos : 0 < kernel_end).
Context (Htramp : trampoline_start mod PGSIZE = 0) (Htramp0 : 0 ≤ trampoline_start < PHYSTOP).
Context (s : kernel) (fl : list Z) (leak : gmultiset nat) (k : nat) (Hf : fresh_kernel s fl leak k).

Definition no_spaces : list (option ptree) := replicate (Z.to_nat NPROC) None.

Lemma fresh_slot j q : procs s !! j = Some q → q = Process_unused ∧ no_spaces !! j = Some None.
Proof.
  rewrite (fn_procs _ _ _ _ Hf). intros [-> Hj]%lookup_replicate_1. split; [done|]. by apply lookup_replicate_2.
Qed.

Lemma fresh_mem : mem_ok kernel_end (ram_of s) (procs s) no_spaces fl ∧ all_pages (procs s) no_spaces = [].
Proof.
  assert (all_pages (procs s) no_spaces = []) as Hall by (by rewrite (fn_procs _ _ _ _ Hf)). split; [|done]. split.
  - by rewrite (fn_procs _ _ _ _ Hf).
  - intros j q oT [-> H0]%fresh_slot HT. simplify_eq. split; [apply Hf|by apply Forall_nil|done|apply (fn_mem _ _ _ _ Hf)].
  - apply Hf.
  - rewrite Hall. apply (fn_mem _ _ _ _ Hf).
Qed.

Lemma fresh_root : root_cached (k_fs s) k.
Proof.
  destruct (fn_root _ _ _ _ Hf) as [Hk Hroot]. eapply root_cached_ok; [apply Hf| |unfold inode_refs; apply gmultiset_elem_of_disj_union; by right|done].
  intros j. pose proof (inode_refs_small s leak j (fn_fds _ _ _ _ Hf) (fn_leak _ _ _ _ Hf)). lia.
Qed.

(** The process [q] in slot [c], with its stack. *)
Lemma first_ok c q T s' fl' :
  procs s !! c = Some Process_unused → procs s' = <[c := q]> (procs s) → state q = Running → parent q = None → ofile q = null_ofile → cwd q = k →
  icache (k_fs s') = icache (add_ref k (k_fs s)) → ftable s' = ftable s → pipes s' = pipes s → held s' = [] →
  cpu_proc s' = Some c → initproc s' = Some c → ram_page kernel_end (trapframe q) → stack_mapped kernel_end T →
  proc_mem kernel_end (ram_of s') fl' q (Some T) → proc_pages q (Some T) ++ fl' ≡ₚ fl →
  (∀ x, x ∉ fl → mem (ram_of s') !! x = mem (ram_of s) !! x) →
  procs_ok kernel_end s' (<[c := Some T]> no_spaces) fl' leak.
Proof.
  intros H0 Hps Hrun Hpar Hof Hcwd Hic Hft Hpi Hh Hcpu Hin Htf Hst Hmem Hpg Hfr.
  destruct (fn_root _ _ _ _ Hf) as [Hk Hroot]. destruct fresh_mem as [Hm Hall]. pose proof (fn_fds _ _ _ _ Hf) as [[Hfo _ Hlen] Hlens He].
  pose proof (lookup_lt_Some _ _ _ H0) as Hlt. destruct (fresh_slot c _ H0) as [_ Hn0].
  assert (k ∈ inode_refs s leak) as Hkin by (unfold inode_refs; apply gmultiset_elem_of_disj_union; by right).
  assert (icache_ok (k_fs s') (inode_refs s' leak)) as Hinodes.
  { eapply icache_ok_icache; [|exact Hic]. replace (inode_refs s' leak) with (inode_refs s leak ⊎ {[+ k +]}).
    - apply add_ref_ok; [apply Hf|done].
    - unfold inode_refs. rewrite Hps, Hft, list_fmap_insert.
      assert ((cwd_of <$> procs s) !! c = Some None) as Hn by (by rewrite list_lookup_fmap, H0).
      assert (cwd_of q = Some k) as Hq by (unfold cwd_of; by rewrite Hrun, Hcwd).
      pose proof (refs_of_insert _ c None (cwd_of q) Hn) as Hr. rewrite Hq, refs_of_none, refs_of_one, (right_id_L ∅ (⊎)) in Hr.
      rewrite Hq, Hr. clear. multiset_solver. }
  assert (fd_tables s' = fd_tables s) as Ht.
  { unfold fd_tables. rewrite Hps, list_fmap_insert. apply list_insert_id. rewrite list_lookup_fmap, H0. cbn. by rewrite Hof. }
  assert (∀ j r, procs s' !! j = Some r → j = c ∧ r = q ∨ r = Process_unused) as Hlk.
  { intros j r; rewrite Hps. destruct (decide (j = c)) as [->|]; [rewrite list_lookup_insert_eq by done|rewrite list_lookup_insert_ne by done].
    - intros [= <-]. by left.
    - intros [-> _]%fresh_slot. by right. }
  split.
  - split; rewrite ?Ht; [|done|by eapply ends_ok_eq]. split; [|done|by rewrite Hps, length_insert].
    eapply files_ok_refs; [done|done|done|by rewrite Hps, length_insert|done|apply Hf].
  - done.
  - rewrite Hps. by eapply (mem_ok_step kernel_end (ram_of s) (procs s) no_spaces fl c Process_unused None).
  - intros j r Hj Hu. destruct (Hlk j r Hj) as [[_ ->]| ->]; congruence.
  - intros j r Hj Hu. destruct (Hlk j r Hj) as [[-> ->]| ->]; [|done]. split; [done|]. exists T. rewrite list_lookup_insert_eq by (by eapply lookup_lt_Some). done.
  - intros j r Hj Hz. destruct (Hlk j r Hj) as [[_ ->]| ->]; [done|done].
  - intros j r Hj. destruct (Hlk j r Hj) as [[_ ->]| ->]; [by rewrite Hpar|done].
  - exists c, q. rewrite Hin, Hps. split_and!; [done|by apply list_lookup_insert_eq|by rewrite Hrun|done|].
    rewrite Hcwd. eapply holds_inums; [|exact Hroot]. by rewrite Hic, add_ref_inum.
  - intros j Hj. assert (j = c) as -> by congruence. exists q. rewrite Hps. split; [|done]. by apply list_lookup_insert_eq.
Qed.

(** The stack page of the new process. *)
Lemma first_stack T fl1 s1 :
  space_ok kernel_end (ram_of s1) T fl1 → L T !! STACK_VPN = None →
  wp (in_ram kalloc_zeroed) s1 (λ r s2, only_ram s1 s2 ∧ ∀ st, r = Some st →
    wp (in_ram (mappages (pt_root T) USER_STACK PGSIZE st URW)) s2 (λ r s3, only_ram s1 s3 ∧
      (is_Some r → ∃ T3 fl3, pages_filled kernel_end (λ _, URW) (λ _, zero_page) (ram_of s1) T fl1 STACK_VPN 1 (ram_of s3) T3 fl3))).
Proof.
  intros Hsp Hst. apply wp_ram. wp_call (own_kalloc_zeroed kernel_end Hend_pos); [apply Hsp|]. intros r m (Hh & Hr). split; [done|].
  intros s2 O2 <-. split; [done|]. intros st ->. destruct fl1 as [|p fl1]; destruct Hr as (Hst' & Hm & Hr); [done|]. injection Hst' as ->.
  destruct Hr as (Hown & Hp & Hn). apply wp_ram.
  wp_call (map_one kernel_end Hend_pos (ram_of s2) T fl1 STACK_VPN p URW Hown); [vpn_lia|vpn_lia|apply Hp|destruct Hp; lia| |done|done|].
  { destruct Hp. change (2 ^ 55) with 36028797018963968. mem_lia. }
  intros r m (T3 & fl3 & Hup). split; [destruct r; apply Hup|]. intros s3 O3 <-. split; [by eapply only_ram_trans|].
  intros [[] ->]. exists T3, fl3. eapply (fill_mapped kernel_end Hend_pos (λ _, URW) (λ _, zero_page) (ram_of s1) T (p :: fl1) STACK_VPN 0 (ram_of s1) T p fl1);
    try done; by apply filled_refl.
Qed.

(** What the first process has to start with. *)
Lemma first_proc_spec : pwp first_proc s (λ _ s', ∃ c T fl', procs_ok kernel_end s' (<[c := Some T]> no_spaces) fl' leak).
Proof.
  pose proof (fn_fds _ _ _ _ Hf) as [[_ Hh Hlen] _ _]. unfold first_proc. apply pwp_bind.
  eapply wp_mono; [apply (allocproc_spec kernel_end Hend_pos s fl k Hh Hlen fresh_root (fn_mem _ _ _ _ Hf)
    (λ j q Hq _, proj1 (fresh_slot j q Hq)) trampoline_start Htramp Htramp0)|].
  intros r s1 Hr. apply pwp_expect. intros c ->. destruct Hr as [Hc (T & tf & kst & fl1 & HL & Htf & Hkst & _ & Htk)].
  pose proof (taking_slot kernel_end s fl c k Hc _ _ _ _ Htk) as Hq. pose proof Htk as [E1 E2 _ _ [M1 M2 (_ & Hsp & Hps) M4] E6 E7].
  set (q := newp k (next_pid s) (pt_root T) tf kst) in *. apply pwp_bind. unfold set_initproc. wp_step.
  assert (initproc s1 = None) as -> by (rewrite E1; apply Hf). set (s1i := mkKernel _ _ _ _ _ _ _ _ _ _).
  apply pwp_bind. eapply wp_proc_slot; [exact Hq|]. apply pwp_bind. change (ram_of s1) with (ram_of s1i) in Hsp.
  assert (L T !! STACK_VPN = None) as Hst by (rewrite HL; unfold fresh_leaves; by rewrite lookup_insert_ne, lookup_singleton_ne).
  eapply wp_mono; [apply (first_stack T fl1 s1i Hsp Hst)|]. intros r s2 [O2 Hmap]. apply pwp_expect. intros st ->.
  apply pwp_bind. eapply wp_mono; [by apply Hmap|]. intros r s3 [O3 Hfill]. apply pwp_expect. intros [] ->.
  destruct (Hfill ltac:(by eexists)) as (T3 & fl3 & Hg). pose proof Hg as [G1 G2 G3 G4 G5 G6 G7].
  destruct (filled_stack kernel_end Hend_pos _ _ _ _ _ _ _ _ Hg Hps Hst) as [Hps3 Hpg3].
  apply pwp_wp. wp_step. apply wp_set_proc. wp_step. wp_step. eapply (wp_release_in _ [] []); [rewrite O3; exact (f_equal k_held E1)|not_in|]. cbn [app].
  assert (procs s3 = <[c := q]> (procs s) ∧ icache (k_fs s3) = icache (add_ref k (k_fs s)) ∧ ftable s3 = ftable s ∧ pipes s3 = pipes s)
    as (Hps' & Hic' & Hft' & Hpi').
  { rewrite O3. split_and!; [exact (f_equal procs E1)|exact (f_equal icache E2)|exact (f_equal ftable E1)|exact (f_equal pipes E1)]. }
  assert (proc_pages q (Some T3) ++ fl3 ≡ₚ fl) as Hpg.
  { rewrite <-E6. unfold proc_pages. cbn [from_option]. by rewrite <-!app_assoc, Hpg3. }
  exists c, T3, fl3. apply (first_ok c (set_state Running q)); try done; try (rewrite O3; done).
  - cbn. rewrite Hps'. apply list_insert_insert_eq.
  - destruct (G5 STACK_VPN ltac:(lia)) as (x & Hx & Hrx & _). by exists x.
  - apply (proc_mem_eq kernel_end (ram_of s3) fl3 q); try done; [|apply not_elem_of_nil]. split; [apply G1|done| |].
    + split_and!; [by rewrite G2|done|done].
    + rewrite Hpg. apply (fn_mem _ _ _ _ Hf).
  - intros x Hx. change (mem (ram_of s3) !! x = mem (ram_of s) !! x). rewrite G7; [by apply E7|].
    rewrite <-E6 in Hx. unfold proc_pages in Hx. cbn [from_option] in Hx. rewrite !not_elem_of_app in *. tauto.
Qed.
End first.

(** ** A kernel with one process *)

Definition root_inode : Inode := mkInode ROOTINO 1 true 1 0 0 1 0 (replicate 13 0).

(** Forty pages of memory, all free; the root directory is cached. *)
Definition bare_kernel : kernel := {|
  k_held := []; procs := replicate (Z.to_nat NPROC) Process_unused;
  cpu_proc := None; next_pid := 1; initproc := None;
  ftable := replicate (Z.to_nat NFILE) File_unused; pipes := replicate (Z.to_nat NPIPE) Pipe_unused;
  console := mkConsole (mkUart [] []) Input_new;
  k_fs := put_inode 0 root_inode boot_fs; k_ram := zero_machine 40;
|}.

Abbreviation fresh40 := (after (in_ram (kinit small_end)) bare_kernel).
Abbreviation init40 := (after (first_proc small_end KERNBASE) fresh40).
Abbreviation root_leak := ({[+ 0%nat +]} : gmultiset nat).

Lemma bare_fds : fds_ok bare_kernel.
Proof.
  assert (all_refs (fd_tables bare_kernel) = ∅) as Hrefs by (by vm_compute).
  assert (∀ i f, ftable bare_kernel !! i = Some f → f = File_unused) as Hft by (by intros i f [-> _]%lookup_replicate_1).
  assert (∀ i q, pipes bare_kernel !! i = Some q → q = Pipe_unused) as Hpi by (by intros i q [-> _]%lookup_replicate_1).
  split; [|by vm_compute; repeat constructor|].
  - rewrite Hrefs. split; [|done|done]. split; try done.
    + by intros i f ->%Hft.
    + intros i Hi. by apply gmultiset_not_elem_of_empty in Hi.
    + by intros i f ->%Hft.
    + intros i f p ->%Hft. done.
    + intros j Hj. exfalso. assert (inode_files j (ftable bare_kernel) = 0%nat) as E; [|lia].
      rewrite inode_files_refs. assert (refs_of (inode_of <$> ftable bare_kernel) = ∅) as -> by (by vm_compute). done.
  - split.
    + intros i j f g p w ->%Hft _ [H _]. done.
    + intros p q w ->%Hpi. split; [by destruct w|]. intros (i & f & ->%Hft & [H _]). done.
    + by intros p q ->%Hpi.
Qed.

Lemma bare_inodes : icache_ok (k_fs bare_kernel) (inode_refs bare_kernel root_leak).
Proof.
  assert (inode_refs bare_kernel root_leak = root_leak) as ->.
  { unfold inode_refs. assert (refs_of (inode_of <$> ftable bare_kernel) = ∅) as -> by (by vm_compute).
    assert (refs_of (cwd_of <$> procs bare_kernel) = ∅) as -> by (by vm_compute). by rewrite !(left_id_L ∅ (⊎)). }
  apply (icache_ok_put boot_fs ∅ root_leak 0 Inode_empty root_inode boot_icache_ok); [done|by rewrite multiplicity_singleton_eq| |].
  - intros j Hj. by rewrite multiplicity_singleton_ne by done.
  - intros j jp Hj [-> _]%lookup_replicate_1. done.
Qed.

Lemma fresh40_ok : ∃ fl, fresh_kernel small_end fresh40 fl root_leak 0.
Proof.
  eapply (after_wp _ bare_kernel (λ _ s', only_ram bare_kernel s' ∧ ∃ fl, kinv small_end (ram_of s') fl)).
  - apply wp_ram. change (ram_of bare_kernel) with (zero_machine 40).
    eapply wp_mono; [apply (kinit_frees_all small_end); [done|done|done|by apply zero_kinv]|].
    intros [] m (Hh & fl & Hk & _). split; [done|]. intros s' O <-. split; [done|]. by exists fl.
  - intros [] s' (O & fl & Hk). exists fl. split; try done.
    + rewrite O. apply (fds_ok_fields bare_kernel); try done. apply bare_fds.
    + rewrite O. apply bare_inodes.
    + rewrite O. split; [by apply gmultiset_elem_of_singleton|]. by eexists.
    + by rewrite O.
    + by rewrite O.
Qed.

Definition is_ok {A} (o : outcome A) : bool := match o with Ok _ => true | Fault _ => false end.

Lemma after_pwp {A} (m : M kernel A) s (R : kernel → Prop) : pwp m s (λ _ s', R s') → is_ok (m s) = true → R (after m s).
Proof. unfold pwp, after. by destruct (m s) as [[a s']|]. Qed.

Lemma first_runs : is_ok (first_proc small_end KERNBASE fresh40) = true.
Proof. by vm_compute. Qed.

Lemma small_end_pos : 0 < small_end.
Proof. by vm_compute. Qed.

Lemma kernbase_ok : KERNBASE mod PGSIZE = 0 ∧ 0 ≤ KERNBASE < PHYSTOP.
Proof. by vm_compute. Qed.

Lemma init40_ok : ∃ c T fl, procs_ok small_end init40 (<[c := Some T]> no_spaces) fl root_leak.
Proof.
  destruct fresh40_ok as [fl Hf]. apply (after_pwp _ _ (λ s', ∃ c T fl, procs_ok small_end s' (<[c := Some T]> no_spaces) fl root_leak)); [|exact first_runs].
  apply (first_proc_spec small_end KERNBASE small_end_pos (proj1 kernbase_ok) (proj2 kernbase_ok) fresh40 fl root_leak 0 Hf).
Qed.

Lemma init40_cpu : cpu_proc init40 = Some 0%nat.
Proof. by vm_compute. Qed.

Lemma init40_running : ∃ Ts fl p T, procs_ok small_end init40 Ts fl root_leak ∧ procs init40 !! 0%nat = Some p ∧ Ts !! 0%nat = Some (Some T).
Proof.
  destruct init40_ok as (c & T & fl & Hok). destruct (running_space small_end _ _ _ _ Hok 0%nat init40_cpu) as (p & T' & Hp & _ & HT & _).
  exists (<[c := Some T]> no_spaces), fl, p, T'. split; [exact Hok|]. split; [exact Hp|exact HT].
Qed.

Lemma zero_usize : 0 ≤ 0 ≤ USIZE_MAX.
Proof. done. Qed.

Lemma root_leak_small : Z.of_nat (base.size root_leak) < 2 ^ 63 ∧ Z.of_nat (base.size root_leak + 5) < 2 ^ 63 ∧ Z.of_nat (base.size root_leak + 6) < 2 ^ 63.
Proof. by rewrite gmultiset_size_singleton. Qed.

(** ** Properties *)

(** C3: [fork] makes a copy.  When it returns a process number, a slot that was free
    holds a runnable child: its parent is the caller, its size, descriptors and
    working directory are the caller's, every byte of its memory is readable,
    writable and executable exactly if the caller's is and has the same value, its
    registers are the caller's with a zero result, and all its pages come from the
    free list; nothing else in memory has changed and descriptors still agree
    with open files.  When it returns nothing, either every slot was taken and
    nothing has changed, or memory ran out: then the free list has its pages
    again, no other page has changed and of the attempt only the process number
    is used up. *)
Theorem fork_clones kernel_end trampoline_start forkret s Ts fl leak i p T :
  0 < kernel_end → trampoline_start mod PGSIZE = 0 → 0 ≤ trampoline_start < PHYSTOP →
  procs_ok kernel_end s Ts fl leak → Z.of_nat (base.size leak) < 2 ^ 63 →
  cpu_proc s = Some i → procs s !! i = Some p → Ts !! i = Some (Some T) →
  wp (fork kernel_end trampoline_start forkret) s (λ r s',
    match r with
    | Some n => n = next_pid s ∧ fds_ok s' ∧ ∃ k c q T' fl', forked kernel_end trampoline_start forkret s fl leak k i p T s' c q T' fl'
    | None => (∀ j q, procs s !! j = Some q → state q ≠ Unused) ∧ s' = s ∨ undone kernel_end s fl s'
    end).
Proof.
  intros Hend Ht1 Ht2 Hok Hleak Hi Hp HT. destruct (procs_forkable kernel_end s Ts fl leak i Hok Hleak Hi) as (k & p' & T' & HT' & Hf).
  pose proof (fb_proc _ _ _ _ _ _ _ _ Hf) as Hp'. simplify_eq.
  eapply wp_mono; [by apply (fork_spec kernel_end Hend trampoline_start Ht1 Ht2 forkret s fl leak k i p T Hf)|].
  intros [n|] s'; [|done]. intros (Hn & Hfds & c & q & T' & fl' & Hfk). split_and!; [done|done|]. by exists k, c, q, T', fl'.
Qed.

Lemma fork_clones_witness : ∃ Ts fl p T, procs_ok small_end init40 Ts fl root_leak ∧
  wp (fork small_end KERNBASE 0) init40 (λ r s',
    match r with
    | Some n => n = next_pid init40 ∧ fds_ok s' ∧ ∃ k c q T' fl', forked small_end KERNBASE 0 init40 fl root_leak k 0 p T s' c q T' fl'
    | None => (∀ j q, procs init40 !! j = Some q → state q ≠ Unused) ∧ s' = init40 ∨ undone small_end init40 fl s'
    end).
Proof.
  destruct init40_running as (Ts & fl & p & T & Hok & Hp & HT). exists Ts, fl, p, T. split; [exact Hok|].
  apply (fork_clones small_end KERNBASE 0 init40 Ts fl root_leak 0 p T);
    [exact small_end_pos|exact (proj1 kernbase_ok)|exact (proj2 kernbase_ok)|exact Hok|exact (proj1 root_leak_small)|exact init40_cpu|exact Hp|exact HT].
Defined.

(** C17: [wait] collects the first zombie among the caller's children: it returns its
    process number, the child's pages are on the free list again (and nothing
    else is), its slot is clean, its working directory has one reference less,
    and the four bytes at [va], if an address was given, are its exit status, all
    other memory of the caller being as before; the invariant of the process
    table holds again.  Without children it returns [-1] and changes nothing, with
    children that all still live it blocks on the caller's channel, and with an
    address the user may not write it returns [-1] with [WAIT_LOCK] still held. *)
Theorem wait_reaps kernel_end s Ts fl leak i p T va :
  0 < kernel_end → procs_ok kernel_end s Ts fl leak → Z.of_nat (base.size leak) < 2 ^ 63 →
  cpu_proc s = Some i → procs s !! i = Some p → Ts !! i = Some (Some T) → 0 ≤ va ≤ USIZE_MAX →
  wp (wait kernel_end va) s (λ r s',
    waited kernel_end s Ts fl i T va r s' ∧
    ∀ c q oT fl', procs s !! c = Some q → zombie_of i q = true → reaped kernel_end s Ts fl T va c q oT s' fl' →
      procs_ok kernel_end s' (<[c := None]> Ts) fl' leak).
Proof.
  intros Hend Hok Hleak Hi Hp HT Hva. eapply wp_mono; [by eapply (wait_spec kernel_end Hend s Ts fl leak i p T)|].
  intros r s' Hw. split; [done|]. intros c q oT fl' Hq Hz Hr. by eapply reaped_ok.
Qed.

Lemma wait_reaps_witness : ∃ Ts fl T,
  wp (wait small_end 0) init40 (λ r s',
    waited small_end init40 Ts fl 0 T 0 r s' ∧
    ∀ c q oT fl', procs init40 !! c = Some q → zombie_of 0 q = true → reaped small_end init40 Ts fl T 0 c q oT s' fl' →
      procs_ok small_end s' (<[c := None]> Ts) fl' root_leak).
Proof.
  destruct init40_running as (Ts & fl & p & T & Hok & Hp & HT). exists Ts, fl, T.
  apply (wait_reaps small_end init40 Ts fl root_leak 0 p T 0);
    [exact small_end_pos|exact Hok|exact (proj1 root_leak_small)|exact init40_cpu|exact Hp|exact HT|exact zero_usize].
Defined.


(** A program of two pages in a file, and the kernel above with that file. *)
Definition prog : list u8 := tiny_elf [1; 2; 3] 5000.

Lemma new_file_written f src n ip f' :
  ready 2 f → bytes_ok src → src ≠ [] → Z.of_nat (length src) ≤ MAXFILE * BSIZE → (1 < length (icache f))%nat → held f = [] →
  _writei (new_file 1) 0 src f = Ok (n, ip, f') → n = Z.of_nat (length src) → file_at (put_inode 1 ip f') 1 src.
Proof.
  intros Hr Hb Hne Hmax Hlen Hh Hrun ->.
  pose proof (writei_spec 0 f (new_file 1) 0 src Hr (new_file_ok _ _) (new_file_meta 1 ltac:(done)) Hb Hne ltac:(lia) Hmax) as Hw.
  apply (wp_run _ _ _ _ _ Hw) in Hrun as [He Ht Hip Hf _ Hc _]. pose proof (ext_ready _ _ _ _ Hr He) as [A B C].
  assert (contents (disk f') ip = src) as Hcon.
  { destruct Hc as [->|(Hlt & _)]; [|by cbn in Hlt]. rewrite Nat2Z.id, take_ge by done. unfold contents at 1. cbn.
    change (fbytes (disk f) zero_addrs 0 0) with (@nil Z). unfold write_at. cbn. by rewrite drop_nil, app_nil_r. }
  assert (locked_inode (put_inode 1 ip f') ip = ip ∧ inum ip = 1) as [Hlk Hin] by (unfold locked_inode; rewrite Hip; done).
  split.
  - apply (ready_le 2); [lia|]. by split.
  - change (LInode 1 ∉ held f'). rewrite (ext_held _ _ _ He), Hh. apply not_elem_of_nil.
  - exists ip. rewrite Hlk, Hin. split_and!; [|done|done|done]. unfold put_inode. cbn. rewrite (ext_icache _ _ _ He). by apply list_lookup_insert_eq.
Qed.

(** The kernel above with that program in a file of the inode cache. *)
Abbreviation prog_run := (_writei (new_file 1) 0 prog boot_fs).
Definition prog_fs : fs := match prog_run with Ok (_, ip, f) => put_inode 1 ip f | Fault _ => boot_fs end.

Lemma prog_written : match prog_run with Ok (n, _, _) => n | Fault _ => 0 end = 123.
Proof. vm_compute. reflexivity. Qed.

Lemma prog_bytes : bytes_ok prog ∧ length prog = 123%nat ∧ program_ok prog.
Proof. split_and!; [by apply (bool_decide_unpack _)|done|]. intros _. vm_compute. reflexivity. Qed.

Lemma prog_file : file_at prog_fs 1 prog.
Proof.
  destruct prog_bytes as (Hb & Hl & _). pose proof prog_written as Hn. unfold prog_fs.
  destruct prog_run as [[[n ip] f]|] eqn:Hrun; [|done].
  apply (new_file_written boot_fs prog n ip f); [|exact Hb|done| | |done|exact Hrun|].
  - apply (ready_le 16); [lia|apply boot_ready].
  - rewrite Hl. fs_lia.
  - rewrite (ic_len _ _ boot_icache_ok). by apply (bool_decide_unpack _).
  - rewrite Hl. exact Hn.
Qed.

Lemma file_at_idle f k elf : file_at f k elf → file_at (set_held [] f) k elf.
Proof.
  intros [[A B C] _ Hf]. split; [split; [exact A|exact B|]|apply not_elem_of_nil|exact Hf]. split; [|intros i]; apply not_elem_of_nil.
Qed.

Local Abbreviation prog40 := (set_k_fs prog_fs init40).

Lemma running_with_file kernel_end s Ts fl leak i f k elf :
  procs_ok kernel_end s Ts fl leak → cpu_proc s = Some i → file_at f k elf →
  ∃ p T, (k_held (set_k_fs f s) = [] ∧ cpu_proc (set_k_fs f s) = Some i ∧ procs (set_k_fs f s) !! i = Some p) ∧
    proc_mem kernel_end (ram_of (set_k_fs f s)) fl p (Some T) ∧ ram_page kernel_end (trapframe p) ∧ file_at (fs_of (set_k_fs f s)) k elf.
Proof.
  intros Hok Hi Hf. pose proof (idle_held _ _ _ _ _ Hok) as Hh.
  destruct (running_space kernel_end _ _ _ _ Hok i Hi) as (p & T & Hp & _ & HT & Htf & _). exists p, T.
  split; [by split_and!|]. split; [exact (mo_proc _ _ _ _ _ (po_mem _ _ _ _ _ Hok) _ _ _ Hp HT)|]. split; [exact Htf|].
  unfold fs_of. change (k_held (set_k_fs f s)) with (k_held s). rewrite Hh. by apply file_at_idle.
Qed.

Lemma prog40_ok : ∃ fl p T, (k_held prog40 = [] ∧ cpu_proc prog40 = Some 0%nat ∧ procs prog40 !! 0%nat = Some p) ∧
  proc_mem small_end (ram_of prog40) fl p (Some T) ∧ ram_page small_end (trapframe p) ∧ file_at (fs_of prog40) 1 prog.
Proof.
  destruct init40_ok as (c & T & fl & Hok). exists fl.
  exact (running_with_file small_end init40 _ fl root_leak 0 prog_fs 1 prog Hok init40_cpu prog_file).
Qed.



(** A run: fork, the child runs and exits, the parent collects it. *)
Local Abbreviation forked40 := (after (fork small_end KERNBASE 0) init40).
Local Abbreviation yielded40 := (after (yield_enter;; scheduler_back 0) forked40).
Local Abbreviation child40 := (after (run_proc 1) yielded40).
Local Abbreviation exited40 := (after (exit_enter 7;; scheduler_back 1) child40).
Local Abbreviation parent40 := (after (run_proc 0) exited40).
Local Abbreviation waited40 := (after (or_sleep 0 (wait small_end 0)) parent40).

Lemma ok_after {A} (m : M kernel A) s : is_ok (m s) = true → ∃ a, m s = Ok (a, after m s).
Proof. unfold after. destruct (m s) as [[a s']|]; [|done]. by exists a. Qed.

Lemma ok_unit (m : M kernel unit) s : is_ok (m s) = true → m s = Ok (tt, after m s).
Proof. intros H. destruct (ok_after m s H) as [[] Ha]. exact Ha. Qed.

(** Every step ends, in the states the next one needs. *)
Lemma run40 :
  is_ok (fork small_end KERNBASE 0 init40) = true ∧
  (cpu_proc forked40 = Some 0%nat ∧ is_ok ((yield_enter;; scheduler_back 0) forked40) = true) ∧
  (cpu_proc yielded40 = None ∧ is_ok (run_proc 1 yielded40) = true) ∧
  (cpu_proc child40 = Some 1%nat ∧ is_ok ((exit_enter 7;; scheduler_back 1) child40) = true) ∧
  (cpu_proc exited40 = None ∧ is_ok (run_proc 0 exited40) = true) ∧
  (cpu_proc parent40 = Some 0%nat ∧ is_ok (or_sleep 0 (wait small_end 0) parent40) = true ∧ held waited40 = []).
Proof. vm_compute. repeat split. Qed.

Lemma slots40 : (0 < Z.to_nat NPROC)%nat ∧ (1 < Z.to_nat NPROC)%nat.
Proof. by vm_compute; repeat split; repeat constructor. Qed.

Lemma ok_forget {A} (m : M kernel A) s s' : (∃ a, m s = Ok (a, s')) → (_ ← m; mret tt) s = Ok (tt, s').
Proof. intros [a Ha]. unfold mbind, M_bind. by rewrite Ha. Qed.

Lemma steps_to_parent : psteps small_end KERNBASE 0 5 init40 parent40.
Proof.
  destruct run40 as (R1 & (C2 & R2) & (C3 & R3) & (C4 & R4) & (C5 & R5) & _).
  eapply (psteps_next _ _ _ _ 0 CFork _ forked40); [exact (conj init40_cpu (ok_forget _ _ _ (ok_after _ _ R1)))|].
  eapply (psteps_next _ _ _ _ 0 CYield _ yielded40); [exact (conj C2 (ok_unit _ _ R2))|].
  eapply (psteps_next _ _ _ _ 1 CRun _ child40); [exact (conj (conj C3 (proj2 slots40)) (ok_unit _ _ R3))|].
  eapply (psteps_next _ _ _ _ 1 (CExit 7) _ exited40); [exact (conj C4 (ok_unit _ _ R4))|].
  eapply (psteps_next _ _ _ _ 0 CRun _ parent40); [exact (conj (conj C5 (proj1 slots40)) (ok_unit _ _ R5))|].
  apply psteps_refl.
Qed.




(** The run: of forty pages a process takes six; those of the child are free again
    once it has been collected. *)
Example life_run :
  (state <$> take 2 (procs parent40), state <$> take 2 (procs waited40), chain_length 100 (mem (k_ram init40)) (head (k_ram init40)),
   chain_length 100 (mem (k_ram parent40)) (head (k_ram parent40)), chain_length 100 (mem (k_ram waited40)) (head (k_ram waited40))) =
  ([Running; Zombie], [Running; Unused], 34%nat, 28%nat, 34%nat).
Proof. vm_compute. reflexivity. Qed.
