(* ===== verification/Trap.v ===== *)
(** * Traps, timer and interrupt controller (src/src/trap.rs, timer.rs, plic.rs)

    The handlers above the assembly that saves and restores registers: the
    dispatch on [scause], the timer that preempts, the interrupt controller, and
    the return to user mode.  The state adds the control registers and the two
    devices to the kernel.  A trap that gives up the processor is split at the
    switch; [trap_pending] is what is left to do when the process runs again. *)

From S2P Require Import Prelude Ring Spinlock FsBase Icache Kalloc Vm PageTable Kernel Sched Pipe Console File Proc Exec Syscall.

(** ** State *)

Record Csr := mkCsr {
  sstatus : u64; stvec : u64; sepc : u64; scause : u64; stval : u64; satp : u64; tp : u64; sie : u64;
}.

(** The devices: registers of the interrupt controller by address, the interrupts
    it will report in order, those reported back, the clock, and the time at which
    the next timer interrupt is due. *)
Record Dev := mkDev {
  plic_regs : gmap Z u32; claims : list u32; completed : list u32; now : u64; deadline : u64;
}.

Record hartk := mkHartk { csr : Csr; dev : Dev; kern : kernel }.

Definition in_kernel {A} (m : M kernel A) : M hartk A := λ s,
  match m (kern s) with
  | Ok (a, k) => Ok (a, mkHartk (csr s) (dev s) k)
  | Fault e => Fault e
  end.

Definition set_csr (c : Csr) (s : hartk) : hartk := mkHartk c (dev s) (kern s).
Definition set_dev (d : Dev) (s : hartk) : hartk := mkHartk (csr s) d (kern s).

Definition w_sstatus (x : u64) : M hartk unit :=
  modify (λ s, let c := csr s in
    set_csr (mkCsr x (stvec c) (sepc c) (scause c) (stval c) (satp c) (tp c) (sie c)) s).
Definition w_stvec (x : u64) : M hartk unit :=
  modify (λ s, let c := csr s in
    set_csr (mkCsr (sstatus c) x (sepc c) (scause c) (stval c) (satp c) (tp c) (sie c)) s).
Definition w_sepc (x : u64) : M hartk unit :=
  modify (λ s, let c := csr s in
    set_csr (mkCsr (sstatus c) (stvec c) x (scause c) (stval c) (satp c) (tp c) (sie c)) s).
(** [csrs sie, bits] *)
Definition set_sie (bits : u64) : M hartk unit :=
  modify (λ s, let c := csr s in
    set_csr (mkCsr (sstatus c) (stvec c) (sepc c) (scause c) (stval c) (satp c) (tp c) (Z.lor (sie c) bits)) s).
(** [csrc sstatus, SIE] *)
Definition trap_intr_off : M hartk unit := x ← gets (λ s, sstatus (csr s)); w_sstatus (Z.ldiff x 2).

Definition SSTATUS_SPP : usize := Z.shiftl 1 8.
Definition SSTATUS_SPIE : usize := Z.shiftl 1 5.

(** ** Timer *)

Definition INTERVAL : u64 := 1000000.

Definition sbi_set_timer (t : u64) : M hartk unit :=
  modify (λ s, let d := dev s in set_dev (mkDev (plic_regs d) (claims d) (completed d) (now d) t) s).

Definition schedule_next : M hartk unit :=
  t ← gets (λ s, now (dev s)); next ← add_at USIZE_MAX t INTERVAL; sbi_set_timer next.

Definition timer_init : M hartk unit := schedule_next;; set_sie (Z.shiftl 1 5).

(** [handle] up to the switch, when there is one. *)
Definition timer_handle : M hartk bool :=
  schedule_next;;
  c ← gets (λ s, cpu_proc (kern s));
  match c with
  | None => mret false
  | Some _ => in_kernel yield_enter;; mret true
  end.

(** ** Interrupt controller *)

Definition UART_IRQ : u32 := 10.
Definition plic_priority (irq : u32) : usize := PLIC + 4 * irq.
Definition PLIC_SENABLE : usize := PLIC + 0x2080.
Definition PLIC_STHRESHOLD : usize := PLIC + 0x201000.

Definition plic_write (a : usize) (v : u32) : M hartk unit :=
  modify (λ s, let d := dev s in set_dev (mkDev (<[a := v]> (plic_regs d)) (claims d) (completed d) (now d) (deadline d)) s).
Definition plic_read (a : usize) : M hartk u32 := gets (λ s, default 0 (plic_regs (dev s) !! a)).

Definition plic_init : M hartk unit :=
  plic_write (plic_priority UART_IRQ) 1;;
  plic_write PLIC_STHRESHOLD 0;;
  v ← plic_read PLIC_SENABLE;
  plic_write PLIC_SENABLE (Z.lor v (Z.shiftl 1 UART_IRQ));;
  set_sie (Z.shiftl 1 9).

(** Reading the claim register takes the next interrupt, [0] when there is none. *)
Definition claim : M hartk (option u32) :=
  d ← gets dev;
  match claims d with
  | [] => mret None
  | irq :: rest =>
      modify (set_dev (mkDev (plic_regs d) rest (completed d) (now d) (deadline d)));;
      mret (if irq =? 0 then None else Some irq)
  end.

Definition complete (irq : u32) : M hartk unit :=
  modify (λ s, let d := dev s in
    set_dev (mkDev (plic_regs d) (claims d) (completed d ++ [irq]) (now d) (deadline d)) s).

Definition handle_external : M hartk unit :=
  r ← claim;
  match r with
  | None => mret tt
  | Some irq =>
      (if irq =? UART_IRQ then in_kernel console_intr else raise (Panic "plic: unexpected irq"));;
      complete irq
  end.

(** ** Traps *)

Definition TF_KERNEL_SATP : usize := 0.
Definition TF_KERNEL_SP : usize := 8.
Definition TF_KERNEL_TRAP : usize := 16.
Definition TF_KERNEL_HARTID : usize := 32.

(** [{:#x}] *)
Definition hex_digit (d : Z) : u8 := if d <? 10 then 48 + d else 87 + d.
Fixpoint hex_digits (fuel : nat) (n : Z) : list u8 :=
  match fuel with
  | O => []
  | S fuel => if n <? 16 then [hex_digit n] else hex_digits fuel (n / 16) ++ [hex_digit (n mod 16)]
  end.
Definition hex (n : Z) : list u8 := bytes_of_string "0x" ++ hex_digits 16 n.

(** What happens next: [sret] to user mode with these arguments of [userret], a
    switch to the scheduler with something left to do, or nothing ever. *)
Inductive trap_pending := AfterYield | InSyscall (t : pending).
Inductive trap_end :=
| ToUser (trapframe_va satp : u64)
| Switched (k : trap_pending)
| NoReturn.

Definition is_interrupt (scause : u64) : bool := Z.land (Z.shiftr scause 63) 1 =? 1.

Section trap.
(** Linker symbols, addresses of functions, and the padding bytes of [Stat]. *)
Context (kernel_end trampoline_start forkret trap_entry usertrap_fn uservec userret : usize) (pad1 pad2 : list u8).

Definition trampoline_uservec_va : M hartk usize :=
  o ← sub_at USIZE_MAX uservec trampoline_start; add_at USIZE_MAX TRAMPOLINE o.

(** The locks held are the nesting depth [noff]. *)
Definition usertrapret : M hartk trap_end :=
  h ← gets (λ s, held (kern s));
  assert (bool_decide (length h = 0%nat)) "usertrapret: in critical section";;
  '(_, p) ← in_kernel curproc;
  trap_intr_off;;
  vec ← trampoline_uservec_va;
  w_stvec vec;;
  c ← gets csr;
  in_kernel (in_ram (store64 (trapframe p + TF_KERNEL_SATP) (satp c)));;
  sp ← add_at USIZE_MAX (kstack p) PGSIZE;
  in_kernel (in_ram (store64 (trapframe p + TF_KERNEL_SP) sp));;
  in_kernel (in_ram (store64 (trapframe p + TF_KERNEL_TRAP) usertrap_fn));;
  in_kernel (in_ram (store64 (trapframe p + TF_KERNEL_HARTID) (tp c)));;
  x ← gets (λ s, sstatus (csr s));
  w_sstatus (Z.lor (Z.ldiff x SSTATUS_SPP) SSTATUS_SPIE);;
  epc ← in_kernel (in_ram (load64 (trapframe p + TF_EPC)));
  w_sepc epc;;
  mret (ToUser TRAPFRAME (make_satp (pagetable p))).

(** A system call that sleeps has switched to the scheduler. *)
Definition after_syscall (e : sys_end) : M hartk trap_end :=
  match e with
  | Finished => usertrapret
  | Asleep c lk t => in_kernel (sleep_enter c lk);; mret (Switched (InSyscall t))
  | Gone => mret NoReturn
  end.

Definition kill_message (pid : usize) (c : Csr) : list u8 :=
  bytes_of_string "usertrap: killing pid " ++ digits 20 pid ++
  bytes_of_string " scause=" ++ hex (scause c) ++ bytes_of_string " sepc=" ++ hex (sepc c) ++
  bytes_of_string " stval=" ++ hex (stval c) ++ [NL].

(** The dispatch of [usertrap] on the cause, with the registers read at its entry. *)
Definition user_cause (p : Process) (c : Csr) : M hartk trap_end :=
  let code := Z.land (scause c) 0xff in
  if is_interrupt (scause c) then
    if code =? 5 then
      switched ← timer_handle;
      if (switched : bool) then mret (Switched AfterYield) else usertrapret
    else if code =? 9 then handle_external;; usertrapret
    else raise (Panic "usertrap: unexpected interrupt code")
  else if code =? 8 then
    epc ← in_kernel (in_ram (load64 (trapframe p + TF_EPC)));
    epc ← add_at USIZE_MAX epc 4;
    in_kernel (in_ram (store64 (trapframe p + TF_EPC) epc));;
    e ← in_kernel (syscall kernel_end trampoline_start forkret pad1 pad2);
    after_syscall e
  else
    in_kernel (console_write_bytes (kill_message (pid p) c));;
    in_kernel (exit_enter (-1));;
    mret NoReturn.

Definition usertrap : M hartk trap_end :=
  x ← gets (λ s, sstatus (csr s));
  assert (Z.land x SSTATUS_SPP =? 0) "usertrap: not from user mode";;
  w_stvec trap_entry;;
  '(_, p) ← in_kernel curproc;
  c ← gets csr;
  in_kernel (in_ram (store64 (trapframe p + TF_EPC) (sepc c)));;
  user_cause p c.

(** The process runs again: the rest of [yield_cpu] or of the system call. *)
Definition usertrap_resume (k : trap_pending) : M hartk trap_end :=
  match k with
  | AfterYield => in_kernel yield_leave;; usertrapret
  | InSyscall t => e ← in_kernel (syscall_resume kernel_end t); after_syscall e
  end.

(** An interrupt in kernel mode; it reports whether it has switched. *)
Definition kerneltrap : M hartk bool :=
  c ← gets csr;
  let code := Z.land (scause c) 0xff in
  if is_interrupt (scause c) then
    if code =? 5 then timer_handle
    else if code =? 9 then handle_external;; mret false
    else raise (Panic "kerneltrap: unexpected interrupt code")
  else raise (Panic "kerneltrap").

(** [init] and the start of a new process. *)
Definition trap_init : M hartk unit :=
  w_stvec trap_entry;;
  v ← gets (λ s, stvec (csr s));
  in_kernel (console_write_bytes (bytes_of_string "stvec = " ++ hex v ++ [NL])).

(** *** Interrupts in kernel mode *)

(** [csrs sstatus, SIE] *)
Definition trap_intr_on : M hartk unit := x ← gets (λ s, sstatus (csr s)); w_sstatus (Z.lor x 2).

Definition sie_on (x : u64) : bool := Z.testbit x 1.

(** The hart takes an interrupt in supervisor mode at [pc]: SIE goes to SPIE and is
    cleared, SPP records the mode, and [sepc] and [scause] are set. *)
Definition take_interrupt (pc cause : u64) : M hartk unit :=
  modify (λ s, let c := csr s in
    let x := Z.ldiff (Z.lor (Z.ldiff (sstatus c) SSTATUS_SPIE) SSTATUS_SPP) 2 in
    let x := if sie_on (sstatus c) then Z.lor x SSTATUS_SPIE else x in
    set_csr (mkCsr x (stvec c) pc cause 0 (satp c) (tp c) (sie c)) s).

(** [sret]: where it goes, and whether it stays in supervisor mode. *)
Definition sret : M hartk (u64 * bool) :=
  c ← gets csr;
  let x := sstatus c in
  let y := if Z.testbit x 5 then Z.lor x 2 else Z.ldiff x 2 in
  w_sstatus (Z.lor (Z.ldiff y SSTATUS_SPP) SSTATUS_SPIE);;
  mret (sepc c, Z.testbit x 8).

(** [trap_entry] around [kerneltrap], as far as the control registers go: the
    general registers are saved on the stack, [sepc] and [sstatus] are not.
    [None]: the interrupted process has given up the processor. *)
Definition kernel_interrupt (pc cause : u64) : M hartk (option (u64 * bool)) :=
  take_interrupt pc cause;;
  switched ← kerneltrap;
  if (switched : bool) then mret None else r ← sret; mret (Some r).

(** The interrupted process runs again: [yield_cpu] and the handler return. *)
Definition kernel_resume : M hartk (u64 * bool) := in_kernel yield_leave;; sret.

(** The interrupts that arrive, with the instructions they find, while SIE is on;
    it reports whether one of them has taken the processor away. *)
Fixpoint arrive (w : list (u64 * u64)) : M hartk bool :=
  match w with
  | [] => mret false
  | (pc, cause) :: w =>
      x ← gets (λ s, sstatus (csr s));
      if sie_on x then
        r ← kernel_interrupt pc cause;
        match r with
        | None => mret true
        | Some _ => arrive w
        end
      else arrive w
  end.

(** [forkret].  The release of [p.lock] is the last [pop_off]: it puts interrupts on
    again if [intena], and those of [w] may arrive before [usertrapret] puts them
    off.  [None]: one of them has taken the processor away. *)
Definition forkret_body (intena : bool) (w : list (u64 * u64)) : M hartk (option trap_end) :=
  i ← in_kernel (myproc "forkret: no proc");
  in_kernel (release (LProc i));;
  (if intena then trap_intr_on else mret tt);;
  away ← arrive w;
  if (away : bool) then mret None else e ← usertrapret; mret (Some e).
End trap.
