(* ===== verification/TrapSpec.v ===== *)
(** * What traps do to a user program and to the kernel

    The registers of a program are in its trapframe while the kernel runs; an
    interrupt of the kernel itself leaves its control registers as they were. *)

From S2P Require Import Prelude Ring Spinlock FsBase Icache Kalloc Vm PageTable UserMem Kernel Sched Pipe Console File Proc Exec Syscall Descr Exit Trap.

(** ** The trapframe page *)

Definition word (off : nat) (d : list u8) : Z := le_val (slice off 8 d).

Lemma length_set_word off v d : length d = 4096%nat → (off + 8 ≤ 4096)%nat → length (splice off (le_bytes 8 v) d) = 4096%nat.
Proof. intros Hl Ho. rewrite length_splice; [done|]. rewrite length_le_bytes. lia. Qed.

Lemma slice_set_word off v d off' n :
  length d = 4096%nat → (off + 8 ≤ 4096)%nat → (off' + n ≤ off ∨ off + 8 ≤ off')%nat → (off' + n ≤ 4096)%nat →
  slice off' n (splice off (le_bytes 8 v) d) = slice off' n d.
Proof. intros Hl Ho Hd Hn. apply slice_splice_other; rewrite ?length_le_bytes, ?Hl; lia. Qed.

Lemma word_set_word off v d :
  length d = 4096%nat → (off + 8 ≤ 4096)%nat → 0 ≤ v < 2 ^ 64 → word off (splice off (le_bytes 8 v) d) = v.
Proof.
  intros Hl Ho Hv. unfold word. replace 8%nat with (length (le_bytes 8 v)) at 1 by apply length_le_bytes.
  rewrite slice_splice_same by (rewrite length_le_bytes; lia). by apply le_val_bytes_id.
Qed.

Lemma set_word_twice off v w d :
  length d = 4096%nat → (off + 8 ≤ 4096)%nat → splice off (le_bytes 8 w) (splice off (le_bytes 8 v) d) = splice off (le_bytes 8 w) d.
Proof.
  intros Hl Ho. pose proof (length_set_word off v d Hl Ho) as H1. apply list_eq. intros k.
  destruct (decide (off ≤ k < off + 8)%nat).
  - rewrite !lookup_splice_in by (rewrite length_le_bytes; lia). done.
  - rewrite !lookup_splice_out by (rewrite length_le_bytes; lia). done.
Qed.

(** Process [i] runs and its trapframe is the page [d]. *)
Record tf_ok (k : kernel) (i : nat) (p : Process) (d : list u8) : Prop := {
  tf_cpu : cpu_proc k = Some i;
  tf_proc : procs k !! i = Some p;
  tf_align : trapframe p mod PGSIZE = 0;
  tf_page : mem (k_ram k) !! trapframe p = Some d;
  tf_len : length d = 4096%nat;
}.

(** Only the trapframe page has changed, to [d]. *)
Definition tf_written (p : Process) (d : list u8) (k k' : kernel) : Prop :=
  ∃ r, k' = set_k_ram r k ∧ mem r = <[trapframe p := d]> (mem (k_ram k)) ∧ head r = head (k_ram k).

Lemma tf_written_trans p d d' k k' k'' : tf_written p d k k' → tf_written p d' k' k'' → tf_written p d' k k''.
Proof.
  intros (r & -> & Hm & Hh) (r' & -> & Hm' & Hh'). exists r'. split; [done|]. cbn in *.
  rewrite Hm', Hm, insert_insert_eq. split; congruence.
Qed.

Lemma tf_written_ok k k' i p d d' : tf_ok k i p d → length d' = 4096%nat → tf_written p d' k k' → tf_ok k' i p d'.
Proof. intros [H1 H2 H3 H4 H5] Hl (r & -> & Hm & Hh). split; try done. cbn. rewrite Hm. apply lookup_insert_eq. Qed.

Lemma tf_addr a off : a mod PGSIZE = 0 → 0 ≤ off < PGSIZE → pbase (a + off) = a ∧ poff (a + off) = off.
Proof.
  intros Ha Ho. unfold pbase, poff. assert ((a + off) mod PGSIZE = off) as ->; [|lia].
  rewrite Z.add_mod, Ha, Z.add_0_l, Z.mod_mod by mem_lia. by apply Z.mod_small.
Qed.

Lemma wp_tf_store k i p d off v Q :
  tf_ok k i p d → 0 ≤ off → off + 8 ≤ 4096 →
  (∀ k', tf_written p (splice (Z.to_nat off) (le_bytes 8 v) d) k k' →
     tf_ok k' i p (splice (Z.to_nat off) (le_bytes 8 v) d) → Q tt k') →
  wp (in_ram (store64 (trapframe p + off) v)) k Q.
Proof.
  intros Hok H0 Hoff HQ. pose proof Hok as [H1 H2 H3 H4 H5]. destruct (tf_addr (trapframe p) off H3) as [Hb Ho]; [mem_lia|].
  apply wp_zoom. eapply wp_store64; [rewrite Hb; exact H4|]. rewrite Hb, Ho.
  set (d' := splice _ _ _). assert (length d' = 4096%nat) as Hd'.
  { unfold d'. rewrite length_splice; [done|]. rewrite length_le_bytes. lia. }
  set (k' := set_k_ram _ _). assert (tf_written p d' k k') as Hw; [|by apply HQ; [|eapply tf_written_ok]].
  eexists. split; [unfold k'; by destruct k|]. by split.
Qed.

Lemma wp_tf_load k i p d off Q :
  tf_ok k i p d → 0 ≤ off → off + 8 ≤ 4096 →
  (∀ k', tf_written p d k k' → tf_ok k' i p d → Q (word (Z.to_nat off) d) k') →
  wp (in_ram (load64 (trapframe p + off))) k Q.
Proof.
  intros Hok H0 Hoff HQ. pose proof Hok as [H1 H2 H3 H4 H5]. destruct (tf_addr (trapframe p) off H3) as [Hb Ho]; [mem_lia|].
  apply wp_zoom. eapply wp_load64; [rewrite Hb; exact H4|]. rewrite Ho. fold (word (Z.to_nat off) d).
  set (k' := set_k_ram _ _). assert (tf_written p d k k') as Hw; [|by apply HQ; [|eapply tf_written_ok]].
  eexists. split; [unfold k'; by destruct k|]. cbn. by rewrite insert_id.
Qed.

Lemma wp_in_kernel {A} (m : M kernel A) s (Q : A → hartk → Prop) :
  wp m (kern s) (λ a k, Q a (mkHartk (csr s) (dev s) k)) → wp (in_kernel m) s Q.
Proof. unfold wp, in_kernel. by destruct (m (kern s)) as [[a k]|]. Qed.

(** ** Returning to user mode *)

(** The bits that [sret] acts on: to user mode, interrupts on afterwards, off now. *)
Definition user_sstatus (x : Z) : Z := Z.lor (Z.ldiff (Z.ldiff x 2) SSTATUS_SPP) SSTATUS_SPIE.

Section ret.
Context (kernel_end trampoline_start forkret trap_entry usertrap_fn uservec : usize) (pad1 pad2 : list u8).
Context (Hvec : trampoline_start ≤ uservec) (Hvec' : uservec - trampoline_start < PGSIZE).

(** The words for the next trap. *)
Definition ret_page (c : Csr) (ksp : Z) (d : list u8) : list u8 :=
  splice 32 (le_bytes 8 (tp c)) (splice 16 (le_bytes 8 usertrap_fn) (splice 8 (le_bytes 8 ksp) (splice 0 (le_bytes 8 (satp c)) d))).

Lemma length_ret_page c ksp d : length d = 4096%nat → length (ret_page c ksp d) = 4096%nat.
Proof. intros Hl. unfold ret_page. repeat apply length_set_word; done || lia. Qed.

Lemma ret_page_regs c ksp d off n :
  length d = 4096%nat → (40 ≤ off ∨ 24 ≤ off ∧ off + n ≤ 32)%nat → (off + n ≤ 4096)%nat →
  slice off n (ret_page c ksp d) = slice off n d.
Proof.
  intros Hl Ho Hn. unfold ret_page. rewrite !slice_set_word; [done|..]; repeat apply length_set_word; done || lia.
Qed.

(** The processor about to run user code at [pc] again. *)
Record user_again (c : Csr) (p : Process) (pc : Z) (e : trap_end) (c' : Csr) : Prop := {
  ua_end : e = ToUser TRAPFRAME (make_satp (pagetable p));
  ua_pc : sepc c' = pc;
  ua_status : sstatus c' = user_sstatus (sstatus c);
  ua_vec : stvec c' = TRAMPOLINE + (uservec - trampoline_start);
}.

Lemma usertrapret_spec s i p d :
  tf_ok (kern s) i p d → held (kern s) = [] → 0 ≤ kstack p → kstack p + PGSIZE ≤ USIZE_MAX →
  wp (usertrapret trampoline_start usertrap_fn uservec) s (λ e s',
    user_again (csr s) p (word 24 d) e (csr s') ∧ dev s' = dev s ∧
    tf_written p (ret_page (csr s) (kstack p + PGSIZE) d) (kern s) (kern s')).
Proof.
  destruct s as [c dv k]. cbn [kern csr dev]. intros Hok Hh Hk0 Hk. unfold usertrapret. wp_step. wp_step. cbn [kern]. rewrite Hh. wp_step. wp_step.
  wp_step. apply wp_in_kernel. eapply wp_curproc; [apply Hok|apply Hok|]. cbn [csr dev].
  wp_step. unfold trap_intr_off. wp_step. wp_step. unfold w_sstatus. wp_step.
  wp_step. unfold trampoline_uservec_va. wp_step. apply wp_sub_at; [mem_lia|]. apply wp_add_at; [mem_lia|].
  wp_step. unfold w_stvec. wp_step. wp_step. wp_step. cbn [csr kern dev set_csr satp tp].
  wp_step. apply wp_in_kernel. eapply wp_tf_store; [exact Hok|done|done|]. intros k1 W1 O1.
  wp_step. apply wp_add_at; [mem_lia|].
  wp_step. apply wp_in_kernel. eapply wp_tf_store; [exact O1|done|done|]. intros k2 W2 O2.
  wp_step. apply wp_in_kernel. eapply wp_tf_store; [exact O2|done|done|]. intros k3 W3 O3.
  wp_step. apply wp_in_kernel. eapply wp_tf_store; [exact O3|done|done|]. intros k4 W4 O4.
  wp_step. wp_step. cbn [csr sstatus]. wp_step. wp_step.
  wp_step. apply wp_in_kernel. cbn [kern set_csr].
  eapply wp_tf_load; [exact O4|done|done|]. intros k5 W5 O5. wp_step. unfold w_sepc. wp_step. wp_step. cbn [csr dev kern set_csr sepc sstatus stvec].
  change (splice _ _ (splice _ _ (splice _ _ (splice _ _ d)))) with (ret_page c (kstack p + PGSIZE) d) in *.
  split_and!; [split; try done| |].
  - change (Z.to_nat TF_EPC) with 24%nat. unfold word. rewrite ret_page_regs; [done|apply Hok|lia|lia].
  - done.
  - do 4 (eapply tf_written_trans; [first [exact W1|exact W2|exact W3|exact W4]|]). exact W5.
Qed.

(** ** Entering the kernel *)

(** User code of process [i] has trapped. *)
Record trapped (s : hartk) (i : nat) (p : Process) (d : list u8) : Prop := {
  tr_tf : tf_ok (kern s) i p d;
  tr_held : held (kern s) = [];
  tr_spp : Z.land (sstatus (csr s)) SSTATUS_SPP = 0;
  tr_pc : 0 ≤ sepc (csr s) < 2 ^ 64;
  tr_stack : 0 ≤ kstack p ∧ kstack p + PGSIZE ≤ USIZE_MAX;
}.

(** The program counter saved in the trapframe. *)
Definition saved (pc : Z) (d : list u8) : list u8 := splice 24 (le_bytes 8 pc) d.

Lemma saved_pc pc d : length d = 4096%nat → 0 ≤ pc < 2 ^ 64 → word 24 (saved pc d) = pc ∧ length (saved pc d) = 4096%nat.
Proof. intros Hl Hpc. split; [apply word_set_word; [done|lia|done]|apply length_set_word; [done|lia]]. Qed.

Lemma saved_regs pc d off n : length d = 4096%nat → (32 ≤ off)%nat → (off + n ≤ 4096)%nat → slice off n (saved pc d) = slice off n d.
Proof. intros. apply slice_set_word; done || lia. Qed.

Definition trap_csr (c : Csr) : Csr :=
  mkCsr (sstatus c) trap_entry (sepc c) (scause c) (stval c) (satp c) (tp c) (sie c).

Lemma wp_usertrap s i p d Q :
  trapped s i p d →
  (∀ k, tf_written p (saved (sepc (csr s)) d) (kern s) k → tf_ok k i p (saved (sepc (csr s)) d) →
     wp (user_cause kernel_end trampoline_start forkret usertrap_fn uservec pad1 pad2 p (trap_csr (csr s)))
       (mkHartk (trap_csr (csr s)) (dev s) k) Q) →
  wp (usertrap kernel_end trampoline_start forkret trap_entry usertrap_fn uservec pad1 pad2) s Q.
Proof.
  destruct s as [c dv k]. intros [Htf Hh Hspp Hpc _] HQ. cbn [kern csr dev] in *. unfold usertrap.
  wp_step. wp_step. cbn [csr]. rewrite Hspp. wp_step. wp_step. wp_step. unfold w_stvec. wp_step.
  wp_step. apply wp_in_kernel. eapply wp_curproc; [apply Htf|apply Htf|]. wp_step. wp_step. cbn [csr set_csr kern dev sepc].
  wp_step. apply wp_in_kernel. eapply wp_tf_store; [exact Htf|done|done|]. intros k1 W1 O1. by apply HQ.
Qed.

(** ** Preemption *)

Lemma yield_enter_alone i p k :
  cpu_proc k = Some i → procs k !! i = Some p → held k = [] →
  wp yield_enter k (λ _ k', k' = set_held [LProc i] (set_procs (<[i := set_state Runnable p]> (procs k)) k)).
Proof.
  intros Hc Hp Hh. unfold yield_enter. wp_step. eapply wp_myproc; [done|].
  wp_step. apply wp_acquire; [rewrite Hh; apply not_elem_of_nil|]. wp_step. eapply wp_proc_slot; [done|].
  wp_step. apply wp_set_proc. eapply wp_mono; [apply (sched_spec i (set_state Runnable p)); [done| |done|cbn in *; by rewrite Hh]|].
  - cbn. apply list_lookup_insert_eq. by eapply lookup_lt_Some.
  - intros [] k' ->. destruct k; cbn in *; by subst.
Qed.

(** What a process keeps while it is not running. *)
Definition same_frame (p p' : Process) : Prop := trapframe p' = trapframe p ∧ pagetable p' = pagetable p ∧ kstack p' = kstack p.

(** The user registers, [ra] to [t6]. *)
Definition user_regs (d : list u8) : list u8 := slice 40 248 d.

(** The process is back in user mode at [pc] with the registers of [d]. *)
Definition resumes (s : hartk) (p : Process) (pc : Z) (e : trap_end) (s' : hartk) (k : kernel) (d' : list u8) : Prop :=
  user_again (csr s) p pc e (csr s') ∧ dev s' = dev s ∧ tf_written p d' k (kern s').

Lemma same_frame_written p p' d k k' : same_frame p p' → tf_written p' d k k' → tf_written p d k k'.
Proof. intros [Ht _] Hw. unfold tf_written in *. by rewrite Ht in Hw. Qed.

Lemma same_frame_written' p p' d k k' : same_frame p p' → tf_written p d k k' → tf_written p' d k k'.
Proof. intros [Ht _] Hw. unfold tf_written in *. by rewrite Ht. Qed.

Lemma ret_again s i p p' d :
  same_frame p p' → tf_ok (kern s) i p' d → held (kern s) = [] → 0 ≤ kstack p ∧ kstack p + PGSIZE ≤ USIZE_MAX →
  wp (usertrapret trampoline_start usertrap_fn uservec) s (λ e s',
    resumes s p (word 24 d) e s' (kern s) (ret_page (csr s) (kstack p + PGSIZE) d)).
Proof.
  intros Hsame Hok Hh [Hk0 Hk]. pose proof Hsame as (Ht & Hpt & Hks).
  eapply wp_mono; [by eapply usertrapret_spec; [exact Hok|done|lia|lia]|]. intros e s' ([E1 E2 E3 E4] & Hd & Hw).
  rewrite Hks in Hw. split_and!; [|done|by eapply same_frame_written]. split; congruence.
Qed.

Lemma preempt_spec s i p d :
  trapped s i p d → is_interrupt (scause (csr s)) = true → Z.land (scause (csr s)) 0xff = 5 →
  0 ≤ now (dev s) → now (dev s) + INTERVAL ≤ USIZE_MAX →
  wp (usertrap kernel_end trampoline_start forkret trap_entry usertrap_fn uservec pad1 pad2) s (λ e s1,
    e = Switched AfterYield ∧ deadline (dev s1) = now (dev s) + INTERVAL ∧
    ∃ k, tf_written p (saved (sepc (csr s)) d) (kern s) k ∧
      kern s1 = set_held [LProc i] (set_procs (<[i := set_state Runnable p]> (procs k)) k)).
Proof.
  intros Htr Hint Hcode Hnow Hmax. eapply wp_usertrap; [done|]. intros k W O. destruct s as [c dv k0]. cbn [csr dev kern] in *.
  unfold user_cause, trap_csr. cbn [scause]. rewrite Hint, Hcode. change (5 =? 5) with true. cbn match.
  wp_step. unfold timer_handle. wp_step. unfold schedule_next. wp_step. wp_step. cbn [dev]. wp_step. apply wp_add_at; [unfold INTERVAL in *; lia|].
  unfold sbi_set_timer. wp_step. wp_step. wp_step. cbn [kern set_dev]. rewrite (tf_cpu _ _ _ _ O).
  assert (held k = []) as Hk. { destruct W as (r & -> & _). apply (tr_held _ _ _ _ Htr). }
  wp_step. apply wp_in_kernel. cbn [kern]. eapply wp_mono; [apply (yield_enter_alone i p); [apply O|apply O|done]|].
  intros [] k' ->. wp_steps. split_and!; [done|done|]. exists k. done.
Qed.

(** C30: preemption is invisible to the program.  A timer interrupt in user mode
    first programs the next one, then gives up the processor with the process
    runnable and no lock but its own held.  Whenever the process is dispatched
    again, whatever ran in between, provided its trapframe has not been touched,
    it continues at the interrupted instruction with all its registers, in user
    mode with interrupts enabled, in its own address space, and the next trap
    will enter through the trampoline. *)
Theorem preemption_transparent s i p d :
  trapped s i p d → is_interrupt (scause (csr s)) = true → Z.land (scause (csr s)) 0xff = 5 →
  0 ≤ now (dev s) → now (dev s) + INTERVAL ≤ USIZE_MAX →
  wp (usertrap kernel_end trampoline_start forkret trap_entry usertrap_fn uservec pad1 pad2) s (λ e s1,
    e = Switched AfterYield ∧ deadline (dev s1) = now (dev s) + INTERVAL ∧ held (kern s1) = [LProc i] ∧
    procs (kern s1) !! i = Some (set_state Runnable p) ∧
    ∀ s2 p2 d2, same_frame p p2 → tf_ok (kern s2) i p2 d2 → mem (k_ram (kern s1)) !! trapframe p = Some d2 →
      held (kern s2) = [LProc i] →
      wp (usertrap_resume kernel_end trampoline_start usertrap_fn uservec AfterYield) s2 (λ e' s3,
        user_again (csr s2) p (sepc (csr s)) e' (csr s3) ∧
        ∃ d3, mem (k_ram (kern s3)) !! trapframe p = Some d3 ∧ user_regs d3 = user_regs d)).
Proof.
  intros Htr Hint Hcode Hnow Hmax. eapply wp_mono; [by eapply preempt_spec|].
  intros e s1 (-> & Hdl & k & W & Hk). pose proof (tr_tf _ _ _ _ Htr) as [T1 T2 T3 T4 T5].
  destruct (saved_pc (sepc (csr s)) d T5 (tr_pc _ _ _ _ Htr)) as [Hpc Hlen].
  destruct W as (r & -> & Hm & _). rewrite Hk. split_and!; [done|done|done| |].
  { cbn. apply list_lookup_insert_eq. by eapply lookup_lt_Some. }
  intros s2 p2 d2 Hsame Hok Hd2 Hh2. cbn in Hd2. rewrite Hm, lookup_insert_eq in Hd2. injection Hd2 as <-.
  unfold usertrap_resume. wp_step. apply wp_in_kernel. eapply wp_mono; [apply (yield_leave_spec i); [apply Hok|done]|].
  intros [] k2 ->. destruct s2 as [c2 dv2 k2]. cbn [csr dev kern] in *.
  eapply wp_mono; [eapply (ret_again _ i p p2); [done| |done|apply Htr]|].
  { destruct Hok. by split. }
  intros e' s3 (Hu & _ & Hw). rewrite Hpc in Hu. split; [done|].
  destruct Hw as (r3 & Hk3 & Hm3 & _). exists (ret_page c2 (kstack p + PGSIZE) (saved (sepc (csr s)) d)).
  rewrite Hk3. cbn. rewrite Hm3, lookup_insert_eq. split; [done|].
  unfold user_regs. rewrite ret_page_regs, saved_regs by (done || lia). done.
Qed.

(** ** System calls *)

Definition tf_args (d : list u8) : Targs := mkTargs (word 112 d) (word 120 d) (word 128 d) (word 168 d).

Lemma trapframe_args_spec k i p d :
  tf_ok k i p d → wp (trapframe_args (trapframe p)) k (λ a k', a = tf_args d ∧ tf_written p d k k').
Proof.
  intros Hok. unfold trapframe_args.
  wp_step. eapply wp_tf_load; [exact Hok|done|done|]. intros k1 W1 O1.
  wp_step. eapply wp_tf_load; [exact O1|done|done|]. intros k2 W2 O2.
  wp_step. eapply wp_tf_load; [exact O2|done|done|]. intros k3 W3 O3.
  wp_step. eapply wp_tf_load; [exact O3|done|done|]. intros k4 W4 O4. wp_steps. split; [done|].
  do 3 (eapply tf_written_trans; [first [exact W1|exact W2|exact W3]|]). exact W4.
Qed.

(** A call that returns [v] leaves it in [a0]. *)
Lemma syscall_spec k i p d R :
  tf_ok k i p d → word 168 d ≠ SYS_EXIT →
  (∀ k1, tf_written p d k k1 → wp (dispatch kernel_end trampoline_start forkret pad1 pad2 (word 168 d) (tf_args d)) k1 (λ r k2,
     ∃ v p2, r = Return (SReturn v) ∧ same_frame p p2 ∧ tf_ok k2 i p2 d ∧ held k2 = [] ∧ R v p2 k2)) →
  wp (syscall kernel_end trampoline_start forkret pad1 pad2) k (λ e k', e = Finished ∧
    ∃ v p2 k2, same_frame p p2 ∧ R v p2 k2 ∧ held k' = [] ∧ tf_ok k' i p2 (splice 112 (le_bytes 8 (v mod 2 ^ 64)) d) ∧
      tf_written p2 (splice 112 (le_bytes 8 (v mod 2 ^ 64)) d) k2 k').
Proof.
  intros Hok Hne Hd. unfold syscall. wp_step. eapply wp_curproc; [apply Hok|apply Hok|].
  wp_step. eapply wp_mono; [by eapply trapframe_args_spec|]. intros a k1 [-> W1]. cbn [tf_a7 tf_args].
  rewrite (proj2 (Z.eqb_neq _ _)) by done. wp_step. eapply wp_mono; [by apply Hd|].
  intros r k2 (v & p2 & -> & Hsame & O2 & Hh2 & HR). unfold sys_result. wp_step. eapply wp_curproc; [apply O2|apply O2|].
  wp_step. eapply wp_tf_store; [exact O2|done|done|]. intros k3 W3 O3. wp_steps. split; [done|].
  exists v, p2, k2. split_and!; try done. destruct W3 as (r3 & -> & _). done.
Qed.

(** The trapframe page when a call that returned [v] goes back to its program. *)
Definition returned_page (c : Csr) (ksp v : Z) (d : list u8) : list u8 :=
  ret_page (trap_csr c) ksp (splice 112 (le_bytes 8 (v mod 2 ^ 64)) (saved (sepc c + 4) d)).

(** A system call comes back to the instruction after its [ecall]. *)
Lemma syscall_user_spec s i p d R :
  trapped s i p d → is_interrupt (scause (csr s)) = false → Z.land (scause (csr s)) 0xff = 8 →
  sepc (csr s) + 4 < 2 ^ 64 → word 168 d ≠ SYS_EXIT →
  (∀ k1, tf_written p (saved (sepc (csr s) + 4) d) (kern s) k1 →
     wp (dispatch kernel_end trampoline_start forkret pad1 pad2 (word 168 d) (tf_args d)) k1 (λ r k2,
       ∃ v p2, r = Return (SReturn v) ∧ same_frame p p2 ∧ tf_ok k2 i p2 (saved (sepc (csr s) + 4) d) ∧ held k2 = [] ∧ R v p2 k2)) →
  wp (usertrap kernel_end trampoline_start forkret trap_entry usertrap_fn uservec pad1 pad2) s (λ e s',
    ∃ v p2 k2, R v p2 k2 ∧ same_frame p p2 ∧ user_again (trap_csr (csr s)) p (sepc (csr s) + 4) e (csr s') ∧ held (kern s') = [] ∧
      tf_ok (kern s') i p2 (returned_page (csr s) (kstack p + PGSIZE) v d) ∧
      tf_written p (returned_page (csr s) (kstack p + PGSIZE) v d) k2 (kern s')).
Proof.
  intros Htr Hint Hcode Hpc4 Hne Hdisp. pose proof (tr_tf _ _ _ _ Htr) as [T1 T2 T3 T4 T5]. pose proof (tr_pc _ _ _ _ Htr) as Hpc.
  destruct (saved_pc (sepc (csr s)) d T5 Hpc) as [Hw1 Hl1].
  destruct (saved_pc (sepc (csr s) + 4) d T5 ltac:(lia)) as [Hw2 Hl2].
  eapply wp_usertrap; [done|]. intros k W O. destruct s as [c dv k0]. cbn [csr dev kern] in *.
  unfold user_cause. cbn [scause trap_csr]. rewrite Hint, Hcode. change (8 =? 8) with true. cbn match.
  wp_step. apply wp_in_kernel. cbn [kern]. eapply wp_tf_load; [exact O|done|done|]. intros k1 W1 O1.
  change (Z.to_nat TF_EPC) with 24%nat. rewrite Hw1. wp_step. apply wp_add_at; [change USIZE_MAX with (2 ^ 64 - 1); lia|].
  wp_step. apply wp_in_kernel. cbn [kern]. eapply wp_tf_store; [exact O1|done|done|]. intros k2 W2 O2.
  change (Z.to_nat TF_EPC) with 24%nat in *.
  assert (splice 24 (le_bytes 8 (sepc c + 4)) (saved (sepc c) d) = saved (sepc c + 4) d) as Hss by (apply set_word_twice; [done|lia]).
  rewrite Hss in W2, O2. set (d2 := saved (sepc c + 4) d) in *.
  assert (tf_written p d2 k0 k2) as W02 by (do 2 (eapply tf_written_trans; [first [exact W|exact W1]|]); exact W2).
  assert (∀ off, (32 ≤ off)%nat → (off + 8 ≤ 4096)%nat → word off d2 = word off d) as Hword
    by (intros off ??; unfold word, d2; rewrite saved_regs by (done || lia); done).
  assert (tf_args d2 = tf_args d) as Hargs by (unfold tf_args; by rewrite !Hword by lia).
  wp_step. apply wp_in_kernel. cbn [kern csr dev]. eapply wp_mono; [eapply (syscall_spec k2 i p d2 R); [done|by rewrite Hword by lia|]|].
  { intros k3 W3. rewrite Hargs, Hword by lia. apply Hdisp. by eapply tf_written_trans. }
  intros e k3 (-> & v & p2 & k4 & Hsame & HR & Hh3 & O3 & W3). unfold after_syscall.
  eapply wp_mono; [eapply (ret_again _ i p p2); [done|exact O3|done|apply Htr]|]. intros e s' (Hu & _ & Hw). cbn [csr kern] in *.
  set (d3 := splice 112 _ d2) in *. assert (length d3 = 4096%nat) as Hl3 by (apply length_set_word; [done|lia]).
  exists v, p2, k4. split_and!; [done|done| | | |].
  - replace (word 24 d3) with (sepc c + 4) in Hu; [done|]. rewrite <-Hw2. unfold word, d3. by rewrite slice_set_word by (done || lia).
  - destruct Hw as (r & -> & _). done.
  - eapply tf_written_ok; [exact O3|by apply length_ret_page|]. by eapply same_frame_written'.
  - eapply tf_written_trans; [by eapply same_frame_written|done].
Qed.

(** ** Faults of user code *)

Lemma fds_ok_eq k k' :
  fds_ok k → held k' = held k → procs k' = procs k → ftable k' = ftable k → pipes k' = pipes k → k_fs k' = k_fs k → fds_ok k'.
Proof.
  destruct k, k'. cbn. intros [[[A B C D E F] G H] I J] -> -> -> -> ->.
  split; [split; [by split|done|done]|done|]. destruct J as [U O V]. by split.
Qed.

Lemma console_write_spec bs k :
  held k = [] →
  wp (console_write_bytes bs) k (λ _ k', k' = put_con (mkUart (rx (uart (console k))) (tx (uart (console k)) ++ bs)) (input (console k)) k).
Proof.
  intros Hh. unfold console_write_bytes. wp_step. apply wp_acquire; [rewrite Hh; apply not_elem_of_nil|].
  wp_call con_write_bytes_spec. intros [] k' ->. eapply wp_release; [done|cbn in *; rewrite Hh; apply not_elem_of_nil|].
  destruct k; cbn in *; by subst.
Qed.

(** C31: an exception in user code ends the program that caused it and nothing
    else: the kernel reports it on the console and makes the process a zombie with
    exit status [-1] and no open descriptor; the other processes are at most
    woken or given a new parent, descriptors and open files still agree, and the
    kernel does not panic. *)
Theorem user_fault_kills s i p d :
  trapped s i p d → is_interrupt (scause (csr s)) = false → Z.land (scause (csr s)) 0xff ≠ 8 →
  fds_ok (kern s) → state p = Running → parent p ≠ Some i →
  wp (usertrap kernel_end trampoline_start forkret trap_entry usertrap_fn uservec pad1 pad2) s (λ e s',
    e = NoReturn ∧ held (kern s') = [LProc i] ∧ fds_ok (set_held [] (kern s')) ∧
    tx (uart (console (kern s'))) = tx (uart (console (kern s))) ++ kill_message (pid p) (trap_csr (csr s)) ∧
    procs (kern s') !! i = Some (zombie (-1) (set_ofile (replicate (Z.to_nat NOFILE) None) p)) ∧
    ∀ j q, j ≠ i → procs (kern s) !! j = Some q →
      ∃ q', procs (kern s') !! j = Some q' ∧ roused (adopt i (initproc (kern s)) q) q').
Proof.
  intros Htr Hint Hcode Hfds Hrun Hpar. eapply wp_usertrap; [done|]. intros k (r & -> & _) O. destruct s as [c dv k]. cbn [csr dev kern] in *.
  unfold user_cause. cbn [scause trap_csr]. rewrite Hint, (proj2 (Z.eqb_neq _ _)) by done.
  wp_step. apply wp_in_kernel. cbn [kern]. eapply wp_mono; [apply console_write_spec, (tr_held _ _ _ _ Htr)|]. intros [] k1 ->.
  set (k1 := put_con _ _ _). wp_step. apply wp_in_kernel. cbn [kern].
  eapply wp_mono; [eapply (exit_zombie k1 i p); [by eapply fds_ok_eq|apply O|apply O|done|done]|].
  intros [] k2 (Hh & Hf & Hz & Hcon & Hothers). wp_steps. cbn [kern]. split_and!; [done|done|done|by rewrite (la_console _ _ Hcon)|done|].
  intros j q Hj Hq. destruct (Hothers j q Hj Hq) as (q' & ? & ? & _). by exists q'.
Qed.
End ret.

(** ** Interrupts in kernel mode *)

(** The bits that an interrupt and its [sret] may change: SPP and SPIE. *)
Definition status_kept (x x' : Z) : Prop := ∀ n, 0 ≤ n → n ≠ 5 → n ≠ 8 → Z.testbit x' n = Z.testbit x n.

(** What the handler of the UART needs: the received bytes fit, and the interrupt
    controller reports no other source. *)
Record uart_ready (s : hartk) : Prop := {
  ur_held : held (kern s) = [];
  ur_procs : length (procs (kern s)) = Z.to_nat NPROC;
  ur_input : Input_ok (input (console (kern s)));
  ur_bytes : bytes_ok (rx (uart (console (kern s))));
  ur_room : i_e (input (console (kern s))) + Z.of_nat (length (rx (uart (console (kern s))))) ≤ USIZE_MAX;
  ur_irqs : Forall (λ irq, irq = 0 ∨ irq = UART_IRQ) (claims (dev s));
}.

(** The received bytes have gone through the line discipline, and the readers are
    awake if a line is complete. *)
Definition received (k k' : kernel) : Prop :=
  let bs := rx (uart (console k)) in
  ∃ i', Input_ok i' ∧ i_r i' = i_r (input (console k)) ∧ abs i' = (cook_all bs (con_state k)).1 ∧
    k' = let k1 := put_con (mkUart [] (tx (uart (console k)) ++ echo_all bs (con_state k))) i' k in
         if (cook_all bs (con_state k)).2 then woken InputChan k1 else k1.

(** The devices and the kernel after an external interrupt. *)
Definition device_served (s s' : hartk) : Prop :=
  let d := dev s in
  match claims d with
  | [] => dev s' = d ∧ kern s' = kern s
  | irq :: rest =>
      if irq =? 0 then dev s' = mkDev (plic_regs d) rest (completed d) (now d) (deadline d) ∧ kern s' = kern s
      else dev s' = mkDev (plic_regs d) rest (completed d ++ [irq]) (now d) (deadline d) ∧ received (kern s) (kern s')
  end.

Lemma handle_external_spec s : uart_ready s → wp handle_external s (λ _ s', csr s' = csr s ∧ device_served s s').
Proof.
  destruct s as [c d k]. intros [Hh Hp Hi Hb He Hc]. cbn [csr dev kern] in *. unfold handle_external, claim, device_served. cbn [dev].
  wp_step. wp_step. wp_step. cbn [dev].
  destruct (claims d) as [|irq rest]; [by wp_steps|]. wp_step. wp_step. wp_step.
  apply Forall_cons in Hc as [[->| ->] _]; [by wp_steps|]. change (UART_IRQ =? 0) with false. change (UART_IRQ =? UART_IRQ) with true. cbn match.
  wp_step. apply wp_in_kernel. cbn [kern set_dev csr dev]. eapply wp_mono; [by apply console_intr_spec|].
  intros [] k' (i' & k1 & -> & Hi' & Hr & Ha & ->). unfold complete. wp_step. split; [done|]. split; [done|]. by exists i'.
Qed.

Lemma testbit_pow n m : 0 ≤ n → 0 ≤ m → Z.testbit (2 ^ m) n = bool_decide (n = m).
Proof. intros Hn Hm. rewrite Z.pow2_bits_eqb by done. case_bool_decide; [by apply Z.eqb_eq|by apply Z.eqb_neq]. Qed.

(** [sret] undoes what the interrupt did to [sstatus]. *)
Lemma sret_status x :
  sie_on x = true →
  let y := Z.lor (Z.ldiff (Z.lor (Z.ldiff x SSTATUS_SPIE) SSTATUS_SPP) 2) SSTATUS_SPIE in
  Z.testbit y 8 = true ∧ Z.testbit y 5 = true ∧ status_kept x (Z.lor (Z.ldiff (Z.lor y 2) SSTATUS_SPP) SSTATUS_SPIE).
Proof.
  intros Hx y. change SSTATUS_SPIE with (2 ^ 5) in *. change SSTATUS_SPP with (2 ^ 8) in *. change 2 with (2 ^ 1) in y |- *. unfold y.
  split_and!.
  - rewrite !Z.lor_spec, !Z.ldiff_spec, !Z.lor_spec, !Z.ldiff_spec, !testbit_pow by lia. cbn. by rewrite orb_true_r.
  - rewrite !Z.lor_spec, !testbit_pow by lia. cbn. by rewrite orb_true_r.
  - intros n Hn H5 H8. repeat (rewrite ?Z.lor_spec, ?Z.ldiff_spec, ?testbit_pow by lia). rewrite !(bool_decide_eq_false_2 _ H5), !(bool_decide_eq_false_2 _ H8).
    destruct (decide (n = 1)) as [->|Hne]; [|rewrite !(bool_decide_eq_false_2 _ Hne); by destruct (Z.testbit x n)].
    unfold sie_on in Hx. rewrite Hx. done.
Qed.

(** The control registers of a hart that has come back to [pc] in the kernel. *)
Record back_in_kernel (pc : Z) (c c' : Csr) : Prop := {
  bk_status : status_kept (sstatus c) (sstatus c');
  bk_vec : stvec c' = stvec c;
  bk_pc : sepc c' = pc;
  bk_satp : satp c' = satp c;
  bk_tp : tp c' = tp c;
  bk_sie : sie c' = sie c;
}.

(** After a timer interrupt outside any process: the next one is programmed. *)
Definition clock_served (s s' : hartk) : Prop :=
  let d := dev s in dev s' = mkDev (plic_regs d) (claims d) (completed d) (now d) (now d + INTERVAL) ∧ kern s' = kern s.

(** A handler that does not switch comes back to the interrupted instruction. *)
Lemma kernel_interrupt_spec s pc cause R :
  sie_on (sstatus (csr s)) = true →
  (∀ c, scause c = cause → wp kerneltrap (mkHartk c (dev s) (kern s)) (λ b s', b = false ∧ csr s' = c ∧ R (dev s') (kern s'))) →
  wp (kernel_interrupt pc cause) s (λ r s', r = Some (pc, true) ∧ back_in_kernel pc (csr s) (csr s') ∧ R (dev s') (kern s')).
Proof.
  destruct s as [c d k]. cbn [csr dev kern]. intros Hx Hk. unfold kernel_interrupt, take_interrupt. wp_step. wp_step. cbn [csr set_csr dev kern].
  rewrite Hx. wp_step. destruct (sret_status _ Hx) as (H8 & H5 & Hst). eapply wp_mono; [by apply Hk|]. intros b [c' d' k'] (-> & Hc & HR). cbn [csr dev kern] in *. subst c'.
  unfold sret. wp_step. wp_step. wp_step. cbn [csr sstatus sepc].
  rewrite H5, H8. unfold w_sstatus. wp_steps. split; [reflexivity|]. split; [split; [exact Hst|reflexivity..]|exact HR].
Qed.

Lemma external_spec s pc cause :
  sie_on (sstatus (csr s)) = true → uart_ready s → is_interrupt cause = true → Z.land cause 0xff = 9 →
  wp (kernel_interrupt pc cause) s (λ r s', r = Some (pc, true) ∧ back_in_kernel pc (csr s) (csr s') ∧ device_served s s').
Proof.
  intros Hx Hr Hint Hcode. apply (kernel_interrupt_spec s pc cause (λ d k, device_served s (mkHartk (csr s) d k))); [done|].
  intros c Hc. unfold kerneltrap. wp_step. wp_step. cbn [csr]. rewrite Hc, Hint, Hcode. change (9 =? 5) with false. change (9 =? 9) with true. cbn match. wp_step.
  eapply wp_mono; [apply handle_external_spec; destruct Hr; by split|]. intros [] s' [Hs' Hd]. by wp_steps.
Qed.

(** C22: an interrupt of the kernel that does not switch is transparent.  An
    external interrupt, or a timer interrupt outside any process, taken in kernel
    mode with interrupts on, goes through [kerneltrap] and back by [sret] to the
    interrupted instruction in supervisor mode, with interrupts on and the other
    control registers as they were.  What the UART has received is gone through
    the line discipline (with the readers awake if a line is complete) and the
    interrupt is completed; after a timer interrupt the next one is programmed and
    the kernel is untouched. *)
Theorem kernel_interrupt_transparent s pc cause :
  sie_on (sstatus (csr s)) = true → is_interrupt cause = true →
  (Z.land cause 0xff = 9 → uart_ready s →
     wp (kernel_interrupt pc cause) s (λ r s', r = Some (pc, true) ∧ back_in_kernel pc (csr s) (csr s') ∧ device_served s s')) ∧
  (Z.land cause 0xff = 5 → cpu_proc (kern s) = None → 0 ≤ now (dev s) → now (dev s) + INTERVAL ≤ USIZE_MAX →
     wp (kernel_interrupt pc cause) s (λ r s', r = Some (pc, true) ∧ back_in_kernel pc (csr s) (csr s') ∧ clock_served s s')).
Proof.
  intros Hx Hint. split; [intros Hcode Hr; by apply external_spec|]. intros Hcode Hcpu Hn0 Hn.
  apply (kernel_interrupt_spec s pc cause (λ d k, clock_served s (mkHartk (csr s) d k))); [done|]. intros c Hc.
  unfold kerneltrap, timer_handle, schedule_next, sbi_set_timer. wp_step. wp_step. cbn [csr]. rewrite Hc, Hint, Hcode. change (5 =? 5) with true. cbn match.
  wp_step. wp_step. wp_step. cbn [dev]. wp_step. apply wp_add_at; [unfold INTERVAL in *; lia|]. wp_step. wp_step. wp_step. cbn [kern set_dev dev csr].
  rewrite Hcpu. by wp_steps.
Qed.

(** A timer interrupt inside a process gives up the processor, and the interrupted
    instruction is in no register and nowhere in memory but in [sepc]: the kernel
    and the devices are the same wherever it was.  When the process is dispatched
    again, it goes on where [sepc] points by then. *)
Lemma kernel_preempted_forgets s i p cause :
  is_interrupt cause = true → Z.land cause 0xff = 5 → cpu_proc (kern s) = Some i → procs (kern s) !! i = Some p → held (kern s) = [] →
  0 ≤ now (dev s) → now (dev s) + INTERVAL ≤ USIZE_MAX →
  (∃ d k, ∀ pc, wp (kernel_interrupt pc cause) s (λ r s', r = None ∧ dev s' = d ∧ kern s' = k)) ∧
  ∀ s2, cpu_proc (kern s2) = Some i → held (kern s2) = [LProc i] → wp kernel_resume s2 (λ r _, r = (sepc (csr s2), Z.testbit (sstatus (csr s2)) 8)).
Proof.
  destruct s as [c d k]. cbn [csr dev kern]. intros Hint Hcode Hcpu Hp Hh Hn0 Hn. split.
  - do 2 eexists. intros pc. unfold kernel_interrupt, take_interrupt, kerneltrap, timer_handle, schedule_next, sbi_set_timer. wp_step. wp_step.
    wp_step. wp_step. wp_step. cbn [csr set_csr dev kern scause]. rewrite Hint, Hcode. change (5 =? 5) with true. cbn match. wp_step. wp_step. wp_step. cbn [dev].
    wp_step. apply wp_add_at; [cbn [dev set_csr]; unfold INTERVAL in *; lia|]. wp_step. wp_step. wp_step. cbn [kern set_dev set_csr dev csr]. rewrite Hcpu.
    wp_step. apply wp_in_kernel. eapply wp_mono; [by apply (yield_enter_alone i p)|]. intros [] k' ->. wp_steps. cbn [dev kern csr set_dev set_csr plic_regs claims completed now]. split_and!; reflexivity.
  - intros [c2 d2 k2] Hc2 Hh2. cbn [kern csr] in *. unfold kernel_resume, sret. wp_step. apply wp_in_kernel.
    eapply wp_mono; [by apply (yield_leave_spec i)|]. intros [] k' ->. wp_step. wp_step. wp_step. unfold w_sstatus. by wp_steps.
Qed.

(** ** Witnesses: process 1 of [fd_kernel], with a trapframe that asks for its pid *)

Definition tf_demo : list u8 := splice 168 (le_bytes 8 SYS_GETPID) (splice 176 (le_bytes 8 77) zero_page).
Definition tf_proc_demo : Process :=
  let q := demo_proc Running (Some 0%nat) NoChan [Some 0; Some 0]%nat in
  mkProcess (state q) (pid q) (context q) (parent q) (xstate q) (p_chan q) (pagetable q) (ram_end 4) (sz q) PGSIZE (ofile q) (cwd q).
Definition tf_kernel : kernel :=
  set_k_ram (mkMachine (<[ram_end 4 := tf_demo]> ∅) 0 []) (set_procs (<[1%nat := tf_proc_demo]> (procs fd_kernel)) fd_kernel).
Definition trap_demo (cause : Z) : hartk :=
  mkHartk (mkCsr 0 0 4096 cause 0 0 0 0) (mkDev ∅ [] [] 5 0) tf_kernel.

Lemma tf_kernel_fds : fds_ok tf_kernel.
Proof.
  eapply (fds_ok_eq (set_procs (<[1%nat := tf_proc_demo]> (procs fd_kernel)) fd_kernel)); [|done..].
  apply fds_ok_procs; [apply fd_kernel_ok|]. by vm_compute.
Qed.

Lemma trap_demo_trapped cause : trapped (trap_demo cause) 1 tf_proc_demo tf_demo.
Proof. split; [split|..]; by vm_compute. Qed.

Lemma preemption_transparent_witness :
  wp (usertrap (ram_end 4) 0 0 64 128 32 [0; 0] [0; 0]) (trap_demo (2 ^ 63 + 5)) (λ e s1,
    e = Switched AfterYield ∧ deadline (dev s1) = 5 + INTERVAL ∧ held (kern s1) = [LProc 1] ∧
    procs (kern s1) !! 1%nat = Some (set_state Runnable tf_proc_demo) ∧
    ∀ s2 p2 d2, same_frame tf_proc_demo p2 → tf_ok (kern s2) 1 p2 d2 → mem (k_ram (kern s1)) !! ram_end 4 = Some d2 →
      held (kern s2) = [LProc 1] →
      wp (usertrap_resume (ram_end 4) 0 128 32 AfterYield) s2 (λ e' s3,
        user_again 0 32 (csr s2) tf_proc_demo 4096 e' (csr s3) ∧
        ∃ d3, mem (k_ram (kern s3)) !! ram_end 4 = Some d3 ∧ user_regs d3 = user_regs tf_demo)).
Proof.
  apply (preemption_transparent (ram_end 4) 0 0 64 128 32 [0; 0] [0; 0] ltac:(done) ltac:(done) (trap_demo (2 ^ 63 + 5)));
    [apply trap_demo_trapped|by vm_compute..].
Defined.

Lemma user_fault_kills_witness :
  wp (usertrap (ram_end 4) 0 0 64 128 32 [0; 0] [0; 0]) (trap_demo 13) (λ e s',
    e = NoReturn ∧ held (kern s') = [LProc 1] ∧ fds_ok (set_held [] (kern s')) ∧
    tx (uart (console (kern s'))) = tx (uart (console tf_kernel)) ++ kill_message 1 (trap_csr 64 (csr (trap_demo 13))) ∧
    procs (kern s') !! 1%nat = Some (zombie (-1) (set_ofile (replicate (Z.to_nat NOFILE) None) tf_proc_demo)) ∧
    ∀ j q, j ≠ 1%nat → procs tf_kernel !! j = Some q →
      ∃ q', procs (kern s') !! j = Some q' ∧ roused (adopt 1 (Some 0%nat) q) q').
Proof.
  apply (user_fault_kills (ram_end 4) 0 0 64 128 32 [0; 0] [0; 0] (trap_demo 13) 1 tf_proc_demo tf_demo);
    [apply trap_demo_trapped|by vm_compute|by vm_compute|apply tf_kernel_fds|done|done].
Defined.

(** The whole path, once: a page fault at address 4096. *)
Example user_fault_run :
  match usertrap (ram_end 4) 0 0 64 128 32 [0; 0] [0; 0] (trap_demo 13) with
  | Ok (NoReturn, s) => Some (state <$> take 2 (procs (kern s)), tx (uart (console (kern s))))
  | _ => None
  end = Some ([Runnable; Zombie], bytes_of_string "usertrap: killing pid 1 scause=0xd sepc=0x1000 stval=0x0" ++ [NL]).
Proof. by vm_compute. Qed.

(** The scheduler is interrupted while the UART has a line. *)
Definition idle_hart : hartk :=
  mkHartk (mkCsr 2 64 0 0 0 0 0 0) (mkDev ∅ [UART_IRQ] [] 5 0) (con_kernel (bytes_of_string "ls" ++ [CR])).

Lemma idle_ready : uart_ready idle_hart.
Proof. split; [done|done|exact Input_new_ok|by repeat constructor|done|]. apply Forall_singleton. by right. Qed.

Lemma kernel_interrupt_transparent_witness :
  wp (kernel_interrupt 4096 (2 ^ 63 + 9)) idle_hart (λ r s', r = Some (4096, true) ∧
    back_in_kernel 4096 (csr idle_hart) (csr s') ∧ device_served idle_hart s') ∧
  wp (kernel_interrupt 4096 (2 ^ 63 + 5)) idle_hart (λ r s', r = Some (4096, true) ∧
    back_in_kernel 4096 (csr idle_hart) (csr s') ∧ clock_served idle_hart s').
Proof.
  split.
  - apply (proj1 (kernel_interrupt_transparent idle_hart 4096 (2 ^ 63 + 9) eq_refl eq_refl) eq_refl), idle_ready.
  - apply (proj2 (kernel_interrupt_transparent idle_hart 4096 (2 ^ 63 + 5) eq_refl eq_refl) eq_refl eq_refl); by vm_compute.
Defined.

(** The same line on the code, from the interrupt to the input buffer. *)
Example kernel_interrupt_run :
  match kernel_interrupt 4096 (2 ^ 63 + 9) idle_hart with
  | Ok (r, s) => Some (r, sstatus (csr s), completed (dev s), committed (con_state (kern s)))
  | Fault _ => None
  end = Some (Some (4096, true), 34, [UART_IRQ], bytes_of_string "ls" ++ [NL]).
Proof. by vm_compute. Qed.
