(* ===== verification/Asm.v ===== *)
(** * The assembly of the kernel (src/src/asm, trap.rs: trap_entry, proc.rs: Trapframe)

    The instruction sequences that save and restore registers: the trampoline
    between user and kernel mode, the switch between two contexts, the entry of
    kernel traps, and the first instructions of the kernel.  They run on a core
    with 32 registers, two control registers and the memory of the machine;
    addresses are translated by the page table in force, a parameter. *)

From S2P Require Import Prelude Spinlock FsBase Kalloc Vm Kernel Proc Syscall Trap TrapSpec.

(** ** Registers and instructions *)

Inductive reg :=
| Rzero | Rra | Rsp | Rgp | Rtp | Rt0 | Rt1 | Rt2 | Rs0 | Rs1 | Ra0 | Ra1 | Ra2 | Ra3 | Ra4 | Ra5 | Ra6 | Ra7
| Rs2 | Rs3 | Rs4 | Rs5 | Rs6 | Rs7 | Rs8 | Rs9 | Rs10 | Rs11 | Rt3 | Rt4 | Rt5 | Rt6.

#[global] Instance reg_eq_dec : EqDecision reg.
Proof. solve_decision. Defined.

Inductive instr :=
| Sd (rs : reg) (off : Z) (base : reg)
| Ld (rd : reg) (off : Z) (base : reg)
| Addi (rd rs : reg) (imm : Z)
| CsrrwSscratch (rd rs : reg)
| CsrrSscratch (rd : reg)
| CsrwSscratch (rs : reg)
| CsrwSatp (rs : reg)
| SfenceVma.

Record core := mkCore { regs : reg → u64; sscratch : u64; c_satp : u64; c_ram : machine }.

Definition upd (r : reg) (v : u64) (f : reg → u64) : reg → u64 :=
  λ r', if decide (r' = r) then if decide (r = Rzero) then f r' else v else f r'.

Definition set_regs (f : reg → u64) (c : core) : core := mkCore f (sscratch c) (c_satp c) (c_ram c).
Definition set_sscratch (v : u64) (c : core) : core := mkCore (regs c) v (c_satp c) (c_ram c).
Definition set_satp (v : u64) (c : core) : core := mkCore (regs c) (sscratch c) v (c_ram c).
Definition set_ram (m : machine) (c : core) : core := mkCore (regs c) (sscratch c) (c_satp c) m.

(** A write to [zero] has no effect. *)
Definition set_reg (r : reg) (v : u64) : M core unit := modify (λ c, set_regs (upd r v (regs c)) c).

Definition in_mem {A} (m : M machine A) : M core A := λ c,
  match m (c_ram c) with
  | Ok (a, r) => Ok (a, set_ram r c)
  | Fault e => Fault e
  end.

Section asm.
(** [tr satp va] is the physical address behind [va] in the page table that [satp]
    names, if an access is allowed there. *)
Context (tr : u64 → u64 → option usize).

(** The physical address of an access at [off] from [base]. *)
Definition access (off : Z) (base : reg) : M core usize :=
  c ← gets id;
  let a := (regs c base + off) mod 2 ^ 64 in
  assert (a mod 8 =? 0) "misaligned access";;
  expect (tr (c_satp c) a) "page fault".

Definition exec1 (i : instr) : M core unit :=
  match i with
  | Sd rs off base => p ← access off base; c ← gets id; in_mem (store64 p (regs c rs))
  | Ld rd off base => p ← access off base; v ← in_mem (load64 p); set_reg rd v
  | Addi rd rs imm => c ← gets id; set_reg rd ((regs c rs + imm) mod 2 ^ 64)
  | CsrrwSscratch rd rs => c ← gets id; modify (set_sscratch (regs c rs));; set_reg rd (sscratch c)
  | CsrrSscratch rd => c ← gets id; set_reg rd (sscratch c)
  | CsrwSscratch rs => c ← gets id; modify (set_sscratch (regs c rs))
  | CsrwSatp rs => c ← gets id; modify (set_satp (regs c rs))
  | SfenceVma => mret tt
  end.

Fixpoint exec (l : list instr) : M core unit :=
  match l with
  | [] => mret tt
  | i :: l => exec1 i;; exec l
  end.

(** ** The trampoline *)

Definition uservec_code : list instr := [
  CsrrwSscratch Ra0 Ra0;
  Sd Rra 40 Ra0; Sd Rsp 48 Ra0; Sd Rgp 56 Ra0; Sd Rtp 64 Ra0; Sd Rt0 72 Ra0; Sd Rt1 80 Ra0; Sd Rt2 88 Ra0;
  Sd Rs0 96 Ra0; Sd Rs1 104 Ra0;
  Sd Ra1 120 Ra0; Sd Ra2 128 Ra0; Sd Ra3 136 Ra0; Sd Ra4 144 Ra0; Sd Ra5 152 Ra0; Sd Ra6 160 Ra0; Sd Ra7 168 Ra0;
  Sd Rs2 176 Ra0; Sd Rs3 184 Ra0; Sd Rs4 192 Ra0; Sd Rs5 200 Ra0; Sd Rs6 208 Ra0; Sd Rs7 216 Ra0; Sd Rs8 224 Ra0;
  Sd Rs9 232 Ra0; Sd Rs10 240 Ra0; Sd Rs11 248 Ra0; Sd Rt3 256 Ra0; Sd Rt4 264 Ra0; Sd Rt5 272 Ra0; Sd Rt6 280 Ra0;
  CsrrSscratch Rt0; Sd Rt0 112 Ra0;
  Ld Rsp 8 Ra0; Ld Rtp 32 Ra0; Ld Rt0 16 Ra0; Ld Rt1 0 Ra0;
  SfenceVma; CsrwSatp Rt1; SfenceVma].

(** [jr t0]: where the kernel goes on. *)
Definition uservec : M core u64 := exec uservec_code;; gets (λ c, regs c Rt0).

Definition userret_code : list instr := [
  SfenceVma; CsrwSatp Ra1; SfenceVma;
  Ld Rt0 112 Ra0; CsrwSscratch Rt0;
  Ld Rra 40 Ra0; Ld Rsp 48 Ra0; Ld Rgp 56 Ra0; Ld Rtp 64 Ra0; Ld Rt0 72 Ra0; Ld Rt1 80 Ra0; Ld Rt2 88 Ra0;
  Ld Rs0 96 Ra0; Ld Rs1 104 Ra0;
  Ld Ra1 120 Ra0; Ld Ra2 128 Ra0; Ld Ra3 136 Ra0; Ld Ra4 144 Ra0; Ld Ra5 152 Ra0; Ld Ra6 160 Ra0; Ld Ra7 168 Ra0;
  Ld Rs2 176 Ra0; Ld Rs3 184 Ra0; Ld Rs4 192 Ra0; Ld Rs5 200 Ra0; Ld Rs6 208 Ra0; Ld Rs7 216 Ra0; Ld Rs8 224 Ra0;
  Ld Rs9 232 Ra0; Ld Rs10 240 Ra0; Ld Rs11 248 Ra0; Ld Rt3 256 Ra0; Ld Rt4 264 Ra0; Ld Rt5 272 Ra0; Ld Rt6 280 Ra0;
  CsrrwSscratch Ra0 Ra0].

(** Up to [sret]. *)
Definition userret : M core unit := exec userret_code.

(** ** The context switch *)

Definition swtch_code : list instr := [
  Sd Rra 0 Ra0; Sd Rsp 8 Ra0; Sd Rs0 16 Ra0; Sd Rs1 24 Ra0; Sd Rs2 32 Ra0; Sd Rs3 40 Ra0; Sd Rs4 48 Ra0; Sd Rs5 56 Ra0;
  Sd Rs6 64 Ra0; Sd Rs7 72 Ra0; Sd Rs8 80 Ra0; Sd Rs9 88 Ra0; Sd Rs10 96 Ra0; Sd Rs11 104 Ra0;
  Ld Rra 0 Ra1; Ld Rsp 8 Ra1; Ld Rs0 16 Ra1; Ld Rs1 24 Ra1; Ld Rs2 32 Ra1; Ld Rs3 40 Ra1; Ld Rs4 48 Ra1; Ld Rs5 56 Ra1;
  Ld Rs6 64 Ra1; Ld Rs7 72 Ra1; Ld Rs8 80 Ra1; Ld Rs9 88 Ra1; Ld Rs10 96 Ra1; Ld Rs11 104 Ra1].

(** [ret]: where the other context goes on. *)
Definition swtch : M core u64 := exec swtch_code;; gets (λ c, regs c Rra).

(** ** Traps in the kernel *)

Definition trap_entry_save : list instr := [
  Addi Rsp Rsp (-256);
  Sd Rra 0 Rsp; Sd Rsp 8 Rsp; Sd Rgp 16 Rsp; Sd Rtp 24 Rsp; Sd Rt0 32 Rsp; Sd Rt1 40 Rsp; Sd Rt2 48 Rsp; Sd Rs0 56 Rsp;
  Sd Rs1 64 Rsp; Sd Ra0 72 Rsp; Sd Ra1 80 Rsp; Sd Ra2 88 Rsp; Sd Ra3 96 Rsp; Sd Ra4 104 Rsp; Sd Ra5 112 Rsp; Sd Ra6 120 Rsp;
  Sd Ra7 128 Rsp; Sd Rs2 136 Rsp; Sd Rs3 144 Rsp; Sd Rs4 152 Rsp; Sd Rs5 160 Rsp; Sd Rs6 168 Rsp; Sd Rs7 176 Rsp; Sd Rs8 184 Rsp;
  Sd Rs9 192 Rsp; Sd Rs10 200 Rsp; Sd Rs11 208 Rsp; Sd Rt3 216 Rsp; Sd Rt4 224 Rsp; Sd Rt5 232 Rsp; Sd Rt6 240 Rsp].

Definition trap_entry_restore : list instr := [
  Ld Rra 0 Rsp; Ld Rgp 16 Rsp; Ld Rtp 24 Rsp; Ld Rt0 32 Rsp; Ld Rt1 40 Rsp; Ld Rt2 48 Rsp; Ld Rs0 56 Rsp;
  Ld Rs1 64 Rsp; Ld Ra0 72 Rsp; Ld Ra1 80 Rsp; Ld Ra2 88 Rsp; Ld Ra3 96 Rsp; Ld Ra4 104 Rsp; Ld Ra5 112 Rsp; Ld Ra6 120 Rsp;
  Ld Ra7 128 Rsp; Ld Rs2 136 Rsp; Ld Rs3 144 Rsp; Ld Rs4 152 Rsp; Ld Rs5 160 Rsp; Ld Rs6 168 Rsp; Ld Rs7 176 Rsp; Ld Rs8 184 Rsp;
  Ld Rs9 192 Rsp; Ld Rs10 200 Rsp; Ld Rs11 208 Rsp; Ld Rt3 216 Rsp; Ld Rt4 224 Rsp; Ld Rt5 232 Rsp; Ld Rt6 240 Rsp;
  Addi Rsp Rsp 256].

(** [call kerneltrap] leaves the return address in [ra]; then up to [sret]. *)
Definition trap_entry (link : u64) (kerneltrap : M core unit) : M core unit :=
  exec trap_entry_save;; set_reg Rra link;; kerneltrap;; exec trap_entry_restore.

(** ** The first instructions *)

(** The loop at label 1, [bgeu t0, t1, 2f]; its argument is [t0]. *)
Definition start_step (_ : u64) : M core (u64 + unit) :=
  c ← gets id;
  if regs c Rt1 <=? regs c Rt0 then mret (inr tt)
  else exec [Sd Rzero 0 Rt0; Addi Rt0 Rt0 8];; c ← gets id; mret (inl (regs c Rt0)).

(** Up to [tail kmain]. *)
Definition start (stack_top bss_start bss_end : u64) : M core unit :=
  set_reg Rsp stack_top;;
  set_reg Rt0 bss_start;;
  set_reg Rt1 bss_end;;
  while_fuel (S (Z.to_nat (bss_end - bss_start))) start_step bss_start.
End asm.

(** ** Trapframe *)

Record Trapframe := mkTrapframe {
  kernel_satp : u64; kernel_sp : u64; kernel_trap : u64; epc : u64; kernel_hartid : u64;
  tf_ra : u64; tf_sp : u64; tf_gp : u64; tf_tp : u64; tf_t0 : u64; tf_t1 : u64; tf_t2 : u64; tf_s0 : u64; tf_s1 : u64;
  tf_a0 : u64; tf_a1 : u64; tf_a2 : u64; tf_a3 : u64; tf_a4 : u64; tf_a5 : u64; tf_a6 : u64; tf_a7 : u64;
  tf_s2 : u64; tf_s3 : u64; tf_s4 : u64; tf_s5 : u64; tf_s6 : u64; tf_s7 : u64; tf_s8 : u64; tf_s9 : u64; tf_s10 : u64; tf_s11 : u64;
  tf_t3 : u64; tf_t4 : u64; tf_t5 : u64; tf_t6 : u64;
}.

(** The structure at the start of a page. *)
Definition Trapframe_at (d : list u8) : Trapframe :=
  let w off := le_val (slice off 8 d) in
  mkTrapframe (w 0%nat) (w 8%nat) (w 16%nat) (w 24%nat) (w 32%nat)
    (w 40%nat) (w 48%nat) (w 56%nat) (w 64%nat) (w 72%nat) (w 80%nat) (w 88%nat) (w 96%nat) (w 104%nat)
    (w 112%nat) (w 120%nat) (w 128%nat) (w 136%nat) (w 144%nat) (w 152%nat) (w 160%nat) (w 168%nat)
    (w 176%nat) (w 184%nat) (w 192%nat) (w 200%nat) (w 208%nat) (w 216%nat) (w 224%nat) (w 232%nat) (w 240%nat) (w 248%nat)
    (w 256%nat) (w 264%nat) (w 272%nat) (w 280%nat).

(** The field a user register is kept in. *)
Definition tf_reg (r : reg) (f : Trapframe) : u64 :=
  match r with
  | Rzero => 0 | Rra => tf_ra f | Rsp => tf_sp f | Rgp => tf_gp f | Rtp => tf_tp f | Rt0 => tf_t0 f | Rt1 => tf_t1 f | Rt2 => tf_t2 f
  | Rs0 => tf_s0 f | Rs1 => tf_s1 f | Ra0 => tf_a0 f | Ra1 => tf_a1 f | Ra2 => tf_a2 f | Ra3 => tf_a3 f | Ra4 => tf_a4 f
  | Ra5 => tf_a5 f | Ra6 => tf_a6 f | Ra7 => tf_a7 f | Rs2 => tf_s2 f | Rs3 => tf_s3 f | Rs4 => tf_s4 f | Rs5 => tf_s5 f
  | Rs6 => tf_s6 f | Rs7 => tf_s7 f | Rs8 => tf_s8 f | Rs9 => tf_s9 f | Rs10 => tf_s10 f | Rs11 => tf_s11 f
  | Rt3 => tf_t3 f | Rt4 => tf_t4 f | Rt5 => tf_t5 f | Rt6 => tf_t6 f
  end.

(** ** Memory as aligned words *)

Definition ram_wf (m : machine) : Prop := ∀ p d, mem m !! p = Some d → page_ok d ∧ p mod PGSIZE = 0.

Definition dword (m : machine) (a : Z) : option u64 := (λ d, le_val (slice (Z.to_nat (poff a)) 8 d)) <$> mem m !! pbase a.

Definition store_dword (a v : Z) (m : machine) : machine :=
  match mem m !! pbase a with
  | Some d => set_mem (<[pbase a := splice (Z.to_nat (poff a)) (le_bytes 8 v) d]> (mem m)) m
  | None => m
  end.

Lemma poff_aligned a : a mod 8 = 0 → (Z.to_nat (poff a) + 8 ≤ 4096)%nat ∧ poff a mod 8 = 0.
Proof.
  intros Ha. unfold poff. pose proof (Z.mod_pos_bound a PGSIZE ltac:(mem_lia)) as Hb. change PGSIZE with (8 * 512) in *.
  assert ((a mod (8 * 512)) mod 8 = 0) as H8 by (rewrite Z.rem_mul_r, Ha by lia; by rewrite Z.add_0_l, Z.mul_comm, Z.mod_mul by lia).
  split; [|done]. pose proof (Z_div_exact_full_2 _ 8 ltac:(lia) H8). lia.
Qed.

Lemma store_dword_wf a v m : ram_wf m → a mod 8 = 0 → ram_wf (store_dword a v m).
Proof.
  intros Hwf Ha p d. unfold store_dword. destruct (mem m !! pbase a) as [d0|] eqn:Hd; [|apply Hwf]. cbn.
  destruct (Hwf _ _ Hd) as [Hok Hal]. intros [[<- <-]|[_ Hp]]%lookup_insert_Some; [|by apply Hwf].
  split; [|done]. apply store64_page_ok; [done|by apply poff_aligned].
Qed.

Lemma dword_store a v m b :
  ram_wf m → a mod 8 = 0 → b mod 8 = 0 → is_Some (mem m !! pbase a) →
  dword (store_dword a v m) b = if decide (b = a) then Some (v mod 2 ^ 64) else dword m b.
Proof.
  intros Hwf Ha Hb [d Hd]. destruct (poff_aligned a Ha) as [La A8], (poff_aligned b Hb) as [Lb B8].
  destruct (Hwf _ _ Hd) as [[Hl _] _]. unfold dword, store_dword. rewrite Hd. cbn [mem set_mem].
  destruct (decide (b = a)) as [->|Hne].
  - rewrite lookup_insert_eq. cbn [fmap option_fmap option_map]. f_equal.
    pose proof (slice_splice_same (Z.to_nat (poff a)) (le_bytes 8 v) d) as Hs. rewrite length_le_bytes, Hl in Hs. rewrite Hs by done.
    apply le_val_bytes.
  - destruct (decide (pbase b = pbase a)) as [Hp|Hp]; [|by rewrite lookup_insert_ne by done].
    rewrite Hp, lookup_insert_eq, Hd. cbn [fmap option_fmap option_map]. do 2 f_equal. apply slice_splice_other; rewrite ?length_le_bytes, ?Hl; try done.
    assert (poff a ≠ poff b) as Hpo. { intros Hpo. apply Hne. unfold pbase, poff in *. lia. }
    unfold poff in *. pose proof (Z.mod_pos_bound a PGSIZE ltac:(mem_lia)). pose proof (Z.mod_pos_bound b PGSIZE ltac:(mem_lia)).
    pose proof (Z_div_exact_full_2 _ 8 ltac:(lia) A8). pose proof (Z_div_exact_full_2 _ 8 ltac:(lia) B8). lia.
Qed.

(** ** Control registers *)

Ltac core_simpl := cbn [regs sscratch c_satp c_ram set_regs set_ram set_satp set_sscratch].

Lemma wp_csrrw tr rd rs c Q :
  Q tt (mkCore (upd rd (sscratch c) (regs c)) (regs c rs) (c_satp c) (c_ram c)) → wp (exec1 tr (CsrrwSscratch rd rs)) c Q.
Proof. intros H. cbn [exec1]. wp_steps. unfold set_reg. by wp_steps. Qed.

Lemma wp_csrr tr rd c Q : Q tt (set_regs (upd rd (sscratch c) (regs c)) c) → wp (exec1 tr (CsrrSscratch rd)) c Q.
Proof. intros H. cbn [exec1]. wp_steps. unfold set_reg. by wp_steps. Qed.

Lemma wp_csrw tr rs c Q : Q tt (set_sscratch (regs c rs) c) → wp (exec1 tr (CsrwSscratch rs)) c Q.
Proof. intros H. cbn [exec1]. by wp_steps. Qed.

Lemma wp_csrw_satp tr rs c Q : Q tt (set_satp (regs c rs) c) → wp (exec1 tr (CsrwSatp rs)) c Q.
Proof. intros H. cbn [exec1]. by wp_steps. Qed.

Lemma wp_sfence tr c (Q : unit → core → Prop) : Q tt c → wp (exec1 tr SfenceVma) c Q.
Proof. intros H. cbn [exec1]. by wp_step. Qed.

(** ** Runs of saves and loads *)

Lemma wp_exec_app tr l1 l2 c Q : wp (exec tr l1) c (λ _ c', wp (exec tr l2) c' Q) → wp (exec tr (l1 ++ l2)) c Q.
Proof.
  revert c. induction l1 as [|i l1 IH]; intros c H; [done|]. cbn [exec app]. apply wp_bind.
  unfold wp, exec in H. fold exec in H. unfold mbind, M_bind in H. unfold wp at 1. destruct (exec1 tr i c) as [[[] c']|]; [|done].
  by apply IH.
Qed.

Lemma wp_in_mem {A} (m : M machine A) c Q : wp m (c_ram c) (λ a r, Q a (set_ram r c)) → wp (in_mem m) c Q.
Proof. unfold wp, in_mem. by destruct (m (c_ram c)) as [[a r]|]. Qed.

Definition saves (b : reg) (l : list (reg * Z)) : list instr := (λ '(r, o), Sd r o b) <$> l.
Definition loads (b : reg) (l : list (reg * Z)) : list instr := (λ '(r, o), Ld r o b) <$> l.

(** A block of [n] bytes at [B], which the page table [satp] maps to [P]. *)
Section window.
Context (tr : u64 → u64 → option usize) (satp B P n : Z).
Context (Htr : ∀ off, 0 ≤ off < n → tr satp (B + off) = Some (P + off)).
Context (HB : 0 ≤ B ∧ B + n ≤ 2 ^ 64 ∧ B mod 8 = 0) (HP : P mod 8 = 0).

Definition fits (off : Z) : Prop := 0 ≤ off ∧ off + 8 ≤ n ∧ off mod 8 = 0.
Definition block_mapped (m : machine) : Prop := ∀ off, fits off → is_Some (mem m !! pbase (P + off)).

Lemma fits_aligned off : fits off → (P + off) mod 8 = 0.
Proof. intros (_ & _ & H). by rewrite Z.add_mod, HP, H by lia. Qed.

Lemma wp_access off b c Q : c_satp c = satp → regs c b = B → fits off → Q (P + off) c → wp (access tr off b) c Q.
Proof.
  intros Hs Hb Hf HQ. pose proof Hf as (H0 & H1 & H8). unfold access. wp_step. wp_step. unfold id. rewrite Hb.
  rewrite Z.mod_small by lia. wp_step. wp_step; [apply Z.eqb_eq; destruct HB as (_ & _ & HB8); by rewrite Z.add_mod, HB8, H8 by lia|].
  eapply wp_expect; [|exact HQ]. rewrite Hs. apply Htr. lia.
Qed.

Lemma wp_sd rs off b c Q :
  c_satp c = satp → regs c b = B → fits off → block_mapped (c_ram c) →
  Q tt (set_ram (store_dword (P + off) (regs c rs) (c_ram c)) c) → wp (exec1 tr (Sd rs off b)) c Q.
Proof.
  intros Hs Hb Hf Hm HQ. cbn [exec1]. wp_step. apply wp_access; [done|done|done|]. wp_step. wp_step. apply wp_in_mem.
  destruct (Hm off Hf) as [d Hd]. eapply wp_store64; [exact Hd|]. unfold store_dword in HQ. by rewrite Hd in HQ.
Qed.

Lemma wp_ld rd off b c Q :
  c_satp c = satp → regs c b = B → fits off → block_mapped (c_ram c) →
  (∀ v, dword (c_ram c) (P + off) = Some v → Q tt (set_regs (upd rd v (regs c)) c)) → wp (exec1 tr (Ld rd off b)) c Q.
Proof.
  intros Hs Hb Hf Hm HQ. cbn [exec1]. wp_step. apply wp_access; [done|done|done|]. wp_step. apply wp_in_mem.
  destruct (Hm off Hf) as [d Hd]. eapply wp_load64; [exact Hd|]. unfold set_reg. wp_step.
  destruct c as [f ss sa r]. apply HQ. unfold dword. by rewrite Hd.
Qed.

(** *** Saves *)

Fixpoint stored (l : list (reg * Z)) (f : reg → u64) (m : machine) : machine :=
  match l with
  | [] => m
  | (r, o) :: l => stored l f (store_dword (P + o) (f r) m)
  end.

Definition offsets_ok (l : list (reg * Z)) : Prop := Forall (λ x, fits x.2) l ∧ NoDup l.*2.

Lemma store_mapped o v m : block_mapped m → block_mapped (store_dword o v m).
Proof.
  intros Hm off Hf. unfold store_dword. destruct (mem m !! pbase o) as [d|] eqn:Hd; [|by apply Hm]. cbn.
  apply lookup_insert_is_Some'. right. by apply Hm.
Qed.

Lemma exec_saves b l c Q :
  c_satp c = satp → regs c b = B → Forall (λ x, fits x.2) l → block_mapped (c_ram c) →
  Q tt (set_ram (stored l (regs c) (c_ram c)) c) → wp (exec tr (saves b l)) c Q.
Proof.
  intros Hs Hb Hl. revert c Hs Hb. induction Hl as [|[r o] l Hf _ IH]; intros c Hs Hb Hm HQ; [by destruct c|].
  cbn [saves fmap list_fmap exec]. apply wp_bind. apply wp_sd; [done|done|done|done|].
  apply IH; [done|done|by apply store_mapped|]. exact HQ.
Qed.

Lemma stored_mapped l f m : block_mapped m → block_mapped (stored l f m).
Proof. revert m. induction l as [|[r o] l IH]; intros m Hm; [done|]. by apply IH, store_mapped. Qed.

Lemma stored_other l f m a :
  ram_wf m → block_mapped m → Forall (λ x, fits x.2) l → a mod 8 = 0 → (∀ o, o ∈ l.*2 → a ≠ P + o) → dword (stored l f m) a = dword m a.
Proof.
  intros Hwf Hm Hl Ha. revert m Hwf Hm. induction Hl as [|[r o] l Hf _ IH]; intros m Hwf Hm Hne; [done|]. cbn [stored].
  pose proof (fits_aligned o Hf) as Ho.
  rewrite IH; [|by apply store_dword_wf|by apply store_mapped|by intros x Hx; apply Hne; right].
  rewrite dword_store by (done || by apply Hm). rewrite decide_False; [done|]. apply Hne. by left.
Qed.

Lemma stored_wf l f m : ram_wf m → Forall (λ x, fits x.2) l → ram_wf (stored l f m).
Proof.
  intros Hwf Hl. revert m Hwf. induction Hl as [|[r o] l Hf _ IH]; intros m Hwf; [done|].
  apply IH, store_dword_wf; [done|by apply fits_aligned].
Qed.

Lemma stored_in l f m r o :
  ram_wf m → block_mapped m → offsets_ok l → (r, o) ∈ l → dword (stored l f m) (P + o) = Some (f r mod 2 ^ 64).
Proof.
  intros Hwf Hm [Hl Hnd] Hin. revert m Hwf Hm Hnd Hin. induction Hl as [|[r' o'] l Hf Hl IH]; intros m Hwf Hm Hnd Hin.
  { by apply not_elem_of_nil in Hin. }
  cbn [stored]. cbn in Hnd. apply NoDup_cons in Hnd as [Hn Hnd]. pose proof (fits_aligned o' Hf) as Ho. cbn in Ho.
  pose proof (store_dword_wf (P + o') (f r') m Hwf Ho) as Hwf'. pose proof (store_mapped (P + o') (f r') m Hm) as Hm'.
  apply elem_of_cons in Hin as [[= <- <-]|Hin]; [|by apply IH].
  rewrite stored_other; try done.
  - rewrite dword_store by (done || by apply Hm). by rewrite decide_True.
  - intros x Hx Heq. assert (o = x) as -> by lia. done.
Qed.

(** *** Loads *)

Fixpoint loaded (l : list (reg * Z)) (m : machine) (f : reg → u64) : reg → u64 :=
  match l with
  | [] => f
  | (r, o) :: l => loaded l m (upd r (default 0 (dword m (P + o))) f)
  end.

Lemma upd_ne r v f r' : r' ≠ r → upd r v f r' = f r'.
Proof. intros H. unfold upd. by rewrite decide_False. Qed.
Lemma upd_eq r v f : r ≠ Rzero → upd r v f r = v.
Proof. intros H. unfold upd. by rewrite decide_True, decide_False. Qed.

Lemma exec_loads b l c Q :
  c_satp c = satp → regs c b = B → b ∉ l.*1 → Forall (λ x, fits x.2) l → block_mapped (c_ram c) →
  Q tt (set_regs (loaded l (c_ram c) (regs c)) c) → wp (exec tr (loads b l)) c Q.
Proof.
  intros Hs Hb Hn Hl. revert c Hs Hb Hn. induction Hl as [|[r o] l Hf _ IH]; intros c Hs Hb Hn Hm HQ; [by destruct c|].
  cbn in Hn. apply not_elem_of_cons in Hn as [Hr Hn].
  cbn [loads fmap list_fmap exec]. apply wp_bind. apply wp_ld; [done|done|done|done|]. intros v Hv. cbn in Hv.
  apply IH; [done|by cbn; rewrite upd_ne|done|done|]. cbn [loaded] in HQ. rewrite Hv in HQ. exact HQ.
Qed.

Lemma loaded_out l m f r : r ∉ l.*1 → loaded l m f r = f r.
Proof.
  revert f. induction l as [|[r' o] l IH]; intros f Hn; [done|]. cbn in *. apply not_elem_of_cons in Hn as [Hr Hn].
  rewrite IH by done. by apply upd_ne.
Qed.

Lemma loaded_in l m f r o : r ≠ Rzero → NoDup l.*1 → (r, o) ∈ l → loaded l m f r = default 0 (dword m (P + o)).
Proof.
  intros Hz. revert f. induction l as [|[r' o'] l IH]; intros f Hnd Hin; [by apply not_elem_of_nil in Hin|]. cbn in *.
  apply NoDup_cons in Hnd as [Hn Hnd]. apply elem_of_cons in Hin as [[= <- <-]|Hin]; [|by apply IH].
  rewrite loaded_out by done. by apply upd_eq.
Qed.
End window.

Lemma stored_keeps P Q n l f m : block_mapped Q n m → block_mapped Q n (stored P l f m).
Proof. revert m. induction l as [|[r o] l IH]; intros m Hm; [done|]. by apply IH, store_mapped. Qed.

(** ** The trampoline *)

Definition user_slots : list (reg * Z) := [
  (Rra, 40); (Rsp, 48); (Rgp, 56); (Rtp, 64); (Rt0, 72); (Rt1, 80); (Rt2, 88); (Rs0, 96); (Rs1, 104);
  (Ra1, 120); (Ra2, 128); (Ra3, 136); (Ra4, 144); (Ra5, 152); (Ra6, 160); (Ra7, 168);
  (Rs2, 176); (Rs3, 184); (Rs4, 192); (Rs5, 200); (Rs6, 208); (Rs7, 216); (Rs8, 224); (Rs9, 232); (Rs10, 240); (Rs11, 248);
  (Rt3, 256); (Rt4, 264); (Rt5, 272); (Rt6, 280)].

Definition kernel_slots : list (reg * Z) := [(Rsp, 8); (Rtp, 32); (Rt0, 16); (Rt1, 0)].

Lemma uservec_shape : uservec_code =
  CsrrwSscratch Ra0 Ra0 :: saves Ra0 user_slots ++ [CsrrSscratch Rt0; Sd Rt0 112 Ra0] ++ loads Ra0 kernel_slots ++ [SfenceVma; CsrwSatp Rt1; SfenceVma].
Proof. done. Qed.

Lemma userret_shape : userret_code =
  [SfenceVma; CsrwSatp Ra1; SfenceVma; Ld Rt0 112 Ra0; CsrwSscratch Rt0] ++ loads Ra0 user_slots ++ [CsrrwSscratch Ra0 Ra0].
Proof. done. Qed.

(** Where a register is kept. *)
Definition tf_off (r : reg) : Z :=
  match r with
  | Rzero => 0 | Rra => 40 | Rsp => 48 | Rgp => 56 | Rtp => 64 | Rt0 => 72 | Rt1 => 80 | Rt2 => 88 | Rs0 => 96 | Rs1 => 104
  | Ra0 => 112 | Ra1 => 120 | Ra2 => 128 | Ra3 => 136 | Ra4 => 144 | Ra5 => 152 | Ra6 => 160 | Ra7 => 168
  | Rs2 => 176 | Rs3 => 184 | Rs4 => 192 | Rs5 => 200 | Rs6 => 208 | Rs7 => 216 | Rs8 => 224 | Rs9 => 232 | Rs10 => 240 | Rs11 => 248
  | Rt3 => 256 | Rt4 => 264 | Rt5 => 272 | Rt6 => 280
  end.

Lemma user_slot r : r ≠ Rzero → r ≠ Ra0 → (r, tf_off r) ∈ user_slots.
Proof. intros Hz Ha. destruct r; try done; apply (bool_decide_unpack _); vm_compute; exact I. Qed.

Lemma tf_reg_word r d : r ≠ Rzero → tf_reg r (Trapframe_at d) = le_val (slice (Z.to_nat (tf_off r)) 8 d).
Proof. intros Hz. by destruct r. Qed.

Lemma user_slots_ok : Forall (λ x, fits PGSIZE x.2) user_slots ∧ NoDup user_slots.*2 ∧ NoDup user_slots.*1 ∧ (Ra0 ∉ user_slots.*1) ∧
  Forall (λ x, fits PGSIZE x.2) kernel_slots ∧ NoDup kernel_slots.*1 ∧ (Ra0 ∉ kernel_slots.*1).
Proof.
  assert (∀ l, forallb (λ x : reg * Z, (0 <=? x.2) && (x.2 + 8 <=? PGSIZE) && (x.2 mod 8 =? 0)) l = true → Forall (λ x, fits PGSIZE x.2) l) as Hf.
  { intros l Hl. apply Forall_forall. intros x Hx%list_elem_of_In. rewrite forallb_forall in Hl. specialize (Hl x Hx).
    apply andb_true_iff in Hl as [[H1%Z.leb_le H2%Z.leb_le]%andb_true_iff H3%Z.eqb_eq]. by split_and!. }
  split_and!; try (apply Hf; done); try (by apply (bool_decide_unpack _); vm_compute).
Qed.

(** The words of a page. *)
Definition regs_ok (f : reg → u64) : Prop := ∀ r, 0 ≤ f r < 2 ^ 64.

Lemma upd_regs_ok r v f : regs_ok f → 0 ≤ v < 2 ^ 64 → regs_ok (upd r v f).
Proof. intros Hf Hv r'. unfold upd. destruct (decide _); [destruct (decide _)|]; done || apply Hf. Qed.

Lemma set_page_twice q (d1 d2 : list u8) m :
  set_mem (<[q := d2]> (mem (set_mem (<[q := d1]> (mem m)) m))) (set_mem (<[q := d1]> (mem m)) m) = set_mem (<[q := d2]> (mem m)) m.
Proof. unfold set_mem. cbn. by rewrite insert_insert_eq. Qed.

Section page.
Context (P : Z) (HP : P mod PGSIZE = 0).

Lemma page_aligned8 : P mod 8 = 0.
Proof. change PGSIZE with (8 * 512) in HP. rewrite Z.rem_mul_r in HP by lia. pose proof (Z.mod_pos_bound P 8). pose proof (Z.mod_pos_bound (P / 8) 512). lia. Qed.

Lemma page_fits off : fits PGSIZE off → pbase (P + off) = P ∧ poff (P + off) = off ∧ (Z.to_nat off + 8 ≤ 4096)%nat.
Proof. intros (H0 & H1 & _). destruct (tf_addr P off HP ltac:(lia)) as [? ?]. split_and!; [done|done|]. change PGSIZE with 4096 in H1. lia. Qed.

Lemma page_block m d : mem m !! P = Some d → block_mapped P PGSIZE m.
Proof. intros Hd off Hf. destruct (page_fits off Hf) as (-> & _). by exists d. Qed.

Lemma dword_page m d off : mem m !! P = Some d → fits PGSIZE off → dword m (P + off) = Some (word (Z.to_nat off) d).
Proof. intros Hd Hf. destruct (page_fits off Hf) as (Hb & Ho & _). unfold dword. by rewrite Hb, Ho, Hd. Qed.

Lemma stored_page l f m d :
  mem m !! P = Some d → page_ok d → Forall (λ x, fits PGSIZE x.2) l →
  ∃ d', page_ok d' ∧ stored P l f m = set_mem (<[P := d']> (mem m)) m.
Proof.
  intros Hd Hok Hl. revert m d Hd Hok. induction Hl as [|[r o] l Hf _ IH]; intros m d Hd Hok.
  { exists d. split; [done|]. cbn. rewrite insert_id by done. by destruct m. }
  destruct (page_fits o Hf) as (Hb & Ho & Hlen). cbn [stored]. unfold store_dword. rewrite Hb, Ho, Hd.
  destruct (IH (set_mem (<[P := splice (Z.to_nat o) (le_bytes 8 (f r)) d]> (mem m)) m) (splice (Z.to_nat o) (le_bytes 8 (f r)) d)) as (d' & Hok' & Heq).
  - apply lookup_insert_eq.
  - by apply store64_page_ok.
  - exists d'. split; [done|]. rewrite Heq. apply set_page_twice.
Qed.

Lemma ram_wf_set m d : ram_wf m → page_ok d → ram_wf (set_mem (<[P := d]> (mem m)) m).
Proof. intros Hwf Hd q dq. cbn. intros [[<- <-]|[_ Hq]]%lookup_insert_Some; [done|by apply Hwf]. Qed.

(** The page after a run of saves. *)
Lemma stored_words l f m d :
  ram_wf m → mem m !! P = Some d → offsets_ok PGSIZE l → regs_ok f →
  ∃ d', stored P l f m = set_mem (<[P := d']> (mem m)) m ∧ page_ok d' ∧
    (∀ r o, (r, o) ∈ l → word (Z.to_nat o) d' = f r) ∧ (∀ o, fits PGSIZE o → o ∉ l.*2 → word (Z.to_nat o) d' = word (Z.to_nat o) d).
Proof.
  intros Hwf Hd Hl Hf. destruct (Hwf P d Hd) as [Hok _]. destruct (stored_page l f m d Hd Hok (proj1 Hl)) as (d' & Hok' & E).
  pose proof (page_block m d Hd) as Hb. pose proof page_aligned8 as H8.
  assert (mem (stored P l f m) !! P = Some d') as Hd' by (rewrite E; apply lookup_insert_eq).
  exists d'. split_and!; [done|done| |]; [intros r o Hin|intros o Ho Hn]; apply (inj Some).
  - pose proof (proj1 (Forall_forall _ _) (proj1 Hl) _ Hin) as Ho.
    rewrite <-(dword_page _ d' o Hd' Ho), (stored_in P PGSIZE H8 l f m r o Hwf Hb Hl Hin). by rewrite Z.mod_small by apply Hf.
  - rewrite <-(dword_page _ d' o Hd' Ho), <-(dword_page _ d o Hd Ho).
    apply (stored_other P PGSIZE H8); [done|done|apply Hl|by apply (fits_aligned P PGSIZE H8)|]. intros x Hx Heq. apply Hn.
    by replace o with x by lia.
Qed.
End page.

(** [p] is the page of the trapframe, mapped at TRAPFRAME by the page table [us]. *)
Section trampoline.
Context (tr : u64 → u64 → option usize) (us p : Z).
Context (Htr : ∀ off, 0 ≤ off < PGSIZE → tr us (TRAPFRAME + off) = Some (p + off)) (Hp : p mod PGSIZE = 0).

Lemma TRAPFRAME_window : 0 ≤ TRAPFRAME ∧ TRAPFRAME + PGSIZE ≤ 2 ^ 64 ∧ TRAPFRAME mod 8 = 0.
Proof. by split_and!. Qed.

(** The registers in the page [d'], everything else as in [d]. *)
Record saved_in (f : reg → u64) (d d' : list u8) : Prop := {
  si_page : page_ok d';
  si_regs r : r ≠ Rzero → tf_reg r (Trapframe_at d') = f r;
  si_kernel o : o ∈ [0; 8; 16; 24; 32] → word (Z.to_nat o) d' = word (Z.to_nat o) d;
}.

(** The words of the kernel are not among those of the registers. *)
Lemma kernel_word o : o ∈ [0; 8; 16; 24; 32] → fits PGSIZE o ∧ o ≠ 112 ∧ (o ∉ user_slots.*2).
Proof.
  intros Hin. assert (Forall (λ o, fits PGSIZE o ∧ o ≠ 112 ∧ (o ∉ user_slots.*2)) [0; 8; 16; 24; 32]) as Ha.
  { repeat (constructor; [split_and!; [by split_and!|done|by apply (bool_decide_unpack _)]|]). constructor. }
  exact (proj1 (Forall_forall _ _) Ha o Hin).
Qed.

Lemma kernel_slot_words o : o ∈ kernel_slots.*2 → o ∈ [0; 8; 16; 24; 32].
Proof.
  intros Ho. assert (Forall (λ o, o ∈ [0; 8; 16; 24; 32]) kernel_slots.*2) as Ha by (by apply (bool_decide_unpack _)).
  exact (proj1 (Forall_forall _ _) Ha o Ho).
Qed.

(** The words after the saves of [uservec]. *)
Lemma uservec_words f m d :
  ram_wf m → mem m !! p = Some d → regs_ok f →
  ∃ d', store_dword (p + 112) (f Ra0) (stored p user_slots (upd Ra0 TRAPFRAME f) m) = set_mem (<[p := d']> (mem m)) m ∧
    saved_in f d d'.
Proof.
  intros Hwf Hd Hf. destruct user_slots_ok as (U1 & U2 & U3 & U4 & _). assert (fits PGSIZE 112) as F112 by (by split_and!).
  destruct (stored_words p Hp user_slots (upd Ra0 TRAPFRAME f) m d Hwf Hd (conj U1 U2)) as (d1 & -> & Hok1 & In1 & Out1).
  { by apply upd_regs_ok. }
  pose proof (ram_wf_set p Hp m d1 Hwf Hok1) as Hwf1.
  destruct (stored_words p Hp [(Ra0, 112)] f _ d1 Hwf1 (lookup_insert_eq _ _ _)) as (d2 & E2 & Hok2 & In2 & Out2); [|done|].
  { split; [by constructor|apply NoDup_singleton]. }
  exists d2. cbn [stored] in E2. rewrite E2. split; [apply set_page_twice|]. split; [done|intros r Hz|intros o Hin].
  - rewrite tf_reg_word by done. fold (word (Z.to_nat (tf_off r)) d2). destruct (decide (r = Ra0)) as [->|Hne].
    { apply (In2 Ra0 112). by apply list_elem_of_here. }
    pose proof (user_slot r Hz Hne) as Hs. pose proof (proj1 (Forall_forall _ _) U1 _ Hs) as Hfit. cbn in Hfit.
    rewrite Out2, (In1 r) by (done || (cbn; rewrite list_elem_of_singleton; by destruct r)). by apply upd_ne.
  - destruct (kernel_word o Hin) as (Ho & Hne & Hout). rewrite Out2, Out1 by (done || (cbn; by rewrite list_elem_of_singleton)). done.
Qed.

Lemma uservec_spec c d :
  ram_wf (c_ram c) → regs_ok (regs c) → c_satp c = us → sscratch c = TRAPFRAME → mem (c_ram c) !! p = Some d →
  wp (uservec tr) c (λ pc c', ∃ d', c_ram c' = set_mem (<[p := d']> (mem (c_ram c))) (c_ram c) ∧ saved_in (regs c) d d' ∧
    pc = word 16 d ∧ c_satp c' = word 0 d ∧ regs c' Rsp = word 8 d ∧ regs c' Rtp = word 32 d).
Proof.
  destruct c as [f ss sa m]. cbn [regs sscratch c_satp c_ram]. intros Hwf Hf -> -> Hd.
  destruct user_slots_ok as (U1 & U2 & U3 & U4 & K1 & K2 & K3). pose proof (page_aligned8 p Hp) as Hp8. pose proof TRAPFRAME_window as HB.
  pose proof (page_block p Hp m d Hd) as Hb. destruct (uservec_words f m d Hwf Hd Hf) as (d' & Hm & Hsaved).
  assert (fits PGSIZE 112) as F112 by (by split_and!).
  unfold uservec. wp_step. rewrite uservec_shape. cbn [exec]. apply wp_bind, wp_csrrw. core_simpl.
  apply wp_exec_app, (exec_saves tr us TRAPFRAME p PGSIZE Htr HB Ra0); [done|by apply upd_eq|done|done|]. core_simpl.
  apply wp_exec_app. cbn [exec]. apply wp_bind, wp_csrr. core_simpl. apply wp_bind.
  apply (wp_sd tr us TRAPFRAME p PGSIZE Htr HB); [done|core_simpl; by rewrite upd_ne by done; apply upd_eq|done|by apply stored_mapped|].
  core_simpl. rewrite upd_eq, Hm by done. wp_step. set (m2 := set_mem _ m).
  assert (mem m2 !! p = Some d') as Hd' by apply lookup_insert_eq.
  apply wp_exec_app, (exec_loads tr us TRAPFRAME p PGSIZE Htr HB Ra0);
    [done|core_simpl; by rewrite upd_ne by done; apply upd_eq|done|done|by apply (page_block p Hp m2 d')|]. core_simpl.
  cbn [exec]. apply wp_bind, wp_sfence, wp_bind, wp_csrw_satp, wp_bind, wp_sfence. wp_step. wp_step. core_simpl.
  assert (∀ r o, (r, o) ∈ kernel_slots → r ≠ Rzero → ∀ g, loaded p kernel_slots m2 g r = word (Z.to_nat o) d) as Hload.
  { intros r o Hin Hz g. rewrite (loaded_in p _ _ _ r o Hz K2 Hin).
    rewrite (dword_page p Hp m2 d' o Hd' (proj1 (Forall_forall _ _) K1 _ Hin)). cbn. apply Hsaved. 
    apply kernel_slot_words. by apply (list_elem_of_fmap_2 snd _ (r, o)). }
  exists d'. split_and!; [done|done|apply (Hload Rt0 16)|apply (Hload Rt1 0)|apply (Hload Rsp 8)|apply (Hload Rtp 32)];
    try done; by apply (bool_decide_unpack _).
Qed.

Lemma userret_spec c d :
  regs c Ra0 = TRAPFRAME → regs c Ra1 = us → regs c Rzero = 0 → mem (c_ram c) !! p = Some d →
  wp (userret tr) c (λ _ c', c_satp c' = us ∧ sscratch c' = TRAPFRAME ∧ c_ram c' = c_ram c ∧
    ∀ r, regs c' r = tf_reg r (Trapframe_at d)).
Proof.
  destruct c as [f ss sa m]. cbn [regs sscratch c_satp c_ram]. intros Ha0 Ha1 Hz Hd.
  destruct user_slots_ok as (U1 & U2 & U3 & U4 & _). pose proof TRAPFRAME_window as HB. pose proof (page_block p Hp m d Hd) as Hb.
  assert (fits PGSIZE 112) as F112 by (by split_and!).
  unfold userret. rewrite userret_shape. apply wp_exec_app. cbn [exec].
  apply wp_bind, wp_sfence, wp_bind, wp_csrw_satp, wp_bind, wp_sfence. core_simpl. rewrite Ha1.
  apply wp_bind, (wp_ld tr us TRAPFRAME p PGSIZE Htr HB); [done|done|done|done|]. core_simpl. intros v Hv.
  rewrite (dword_page p Hp m d 112 Hd F112) in Hv. injection Hv as <-.
  apply wp_bind, wp_csrw. wp_step. core_simpl. rewrite upd_eq by done.
  apply wp_exec_app, (exec_loads tr us TRAPFRAME p PGSIZE Htr HB Ra0); [done|core_simpl; by rewrite upd_ne|done|done|done|]. core_simpl.
  cbn [exec]. apply wp_bind, wp_csrrw. wp_step. core_simpl. rewrite loaded_out, upd_ne by done. split_and!; [done|done|done|]. intros r.
  destruct (decide (r = Ra0)) as [->|Hne]; [by rewrite upd_eq|]. rewrite upd_ne by done.
  destruct (decide (r = Rzero)) as [->|Hnz]. { rewrite loaded_out by (by apply (bool_decide_unpack _)). by rewrite upd_ne. }
  pose proof (user_slot r Hnz Hne) as Hs. rewrite (loaded_in p _ _ _ r _ Hnz U3 Hs).
  rewrite (dword_page p Hp m d (tf_off r) Hd (proj1 (Forall_forall _ _) U1 _ Hs)). by rewrite tf_reg_word.
Qed.
End trampoline.

(** ** The context switch *)

Definition ctx_slots : list (reg * Z) := [
  (Rra, 0); (Rsp, 8); (Rs0, 16); (Rs1, 24); (Rs2, 32); (Rs3, 40); (Rs4, 48); (Rs5, 56);
  (Rs6, 64); (Rs7, 72); (Rs8, 80); (Rs9, 88); (Rs10, 96); (Rs11, 104)].
Definition CTX_SIZE : Z := 112.

Lemma swtch_shape : swtch_code = saves Ra0 ctx_slots ++ loads Ra1 ctx_slots.
Proof. done. Qed.

Lemma ctx_slots_ok : offsets_ok CTX_SIZE ctx_slots ∧ NoDup ctx_slots.*1 ∧ (Ra1 ∉ ctx_slots.*1) ∧ (Rzero ∉ ctx_slots.*1).
Proof.
  split_and!; [split|..]; by apply (bool_decide_unpack _).
Qed.

(** A [Context] at [a] in memory that the kernel page table maps one to one. *)
Record context_at (tr : u64 → u64 → option usize) (satp a : Z) (m : machine) : Prop := {
  cx_map off : 0 ≤ off < CTX_SIZE → tr satp (a + off) = Some (a + off);
  cx_range : 0 ≤ a ∧ a + CTX_SIZE ≤ 2 ^ 64 ∧ a mod 8 = 0;
  cx_block : block_mapped a CTX_SIZE m;
}.

Definition context_is (m : machine) (a : Z) (f : reg → u64) : Prop := ∀ r o, (r, o) ∈ ctx_slots → dword m (a + o) = Some (f r).

Definition apart (a b : Z) : Prop := a + CTX_SIZE ≤ b ∨ b + CTX_SIZE ≤ a.

Lemma swtch_spec tr c old new :
  ram_wf (c_ram c) → regs_ok (regs c) → regs c Ra0 = old → regs c Ra1 = new →
  context_at tr (c_satp c) old (c_ram c) → context_at tr (c_satp c) new (c_ram c) → apart old new →
  wp (swtch tr) c (λ pc c', ram_wf (c_ram c') ∧ context_is (c_ram c') old (regs c) ∧ context_is (c_ram c) new (regs c') ∧ pc = regs c' Rra ∧
    c_satp c' = c_satp c ∧ (∀ r, r ∉ ctx_slots.*1 → regs c' r = regs c r) ∧
    ∀ a, a mod 8 = 0 → a + 8 ≤ old ∨ old + CTX_SIZE ≤ a → dword (c_ram c') a = dword (c_ram c) a).
Proof.
  destruct c as [f ss sa m]. cbn [regs sscratch c_satp c_ram]. intros Hwf Hf Ha0 Ha1 [O1 O2 O3] [N1 N2 N3] Hap.
  destruct ctx_slots_ok as ([C1 C2] & C3 & C4 & C5).
  unfold swtch. wp_step. rewrite swtch_shape.
  apply wp_exec_app, (exec_saves tr sa old old CTX_SIZE O1 O2 Ra0); [done|done|done|done|]. core_simpl.
  assert (ram_wf (stored old ctx_slots f m)) as Wf by (by apply (stored_wf old CTX_SIZE (proj2 (proj2 O2)))).
  assert (block_mapped new CTX_SIZE (stored old ctx_slots f m)) as N3' by (by apply stored_keeps).
  assert (context_is (stored old ctx_slots f m) old f) as Hin.
  { intros r o Hro. rewrite (stored_in old CTX_SIZE (proj2 (proj2 O2)) ctx_slots f m r o Hwf O3 (conj C1 C2) Hro).
    by rewrite Z.mod_small by apply Hf. }
  assert (∀ a, a mod 8 = 0 → a + 8 ≤ old ∨ old + CTX_SIZE ≤ a → dword (stored old ctx_slots f m) a = dword m a) as Hout.
  { intros a Ha Hr. apply (stored_other old CTX_SIZE (proj2 (proj2 O2)) ctx_slots f m a Hwf O3 C1 Ha). intros o Ho Heq.
    apply list_elem_of_fmap in Ho as ([r x] & -> & Hx). pose proof (proj1 (Forall_forall _ _) C1 _ Hx) as (? & ? & _). cbn in *. lia. }
  revert Wf N3' Hin Hout. generalize (stored old ctx_slots f m). intros m1 Wf N3' Hin Hout.
  apply (exec_loads tr sa new new CTX_SIZE N1 N2 Ra1); [done|done|done|done|done|]. wp_step. core_simpl.
  split_and!; [done|done| |done|done| |done].
  - intros r o Hro. rewrite (loaded_in new ctx_slots m1 f r o); [|by intros ->; apply C5, (list_elem_of_fmap_2 fst _ (Rzero, o))|done|done].
    pose proof (proj1 (Forall_forall _ _) C1 _ Hro) as Hfit. cbn in Hfit.
    rewrite Hout by (first [by apply (fits_aligned new CTX_SIZE (proj2 (proj2 N2))) | destruct Hfit, Hap; lia]).
    unfold dword. destruct (N3 o Hfit) as [d ->]. done.
  - intros r Hr. by apply loaded_out.
Qed.

(** C20: switching contexts and back is invisible to the code that called [swtch].
    [swtch(old, new)] goes on where [new] was saved, with its registers; whenever
    a later [swtch(_, old)] finds the saved context as it was, the call returns to
    its caller with [ra], [sp] and [s0] to [s11] as they were. *)
Theorem swtch_resumes tr c old new :
  ram_wf (c_ram c) → regs_ok (regs c) → regs c Ra0 = old → regs c Ra1 = new →
  context_at tr (c_satp c) old (c_ram c) → context_at tr (c_satp c) new (c_ram c) → apart old new →
  wp (swtch tr) c (λ pc c1, context_is (c_ram c) new (regs c1) ∧ pc = regs c1 Rra ∧
    ∀ c2 from, ram_wf (c_ram c2) → regs_ok (regs c2) → regs c2 Ra0 = from → regs c2 Ra1 = old →
      context_at tr (c_satp c2) from (c_ram c2) → context_at tr (c_satp c2) old (c_ram c2) → apart from old →
      (∀ o, fits CTX_SIZE o → dword (c_ram c2) (old + o) = dword (c_ram c1) (old + o)) →
      wp (swtch tr) c2 (λ pc' c3, pc' = regs c Rra ∧ ∀ r, r ∈ ctx_slots.*1 → regs c3 r = regs c r)).
Proof.
  intros H1 H2 H3 H4 H5 H6 H7. eapply wp_mono; [by apply (swtch_spec tr c old new)|].
  intros pc c1 (_ & Hold & Hnew & Hpc & _). split_and!; [done|done|]. intros c2 from G1 G2 G3 G4 G5 G6 G7 Hsame.
  destruct ctx_slots_ok as ([C1 _] & _).
  assert (∀ c3, context_is (c_ram c2) old (regs c3) → ∀ r, r ∈ ctx_slots.*1 → regs c3 r = regs c r) as Hregs.
  { intros c3 Hc r Hr. apply list_elem_of_fmap in Hr as ([r' o] & -> & Hro). pose proof (proj1 (Forall_forall _ _) C1 _ Hro) as Hfit.
    apply (inj Some). cbn [fst]. by rewrite <-(Hc _ _ Hro), <-(Hold _ _ Hro), Hsame. }
  eapply wp_mono; [by apply (swtch_spec tr c2 from old)|]. intros pc' c3 (_ & _ & Hc & -> & _).
  split; [|by apply Hregs]. apply (Hregs c3 Hc). by apply list_elem_of_here.
Qed.

(** ** Traps in the kernel *)

Definition frame_slots : list (reg * Z) := [
  (Rra, 0); (Rsp, 8); (Rgp, 16); (Rtp, 24); (Rt0, 32); (Rt1, 40); (Rt2, 48); (Rs0, 56); (Rs1, 64); (Ra0, 72); (Ra1, 80); (Ra2, 88);
  (Ra3, 96); (Ra4, 104); (Ra5, 112); (Ra6, 120); (Ra7, 128); (Rs2, 136); (Rs3, 144); (Rs4, 152); (Rs5, 160); (Rs6, 168); (Rs7, 176);
  (Rs8, 184); (Rs9, 192); (Rs10, 200); (Rs11, 208); (Rt3, 216); (Rt4, 224); (Rt5, 232); (Rt6, 240)].
Definition restore_slots : list (reg * Z) := filter (λ x, x.1 ≠ Rsp) frame_slots.
Definition FRAME_SIZE : Z := 256.

Lemma trap_entry_shape :
  trap_entry_save = Addi Rsp Rsp (-256) :: saves Rsp frame_slots ∧ trap_entry_restore = loads Rsp restore_slots ++ [Addi Rsp Rsp 256].
Proof. done. Qed.

Lemma frame_slots_ok : offsets_ok FRAME_SIZE frame_slots ∧ NoDup restore_slots.*1 ∧ (Rsp ∉ restore_slots.*1) ∧
  Forall (λ x, fits FRAME_SIZE x.2) restore_slots ∧ restore_slots ⊆ frame_slots.
Proof. split_and!; [split|..]; by apply (bool_decide_unpack _). Qed.

Lemma restore_slot r : r ≠ Rzero → r ≠ Rsp → ∃ o, (r, o) ∈ restore_slots.
Proof.
  intros Hz Hs. assert (r ∈ restore_slots.*1) as Hr by (destruct r; try done; by apply (bool_decide_unpack _)).
  apply list_elem_of_fmap in Hr as ([r' o] & -> & Hin). by exists o.
Qed.

Lemma wp_addi tr rd rs imm c Q : Q tt (set_regs (upd rd ((regs c rs + imm) mod 2 ^ 64) (regs c)) c) → wp (exec1 tr (Addi rd rs imm)) c Q.
Proof. intros H. cbn [exec1]. wp_steps. unfold set_reg. by wp_steps. Qed.

Section kernel_trap.
Context (tr : u64 → u64 → option usize) (link : u64) (kt : M core unit) (sa F : Z).
Context (Htr : ∀ off, 0 ≤ off < FRAME_SIZE → tr sa (F + off) = Some (F + off)).
Context (HF : 0 ≤ F ∧ F + FRAME_SIZE ≤ 2 ^ 64 ∧ F mod 8 = 0) (Htop : F + FRAME_SIZE < 2 ^ 64).

(** The convention of calls: [kerneltrap] comes back with the stack it was called
    on, and has not written above it. *)
Definition respects_frame : Prop := ∀ c1, regs c1 Rsp = F → c_satp c1 = sa → block_mapped F FRAME_SIZE (c_ram c1) →
  wp kt c1 (λ _ c2, regs c2 Rsp = F ∧ regs c2 Rzero = regs c1 Rzero ∧ c_satp c2 = sa ∧ block_mapped F FRAME_SIZE (c_ram c2) ∧
    ∀ o, fits FRAME_SIZE o → dword (c_ram c2) (F + o) = dword (c_ram c1) (F + o)).

Lemma trap_entry_spec c :
  respects_frame → ram_wf (c_ram c) → regs_ok (regs c) → c_satp c = sa → regs c Rsp = F + FRAME_SIZE → block_mapped F FRAME_SIZE (c_ram c) →
  wp (trap_entry tr link kt) c (λ _ c', ∀ r, regs c' r = regs c r).
Proof.
  destruct c as [f ss sa' m]. cbn [regs sscratch c_satp c_ram]. intros Hkt Hwf Hf -> Hsp Hm.
  destruct frame_slots_ok as ([C1 C2] & C3 & C4 & C5 & C6). destruct trap_entry_shape as [Esave Erest].
  assert ((f Rsp + -256) mod 2 ^ 64 = F) as HspF by (rewrite Hsp; unfold FRAME_SIZE in *; rewrite Z.mod_small; lia).
  unfold trap_entry. wp_step. rewrite Esave. cbn [exec]. apply wp_bind, wp_addi. core_simpl. rewrite HspF.
  apply (exec_saves tr sa F F FRAME_SIZE Htr HF Rsp); [done|by apply upd_eq|done|done|]. core_simpl.
  assert (regs_ok (upd Rsp F f)) as Hg by (apply upd_regs_ok; [done|unfold FRAME_SIZE in *; lia]).
  assert (∀ r o, (r, o) ∈ restore_slots → dword (stored F frame_slots (upd Rsp F f) m) (F + o) = Some (upd Rsp F f r)) as Hin.
  { intros r o Hro%C6. rewrite (stored_in F FRAME_SIZE (proj2 (proj2 HF)) frame_slots _ m r o Hwf Hm (conj C1 C2) Hro).
    by rewrite Z.mod_small by apply Hg. }
  assert (block_mapped F FRAME_SIZE (stored F frame_slots (upd Rsp F f) m)) as Hm1 by (by apply stored_keeps).
  revert Hin Hm1. generalize (stored F frame_slots (upd Rsp F f) m). intros m1 Hin Hm1.
  unfold set_reg. wp_step. wp_step. core_simpl. wp_step. eapply wp_mono; [apply Hkt; [core_simpl; by rewrite upd_ne by done; apply upd_eq|done|done]|].
  intros [] c2 (Hsp2 & Hz2 & Hsa2 & Hm2 & Hsame). cbn [regs c_ram set_regs set_ram] in Hz2, Hsame. rewrite Erest.
  apply wp_exec_app, (exec_loads tr sa F F FRAME_SIZE Htr HF Rsp); [done|done|done|done|done|]. core_simpl.
  cbn [exec]. apply wp_bind, wp_addi. wp_step. core_simpl. intros r. rewrite loaded_out, Hsp2 by done.
  destruct (decide (r = Rsp)) as [->|Hne]. { rewrite upd_eq, Hsp by done. apply Z.mod_small. unfold FRAME_SIZE in *. lia. }
  rewrite upd_ne by done. destruct (decide (r = Rzero)) as [->|Hz].
  { rewrite loaded_out by (by apply (bool_decide_unpack _)). rewrite Hz2. by rewrite !upd_ne. }
  destruct (restore_slot r Hz Hne) as [o Hro]. rewrite (loaded_in F _ _ _ r o Hz C3 Hro), Hsame, (Hin _ _ Hro).
  - cbn. by apply upd_ne.
  - exact (proj1 (Forall_forall _ _) C5 _ Hro).
Qed.
End kernel_trap.

(** ** The first instructions *)

Section start.
Context (tr : u64 → u64 → option usize) (sa st bs be : Z) (m0 : machine).
Context (Htr : ∀ a, bs ≤ a < be → tr sa a = Some a).
Context (Hb : 0 ≤ bs ≤ be) (He : be < 2 ^ 64) (Hb8 : bs mod 8 = 0) (He8 : be mod 8 = 0).

Definition bss_mapped (m : machine) : Prop := ∀ a, bs ≤ a < be → is_Some (mem m !! pbase a).

(** Everything below [a] is clear. *)
Record cleared (a : Z) (c : core) : Prop := {
  cl_t0 : regs c Rt0 = a; cl_t1 : regs c Rt1 = be; cl_sp : regs c Rsp = st; cl_zero : regs c Rzero = 0; cl_satp : c_satp c = sa;
  cl_range : bs ≤ a ≤ be ∧ a mod 8 = 0;
  cl_wf : ram_wf (c_ram c);
  cl_mapped : bss_mapped (c_ram c);
  cl_below x : x mod 8 = 0 → bs ≤ x < a → dword (c_ram c) x = Some 0;
  cl_other x : x mod 8 = 0 → x < bs ∨ be ≤ x → dword (c_ram c) x = dword m0 x;
}.

Lemma cleared_store a c :
  cleared a c → a < be → cleared (a + 8) (set_regs (upd Rt0 (a + 8) (regs c)) (set_ram (store_dword a 0 (c_ram c)) c)).
Proof.
  intros [H1 H2 H3 H4 H5 [H6 H6'] H7 H8 H9 H10] Ha.
  assert (a + 8 ≤ be ∧ (a + 8) mod 8 = 0) as [Hle Hal].
  { pose proof (Z_div_exact_full_2 a 8 ltac:(lia) H6'). pose proof (Z_div_exact_full_2 be 8 ltac:(lia) He8).
    split; [lia|]. rewrite Z.add_mod, H6' by lia. done. }
  assert (is_Some (mem (c_ram c) !! pbase a)) as Hs by (apply H8; lia).
  split; core_simpl; try done; try (by rewrite upd_ne).
  - split; [lia|done].
  - by apply store_dword_wf.
  - intros x Hx. unfold store_dword. destruct (mem (c_ram c) !! pbase a); [|by apply H8]. cbn. apply lookup_insert_is_Some'. right. by apply H8.
  - intros x Hx Hr. rewrite dword_store by done. case_decide; [done|]. apply H9; [done|].
    pose proof (Z_div_exact_full_2 a 8 ltac:(lia) H6'). pose proof (Z_div_exact_full_2 x 8 ltac:(lia) Hx). lia.
  - intros x Hx Hr. rewrite dword_store by done. rewrite decide_False by lia. by apply H10.
Qed.

Lemma start_step_spec a c :
  cleared a c → wp (start_step tr a) c (λ r c', match r with inl a' => a' = a + 8 ∧ cleared a' c' ∧ a < be | inr _ => cleared be c' end).
Proof.
  intros Hc. pose proof Hc as [H1 H2 H3 H4 H5 [H6 H6'] H7 H8 H9 H10]. unfold start_step. wp_step. wp_step. unfold id. rewrite H1, H2.
  destruct (Z.leb_spec be a) as [Hle|Hlt]. { wp_step. by replace be with a by lia. }
  wp_step. cbn [exec]. apply wp_bind.
  assert (a + 8 ≤ be) as Hge.
  { pose proof (Z_div_exact_full_2 a 8 ltac:(lia) H6'). pose proof (Z_div_exact_full_2 be 8 ltac:(lia) He8). lia. }
  apply (wp_sd tr sa a a 8); [intros off Ho; apply Htr; lia|split_and!; done || lia|done|done|by split_and!| |].
  { intros off Hf. apply H8. destruct Hf. lia. }
  rewrite Z.add_0_r, H4. apply wp_bind, wp_addi. wp_step. core_simpl. rewrite H1, Z.mod_small by lia.
  wp_step. wp_step. wp_step. core_simpl. rewrite upd_eq by done. split_and!; [done| |done]. exact (cleared_store a c Hc Hlt).
Qed.

Lemma start_clears_spec c :
  c_ram c = m0 → ram_wf m0 → bss_mapped m0 → c_satp c = sa → regs c Rzero = 0 →
  wp (start tr st bs be) c (λ _ c', cleared be c').
Proof.
  intros Hm0 Hwf Hm Hsa Hz. unfold start, set_reg. wp_step. wp_step. wp_step. wp_step. wp_step. wp_step.
  eapply (wp_while (λ a c, cleared a c) (λ a, Z.to_nat (be - a))).
  - intros a c1 Hc. eapply wp_mono; [by apply start_step_spec|]. intros [a'|[]] c'; [|done].
    intros (-> & Hc' & Hlt). split; [done|]. lia.
  - split; core_simpl; rewrite ?Hm0; try done; intros; lia.
  - lia.
Qed.
End start.

(** ** Witnesses *)

(** Registers are 64 bits wide, [zero] is zero, and the memory consists of pages of
    bytes. *)
Record core_ok (c : core) : Prop := {
  co_regs : regs_ok (regs c);
  co_zero : regs c Rzero = 0;
  co_sscratch : 0 ≤ sscratch c < 2 ^ 64;
  co_satp : 0 ≤ c_satp c < 2 ^ 64;
  co_ram : ram_wf (c_ram c);
}.

(** One page at 4096, mapped to itself; two contexts on it. *)
Definition id_tr (_ va : Z) : option usize := if va / PGSIZE =? 1 then Some va else None.
Definition demo_regs (r : reg) : u64 :=
  match r with Rzero => 0 | Ra0 => 4096 | Ra1 => 4096 + 256 | Rra => 77 | _ => 1000 + tf_off r end.
Definition demo_ram : machine := mkMachine (<[4096 := zero_page]> ∅) 0 [].
Definition demo_core : core := mkCore demo_regs 0 0 demo_ram.

Lemma demo_core_ok : core_ok demo_core.
Proof.
  split; try done; [intros r; by destruct r|]. intros q d. cbn. intros [[<- <-]|[_ Hx]]%lookup_insert_Some; [|by rewrite lookup_empty in Hx].
  split; [apply zero_page_ok|done].
Qed.

Lemma demo_context a m : a ∈ [4096; 4096 + 256] → mem m = mem demo_ram → context_at id_tr 0 a m.
Proof.
  intros Ha Hm. assert (4096 ≤ a ≤ 4096 + 256 ∧ a mod 8 = 0) as [Hr H8].
  { apply elem_of_cons in Ha as [->|Ha]; [done|]. apply list_elem_of_singleton in Ha as ->. done. }
  split.
  - intros off Ho. unfold id_tr, CTX_SIZE in *. replace ((a + off) / PGSIZE) with 1; [done|]. change PGSIZE with 4096.
    apply Z.div_unique with (a + off - 4096); lia.
  - unfold CTX_SIZE. split_and!; [lia|lia|done].
  - intros off (Ho & Ho' & _). rewrite Hm. unfold pbase, CTX_SIZE in *. replace (a + off - (a + off) mod PGSIZE) with 4096; [by exists zero_page|].
    change PGSIZE with 4096. rewrite <-(Z.mod_unique (a + off) 4096 1 (a + off - 4096)) by lia. lia.
Qed.

Lemma swtch_resumes_witness :
  wp (swtch id_tr) demo_core (λ pc c1, context_is demo_ram (4096 + 256) (regs c1) ∧ pc = regs c1 Rra ∧
    ∀ c2 from, ram_wf (c_ram c2) → regs_ok (regs c2) → regs c2 Ra0 = from → regs c2 Ra1 = 4096 →
      context_at id_tr (c_satp c2) from (c_ram c2) → context_at id_tr (c_satp c2) 4096 (c_ram c2) → apart from 4096 →
      (∀ o, fits CTX_SIZE o → dword (c_ram c2) (4096 + o) = dword (c_ram c1) (4096 + o)) →
      wp (swtch id_tr) c2 (λ pc' c3, pc' = 77 ∧ ∀ r, r ∈ ctx_slots.*1 → regs c3 r = demo_regs r)).
Proof.
  pose proof demo_core_ok as [C1 C2 C3 C4 C5].
  apply (swtch_resumes id_tr demo_core 4096 (4096 + 256)); [exact C5|exact C1|reflexivity|reflexivity| | |by left; vm_compute].
  - apply demo_context; [by left|done].
  - apply demo_context; [by right; left|done].
Defined.

(** The switch there and back, run: the second core comes from other code. *)
Example swtch_run :
  match swtch id_tr demo_core with
  | Ok (pc, c1) =>
      match swtch id_tr (mkCore (upd Ra0 (4096 + 512) (upd Ra1 4096 (λ r, if decide (r = Rzero) then 0 else 5))) 0 0 (c_ram c1)) with
      | Ok (pc', c3) => Some (pc, pc', regs c3 Rsp, regs c3 Rs11, regs c3 Rt0)
      | Fault _ => None
      end
  | Fault _ => None
  end = Some (0, 77, 1048, 1248, 5).
Proof. by vm_compute. Qed.
