(* ===== verification/Ecall.v ===== *)
(** * Traps from the user program's side (asm/trampoline.S, trap.rs)

    The instructions of the trampoline and the trap handler together: what a
    program finds in its registers after a system call, and what the child of a
    [fork] starts with. *)

From S2P Require Import Prelude Ring Spinlock FsBase Icache Kalloc Vm PageTable UserMem Space Kernel Sched Pipe Console File Proc ProcMem Exec Syscall Descr Exit Fork Trap TrapSpec Lifecycle Isolation Asm.

(** ** The page table in force *)

(** The page table [T] translates when [satp] names it; reads and writes of the
    kernel need R and W. *)
Definition tree_tr (T : ptree) (satp va : Z) : option usize :=
  if satp =? make_satp (pt_root T) then
    e ← L T !! vpn va; if Z.land e 6 =? 6 then Some (pte_pa e + va mod PGSIZE) else None
  else None.

(** The trapframe of the process is mapped where the trampoline expects it. *)
Definition tf_mapped (T : ptree) (tf : Z) : Prop := L T !! TRAPFRAME_VPN = Some (leaf_bits tf (Z.lor PTE_R PTE_W)) ∧ page_addr tf.

Lemma tree_tr_trapframe T tf off :
  tf_mapped T tf → 0 ≤ off < PGSIZE → tree_tr T (make_satp (pt_root T)) (TRAPFRAME + off) = Some (tf + off).
Proof.
  intros [HL Hp] Ho. unfold tree_tr. rewrite Z.eqb_refl.
  assert (vpn (TRAPFRAME + off) = TRAPFRAME_VPN ∧ (TRAPFRAME + off) mod PGSIZE = off) as [-> ->].
  { unfold vpn. change TRAPFRAME with (TRAPFRAME_VPN * 4096). change PGSIZE with 4096 in *. split.
    - rewrite Z.div_add_l by lia. rewrite (Z.div_small off) by lia. lia.
    - rewrite Z.add_comm, Z.mod_add by lia. by apply Z.mod_small. }
  rewrite HL. cbn [mbind option_bind]. rewrite land_leaf_bits by done.
  destruct (leaf_entry tf (Z.lor PTE_R PTE_W) Hp ltac:(done)) as (_ & -> & _). done.
Qed.

(** ** Going in and out *)

(** The kernel after [uservec]: the memory, the page table and the hart number are
    those of the core. *)
Definition enter (c : core) (s : hartk) : hartk :=
  mkHartk (mkCsr (sstatus (csr s)) (stvec (csr s)) (sepc (csr s)) (scause (csr s)) (stval (csr s)) (c_satp c) (regs c Rtp) (sie (csr s)))
    (dev s) (set_k_ram (c_ram c) (kern s)).

(** The core at the call of [userret], with the other registers as the kernel left
    them. *)
Definition leave (kregs : reg → u64) (a0 a1 : u64) (c : core) (s : hartk) : core :=
  mkCore (upd Ra1 a1 (upd Ra0 a0 kregs)) (sscratch c) (satp (csr s)) (k_ram (kern s)).

Lemma word_range off d : page_ok d → (off + 8 ≤ 4096)%nat → 0 ≤ word off d < 2 ^ 64.
Proof.
  intros [Hl Hb] Ho. unfold word. pose proof (le_val_bound (slice off 8 d)) as H. rewrite length_slice in H; [|by rewrite Hl].
  apply H. by apply Forall_take, Forall_drop.
Qed.

Lemma tf_reg_range r d : page_ok d → 0 ≤ tf_reg r (Trapframe_at d) < 2 ^ 64.
Proof.
  intros Hd. destruct (decide (r = Rzero)) as [->|Hz]; [done|]. rewrite tf_reg_word by done.
  apply word_range; [done|]. by destruct r; apply leb_complete.
Qed.

Lemma ram_wf_insert m r q (d : list u8) : ram_wf m → q mod PGSIZE = 0 → mem r = <[q := d]> (mem m) → page_ok d → ram_wf r.
Proof. intros Hwf Hq Hm Hd x dx. rewrite Hm. intros [[<- <-]|[_ Hx]]%lookup_insert_Some; [done|by apply (Hwf x)]. Qed.

(** ** A program about to run *)

Section ecall.
Context (kernel_end trampoline_start forkret trap_entry usertrap_fn uservec_fn ksatp hart : usize) (pad1 pad2 : list u8).
Context (Hvec : trampoline_start ≤ uservec_fn) (Hvec' : uservec_fn - trampoline_start < PGSIZE).
Context (Hfn : 0 ≤ usertrap_fn < 2 ^ 64).

Local Abbreviation dispatch := (dispatch kernel_end trampoline_start forkret pad1 pad2).
Local Abbreviation usertrap := (usertrap kernel_end trampoline_start forkret trap_entry usertrap_fn uservec_fn pad1 pad2).

Record user_mode (c : core) (s : hartk) (i : nat) (p : Process) (T : ptree) (d : list u8) : Prop := {
  um_regs : regs_ok (regs c);
  um_zero : regs c Rzero = 0;
  um_wf : ram_wf (c_ram c);
  um_ram : k_ram (kern s) = c_ram c;
  um_satp : c_satp c = make_satp (pt_root T);
  um_root : pt_root T = pagetable p;
  um_map : tf_mapped T (trapframe p);
  um_scratch : sscratch c = TRAPFRAME;
  um_tf : tf_ok (kern s) i p d;
  um_held : held (kern s) = [];
  um_stack : 0 ≤ kstack p ∧ kstack p + PGSIZE ≤ USIZE_MAX;
  um_words : word 0 d = ksatp ∧ word 8 d = kstack p + PGSIZE ∧ word 16 d = usertrap_fn ∧ word 32 d = hart;
}.

(** The registers as the arguments of a system call. *)
Definition reg_args (f : reg → u64) : Targs := mkTargs (f Ra0) (f Ra1) (f Ra2) (f Ra7).

(** *** The page on the way back *)

Lemma take_word_front (e d : list u8) off :
  length d = 4096%nat → (off + 8 ≤ 288)%nat → slice off 8 (take TRAPFRAME_SIZE d ++ e) = slice off 8 d.
Proof.
  intros Hl Ho. unfold slice, TRAPFRAME_SIZE. rewrite drop_app_le by (rewrite length_take; lia).
  rewrite take_app_le by (rewrite length_drop, length_take; lia). rewrite skipn_firstn_comm, take_take. f_equal. lia.
Qed.

Lemma tf_off_range r : r ≠ Rzero → (40 ≤ Z.to_nat (tf_off r))%nat ∧ (Z.to_nat (tf_off r) + 8 ≤ 288)%nat.
Proof. intros Hz. by destruct r; split; apply leb_complete. Qed.

(** A result in [a0]. *)
Lemma set_a0_regs v d r :
  length d = 4096%nat → 0 ≤ v < 2 ^ 64 →
  tf_reg r (Trapframe_at (splice 112 (le_bytes 8 v) d)) = if decide (r = Ra0) then v else tf_reg r (Trapframe_at d).
Proof.
  intros Hl Hv. destruct (decide (r = Rzero)) as [->|Hz]; [done|]. rewrite !tf_reg_word by done. destruct (tf_off_range r Hz) as [Ho Ho'].
  destruct (decide (r = Ra0)) as [->|Hne]; [by apply (word_set_word 112); [|lia|]|].
  rewrite slice_set_word; [done|done|lia| |lia]. destruct r; try done; first [left; by apply leb_complete|right; by apply leb_complete].
Qed.

Lemma saved_reg pc d r : length d = 4096%nat → tf_reg r (Trapframe_at (saved pc d)) = tf_reg r (Trapframe_at d).
Proof.
  intros Hl. destruct (decide (r = Rzero)) as [->|Hz]; [done|]. rewrite !tf_reg_word by done. destruct (tf_off_range r Hz) as [Ho Ho'].
  by rewrite saved_regs by (done || lia).
Qed.

Section back.
Context (c : Csr) (ksp : Z) (d : list u8) (Hd : page_ok d).

Local Abbreviation back := (ret_page usertrap_fn c ksp d).

Lemma back_ok : page_ok back.
Proof. unfold ret_page. repeat (apply store64_page_ok; [|lia]). done. Qed.

Lemma back_regs r : tf_reg r (Trapframe_at back) = tf_reg r (Trapframe_at d).
Proof.
  pose proof Hd as [Hl _]. destruct (decide (r = Rzero)) as [->|Hz]; [done|]. rewrite !tf_reg_word by done. destruct (tf_off_range r Hz) as [Ho Ho'].
  rewrite ret_page_regs; [done|done|by left|lia].
Qed.

Lemma back_words :
  0 ≤ ksp < 2 ^ 64 → 0 ≤ satp c < 2 ^ 64 → 0 ≤ tp c < 2 ^ 64 →
  word 0 back = satp c ∧ word 8 back = ksp ∧ word 16 back = usertrap_fn ∧ word 32 back = tp c.
Proof.
  intros Hksp Hsatp Htp. pose proof Hd as [Hl _]. unfold ret_page.
  assert (∀ o x l, length l = 4096%nat → (o + 8 ≤ 4096)%nat → length (splice o (le_bytes 8 x) l) = 4096%nat) as Hlen by (intros; by apply length_set_word).
  split_and!; unfold word;
    repeat (rewrite slice_set_word by (repeat (apply Hlen || done || lia))); apply word_set_word; repeat (apply Hlen || done || lia).
Qed.
End back.

(** *** In: the kernel is entered with the registers in the trapframe *)

Lemma entered c s i p T d :
  user_mode c s i p T d → Z.land (sstatus (csr s)) SSTATUS_SPP = 0 → 0 ≤ sepc (csr s) < 2 ^ 64 →
  wp (uservec (tree_tr T)) c (λ pc c1, pc = usertrap_fn ∧ regs c1 Rsp = kstack p + PGSIZE ∧ c_satp c1 = ksatp ∧ regs c1 Rtp = hart ∧
    ∃ d1, trapped (enter c1 s) i p d1 ∧ page_ok d1 ∧ ram_wf (c_ram c1) ∧ (∀ r, r ≠ Rzero → tf_reg r (Trapframe_at d1) = regs c r) ∧
      tf_written p d1 (kern s) (kern (enter c1 s))).
Proof.
  intros [U1 U2 U3 U4 U5 U6 U7 U8 [F1 F2 F3 F4 F5] U10 U11 (W0 & W8 & W16 & W32)] Hspp Hpc.
  eapply wp_mono; [apply (uservec_spec (tree_tr T) (make_satp (pt_root T)) (trapframe p)); try done|].
  { intros off Ho. by apply tree_tr_trapframe. }
  { by rewrite <-U4. }
  intros pc c1 (d1 & Hm & [S1 S2 S3] & -> & Hs & Hsp & Htp). split_and!; try congruence. exists d1.
  assert (tf_written p d1 (kern s) (kern (enter c1 s))) as Hw.
  { exists (c_ram c1). split; [done|]. by rewrite U4, Hm. }
  split_and!; [|done| |done|done].
  - split; try done.
    eapply tf_written_ok; [split; [exact F1|exact F2|exact F3|exact F4|exact F5]|apply S1|done].
  - rewrite Hm. by apply ram_wf_set.
Qed.

(** *** Out: the program goes on with the registers of the trapframe *)

Lemma left_kernel kregs c s i p T d :
  regs_ok kregs → kregs Rzero = 0 → pt_root T = pagetable p → tf_mapped T (trapframe p) → tf_ok (kern s) i p d → ram_wf (k_ram (kern s)) →
  held (kern s) = [] → 0 ≤ kstack p ∧ kstack p + PGSIZE ≤ USIZE_MAX →
  word 0 d = ksatp ∧ word 8 d = kstack p + PGSIZE ∧ word 16 d = usertrap_fn ∧ word 32 d = hart →
  wp (userret (tree_tr T)) (leave kregs TRAPFRAME (make_satp (pagetable p)) c s) (λ _ c',
    user_mode c' s i p T d ∧ ∀ r, regs c' r = tf_reg r (Trapframe_at d)).
Proof.
  intros Hk Hz Hroot Hmap Htf Hwf Hh Hst Hw. pose proof Htf as [F1 F2 F3 F4 F5].
  eapply wp_mono; [apply (userret_spec (tree_tr T) (make_satp (pt_root T)) (trapframe p)) with (d := d); try done|].
  { intros off Ho. by apply tree_tr_trapframe. }
  { cbn. by rewrite Hroot. }
  intros [] c' (Hs & Hss & Hm & Hr). cbn in Hm. split; [|done]. rewrite <-Hm in Hwf.
  split; try done; try (by rewrite Hr). intros r. rewrite Hr. apply tf_reg_range. apply (Hwf (trapframe p)). by rewrite Hm.
Qed.

(** After [usertrapret]: the registers are those of the page [dv] it started from. *)
Lemma resumed kregs c s' i p p2 T2 cs dv k2 :
  same_frame p p2 → page_ok dv → satp cs = ksatp → tp cs = hart → 0 ≤ ksatp < 2 ^ 64 → 0 ≤ hart < 2 ^ 64 →
  0 ≤ kstack p ∧ kstack p + PGSIZE ≤ USIZE_MAX → ram_wf (k_ram k2) → held (kern s') = [] →
  tf_ok (kern s') i p2 (ret_page usertrap_fn cs (kstack p + PGSIZE) dv) → tf_written p (ret_page usertrap_fn cs (kstack p + PGSIZE) dv) k2 (kern s') →
  regs_ok kregs → kregs Rzero = 0 → pt_root T2 = pagetable p → tf_mapped T2 (trapframe p) →
  wp (userret (tree_tr T2)) (leave kregs TRAPFRAME (make_satp (pagetable p)) c s') (λ _ c',
    (∀ r, regs c' r = tf_reg r (Trapframe_at dv)) ∧ ∃ d', user_mode c' s' i p2 T2 d').
Proof.
  intros (S1 & S2 & S3) Hokv Hsat Htp Hks Hhart Hst Hwf2 Hh Htf (r & Hk & Hm & _) Hkr Hkz Hroot Hmap.
  assert (0 ≤ kstack p + PGSIZE < 2 ^ 64) as Hksp by (change USIZE_MAX with (2 ^ 64 - 1) in Hst; mem_lia).
  destruct (back_words cs (kstack p + PGSIZE) dv Hokv Hksp) as (B0 & B8 & B16 & B32); [by rewrite Hsat|by rewrite Htp|].
  rewrite <-S2. eapply wp_mono; [apply (left_kernel kregs c s' i p2 T2); try done; rewrite ?S1, ?S2, ?S3; try done|].
  - rewrite Hk. eapply (ram_wf_insert (k_ram k2) r (trapframe p)); [exact Hwf2|rewrite <-S1; apply Htf|exact Hm|by apply back_ok].
  - split_and!; congruence.
  - intros [] c' [Hu Hr]. split; [|by eexists]. intros x. by rewrite Hr, back_regs.
Qed.

(** C11: a system call, from [ecall] to the next instruction of the program.
    [uservec] enters the kernel at [usertrap] on the process's own kernel stack;
    the handler of the call in [a7] runs with [a0], [a1] and [a2] as arguments;
    if it ends with the result [v] (with the trapframe untouched and no lock
    held), [userret] goes back to the instruction after the [ecall] with [v] in
    [a0] and every other register as it was, whatever the kernel had in them, and
    the machine is ready for the next trap of the program. *)
Theorem ecall_returns c s i p T d R :
  user_mode c s i p T d → Z.land (sstatus (csr s)) SSTATUS_SPP = 0 → 0 ≤ sepc (csr s) → sepc (csr s) + 4 < 2 ^ 64 →
  is_interrupt (scause (csr s)) = false → Z.land (scause (csr s)) 0xff = 8 → regs c Ra7 ≠ SYS_EXIT →
  (∀ k1 d1, tf_written p d1 (kern s) k1 → tf_ok k1 i p d1 → ram_wf (k_ram k1) → held k1 = [] →
     wp (dispatch (regs c Ra7) (reg_args (regs c))) k1 (λ r k2,
       ∃ v p2, r = Return (SReturn v) ∧ same_frame p p2 ∧ tf_ok k2 i p2 d1 ∧ held k2 = [] ∧ ram_wf (k_ram k2) ∧ R v k2)) →
  wp (uservec (tree_tr T)) c (λ pc c1, pc = usertrap_fn ∧ regs c1 Rsp = kstack p + PGSIZE ∧
    wp usertrap (enter c1 s) (λ e s', ∃ v p2 k2, R v k2 ∧ e = ToUser TRAPFRAME (make_satp (pagetable p)) ∧ sepc (csr s') = sepc (csr s) + 4 ∧
      ∀ kregs T2, regs_ok kregs → kregs Rzero = 0 → pt_root T2 = pagetable p → tf_mapped T2 (trapframe p) →
        wp (userret (tree_tr T2)) (leave kregs TRAPFRAME (make_satp (pagetable p)) c1 s') (λ _ c',
          regs c' Ra0 = v mod 2 ^ 64 ∧ (∀ r, r ≠ Ra0 → regs c' r = regs c r) ∧ ∃ d', user_mode c' s' i p2 T2 d'))).
Proof.
  intros Hu Hspp Hpc0 Hpc4 Hint Hcode Hne Hdisp. pose proof (um_zero _ _ _ _ _ _ Hu) as Hzero. pose proof (um_stack _ _ _ _ _ _ Hu) as Hst.
  eapply wp_mono; [by eapply entered; [exact Hu|done|lia]|].
  intros pc c1 (-> & Hsp & Hsat & Htp & d1 & Htr & Hok1 & Hwf1 & Hregs & Hw1). split_and!; [done|done|].
  assert (∀ r, r ≠ Rzero → le_val (slice (Z.to_nat (tf_off r)) 8 d1) = regs c r) as Hword by (intros r Hr; by rewrite <-tf_reg_word, Hregs).
  pose proof (Hword Ra0 ltac:(done)) as Wa0. pose proof (Hword Ra1 ltac:(done)) as Wa1. pose proof (Hword Ra2 ltac:(done)) as Wa2.
  pose proof (Hword Ra7 ltac:(done)) as Wa7.
  assert (word 168 d1 = regs c Ra7 ∧ tf_args d1 = reg_args (regs c)) as [E7 Eargs] by (unfold tf_args, reg_args; by rewrite <-Wa0, <-Wa1, <-Wa2, <-Wa7).
  eapply wp_mono; [apply (syscall_user_spec kernel_end trampoline_start forkret trap_entry usertrap_fn uservec_fn pad1 pad2 Hvec Hvec'
    (enter c1 s) i p d1 (λ v _ k2, ram_wf (k_ram k2) ∧ R v k2)); [done|done|done|done|by rewrite E7|]|].
  { intros k1 Hw. cbn [csr enter sepc] in Hw. rewrite E7, Eargs.
    destruct (saved_pc (sepc (csr s) + 4) d1 (proj1 Hok1) ltac:(lia)) as [_ Hl2].
    pose proof (tf_written_ok _ _ i p _ _ (tr_tf _ _ _ _ Htr) Hl2 Hw) as Htf1.
    eapply wp_mono; [apply (Hdisp k1 (saved (sepc (csr s) + 4) d1)); [by eapply tf_written_trans|done| |]|].
    - destruct Hw as (r & -> & Hm & _). apply (ram_wf_insert (c_ram c1) r _ _ Hwf1 (tf_align _ _ _ _ Htf1) Hm). by apply store64_page_ok; [|lia].
    - destruct Hw as (r & -> & _). apply (tr_held _ _ _ _ Htr).
    - intros r k2 (v & p2 & -> & Hsame & Htf & Hh & Hwf2 & HR). by exists v, p2. }
  intros e s' (v & p2 & k2 & [Hwf2 HR] & Hsame & [A1 A2 A3 A4] & Hh & Htf & Hw2). cbn [csr enter sepc] in *.
  exists v, p2, k2. split_and!; [done|done|done|]. intros kregs T2 Hk Hkz Hroot Hmap.
  pose proof (um_words _ _ _ _ _ _ Hu) as (W0 & _ & _ & W32).
  assert (page_ok d) as Hokd.
  { apply (um_wf _ _ _ _ _ _ Hu (trapframe p)). rewrite <-(um_ram _ _ _ _ _ _ Hu). apply (um_tf _ _ _ _ _ _ Hu). }
  assert (0 ≤ ksatp < 2 ^ 64 ∧ 0 ≤ hart < 2 ^ 64) as [Hks Hhart] by (rewrite <-W0, <-W32; split; apply word_range; done || lia).
  set (dv := splice 112 (le_bytes 8 (v mod 2 ^ 64)) (saved (sepc (csr s) + 4) d1)).
  assert (page_ok dv) as Hokv by (by repeat (apply store64_page_ok; [|lia])).
  assert (length (saved (sepc (csr s) + 4) d1) = 4096%nat) as Hls by (apply length_set_word; [apply Hok1|lia]).
  assert (∀ r, tf_reg r (Trapframe_at dv) = if decide (r = Ra0) then v mod 2 ^ 64 else tf_reg r (Trapframe_at d1)) as Hdv.
  { intros r. unfold dv. rewrite set_a0_regs, saved_reg; [done|apply Hok1|done|apply Z.mod_pos_bound; lia]. }
  eapply wp_mono; [by eapply (resumed kregs c1 s' i p p2 T2 (trap_csr trap_entry (csr (enter c1 s))) dv k2)|].
  intros [] c' [Hr Hu']. split_and!; [by rewrite Hr, Hdv, decide_True| |done]. intros r Hr0. rewrite Hr, Hdv, decide_False by done.
  destruct (decide (r = Rzero)) as [->|Hz]; [by rewrite Hzero|by apply Hregs].
Qed.

(** ** The child of a fork *)

Lemma fork_page_regs d r : page_ok d → tf_reg r (Trapframe_at (fork_trapframe d zero_page)) = if decide (r = Ra0) then 0 else tf_reg r (Trapframe_at d).
Proof.
  intros [Hl Hb]. unfold fork_trapframe. change (Z.to_nat A0) with 112%nat.
  assert (length (take TRAPFRAME_SIZE d ++ drop TRAPFRAME_SIZE zero_page) = 4096%nat) as Hlen.
  { rewrite length_app, length_take, length_drop, Hl. done. }
  rewrite set_a0_regs by done. destruct (decide (r = Ra0)); [done|]. destruct (decide (r = Rzero)) as [->|Hz]; [done|].
  rewrite !tf_reg_word by done. destruct (tf_off_range r Hz) as [Ho Ho']. by rewrite (take_word_front _ d).
Qed.

Lemma fork_page_pc d : page_ok d → word 24 (fork_trapframe d zero_page) = word 24 d.
Proof.
  intros [Hl Hb]. unfold fork_trapframe, word. change (Z.to_nat A0) with 112%nat.
  rewrite slice_set_word; [rewrite (take_word_front _ d); [done|done|lia]| |lia|lia|lia].
  rewrite length_app, length_take, length_drop, Hl. done.
Qed.

(** *** The interrupts that [forkret] lets in *)

(** External interrupts only: none that gives up the processor. *)
Definition external (w : list (u64 * u64)) : Prop := Forall (λ '(_, cause), is_interrupt cause = true ∧ Z.land cause 0xff = 9) w.

(** The UART can be served, now and again: the input indices are not at the end of
    their range. *)
Definition uart_again (s : hartk) : Prop := uart_ready s ∧ i_r (input (console (kern s))) + INPUT_BUF ≤ USIZE_MAX.

(** What they leave alone: the running process [i], the memory, and the registers
    the way back needs. *)
Record unmoved (i : nat) (s s' : hartk) : Prop := {
  un_ready : uart_again s';
  un_csr : satp (csr s') = satp (csr s) ∧ tp (csr s') = tp (csr s);
  un_self : procs (kern s') !! i = procs (kern s) !! i;
  un_cpu : cpu_proc (kern s') = cpu_proc (kern s);
  un_mem : k_ram (kern s') = k_ram (kern s);
}.

Lemma received_kept i q k k' :
  procs k !! i = Some q → state q = Running → received k k' →
  procs k' !! i = procs k !! i ∧ length (procs k') = length (procs k) ∧ cpu_proc k' = cpu_proc k ∧ k_ram k' = k_ram k ∧ held k' = held k ∧
    rx (uart (console k')) = [] ∧ Input_ok (input (console k')) ∧ i_r (input (console k')) = i_r (input (console k)).
Proof.
  intros Hq Hrun (i' & Hi' & Hr & _ & ->). destruct (cook_all _ _).2; [|by split_and!].
  split_and!; try done; cbn; [|apply length_wake]. unfold wake. rewrite list_lookup_fmap, Hq. cbn. unfold wake_one. rewrite decide_False; [done|].
  intros [Hs _]. congruence.
Qed.

Lemma device_served_kept i q s s' pc :
  uart_again s → procs (kern s) !! i = Some q → state q = Running → back_in_kernel pc (csr s) (csr s') → device_served s s' → unmoved i s s'.
Proof.
  intros [[U1 U2 U3 U4 U5 U6] Hroom] Hq Hrun Hb Hd. unfold device_served in Hd.
  assert (satp (csr s') = satp (csr s) ∧ tp (csr s') = tp (csr s)) as Hcsr by (by destruct Hb).
  destruct (claims (dev s)) as [|irq rest] eqn:Ec; [|apply Forall_cons in U6 as [_ Hrest]; destruct (irq =? 0)];
    destruct Hd as [Hdev Hk].
  - split; [|done|by rewrite Hk..]. unfold uart_again. split; [split|]; by rewrite ?Hk, ?Hdev, ?Ec.
  - split; [|done|by rewrite Hk..]. unfold uart_again. split; [split|]; by rewrite ?Hk, ?Hdev.
  - destruct (received_kept i q _ _ Hq Hrun Hk) as (K1 & K2 & K3 & K4 & K5 & K6 & K7 & K8).
    split; [|done|done|done|done]. split; [split|by rewrite K8]; [by rewrite K5|by rewrite K2|done|rewrite K6; apply Forall_nil_2| |by rewrite Hdev].
    rewrite K6. pose proof (io_w _ K7). rewrite K8 in *. cbn [length]. lia.
Qed.

Lemma arrive_external i q w s :
  external w → uart_again s → procs (kern s) !! i = Some q → state q = Running → wp (arrive w) s (λ b s', b = false ∧ unmoved i s s').
Proof.
  intros Hw. revert s. induction Hw as [|[pc cause] w [Hint Hcode] Hw IH]; intros s Hu Hq Hrun; cbn [arrive]; [by wp_steps|].
  wp_step. wp_step. destruct (sie_on (sstatus (csr s))) eqn:Hx; [|by apply IH]. wp_step.
  eapply wp_mono; [apply external_spec; [done|apply Hu|done|done]|]. intros r s1 (-> & Hb & Hd).
  destruct (device_served_kept i q s s1 pc Hu Hq Hrun Hb Hd) as [V1 [V2 V3] V4 V5 V6].
  eapply wp_mono; [apply IH; [done|by rewrite V4|done]|]. intros b s2 (-> & [W1 [W2 W3] W4 W5 W6]). split; [done|]. split; [done|split|..]; congruence.
Qed.

(** The hart once [forkret] has released the lock of the process. *)
Definition unlocked (h : hartk) : hartk := mkHartk (csr h) (dev h) (set_held [] (kern h)).

Lemma uart_again_csr c h : uart_again h → uart_again (mkHartk c (dev h) (kern h)).
Proof. by intros [[] ?]. Qed.

(** [forkret] up to [usertrapret]. *)
Lemma forkret_enters h i q2 intena w Q :
  cpu_proc (kern h) = Some i → procs (kern h) !! i = Some q2 → state q2 = Running → held (kern h) = [LProc i] → uart_again (unlocked h) → external w →
  (∀ h1, unmoved i (unlocked h) h1 → wp (usertrapret trampoline_start usertrap_fn uservec_fn) h1 (λ e h', Q (Some e) h')) →
  wp (forkret_body trampoline_start usertrap_fn uservec_fn intena w) h Q.
Proof.
  destruct h as [cs dv k]. cbn [kern csr dev unlocked]. intros Hcpu Hq Hrun Hh Hu Hw HQ. unfold forkret_body. wp_step. apply wp_in_kernel. eapply wp_myproc; [done|].
  wp_step. apply wp_in_kernel. eapply wp_release; [done|apply not_elem_of_nil|]. cbn [kern csr dev].
  assert (∀ c, satp c = satp cs → tp c = tp cs → wp (arrive w) (mkHartk c dv (set_held [] k)) (λ b h1, b = false ∧ unmoved i (unlocked (mkHartk cs dv k)) h1)) as Harr.
  { intros c Hs Ht. eapply wp_mono; [apply (arrive_external i q2); [done|exact (uart_again_csr c _ Hu)|done|done]|].
    intros b h1 (-> & [V1 [V2 V3] V4 V5 V6]). split; [done|]. cbn [csr kern] in *. split; [done|split; cbn [unlocked csr]; congruence|done..]. }
  wp_step. eapply (wp_mono _ _ (λ _ h1, ∃ c, satp c = satp cs ∧ tp c = tp cs ∧ h1 = mkHartk c dv (set_held [] k))).
  - destruct intena; [|wp_step; by exists cs]. unfold trap_intr_on, w_sstatus. wp_step. wp_step. wp_step. cbn [csr set_csr dev kern]. by eexists (mkCsr _ _ _ _ _ _ _ _).
  - intros [] h1 (c & Hs & Ht & ->). wp_step. eapply wp_mono; [by apply Harr|]. intros b h1 (-> & Hun). wp_step.
    eapply wp_mono; [by apply HQ|]. intros e h' HQ'. by wp_step.
Qed.

(** From [forkret] to the first instruction of the child. *)
Lemma child_first_run kregs core0 h i q q2 T d intena w :
  same_frame q q2 → tf_ok (kern h) i q2 d → state q2 = Running → ram_wf (k_ram (kern h)) → held (kern h) = [LProc i] →
  uart_again (unlocked h) → external w →
  0 ≤ kstack q ∧ kstack q + PGSIZE ≤ USIZE_MAX → satp (csr h) = ksatp → tp (csr h) = hart → 0 ≤ ksatp < 2 ^ 64 → 0 ≤ hart < 2 ^ 64 →
  regs_ok kregs → kregs Rzero = 0 → pt_root T = pagetable q → tf_mapped T (trapframe q) →
  wp (forkret_body trampoline_start usertrap_fn uservec_fn intena w) h (λ e h',
    e = Some (ToUser TRAPFRAME (make_satp (pagetable q))) ∧ sepc (csr h') = word 24 d ∧
    wp (userret (tree_tr T)) (leave kregs TRAPFRAME (make_satp (pagetable q)) core0 h') (λ _ c',
      (∀ r, regs c' r = tf_reg r (Trapframe_at d)) ∧ ∃ d', user_mode c' h' i q2 T d')).
Proof.
  intros Hsame Htf Hrun Hwf Hh Hu Hw Hst Hsat Htp Hks Hhart Hkr Hkz Hroot Hmap. pose proof Htf as [F1 F2 F3 F4 F5].
  destruct (Hwf _ _ F4) as [Hok _]. eapply (forkret_enters h i q2); [done..|]. intros h1 [V1 [V2 V3] V4 V5 V6]. cbn [unlocked kern csr] in *.
  assert (held (kern h1) = []) as Hh1 by apply V1.
  assert (tf_ok (kern h1) i q2 d) as Htf1 by (split; [by rewrite V5|by rewrite V4|done|by rewrite V6|done]).
  eapply wp_mono; [eapply (ret_again trampoline_start usertrap_fn uservec_fn Hvec Hvec' h1 i q q2 d); [done|done|done|done]|].
  intros e h' ([A1 A2 A3 A4] & _ & Hwr). split_and!; [by rewrite A1|done|].
  eapply (resumed kregs core0 h' i q q2 T (csr h1) d (kern h1)); try done.
  - congruence.
  - congruence.
  - by rewrite V6.
  - by destruct Hwr as (r & -> & _).
  - eapply tf_written_ok; [exact Htf1|by apply length_ret_page|by eapply same_frame_written'].
Qed.

Lemma kinv_ram_wf m fl : kinv kernel_end m fl → ram_wf m.
Proof. intros Hk q d Hd. split; [by eapply ki_pages|]. apply (ki_ram _ _ _ Hk). by exists d. Qed.

(** The child [q] in slot [c] of the kernel [s'], when the scheduler has switched to
    it with its trapframe as [fork] left it, runs with the registers of [d] and a
    zero result, whether or not its lock was taken with interrupts on, and whatever
    external interrupts arrive before it gets there. *)
Definition child_runs (s' : kernel) (c : nat) (q : Process) (T : ptree) (d : list u8) : Prop :=
  ∀ h q2 core0 kregs intena w,
    same_frame q q2 → cpu_proc (kern h) = Some c → procs (kern h) !! c = Some q2 → state q2 = Running → held (kern h) = [LProc c] →
    ram_wf (k_ram (kern h)) → mem (k_ram (kern h)) !! trapframe q = mem (k_ram s') !! trapframe q → satp (csr h) = ksatp → tp (csr h) = hart →
    uart_again (unlocked h) → external w → regs_ok kregs → kregs Rzero = 0 →
    wp (forkret_body trampoline_start usertrap_fn uservec_fn intena w) h (λ e h',
      e = Some (ToUser TRAPFRAME (make_satp (pagetable q))) ∧ sepc (csr h') = word 24 d ∧
      wp (userret (tree_tr T)) (leave kregs TRAPFRAME (make_satp (pagetable q)) core0 h') (λ _ c',
        regs c' Ra0 = 0 ∧ (∀ r, r ≠ Ra0 → regs c' r = tf_reg r (Trapframe_at d)) ∧ ∃ d', user_mode c' h' c q2 T d')).

Lemma forked_runs s fl leak k i p T s' c q T' fl' d :
  0 < kernel_end → 0 ≤ ksatp < 2 ^ 64 → 0 ≤ hart < 2 ^ 64 → page_ok d → mem (k_ram s) !! trapframe p = Some d →
  forked kernel_end trampoline_start forkret s fl leak k i p T s' c q T' fl' → child_runs s' c q T' d.
Proof.
  intros Hend Hks Hhart Hok Hd Hfk h q2 core0 kregs intena w Hsame Hcpu Hq2 Hrun Hheld Hwf Hmem Hsat Htp Hua Hext Hkr Hkz.
  destruct (fk_tf _ _ _ _ _ _ _ _ _ _ _ _ _ _ _ Hfk) as [Htf Hkst]. pose proof (ram_page_addr _ Hend _ Htf) as Hta.
  destruct (fk_regs _ _ _ _ _ _ _ _ _ _ _ _ _ _ _ Hfk) as (d0 & Hd0 & Hdq). rewrite Hd in Hd0. injection Hd0 as <-.
  pose proof (fk_child _ _ _ _ _ _ _ _ _ _ _ _ _ _ _ Hfk) as Hq.
  assert (pagetable q = pt_root T') as Hroot by (by rewrite Hq).
  assert (tf_mapped T' (trapframe q)) as Hmap.
  { split; [|done]. rewrite (fk_fixed _ _ _ _ _ _ _ _ _ _ _ _ _ _ _ Hfk) by (by right). apply lookup_insert_eq. }
  assert (length (fork_trapframe d zero_page) = 4096%nat) as Hlen.
  { apply (fork_trapframe_ok d zero_page Hok zero_page_ok). }
  assert (0 ≤ kstack q ∧ kstack q + PGSIZE ≤ USIZE_MAX) as Hst.
  { destruct Hkst as [[? ?] _]. change USIZE_MAX with (2 ^ 64 - 1). unfold PHYSTOP in *. mem_lia. }
  eapply wp_mono; [eapply (child_first_run kregs core0 h c q q2 T' (fork_trapframe d zero_page)); try done|].
  - destruct Hsame as (S1 & S2 & S3). split; [done|done|rewrite S1; apply Hta|by rewrite S1, Hmem|done].
  - intros e h' (-> & Hpc & Hret). split_and!; [done|by rewrite Hpc, fork_page_pc|].
    eapply wp_mono; [exact Hret|]. intros [] c' [Hr Hu]. split_and!; [by rewrite Hr, fork_page_regs|intros r Hne|done].
    by rewrite Hr, fork_page_regs, decide_False.
Qed.

(** C12: the child of a [fork] starts where its parent was.  The new process waits
    in the scheduler with a context that leads to [forkret] on its own kernel
    stack; when it is dispatched with its trapframe untouched, [forkret] and
    [userret] bring it to the instruction the parent returns to, in its own
    address space, with every register of the parent but [a0], which is zero, and
    ready for its own traps.  [forkret] may put interrupts on before [usertrapret]
    puts them off; the claim holds for any external interrupts that arrive in
    between, and assumes that no timer interrupt does: it would take the processor
    away with the program counter in [sepc] only ([kernel_preempted_forgets]). *)
Theorem forked_child_runs s Ts fl leak i p T :
  0 < kernel_end → trampoline_start mod PGSIZE = 0 → 0 ≤ trampoline_start < PHYSTOP → 0 ≤ ksatp < 2 ^ 64 → 0 ≤ hart < 2 ^ 64 →
  procs_ok kernel_end s Ts fl leak → Z.of_nat (base.size leak) < 2 ^ 63 →
  cpu_proc s = Some i → procs s !! i = Some p → Ts !! i = Some (Some T) →
  wp (fork kernel_end trampoline_start forkret) s (λ r s', r = None ∨
    ∃ c q T' d, r = Some (pid q) ∧ procs s' !! c = Some q ∧ state q = Runnable ∧
      context q = mkContext forkret (kstack q + PGSIZE) (replicate 12 0) ∧
      mem (k_ram s) !! trapframe p = Some d ∧ child_runs s' c q T' d).
Proof.
  intros Hend Ht1 Ht2 Hks Hhart Hok Hleak Hi Hp HT. destruct (procs_forkable kernel_end s Ts fl leak i Hok Hleak Hi) as (k & p' & T' & HT' & Hf).
  pose proof (fb_proc _ _ _ _ _ _ _ _ Hf) as Hp'. simplify_eq.
  eapply wp_mono; [by apply (fork_spec kernel_end Hend trampoline_start Ht1 Ht2 forkret s fl leak k i p T Hf)|].
  intros [n|] s'; [|by left]. intros (-> & _ & c & q & T' & fl' & Hfk). right.
  destruct (fk_regs _ _ _ _ _ _ _ _ _ _ _ _ _ _ _ Hfk) as (d & Hd & _). pose proof (fk_child _ _ _ _ _ _ _ _ _ _ _ _ _ _ _ Hfk) as Hq.
  pose proof (pm_kinv _ _ _ _ _ (fb_mem _ _ _ _ _ _ _ _ Hf)) as Hk.
  exists c, q, T', d. split_and!; [by rewrite Hq| |by rewrite Hq|by rewrite Hq|done|].
  - rewrite (fk_procs _ _ _ _ _ _ _ _ _ _ _ _ _ _ _ Hfk). apply list_lookup_insert_eq.
    eapply lookup_lt_Some. apply (fk_slot _ _ _ _ _ _ _ _ _ _ _ _ _ _ _ Hfk).
  - eapply forked_runs; try done. by eapply (ki_pages _ _ _ Hk).
Qed.
End ecall.

(** ** Witnesses *)

Lemma vec_ok : KERNBASE ≤ KERNBASE + 32 ∧ KERNBASE + 32 - KERNBASE < PGSIZE ∧ 0 ≤ 128 < 2 ^ 64 ∧ 0 ≤ 7 < 2 ^ 64 ∧ 0 ≤ 0 < 2 ^ 64.
Proof. by split_and!. Qed.

Lemma forked_child_runs_witness : ∃ p,
  wp (fork small_end KERNBASE 0) init40 (λ r s', r = None ∨
    ∃ c q T' d, r = Some (pid q) ∧ procs s' !! c = Some q ∧ state q = Runnable ∧
      context q = mkContext 0 (kstack q + PGSIZE) (replicate 12 0) ∧
      mem (k_ram init40) !! trapframe p = Some d ∧ child_runs KERNBASE 128 (KERNBASE + 32) 7 0 s' c q T' d).
Proof.
  destruct init40_running as (Ts & fl & p & T & Hok & Hp & HT). exists p.
  destruct vec_ok as (V1 & V2 & V3 & V4 & V5).
  apply (forked_child_runs small_end KERNBASE 0 128 (KERNBASE + 32) 7 0 V1 V2 V3 init40 Ts fl root_leak 0 p T);
    [exact small_end_pos|exact (proj1 kernbase_ok)|exact (proj2 kernbase_ok)|exact V4|exact V5|exact Hok|exact (proj1 root_leak_small)|exact init40_cpu|exact Hp|exact HT].
Defined.

(** Process 1 asks for its number. *)
Definition ecall_page : list u8 := splice 16 (le_bytes 8 128) (splice 8 (le_bytes 8 (PGSIZE + PGSIZE)) (splice 0 (le_bytes 8 7) zero_page)).
Definition ecall_kernel : kernel := set_k_ram (mkMachine (<[ram_end 4 := ecall_page]> ∅) 0 []) tf_kernel.
Definition ecall_hart : hartk := mkHartk (csr (trap_demo 8)) (dev (trap_demo 8)) ecall_kernel.
Definition ecall_tree : ptree := mkPtree (pagetable tf_proc_demo) ∅ ∅ {[TRAPFRAME_VPN := leaf_bits (ram_end 4) (Z.lor PTE_R PTE_W)]}.
Definition ecall_regs : reg → u64 := upd Ra7 SYS_GETPID (λ r, if decide (r = Rzero) then 0 else 1000 + tf_off r).
Definition ecall_core : core := mkCore ecall_regs TRAPFRAME (make_satp (pagetable tf_proc_demo)) (k_ram ecall_kernel).

Lemma ecall_user : user_mode 128 7 0 ecall_core ecall_hart 1 tf_proc_demo ecall_tree ecall_page.
Proof.
  split.
  - intros r. by destruct r; vm_compute.
  - by vm_compute.
  - intros q d. cbn. intros [[<- <-]|[_ Hx]]%lookup_insert_Some; [|by rewrite lookup_empty in Hx].
    split; [|by vm_compute]. unfold ecall_page. repeat (apply store64_page_ok; [|lia]). apply zero_page_ok.
  - reflexivity.
  - reflexivity.
  - reflexivity.
  - split; [apply lookup_singleton_eq|split; by vm_compute].
  - reflexivity.
  - split; by vm_compute.
  - reflexivity.
  - by vm_compute.
  - by vm_compute.
Qed.

Lemma ecall_returns_witness :
  wp (uservec (tree_tr ecall_tree)) ecall_core (λ pc c1, pc = 128 ∧ regs c1 Rsp = PGSIZE + PGSIZE ∧
    wp (usertrap (ram_end 4) 0 0 64 128 32 [0; 0] [0; 0]) (enter c1 ecall_hart) (λ e s', ∃ v p2 (k2 : kernel), v = 1 ∧
      e = ToUser TRAPFRAME (make_satp (pagetable tf_proc_demo)) ∧ sepc (csr s') = 4100 ∧
      ∀ kregs T2, regs_ok kregs → kregs Rzero = 0 → pt_root T2 = pagetable tf_proc_demo → tf_mapped T2 (ram_end 4) →
        wp (userret (tree_tr T2)) (leave kregs TRAPFRAME (make_satp (pagetable tf_proc_demo)) c1 s') (λ _ c',
          regs c' Ra0 = v mod 2 ^ 64 ∧ (∀ r, r ≠ Ra0 → regs c' r = ecall_regs r) ∧ ∃ d', user_mode 128 7 0 c' s' 1 p2 T2 d'))).
Proof.
  apply (ecall_returns (ram_end 4) 0 0 64 128 32 7 0 [0; 0] [0; 0] ltac:(done) ltac:(done) ltac:(done) ecall_core ecall_hart 1 tf_proc_demo
           ecall_tree ecall_page (λ v _, v = 1)); [apply ecall_user|by vm_compute|done|by vm_compute|by vm_compute|by vm_compute|by vm_compute|].
  intros k1 d1 _ Htf Hwf Hh.
  change (wp (returns sys_getpid) k1 (λ r0 k2, ∃ v p2, r0 = Return (SReturn v) ∧ same_frame tf_proc_demo p2 ∧
    tf_ok k2 1 p2 d1 ∧ held k2 = [] ∧ ram_wf (k_ram k2) ∧ v = 1)).
  unfold returns, sys_getpid. wp_step. wp_step. eapply (wp_curproc 1 tf_proc_demo); [apply Htf|apply Htf|]. wp_steps.
  by exists 1, tf_proc_demo.
Defined.

(** The window of [forkret] on the code.  An external interrupt at 512 is served and
    the process reaches user mode at its saved program counter 4096; a timer
    interrupt there takes the processor away, and once another process has gone back
    to user mode at 77, this one goes on at 77, in user mode. *)
Definition window_hart : hartk :=
  mkHartk (mkCsr 0 64 0 0 0 7 0 0) (mkDev ∅ [UART_IRQ] [] 5 0)
    (set_held [LProc 1] (set_k_ram (mkMachine (<[ram_end 4 := splice 24 (le_bytes 8 4096) zero_page]> ∅) 0 []) tf_kernel)).

Example forkret_window_run :
  let other (s : hartk) := mkHartk (mkCsr 32 64 77 8 0 7 0 0) (dev s) (set_held [LProc 1] (kern s)) in
  match forkret_body 0 128 32 true [(512, 2 ^ 63 + 9)] window_hart, forkret_body 0 128 32 true [(512, 2 ^ 63 + 5)] window_hart with
  | Ok (Some _, s), Ok (None, s') => Some (sepc (csr s), fst <$> (match kernel_resume (other s') with Ok r => Some r | Fault _ => None end))
  | _, _ => None
  end = Some (4096, Some (77, false)).
Proof. by vm_compute. Qed.
