(* ===== verification/Boot.v ===== *)
(** * Boot (src/src/main.rs, console.rs: init and _print, vm.rs: kvminithart, cpu.rs)

    What the kernel does between its first instructions and the scheduler.  The
    ELF image of init, the programs of the disk image and the readme are the
    build's. *)

From S2P Require Import Prelude Ring Spinlock FsBase Icache Kalloc Vm PageTable UserMem Space Kvm Kernel Sched Pipe Console File Proc ProcMem Exec Syscall Descr Exit Trap TrapSpec Asm Ecall.

(** ** Console *)

(** [uart.init] empties the queues of the device; the bytes already sent stay sent. *)
Definition console_init : M kernel unit :=
  acquire LConsole;;
  modify (λ s, put_con (mkUart [] (tx (uart (console s)))) (input (console s)) s);;
  release LConsole.

(** [write_str] of the console, for all pieces of a formatted message. *)
Definition con_write_str (bs : list u8) : M kernel unit := for_fold bs (λ b _, con_putc b) tt.
Definition _print (bs : list u8) : M kernel unit := acquire LConsole;; con_write_str bs;; release LConsole.
Definition println (bs : list u8) : M kernel unit := _print (bs ++ [NL]).

(** Messages of a panic: a driver of its own, without the lock. *)
Definition _emergency_print (bs : list u8) : M kernel unit := for_fold bs (λ b _, con_putc b) tt.
Definition emergency_println (bs : list u8) : M kernel unit := _emergency_print (bs ++ [NL]).

(** The panic handler, before it stops for ever. *)
Definition panic_handler (info : list u8) : M kernel unit := emergency_println ([NL] ++ bytes_of_string "!!! KERNEL PANIC: " ++ info).

(** ** Control registers *)

Definition w_satp (x : u64) : M hartk unit :=
  modify (λ s, let c := csr s in
    set_csr (mkCsr (sstatus c) (stvec c) (sepc c) (scause c) (stval c) x (tp c) (sie c)) s).
(** Translations are not cached in the model. *)
Definition sfence_vma : M hartk unit := mret tt.
Definition kvminithart (pt : usize) : M hartk unit := sfence_vma;; w_satp (make_satp pt);; sfence_vma.

(** [csrs sstatus, SIE] *)
Definition boot_intr_on : M hartk unit := x ← gets (λ s, sstatus (csr s)); w_sstatus (Z.lor x 2).

Section boot.
Context (kernel_end trampoline_start etext erodata forkret trap_entry : usize).
Context (image : string → list u8) (readme init_elf : list u8).

(** [kmain] until paging is on. *)
Definition kmain_paging (hartid dtb : usize) : M hartk usize :=
  in_kernel console_init;;
  trap_init trap_entry;;
  timer_init;;
  plic_init;;
  in_kernel (in_ram (kinit kernel_end));;
  in_kernel (println (bytes_of_string "hartid = " ++ digits 20 hartid ++ bytes_of_string ", dtb = " ++ hex dtb));;
  in_kernel (println (bytes_of_string "trap initialized"));;
  in_kernel (println (bytes_of_string "timer initialized"));;
  kpt ← in_kernel (in_ram (kvmmake trampoline_start etext erodata));
  kvminithart kpt;;
  in_kernel (println (bytes_of_string "paging on"));;
  mret kpt.

(** [kmain] up to the call of [scheduler]. *)
Definition kmain (hartid dtb : usize) : M hartk unit :=
  _ ← kmain_paging hartid dtb;
  in_kernel (in_fs (fs_init image readme));;
  boot_intr_on;;
  _ ← in_kernel (userinit kernel_end trampoline_start forkret init_elf);
  mret tt.

(** What the console shows by then. *)
Definition boot_messages (hartid dtb : usize) : list u8 :=
  bytes_of_string "stvec = " ++ hex trap_entry ++ [NL] ++
  (bytes_of_string "hartid = " ++ digits 20 hartid ++ bytes_of_string ", dtb = " ++ hex dtb) ++ [NL] ++
  bytes_of_string "trap initialized" ++ [NL] ++ bytes_of_string "timer initialized" ++ [NL] ++ bytes_of_string "paging on" ++ [NL].

(** ** Lemmas *)

Definition say (bs : list u8) (k : kernel) : kernel := put_con (mkUart (rx (uart (console k))) (tx (uart (console k)) ++ bs)) (input (console k)) k.

Lemma say_tx bs k : tx (uart (console (say bs k))) = tx (uart (console k)) ++ bs.
Proof. done. Qed.

Lemma only_ram_console k k' : only_ram k k' → console k' = console k.
Proof. intros ->. done. Qed.

Lemma println_spec bs k : held k = [] → wp (println bs) k (λ _ k', k' = say (bs ++ [NL]) k).
Proof. apply console_write_spec. Qed.

Lemma emergency_spec bs k : wp (_emergency_print bs) k (λ _ k', k' = say bs k).
Proof. apply con_write_bytes_spec. Qed.

(** A panic is reported whatever locks are held. *)
Lemma panic_reports info k :
  wp (panic_handler info) k (λ _ k', held k' = held k ∧
    tx (uart (console k')) = tx (uart (console k)) ++ (([NL] ++ bytes_of_string "!!! KERNEL PANIC: " ++ info) ++ [NL])).
Proof.
  eapply wp_mono; [apply (emergency_spec (([NL] ++ bytes_of_string "!!! KERNEL PANIC: " ++ info) ++ [NL]))|].
  intros [] k' ->. split; [reflexivity|apply say_tx].
Qed.

Lemma wp_println bs s (Q : unit → hartk → Prop) :
  held (kern s) = [] → Q tt (mkHartk (csr s) (dev s) (say (bs ++ [NL]) (kern s))) → wp (in_kernel (println bs)) s Q.
Proof. intros Hh HQ. apply wp_in_kernel. eapply wp_mono; [by apply println_spec|]. by intros [] k ->. Qed.

(** A computation on memory, under the other components. *)
Lemma wp_hart_ram {A} (m : M machine A) s (Q : A → hartk → Prop) :
  held (kern s) = [] →
  wp m (ram_of (kern s)) (λ a r, held r = [] ∧ ∀ k, only_ram (kern s) k → ram_of k = r → Q a (mkHartk (csr s) (dev s) k)) →
  wp (in_kernel (in_ram m)) s Q.
Proof.
  intros Hh Hm. apply wp_in_kernel, wp_ram. eapply wp_mono; [exact Hm|]. intros a r [Hr HQ]. split; [by rewrite Hr; cbn in Hh |-*; congruence|done].
Qed.

Lemma console_init_spec k :
  held k = [] → wp console_init k (λ _ k', k' = put_con (mkUart [] (tx (uart (console k)))) (input (console k)) k).
Proof.
  intros Hh. unfold console_init. wp_step. apply wp_acquire; [rewrite Hh; apply not_elem_of_nil|]. wp_step. wp_step.
  eapply wp_release; [done|cbn in *; rewrite Hh; apply not_elem_of_nil|]. destruct k. cbn in *. by subst.
Qed.

(** Traps, timer and interrupt controller. *)
Lemma wp_trap_init c d k (Q : unit → hartk → Prop) :
  held k = [] →
  Q tt (mkHartk (mkCsr (sstatus c) trap_entry (sepc c) (scause c) (stval c) (satp c) (tp c) (sie c)) d
    (say (bytes_of_string "stvec = " ++ hex trap_entry ++ [NL]) k)) →
  wp (trap_init trap_entry) (mkHartk c d k) Q.
Proof.
  intros Hh HQ. unfold trap_init, w_stvec. wp_step. wp_step. wp_step. wp_step. cbn [csr set_csr stvec kern dev].
  apply wp_in_kernel. cbn [kern]. eapply wp_mono; [by apply console_write_spec|]. by intros [] k1 ->.
Qed.

Definition sie_or (bits : Z) (c : Csr) : Csr :=
  mkCsr (sstatus c) (stvec c) (sepc c) (scause c) (stval c) (satp c) (tp c) (Z.lor (sie c) bits).

Lemma wp_timer_init c d k (Q : unit → hartk → Prop) :
  0 ≤ now d → now d + INTERVAL ≤ USIZE_MAX →
  (∀ d', deadline d' = now d + INTERVAL → plic_regs d' = plic_regs d → Q tt (mkHartk (sie_or 32 c) d' k)) → wp timer_init (mkHartk c d k) Q.
Proof.
  intros Hnow Hmax HQ. unfold timer_init, schedule_next, sbi_set_timer, set_sie. wp_step. wp_step. wp_step. cbn [dev now].
  wp_step. apply wp_add_at; [cbn [dev now]; unfold INTERVAL in *; lia|]. wp_step. wp_step. by apply HQ.
Qed.

(** The serial device may interrupt: it has a priority above the threshold and is
    enabled beside the sources that were; nothing else was written. *)
Definition plic_ready (regs regs' : gmap Z u32) : Prop :=
  regs' !! plic_priority UART_IRQ = Some 1 ∧ regs' !! PLIC_STHRESHOLD = Some 0 ∧
  regs' !! PLIC_SENABLE = Some (Z.lor (default 0 (regs !! PLIC_SENABLE)) (Z.shiftl 1 UART_IRQ)) ∧
  ∀ a, a ≠ plic_priority UART_IRQ → a ≠ PLIC_STHRESHOLD → a ≠ PLIC_SENABLE → regs' !! a = regs !! a.

Lemma wp_plic_init c d k (Q : unit → hartk → Prop) :
  (∀ d', deadline d' = deadline d → plic_ready (plic_regs d) (plic_regs d') → Q tt (mkHartk (sie_or 512 c) d' k)) →
  wp plic_init (mkHartk c d k) Q.
Proof.
  intros HQ. unfold plic_init, plic_write, plic_read, set_sie. wp_steps. apply HQ; [done|]. cbn [plic_regs dev set_dev].
  rewrite !(lookup_insert_ne _ _ PLIC_SENABLE) by done. split_and!.
  - by rewrite lookup_insert_ne, lookup_insert_ne, lookup_insert_eq.
  - by rewrite lookup_insert_ne, lookup_insert_eq.
  - by rewrite lookup_insert_eq.
  - intros a H1 H2 H3. by rewrite !lookup_insert_ne.
Qed.

Local Abbreviation layout := (layout kernel_end trampoline_start etext erodata).
Local Abbreviation kernel_leaves := (kernel_leaves trampoline_start etext erodata).

(** C21: the kernel boots.  When the image is laid out as the linker script says and
    at least 73 pages of memory are left above it, [kmain] gets as far as turning
    paging on without a panic: traps go to [trap_entry], timer and device
    interrupts are enabled in the hart and the first tick is programmed, the
    interrupt controller lets the serial device through and is otherwise as it
    was, nothing received before is left in the queue of the serial device, the
    console shows the messages in order, the hart runs on the kernel page table,
    and every page above the kernel is one of its tables or free. *)
Theorem boot_turns_paging_on h hartid dtb :
  layout → kernel_end mod PGSIZE = 0 → kernel_end + PGSIZE * 73 ≤ PHYSTOP →
  held (kern h) = [] → kinv kernel_end (ram_of (kern h)) [] → 0 ≤ now (dev h) → now (dev h) + INTERVAL ≤ USIZE_MAX →
  wp (kmain_paging hartid dtb) h (λ pt h',
    satp (csr h') = make_satp pt ∧ stvec (csr h') = trap_entry ∧ sie (csr h') = Z.lor (Z.lor (sie (csr h)) 32) 512 ∧
    deadline (dev h') = now (dev h) + INTERVAL ∧ plic_ready (plic_regs (dev h)) (plic_regs (dev h')) ∧
    held (kern h') = [] ∧ procs (kern h') = procs (kern h) ∧ rx (uart (console (kern h'))) = [] ∧
    tx (uart (console (kern h'))) = tx (uart (console (kern h))) ++ boot_messages hartid dtb ∧
    ∃ T fl, pt_own kernel_end (ram_of (kern h')) T fl ∧ pt_root T = pt ∧ L T = kernel_leaves ∧ ∀ q, q ∈ tables T ++ fl ↔ ram_page kernel_end q).
Proof.
  destruct h as [c d k]. cbn [csr dev kern]. intros Hlay Hal Hroom Hh Hk Hnow Hmax.
  assert (0 < kernel_end ∧ kernel_end ≤ PHYSTOP) as [Hend Hend']. { destruct Hlay as [[? ?] [? ?] [? ?] _]. unfold KERNBASE in *. mem_lia. }
  unfold kmain_paging. wp_step. apply wp_in_kernel. cbn [kern]. eapply wp_mono; [by apply console_init_spec|]. intros [] k1 Hk1. cbn [csr dev].
  assert (held k1 = [] ∧ procs k1 = procs k ∧ ram_of k1 = ram_of k ∧ tx (uart (console k1)) = tx (uart (console k)) ∧ rx (uart (console k1)) = [])
    as (Hh1 & Hp1 & Hr1 & Ht1 & Hx1) by (by rewrite Hk1).
  clear Hk1. wp_step. apply wp_trap_init; [done|]. wp_step. apply wp_timer_init; [done|done|]. intros d2 Hd2 Hg2. wp_step. apply wp_plic_init. intros d3 Hd3 Hg3. rewrite Hg2 in Hg3.
  set (c3 := sie_or 512 _). set (k3 := say _ k1).
  wp_step. apply wp_hart_ram; [done|]. cbn [kern csr dev]. change (ram_of k3) with (ram_of k1). rewrite Hr1.
  eapply wp_mono; [by apply (kinit_frees_all kernel_end Hend Hend')|]. intros [] m1 (Hhm & fl & Hk1 & Hall). split; [by rewrite Hhm; cbn in *|].
  intros k4 O4 Hm4. assert (held k4 = []) as Hh4 by (by rewrite O4).
  wp_step. apply wp_println; [done|]. cbn [csr dev kern]. wp_step. apply wp_println; [done|]. cbn [csr dev kern].
  wp_step. apply wp_println; [done|]. cbn [csr dev kern].
  set (k5 := say _ (say _ (say _ k4))). assert (ram_of k5 = m1) as Hm5 by (rewrite <-Hm4; done).
  wp_step. apply wp_hart_ram; [done|]. cbn [kern csr dev]. rewrite Hm5.
  eapply wp_mono; [apply (kvmmake_spec kernel_end trampoline_start etext erodata Hlay m1 fl Hk1)|].
  { apply (free_pages_length kernel_end); try done. by apply (ki_nodup _ _ _ Hk1). }
  intros pt m2 (T & fl' & [[B1 B2 B3 B4 B5] Hroot _ _]). split; [rewrite B4, Hhm; cbn in *; by rewrite Hh|]. intros k6 O6 Hm6.
  assert (held k6 = []) as Hh6 by (by rewrite O6).
  wp_step. unfold kvminithart, sfence_vma, w_satp. wp_step. wp_step. wp_step. wp_step. wp_step. cbn [csr dev kern set_csr].
  wp_step. apply wp_println; [done|]. cbn [csr dev kern]. wp_step. cbn [csr dev kern set_csr satp stvec sie].
  split_and!; [done|done|done|by rewrite Hd3, Hd2|done|done| | | |].
  - rewrite <-Hp1. change (procs k6 = procs k1). by rewrite O6; cbn; rewrite O4.
  - change (rx (uart (console k6)) = []). rewrite (only_ram_console _ _ O6). change (rx (uart (console k4)) = []).
    by rewrite (only_ram_console _ _ O4).
  - rewrite say_tx, (only_ram_console _ _ O6). unfold k5. rewrite !say_tx, (only_ram_console _ _ O4). unfold k3. rewrite say_tx, Ht1.
    unfold boot_messages. by rewrite <-!app_assoc.
  - exists T, fl'. split_and!; [|done|done|].
    + change (ram_of (say _ k6)) with (ram_of k6). by rewrite Hm6.
    + intros q. by rewrite B3, Hall.
Qed.

(** ** The kernel page table under the assembly *)

Lemma RW_allows p : page_addr p → (Z.land (leaf_bits p RW) 6 =? 6) = true.
Proof. intros Hp. by rewrite land_leaf_bits. Qed.

(** Data, stacks and free memory are where their addresses say. *)
Lemma kernel_tr_identity T a : layout → L T = kernel_leaves → erodata ≤ a < PHYSTOP → tree_tr T (make_satp (pt_root T)) a = Some a.
Proof.
  intros Hlay HL Ha. destruct (layout_pages _ _ _ _ Hlay) as (x & y & Ex & Ey & Hxy & Hy). unfold tree_tr. rewrite Z.eqb_refl, HL.
  assert (y ≤ vpn a < 557056) as Hv.
  { unfold vpn. split; [apply Z.div_le_lower_bound; mem_lia|apply Z.div_lt_upper_bound; [lia|]; unfold PHYSTOP in *; mem_lia]. }
  assert ((erodata / PGSIZE, (PHYSTOP - erodata) / PGSIZE, RW) ∈ kernel_regions etext erodata) as Hr by (repeat (apply list_elem_of_here || apply list_elem_of_further)).
  assert (erodata / PGSIZE = y ∧ (PHYSTOP - erodata) / PGSIZE = 557056 - y) as [E1 E2].
  { rewrite Ey. change PHYSTOP with (PGSIZE * 557056). by rewrite <-Z.mul_sub_distr_l, !(Z.mul_comm PGSIZE), !Z.div_mul by done. }
  rewrite E1, E2 in Hr. destruct (region_page _ _ _ _ Hlay y (557056 - y) RW (vpn a) Hr ltac:(lia)) as (Hp & _).
  assert (kernel_leaves !! vpn a = Some (leaf_bits (PGSIZE * vpn a) RW)) as ->.
  { unfold kernel_leaves. rewrite lookup_map_range, decide_False by vpn_lia.
    apply (identity_region _ _ y (557056 - y)); [done|lia|]. intros v' n' f' Hr' Hw'. by eapply (kernel_regions_apart _ _ _ _ Hlay (vpn a) y); [exact Hr|exact Hr'|lia|]. }
  cbn [mbind option_bind]. rewrite RW_allows by done. destruct (leaf_entry (PGSIZE * vpn a) RW Hp ltac:(done)) as (_ & -> & _).
  f_equal. unfold vpn. change PGSIZE with 4096. pose proof (Z.div_mod a 4096 ltac:(lia)). lia.
Qed.

(** So [swtch] and [trap_entry] find contexts and frames in place. *)
Lemma kernel_context T a m : layout → L T = kernel_leaves → erodata ≤ a → a + CTX_SIZE ≤ PHYSTOP → a mod 8 = 0 → block_mapped a CTX_SIZE m →
  context_at (tree_tr T) (make_satp (pt_root T)) a m.
Proof.
  intros Hlay HL Ha Ha' H8 Hm. assert (0 ≤ erodata) by (destruct (layout_pages _ _ _ _ Hlay) as (x & y & Ex & Ey & Hxy & Hy); mem_lia).
  split; [|split_and!; [lia| |done]|done].
  - intros off Ho. apply kernel_tr_identity; [done|done|lia].
  - change (2 ^ 64) with 18446744073709551616. unfold PHYSTOP in *. lia.
Qed.
End boot.

(** ** Witnesses: 100 pages above a kernel of 24 *)

Definition boot_text : Z := KERNBASE + 16 * PGSIZE.
Definition boot_rodata : Z := KERNBASE + 24 * PGSIZE.

Lemma boot_layout : layout (ram_end 100) KERNBASE boot_text boot_rodata.
Proof. split; by split. Qed.

Definition boot_hart : hartk := mkHartk (mkCsr 0 0 0 0 0 0 0 0) (mkDev ∅ [] [] 5 0) (set_k_ram (zero_machine 100) tf_kernel).

Lemma boot_ram : kinv (ram_end 100) (ram_of (kern boot_hart)) [].
Proof. exact (zero_kinv 100 ltac:(lia)). Qed.

Lemma boot_turns_paging_on_witness :
  wp (kmain_paging (ram_end 100) KERNBASE boot_text boot_rodata 64 0 4096) boot_hart (λ pt h',
    satp (csr h') = make_satp pt ∧ stvec (csr h') = 64 ∧ sie (csr h') = Z.lor (Z.lor 0 32) 512 ∧
    deadline (dev h') = 5 + INTERVAL ∧ plic_ready ∅ (plic_regs (dev h')) ∧
    held (kern h') = [] ∧ procs (kern h') = procs tf_kernel ∧ rx (uart (console (kern h'))) = [] ∧
    tx (uart (console (kern h'))) = tx (uart (console tf_kernel)) ++ boot_messages 64 0 4096 ∧
    ∃ T fl, pt_own (ram_end 100) (ram_of (kern h')) T fl ∧ pt_root T = pt ∧ L T = kernel_leaves KERNBASE boot_text boot_rodata ∧
      ∀ q, q ∈ tables T ++ fl ↔ ram_page (ram_end 100) q).
Proof.
  apply (boot_turns_paging_on (ram_end 100) KERNBASE boot_text boot_rodata 64 boot_hart 0 4096);
    [exact boot_layout|reflexivity|by apply Z.leb_le|reflexivity|exact boot_ram|by apply Z.leb_le|by apply Z.leb_le].
Defined.

Example boot_messages_demo :
  boot_messages 64 0 4096 =
  bytes_of_string "stvec = 0x40" ++ [NL] ++ bytes_of_string "hartid = 0, dtb = 0x1000" ++ [NL] ++ bytes_of_string "trap initialized" ++ [NL] ++
  bytes_of_string "timer initialized" ++ [NL] ++ bytes_of_string "paging on" ++ [NL].
Proof. by vm_compute. Qed.
