(* ===== verification/Ualloc.v ===== *)
(** * The user-level allocator (src/user/src/allocator.rs)

    A first-fit allocator over a list of free blocks sorted by address and
    threaded through the blocks themselves; neighbouring free blocks are merged.
    User programs are built in the release profile, so sums wrap around. *)

From stdpp Require Import sorting.
From S2P Require Import Prelude.

(** ** State

    The words of the heap (aligned 64-bit cells by address), [UserAllocator::head]
    and the program break, below which the words exist. *)

Record ustate := mkUser { cells : gmap Z u64; u_head : usize; brk : usize }.

Definition set_cells (c : gmap Z u64) (s : ustate) : ustate := mkUser c (u_head s) (brk s).
Definition set_u_head (h : usize) (s : ustate) : ustate := mkUser (cells s) h (brk s).

Lemma set_cells_twice m m' s : set_cells m (set_cells m' s) = set_cells m s.
Proof. done. Qed.

Lemma cells_set m s : cells (set_cells m s) = m.
Proof. done. Qed.

Definition load (a : usize) : M ustate u64 := m ← gets cells; expect (m !! a) "load page fault".
Definition store (a : usize) (v : u64) : M ustate unit :=
  _ ← load a; modify (λ s, set_cells (<[a := v]> (cells s)) s).

Definition wadd (a b : usize) : usize := (a + b) mod 2 ^ 64.

(** ** Operations *)

(** Fields of [Header]. *)
Definition size_of (h : usize) : M ustate usize := load h.
Definition set_size (h v : usize) : M ustate unit := store h v.
Definition next_ptr (h : usize) : M ustate usize := load (wadd h 8).
Definition set_next (h v : usize) : M ustate unit := store (wadd h 8) v.

Definition ALIGN : usize := 16.
Definition align_up_const (x align : usize) : usize := Z.ldiff (x + align - 1) (align - 1).
Definition HEADER_SIZE : usize := align_up_const 16 ALIGN.
Definition MIN_PAYLOAD : usize := ALIGN.
Definition MIN_BLOCK_SIZE : usize := HEADER_SIZE + MIN_PAYLOAD.

Definition align_up (x align : usize) : option usize :=
  (λ v, Z.ldiff v (align - 1)) <$> checked USIZE_MAX (x + (align - 1)).

Definition block_end (b : usize) : M ustate usize := n ← size_of b; mret (wadd b n).

(** The head becomes [x] when there is no previous block, its [next] otherwise. *)
Definition set_link (prev x : usize) : M ustate unit :=
  if prev =? 0 then modify (set_u_head x) else set_next prev x.

(** A list of blocks never has more blocks than there are words. *)
Definition list_fuel : M ustate nat := gets (λ s, S (size (cells s))).

Definition alloc_step (needed : usize) (st : usize * usize) : M ustate (usize * usize + option usize) :=
  let '(prev, cur) := st in
  if cur =? 0 then mret (inr None)
  else
    cur_size ← size_of cur;
    if needed <=? cur_size then
      let remaining := cur_size - needed in
      (if MIN_BLOCK_SIZE <=? remaining then
         let rest := wadd cur needed in
         set_size rest remaining;;
         n ← next_ptr cur;
         set_next rest n;;
         set_size cur needed;;
         set_link prev rest
       else
         n ← next_ptr cur;
         set_link prev n);;
      set_next cur 0;;
      mret (inr (Some (wadd cur HEADER_SIZE)))
    else
      n ← next_ptr cur;
      mret (inl (cur, n)).

Definition alloc_from_freelist (needed : usize) : M ustate (option usize) :=
  h ← gets u_head;
  fuel ← list_fuel;
  while_fuel fuel (alloc_step needed) (0, h).

(** The search for the place of [block] in address order. *)
Definition find_place (block : usize) (st : usize * usize) : M ustate (usize * usize + usize * usize) :=
  let '(prev, cur) := st in
  if negb (cur =? 0) && (cur <? block) then n ← next_ptr cur; mret (inl (cur, n))
  else mret (inr (prev, cur)).

(** Merge block [b] with its successor [c]. *)
Definition absorb (b c : usize) : M ustate unit :=
  x ← size_of b;
  y ← size_of c;
  set_size b (wadd x y);;
  n ← next_ptr c;
  set_next b n.

Definition merge_next (merged cur : usize) : M ustate unit :=
  if cur =? 0 then mret tt
  else
    e ← block_end merged;
    if e =? cur then absorb merged cur else mret tt.

Definition insert_free_block (block : usize) : M ustate unit :=
  h ← gets u_head;
  fuel ← list_fuel;
  '(prev, cur) ← while_fuel fuel (find_place block) (0, h);
  set_next block cur;;
  set_link prev block;;
  merged ← (if prev =? 0 then mret block
            else
              e ← block_end prev;
              if e =? block then absorb prev block;; mret prev else mret block);
  merge_next merged cur.

Section allocator.
(** The [sbrk] system call. *)
Context (sbrk : isize → M ustate isize).

Definition grow_heap (needed : usize) : M ustate (option unit) :=
  match align_up needed 4096 with
  | None => mret None
  | Some total =>
      if ISIZE_MAX <? total then mret None
      else
        base ← sbrk total;
        if base <? 0 then mret None
        else
          set_size base total;;
          set_next base 0;;
          insert_free_block base;;
          mret (Some tt)
  end.

(** The size of the block for a request, when it is representable. *)
Definition request (size : usize) : option usize :=
  payload_size ← align_up (Z.max size 1) ALIGN;
  checked USIZE_MAX (HEADER_SIZE + payload_size).

Definition alloc (size align : usize) : M ustate usize :=
  if ALIGN <? align then mret 0
  else
    match request size with
    | None => mret 0
    | Some needed =>
        r ← alloc_from_freelist needed;
        match r with
        | Some p => mret p
        | None =>
            r ← grow_heap needed;
            match r with
            | None => mret 0
            | Some _ => r ← alloc_from_freelist needed; mret (default 0 r)
            end
        end
    end.
End allocator.

Definition dealloc (p : usize) : M ustate unit :=
  if p =? 0 then mret tt else insert_free_block (p - HEADER_SIZE).

(** ** Blocks and tilings

    A block is its address and its size.  The heap between [lo] and [hi] is cut
    into consecutive blocks; [tiled] forgets their order. *)

Abbreviation block := (Z * Z)%type (only parsing).

Definition size_ok (n : Z) : Prop := 32 ≤ n ∧ n mod 16 = 0.

Fixpoint tiles (lo hi : Z) (l : list block) : Prop :=
  match l with
  | [] => lo = hi
  | (a, n) :: l => a = lo ∧ size_ok n ∧ tiles (lo + n) hi l
  end.

Definition tiled (lo hi : Z) (l : list block) : Prop := ∃ l', tiles lo hi l' ∧ l' ≡ₚ l.

#[global] Instance tiled_proper lo hi : Proper ((≡ₚ) ==> iff) (tiled lo hi).
Proof. intros l1 l2 Heq. unfold tiled. by setoid_rewrite Heq. Qed.

Lemma tiles_app lo hi l1 l2 : tiles lo hi (l1 ++ l2) ↔ ∃ mid, tiles lo mid l1 ∧ tiles mid hi l2.
Proof.
  revert lo. induction l1 as [|[a n] l1 IH]; intros lo; cbn.
  - split; [intros H; by exists lo|by intros (? & <- & ?)].
  - rewrite IH. split; [intros (? & ? & mid & ? & ?); by exists mid|intros (mid & (? & ? & ?) & ?); eauto].
Qed.

Lemma tiles_bounds lo hi l : tiles lo hi l → lo ≤ hi.
Proof.
  revert lo. induction l as [|[a n] l IH]; intros lo; cbn; [lia|]. intros (-> & [? _] & Ht). apply IH in Ht. lia.
Qed.

Lemma tiles_in lo hi l a n :
  tiles lo hi l → (a, n) ∈ l →
  ∃ l1 l2, l = l1 ++ (a, n) :: l2 ∧ tiles lo a l1 ∧ size_ok n ∧ tiles (a + n) hi l2.
Proof.
  intros Ht (l1 & l2 & ->)%list_elem_of_split. exists l1, l2. split; [done|].
  apply tiles_app in Ht as (mid & H1 & H2). cbn in H2. by destruct H2 as (-> & ? & ?).
Qed.

Lemma tiles_mod lo hi l : tiles lo hi l → lo mod 16 = 0 → hi mod 16 = 0.
Proof.
  revert lo. induction l as [|[a n] l IH]; intros lo; cbn; [by intros ->|].
  intros (-> & [_ Hn] & Ht) Hlo. apply (IH _ Ht). rewrite Z.add_mod, Hlo, Hn by lia. done.
Qed.

(** What a tiling says about its blocks. *)
Lemma tiled_block lo hi l a n :
  tiled lo hi l → (a, n) ∈ l → lo ≤ a ∧ size_ok n ∧ a + n ≤ hi ∧ (lo mod 16 = 0 → a mod 16 = 0).
Proof.
  intros (l' & Ht & Hp) Hin. rewrite <-Hp in Hin.
  destruct (tiles_in _ _ _ _ _ Ht Hin) as (l1 & l2 & _ & H1 & Hn & H2).
  split_and!; [by eapply tiles_bounds|done|by eapply tiles_bounds|by eapply tiles_mod].
Qed.

Lemma tiled_disjoint lo hi l a n b k :
  tiled lo hi ((a, n) :: l) → (b, k) ∈ l → a + n ≤ b ∨ b + k ≤ a.
Proof.
  intros (l' & Ht & Hp) Hin. assert ((a, n) ∈ l') as Ha by (rewrite Hp; left).
  destruct (tiles_in _ _ _ _ _ Ht Ha) as (l1 & l2 & -> & H1 & Hn & H2).
  rewrite <-Permutation_middle in Hp. apply Permutation_cons_inv in Hp. rewrite <-Hp in Hin.
  apply elem_of_app in Hin as [Hin|Hin].
  - right. destruct (tiles_in _ _ _ _ _ H1 Hin) as (? & ? & _ & _ & _ & H3). by eapply tiles_bounds.
  - left. destruct (tiles_in _ _ _ _ _ H2 Hin) as (? & ? & _ & H3 & _ & _). by eapply tiles_bounds.
Qed.

Lemma tiled_split lo hi l a n k :
  tiled lo hi ((a, n) :: l) → size_ok k → size_ok (n - k) → tiled lo hi ((a, k) :: (a + k, n - k) :: l).
Proof.
  intros (l' & Ht & Hp) Hk Hnk. assert ((a, n) ∈ l') as Ha by (rewrite Hp; left).
  destruct (tiles_in _ _ _ _ _ Ht Ha) as (l1 & l2 & -> & H1 & Hn & H2).
  rewrite <-Permutation_middle in Hp. apply Permutation_cons_inv in Hp.
  exists (l1 ++ (a, k) :: (a + k, n - k) :: l2). split.
  - apply tiles_app. exists a. split; [done|]. cbn. split_and!; try done. by replace (a + k + (n - k)) with (a + n) by lia.
  - rewrite <-Hp. by rewrite <-!Permutation_middle.
Qed.

Lemma tiled_merge lo hi l a n k :
  tiled lo hi ((a, n) :: (a + n, k) :: l) → tiled lo hi ((a, n + k) :: l).
Proof.
  intros (l' & Ht & Hp). assert ((a, n) ∈ l') as Ha by (rewrite Hp; left).
  destruct (tiles_in _ _ _ _ _ Ht Ha) as (l1 & l2 & -> & H1 & Hn & H2).
  rewrite <-Permutation_middle in Hp. apply Permutation_cons_inv in Hp.
  assert ((a + n, k) ∈ l1 ++ l2) as Hb by (rewrite Hp; left).
  apply elem_of_app in Hb as [Hb|Hb].
  { destruct (tiles_in _ _ _ _ _ H1 Hb) as (? & ? & _ & _ & Hk & H3%tiles_bounds). destruct Hn, Hk. lia. }
  destruct (tiles_in _ _ _ _ _ H2 Hb) as (l3 & l4 & -> & H3 & Hk & H4).
  destruct l3 as [|[c m] l3]; cycle 1.
  { cbn in H3. destruct H3 as (_ & [? _] & H3%tiles_bounds). lia. }
  rewrite app_nil_l, <-Permutation_middle in Hp. apply Permutation_cons_inv in Hp.
  exists (l1 ++ (a, n + k) :: l4). split; [|by rewrite <-Permutation_middle, Hp].
  apply tiles_app. exists a. split; [done|]. cbn. split_and!; [done| |by rewrite Z.add_assoc].
  destruct Hn as [? Hn], Hk as [? Hk]. split; [lia|]. by rewrite Z.add_mod, Hn, Hk by lia.
Qed.

Lemma tiled_extend lo hi l n : tiled lo hi l → size_ok n → tiled lo (hi + n) ((hi, n) :: l).
Proof.
  intros (l' & Ht & Hp) Hn. exists (l' ++ [(hi, n)]). split; [apply tiles_app; exists hi; cbn; by split_and!|].
  by rewrite Hp, Permutation_app_comm.
Qed.

Lemma tiled_nodup lo hi l : tiled lo hi l → NoDup l.*1.
Proof.
  intros (l' & Ht & <-). revert lo Ht. induction l' as [|[a n] l' IH]; intros lo; cbn; [constructor|].
  intros (-> & [? _] & Ht). constructor; [|by eapply IH].
  intros ([b k] & Heq & Hin)%list_elem_of_fmap. cbn in Heq. subst b.
  destruct (tiles_in _ _ _ _ _ Ht Hin) as (? & ? & _ & H1%tiles_bounds & _). lia.
Qed.

(** ** The abstract free list *)

(** First fit: the block taken and the list left. *)
Fixpoint take_fit (needed : Z) (fl : list block) : option (block * list block) :=
  match fl with
  | [] => None
  | (a, n) :: fl =>
      if needed <=? n then
        if MIN_BLOCK_SIZE <=? n - needed then Some ((a, needed), (a + needed, n - needed) :: fl)
        else Some ((a, n), fl)
      else '(b, fl') ← take_fit needed fl; Some (b, (a, n) :: fl')
  end.

(** Put a block in front, merged with the next one when they touch. *)
Definition cons_merge (b : block) (fl : list block) : list block :=
  match fl with
  | (c, k) :: fl' => if b.1 + b.2 =? c then (b.1, b.2 + k) :: fl' else b :: fl
  | [] => [b]
  end.

Fixpoint insert_block (b : block) (fl : list block) : list block :=
  match fl with
  | [] => [b]
  | c :: fl' => if c.1 <? b.1 then cons_merge c (insert_block b fl') else cons_merge b fl
  end.

(** Sorted by address, with a gap between neighbours. *)
Definition gap (b c : block) : Prop := b.1 + b.2 < c.1.
Abbreviation sorted_gaps := (StronglySorted gap) (only parsing).

Lemma tiled_take lo hi needed fl al b fl' :
  tiled lo hi (fl ++ al) → size_ok needed → take_fit needed fl = Some (b, fl') →
  tiled lo hi (fl' ++ b :: al) ∧ needed ≤ b.2.
Proof.
  revert al fl'. induction fl as [|[a n] fl IH]; intros al fl' Ht Hn; cbn; [done|].
  destruct (Z.leb_spec needed n).
  - destruct (Z.leb_spec MIN_BLOCK_SIZE (n - needed)) as [Hm|]; intros [= <- <-]; (split; [|cbn; lia]).
    + cbn in Ht. apply (tiled_split _ _ _ _ _ needed) in Ht; [|done|].
      * by rewrite <-Permutation_middle.
      * destruct (tiled_block _ _ _ a n Ht) as (_ & [_ Hmod] & _); [left|].
        split; [done|]. destruct Hn as [_ Hn]. by rewrite Zminus_mod, Hmod, Hn.
    + by rewrite <-Permutation_middle.
  - destruct (take_fit needed fl) as [[b' fl'']|] eqn:Hf; [|done]. cbn. intros [= <- <-].
    rewrite <-app_comm_cons, Permutation_middle in Ht. destruct (IH _ _ Ht Hn eq_refl) as [Ht' ?].
    split; [|done]. cbn [app]. by rewrite Permutation_middle, Permutation_swap.
Qed.

Lemma tiled_cons_merge lo hi b fl al : tiled lo hi (b :: fl ++ al) → tiled lo hi (cons_merge b fl ++ al).
Proof.
  destruct b as [a n], fl as [|[c k] fl]; cbn; [done|]. destruct (Z.eqb_spec (a + n) c) as [<-|]; [|done].
  apply tiled_merge.
Qed.

Lemma tiled_insert lo hi b fl al : tiled lo hi (b :: fl ++ al) → tiled lo hi (insert_block b fl ++ al).
Proof.
  revert al. induction fl as [|c fl IH]; intros al Ht; cbn [insert_block]; [done|].
  destruct (c.1 <? b.1); apply tiled_cons_merge; [|done].
  rewrite Permutation_middle. apply IH. by rewrite <-Permutation_middle.
Qed.

Lemma take_fit_origin needed fl b fl' c :
  0 ≤ needed → take_fit needed fl = Some (b, fl') → c ∈ fl' → ∃ d, d ∈ fl ∧ d.1 ≤ c.1.
Proof.
  intros H0. revert fl'. induction fl as [|[a n] fl IH]; intros fl'; cbn; [done|].
  destruct (needed <=? n).
  - destruct (_ <=? _); intros [= <- <-] Hc.
    + apply elem_of_cons in Hc as [->|Hc]; [exists (a, n); split; [left|cbn; lia]|].
      exists c. split; [by right|lia].
    + exists c. split; [by right|lia].
  - destruct (take_fit needed fl) as [[b' fl'']|]; [|done]. cbn. intros [= <- <-] Hc.
    apply elem_of_cons in Hc as [->|Hc]; [exists (a, n); split; [left|cbn; lia]|].
    destruct (IH _ eq_refl Hc) as (d & ? & ?). exists d. split; [by right|done].
Qed.

Lemma take_fit_sorted needed fl b fl' :
  0 ≤ needed → sorted_gaps fl → take_fit needed fl = Some (b, fl') → sorted_gaps fl'.
Proof.
  intros H0 Hs. revert fl'. induction Hs as [|[a n] fl Hs IH Hf]; intros fl'; cbn; [done|].
  destruct (needed <=? n).
  - destruct (_ <=? _); intros [= <- <-]; [|done]. constructor; [done|].
    eapply Forall_impl; [exact Hf|]. unfold gap. cbn. lia.
  - destruct (take_fit needed fl) as [[b' fl'']|] eqn:Ht; [|done]. cbn. intros [= <- <-].
    constructor; [by apply IH|]. apply Forall_forall. intros c Hc.
    destruct (take_fit_origin _ _ _ _ _ H0 Ht Hc) as (d & Hd & ?).
    rewrite Forall_forall in Hf. specialize (Hf d Hd). unfold gap in *. lia.
Qed.

Lemma cons_merge_in b fl c : c ∈ cons_merge b fl → c.1 = b.1 ∨ c ∈ fl.
Proof.
  destruct fl as [|[d k] fl]; cbn; [|destruct (_ =? _)];
    (intros [->|Hc]%elem_of_cons; [by left|right]); [done|by right|done].
Qed.

Lemma insert_block_in b fl c : c ∈ insert_block b fl → c.1 = b.1 ∨ ∃ d, d ∈ fl ∧ c.1 = d.1.
Proof.
  induction fl as [|d fl IH]; cbn [insert_block]; [intros ->%list_elem_of_singleton; by left|].
  destruct (d.1 <? b.1); intros [Hc|Hc]%cons_merge_in; eauto using list_elem_of_here.
  destruct (IH Hc) as [?|(e & ? & ?)]; [by left|right]. exists e. split; [by right|done].
Qed.

Lemma cons_merge_sorted b fl :
  sorted_gaps fl → (∀ c, c ∈ fl → 0 < c.2 ∧ b.1 + b.2 ≤ c.1) → sorted_gaps (cons_merge b fl).
Proof.
  intros Hs Hb. destruct Hs as [|[c k] fl Hs Hf]; cbn; [by repeat constructor|].
  destruct (Hb (c, k) (list_elem_of_here _ _)) as [Hk Hc]. cbn in Hk, Hc.
  destruct (Z.eqb_spec (b.1 + b.2) c) as [Heq|Hne].
  - constructor; [done|]. eapply Forall_impl; [exact Hf|]. unfold gap. cbn. lia.
  - constructor; [by constructor|]. constructor; [unfold gap; cbn; lia|].
    eapply Forall_impl; [exact Hf|]. unfold gap. cbn. lia.
Qed.

Lemma insert_block_sorted b fl :
  sorted_gaps fl → 0 < b.2 → (∀ c, c ∈ fl → 0 < c.2 ∧ (b.1 + b.2 ≤ c.1 ∨ c.1 + c.2 ≤ b.1)) →
  (∀ d, d ∈ insert_block b fl → 0 < d.2) ∧ sorted_gaps (insert_block b fl).
Proof.
  intros Hs Hb0. induction Hs as [|c fl Hs IH Hf]; intros Hb; cbn [insert_block].
  { split; [by intros d ->%list_elem_of_singleton|by repeat constructor]. }
  destruct (Hb c (list_elem_of_here _ _)) as [Hc0 Hc].
  destruct IH as [IHpos IHs]; [intros d Hd; apply Hb; by right|]. rewrite Forall_forall in Hf.
  assert (∀ d, d ∈ c :: fl → 0 < d.2) as Hpos by (intros d Hd; by apply Hb).
  assert (∀ e l, 0 < e.2 → (∀ d, d ∈ l → 0 < d.2) → ∀ d, d ∈ cons_merge e l → 0 < d.2) as Hmp.
  { intros e [|[x k] l] He Hl d; cbn; [by intros ->%list_elem_of_singleton|].
    pose proof (Hl (x, k) (list_elem_of_here _ _)). cbn in *.
    destruct (_ =? _); intros [->|Hd]%elem_of_cons; cbn; try lia; apply Hl; [by right|done]. }
  destruct (Z.ltb_spec c.1 b.1); (split; [by apply Hmp|]); apply cons_merge_sorted.
  - done.
  - intros d Hd. split; [by apply IHpos|]. destruct (insert_block_in _ _ _ Hd) as [->|(e & He & ->)]; [lia|].
    specialize (Hf e He). unfold gap in Hf. lia.
  - by constructor; [|apply Forall_forall].
  - intros d Hd. split; [by apply Hpos|]. apply elem_of_cons in Hd as [->|Hd]; [lia|].
    specialize (Hf d Hd). unfold gap in Hf. lia.
Qed.

(** Insertion at a known place. *)
Lemma cons_merge_gap c fl : (∀ d, d ∈ fl → c.1 + c.2 ≠ d.1) → cons_merge c fl = c :: fl.
Proof.
  destruct fl as [|[d k] fl]; cbn; [done|]. intros Hd. rewrite (proj2 (Z.eqb_neq _ _)); [done|].
  apply (Hd (d, k)). left.
Qed.

Lemma insert_block_front b post : (∀ c, c ∈ post → b.1 ≤ c.1) → insert_block b post = cons_merge b post.
Proof.
  destruct post as [|c post]; cbn [insert_block]; [done|]. intros Hc. by rewrite (proj2 (Z.ltb_ge _ _)) by (apply Hc; left).
Qed.

Lemma insert_block_at b pre p post :
  sorted_gaps (pre ++ p :: post) → (∀ c, c ∈ pre ++ [p] → c.1 < b.1) → (∀ c, c ∈ post → b.1 ≤ c.1) →
  0 < p.2 →
  insert_block b (pre ++ p :: post) = pre ++ cons_merge p (cons_merge b post).
Proof.
  intros Hs Hpre Hpost Hp. induction pre as [|c pre IH]; cbn [app insert_block] in *.
  - rewrite (proj2 (Z.ltb_lt _ _)) by (apply Hpre; left). by rewrite insert_block_front.
  - apply StronglySorted_inv in Hs as [Hs Hf]. rewrite Forall_forall in Hf.
    rewrite (proj2 (Z.ltb_lt _ _)) by (apply Hpre; left). rewrite IH; [|done|intros d Hd; apply Hpre; by right].
    assert (gap c p) as Hcp by (apply Hf; rewrite elem_of_app, elem_of_cons; auto).
    assert (p.1 < b.1) by (apply Hpre; rewrite elem_of_cons, elem_of_app, list_elem_of_singleton; auto).
    apply cons_merge_gap. intros d Hd. unfold gap in *. apply elem_of_app in Hd as [Hd|Hd].
    + specialize (Hf d ltac:(apply elem_of_app; by left)). lia.
    + apply cons_merge_in in Hd as [->|Hd]; [lia|]. apply cons_merge_in in Hd as [->|Hd]; [lia|].
      specialize (Hpost d Hd). lia.
Qed.

(** ** The free list in memory *)

(** The blocks of [l] linked from [h] to [q]. *)
Fixpoint chain (m : gmap Z u64) (h : Z) (l : list block) (q : Z) : Prop :=
  match l with
  | [] => h = q
  | b :: l => h = b.1 ∧ m !! b.1 = Some b.2 ∧ ∃ r, m !! (b.1 + 8) = Some r ∧ chain m r l q
  end.

Lemma chain_app m h l1 l2 q : chain m h (l1 ++ l2) q ↔ ∃ j, chain m h l1 j ∧ chain m j l2 q.
Proof.
  revert h. induction l1 as [|b l1 IH]; intros h; cbn.
  - split; [intros Hc; by exists h|by intros (? & <- & ?)].
  - setoid_rewrite IH. split.
    + intros (? & ? & r & ? & j & ? & ?). exists j. eauto 10.
    + intros (j & (? & ? & r & ? & ?) & ?). eauto 10.
Qed.

Lemma chain_agree m m' h l q :
  chain m h l q → (∀ b, b ∈ l → m' !! b.1 = m !! b.1 ∧ m' !! (b.1 + 8) = m !! (b.1 + 8)) → chain m' h l q.
Proof.
  revert h. induction l as [|b l IH]; intros h; cbn; [done|]. intros (? & ? & r & Hr & Hc) Hag.
  destruct (Hag b (list_elem_of_here _ _)) as [E1 E2]. split_and!; [done|congruence|].
  exists r. split; [congruence|]. apply IH; [done|]. intros c Hcl. apply Hag. by right.
Qed.

Lemma chain_in m h l q b : chain m h l q → b ∈ l → m !! b.1 = Some b.2 ∧ is_Some (m !! (b.1 + 8)).
Proof.
  intros Hc (l1 & l2 & ->)%list_elem_of_split. apply chain_app in Hc as (j & _ & (_ & ? & r & ? & _)). eauto.
Qed.

Definition last_addr (l : list block) : Z := from_option fst 0 (last l).

(** Redirecting the link after [pre]. *)
Definition link (prev x : Z) (s : ustate) : ustate :=
  if prev =? 0 then set_u_head x s else set_cells (<[prev + 8 := x]> (cells s)) s.

Lemma link_lookup prev x s w : prev = 0 ∨ w ≠ prev + 8 → cells (link prev x s) !! w = cells s !! w.
Proof.
  unfold link. destruct (Z.eqb_spec prev 0); [done|]. intros [?|?]; [done|]. by apply lookup_insert_ne.
Qed.

Lemma chain_link s pre j x s' :
  chain (cells s) (u_head s) pre j → NoDup pre.*1 → (∀ b, b ∈ pre → b.1 ≠ 0) →
  u_head s' = u_head (link (last_addr pre) x s) →
  (∀ b, b ∈ pre → cells s' !! b.1 = cells s !! b.1 ∧
     cells s' !! (b.1 + 8) = cells (link (last_addr pre) x s) !! (b.1 + 8)) →
  chain (cells s') (u_head s') pre x.
Proof.
  destruct pre as [|p pre _] using rev_ind; cbn; [by intros _ _ _ ->|].
  unfold last_addr. rewrite last_snoc. cbn. rewrite fmap_app. intros Hc Hnd H0 Hh Hag.
  assert (p.1 ≠ 0) as Hp by (apply H0; rewrite elem_of_app, list_elem_of_singleton; auto).
  unfold link in *. rewrite (proj2 (Z.eqb_neq _ _) Hp) in *. cbn in *. rewrite Hh.
  apply chain_app in Hc as (i & Hc & (-> & Hs & _)). apply chain_app. exists p.1.
  apply NoDup_app in Hnd as (_ & Hnd & _). split.
  - eapply chain_agree; [exact Hc|]. intros b Hb. destruct (Hag b) as [E1 E2]; [by apply elem_of_app; left|].
    split; [done|]. rewrite E2. apply lookup_insert_ne. intros Heq.
    apply (Hnd b.1); [apply list_elem_of_fmap; eauto|]. apply list_elem_of_singleton. lia.
  - destruct (Hag p) as [E1 E2]; [rewrite elem_of_app, list_elem_of_singleton; auto|].
    split_and!; [done|congruence|]. exists x. by rewrite E2, lookup_insert_eq.
Qed.

(** ** Heap invariant *)

Definition HEAP_MAX : Z := 2 ^ 63.

(** The blocks fill the heap and their headers hold their sizes. *)
Record layout (lo : Z) (s : ustate) (bs : list block) : Prop := {
  ly_lo : 0 < lo ∧ lo mod 16 = 0;
  ly_brk : brk s < HEAP_MAX;
  ly_tiled : tiled lo (brk s) bs;
  ly_size b : b ∈ bs → cells s !! b.1 = Some b.2;
  ly_cells a : lo ≤ a < brk s → a mod 8 = 0 → is_Some (cells s !! a);
}.

#[global] Instance layout_proper lo s : Proper ((≡ₚ) ==> iff) (layout lo s).
Proof.
  assert (∀ l1 l2, l1 ≡ₚ l2 → layout lo s l1 → layout lo s l2) as Himp.
  { intros l1 l2 Heq [? ? ? Hs ?]. split; try done; [by rewrite <-Heq|]. intros b. rewrite <-Heq. apply Hs. }
  intros l1 l2 Heq. split; by apply Himp.
Qed.

(** Free blocks [fl], in list order, and allocated blocks [al]. *)
Record heap_ok (lo : Z) (s : ustate) (fl al : list block) : Prop := {
  ho_layout : layout lo s (fl ++ al);
  ho_chain : chain (cells s) (u_head s) fl 0;
}.

(** Only words of the blocks [R] changed. *)
Record changed (R : list block) (s s' : ustate) : Prop := {
  ch_out a : (∀ c, c ∈ R → ¬ c.1 ≤ a < c.1 + c.2) → cells s' !! a = cells s !! a;
  ch_brk : brk s' = brk s;
  ch_dom a : is_Some (cells s !! a) → is_Some (cells s' !! a);
}.

Lemma changed_refl R s : changed R s s.
Proof. by split. Qed.

Lemma changed_trans R s1 s2 s3 : changed R s1 s2 → changed R s2 s3 → changed R s1 s3.
Proof. intros [A1 A2 A3] [B1 B2 B3]. split; [|congruence|auto]. intros a Ha. by rewrite B1, A1. Qed.

Lemma changed_head R s s' h : changed R s s' → changed R s (set_u_head h s').
Proof. by intros [? ? ?]. Qed.

Lemma changed_id R s s' : changed R s s' → changed R s (set_cells (cells s') s').
Proof. by destruct s'. Qed.

Lemma changed_cell R s s' m a v c :
  changed R s (set_cells m s') → c ∈ R → c.1 ≤ a < c.1 + c.2 → changed R s (set_cells (<[a := v]> m) s').
Proof.
  intros [A1 A2 A3] Hc Ha. cbn in *. split; cbn; [|done|].
  - intros x Hx. rewrite lookup_insert_ne; [by apply A1|]. intros ->. by apply (Hx c).
  - intros x Hx. destruct (decide (a = x)) as [->|]; [rewrite lookup_insert_eq; by eexists|].
    rewrite lookup_insert_ne by done. by apply A3.
Qed.

Lemma changed_link R s s' prev x :
  changed R s s' → prev = 0 ∨ (∃ c, c ∈ R ∧ prev = c.1 ∧ 16 ≤ c.2) → changed R s (link prev x s').
Proof.
  unfold link. intros Hch Hp. destruct (Z.eqb_spec prev 0); [by apply changed_head|].
  destruct Hp as [?|(c & Hc & -> & ?)]; [done|]. by apply (changed_cell _ _ _ _ _ _ c); [apply changed_id|..|lia].
Qed.

Lemma wp_load s a v (Q : u64 → ustate → Prop) : cells s !! a = Some v → Q v s → wp (load a) s Q.
Proof. intros Ha HQ. unfold load. wp_step. wp_step. by eapply wp_expect. Qed.

Lemma wp_store s a v (Q : unit → ustate → Prop) :
  is_Some (cells s !! a) → Q tt (set_cells (<[a := v]> (cells s)) s) → wp (store a v) s Q.
Proof. intros [x Hx] HQ. unfold store. wp_step. eapply wp_load; [done|]. by wp_step. Qed.

Lemma wadd_small a b : 0 ≤ a → 0 ≤ b → a + b < 2 ^ 64 → wadd a b = a + b.
Proof. intros. unfold wadd. apply Z.mod_small. lia. Qed.

Lemma wp_set_link s prev x (Q : unit → ustate → Prop) :
  0 ≤ prev < HEAP_MAX → prev = 0 ∨ is_Some (cells s !! (prev + 8)) → Q tt (link prev x s) → wp (set_link prev x) s Q.
Proof.
  intros Hb Hp. unfold set_link, link, set_next. unfold HEAP_MAX in Hb. destruct (Z.eqb_spec prev 0); [intros; by wp_step|].
  rewrite wadd_small by lia. intros. by apply wp_store; [destruct Hp|].
Qed.

(** ** Blocks of the heap *)

Section heap.
Context (lo : Z).

Lemma heap_block s bs b :
  layout lo s bs → b ∈ bs →
  lo ≤ b.1 ∧ size_ok b.2 ∧ b.1 + b.2 ≤ brk s ∧ b.1 mod 16 = 0 ∧
  cells s !! b.1 = Some b.2 ∧ is_Some (cells s !! (b.1 + 8)).
Proof.
  intros Hok Hb. destruct (tiled_block _ _ _ b.1 b.2 (ly_tiled _ _ _ Hok)) as (? & Hn & ? & Hm); [by destruct b|].
  destruct (ly_lo _ _ _ Hok) as [? Hlo]. specialize (Hm Hlo). destruct Hn as [? ?].
  split_and!; try done; [by apply Hok|].
  apply (ly_cells _ _ _ Hok); [lia|]. apply Z.mod_divide in Hm; [|done]. destruct Hm as [k ->].
  replace (k * 16 + 8) with ((k * 2 + 1) * 8) by lia. by apply Z.mod_mul.
Qed.

Lemma heap_disjoint s bs b c :
  layout lo s bs → b ∈ bs → c ∈ bs → b.1 ≠ c.1 → b.1 + b.2 ≤ c.1 ∨ c.1 + c.2 ≤ b.1.
Proof.
  intros Hok (l1 & l2 & ->)%list_elem_of_split Hc Hne. pose proof (ly_tiled _ _ _ Hok) as Ht.
  rewrite <-Permutation_middle in Ht, Hc. apply elem_of_cons in Hc as [->|Hc]; [done|].
  destruct b, c. by eapply tiled_disjoint.
Qed.

Lemma heap_addr_split s bs1 bs2 b c :
  layout lo s (bs1 ++ bs2) → b ∈ bs1 → c ∈ bs2 → b.1 ≠ c.1.
Proof.
  intros Hok Hb Hc Heq. pose proof (tiled_nodup _ _ _ (ly_tiled _ _ _ Hok)) as Hnd. rewrite fmap_app in Hnd.
  apply NoDup_app in Hnd as (_ & Hnd & _). apply (Hnd b.1); apply list_elem_of_fmap; eauto.
Qed.

Lemma free_length s fl al : heap_ok lo s fl al → (length fl ≤ size (cells s))%nat.
Proof.
  intros [Hok _]. pose proof (tiled_nodup _ _ _ (ly_tiled _ _ _ Hok)) as Hnd. rewrite fmap_app in Hnd.
  apply NoDup_app in Hnd as [Hnd _].
  rewrite <-(length_fmap fst fl), <-(size_list_to_set (C := gset Z)), <-size_dom by done.
  apply subseteq_size. intros a Ha. apply elem_of_list_to_set, list_elem_of_fmap in Ha as (b & -> & Hb).
  apply elem_of_dom. rewrite (ly_size _ _ _ Hok b); [by eexists|]. apply elem_of_app. by left.
Qed.

(** The invariant after an operation that changed words of [R]. *)
Lemma heap_ok_changed R s s' bs fl al :
  layout lo s bs → changed R s s' → (∀ a, a ∈ al → cells s' !! a.1 = Some a.2) →
  tiled lo (brk s) (fl ++ al) → chain (cells s') (u_head s') fl 0 → heap_ok lo s' fl al.
Proof.
  intros [H1 H2 H3 H4 H5] [C1 C2 C3] Ha Ht Hc. split; [|done]. split; rewrite ?C2; try done.
  - intros b [Hb|Hb]%elem_of_app; [|by apply Ha]. by eapply chain_in in Hb as [? _].
  - intros a Hr Hm. by apply C3, H5.
Qed.

Lemma take_fit_at needed pre a n post :
  (∀ c, c ∈ pre → c.2 < needed) → needed ≤ n →
  take_fit needed (pre ++ (a, n) :: post) =
    Some (if MIN_BLOCK_SIZE <=? n - needed then ((a, needed), pre ++ (a + needed, n - needed) :: post)
          else ((a, n), pre ++ post)).
Proof.
  intros Hpre Hn. induction pre as [|[c k] pre IH]; cbn [take_fit app].
  - rewrite (proj2 (Z.leb_le _ _)) by done. by destruct (_ <=? _).
  - rewrite (proj2 (Z.leb_gt _ _)) by (apply (Hpre (c, k)); left).
    rewrite IH by (intros; apply Hpre; by right). cbn. by destruct (_ <=? _).
Qed.

Lemma last_addr_in pre : last_addr pre = 0 ∧ pre = [] ∨ ∃ p, p ∈ pre ∧ last_addr pre = p.1.
Proof.
  destruct pre as [|p pre _] using rev_ind; [by left|]. right. exists p. unfold last_addr. rewrite last_snoc.
  split; [rewrite elem_of_app, list_elem_of_singleton; auto|done].
Qed.

(** Two different blocks of the heap: their headers do not overlap. *)
Lemma heap_apart s bs b c :
  layout lo s bs → b ∈ bs → c ∈ bs → b.1 = c.1 ∨ b.1 + 32 ≤ c.1 ∨ c.1 + 32 ≤ b.1.
Proof.
  intros Hok Hb Hc. destruct (decide (b.1 = c.1)); [by left|right].
  destruct (heap_block _ _ _ Hok Hb) as (_ & [? _] & _). destruct (heap_block _ _ _ Hok Hc) as (_ & [? _] & _).
  destruct (heap_disjoint s bs b c); [done..|left; lia|right; lia].
Qed.

(** A block [a] of the free list with those before and after it, and the last
    one before it. *)
Record around (s : ustate) (pre : list block) (a n : Z) (post al : list block) : Prop := {
  ar_pre b : b ∈ pre → 0 < b.1 ∧ (b.1 + 32 ≤ a ∨ a + n ≤ b.1) ∧
    (last_addr pre = 0 ∨ b.1 = last_addr pre ∨ b.1 + 32 ≤ last_addr pre ∨ last_addr pre + 32 ≤ b.1);
  ar_rest b : b ∈ post ++ al → 0 < b.1 ∧ (b.1 + 32 ≤ a ∨ a + n ≤ b.1) ∧
    (last_addr pre = 0 ∨ b.1 + 32 ≤ last_addr pre ∨ last_addr pre + 32 ≤ b.1);
  ar_nodup : NoDup pre.*1;
  ar_block : 0 < a ∧ 32 ≤ n ∧ a + n < 2 ^ 63 ∧ a mod 16 = 0;
  ar_last : last_addr pre = 0 ∨ 0 < last_addr pre < 2 ^ 63 ∧ is_Some (cells s !! (last_addr pre + 8)) ∧
     (last_addr pre + 32 ≤ a ∨ a + n ≤ last_addr pre);
  ar_link : last_addr pre = 0 ∨ (∃ c, c ∈ pre ∧ last_addr pre = c.1 ∧ 16 ≤ c.2);
}.

Lemma heap_around s pre a n post al :
  layout lo s (pre ++ (a, n) :: post ++ al) → around s pre a n post al.
Proof.
  intros Hok. destruct (ly_lo _ _ _ Hok) as [Hlo _]. pose proof (ly_brk _ _ _ Hok) as Hbrk. unfold HEAP_MAX in Hbrk.
  set (bs := pre ++ (a, n) :: post ++ al) in *.
  assert (∀ b, b ∈ pre → b ∈ bs) as Hin1 by (intros; apply elem_of_app; auto).
  assert (∀ b, b ∈ post ++ al → b ∈ bs) as Hin2 by (intros; apply elem_of_app; right; by right).
  assert ((a, n) ∈ bs) as Hin0 by (apply elem_of_app; right; left).
  destruct (heap_block s _ _ Hok Hin0) as (Ha & [Hn _] & Hhi & Hm & _). cbn in Ha, Hn, Hhi, Hm.
  assert (∀ b, b ∈ pre → a ≠ b.1) as Hne1.
  { intros b Hb. apply not_eq_sym, (heap_addr_split s _ _ b (a, n) Hok Hb). left. }
  assert (∀ b, b ∈ post ++ al → a ≠ b.1) as Hne2.
  { intros b Hb. apply (heap_addr_split s (pre ++ [(a, n)]) (post ++ al) (a, n) b); [|apply elem_of_app; right; left|done].
    by rewrite <-app_assoc. }
  assert (∀ b, b ∈ bs → a ≠ b.1 → 0 < b.1 ∧ (b.1 + 32 ≤ a ∨ a + n ≤ b.1)) as Hfar.
  { intros b Hb Hne. destruct (heap_block s _ _ Hok Hb) as (? & [? _] & _). split; [lia|].
    pose proof (heap_disjoint s _ b (a, n) Hok Hb Hin0 (not_eq_sym Hne)) as Hd. cbn in Hd. lia. }
  assert (NoDup pre.*1) as Hnd.
  { pose proof (tiled_nodup _ _ _ (ly_tiled _ _ _ Hok)) as Hnd. unfold bs in Hnd. rewrite fmap_app in Hnd.
    by apply NoDup_app in Hnd as [? _]. }
  split; [| |done|lia| |].
  - intros b Hb. destruct (Hfar b) as [? ?]; [auto|auto|]. split_and!; [done|done|].
    destruct (last_addr_in pre) as [[? _]|(p & Hp & ->)]; [by left|right]. apply (heap_apart s _ b p Hok); auto.
  - intros b Hb. destruct (Hfar b) as [? ?]; [auto|auto|]. split_and!; [done|done|].
    destruct (last_addr_in pre) as [[? _]|(p & Hp & ->)]; [by left|right].
    destruct (heap_apart s _ b p Hok) as [Heq|?]; [auto|auto| |done].
    exfalso. apply (heap_addr_split s _ _ p b Hok Hp); [by right|done].
  - destruct (last_addr_in pre) as [[? _]|(p & Hp & ->)]; [by left|right].
    destruct (Hfar p) as [? ?]; [auto|auto|]. destruct (heap_block s _ _ Hok (Hin1 p Hp)) as (_ & [? _] & ? & _ & _ & ?).
    split_and!; [lia|lia|done|lia].
  - destruct (last_addr_in pre) as [[? _]|(p & Hp & ->)]; [by left|right]. exists p. split_and!; [done|done|].
    destruct (heap_block s _ _ Hok (Hin1 p Hp)) as (_ & [? _] & _). lia.
Qed.

Lemma heap_layout s pre a n post al :
  heap_ok lo s (pre ++ (a, n) :: post) al → layout lo s (pre ++ (a, n) :: post ++ al).
Proof. intros [Hok _]. by rewrite <-app_assoc in Hok. Qed.

(** Lookups past updates at other addresses. *)
Ltac cell := cbn [cells set_cells];
  repeat first [rewrite lookup_insert_eq | rewrite lookup_insert_ne by lia
               | rewrite link_lookup by lia; cbn [cells set_cells]].

(** The end of an allocation: the list skips block [a] and its link is cleared. *)
Lemma alloc_unlink s s1 pre a n post al x mid b :
  heap_ok lo s (pre ++ (a, n) :: post) al → changed (pre ++ (a, n) :: post) s s1 → u_head s1 = u_head s →
  (∀ c, c ∈ pre ++ al → cells s1 !! c.1 = cells s !! c.1 ∧ cells s1 !! (c.1 + 8) = cells s !! (c.1 + 8)) →
  chain (cells s1) x mid 0 → cells s1 !! b.1 = Some b.2 → b.1 = a →
  (∀ c, c ∈ mid → (c.1 + 32 ≤ a ∨ a + 16 ≤ c.1) ∧
     (last_addr pre = 0 ∨ c.1 + 32 ≤ last_addr pre ∨ last_addr pre + 16 ≤ c.1)) →
  tiled lo (brk s) ((pre ++ mid) ++ b :: al) →
  wp (set_link (last_addr pre) x;; set_next a 0;; mret (inr (Some (wadd a HEADER_SIZE)))) s1
    (λ (r : usize * usize + option usize) s', r = inr (Some (b.1 + 16)) ∧
       changed (pre ++ (a, n) :: post) s s' ∧ heap_ok lo s' (pre ++ mid) (b :: al)).
Proof.
  intros Hok Hch Hh Hag Hmid Hb Hba Hsep Htile.
  pose proof (heap_layout _ _ _ _ _ _ Hok) as Hlay.
  destruct (heap_around _ _ _ _ _ _ Hlay) as [Hfar1 Hfar2 Hnd (Ha & Hn & Hmax & Hmod) Hprev Hlast].
  pose proof (ho_chain _ _ _ _ Hok) as (i & Hc1 & (-> & _))%chain_app.
  assert ((a, n) ∈ pre ++ (a, n) :: post) as Hin by (apply elem_of_app; right; left).
  assert (is_Some (cells s1 !! (a + 8))) as HS.
  { apply (ch_dom _ _ _ Hch). apply (heap_block s _ (a, n) Hlay). apply elem_of_app; right; left. }
  change HEADER_SIZE with 16. rewrite wadd_small by lia. set (s2 := link (last_addr pre) x s1).
  wp_step. apply wp_set_link; [unfold HEAP_MAX; lia| |].
  { destruct Hprev as [?|(? & ? & ?)]; [by left|right]. by apply (ch_dom _ _ _ Hch). }
  fold s2. wp_step. unfold set_next. rewrite wadd_small by lia. apply wp_store; [unfold s2; by cell|].
  wp_step. split; [by subst a|].
  assert (changed (pre ++ (a, n) :: post) s (set_cells (<[a + 8 := 0]> (cells s2)) s2)) as Hch2.
  { apply (changed_cell _ _ _ _ _ _ (a, n)); [apply changed_id|done|cbn; lia]. apply changed_link; [done|].
    destruct Hlast as [?|(c & ? & ?)]; [by left|right; exists c; rewrite elem_of_app; auto]. }
  split; [done|]. eapply heap_ok_changed; [exact Hlay|exact Hch2| |done|].
  - intros c [->|Hc]%elem_of_cons; unfold s2; [by cell|].
    destruct (Hfar2 c) as (? & ? & ?); [by apply elem_of_app; right|]. destruct (Hag c) as [E _]; [by apply elem_of_app; right|].
    cell. rewrite E. apply Hlay. rewrite elem_of_app, elem_of_cons, elem_of_app. auto.
  - apply chain_app. exists x. split.
    + apply (chain_link s1 pre a); [|done|intros c Hc ?; specialize (Hfar1 c Hc); lia|done|].
      * rewrite Hh. eapply chain_agree; [exact Hc1|]. intros c Hc. apply Hag, elem_of_app. by left.
      * intros c Hc. specialize (Hfar1 c Hc). unfold s2. split; [by cell|].
        cbn [cells set_cells]. by rewrite lookup_insert_ne by lia.
    + eapply chain_agree; [exact Hmid|]. intros c Hc. specialize (Hsep c Hc). unfold s2. by split; cell.
Qed.

Lemma alloc_take s pre a n post al needed b fl' :
  heap_ok lo s (pre ++ (a, n) :: post) al → size_ok needed → needed ≤ n → (∀ c, c ∈ pre → c.2 < needed) →
  take_fit needed (pre ++ (a, n) :: post) = Some (b, fl') →
  wp (alloc_step needed (last_addr pre, a)) s (λ r s',
    r = inr (Some (b.1 + 16)) ∧ changed (pre ++ (a, n) :: post) s s' ∧ heap_ok lo s' fl' (b :: al)).
Proof.
  intros Hok Hneed Hle Hpre Hfit. pose proof Hneed as [Hneed1 _].
  destruct (tiled_take _ _ _ _ _ _ _ (ly_tiled _ _ _ (ho_layout _ _ _ _ Hok)) Hneed Hfit) as [Htile _].
  rewrite take_fit_at in Hfit by done. change MIN_BLOCK_SIZE with 32 in Hfit.
  pose proof (heap_layout _ _ _ _ _ _ Hok) as Hlay.
  destruct (heap_around _ _ _ _ _ _ Hlay) as [Hfar1 Hfar2 _ (Ha & Hn & Hmax & Hmod) Hprev _].
  pose proof (ho_chain _ _ _ _ Hok) as (i & Hc1 & (-> & Hsz & r & Hr & Hc2))%chain_app. cbn [fst snd] in Hsz, Hr, Hc1.
  assert ((a, n) ∈ pre ++ (a, n) :: post) as Hin by (apply elem_of_app; right; left).
  assert (∀ c, c ∈ post → c ∈ post ++ al) as Hinp by (intros; apply elem_of_app; by left).
  unfold alloc_step, size_of, set_size, next_ptr.
  rewrite (proj2 (Z.eqb_neq _ _)) by lia. wp_step. eapply wp_load; [done|].
  rewrite (proj2 (Z.leb_le _ _)) by done. cbv zeta. change MIN_BLOCK_SIZE with 32.
  rewrite (wadd_small a 8), (wadd_small a needed) by lia.
  destruct (Z.leb_spec 32 (n - needed)); injection Hfit as <- <-.
  - assert (is_Some (cells s !! (a + needed)) ∧ is_Some (cells s !! (a + needed + 8))) as [HS1 HS2].
    { destruct Hneed as [_ Hm16]. apply Z.mod_divide in Hm16 as [k Hk]; [|done]. apply Z.mod_divide in Hmod as [j Hj]; [|done].
      destruct (heap_block _ _ (a, n) Hlay) as (? & _ & ? & _); [apply elem_of_app; right; left|]. cbn in *.
      split; apply (ly_cells _ _ _ Hlay); try lia.
      - replace (a + needed) with ((j * 2 + k * 2) * 8) by lia. by apply Z.mod_mul.
      - replace (a + needed + 8) with ((j * 2 + k * 2 + 1) * 8) by lia. by apply Z.mod_mul. }
    apply wp_assoc. wp_step. apply wp_store; [done|]. apply wp_assoc. wp_step. eapply wp_load; [by cell|].
    apply wp_assoc. wp_step. unfold set_next at 1. rewrite (wadd_small (a + needed) 8) by lia. apply wp_store; [by cell|].
    apply wp_assoc. wp_step. apply wp_store; [cell; by eexists|].
    eapply (alloc_unlink s); [done| |done| | | |done| |done].
    + rewrite !set_cells_twice, !cells_set. do 3 (apply (changed_cell _ _ _ _ _ _ (a, n)); [|done|cbn; lia]). apply changed_id, changed_refl.
    + intros c [Hc|Hc]%elem_of_app; [specialize (Hfar1 c Hc)|specialize (Hfar2 c ltac:(apply elem_of_app; auto))]; by split; cell.
    + cbn [chain fst snd]. split; [done|]. split; [by cell|]. exists r. split; [by cell|].
      eapply chain_agree; [exact Hc2|]. intros c Hc. specialize (Hfar2 c (Hinp c Hc)). by split; cell.
    + cbn [fst snd]. by cell.
    + intros c [->|Hc]%elem_of_cons; [cbn [fst]|specialize (Hfar2 c (Hinp c Hc))]; lia.
  - apply wp_assoc. wp_step. eapply wp_load; [done|].
    eapply (alloc_unlink s); [done|apply changed_refl|done|done|exact Hc2|done|done| |done].
    intros c Hc. specialize (Hfar2 c (Hinp c Hc)). lia.
Qed.

Lemma alloc_from_freelist_spec s fl al needed :
  heap_ok lo s fl al → size_ok needed →
  wp (alloc_from_freelist needed) s (λ r s', changed fl s s' ∧
    match take_fit needed fl with
    | None => r = None ∧ s' = s
    | Some (b, fl') => r = Some (b.1 + 16) ∧ heap_ok lo s' fl' (b :: al)
    end).
Proof.
  intros Hok Hneed. unfold alloc_from_freelist. wp_step. wp_step. unfold list_fuel. wp_step. wp_step.
  apply (wp_while_bound (λ k '(prev, cur) s', s' = s ∧ ∃ pre post, fl = pre ++ post ∧ prev = last_addr pre ∧
    chain (cells s) cur post 0 ∧ (∀ c, c ∈ pre → c.2 < needed) ∧ k = length post) _ _ (length fl)).
  - intros k [prev cur] s' (-> & pre & post & -> & -> & Hc & Hpre & ->). destruct post as [|[a n] post].
    + cbn in Hc. subst cur. cbn [alloc_step Z.eqb]. wp_step. split; [apply changed_refl|].
      assert (take_fit needed (pre ++ []) = None) as ->; [|done]. rewrite app_nil_r. clear -Hpre.
      induction pre as [|[c m] pre IH]; [done|]. cbn. rewrite (proj2 (Z.leb_gt _ _)) by (apply (Hpre (c, m)); left).
      rewrite IH; [done|]. intros d Hd. apply Hpre. by right.
    + destruct Hc as (-> & Hsz & r & Hr & Hc). cbn [fst snd] in *.
      destruct (heap_around _ _ _ _ _ _ (heap_layout _ _ _ _ _ _ Hok)) as [_ _ _ (Ha & Hn & Hmax & _) _ _].
      destruct (Z.leb_spec needed n) as [Hle|Hlt].
      * destruct (take_fit needed (pre ++ (a, n) :: post)) as [[b fl']|] eqn:Hf;
          [|rewrite take_fit_at in Hf by done; done].
        wp_call alloc_take; [done|done|done|done|done|]. by intros r' s' (-> & ? & ?).
      * unfold alloc_step, size_of, next_ptr. rewrite (proj2 (Z.eqb_neq _ _)) by lia.
        wp_step. eapply wp_load; [done|]. rewrite (proj2 (Z.leb_gt _ _)) by done.
        rewrite wadd_small by lia. wp_step. eapply wp_load; [done|]. wp_step.
        exists (length post). split; [cbn; lia|]. split; [done|]. exists (pre ++ [(a, n)]), post.
        rewrite <-app_assoc. split_and!; [done|unfold last_addr; by rewrite last_snoc|done| |done].
        intros c [?|Hc1]%elem_of_app; [by apply Hpre|]. by apply list_elem_of_singleton in Hc1 as ->.
  - split; [done|]. exists [], fl. split_and!; [done|done|apply Hok|by intros c ?%elem_of_nil|done].
  - pose proof (free_length _ _ _ Hok). lia.
Qed.

(** ** Insertion *)

Lemma absorb_spec s l1 x n k l2 al :
  heap_ok lo s (l1 ++ (x, n) :: (x + n, k) :: l2) al →
  wp (absorb x (x + n)) s (λ _ s', changed [(x, 16)] s s' ∧
    heap_ok lo s' (l1 ++ (x, n + k) :: l2) al).
Proof.
  intros Hok. pose proof (heap_layout _ _ _ _ _ _ Hok) as Hlay.
  pose proof (heap_around _ _ _ _ _ _ Hlay) as [Hfar1 Hfar2 _ (Ha & Hn & Hmax & _) _ _].
  destruct (heap_block s _ (x + n, k) Hlay) as (_ & [Hk _] & Hhi & _ & Hsz2 & [r Hr]);
    [apply elem_of_app; right; right; left|].
  cbn in Hk, Hhi, Hsz2, Hr. pose proof (ly_brk _ _ _ Hlay) as Hbrk. unfold HEAP_MAX in Hbrk.
  pose proof (ho_chain _ _ _ _ Hok) as (i & Hc1 & (-> & Hsz & r1 & Hr1 & (-> & _ & r' & Hr' & Hc2)))%chain_app.
  cbn [fst snd] in *. rewrite Hr' in Hr. injection Hr as ->.
  unfold absorb, size_of, set_size, next_ptr, set_next.
  wp_step. eapply wp_load; [done|]. wp_step. eapply wp_load; [done|]. rewrite !wadd_small by lia.
  wp_step. apply wp_store; [by eexists|]. wp_step. eapply wp_load; [by cell|]. apply wp_store; [cell; by eexists|].
  rewrite !set_cells_twice, !cells_set.
  assert (changed [(x, 16)] s (set_cells (<[x + 8 := r]> (<[x := n + k]> (cells s))) s)) as Hch.
  { do 2 (apply (changed_cell _ _ _ _ _ _ (x, 16)); [|left|cbn; lia]). apply changed_id, changed_refl. }
  split; [done|]. eapply heap_ok_changed; [exact Hlay|exact Hch| | |].
  - intros c Hc. specialize (Hfar2 c ltac:(apply elem_of_app; auto)). cell. apply Hlay.
    apply elem_of_app; right; right. apply elem_of_app. by right.
  - pose proof (ly_tiled _ _ _ Hlay) as Ht. rewrite <-app_assoc. cbn [app] in *.
    rewrite <-Permutation_middle in Ht |- *. apply tiled_merge. by rewrite (Permutation_middle l1 _ (x + n, k)).
  - apply chain_app. exists x. split.
    + eapply chain_agree; [exact Hc1|]. intros c Hc. specialize (Hfar1 c Hc). by split; cell.
    + cbn [chain fst snd]. split; [done|]. split; [by cell|]. exists r. split; [by cell|].
      eapply chain_agree; [exact Hc2|]. intros c Hc.
      specialize (Hfar2 c ltac:(rewrite elem_of_app, elem_of_cons; auto)). by split; cell.
Qed.

(** The address of the first block of a list. *)
Definition first_addr (l : list block) : Z := from_option fst 0 (head l).

Lemma chain_first m h l : chain m h l 0 → h = first_addr l.
Proof. destruct l as [|b l]; cbn; [done|by intros [-> _]]. Qed.

Lemma merge_next_spec s l1 x post al :
  heap_ok lo s (l1 ++ x :: post) al →
  wp (merge_next x.1 (first_addr post)) s (λ _ s', changed [(x.1, 16)] s s' ∧
    heap_ok lo s' (l1 ++ cons_merge x post) al).
Proof.
  intros Hok. destruct x as [x n]. pose proof (heap_layout _ _ _ _ _ _ Hok) as Hlay.
  pose proof (heap_around _ _ _ _ _ _ Hlay) as [_ Hfar _ (? & ? & ? & _) _ _].
  assert (cells s !! x = Some n) as Hsz by (apply (ly_size _ _ _ Hlay (x, n)); apply elem_of_app; right; left).
  unfold merge_next. destruct post as [|[c k] post].
  { change (first_addr [] =? 0) with true. cbn match. wp_step. by split; [apply changed_refl|]. }
  cbn [first_addr head from_option fst snd cons_merge] in *.
  destruct (Hfar (c, k)) as (? & _ & _); [left|]. cbn in *. rewrite (proj2 (Z.eqb_neq _ _)) by lia.
  unfold block_end, size_of. wp_step. wp_step. eapply wp_load; [done|]. wp_step. rewrite wadd_small by lia.
  destruct (Z.eqb_spec (x + n) c) as [<-|]; [by apply absorb_spec|]. wp_step. by split; [apply changed_refl|].
Qed.

(** Link block [b] in between [pre] and [post]. *)
Lemma link_in_spec s pre post b al :
  heap_ok lo s (pre ++ post) (b :: al) →
  wp (set_next b.1 (first_addr post);; set_link (last_addr pre) b.1) s (λ _ s',
    changed (b :: pre ++ post) s s' ∧ heap_ok lo s' (pre ++ b :: post) al).
Proof.
  intros [Hlay Hchain]. destruct b as [a n]. cbn [fst].
  assert (layout lo s (pre ++ (a, n) :: post ++ al)) as Hlay'.
  { rewrite <-Permutation_middle, app_assoc. by rewrite <-Permutation_middle in Hlay. }
  destruct (heap_around _ _ _ _ _ _ Hlay') as [Hfar1 Hfar2 Hnd (Ha & Hn & Hmax & _) Hprev Hlast].
  destruct (heap_block s _ (a, n) Hlay') as (_ & _ & _ & _ & Hsz & Hs8); [apply elem_of_app; right; left|]. cbn [fst snd] in *.
  apply chain_app in Hchain as (cur & Hc1 & Hc2). rewrite <-(chain_first _ _ _ Hc2).
  set (s1 := set_cells (<[a + 8 := cur]> (cells s)) s). set (s2 := link (last_addr pre) a s1).
  wp_step. unfold set_next. rewrite wadd_small by lia. apply wp_store; [done|]. fold s1.
  apply wp_set_link; [unfold HEAP_MAX; lia| |].
  { destruct Hprev as [?|(? & ? & ?)]; [by left|right]. unfold s1. by cell. }
  fold s2. assert (changed ((a, n) :: pre ++ post) s s2) as Hch.
  { apply changed_link; [apply (changed_cell _ _ _ _ _ _ (a, n)); [apply changed_id, changed_refl|left|cbn; lia]|].
    destruct Hlast as [?|(p & ? & ?)]; [by left|right]. exists p. rewrite elem_of_cons, elem_of_app. auto. }
  split; [done|]. eapply heap_ok_changed; [exact Hlay'|exact Hch| | |].
  - intros c Hc. specialize (Hfar2 c ltac:(apply elem_of_app; auto)). unfold s2, s1. cell. apply Hlay'.
    rewrite elem_of_app, elem_of_cons, elem_of_app. auto.
  - rewrite <-app_assoc. apply Hlay'.
  - apply chain_app. exists a. split.
    + apply (chain_link s1 pre cur); [|done|intros c Hc ?; specialize (Hfar1 c Hc); lia|done|].
      * eapply chain_agree; [exact Hc1|]. intros c Hc. specialize (Hfar1 c Hc). unfold s1. by split; cell.
      * intros c Hc. specialize (Hfar1 c Hc). unfold s2. split; [by cell|done].
    + cbn [chain fst snd]. split; [done|]. unfold s2, s1. split; [by cell|]. exists cur. split; [by cell|].
      eapply chain_agree; [exact Hc2|]. intros c Hc. specialize (Hfar2 c ltac:(apply elem_of_app; auto)). by split; cell.
Qed.

Lemma find_place_spec s fl al block fuel :
  heap_ok lo s fl al → sorted_gaps fl → (length fl < fuel)%nat →
  wp (while_fuel fuel (find_place block) (0, u_head s)) s (λ '(prev, cur) s', s' = s ∧
    ∃ pre post, fl = pre ++ post ∧ prev = last_addr pre ∧ cur = first_addr post ∧
      (∀ c, c ∈ pre → c.1 < block) ∧ (∀ c, c ∈ post → block ≤ c.1)).
Proof.
  intros Hok Hs Hfuel. destruct (ly_lo _ _ _ (ho_layout _ _ _ _ Hok)) as [Hlo _].
  apply (wp_while_bound (λ k '(prev, cur) s', s' = s ∧ ∃ pre post, fl = pre ++ post ∧ prev = last_addr pre ∧
    chain (cells s) cur post 0 ∧ (∀ c, c ∈ pre → c.1 < block) ∧ k = length post) _ _ (length fl)).
  - intros k [prev cur] s' (-> & pre & post & Heq & -> & Hc & Hpre & ->). unfold find_place.
    pose proof (chain_first _ _ _ Hc) as Hfirst. destruct post as [|[a n] post].
    { cbn in Hfirst. subst cur. cbn [Z.eqb negb andb]. wp_step. split; [done|]. exists pre, [].
      split_and!; [done|done|done|done|by intros c ?%elem_of_nil]. }
    destruct Hc as (-> & _ & r & Hr & Hc). cbn [fst] in *. subst fl.
    destruct (heap_around _ _ _ _ _ _ (heap_layout _ _ _ _ _ _ Hok)) as [_ _ _ (Ha & Hn & Hmax & _) _ _].
    rewrite (proj2 (Z.eqb_neq _ _)) by lia. cbn [negb andb]. destruct (Z.ltb_spec a block).
    + unfold next_ptr. rewrite wadd_small by lia. wp_step. eapply wp_load; [done|]. wp_step.
      exists (length post). split; [cbn; lia|]. split; [done|]. exists (pre ++ [(a, n)]), post.
      rewrite <-app_assoc. split_and!; [done|unfold last_addr; by rewrite last_snoc|done| |done].
      intros c [?|Hc1]%elem_of_app; [by apply Hpre|]. by apply list_elem_of_singleton in Hc1 as ->.
    + wp_step. split; [done|]. exists pre, ((a, n) :: post). split_and!; [done|done|done|done|].
      intros c [->|Hc1]%elem_of_cons; [cbn; lia|]. apply StronglySorted_app in Hs as (_ & _ & Hs).
      apply StronglySorted_inv in Hs as [_ Hf]. rewrite Forall_forall in Hf. specialize (Hf c Hc1). unfold gap in Hf. cbn in Hf. lia.
  - split; [done|]. exists [], fl. split_and!; [done|done|apply Hok|by intros c ?%elem_of_nil|done].
  - done.
Qed.

Lemma cons_merge_assoc p b post :
  cons_merge p (cons_merge b post) =
    if p.1 + p.2 =? b.1 then cons_merge (p.1, p.2 + b.2) post else p :: cons_merge b post.
Proof.
  destruct p as [p n], b as [b m], post as [|[c k] post]; cbn; [by destruct (_ =? _)|].
  destruct (Z.eqb_spec (b + m) c) as [<-|Hne]; cbn.
  - destruct (Z.eqb_spec (p + n) b) as [Heq|]; [|done].
    rewrite (proj2 (Z.eqb_eq _ _)) by lia. do 2 f_equal. lia.
  - destruct (Z.eqb_spec (p + n) b) as [Heq|]; [|done].
    rewrite (proj2 (Z.eqb_neq _ _)) by lia. done.
Qed.

Lemma changed_weaken R R' s s' :
  (∀ c, c ∈ R → ∃ d, d ∈ R' ∧ d.1 ≤ c.1 ∧ c.1 + c.2 ≤ d.1 + d.2) → changed R s s' → changed R' s s'.
Proof.
  intros Hsub [A1 A2 A3]. split; [|done|done]. intros a Ha. apply A1. intros c Hc ?.
  destruct (Hsub c Hc) as (d & Hd & ?). apply (Ha d Hd). lia.
Qed.

Lemma changed_same R R' s s' : (∀ c, c ∈ R → c ∈ R') → changed R s s' → changed R' s s'.
Proof. intros Hsub. apply changed_weaken. intros c Hc. exists c. split; [auto|lia]. Qed.

(** Insertion once the place is known. *)
Lemma insert_at_spec s pre post b al :
  heap_ok lo s (pre ++ post) (b :: al) → sorted_gaps (pre ++ post) →
  (∀ c, c ∈ pre → c.1 < b.1) → (∀ c, c ∈ post → b.1 ≤ c.1) →
  wp (set_next b.1 (first_addr post);; set_link (last_addr pre) b.1;;
      merged ← (if last_addr pre =? 0 then mret b.1
                else
                  e ← block_end (last_addr pre);
                  if e =? b.1 then absorb (last_addr pre) b.1;; mret (last_addr pre) else mret b.1);
      merge_next merged (first_addr post)) s (λ _ s',
    changed (b :: pre ++ post) s s' ∧ heap_ok lo s' (insert_block b (pre ++ post)) al).
Proof.
  intros Hok Hs Hpre Hpost. apply wp_assoc_r. wp_call link_in_spec; [done|]. intros [] s1 [Hch Hok1].
  assert (∀ x, x ∈ b :: pre ++ post → ∀ s1 s2, changed [(x.1, 16)] s1 s2 → changed (b :: pre ++ post) s1 s2) as Hsub.
  { intros x Hx s2 s3. apply changed_weaken. intros c ->%list_elem_of_singleton. exists x. cbn. split; [done|].
    destruct (heap_block s _ x (ho_layout _ _ _ _ Hok)) as (_ & [? _] & _); [|lia].
    rewrite elem_of_cons, elem_of_app in Hx. rewrite !elem_of_app, elem_of_cons. tauto. }
  destruct pre as [|p pre _] using rev_ind.
  { change (last_addr [] =? 0) with true. cbn match. wp_step. wp_step. rewrite insert_block_front by done.
    wp_call (merge_next_spec s1 []); [done|]. intros [] s2 [Hch2 ?]. split; [|done].
    eapply changed_trans; [done|]. eapply Hsub; [|done]. left. }
  assert (last_addr (pre ++ [p]) = p.1) as Hlast by (unfold last_addr; by rewrite last_snoc). rewrite Hlast.
  rewrite <-app_assoc in Hok1, Hs, Hok, Hch |- *. setoid_rewrite <-app_assoc in Hsub. cbn [app] in *.
  destruct p as [p n], b as [b m].
  assert (p ≠ 0 ∧ cells s1 !! p = Some n ∧ 0 < n ∧ p + n < 2 ^ 64 ∧ 0 < p) as (Hp & Hsz & Hn & Hpn & Hp0).
  { destruct (heap_around _ _ _ _ _ _ (heap_layout _ _ _ _ _ _ Hok1)) as [_ _ _ (? & ? & ? & _) _ _].
    split_and!; try lia. apply (ly_size _ _ _ (ho_layout _ _ _ _ Hok1) (p, n)). apply elem_of_app; left. apply elem_of_app; right; left. }
  rewrite insert_block_at by done. rewrite cons_merge_assoc. cbn [fst snd] in *. rewrite (proj2 (Z.eqb_neq _ _) Hp).
  unfold block_end, size_of. apply wp_assoc. wp_step. wp_step. eapply wp_load; [done|]. wp_step. rewrite wadd_small by lia.
  destruct (Z.eqb_spec (p + n) b) as [<-|Hne].
  - apply wp_assoc. wp_call absorb_spec; [done|]. intros [] s2 [Hch2 Hok2]. wp_step. wp_step.
    wp_call (merge_next_spec s2 pre (p, n + m)); [done|]. intros [] s3 [Hch3 ?]. split; [|done].
    eapply changed_trans; [done|]. eapply changed_trans.
    + eapply (Hsub (p, n)); [|done]. right. apply elem_of_app; right; left.
    + eapply (Hsub (p, n)); [|done]. right. apply elem_of_app; right; left.
  - wp_step. wp_step. wp_call (merge_next_spec s1 (pre ++ [(p, n)]) (b, m)); [by rewrite <-app_assoc|].
    intros [] s2 [Hch2 Hok2]. rewrite <-app_assoc in Hok2. split; [|done].
    eapply changed_trans; [done|]. eapply (Hsub (b, m)); [left|done].
Qed.

Lemma insert_free_block_spec s fl b al :
  heap_ok lo s fl (b :: al) → sorted_gaps fl →
  wp (insert_free_block b.1) s (λ _ s', changed (b :: fl) s s' ∧
    heap_ok lo s' (insert_block b fl) al ∧ sorted_gaps (insert_block b fl)).
Proof.
  intros Hok Hs. pose proof (ho_layout _ _ _ _ Hok) as Hlay.
  assert (sorted_gaps (insert_block b fl)) as Hs'.
  { apply insert_block_sorted; [done| |].
    - destruct (heap_block s _ b Hlay) as (_ & [? _] & _); [apply elem_of_app; right; left|lia].
    - intros c Hc. destruct (heap_block s _ c Hlay) as (_ & [? _] & _); [by apply elem_of_app; left|]. split; [lia|].
      apply (heap_disjoint s _ b c Hlay); [apply elem_of_app; right; left|by apply elem_of_app; left|].
      apply not_eq_sym, (heap_addr_split s _ _ c b Hlay Hc). left. }
  unfold insert_free_block. wp_step. wp_step. unfold list_fuel. wp_step. wp_step.
  wp_call find_place_spec; [exact Hok|done|pose proof (free_length _ _ _ Hok); lia|].
  intros [prev cur] s' (-> & pre & post & -> & -> & -> & Hpre & Hpost).
  eapply wp_mono; [by apply insert_at_spec|]. by intros [] s' [? ?].
Qed.

(** Allocated blocks keep their contents. *)
Definition keeps (al : list block) (s s' : ustate) : Prop :=
  ∀ b a, b ∈ al → b.1 ≤ a < b.1 + b.2 → cells s' !! a = cells s !! a.

Lemma changed_keeps R s bs al s' :
  layout lo s bs → R ++ al ≡ₚ bs → changed R s s' → keeps al s s'.
Proof.
  intros Hlay Hp Hch b a Hb Ha. rewrite <-Hp in Hlay. apply (ch_out _ _ _ Hch). intros c Hc ?.
  pose proof (heap_addr_split s _ _ c b Hlay Hc Hb). assert (∀ x, x ∈ R ++ al ↔ x ∈ R ∨ x ∈ al) as Hin by (intros; apply elem_of_app).
  destruct (heap_disjoint s _ c b Hlay); [apply Hin; auto|apply Hin; auto|done|lia|lia].
Qed.

(** ** Allocation and release *)

Lemma align_up_spec x align v :
  align = 16 ∨ align = 4096 → 0 ≤ x → align_up x align = Some v → x ≤ v ∧ v < x + align ∧ v mod align = 0.
Proof.
  intros Hal Hx. unfold align_up. destruct (checked USIZE_MAX (x + (align - 1))) as [y|] eqn:Hy; [|done].
  cbn. intros [= <-]. unfold checked in Hy. destruct (_ && _); [|done]. injection Hy as <-.
  assert (∃ k, 0 ≤ k ∧ align = 2 ^ k ∧ align - 1 = Z.ones k) as (k & Hk & -> & ->)
    by (destruct Hal as [->| ->]; [by exists 4|by exists 12]).
  rewrite Z.ldiff_ones_r, Z.shiftr_div_pow2, Z.shiftl_mul_pow2 by done.
  pose proof (Z.pow_pos_nonneg 2 k ltac:(lia) Hk) as Hpow. rewrite Z.ones_equiv.
  pose proof (Z.div_mod (x + Z.pred (2 ^ k)) (2 ^ k) ltac:(lia)) as Hdm.
  pose proof (Z.mod_pos_bound (x + Z.pred (2 ^ k)) (2 ^ k) Hpow). split_and!; [lia|lia|].
  apply Z.mod_mul. lia.
Qed.

Lemma request_spec size needed : 0 ≤ size → request size = Some needed → size_ok needed ∧ size + 16 ≤ needed.
Proof.
  intros Hs. unfold request. destruct (align_up (Z.max size 1) ALIGN) as [v|] eqn:Hv; [|done]. cbn.
  apply align_up_spec in Hv as (H1 & H2 & H3); [|by left|lia]. unfold checked. destruct (_ && _); [|done].
  change HEADER_SIZE with 16. change ALIGN with 16 in *. intros [= <-].
  assert (v mod 16 = 0 → 0 < v → 16 ≤ v) as Hge.
  { intros Hm ?. apply Z.mod_divide in Hm as [k ->]; [|done]. lia. }
  split; [|lia]. split; [lia|]. rewrite Z.add_mod, H3 by lia. done.
Qed.

Lemma take_fit_some needed fl c : c ∈ fl → needed ≤ c.2 → is_Some (take_fit needed fl).
Proof.
  intros Hin Hn. induction fl as [|[a n] fl IH]; [by apply elem_of_nil in Hin|]. cbn.
  destruct (Z.leb_spec needed n); [destruct (_ <=? _); by eexists|].
  apply elem_of_cons in Hin as [->|Hin]; [cbn in Hn; lia|]. destruct (IH Hin) as [[b fl'] ->]. by eexists.
Qed.

Lemma insert_block_covers b fl : (∀ c, c ∈ fl → 0 ≤ c.2) → 0 ≤ b.2 → ∃ c, c ∈ insert_block b fl ∧ b.2 ≤ c.2.
Proof.
  assert (∀ x l c, 0 ≤ x.2 → c ∈ l → ∃ d, d ∈ cons_merge x l ∧ c.2 ≤ d.2) as Hskip.
  { intros x [|[e k] l] c Hx Hc; [by apply elem_of_nil in Hc|]. cbn. destruct (_ =? _).
    - apply elem_of_cons in Hc as [->|Hc]; [exists (x.1, x.2 + k); split; [left|cbn; lia]|exists c; split; [by right|lia]].
    - exists c. split; [by right|lia]. }
  assert (∀ x l, (∀ c, c ∈ l → 0 ≤ c.2) → ∃ d, d ∈ cons_merge x l ∧ x.2 ≤ d.2) as Hown.
  { intros x [|[e k] l] Hl; cbn; [exists x; split; [left|lia]|]. pose proof (Hl (e, k) (list_elem_of_here _ _)). cbn in *.
    destruct (_ =? _); [exists (x.1, x.2 + k)|exists x]; (split; [left|cbn; lia]). }
  intros Hfl Hb. induction fl as [|c fl IH]; cbn [insert_block]; [exists b; split; [left|lia]|].
  destruct (c.1 <? b.1); [|by apply Hown]. destruct IH as (d & Hd & ?); [intros; apply Hfl; by right|].
  destruct (Hskip c _ d (Hfl c (list_elem_of_here _ _)) Hd) as (e & ? & ?). exists e. split; [done|lia].
Qed.

Section client.
Context (sbrk : isize → M ustate isize).

(** [sbrk] refuses or moves the break up and returns where it was; the memory
    below stays. *)
Definition sbrk_ok : Prop := ∀ n s, 0 ≤ n ≤ ISIZE_MAX →
  wp (sbrk n) s (λ r s', r < 0 ∧ s' = s ∨
    r = brk s ∧ brk s + n < HEAP_MAX ∧ brk s' = brk s + n ∧ u_head s' = u_head s ∧
    (∀ a, a < brk s → cells s' !! a = cells s !! a) ∧
    (∀ a, brk s ≤ a < brk s + n → a mod 8 = 0 → is_Some (cells s' !! a))).

Context (Hsbrk : sbrk_ok).

(** The reasons for a null pointer. *)
Definition refused (size align : usize) (s : ustate) : Prop :=
  ALIGN < align ∨
  match request size with
  | None => True
  | Some needed =>
      match align_up needed 4096 with
      | None => True
      | Some total => ISIZE_MAX < total ∨ ∃ r, sbrk total s = Ok (r, s) ∧ r < 0
      end
  end.

(** The new memory becomes a block with a header. *)
Lemma heap_grow s s1 fl al total :
  heap_ok lo s fl al → size_ok total → brk s + total < HEAP_MAX → brk s1 = brk s + total → u_head s1 = u_head s →
  (∀ a, a < brk s → cells s1 !! a = cells s !! a) →
  (∀ a, brk s ≤ a < brk s + total → a mod 8 = 0 → is_Some (cells s1 !! a)) →
  heap_ok lo (set_cells (<[brk s + 8 := 0]> (<[brk s := total]> (cells s1))) s1) fl ((brk s, total) :: al).
Proof.
  intros Hok Hsz Hmax Hbrk Hhead Hlow Hnew. set (s2 := set_cells _ s1). pose proof (ho_layout _ _ _ _ Hok) as Hlay.
  assert (∀ a, a < brk s → cells s2 !! a = cells s !! a) as Hlow2 by (intros; unfold s2; cell; by apply Hlow).
  assert (∀ b, b ∈ fl ++ al → b.1 + 8 < brk s) as Hbelow.
  { intros b Hb. destruct (heap_block _ _ _ Hlay Hb) as (? & [? _] & ? & _). lia. }
  split; [split|].
  - apply Hlay.
  - cbn. by rewrite Hbrk.
  - cbn. rewrite Hbrk, <-Permutation_middle. apply tiled_extend; [apply Hlay|done].
  - intros b. rewrite <-Permutation_middle. intros [->|Hb]%elem_of_cons; [unfold s2; cbn [fst snd]; by cell|].
    rewrite Hlow2 by (specialize (Hbelow b Hb); lia). by apply Hlay.
  - cbn [brk s2 set_cells]. rewrite Hbrk. intros a Ha Hm.
    destruct (decide (a < brk s)); [rewrite Hlow2 by done; by apply Hlay; [lia|]|].
    unfold s2. cbn [cells set_cells]. destruct (decide (a = brk s + 8)) as [->|]; [rewrite lookup_insert_eq; by eexists|].
    destruct (decide (a = brk s)) as [->|]; cell; [by eexists|]. apply Hnew; [lia|done].
  - unfold s2. cbn [u_head set_cells]. rewrite Hhead. eapply chain_agree; [apply Hok|]. intros b Hb.
    specialize (Hbelow b ltac:(apply elem_of_app; auto)). split; apply Hlow2; lia.
Qed.

Lemma heap_brk s bs : layout lo s bs → 0 < brk s ∧ brk s mod 8 = 0 ∧ (brk s + 8) mod 8 = 0.
Proof.
  intros Hlay. destruct (ly_lo _ _ _ Hlay) as [Hlo Hlom]. destruct (ly_tiled _ _ _ Hlay) as (l & Ht & _).
  pose proof (tiles_bounds _ _ _ Ht). pose proof (tiles_mod _ _ _ Ht Hlom) as Hm.
  apply Z.mod_divide in Hm as [q Hq]; [|done]. rewrite Hq. split_and!; [lia| |].
  - replace (q * 16) with (q * 2 * 8) by lia. by apply Z.mod_mul.
  - replace (q * 16 + 8) with ((q * 2 + 1) * 8) by lia. by apply Z.mod_mul.
Qed.

Lemma grow_heap_spec s fl al needed :
  heap_ok lo s fl al → sorted_gaps fl → size_ok needed →
  wp (grow_heap sbrk needed) s (λ r s',
    match r with
    | None => s' = s ∧ match align_up needed 4096 with
        | None => True
        | Some total => ISIZE_MAX < total ∨ ∃ r, sbrk total s = Ok (r, s) ∧ r < 0
        end
    | Some _ => ∃ fl', heap_ok lo s' fl' al ∧ sorted_gaps fl' ∧ keeps al s s' ∧ is_Some (take_fit needed fl')
    end).
Proof.
  intros Hok Hs [Hneed _]. unfold grow_heap. destruct (align_up needed 4096) as [total|] eqn:Hup; [|by wp_steps].
  apply align_up_spec in Hup as (Hle & _ & Hmod); [|by right|lia].
  destruct (Z.ltb_spec ISIZE_MAX total); [wp_steps; split; [done|by left]|].
  pose proof (Hsbrk total s ltac:(lia)) as Hw. wp_step. apply wp_ok in Hw as (r & s1 & Heq & Hw). apply wp_ok.
  exists r, s1. split; [done|]. destruct Hw as [[Hr ->]|(-> & Hmax & Hbrk & Hhead & Hlow & Hnew)].
  { rewrite (proj2 (Z.ltb_lt _ _)) by done. wp_step. split; [done|]. right. eauto. }
  pose proof (ho_layout _ _ _ _ Hok) as Hlay. destruct (heap_brk _ _ Hlay) as (Hb0 & Hb1 & Hb2).
  assert (size_ok total) as Hsz.
  { split; [lia|]. apply Z.mod_divide in Hmod as [k ->]; [|done]. replace (k * 4096) with (k * 256 * 16) by lia. by apply Z.mod_mul. }
  rewrite (proj2 (Z.ltb_ge _ _)) by lia. unfold set_size, set_next. rewrite wadd_small by (unfold HEAP_MAX in Hmax; lia).
  wp_step. apply wp_store; [apply Hnew; [lia|done]|]. wp_step. apply wp_store; [cell; apply Hnew; [lia|done]|].
  rewrite !set_cells_twice, !cells_set.
  pose proof (heap_grow s s1 fl al total Hok Hsz Hmax Hbrk Hhead Hlow Hnew) as Hok2. set (s2 := set_cells _ s1) in *.
  wp_call (insert_free_block_spec s2 fl (brk s, total)); [exact Hok2|done|].
  intros [] s3 (Hch & Hok3 & Hs3). wp_step. eexists. split_and!; [done|done| |].
  - intros b a Hb Ha. assert (keeps al s2 s3) as Hk.
    { eapply changed_keeps; [exact (ho_layout _ _ _ _ Hok2)| |exact Hch]. by rewrite <-Permutation_middle. }
    rewrite (Hk b a) by done. destruct (heap_block _ _ b Hlay) as (_ & _ & ? & _); [by apply elem_of_app; right|].
    unfold s2. cell. apply Hlow. lia.
  - destruct (insert_block_covers (brk s, total) fl) as (c & Hc & Hcn); [|cbn; lia|].
    + intros c Hc. destruct (heap_block _ _ c Hlay) as (_ & [? _] & _); [by apply elem_of_app; left|]. lia.
    + eapply take_fit_some; [exact Hc|]. cbn in Hcn. lia.
Qed.

(** A taken block is an aligned payload of the requested size. *)
Lemma alloc_from_freelist_take s fl al needed :
  heap_ok lo s fl al → sorted_gaps fl → size_ok needed →
  wp (alloc_from_freelist needed) s (λ r s',
    match r with
    | None => take_fit needed fl = None ∧ s' = s
    | Some p => ∃ fl' n, heap_ok lo s' fl' ((p - 16, n) :: al) ∧ sorted_gaps fl' ∧ keeps al s s' ∧
        needed ≤ n ∧ 0 < p ∧ p mod 16 = 0
    end).
Proof.
  intros Hok Hs Hneed. wp_call alloc_from_freelist_spec; [done|done|]. intros r s' [Hch Hr].
  destruct (take_fit needed fl) as [[[a n] fl']|] eqn:Hf; [|by destruct Hr as [-> ->]].
  destruct Hr as [-> Hok']. cbn [fst] in *. exists fl', n. replace (a + 16 - 16) with a by lia.
  destruct (heap_block s' _ (a, n) (ho_layout _ _ _ _ Hok')) as (? & _ & _ & Hm & _); [apply elem_of_app; right; left|]. cbn in *.
  destruct (ly_lo _ _ _ (ho_layout _ _ _ _ Hok)) as [? _]. destruct (tiled_take _ _ _ _ _ _ _ (ly_tiled _ _ _ (ho_layout _ _ _ _ Hok)) Hneed Hf) as [_ ?].
  split_and!; [done| |by eapply changed_keeps; [apply Hok| |exact Hch]|done|lia|by rewrite Z.add_mod, Hm by lia].
  eapply take_fit_sorted; [|exact Hs|exact Hf]. destruct Hneed. lia.
Qed.

Lemma alloc_spec s fl al size align :
  heap_ok lo s fl al → sorted_gaps fl → 0 ≤ size →
  wp (alloc sbrk size align) s (λ p s', ∃ fl',
    sorted_gaps fl' ∧ keeps al s s' ∧
    (p = 0 ∧ refused size align s ∧ heap_ok lo s' fl' al ∨
     0 < p ∧ p mod 16 = 0 ∧ ∃ n, size + 16 ≤ n ∧ heap_ok lo s' fl' ((p - 16, n) :: al))).
Proof.
  intros Hok Hs Hsize. unfold alloc, refused.
  destruct (Z.ltb_spec ALIGN align) as [|_]; [wp_steps; exists fl; split_and!; [done|done|left; auto]|].
  destruct (request size) as [needed|] eqn:Hreq; [|wp_steps; exists fl; split_and!; [done|done|left; auto]].
  apply request_spec in Hreq as [Hneed Hge]; [|done].
  wp_call alloc_from_freelist_take; [done|done|done|]. intros [p|] s1.
  { intros (fl' & n & ? & ? & ? & ? & ? & ?). wp_step. exists fl'. split_and!; [done|done|right]. split_and!; [done|done|]. exists n. split; [lia|done]. }
  intros [_ ->]. wp_call grow_heap_spec; [done|done|done|]. intros [[]|] s1; cycle 1.
  { intros [-> Hwhy]. wp_step. exists fl. split_and!; [done|done|left; auto]. }
  intros (fl1 & Hok1 & Hs1 & Hk1 & [x Hx]). wp_call alloc_from_freelist_take; [done|done|done|].
  intros [p|] s2; [|intros [Hnone _]; congruence]. intros (fl' & n & ? & ? & Hk2 & ? & ? & ?). wp_step.
  exists fl'. split_and!; [done| |right; split_and!; [done|done|exists n; split; [lia|done]]].
  intros b a Hb Ha. by rewrite (Hk2 b a), (Hk1 b a).
Qed.
End client.

Lemma dealloc_spec s fl al1 p n al2 :
  heap_ok lo s fl (al1 ++ (p - 16, n) :: al2) → sorted_gaps fl → 0 < p →
  wp (dealloc p) s (λ _ s', ∃ fl', heap_ok lo s' fl' (al1 ++ al2) ∧ sorted_gaps fl' ∧ keeps (al1 ++ al2) s s').
Proof.
  intros [Hlay Hc] Hs Hp. unfold dealloc. rewrite (proj2 (Z.eqb_neq _ _)) by lia. change HEADER_SIZE with 16.
  assert (heap_ok lo s fl ((p - 16, n) :: al1 ++ al2)) as Hok'.
  { split; [|done]. by rewrite <-(Permutation_middle al1) in Hlay. }
  wp_call (insert_free_block_spec s fl (p - 16, n)); [exact Hok'|done|]. intros [] s' (Hch & Hok2 & Hs2).
  eexists. split_and!; [done|done|]. eapply changed_keeps; [apply Hok'| |exact Hch]. by rewrite <-Permutation_middle.
Qed.
End heap.

(** ** Clients

    A client allocates, frees, writes and reads words of its allocations, which
    it names by their position in the list of live ones.  The specification knows
    only the size of each allocation and the words written to it. *)

Inductive uop :=
| UAlloc (size align : usize)
| UFree (k : nat)
| UWrite (k : nat) (off v : Z)
| URead (k : nat) (off : Z).

Inductive uout := OPtr (ok : bool) | ODone | OVal (v : option Z).

Definition in_bounds (size off : Z) : bool := (0 <=? off) && (off + 8 <=? size) && (off mod 8 =? 0).

(** Live allocations as the client sees them: pointer and size. *)
Definition user_step (sbrk : isize → M ustate isize) (op : uop) (ps : list (Z * Z)) : M ustate (uout * list (Z * Z)) :=
  match op with
  | UAlloc size align =>
      p ← alloc sbrk size align;
      mret (if p =? 0 then (OPtr false, ps) else (OPtr true, (p, size) :: ps))
  | UFree k =>
      match ps !! k with
      | None => mret (ODone, ps)
      | Some (p, _) => dealloc p;; mret (ODone, delete k ps)
      end
  | UWrite k off v =>
      match ps !! k with
      | Some (p, size) => (if in_bounds size off then store (p + off) v else mret tt);; mret (ODone, ps)
      | None => mret (ODone, ps)
      end
  | URead k off =>
      match ps !! k with
      | Some (p, size) =>
          if in_bounds size off then v ← load (p + off); mret (OVal (Some v), ps) else mret (OVal None, ps)
      | None => mret (OVal None, ps)
      end
  end.

Fixpoint user_run (sbrk : isize → M ustate isize) (ops : list uop) (ps : list (Z * Z)) :
  M ustate (list uout * list (Z * Z)) :=
  match ops with
  | [] => mret ([], ps)
  | op :: ops => '(o, ps) ← user_step sbrk op ps; '(os, ps) ← user_run sbrk ops ps; mret (o :: os, ps)
  end.

(** The same without addresses. *)
Abbreviation contents := (gmap Z Z) (only parsing).

Inductive spec_op : uop → uout → list (Z * contents) → list (Z * contents) → Prop :=
| spec_alloc size align cs : spec_op (UAlloc size align) (OPtr true) cs ((size, ∅) :: cs)
| spec_null size align cs : spec_op (UAlloc size align) (OPtr false) cs cs
| spec_free k cs : spec_op (UFree k) ODone cs (delete k cs)
| spec_write k off v cs size m :
    cs !! k = Some (size, m) → in_bounds size off = true →
    spec_op (UWrite k off v) ODone cs (<[k := (size, <[off := v]> m)]> cs)
| spec_write_out k off v cs :
    (∀ size m, cs !! k = Some (size, m) → in_bounds size off = false) → spec_op (UWrite k off v) ODone cs cs
| spec_read k off cs size m v :
    cs !! k = Some (size, m) → in_bounds size off = true → (∀ w, m !! off = Some w → v = w) →
    spec_op (URead k off) (OVal (Some v)) cs cs
| spec_read_out k off cs :
    (∀ size m, cs !! k = Some (size, m) → in_bounds size off = false) → spec_op (URead k off) (OVal None) cs cs.

Inductive spec_ops : list uop → list uout → list (Z * contents) → list (Z * contents) → Prop :=
| specs_nil cs : spec_ops [] [] cs cs
| specs_cons op ops o os cs cs1 cs2 :
    spec_op op o cs cs1 → spec_ops ops os cs1 cs2 → spec_ops (op :: ops) (o :: os) cs cs2.

(** A live allocation: its block, the requested size and the words written. *)
Record entry := mkEntry { en_block : Z * Z; en_size : Z; en_words : contents }.
Definition en_client (e : entry) : Z * Z := ((en_block e).1 + 16, en_size e).
Definition en_spec (e : entry) : Z * contents := (en_size e, en_words e).

Definition entry_ok (s : ustate) (e : entry) : Prop :=
  0 ≤ en_size e ∧ en_size e + 16 ≤ (en_block e).2 ∧
  ∀ off v, en_words e !! off = Some v →
    in_bounds (en_size e) off = true ∧ cells s !! ((en_block e).1 + 16 + off) = Some v.

Definition client_ok (lo : Z) (s : ustate) (es : list entry) : Prop :=
  (∃ fl, heap_ok lo s fl (en_block <$> es) ∧ sorted_gaps fl) ∧ Forall (entry_ok s) es.

Lemma in_bounds_spec size off : in_bounds size off = true → 0 ≤ off ∧ off + 8 ≤ size ∧ off mod 8 = 0.
Proof. unfold in_bounds. rewrite !andb_true_iff, Z.eqb_eq. lia. Qed.

Section client_run.
Context (lo : Z) (sbrk : isize → M ustate isize) (Hsbrk : sbrk_ok sbrk).

Lemma entry_keeps s s' e es : keeps (en_block <$> es) s s' → e ∈ es → entry_ok s e → entry_ok s' e.
Proof.
  intros Hk He (H1 & H2 & H3). split_and!; [done|done|]. intros off v Hv. destruct (H3 off v Hv) as [Hin Hc].
  split; [done|]. apply in_bounds_spec in Hin. rewrite (Hk (en_block e)); [done| |lia].
  apply list_elem_of_fmap. eauto.
Qed.

Lemma entries_keep s s' es : keeps (en_block <$> es) s s' → Forall (entry_ok s) es → Forall (entry_ok s') es.
Proof. intros Hk. rewrite !Forall_forall. intros Hall e He. eapply entry_keeps; [exact Hk|done|by apply Hall]. Qed.

(** Writing to the payload of an allocated block. *)
Lemma heap_write s fl al b a v :
  heap_ok lo s fl al → b ∈ al → b.1 + 16 ≤ a < b.1 + b.2 → heap_ok lo (set_cells (<[a := v]> (cells s)) s) fl al.
Proof.
  intros [Hlay Hc] Hb Ha.
  assert (∀ c, c ∈ fl ++ al → a ≠ c.1 ∧ (c ∈ fl → a ≠ c.1 + 8)) as Hne.
  { intros c Hcin. destruct (heap_block lo s _ c Hlay Hcin) as (_ & [? _] & _).
    assert (b ∈ fl ++ al) as Hbin by (apply elem_of_app; auto). destruct (decide (b.1 = c.1)) as [Heq|Hne].
    - split; [lia|]. intros Hcf. exfalso. by apply (heap_addr_split lo s _ _ c b Hlay Hcf Hb).
    - destruct (heap_disjoint lo s _ b c Hlay Hbin Hcin Hne); lia. }
  eapply (heap_ok_changed lo [b]); [exact Hlay| | |apply Hlay|].
  - apply (changed_cell _ _ _ _ _ _ b); [apply changed_id, changed_refl|left|lia].
  - intros c Hcin. destruct (Hne c ltac:(apply elem_of_app; auto)) as [? _]. cbn. rewrite lookup_insert_ne by done.
    apply Hlay, elem_of_app. auto.
  - cbn. eapply chain_agree; [exact Hc|]. intros c Hcin. destruct (Hne c ltac:(apply elem_of_app; auto)) as [? Hn8].
    specialize (Hn8 Hcin). by rewrite !lookup_insert_ne.
Qed.

Lemma client_write s es k e off v :
  client_ok lo s es → es !! k = Some e → in_bounds (en_size e) off = true →
  client_ok lo (set_cells (<[(en_block e).1 + 16 + off := v]> (cells s)) s)
    (<[k := mkEntry (en_block e) (en_size e) (<[off := v]> (en_words e))]> es).
Proof.
  intros [(fl & Hok & Hs) Hall] Hk Hin. pose proof (in_bounds_spec _ _ Hin) as (Ho1 & Ho2 & Ho3).
  rewrite Forall_forall in Hall. destruct (Hall e) as (H1 & H2 & H3); [by eapply list_elem_of_lookup_2|].
  assert (en_block e ∈ en_block <$> es) as Hbin by (apply list_elem_of_fmap; exists e; split; [done|by eapply list_elem_of_lookup_2]).
  split.
  - exists fl. split; [|done]. rewrite list_fmap_insert. cbn [en_block]. rewrite list_insert_id by (by rewrite list_lookup_fmap, Hk).
    by eapply heap_write; [done|exact Hbin|lia].
  - apply Forall_forall. intros e' He'. apply list_elem_of_lookup in He' as [j Hj].
    destruct (decide (j = k)) as [->|Hjk].
    + rewrite list_lookup_insert_eq in Hj by (by eapply lookup_lt_Some). injection Hj as <-. split_and!; [done|done|].
      cbn [en_words en_size en_block cells set_cells]. intros off' w. rewrite lookup_insert_Some.
      intros [[<- <-]|[Hne Hw]]; [by rewrite lookup_insert_eq|]. rewrite lookup_insert_ne by lia. by apply H3.
    + rewrite list_lookup_insert_ne in Hj by done. destruct (Hall e') as (G1 & G2 & G3); [by eapply list_elem_of_lookup_2|].
      split_and!; [done|done|]. intros off' w Hw. destruct (G3 off' w Hw) as [Hin' Hc]. split; [done|]. cbn.
      apply in_bounds_spec in Hin'. rewrite lookup_insert_ne; [done|].
      assert ((en_block e).1 ≠ (en_block e').1) as Hne.
      { intros Heq. pose proof (tiled_nodup _ _ _ (ly_tiled _ _ _ (ho_layout _ _ _ _ Hok))) as Hnd.
        rewrite fmap_app in Hnd. apply NoDup_app in Hnd as (_ & _ & Hnd).
        apply Hjk. eapply (NoDup_lookup _ j k (en_block e').1 Hnd); rewrite !list_lookup_fmap; [by rewrite Hj|by rewrite Hk; cbn; rewrite Heq]. }
      destruct (heap_disjoint lo s _ (en_block e) (en_block e') (ho_layout _ _ _ _ Hok)); [by apply elem_of_app; right| |done|lia|lia].
      apply elem_of_app; right. apply list_elem_of_fmap. exists e'. split; [done|by eapply list_elem_of_lookup_2].
Qed.

Definition op_size_ok (op : uop) : Prop := match op with UAlloc size _ => 0 ≤ size | _ => True end.

Lemma client_alloc s es size align :
  client_ok lo s es → 0 ≤ size →
  wp (alloc sbrk size align) s (λ p s',
    (p = 0 ∧ refused sbrk size align s ∧ client_ok lo s' es) ∨
    (0 < p ∧ ∃ n, client_ok lo s' (mkEntry (p - 16, n) size ∅ :: es))).
Proof.
  intros [(fl & Hok & Hs) Hall] Hsize. wp_call (alloc_spec lo sbrk Hsbrk); [done|done|done|].
  intros p s' (fl' & Hs' & Hk & [(-> & Hwhy & Hok')|(Hp & _ & n & Hn & Hok')]).
  - left. split_and!; [done|done|]. split; [eauto|by eapply entries_keep].
  - right. split; [done|]. exists n. split; [eauto|]. constructor; [|by eapply entries_keep].
    split_and!; [done|done|]. cbn. intros off v Hv. by rewrite lookup_empty in Hv.
Qed.

Lemma client_free s es k e :
  client_ok lo s es → es !! k = Some e →
  wp (dealloc ((en_block e).1 + 16)) s (λ _ s', client_ok lo s' (delete k es)).
Proof.
  intros [(fl & Hok & Hs) Hall] Hk. rewrite <-(take_drop_middle es k e Hk) in Hok, Hall.
  rewrite delete_take_drop. rewrite fmap_app, fmap_cons in Hok. destruct (en_block e) as [a n] eqn:Hblk. cbn [fst].
  replace a with (a + 16 - 16) in Hok by lia.
  assert (0 < a) as Ha.
  { destruct (ly_lo _ _ _ (ho_layout _ _ _ _ Hok)) as [? _].
    destruct (heap_block lo s _ (a + 16 - 16, n) (ho_layout _ _ _ _ Hok)) as (? & _); [apply elem_of_app; right; apply elem_of_app; right; left|].
    cbn in *. lia. }
  wp_call (dealloc_spec lo); [exact Hok|done|lia|]. intros [] s' (fl' & Hok' & Hs' & Hkeep).
  rewrite <-fmap_app in Hok', Hkeep. split; [eauto|]. eapply entries_keep; [exact Hkeep|].
  apply Forall_app in Hall as [? Hall]. apply Forall_cons in Hall as [_ ?]. by apply Forall_app.
Qed.

(** Addresses of payload words. *)
Lemma client_load s es k e off :
  client_ok lo s es → es !! k = Some e → in_bounds (en_size e) off = true →
  is_Some (cells s !! ((en_block e).1 + 16 + off)).
Proof.
  intros [(fl & Hok & _) Hall] Hk (Ho1 & Ho2 & Ho3)%in_bounds_spec. pose proof (ho_layout _ _ _ _ Hok) as Hlay.
  apply list_elem_of_lookup_2 in Hk. rewrite Forall_forall in Hall. destruct (Hall e Hk) as (H1 & H2 & _).
  destruct (heap_block lo s _ (en_block e) Hlay) as (Hb1 & _ & Hb2 & Hm & _).
  { apply elem_of_app; right. apply list_elem_of_fmap. eauto. }
  apply (ly_cells _ _ _ Hlay); [lia|]. apply Z.mod_divide in Hm as [q ->]; [|done]. apply Z.mod_divide in Ho3 as [j ->]; [|done].
  replace (q * 16 + 16 + j * 8) with ((q * 2 + 2 + j) * 8) by lia. by apply Z.mod_mul.
Qed.

Lemma user_step_spec s es op :
  client_ok lo s es → op_size_ok op →
  wp (user_step sbrk op (en_client <$> es)) s (λ '(o, ps) s', ∃ es',
    ps = en_client <$> es' ∧ spec_op op o (en_spec <$> es) (en_spec <$> es') ∧ client_ok lo s' es').
Proof.
  intros Hok Hop. destruct op as [size align|k|k off v|k off]; cbn [user_step].
  - wp_call client_alloc; [done|done|]. intros p s' [(-> & _ & Hok')|(Hp & n & Hok')]; wp_step.
    + exists es. split_and!; [done|constructor|done].
    + rewrite (proj2 (Z.eqb_neq _ _)) by lia. exists (mkEntry (p - 16, n) size ∅ :: es).
      split_and!; [|constructor|done]. cbn. unfold en_client at 2. cbn. do 2 f_equal. lia.
  - rewrite list_lookup_fmap. destruct (es !! k) as [e|] eqn:Hk; cbn [fmap option_fmap option_map]; cycle 1.
    { wp_step. exists es. split_and!; [done| |done]. replace (spec_op (UFree k) ODone (en_spec <$> es) (en_spec <$> es))
        with (spec_op (UFree k) ODone (en_spec <$> es) (delete k (en_spec <$> es))); [constructor|].
      apply lookup_ge_None in Hk. rewrite delete_take_drop, take_ge, drop_ge, app_nil_r by (rewrite length_fmap; lia). done. }
    unfold en_client at 1. wp_call client_free; [done|done|]. intros [] s' Hok'. wp_step. exists (delete k es).
    rewrite !list_fmap_delete. split_and!; [done|constructor|done].
  - rewrite list_lookup_fmap. destruct (es !! k) as [e|] eqn:Hk; cbn [fmap option_fmap option_map]; cycle 1.
    { wp_step. exists es. split_and!; [done| |done]. constructor. intros ? ?. by rewrite list_lookup_fmap, Hk. }
    unfold en_client at 1. destruct (in_bounds (en_size e) off) eqn:Hin; cycle 1.
    { wp_step. wp_step. wp_step. exists es. split_and!; [done| |done]. constructor. intros ? ?. rewrite list_lookup_fmap, Hk. by intros [= <- <-]. }
    wp_step. apply wp_store; [by eapply client_load|]. wp_step.
    exists (<[k := mkEntry (en_block e) (en_size e) (<[off := v]> (en_words e))]> es). rewrite !list_fmap_insert. split_and!.
    + symmetry. apply list_insert_id. by rewrite list_lookup_fmap, Hk.
    + apply (spec_write k off v _ (en_size e) (en_words e)); [by rewrite list_lookup_fmap, Hk|done].
    + by apply client_write.
  - rewrite list_lookup_fmap. destruct (es !! k) as [e|] eqn:Hk; cbn [fmap option_fmap option_map]; cycle 1.
    { wp_step. exists es. split_and!; [done| |done]. constructor. intros ? ?. by rewrite list_lookup_fmap, Hk. }
    unfold en_client at 1. destruct (in_bounds (en_size e) off) eqn:Hin; cycle 1.
    { wp_step. exists es. split_and!; [done| |done]. constructor. intros ? ?. rewrite list_lookup_fmap, Hk. by intros [= <- <-]. }
    destruct (client_load _ _ _ _ _ Hok Hk Hin) as [x Hx]. wp_step. eapply wp_load; [exact Hx|]. wp_step.
    exists es. split_and!; [done| |done]. apply (spec_read k off _ (en_size e) (en_words e)); [by rewrite list_lookup_fmap, Hk|done|].
    intros w Hw. destruct Hok as [_ Hall]. rewrite Forall_forall in Hall. destruct (Hall e) as (_ & _ & H3); [by eapply list_elem_of_lookup_2|].
    destruct (H3 off w Hw) as [_ ?]. congruence.
Qed.

Lemma user_run_spec s es ops :
  client_ok lo s es → Forall op_size_ok ops →
  wp (user_run sbrk ops (en_client <$> es)) s (λ '(os, ps) s', ∃ es',
    ps = en_client <$> es' ∧ spec_ops ops os (en_spec <$> es) (en_spec <$> es') ∧ client_ok lo s' es').
Proof.
  intros Hok Hops. revert s es Hok. induction Hops as [|op ops Hop _ IH]; intros s es Hok; cbn [user_run].
  - wp_step. exists es. split_and!; [done|constructor|done].
  - wp_call user_step_spec; [done|done|]. intros [o ps] s1 (es1 & -> & Hspec & Hok1).
    wp_call IH; [done|]. intros [os ps] s2 (es2 & -> & Hspecs & Hok2). wp_step.
    exists es2. split_and!; [done|by econstructor|done].
Qed.

Lemma client_start : 0 < lo → lo mod 16 = 0 → lo < HEAP_MAX → client_ok lo (mkUser ∅ 0 lo) [].
Proof.
  intros H0 Hm Hmax. split; [|constructor]. exists []. split; [|constructor]. split; [split|done]; cbn; try done.
  - by exists [].
  - by intros b ?%elem_of_nil.
  - intros a Ha. lia.
Qed.

(** Payloads of live allocations. *)
Definition payloads_ok (ps : list (Z * Z)) : Prop :=
  (∀ p, p ∈ ps → 0 < p.1 ∧ p.1 mod 16 = 0) ∧
  ∀ j k p q, ps !! j = Some p → ps !! k = Some q → j ≠ k → p.1 + p.2 ≤ q.1 ∨ q.1 + q.2 ≤ p.1.

Lemma client_payloads s es : client_ok lo s es → payloads_ok (en_client <$> es).
Proof.
  intros [(fl & [Hlay _] & _) Hall]. destruct (ly_lo _ _ _ Hlay) as [Hlo _]. rewrite Forall_forall in Hall.
  assert (∀ e, e ∈ es → en_block e ∈ fl ++ (en_block <$> es)) as Hin.
  { intros e He. apply elem_of_app; right. apply list_elem_of_fmap. eauto. }
  split.
  - intros p (e & -> & He)%list_elem_of_fmap. destruct (heap_block lo s _ _ Hlay (Hin e He)) as (? & _ & _ & Hm & _).
    unfold en_client. cbn. split; [lia|]. by rewrite Z.add_mod, Hm by lia.
  - intros j k p q Hj Hk Hjk. rewrite list_lookup_fmap in Hj, Hk.
    destruct (es !! j) as [e|] eqn:He; [|done]. destruct (es !! k) as [e'|] eqn:He'; [|done]. injection Hj as <-. injection Hk as <-.
    pose proof (list_elem_of_lookup_2 _ _ _ He) as Hine. pose proof (list_elem_of_lookup_2 _ _ _ He') as Hine'.
    destruct (Hall e Hine) as (? & ? & _). destruct (Hall e' Hine') as (? & ? & _). unfold en_client. cbn.
    assert ((en_block e).1 ≠ (en_block e').1) as Hne.
    { intros Heq. pose proof (tiled_nodup _ _ _ (ly_tiled _ _ _ Hlay)) as Hnd. rewrite fmap_app in Hnd. apply NoDup_app in Hnd as (_ & _ & Hnd).
      apply Hjk. eapply (NoDup_lookup _ j k (en_block e').1 Hnd); rewrite !list_lookup_fmap; [by rewrite He; cbn; rewrite Heq|by rewrite He']. }
    destruct (heap_disjoint lo s _ (en_block e) (en_block e') Hlay); [by apply Hin|by apply Hin|done|lia|lia].
Qed.

(** With nothing allocated, all of the heap is one free block. *)
Lemma tiled_single hi fl : tiled lo hi fl → sorted_gaps fl → fl = if lo =? hi then [] else [(lo, hi - lo)].
Proof.
  intros Ht Hs. destruct fl as [|[a n] fl].
  { destruct Ht as (l & Ht & Hp). apply Permutation_nil_r in Hp as ->. cbn in Ht. subst hi. by rewrite Z.eqb_refl. }
  destruct (Z.eqb_spec lo hi) as [<-|Hne].
  { destruct (tiled_block _ _ _ a n Ht) as (? & [? _] & ? & _); [left|lia]. }
  apply StronglySorted_inv in Hs as [Hs Hf]. rewrite Forall_forall in Hf.
  assert (∀ b, b ∈ (a, n) :: fl → b.1 ≠ a + n) as Hnext.
  { intros b [->|Hb]%elem_of_cons; [cbn; destruct (tiled_block _ _ _ a n Ht) as (_ & [? _] & _); [left|lia]|].
    specialize (Hf b Hb). unfold gap in Hf. cbn in Hf. lia. }
  assert (∀ b, b ∈ (a, n) :: fl → a ≤ b.1) as Hmin.
  { intros b [->|Hb]%elem_of_cons; [done|]. destruct (tiled_block _ _ _ a n Ht) as (_ & [? _] & _); [left|].
    specialize (Hf b Hb). unfold gap in Hf. cbn in Hf. lia. }
  destruct Ht as (l & Ht & Hp). assert ((a, n) ∈ l) as Hin by (rewrite Hp; left).
  destruct (tiles_in _ _ _ _ _ Ht Hin) as (l1 & l2 & -> & H1 & Hn & H2).
  assert (l1 = []) as ->.
  { destruct l1 as [|[c k] l1]; [done|]. exfalso. destruct H1 as (-> & [? _] & H1%tiles_bounds).
    specialize (Hmin (lo, k)). rewrite <-Hp in Hmin. specialize (Hmin (list_elem_of_here _ _)). cbn in Hmin. lia. }
  assert (l2 = []) as ->.
  { destruct l2 as [|[c k] l2]; [done|]. exfalso. destruct H2 as (-> & _).
    apply (Hnext (a + n, k)); [|done]. rewrite <-Hp. right. left. }
  cbn in H1, H2. subst a hi. cbn in Hp. apply Permutation_singleton_l in Hp. rewrite <-Hp. do 2 f_equal. lia.
Qed.

(** C14: the allocator refines memory without addresses: whatever sequence of
    allocations, releases, writes and reads a client makes, no access faults and
    every loop ends, a read returns the last word written to that place of that
    allocation, and the live payloads are 16-byte aligned and pairwise disjoint. *)
Theorem ualloc_refines ops :
  0 < lo → lo mod 16 = 0 → lo < HEAP_MAX → Forall op_size_ok ops →
  wp (user_run sbrk ops []) (mkUser ∅ 0 lo) (λ '(os, ps) s', ∃ cs,
    spec_ops ops os [] cs ∧ cs.*1 = ps.*2 ∧ payloads_ok ps).
Proof.
  intros H0 Hm Hmax Hops. pose proof (client_start H0 Hm Hmax) as Hst.
  wp_call (user_run_spec _ [] ops); [done|done|]. intros [os ps] s' (es & -> & Hspec & Hok).
  exists (en_spec <$> es). split_and!; [done|by rewrite <-!list_fmap_compose|by eapply client_payloads].
Qed.

(** Nothing is lost to fragmentation for good: when a client has released
    everything it allocated, the free list is a single block that spans the whole
    heap obtained from the system (or there is none). *)
Theorem ualloc_coalesces ops :
  0 < lo → lo mod 16 = 0 → lo < HEAP_MAX → Forall op_size_ok ops →
  wp (user_run sbrk ops []) (mkUser ∅ 0 lo) (λ '(os, ps) s',
    ps = [] → u_head s' = (if lo =? brk s' then 0 else lo) ∧
      (lo ≠ brk s' → cells s' !! lo = Some (brk s' - lo) ∧ cells s' !! (lo + 8) = Some 0)).
Proof.
  intros H0 Hm Hmax Hops. pose proof (client_start H0 Hm Hmax) as Hst.
  wp_call (user_run_spec _ [] ops); [done|done|]. intros [os ps] s' (es & -> & _ & [(fl & [Hlay Hc] & Hs) _]) Hnil.
  apply fmap_nil_inv in Hnil as ->. pose proof (ly_tiled _ _ _ Hlay) as Ht. rewrite app_nil_r in Ht.
  rewrite (tiled_single _ _ Ht Hs) in Hc. destruct (Z.eqb_spec lo (brk s')); [by split|].
  destruct Hc as (-> & Hsz & r & Hr & <-). by split.
Qed.

(** C40: An allocation fails only for a reason: [alloc] returns null only when
    the alignment is above 16, the size does not fit the address space, or the
    system refuses to move the break; in every other case the payload is 16-byte
    aligned, at least as long as requested and outside every live block. *)
Theorem ualloc_null_reason s fl al size align :
  heap_ok lo s fl al → sorted_gaps fl → 0 ≤ size →
  wp (alloc sbrk size align) s (λ p s', ∃ fl', sorted_gaps fl' ∧ keeps al s s' ∧
    (p = 0 ∧ refused sbrk size align s ∧ heap_ok lo s' fl' al ∨
     0 < p ∧ p mod 16 = 0 ∧ ∃ n, size + 16 ≤ n ∧ heap_ok lo s' fl' ((p - 16, n) :: al))).
Proof. by apply alloc_spec. Qed.
End client_run.

(** ** A run

    A system that grants memory up to 64 KiB. *)

Definition zero_words (b : Z) (l : list nat) (m : gmap Z Z) : gmap Z Z :=
  foldr (λ i : nat, <[b + 8 * Z.of_nat i := 0]>) m l.

Definition demo_sbrk (n : isize) : M ustate isize :=
  b ← gets brk;
  if (65536 <? b + n) || negb (b mod 8 =? 0) || (b <? 0) then mret (-1)
  else
    modify (λ s, mkUser (zero_words b (seq 0 (Z.to_nat ((n + 7) / 8))) (cells s)) (u_head s) (b + n));;
    mret b.

Lemma zero_words_below b l m a : a < b → zero_words b l m !! a = m !! a.
Proof. intros Ha. induction l as [|i l IH]; cbn; [done|]. by rewrite lookup_insert_ne by lia. Qed.

Lemma zero_words_at b l m (i : nat) : i ∈ l → zero_words b l m !! (b + 8 * Z.of_nat i) = Some 0.
Proof.
  induction l as [|j l IH]; intros Hi; [by apply elem_of_nil in Hi|]. cbn.
  destruct (decide (i = j)) as [->|Hne]; [by rewrite lookup_insert_eq|]. rewrite lookup_insert_ne by lia. apply IH.
  by apply elem_of_cons in Hi as [?|?].
Qed.

Lemma demo_sbrk_ok : sbrk_ok demo_sbrk.
Proof.
  intros n s Hn. unfold demo_sbrk. wp_step. wp_step.
  destruct (Z.ltb_spec 65536 (brk s + n)); cbn [orb]; [wp_step; left; split; [lia|done]|].
  destruct (Z.eqb_spec (brk s mod 8) 0) as [Hm|]; cbn [orb negb]; [|wp_step; left; split; [lia|done]].
  destruct (Z.ltb_spec (brk s) 0); [wp_step; left; split; [lia|done]|]. wp_steps. right. cbn.
  split_and!; [done|unfold HEAP_MAX; lia|done|done|by intros; apply zero_words_below|].
  intros a Ha Hma. apply Z.mod_divide in Hm as [q Hq]; [|done]. apply Z.mod_divide in Hma as [k ->]; [|done].
  replace (k * 8) with (brk s + 8 * Z.of_nat (Z.to_nat (k - q))) by lia. rewrite zero_words_at; [by eexists|].
  apply elem_of_seq. split; [lia|]. assert (k - q < (n + 7) / 8); [|lia].
  apply Z.lt_le_trans with (k - q + 1); [lia|]. apply Z.div_le_lower_bound; lia.
Qed.

Definition demo_ops : list uop :=
  [UAlloc 100 8; UAlloc 24 16; UWrite 0 8 7; UFree 1; UAlloc 10 8; URead 1 8; UFree 0; UFree 0; UAlloc 8 32].

Lemma demo_ops_ok : Forall op_size_ok demo_ops.
Proof. unfold demo_ops. repeat constructor; cbn; lia. Qed.

Lemma ualloc_refines_witness :
  wp (user_run demo_sbrk demo_ops []) (mkUser ∅ 0 4096) (λ '(os, ps) s', ∃ cs,
    spec_ops demo_ops os [] cs ∧ cs.*1 = ps.*2 ∧ payloads_ok ps).
Proof.
  apply (ualloc_refines 4096 demo_sbrk demo_sbrk_ok); [lia|done|by vm_compute|apply demo_ops_ok].
Defined.

Lemma ualloc_coalesces_witness :
  wp (user_run demo_sbrk demo_ops []) (mkUser ∅ 0 4096) (λ '(os, ps) s',
    ps = [] → u_head s' = (if 4096 =? brk s' then 0 else 4096) ∧
      (4096 ≠ brk s' → cells s' !! 4096 = Some (brk s' - 4096) ∧ cells s' !! (4096 + 8) = Some 0)).
Proof.
  apply (ualloc_coalesces 4096 demo_sbrk demo_sbrk_ok); [lia|done|by vm_compute|apply demo_ops_ok].
Defined.

Lemma ualloc_null_reason_witness :
  wp (alloc demo_sbrk 100 8) (mkUser ∅ 0 4096) (λ p s', ∃ fl', sorted_gaps fl' ∧ keeps [] (mkUser ∅ 0 4096) s' ∧
    (p = 0 ∧ refused demo_sbrk 100 8 (mkUser ∅ 0 4096) ∧ heap_ok 4096 s' fl' [] ∨
     0 < p ∧ p mod 16 = 0 ∧ ∃ n, 100 + 16 ≤ n ∧ heap_ok 4096 s' fl' [(p - 16, n)])).
Proof.
  destruct (client_start 4096 ltac:(lia) ltac:(done) ltac:(by vm_compute)) as [(fl & Hok & Hs) _].
  apply (ualloc_null_reason 4096 demo_sbrk demo_sbrk_ok _ fl []); [exact Hok|exact Hs|lia].
Defined.

(** The outputs of the run: the second allocation reuses the freed block, the
    last request is refused for its alignment, and one block of a page is left. *)
Example demo_run :
  match user_run demo_sbrk demo_ops [] (mkUser ∅ 0 4096) with
  | Ok ((os, ps), s) => Some (os, ps, u_head s, cells s !! 4096)
  | Fault _ => None
  end = Some ([OPtr true; OPtr true; ODone; ODone; OPtr true; OVal (Some 7); ODone; ODone; OPtr false], [], 4096, Some 4096).
Proof. by vm_compute. Qed.
