(* ===== verification/Shell.v ===== *)
(** * The shell's parser (src/user/src/bin/sh.rs)

    From the line read on standard input to the job it describes: trimming,
    splitting into tokens, pipelines, redirections. *)

From S2P Require Import Prelude.

Abbreviation token := (list u8) (only parsing).

Definition SPACE : u8 := 32.
Definition TAB : u8 := 9.
Definition NEWLINE : u8 := 10.
Definition RETURN : u8 := 13.
Definition BAR : token := bytes_of_string "|".
Definition LESS : token := bytes_of_string "<".
Definition GREATER : token := bytes_of_string ">".
Definition APPEND : token := bytes_of_string ">>".

Record OutputRedirect := mkOutput { path : token; append : bool }.
Record Command := mkCommand { argv : list token; c_input : option token; c_output : option OutputRedirect }.
Inductive Job := Single (c : Command) | Pipeline (cs : list Command).

(** ** Operations *)

Definition is_blank (b : u8) : bool := (b =? SPACE) || (b =? TAB).
Definition is_trailing (b : u8) : bool := (b =? NEWLINE) || (b =? RETURN) || (b =? SPACE) || (b =? TAB).

Fixpoint trim_front (s : list u8) : list u8 :=
  match s with
  | b :: s' => if is_blank b then trim_front s' else s
  | [] => []
  end.

(** Drop trailing bytes, last first. *)
Fixpoint trim_back (rev_s : list u8) : list u8 :=
  match rev_s with
  | b :: s' => if is_trailing b then trim_back s' else rev_s
  | [] => []
  end.

Definition trim_input (s : list u8) : list u8 := rev (trim_back (rev (trim_front s))).

(** [line.split(|b| matches!(b, b' ' | b'\t'))] *)
Fixpoint split_blanks (cur line : list u8) : list token :=
  match line with
  | [] => [cur]
  | b :: line => if is_blank b then cur :: split_blanks [] line else split_blanks (cur ++ [b]) line
  end.

Definition tokens_of (line : list u8) : list token := filter (λ t, t ≠ []) (split_blanks [] line).

Fixpoint parse_command_from (tokens : list token) (args : list token) (input : option token)
    (output : option OutputRedirect) : option Command :=
  match tokens with
  | [] => Some (mkCommand args input output)
  | t :: rest =>
      if decide (t = LESS) then
        match rest, input with
        | p :: rest', None => parse_command_from rest' args (Some p) output
        | _, _ => None
        end
      else if decide (t = GREATER ∨ t = APPEND) then
        match rest, output with
        | p :: rest', None => parse_command_from rest' args input (Some (mkOutput p (bool_decide (t = APPEND))))
        | _, _ => None
        end
      else if decide (t = BAR) then None
      else parse_command_from rest (args ++ [t]) input output
  end.

Definition parse_command (tokens : list token) : option Command := parse_command_from tokens [] None None.

(** The loop of [parse_job]: [rest] is what follows position [i] of [tokens]. *)
Fixpoint parse_segments (tokens rest : list token) (i start : nat) (cmds : list Command) :
  option (list Command * nat) :=
  match rest with
  | [] => Some (cmds, start)
  | t :: rest' =>
      if decide (t = BAR) then
        if (i =? start)%nat then None
        else
          c ← parse_command (slice start (i - start) tokens);
          parse_segments tokens rest' (S i) (S i) (cmds ++ [c])
      else parse_segments tokens rest' (S i) start cmds
  end.

(** [for (i, cmd) in cmds.iter().enumerate()] of the pipeline checks. *)
Definition redirects_ok (n i : nat) (c : Command) : bool :=
  ((i =? 0)%nat || negb (bool_decide (is_Some (c_input c)))) &&
  ((i + 1 =? n)%nat || negb (bool_decide (is_Some (c_output c)))).

Definition parse_job (tokens : list token) : option Job :=
  '(cmds, start) ← parse_segments tokens tokens 0 0 [];
  if (length tokens <=? start)%nat then None
  else
    c ← parse_command (drop start tokens);
    let cmds := cmds ++ [c] in
    if existsb (λ c, (length (argv c) =? 0)%nat) cmds then None
    else if (length cmds =? 1)%nat then Single <$> head cmds
    else if forallb (λ '(i, c), redirects_ok (length cmds) i c) (zip (seq 0 (length cmds)) cmds)
    then Some (Pipeline cmds)
    else None.

(** What the main loop does with the bytes it has read. *)
Inductive Action := Prompt | SyntaxError | Run (j : Job).

Definition parse_line (line : list u8) : Action :=
  match trim_input line with
  | [] => Prompt
  | s => match parse_job (tokens_of s) with None => SyntaxError | Some job => Run job end
  end.

Definition resolve_command (cmd : token) : list u8 :=
  if bool_decide (47 ∈ cmd) then cmd else bytes_of_string "/bin/" ++ cmd.

(** ** Printing a job *)

Definition print_command (c : Command) : list token :=
  argv c ++
  match c_input c with None => [] | Some p => [LESS; p] end ++
  match c_output c with None => [] | Some o => [if append o then APPEND else GREATER; path o] end.

Fixpoint print_pipeline (cs : list Command) : list token :=
  match cs with
  | [] => []
  | [c] => print_command c
  | c :: cs => print_command c ++ BAR :: print_pipeline cs
  end.

Definition commands (j : Job) : list Command := match j with Single c => [c] | Pipeline cs => cs end.

(** Tokens separated by single spaces, ended by a newline. *)
Fixpoint spaced (ts : list token) : list u8 :=
  match ts with
  | [] => []
  | [t] => t
  | t :: ts => t ++ SPACE :: spaced ts
  end.

Definition print_line (j : Job) : list u8 := spaced (print_pipeline (commands j)) ++ [NEWLINE].

(** ** Well-formed jobs *)

Definition word (t : token) : Prop := t ≠ [] ∧ Forall (λ b, is_trailing b = false) t.
Definition plain (t : token) : Prop := t ≠ LESS ∧ t ≠ GREATER ∧ t ≠ APPEND ∧ t ≠ BAR.

Record command_ok (c : Command) : Prop := {
  co_argv : argv c ≠ [];
  co_plain : Forall (λ t, word t ∧ plain t) (argv c);
  co_input p : c_input c = Some p → word p ∧ p ≠ BAR;
  co_output o : c_output c = Some o → word (path o) ∧ path o ≠ BAR;
}.

Definition job_ok (j : Job) : Prop :=
  Forall command_ok (commands j) ∧
  match j with
  | Single _ => True
  | Pipeline cs => (2 ≤ length cs)%nat ∧
      (∀ i c, cs !! i = Some c → i ≠ 0%nat → c_input c = None) ∧
      (∀ i c, cs !! i = Some c → (i + 1 ≠ length cs)%nat → c_output c = None)
  end.

(** ** Parsing what was printed *)

Lemma parse_args ws rest args i o :
  Forall plain ws → parse_command_from (ws ++ rest) args i o = parse_command_from rest (args ++ ws) i o.
Proof.
  intros Hws. revert args. induction Hws as [|w ws (H1 & H2 & H3 & H4) Hws IH]; intros args; [by rewrite app_nil_r|].
  cbn [app parse_command_from]. do 3 (rewrite decide_False by tauto). rewrite IH. by rewrite <-app_assoc.
Qed.

Lemma command_roundtrip c : command_ok c → parse_command (print_command c) = Some c.
Proof.
  intros [_ Hp _ _]. unfold parse_command, print_command.
  rewrite parse_args by (eapply Forall_impl; [exact Hp|]; by intros t [_ ?]). cbn [app].
  destruct c as [args [p|] [[q [|]]|]]; cbn [argv c_input c_output app parse_command_from path append];
    rewrite ?(decide_True (P := LESS = LESS)) by done; cbn [parse_command_from]; try done;
    (rewrite decide_False by done; rewrite decide_True by (by (left || right)); done).
Qed.

Lemma print_no_bar c : command_ok c → BAR ∉ print_command c.
Proof.
  intros [_ Hp Hi Ho]. unfold print_command. rewrite !not_elem_of_app. split_and!.
  - intros Hin. rewrite Forall_forall in Hp. by destruct (Hp _ Hin) as [_ (_ & _ & _ & ?)].
  - destruct (c_input c) as [p|]; [|apply not_elem_of_nil].
    destruct (Hi p eq_refl) as [_ Hb]. rewrite !not_elem_of_cons. split_and!; [done|by apply not_eq_sym|apply not_elem_of_nil].
  - destruct (c_output c) as [o|]; [|apply not_elem_of_nil].
    destruct (Ho o eq_refl) as [_ Hb]. rewrite !not_elem_of_cons.
    split_and!; [by destruct (append o)|by apply not_eq_sym|apply not_elem_of_nil].
Qed.

Lemma print_nonempty c : command_ok c → print_command c ≠ [].
Proof. intros [Ha _ _ _]. unfold print_command. by destruct (argv c). Qed.

Lemma parse_segment_skip tokens seg rest i start cmds :
  BAR ∉ seg → parse_segments tokens (seg ++ rest) i start cmds =
    parse_segments tokens rest (i + length seg) start cmds.
Proof.
  revert i. induction seg as [|t seg IH]; intros i Hs; cbn [app length parse_segments]; [by rewrite Nat.add_0_r|].
  apply not_elem_of_cons in Hs as [Ht Hs]. rewrite decide_False by congruence. rewrite IH by done. f_equal. lia.
Qed.

Lemma segments_roundtrip c cs pre cmds :
  Forall command_ok (c :: cs) →
  ∃ init cl pre', c :: cs = init ++ [cl] ∧
    pre ++ print_pipeline (c :: cs) = pre' ++ print_command cl ∧
    parse_segments (pre ++ print_pipeline (c :: cs)) (print_pipeline (c :: cs)) (length pre) (length pre) cmds =
      Some (cmds ++ init, length pre').
Proof.
  revert c pre cmds. induction cs as [|c' cs IH]; intros c pre cmds Hcs.
  - exists [], c, pre. apply Forall_cons in Hcs as [Hc _]. split_and!; [done|done|]. cbn [print_pipeline].
    rewrite <-(app_nil_r (print_command c)) at 2. rewrite parse_segment_skip by (by apply print_no_bar).
    by rewrite app_nil_r.
  - apply Forall_cons in Hcs as [Hc Hcs].
    change (print_pipeline (c :: c' :: cs)) with (print_command c ++ BAR :: print_pipeline (c' :: cs)).
    set (rest := print_pipeline (c' :: cs)).
    destruct (IH c' (pre ++ print_command c ++ [BAR]) (cmds ++ [c]) Hcs) as (init & cl & pre' & Heq & Hpre & Hparse).
    exists (c :: init), cl, pre'. split_and!; [by rewrite Heq| |].
    + rewrite <-Hpre. by rewrite <-!app_assoc.
    + rewrite parse_segment_skip by (by apply print_no_bar). cbn [parse_segments]. rewrite decide_True by done.
      assert (length (print_command c) ≠ 0%nat) as Hl
        by (pose proof (print_nonempty c Hc); by destruct (print_command c)).
      rewrite (proj2 (Nat.eqb_neq _ _)) by lia.
      assert (slice (length pre) (length pre + length (print_command c) - length pre)
                (pre ++ print_command c ++ BAR :: rest) = print_command c) as ->.
      { unfold slice. rewrite drop_app_length. replace (_ + _ - _)%nat with (length (print_command c)) by lia.
        apply take_app_length. }
      rewrite command_roundtrip by done. cbn [mbind option_bind].
      rewrite <-!app_assoc in Hparse. cbn [app] in Hparse. rewrite !length_app in Hparse. cbn [length] in Hparse.
      replace (S (length pre + length (print_command c))) with (length pre + (length (print_command c) + 1))%nat by lia.
      subst rest. rewrite Hparse. done.
Qed.

Lemma job_tokens_roundtrip j : job_ok j → parse_job (print_pipeline (commands j)) = Some j.
Proof.
  intros [Hok Hshape]. unfold parse_job.
  assert (commands j ≠ []) as Hne by (destruct j as [c|[|c cs]]; cbn in *; [done|lia|done]).
  assert (existsb (λ c, (length (argv c) =? 0)%nat) (commands j) = false) as Hargs.
  { apply not_true_is_false. rewrite existsb_exists. intros (c & Hin%list_elem_of_In & Hl%Nat.eqb_eq).
    rewrite Forall_forall in Hok. apply (co_argv _ (Hok c Hin)). by apply nil_length_inv. }
  destruct (commands j) as [|c cs] eqn:Hj; [done|].
  destruct (segments_roundtrip c cs [] [] Hok) as (init & cl & pre' & Heq & Hpre & Hparse).
  cbn [app length] in Hparse, Hpre. rewrite Hparse. cbn [mbind option_bind].
  assert (command_ok cl) as Hcl.
  { rewrite Forall_forall in Hok. apply Hok. rewrite Heq. apply elem_of_app. right. by apply list_elem_of_singleton. }
  assert (length (print_command cl) ≠ 0%nat) as Hl
    by (pose proof (print_nonempty cl Hcl); by destruct (print_command cl)).
  rewrite Hpre, (proj2 (Nat.leb_gt _ _)) by (rewrite length_app; lia).
  rewrite drop_app_length, command_roundtrip by done. cbn [mbind option_bind app]. rewrite <-Heq, Hargs.
  destruct j as [c'|cs']; cbn in Hj; subst.
  - injection Hj as <- <-. done.
  - destruct Hshape as (H2 & Hin & Hout). rewrite (proj2 (Nat.eqb_neq _ _)) by lia.
    assert (forallb (λ '(i, x), redirects_ok (length (c :: cs)) i x) (zip (seq 0 (length (c :: cs))) (c :: cs)) = true) as ->;
      [|done].
    apply forallb_forall. intros [i x] Hix%list_elem_of_In.
    apply list_elem_of_lookup in Hix as (k & Hk). apply lookup_zip_with_Some in Hk as (i' & x' & [= <- <-] & Hi & Hx).
    apply lookup_seq in Hi as [-> Hk]. cbn [Nat.add]. unfold redirects_ok. apply andb_true_iff. split; apply orb_true_iff.
    + destruct (decide (k = 0%nat)) as [->|Hk0]; [by left|right]. by rewrite (Hin k x Hx Hk0).
    + destruct (decide (k + 1 = length (c :: cs))%nat) as [->|Hk1]; [left; apply Nat.eqb_refl|right].
      by rewrite (Hout k x Hx Hk1).
Qed.

Lemma trailing_blank b : is_trailing b = false → is_blank b = false.
Proof. unfold is_trailing, is_blank. intros. by destruct (b =? NEWLINE), (b =? RETURN), (b =? SPACE), (b =? TAB). Qed.

Lemma split_word w cur rest :
  Forall (λ b, is_trailing b = false) w →
  split_blanks cur (w ++ SPACE :: rest) = (cur ++ w) :: split_blanks [] rest ∧ split_blanks cur w = [cur ++ w].
Proof.
  intros Hw. revert cur. induction Hw as [|b w Hb Hw IH]; intros cur; cbn [app split_blanks].
  - change (is_blank SPACE) with true. by rewrite app_nil_r.
  - rewrite (trailing_blank b Hb). destruct (IH (cur ++ [b])) as [-> ->]. by rewrite <-app_assoc.
Qed.

Lemma split_spaced ts : ts ≠ [] → Forall word ts → split_blanks [] (spaced ts) = ts.
Proof.
  intros Hne Hts. induction Hts as [|t ts [_ Ht] Hts IH]; [done|]. destruct ts as [|t' ts].
  - by apply (split_word t [] []).
  - change (spaced (t :: t' :: ts)) with (t ++ SPACE :: spaced (t' :: ts)).
    destruct (split_word t [] (spaced (t' :: ts)) Ht) as [-> _]. by rewrite IH.
Qed.

Lemma spaced_ends ts :
  ts ≠ [] → Forall word ts →
  (∃ b s, spaced ts = b :: s ∧ is_trailing b = false) ∧ (∃ s b, spaced ts = s ++ [b] ∧ is_trailing b = false).
Proof.
  intros Hne Hts. induction Hts as [|t ts [Ht Hb] Hts IH]; [done|].
  assert (∃ b s, t = b :: s ∧ is_trailing b = false) as (b & s & -> & Hbs).
  { destruct Hb as [|b s Hb' _]; [done|]. by exists b, s. }
  destruct ts as [|t' ts].
  - split; [by exists b, s|]. cbn. destruct (exists_last (l := b :: s)) as (s' & x & Hx); [done|].
    exists s', x. split; [done|]. rewrite Hx in Hb. apply Forall_app in Hb as [_ Hx']. by inversion Hx'.
  - change (spaced ((b :: s) :: t' :: ts)) with ((b :: s) ++ SPACE :: spaced (t' :: ts)).
    destruct IH as [_ (s' & x & Hx & Hxt)]; [done|]. split; [by exists b, (s ++ SPACE :: spaced (t' :: ts))|].
    exists ((b :: s) ++ SPACE :: s'), x. rewrite Hx. split; [by rewrite <-app_assoc|done].
Qed.

Lemma trim_spaced ts : ts ≠ [] → Forall word ts → trim_input (spaced ts ++ [NEWLINE]) = spaced ts.
Proof.
  intros Hne Hts. destruct (spaced_ends ts Hne Hts) as [(b & s & Hf & Hb) (s' & x & Hl & Hx)].
  unfold trim_input. assert (trim_front (spaced ts ++ [NEWLINE]) = spaced ts ++ [NEWLINE]) as ->.
  { rewrite Hf. cbn [app trim_front]. by rewrite (trailing_blank b Hb). }
  rewrite rev_app_distr. cbn [rev app trim_back]. change (is_trailing NEWLINE) with true. cbn match.
  rewrite Hl, rev_app_distr. cbn [rev app trim_back]. rewrite Hx. cbn [rev]. by rewrite rev_involutive.
Qed.

Lemma symbol_words : word LESS ∧ word GREATER ∧ word APPEND ∧ word BAR.
Proof. by repeat constructor. Qed.

Lemma two_words t u : word t → word u → Forall word [t; u].
Proof. intros Ht Hu. constructor; [done|]. constructor; [done|constructor]. Qed.

Lemma print_command_words c : command_ok c → Forall word (print_command c).
Proof.
  intros [_ Hp Hi Ho]. unfold print_command. rewrite !Forall_app. split_and!.
  - eapply Forall_impl; [exact Hp|]. by intros t [? _].
  - destruct (c_input c) as [p|]; [|constructor]. destruct (Hi p eq_refl). by apply two_words; [apply symbol_words|].
  - destruct (c_output c) as [[p a]|]; [|constructor]. destruct (Ho _ eq_refl). destruct a; by apply two_words; [apply symbol_words|].
Qed.

Lemma print_pipeline_words cs : Forall command_ok cs → Forall word (print_pipeline cs).
Proof.
  induction 1 as [|c cs Hc Hcs IH]; [constructor|]. destruct cs as [|c' cs]; [by apply print_command_words|].
  change (print_pipeline (c :: c' :: cs)) with (print_command c ++ BAR :: print_pipeline (c' :: cs)).
  apply Forall_app. split; [by apply print_command_words|]. constructor; [apply symbol_words|done].
Qed.

Lemma print_pipeline_nonempty c cs : command_ok c → print_pipeline (c :: cs) ≠ [].
Proof.
  intros Hc. pose proof (print_nonempty c Hc). destruct cs; cbn; [done|]. by destruct (print_command c).
Qed.

(** C38: parsing inverts printing: every well-formed job (commands with
    non-empty arguments, redirections of the input of the first and the output of
    the last command of a pipeline only) typed as a line is parsed to that job. *)
Theorem parse_print_line j : job_ok j → parse_line (print_line j) = Run j.
Proof.
  intros Hok. pose proof Hok as [Hcs Hshape]. unfold parse_line, print_line.
  assert (print_pipeline (commands j) ≠ []) as Hne.
  { destruct j as [c|[|c cs]]; cbn [commands] in *; [|destruct Hshape; cbn in *; lia|];
      apply Forall_cons in Hcs as [Hc _]; by apply print_pipeline_nonempty. }
  pose proof (print_pipeline_words _ Hcs) as Hw. rewrite trim_spaced by done.
  destruct (spaced_ends _ Hne Hw) as [(b & s & Hf & _) _]. rewrite Hf, <-Hf. unfold tokens_of.
  rewrite split_spaced by done. rewrite filter_all; [by rewrite job_tokens_roundtrip|].
  eapply Forall_impl; [exact Hw|]. by intros t [? _].
Qed.

(** [cat < in | wc >> out] *)
Definition demo_job : Job :=
  Pipeline [mkCommand [bytes_of_string "cat"] (Some (bytes_of_string "in")) None;
            mkCommand [bytes_of_string "wc"] None (Some (mkOutput (bytes_of_string "out") true))].

Lemma parse_print_line_witness : parse_line (bytes_of_string "cat < in | wc >> out" ++ [NEWLINE]) = Run demo_job.
Proof.
  change (bytes_of_string "cat < in | wc >> out" ++ [NEWLINE]) with (print_line demo_job).
  apply (parse_print_line demo_job). split.
  - apply Forall_cons. split; [|apply Forall_singleton]; split; cbn; try done;
      try (apply Forall_singleton); try (intros ? [= <-]); (split; [split; [done|by repeat constructor]|done]).
  - split_and!; [cbn; lia| |]; intros [|[|[|i]]] c; cbn; intros [= <-]; done.
Defined.

(** Errors and spacing. *)
Example parse_errors :
  parse_line (bytes_of_string " | wc") = SyntaxError ∧ parse_line (bytes_of_string "cat |") = SyntaxError ∧
  parse_line (bytes_of_string "cat < a < b") = SyntaxError ∧ parse_line (bytes_of_string "cat > a | wc") = SyntaxError ∧
  parse_line (bytes_of_string "   ") = Prompt ∧
  parse_line (bytes_of_string "  cat   a  ") =
    Run (Single (mkCommand [bytes_of_string "cat"; bytes_of_string "a"] None None)).
Proof. by vm_compute. Qed.
