(* ===== verification/Ulib.v ===== *)
(** * User programs: the system call library (src/user/src/lib.rs)

    A user program is an interaction tree whose events are the system calls.
    The tree fixes what the program does for every answer of the kernel: it may
    loop forever ([ITree.iter]), leave by [exit], or be replaced by [exec].  The
    user crate is built in the release profile, so arithmetic wraps; slice bounds
    are still checked, and a failed check runs the panic handler, [exit(255)].

    [runs] is total correctness against a kernel given by its answers: every run
    ends, in a state the postcondition describes. *)

From ITree Require Import Core.ITreeDefinition.
From S2P Require Import Prelude.

(** ** System calls *)

Definition SYS_FORK : usize := 1.
Definition SYS_EXIT : usize := 2.
Definition SYS_WAIT : usize := 3.
Definition SYS_PIPE : usize := 4.
Definition SYS_READ : usize := 5.
Definition SYS_EXEC : usize := 7.
Definition SYS_FSTAT : usize := 8.
Definition SYS_CHDIR : usize := 9.
Definition SYS_DUP : usize := 10.
Definition SYS_GETPID : usize := 11.
Definition SYS_SBRK : usize := 12.
Definition SYS_OPEN : usize := 15.
Definition SYS_WRITE : usize := 16.
Definition SYS_MKDIR : usize := 20.
Definition SYS_CLOSE : usize := 21.

Definition O_RDONLY : i32 := 0x000.
Definition O_WRONLY : i32 := 0x001.
Definition O_RDWR : i32 := 0x002.
Definition O_CREATE : i32 := 0x200.
Definition O_TRUNC : i32 := 0x400.
Definition O_APPEND : i32 := 0x800.

Definition T_DIR : i16 := 1.
Definition T_FILE : i16 := 2.
Definition T_DEVICE : i16 := 3.
Definition DIRSIZ : usize := 14.

Record Stat := mkStat { typ : i16; ino : u32; nlink : i16; size : u32 }.
Record Dirent := mkDirent { inum : u16; name : list u8 }.

(** One event per system call.  Slices and C strings stand for the pointers that
    are passed; what the kernel stores through a pointer is part of the answer. *)
Variant sysE : Type → Type :=
| Fork : sysE isize
| Exit (code : i32) : sysE Empty_set
| Wait : sysE (isize * option i32)
| Pipe : sysE (isize * option (i32 * i32))
| Read (fd : i32) (len : usize) : sysE (isize * list u8)
| Exec (path : list u8) (argv : list (list u8)) : sysE isize
| Fstat (fd : i32) : sysE (isize * option Stat)
| Chdir (path : list u8) : sysE isize
| Dup (fd : i32) : sysE isize
| Getpid : sysE isize
| Sbrk (increment : isize) : sysE isize
| Open (path : list u8) (flags : i32) : sysE isize
| Write (fd : i32) (buf : list u8) : sysE isize
| Mkdir (path : list u8) : sysE isize
| Close (fd : i32) : sysE isize.

(** Register [a7] of the [ecall]. *)
Definition sys_num {X} (e : sysE X) : usize :=
  match e with
  | Fork => SYS_FORK | Exit _ => SYS_EXIT | Wait => SYS_WAIT | Pipe => SYS_PIPE | Read _ _ => SYS_READ
  | Exec _ _ => SYS_EXEC | Fstat _ => SYS_FSTAT | Chdir _ => SYS_CHDIR | Dup _ => SYS_DUP | Getpid => SYS_GETPID
  | Sbrk _ => SYS_SBRK | Open _ _ => SYS_OPEN | Write _ _ => SYS_WRITE | Mkdir _ => SYS_MKDIR | Close _ => SYS_CLOSE
  end.

Definition prog : Type → Type := itree sysE.

#[global] Instance prog_ret : MRet prog := λ A a, Ret a.
#[global] Instance prog_bind : MBind prog := λ A B k t, ITree.bind t k.

(** ** Wrappers *)

Definition exit {A} (code : i32) : prog A := Vis (Exit code) (λ x : Empty_set, match x with end).

(** The panic handler. *)
Definition panic {A} : prog A := exit 255.

Definition fork : prog isize := ITree.trigger Fork.
Definition getpid : prog isize := ITree.trigger Getpid.
Definition sbrk (increment : isize) : prog isize := ITree.trigger (Sbrk increment).
Definition dup (fd : i32) : prog isize := ITree.trigger (Dup fd).
Definition close (fd : i32) : prog isize := ITree.trigger (Close fd).
Definition write (fd : i32) (buf : list u8) : prog isize := ITree.trigger (Write fd buf).

(** [wait(&mut status)]: the result and the new value of [status]. *)
Definition wait (status : i32) : prog (isize * i32) :=
  '(n, st) ← ITree.trigger Wait; mret (n, default status st).

Definition pipe (fds : i32 * i32) : prog (isize * (i32 * i32)) :=
  '(n, r) ← ITree.trigger Pipe; mret (n, default fds r).

Definition fstat (fd : i32) (st : Stat) : prog (isize * Stat) :=
  '(n, r) ← ITree.trigger (Fstat fd); mret (n, default st r).

(** [read(fd, &mut buf)]: the kernel stores a prefix of the buffer. *)
Definition read (fd : i32) (buf : list u8) : prog (isize * list u8) :=
  '(n, bs) ← ITree.trigger (Read fd (Z.of_nat (length buf)));
  mret (n, splice 0 bs buf).

(** [CString::new]: no interior NUL. *)
Definition cstring (s : list u8) : option (list u8) := if bool_decide (0 ∈ s) then None else Some s.

Definition exec (path : list u8) (argv : list (list u8)) : prog isize :=
  match cstring path with
  | None => mret (-1)
  | Some path =>
      match mapM cstring argv with
      | None => mret (-1)
      | Some args => ITree.trigger (Exec path args)
      end
  end.

Definition with_path (call : list u8 → sysE isize) (path : list u8) : prog isize :=
  match cstring path with None => mret (-1) | Some path => ITree.trigger (call path) end.

Definition chdir (path : list u8) : prog isize := with_path Chdir path.
Definition open (path : list u8) (flags : i32) : prog isize := with_path (λ p, Open p flags) path.
Definition mkdir (path : list u8) : prog isize := with_path Mkdir path.

(** A [for] loop. *)
Fixpoint for_prog {X A} (xs : list X) (body : X → A → prog A) (a : A) : prog A :=
  match xs with
  | [] => mret a
  | x :: xs => a ← body x a; for_prog xs body a
  end.

(** ** Slices, writing and printing *)

(** [&buf[n..]] and [&buf[..n]] *)
Definition slice_from {A} (l : list A) (n : usize) : prog (list A) :=
  if n <=? Z.of_nat (length l) then mret (drop (Z.to_nat n) l) else panic.
Definition slice_to {A} (l : list A) (n : usize) : prog (list A) :=
  if n <=? Z.of_nat (length l) then mret (take (Z.to_nat n) l) else panic.

(** One iteration of [while !buf.is_empty()]. *)
Definition write_step (fd : i32) (buf : list u8) : prog (list u8 + isize) :=
  match buf with
  | [] => mret (inr 0)
  | _ =>
      n ← write fd buf;
      if n <? 0 then mret (inr n)
      else if n =? 0 then mret (inr (-1))
      else rest ← slice_from buf n; mret (inl rest)
  end.

Definition write_all (fd : i32) (buf : list u8) : prog isize := ITree.iter (write_step fd) buf.

(** [Stdout::write_str] and [_print]: the pieces of the format string and its
    arguments are written in order, until one fails. *)
Definition write_str (s : list u8) : prog bool := ret ← write_all 1 s; mret (negb (ret <? 0)).

Fixpoint write_fmt (pieces : list (list u8)) : prog unit :=
  match pieces with
  | [] => mret tt
  | p :: rest => ok ← write_str p; if ok : bool then write_fmt rest else mret tt
  end.

Definition println (s : string) : prog unit := write_fmt [bytes_of_string s ++ [10]].
Definition print (s : string) : prog unit := write_fmt [bytes_of_string s].

(** ** Arguments

    [mem] is the program's memory: [None] where a load faults, which the kernel
    answers by killing the program. *)

Definition memory : Type := Z → option u8.

(** The word at [a], little endian. *)
Definition load_u64 (mem : memory) (a : Z) : option Z :=
  bs ← mapM (λ i, mem (a + Z.of_nat i)) (seq 0 8); Some (le_val bs).

(** A load that faults ends the program with status -1. *)
Definition load {A} (o : option A) : prog A :=
  match o with Some x => mret x | None => exit (-1) end.

Record Args := mkArgs { argc : usize; argv : usize }.

Definition cstr_len (mem : memory) (p : usize) : prog usize :=
  ITree.iter (λ len : Z,
    b ← load (mem (p + len));
    if b =? 0 then mret (inr len) else mret (inl (len + 1)) : prog (Z + Z)) 0.

(** [from_raw_parts(p, len)]; the bytes are looked up when they are used, which
    for the programs here is at once. *)
Definition from_raw_parts (mem : memory) (p len : usize) : prog (list u8) :=
  load (mapM (λ i, mem (p + Z.of_nat i)) (seq 0 (Z.to_nat len))).

Definition args_get (mem : memory) (args : Args) (i : usize) : prog (option (list u8)) :=
  if argc args <=? i then mret None
  else
    p ← load (load_u64 mem (argv args + 8 * i));
    if p =? 0 then mret None
    else
      len ← cstr_len mem p;
      bs ← from_raw_parts mem p len;
      mret (Some bs).

(** ** Running a program

    An operating system answers a call, or ends the program. *)

Inductive ending := Exited (code : i32) | Execed (path : list u8) (argv : list (list u8)).

Class Os (S : Type) := os_step : ∀ X, sysE X → S → X + ending → S → Prop.
Arguments os_step {S _ X} _ _ _ _.

Section runs.
Context {S : Type} `{OS : Os S}.

(** Every run of [t] from [s] ends: with a result satisfying [Q], or, when the
    program itself ends, with [E]. *)
Inductive runs {R} (Q : R → S → Prop) (E : ending → S → Prop) : prog R → S → Prop :=
| runs_Ret t s r : observe t = RetF r → Q r s → runs Q E t s
| runs_Tau t s t' : observe t = TauF t' → runs Q E t' s → runs Q E t s
| runs_Vis t s X (e : sysE X) k :
    observe t = VisF e k →
    (∀ x s', os_step e s (inl x) s' → runs Q E (k x) s') →
    (∀ o s', os_step e s (inr o) s' → E o s') →
    runs Q E t s.

Lemma runs_mono {R} (Q Q' : R → S → Prop) (E E' : ending → S → Prop) t s :
  runs Q E t s → (∀ r s, Q r s → Q' r s) → (∀ o s, E o s → E' o s) → runs Q' E' t s.
Proof. intros H HQ HE. induction H; [eapply runs_Ret|eapply runs_Tau|eapply runs_Vis]; eauto. Qed.

Lemma runs_post {R} (Q Q' : R → S → Prop) E t s :
  runs Q E t s → (∀ r s, Q r s → Q' r s) → runs Q' E t s.
Proof. intros H HQ. by eapply runs_mono. Qed.

Lemma runs_observe {R} (Q : R → S → Prop) E (t u : prog R) s : observe t = observe u → runs Q E t s → runs Q E u s.
Proof. intros Ht H. destruct H; [eapply runs_Ret|eapply runs_Tau|eapply runs_Vis]; try done; congruence. Qed.

Lemma runs_ret {R} (Q : R → S → Prop) E (r : R) s : Q r s → runs Q E (mret r) s.
Proof. by eapply runs_Ret. Qed.

Lemma observe_bind {A B} (t : prog A) (k : A → prog B) :
  observe (t ≫= k) =
    match observe t with
    | RetF r => observe (k r)
    | TauF t' => TauF (t' ≫= k)
    | VisF e h => VisF e (λ x, h x ≫= k)
    end.
Proof. unfold mbind, prog_bind, ITree.bind, observe. cbn. unfold observe. destruct (_observe t); reflexivity. Qed.

Lemma runs_bind {A B} (Q : B → S → Prop) E (t : prog A) (k : A → prog B) s :
  runs (λ a s', runs Q E (k a) s') E t s → runs Q E (t ≫= k) s.
Proof.
  induction 1 as [t s r Ht H|t s t' Ht _ IH|t s X e h Ht _ IH HE].
  - eapply runs_observe; [|exact H]. by rewrite observe_bind, Ht.
  - eapply runs_Tau; [|exact IH]. by rewrite observe_bind, Ht.
  - eapply runs_Vis; [by rewrite observe_bind, Ht|exact IH|exact HE].
Qed.

Lemma runs_trigger {X} (e : sysE X) (Q : X → S → Prop) E s :
  (∀ x s', os_step e s (inl x) s' → Q x s') → (∀ o s', os_step e s (inr o) s' → E o s') → runs Q E (ITree.trigger e) s.
Proof. intros HQ HE. eapply runs_Vis; [done| |done]. intros x s' Hx. by apply runs_ret, HQ. Qed.

Lemma runs_exit {R} code (Q : R → S → Prop) (E : ending → S → Prop) s :
  (∀ o s', os_step (Exit code) s (inr o) s' → E o s') → runs Q E (exit code) s.
Proof. intros HE. eapply runs_Vis; [done|by intros []|done]. Qed.

Lemma observe_iter {A B} (body : A → prog (A + B)) a :
  observe (ITree.iter body a : prog B) =
  observe (body a ≫= λ r, match r with inl a' => Tau (ITree.iter body a') | inr b => mret b end).
Proof. done. Qed.

(** Loop rule: an invariant indexed by a bound on the iterations left. *)
Lemma runs_iter {A B} (I : nat → A → S → Prop) (body : A → prog (A + B)) (Q : B → S → Prop) E n a s :
  (∀ n a s, I n a s → runs (λ r s',
     match r with inl a' => ∃ n', (n' < n)%nat ∧ I n' a' s' | inr b => Q b s' end) E (body a) s) →
  I n a s → runs Q E (ITree.iter body a) s.
Proof.
  intros Hbody. revert a s. induction (lt_wf n) as [n _ IH]. intros a s HI.
  eapply runs_observe; [symmetry; apply observe_iter|]. apply runs_bind. eapply runs_post; [by eapply Hbody|].
  intros [a'|b] s'; [|by apply runs_ret]. intros (n' & Hn & HI'). eapply runs_Tau; [done|]. by eapply IH.
Qed.

(** The invariant of a [for] ranges over the values already visited. *)
Lemma runs_for {X A} (I : list X → A → S → Prop) xs (body : X → A → prog A) (Q : A → S → Prop) E a s :
  I [] a s →
  (∀ pre x post a s, xs = pre ++ x :: post → I pre a s → runs (I (pre ++ [x])) E (body x a) s) →
  (∀ a s, I xs a s → Q a s) →
  runs Q E (for_prog xs body a) s.
Proof.
  intros HI Hbody Hend.
  assert (∀ post pre a s, xs = pre ++ post → I pre a s → runs Q E (for_prog post body a) s) as Hgen; [|by apply (Hgen xs [])].
  intros post. induction post as [|x post IH]; intros pre a' s' -> HI'; cbn [for_prog].
  - apply runs_ret, Hend. by rewrite app_nil_r.
  - apply runs_bind. eapply runs_post; [by eapply Hbody|]. intros a'' s'' HI''.
    apply (IH (pre ++ [x])); [by rewrite <-app_assoc|done].
Qed.
End runs.

(** ** Executing a program

    A kernel that answers every call gives an operating system, and the runs
    above are those of the interpreter. *)

Section run.
Context {S : Type} (h : ∀ X, sysE X → S → (X + ending) * S).

Definition os_of : Os S := λ X e s r s', h X e s = (r, s').

Fixpoint run {R} (fuel : nat) (t : prog R) (s : S) : option ((R + ending) * S) :=
  match fuel with
  | O => None
  | Datatypes.S fuel =>
      match observe t with
      | RetF r => Some (inl r, s)
      | TauF t' => run fuel t' s
      | VisF e k =>
          match h _ e s with
          | (inl x, s') => run fuel (k x) s'
          | (inr o, s') => Some (inr o, s')
          end
      end
  end.

(** [runs] is adequate: the interpreter ends, as promised. *)
Lemma runs_run {R} (Q : R → S → Prop) E t s :
  runs (OS := os_of) Q E t s →
  ∃ fuel r s', run fuel t s = Some (r, s') ∧ match r with inl a => Q a s' | inr o => E o s' end.
Proof.
  induction 1 as [t s r Ht HQ|t s t' Ht _ (fuel & r & s' & Hr & H)|t s X e k Ht _ IH HE].
  - exists 1%nat, (inl r), s. cbn [run]. by rewrite Ht.
  - exists (Datatypes.S fuel), r, s'. cbn [run]. by rewrite Ht.
  - destruct (h X e s) as [[x|o] s1] eqn:Hh.
    + destruct (IH x s1 Hh) as (fuel & r & s' & Hr & H). exists (Datatypes.S fuel), r, s'. cbn [run]. by rewrite Ht, Hh.
    + exists 1%nat, (inr o), s1. cbn [run]. rewrite Ht, Hh. split; [done|by apply HE].
Qed.
End run.
