(* ===== verification/Stdio.v ===== *)
(** * Standard input and output

    What the filter programs rely on: reading hands out the input in chunks,
    writing appends to the output, either may fail.  [write_all], [println!] and
    the argument vector of src/user/src/lib.rs against this interface. *)

From ITree Require Import Core.ITreeDefinition.
From S2P Require Import Prelude Ulib.

(** ** The interface

    [input] is what is left to read on descriptor [fin], [output] what has been
    written to descriptor 1, [broken] whether a write has failed, [read_failed]
    whether a read has. *)
Class Stdio (S : Type) {OS : Os S} (fin : i32) := {
  input : S → list u8;
  output : S → list u8;
  broken : S → bool;
  read_failed : S → bool;
  stdio_read len s n bs s' :
    os_step (Read fin len) s (inl (n, bs)) s' → 0 ≤ len →
    output s' = output s ∧ broken s' = broken s ∧
    (n < 0 ∧ read_failed s' = true ∨
     n = Z.of_nat (length bs) ∧ n ≤ len ∧ input s = bs ++ input s' ∧ (bs = [] → len = 0 ∨ input s = []) ∧ read_failed s' = read_failed s);
  stdio_write buf s n s' :
    os_step (Write 1 buf) s (inl n) s' → buf ≠ [] →
    input s' = input s ∧ n ≤ Z.of_nat (length buf) ∧ read_failed s' = read_failed s ∧
    (n ≤ 0 ∧ broken s' = true ∨ 0 < n ∧ broken s' = broken s ∧ output s' = output s ++ take (Z.to_nat n) buf);
  stdio_exit code s o s' : os_step (Exit code) s (inr o) s' → o = Exited code ∧ s' = s;
  stdio_alive {X} (e : sysE X) s o s' :
    os_step e s (inr o) s' → match e with Read _ _ | Write _ _ => False | _ => True end;
}.
Arguments input {_ _} fin {_} _.
Arguments output {_ _} fin {_} _.
Arguments broken {_ _} fin {_} _.
Arguments read_failed {_ _} fin {_} _.

Section stdio.
Context {S : Type} `{OS : Os S} (fin : i32) `{IO : !Stdio S fin}.
Implicit Types s : S.

Local Abbreviation input := (input fin).
Local Abbreviation output := (output fin).
Local Abbreviation broken := (broken fin).

(** From [s] to [s'], [bs] was written, unless a write failed. *)
Definition sent (bs : list u8) s s' : Prop :=
  (broken s = true → broken s' = true) ∧ (broken s' = false → output s' = output s ++ bs).

(** The same, and nothing was read. *)
Definition wrote (bs : list u8) s s' : Prop := input s' = input s ∧ sent bs s s'.

Lemma sent_quiet s s' : output s' = output s → broken s' = broken s → sent [] s s'.
Proof. intros Ho Hb. split; [congruence|]. by rewrite app_nil_r. Qed.

Lemma sent_broken bs s s' : broken s' = true → sent bs s s'.
Proof. intros Hb. split; [done|]. by rewrite Hb. Qed.

Lemma sent_app bs bs' s s' s'' : sent bs s s' → sent bs' s' s'' → sent (bs ++ bs') s s''.
Proof.
  intros (Hb & Ho) (Hb' & Ho'). split; [auto|]. intros Hn.
  rewrite (Ho' Hn), Ho, app_assoc; [done|]. destruct (broken s'); [|done]. by rewrite Hb' in Hn.
Qed.

Lemma wrote_nil s : wrote [] s s.
Proof. split; [done|by apply sent_quiet]. Qed.

Lemma wrote_broken bs s s' : input s' = input s → broken s' = true → wrote bs s s'.
Proof. intros ? Hb. split; [done|by apply sent_broken]. Qed.

Lemma wrote_app bs bs' s s' s'' : wrote bs s s' → wrote bs' s' s'' → wrote (bs ++ bs') s s''.
Proof. intros (Hi & H) (Hi' & H'). split; [congruence|by eapply sent_app]. Qed.

Lemma runs_slice_from {A} (l : list A) n s (Q : list A → S → Prop) E :
  n ≤ Z.of_nat (length l) → Q (drop (Z.to_nat n) l) s → runs Q E (slice_from l n) s.
Proof. intros Hn HQ. unfold slice_from. rewrite (proj2 (Z.leb_le _ _)) by done. by apply runs_ret. Qed.

Lemma runs_slice_to {A} (l : list A) n s (Q : list A → S → Prop) E :
  n ≤ Z.of_nat (length l) → Q (take (Z.to_nat n) l) s → runs Q E (slice_to l n) s.
Proof. intros Hn HQ. unfold slice_to. rewrite (proj2 (Z.leb_le _ _)) by done. by apply runs_ret. Qed.

(** [write_all] writes everything or reports a failure, and keeps whatever a
    [write] keeps. *)
Section keep.
Context (P : S → Prop) (HP : ∀ buf s n s', os_step (Write 1 buf) s (inl n) s' → P s → P s').

Lemma runs_write buf s (Q : isize → S → Prop) E :
  buf ≠ [] → P s →
  (∀ n s', P s' → n ≤ Z.of_nat (length buf) → wrote (take (Z.to_nat n) buf) s s' → (n ≤ 0 → broken s' = true) → Q n s') →
  runs Q E (write 1 buf) s.
Proof using HP.
  intros Hne Hs0 HQ. apply runs_trigger; [|by intros o s' []%stdio_alive].
  intros n s' Hs. destruct (stdio_write _ _ _ _ Hs Hne) as (Hi & Hn & _ & H). apply HQ; [by eauto|done| |].
  - destruct H as [[? Hb]|(? & Hb & Ho)]; [by apply wrote_broken|]. split_and!; [done|split; [congruence|done]].
  - intros ?. by destruct H as [[? Hb]|[? _]]; [|lia].
Qed.

Lemma write_all_keep buf s E :
  P s → runs (λ r s', P s' ∧ wrote buf s s' ∧ (r = 0 ∨ r < 0 ∧ broken s' = true)) E (write_all 1 buf) s.
Proof using HP.
  intros Hs0. apply (runs_iter (λ n b s', n = length b ∧ P s' ∧ ∃ done, buf = done ++ b ∧ wrote done s s') _ _ _ (length buf)).
  2: { split_and!; [done|done|]. exists []. split; [done|apply wrote_nil]. }
  intros n b s1 (-> & Hs1 & done & -> & Hw). destruct b as [|x b]; cbn [write_step].
  { apply runs_ret. rewrite app_nil_r. split_and!; [done|done|by left]. }
  set (c := x :: b). apply runs_bind, runs_write; [done|done|]. intros n s2 Hs2 Hn Hw2 Hfail.
  pose proof (wrote_app _ _ _ _ _ Hw Hw2) as (Hi & Hb & _).
  destruct (Z.ltb_spec n 0).
  { apply runs_ret. split_and!; [done|apply wrote_broken; auto with lia|]. right. auto with lia. }
  destruct (Z.eqb_spec n 0) as [->|Hn0].
  { apply runs_ret. split_and!; [done|by apply wrote_broken, Hfail|]. right. split; [done|by apply Hfail]. }
  apply runs_bind, runs_slice_from; [done|]. apply runs_ret. exists (length (drop (Z.to_nat n) c)). split.
  { rewrite length_drop. subst c. cbn [length] in *. lia. }
  split_and!; [done|done|]. exists (done ++ take (Z.to_nat n) c).
  split; [by rewrite <-app_assoc, take_drop|by eapply wrote_app].
Qed.

Lemma runs_write_fmt_keep pieces s (Q : unit → S → Prop) E :
  P s → (∀ s', P s' → wrote (concat pieces) s s' → Q tt s') → runs Q E (write_fmt pieces) s.
Proof using HP.
  revert s. induction pieces as [|p pieces IH]; intros s Hs HQ; cbn [write_fmt concat] in *.
  { apply runs_ret, HQ; [done|apply wrote_nil]. }
  apply runs_bind. unfold write_str. apply runs_bind. eapply runs_post; [by apply write_all_keep|].
  intros r s1 (Hs1 & Hw & Hr). apply runs_ret. destruct (Z.ltb_spec r 0); cbn [negb].
  - apply runs_ret, HQ; [done|]. apply wrote_broken; [apply Hw|]. by destruct Hr as [->|[_ ?]].
  - apply IH; [done|]. intros s2 Hs2 Hw2. by apply HQ, (wrote_app _ _ _ s1).
Qed.
End keep.

Lemma write_all_spec buf s E :
  runs (λ r s', wrote buf s s' ∧ (r = 0 ∨ r < 0 ∧ broken s' = true)) E (write_all 1 buf) s.
Proof. eapply runs_post; [by apply (write_all_keep (λ _, True))|]. by intros r s' (_ & H). Qed.

Lemma runs_write_all buf s (Q : isize → S → Prop) E :
  (∀ r s', wrote buf s s' → Q r s') → runs Q E (write_all 1 buf) s.
Proof. intros HQ. eapply runs_post; [apply write_all_spec|]. intros r s' [Hw _]. by apply HQ. Qed.

Lemma runs_write_fmt pieces s (Q : unit → S → Prop) E :
  (∀ s', wrote (concat pieces) s s' → Q tt s') → runs Q E (write_fmt pieces) s.
Proof. intros HQ. apply (runs_write_fmt_keep (λ _, True)); [done|done|]. intros s' _. by apply HQ. Qed.

Lemma runs_println msg s (Q : unit → S → Prop) E :
  (∀ s', wrote (bytes_of_string msg ++ [10]) s s' → Q tt s') → runs Q E (println msg) s.
Proof. intros HQ. apply runs_write_fmt. intros s' Hw. apply HQ. cbn [concat] in Hw. by rewrite app_nil_r in Hw. Qed.

Lemma runs_exit_with {R} code s (Q : R → S → Prop) (E : ending → S → Prop) :
  E (Exited code) s → runs Q E (exit code) s.
Proof. intros HE. apply runs_exit. by intros o s' [-> ->]%stdio_exit. Qed.

(** A chunk of the input, at the front of the buffer. *)
Lemma runs_read buf s (Q : isize * list u8 → S → Prop) E :
  buf ≠ [] →
  (∀ n buf' s', n < 0 → read_failed fin s' = true → output s' = output s → broken s' = broken s → Q (n, buf') s') →
  (∀ bs s', (length bs ≤ length buf)%nat → input s = bs ++ input s' → (bs = [] → input s = []) →
     output s' = output s → broken s' = broken s →
     Q (Z.of_nat (length bs), bs ++ drop (length bs) buf) s') →
  runs Q E (read fin buf) s.
Proof.
  intros Hne Hbad Hgood. apply runs_bind, runs_trigger; [|by intros o s' []%stdio_alive].
  intros [n bs] s' Hs. apply runs_ret. destruct (stdio_read _ _ _ _ _ Hs) as (Ho & Hb & H); [lia|].
  destruct H as [[? ?]|(-> & Hl & Hi & He & _)]; [by apply Hbad|]. apply Hgood; try done; [lia|].
  intros Hnil. destruct (He Hnil) as [Hz|]; [|done]. by destruct buf.
Qed.
End stdio.
