(* ===== verification/Tools.v ===== *)
(** * Small programs (src/user/src/bin/cat.rs, wc.rs, echo.rs, mkdir.rs, clear.rs) *)

From ITree Require Import Core.ITreeDefinition.
From stdpp Require Import pretty.
From S2P Require Import Prelude Ulib Stdio.

(** [usize] arithmetic of the release profile. *)
Definition wrap (z : Z) : usize := z mod 2 ^ 64.

(** [as i32] of a result. *)
Definition as_i32 (z : Z) : i32 := to_signed 32 (as_u32 z).

Definition get_unwrap (mem : memory) (args : Args) (i : usize) : prog (list u8) :=
  o ← args_get mem args i;
  match o with Some a => mret a | None => panic end.

(** ** cat *)

(** One iteration of the [loop] of [cat]. *)
Definition cat_step (fd : i32) (buf : list u8) : prog (list u8 + bool) :=
  '(n, buf) ← read fd buf;
  if 0 <? n then
    chunk ← slice_to buf n;
    _ ← write_all 1 chunk;
    mret (inl buf)
  else if n =? 0 then mret (inr true)
  else _ ← println "read failed"; mret (inr false).

Definition cat (fd : i32) : prog bool := ITree.iter (cat_step fd) (replicate 64 0).

Definition cat_start (mem : memory) (argc argv : usize) : prog Empty_set :=
  let args := mkArgs argc argv in
  if 2 <? argc then exit 1
  else
    '(fd, close_fd) ←
      (if argc =? 2 then
         path ← get_unwrap mem args 1;
         r ← open path O_RDONLY;
         let fd := as_i32 r in
         if fd <? 0 then _ ← println "open failed"; exit 1
         else mret (fd, true)
       else mret (0, false));
    ok ← cat fd;
    if negb ok then
      _ ← (if close_fd : bool then close fd else mret 0);
      exit 1
    else
      _ ← (if close_fd : bool then close fd else mret 0);
      exit 0.

(** ** wc *)

Record Count := mkCount { lines : usize; words : usize; bytes : usize }.

Definition is_space (b : u8) : bool := existsb (Z.eqb b) [32; 10; 13; 9; 0x0b; 0x0c].

(** The body of [for &b in &buf[..n as usize]]. *)
Definition count_byte (st : Count * bool) (b : u8) : Count * bool :=
  let '(count, in_word) := st in
  let count := mkCount (lines count) (words count) (wrap (bytes count + 1)) in
  let count := if b =? 10 then mkCount (wrap (lines count + 1)) (words count) (bytes count) else count in
  if is_space b then (count, false)
  else if negb in_word then (mkCount (lines count) (wrap (words count + 1)) (bytes count), true)
  else (count, in_word).

Definition count_step (fd : i32) (st : Count * bool * list u8) :
  prog (Count * bool * list u8 + option Count) :=
  let '(count, in_word, buf) := st in
  '(n, buf) ← read fd buf;
  if n <? 0 then mret (inr None)
  else if n =? 0 then mret (inr (Some count))
  else
    chunk ← slice_to buf n;
    mret (inl (fold_left count_byte chunk (count, in_word), buf)).

Definition count_fd (fd : i32) : prog (option Count) :=
  ITree.iter (count_step fd) (mkCount 0 0 0, false, replicate 128 0).

(** [buf[i] = b] *)
Definition store {A} (l : list A) (i : usize) (x : A) : prog (list A) :=
  if i <? Z.of_nat (length l) then mret (<[Z.to_nat i := x]> l) else panic.

(** One iteration of [while n > 0] of [print_usize]. *)
Definition digit_step (st : Z * list u8 * usize) : prog (Z * list u8 * usize + list u8 * usize) :=
  let '(n, buf, i) := st in
  if 0 <? n then
    let i := wrap (i - 1) in
    buf ← store buf i ((48 + (n mod 10) mod 256) mod 256);
    mret (inl (n / 10, buf, i))
  else mret (inr (buf, i)).

Definition print_usize (n : usize) : prog unit :=
  let buf := replicate 20 0 in
  let i := Z.of_nat (length buf) in
  if n =? 0 then _ ← write_all 1 (bytes_of_string "0"); mret tt
  else
    '(buf, i) ← ITree.iter digit_step (n, buf, i);
    digits ← slice_from buf i;
    _ ← write_all 1 digits;
    mret tt.

Definition print_count (count : Count) (name : option (list u8)) : prog unit :=
  _ ← print_usize (lines count);
  _ ← write_all 1 (bytes_of_string " ");
  _ ← print_usize (words count);
  _ ← write_all 1 (bytes_of_string " ");
  _ ← print_usize (bytes count);
  _ ← match name with
      | Some name => _ ← write_all 1 (bytes_of_string " "); write_all 1 name
      | None => mret 0
      end;
  println "".

(** One iteration of [for i in 1..args.len()]. *)
Definition wc_file (mem : memory) (args : Args) (i : usize) (st : Count * bool) : prog (Count * bool) :=
  let '(total, ok) := st in
  path ← get_unwrap mem args i;
  r ← open path O_RDONLY;
  let fd := as_i32 r in
  if fd <? 0 then
    _ ← write_all 1 path;
    _ ← println ": open failed";
    mret (total, false)
  else
    c ← count_fd fd;
    st ← match c with
         | Some count =>
             _ ← print_count count (Some path);
             mret (mkCount (wrap (lines total + lines count)) (wrap (words total + words count))
                     (wrap (bytes total + bytes count)), ok)
         | None =>
             _ ← write_all 1 path;
             _ ← println ": read failed";
             mret (total, false)
         end;
    _ ← close fd;
    mret st.

Definition wc_start (mem : memory) (argc argv : usize) : prog Empty_set :=
  let args := mkArgs argc argv in
  if argc =? 1 then
    c ← count_fd 0;
    _ ← match c with Some count => print_count count None | None => exit 1 end;
    exit 0
  else
    '(total, ok) ← for_prog (range 1 argc) (wc_file mem args) (mkCount 0 0 0, true);
    _ ← (if 2 <? argc then print_count total (Some (bytes_of_string "total")) else mret tt);
    exit (if ok : bool then 0 else 1).

(** ** echo *)

Definition echo_arg (mem : memory) (args : Args) (i : usize) (_ : unit) : prog unit :=
  _ ← (if 1 <? i then write_all 1 (bytes_of_string " ") else mret 0);
  o ← args_get mem args i;
  match o with
  | Some arg => _ ← write_all 1 arg; mret tt
  | None => mret tt
  end.

Definition echo_start (mem : memory) (argc argv : usize) : prog Empty_set :=
  _ ← for_prog (range 1 argc) (echo_arg mem (mkArgs argc argv)) tt;
  _ ← println "";
  exit 0.

(** ** mkdir and clear *)

Definition mkdir_arg (mem : memory) (args : Args) (i : usize) (failed : bool) : prog bool :=
  path ← get_unwrap mem args i;
  r ← mkdir path;
  if r <? 0 then
    _ ← write_all 1 path;
    _ ← println ": mkdir failed";
    mret true
  else mret failed.

Definition mkdir_start (mem : memory) (argc argv : usize) : prog Empty_set :=
  if argc <? 2 then _ ← println "usage: mkdir dir..."; exit 1
  else
    failed ← for_prog (range 1 argc) (mkdir_arg mem (mkArgs argc argv)) false;
    exit (if failed : bool then 1 else 0).

Definition clear_start : prog Empty_set :=
  _ ← write_all 1 ([0x1b] ++ bytes_of_string "[2J" ++ [0x1b] ++ bytes_of_string "[H");
  exit 0.

(** ** What they compute *)

Definition NEWLINE : u8 := 10.

(** The words of a text: the non-empty pieces between spaces. *)
Fixpoint pieces (cur bs : list u8) : list (list u8) :=
  match bs with
  | [] => [cur]
  | b :: bs => if is_space b then cur :: pieces [] bs else pieces (cur ++ [b]) bs
  end.

Definition words_of (bs : list u8) : list (list u8) := filter (λ w, w ≠ []) (pieces [] bs).
Definition lines_of (bs : list u8) : list u8 := filter (λ b, b = NEWLINE) bs.

Definition counts (bs : list u8) : Count :=
  mkCount (wrap (Z.of_nat (length (lines_of bs)))) (wrap (Z.of_nat (length (words_of bs))))
    (wrap (Z.of_nat (length bs))).

(** Decimal notation. *)
Definition decimal (n : Z) : list u8 := bytes_of_string (pretty (Z.to_N n)).

Definition counts_line (c : Count) (name : option (list u8)) : list u8 :=
  decimal (lines c) ++ [32] ++ decimal (words c) ++ [32] ++ decimal (bytes c) ++
  match name with Some n => [32] ++ n | None => [] end ++ [NEWLINE].

Lemma wrap_succ x y : wrap (wrap x + y) = wrap (x + y).
Proof. unfold wrap. by rewrite Zplus_mod_idemp_l. Qed.

Lemma count_byte_wrap l w n iw b :
  count_byte (mkCount (wrap l) (wrap w) (wrap n), iw) b =
  (mkCount (wrap (l + Z.b2z (b =? NEWLINE))) (wrap (w + Z.b2z (negb (is_space b || iw)))) (wrap (n + 1)), negb (is_space b)).
Proof.
  unfold count_byte, NEWLINE. cbn [lines words bytes].
  destruct (b =? 10), (is_space b), iw; cbn [negb orb Z.b2z lines words bytes]; rewrite ?wrap_succ, ?Z.add_0_r; done.
Qed.

Definition nonempty (w : list u8) : bool := match w with [] => false | _ => true end.

Definition word_count (cur bs : list u8) : nat := length (filter (λ w, w ≠ []) (pieces cur bs)).

Lemma filter_nonempty w (l : list (list u8)) :
  length (filter (λ w, w ≠ []) (w :: l)) = (Nat.b2n (nonempty w) + length (filter (λ w, w ≠ []) l))%nat.
Proof. rewrite filter_cons. destruct w; [by rewrite decide_False by tauto|by rewrite decide_True by done]. Qed.

Lemma word_count_nil cur : word_count cur [] = Nat.b2n (nonempty cur).
Proof. unfold word_count. cbn [pieces]. rewrite filter_nonempty. cbn. lia. Qed.

Lemma word_count_cons cur b bs :
  word_count cur (b :: bs) =
  if is_space b then (Nat.b2n (nonempty cur) + word_count [] bs)%nat else word_count (cur ++ [b]) bs.
Proof. unfold word_count. cbn [pieces]. destruct (is_space b); [apply filter_nonempty|done]. Qed.

Lemma lines_cons b bs : length (lines_of (b :: bs)) = (Nat.b2n (b =? NEWLINE)%Z + length (lines_of bs))%nat.
Proof.
  unfold lines_of. rewrite filter_cons. destruct (Z.eqb_spec b NEWLINE); [by rewrite decide_True|by rewrite decide_False].
Qed.

(** The fold counts the word it is in when the word starts. *)
Lemma count_bytes_spec bs cur l w n :
  (fold_left count_byte bs (mkCount (wrap l) (wrap (w + Z.b2z (nonempty cur))) (wrap n), nonempty cur)).1 =
  mkCount (wrap (l + Z.of_nat (length (lines_of bs)))) (wrap (w + Z.of_nat (word_count cur bs)))
    (wrap (n + Z.of_nat (length bs))).
Proof.
  revert cur l w n. induction bs as [|b bs IH]; intros cur l w n.
  { cbn [fold_left fst length]. rewrite word_count_nil, !Z.add_0_r. by destruct (nonempty cur). }
  cbn [fold_left]. rewrite count_byte_wrap, word_count_cons, lines_cons. cbn [length].
  assert (Z.b2z (b =? NEWLINE) = Z.of_nat (Nat.b2n (b =? NEWLINE))) as Hb by (by destruct (b =? NEWLINE)).
  destruct (is_space b) eqn:Hsp; cbn [orb negb Z.b2z].
  - specialize (IH [] (l + Z.b2z (b =? NEWLINE)) (w + Z.b2z (nonempty cur)) (n + 1)). cbn [nonempty Z.b2z] in IH.
    rewrite IH. f_equal; f_equal; [lia| |lia]. destruct (nonempty cur); cbn; lia.
  - assert (nonempty (cur ++ [b]) = true) as Hn by (by destruct cur).
    specialize (IH (cur ++ [b]) (l + Z.b2z (b =? NEWLINE)) w (n + 1)). rewrite Hn in IH. cbn [Z.b2z] in IH.
    replace (w + Z.b2z (nonempty cur) + Z.b2z (negb (nonempty cur))) with (w + 1) by (destruct (nonempty cur); cbn; lia).
    rewrite IH. f_equal; f_equal; lia.
Qed.

Lemma fold_counts bs : (fold_left count_byte bs (mkCount 0 0 0, false)).1 = counts bs.
Proof. apply (count_bytes_spec bs [] 0 0 0). Qed.

(** ** Printing numbers *)

Lemma bytes_String c str : bytes_of_string (String c str) = Z.of_nat (Ascii.nat_of_ascii c) :: bytes_of_string str.
Proof. done. Qed.

Lemma digit_byte (d : N) : (d < 10)%N → Z.of_nat (Ascii.nat_of_ascii (pretty_N_char d)) = 48 + Z.of_N d.
Proof.
  intros Hd.
  assert (d = 0 ∨ d = 1 ∨ d = 2 ∨ d = 3 ∨ d = 4 ∨ d = 5 ∨ d = 6 ∨ d = 7 ∨ d = 8 ∨ d = 9)%N as Hc by lia.
  destruct_or! Hc; subst; done.
Qed.

(** The digits written so far and those still to come. *)
Definition digits_inv (n0 : Z) (st : Z * list u8 * usize) : Prop :=
  let '(n, buf, i) := st in
  length buf = 20%nat ∧ 0 ≤ i ≤ 20 ∧ 0 ≤ n < 10 ^ i ∧
  ∃ str, pretty_N_go (Z.to_N n0) "" = pretty_N_go (Z.to_N n) str ∧ bytes_of_string str = drop (Z.to_nat i) buf.

Lemma digits_inv_step n0 n buf i :
  0 < n → digits_inv n0 (n, buf, i) →
  wrap (i - 1) < Z.of_nat (length buf) ∧
  digits_inv n0 (n / 10, <[Z.to_nat (wrap (i - 1)) := (48 + (n mod 10) mod 256) mod 256]> buf, wrap (i - 1)).
Proof.
  intros Hn (Hl & Hi & Hlt & str & Hgo & Hstr).
  assert (i ≠ 0) as Hi0 by (intros ->; change (10 ^ 0) with 1 in Hlt; lia).
  assert (wrap (i - 1) = i - 1) as -> by (apply Z.mod_small; lia). split; [lia|]. unfold digits_inv.
  pose proof (Z.mod_pos_bound n 10 ltac:(lia)) as Hmod. rewrite (Z.mod_small (n mod 10)), Z.mod_small by lia.
  split_and!; [by rewrite length_insert|lia|lia|apply Z.div_pos; lia| |].
  { apply Z.div_lt_upper_bound; [lia|]. replace (10 * 10 ^ (i - 1)) with (10 ^ i); [lia|].
    replace i with (Z.succ (i - 1)) at 1 by lia. rewrite Z.pow_succ_r by lia. done. }
  exists (String (pretty_N_char (Z.to_N n `mod` 10)) str). split.
  { rewrite Hgo, pretty_N_go_step by lia. by rewrite Z2N.inj_div by lia. }
  rewrite bytes_String, digit_byte by (apply N.mod_lt; lia). rewrite N2Z.inj_mod, Z2N.id by lia.
  rewrite insert_take_drop by lia. rewrite drop_app_ge by (rewrite length_take; lia).
  rewrite length_take, Nat.min_l by lia. replace (Z.to_nat (i - 1) - Z.to_nat (i - 1))%nat with 0%nat by lia.
  cbn [drop]. rewrite Hstr. do 2 f_equal. lia.
Qed.

Section filters.
Context {S : Type} `{OS : Os S} (fin : i32) `{IO : !Stdio S fin}.
Implicit Types s : S.
Local Abbreviation input := (input fin).
Local Abbreviation sent := (sent fin).
Local Abbreviation wrote := (wrote fin).

Lemma runs_print_usize n s (Q : unit → S → Prop) E :
  0 ≤ n < 2 ^ 64 → (∀ s', wrote (decimal n) s s' → Q tt s') → runs Q E (print_usize n) s.
Proof.
  intros Hn HQ. unfold print_usize. destruct (Z.eqb_spec n 0) as [->|Hn0].
  { apply runs_bind, (runs_write_all fin). intros r s' Hw. by apply runs_ret, HQ. }
  apply runs_bind, (runs_iter (λ k st s', k = Z.to_nat st.1.1 ∧ s' = s ∧ digits_inv n st) _ _ _ (Z.to_nat n)).
  2: { split_and!; [done|done|]. cbn. split_and!; [done|lia|lia|lia|lia|].
       by exists ""%string. }
  intros k [[m buf] i] s1 (-> & -> & Hinv). unfold digit_step. cbn [fst]. destruct (Z.ltb_spec 0 m) as [Hm|Hm].
  - destruct (digits_inv_step _ _ _ _ Hm Hinv) as [Hb Hinv']. apply runs_bind. unfold store.
    rewrite (proj2 (Z.ltb_lt _ _)) by done. apply runs_ret, runs_ret. exists (Z.to_nat (m / 10)).
    split; [|by split_and!]. assert (m / 10 < m) by (apply Z.div_lt; lia). lia.
  - destruct Hinv as (Hl & Hi & Hm' & str & Hgo & Hstr). assert (m = 0) as -> by lia. apply runs_ret.
    apply runs_bind, runs_slice_from; [lia|]. apply runs_bind, (runs_write_all fin). intros r s' Hw.
    apply runs_ret, HQ. rewrite <-Hstr in Hw. unfold decimal, pretty, pretty_N. rewrite decide_False by lia.
    by rewrite Hgo, pretty_N_go_0.
Qed.

Lemma runs_print_count c name s (Q : unit → S → Prop) E :
  0 ≤ lines c < 2 ^ 64 → 0 ≤ words c < 2 ^ 64 → 0 ≤ bytes c < 2 ^ 64 →
  (∀ s', wrote (counts_line c name) s s' → Q tt s') → runs Q E (print_count c name) s.
Proof.
  intros Hl Hw Hb HQ. unfold print_count.
  apply runs_bind, runs_print_usize; [done|]. intros s1 H1.
  apply runs_bind, (runs_write_all fin). intros _ s2 H2.
  apply runs_bind, runs_print_usize; [done|]. intros s3 H3.
  apply runs_bind, (runs_write_all fin). intros _ s4 H4.
  apply runs_bind, runs_print_usize; [done|]. intros s5 H5.
  assert (∀ s6, wrote (match name with Some n => [32] ++ n | None => [] end) s5 s6 →
    runs Q E (println "") s6) as Hend.
  { intros s6 H6. apply (runs_println fin). intros s7 H7. apply HQ. unfold counts_line.
    repeat (eapply wrote_app; [eassumption|]). done. }
  apply runs_bind. destruct name as [n|]; [|apply runs_ret, Hend, wrote_nil].
  apply runs_bind, (runs_write_all fin). intros _ s6 H6. apply (runs_write_all fin). intros _ s7 H7.
  by eapply Hend, wrote_app.
Qed.

(** The input read so far has been passed on to [f]. *)
Definition consumed (done : list u8) s s' : Prop := input s = done ++ input s'.

Lemma consumed_next done bs s s1 s2 : consumed done s s1 → input s1 = bs ++ input s2 → consumed (done ++ bs) s s2.
Proof. unfold consumed. intros -> ->. by rewrite app_assoc. Qed.

(** Splitting off what was read. *)
Lemma take_read (bs buf : list u8) : take (Z.to_nat (Z.of_nat (length bs))) (bs ++ drop (length bs) buf) = bs.
Proof. rewrite Nat2Z.id. apply take_app_length. Qed.

Lemma read_buf (bs buf : list u8) : (length bs ≤ length buf)%nat → length (bs ++ drop (length bs) buf) = length buf.
Proof. intros. rewrite length_app, length_drop. lia. Qed.

Lemma count_fd_spec s E :
  runs (λ r s', sent [] s s' ∧ match r with Some c => input s' = [] ∧ c = counts (input s) | None => read_failed fin s' = true end) E
    (count_fd fin) s.
Proof.
  apply (runs_iter (λ k st s', k = length (input s') ∧ sent [] s s' ∧ length st.2 = 128%nat ∧
    ∃ done, consumed done s s' ∧ st.1 = fold_left count_byte done (mkCount 0 0 0, false)) _ _ _ (length (input s))).
  2: { split_and!; [done|by apply sent_quiet|done|]. by exists []. }
  intros k [[c iw] buf] s1 (-> & Hs & Hbuf & done & Hdone & Hst). cbn [fst snd] in *.
  apply runs_bind, (runs_read fin); [by destruct buf| |].
  - intros n buf' s2 Hn Hf Ho Hb. rewrite (proj2 (Z.ltb_lt _ _)) by done. apply runs_ret. split; [|done].
    by eapply (sent_app _ [] []), sent_quiet.
  - intros bs s2 Hl Hi He Ho Hb. rewrite (proj2 (Z.ltb_ge _ _)) by lia.
    assert (sent [] s s2) as Hs2 by (by eapply (sent_app _ [] []), sent_quiet).
    destruct (Z.eqb_spec (Z.of_nat (length bs)) 0) as [Hz|Hz].
    + assert (bs = []) as -> by (by apply nil_length_inv; lia). apply runs_ret. split; [done|].
      specialize (He eq_refl). cbn [app] in Hi. split; [congruence|]. rewrite Hdone, He, app_nil_r, <-fold_counts.
      by rewrite <-Hst.
    + apply runs_bind, runs_slice_to; [rewrite length_app; lia|]. rewrite take_read. apply runs_ret.
      exists (length (input s2)). split; [rewrite Hi, length_app; lia|].
      split_and!; [done|done|cbn; by rewrite read_buf|]. exists (done ++ bs). split; [by eapply consumed_next|].
      by rewrite fold_left_app, <-Hst.
Qed.

Lemma cat_spec s E :
  runs (λ r s', if r : bool then input s' = [] ∧ sent (input s) s s'
    else ∃ done rest, input s = done ++ rest ∧ sent (done ++ bytes_of_string "read failed" ++ [NEWLINE]) s s')
    E (cat fin) s.
Proof.
  apply (runs_iter (λ k buf s', k = length (input s') ∧ length buf = 64%nat ∧
    ∃ done, consumed done s s' ∧ sent done s s') _ _ _ (length (input s))).
  2: { split_and!; [done|done|]. exists []. split; [done|by apply sent_quiet]. }
  intros k buf s1 (-> & Hbuf & done & Hdone & Hs). apply runs_bind, (runs_read fin); [by destruct buf| |].
  - intros n buf' s2 Hn _ Ho Hb. rewrite (proj2 (Z.ltb_ge _ _)) by lia. rewrite (proj2 (Z.eqb_neq _ _)) by lia.
    apply runs_bind, (runs_println fin). intros s3 [_ Hw]. apply runs_ret. exists done, (input s1). split; [done|].
    eapply sent_app; [|exact Hw]. rewrite <-(app_nil_r done). by eapply sent_app, sent_quiet.
  - intros bs s2 Hl Hi He Ho Hb.
    assert (sent done s s2) as Hs2 by (rewrite <-(app_nil_r done); by eapply sent_app, sent_quiet).
    destruct (Z.ltb_spec 0 (Z.of_nat (length bs))) as [Hz|Hz].
    + apply runs_bind, runs_slice_to; [rewrite length_app; lia|]. rewrite take_read.
      apply runs_bind, (runs_write_all fin). intros r s3 [Hi3 Hw]. apply runs_ret.
      exists (length (input s3)). split; [rewrite Hi3, Hi, length_app; lia|].
      split_and!; [done|by rewrite read_buf|]. exists (done ++ bs). split; [|by eapply sent_app].
      unfold consumed. rewrite Hi3. by eapply consumed_next.
    + assert (bs = []) as -> by (by apply nil_length_inv; lia). apply runs_ret. specialize (He eq_refl).
      cbn [app] in Hi. split; [congruence|]. by rewrite Hdone, He, app_nil_r.
Qed.
End filters.

(** ** Theorems *)

Lemma wrap_range z : 0 ≤ wrap z < 2 ^ 64.
Proof. apply Z.mod_pos_bound. lia. Qed.

Section stdin.
Context {S : Type} `{OS : Os S} `{IO : !Stdio S 0}.
Implicit Types s : S.

(** C28: [wc] without arguments, on any standard input and whatever chunks the
    kernel returns it in, ends; it exits with status 0 after printing, in decimal,
    the number of newlines, of words (maximal runs of bytes that are not white
    space) and of bytes of the whole input, modulo [2^64], unless a write failed;
    it exits with status 1, having printed nothing, only when a read fails. *)
Theorem wc_counts mem argv s :
  runs (λ _ _, False)
    (λ o s', o = Exited 0 ∧ input 0 s' = [] ∧ sent 0 (counts_line (counts (input 0 s)) None) s s' ∨
             o = Exited 1 ∧ read_failed 0 s' = true ∧ sent 0 [] s s') (wc_start mem 1 argv) s.
Proof.
  unfold wc_start. change (1 =? 1) with true. cbn match.
  apply runs_bind. eapply runs_post; [apply (count_fd_spec 0)|].
  intros [c|] s1 [Hs Hc]; apply runs_bind.
  - destruct Hc as [Hi ->]. apply (runs_print_count 0); [apply wrap_range..|].
    intros s2 [Hi2 Hw]. apply (runs_exit_with 0). left. split_and!; [done|congruence|].
    by eapply (sent_app _ []).
  - apply (runs_exit_with 0). right. by split_and!.
Qed.

(** [cat] without arguments copies standard input to standard output: it
    ends, and exits with status 0 when it has read all of the input and written
    it, byte for byte and in order, unless a write failed (which [cat] ignores);
    it exits with status 1 only after a failed read, and then what precedes its
    message is a prefix of the input. *)
Theorem cat_copies mem argv s :
  runs (λ _ _, False)
    (λ o s', o = Exited 0 ∧ input 0 s' = [] ∧ sent 0 (input 0 s) s s' ∨
             o = Exited 1 ∧ ∃ done rest, input 0 s = done ++ rest ∧
               sent 0 (done ++ bytes_of_string "read failed" ++ [NEWLINE]) s s') (cat_start mem 1 argv) s.
Proof.
  unfold cat_start. change (2 <? 1) with false. change (1 =? 2) with false. cbn match.
  apply runs_bind, runs_ret, runs_bind. eapply runs_post; [apply (cat_spec 0)|].
  intros [|] s1 H; cbn [negb]; apply runs_bind, runs_ret, (runs_exit_with 0); [left|right]; by split.
Qed.
End stdin.

(** ** A terminal

    At most three bytes are read and five written at a time; when [t_room] bytes
    have been written, the next write fails. *)

Record term := mkTerm { t_in : list u8; t_out : list u8; t_room : nat; t_failed : bool }.

Definition accepted (s : term) (buf : list u8) : list u8 := take (5 `min` t_room s) buf.

Definition term_call X (e : sysE X) (s : term) : (X + ending) * term :=
  match e in sysE X return (X + ending) * term with
  | Read fd len =>
      if decide (fd = 0) then
        let bs := take (Z.to_nat (Z.min len 3)) (t_in s) in
        (inl (Z.of_nat (length bs), bs), 
          mkTerm (drop (Z.to_nat (Z.min len 3)) (t_in s)) (t_out s) (t_room s) (t_failed s))
      else (inl (-1, []), s)
  | Write _ buf =>
      let bs := accepted s buf in
      (inl (if decide (bs = []) then -1 else Z.of_nat (length bs)),
        mkTerm (t_in s) (t_out s ++ bs) (t_room s - length bs) (bool_decide (bs = []) || t_failed s))
  | Exit code => (inr (Exited code), s)
  | Exec path argv => (inr (Execed path argv), s)
  | Wait => (inl (-1, None), s)
  | Pipe => (inl (-1, None), s)
  | Fstat _ => (inl (-1, None), s)
  | Fork | Chdir _ | Dup _ | Getpid | Sbrk _ | Open _ _ | Mkdir _ | Close _ => (inl (-1), s)
  end.

#[export] Instance term_os : Os term := os_of term_call.

#[export] Program Instance term_stdio : Stdio term 0 := {|
  input := t_in; output := t_out; broken := t_failed; read_failed := λ _, false;
|}.
Next Obligation.
  intros len s n bs s' Hs Hlen. unfold os_step, term_os, os_of in Hs. cbn in Hs.
  injection Hs as <- <- <-. cbn. split_and!; [done|done|right]. split_and!; [done|rewrite length_take; lia|by rewrite take_drop| |done].
  intros He. assert (length (take (Z.to_nat (len `min` 3)) (t_in s)) = 0%nat) as Hl by (by rewrite He).
  rewrite length_take in Hl. destruct (t_in s); [by right|left]. cbn in Hl. lia.
Qed.
Next Obligation.
  intros buf s n s' Hs Hne. unfold os_step, term_os, os_of in Hs. cbn [term_call] in Hs. injection Hs as <- <-.
  cbn [t_in t_out t_failed]. assert (length (accepted s buf) ≤ length buf)%nat as Hl by (unfold accepted; rewrite length_take; lia).
  split; [done|]. destruct (decide (accepted s buf = [])) as [He|He].
  - split_and!; [lia|done|left]. by rewrite bool_decide_eq_true_2.
  - split_and!; [lia|done|right]. rewrite bool_decide_eq_false_2 by done. split_and!; [|done|].
    + destruct (accepted s buf); [done|]. cbn. lia.
    + rewrite Nat2Z.id. f_equal. unfold accepted. rewrite length_take. rewrite <-(take_take buf _ (length buf)), (take_ge buf (length buf)) by lia. done.
Qed.
Next Obligation. intros code s o s' Hs. unfold os_step, term_os, os_of in Hs. by injection Hs as <- <-. Qed.
Next Obligation.
  intros X e s o s' Hs. unfold os_step, term_os, os_of in Hs. destruct e; try done; cbn in Hs. by destruct (decide _).
Qed.

Definition demo_term : term := mkTerm (bytes_of_string "to be,  or" ++ [10] ++ bytes_of_string "not") [] 100 false.

Lemma wc_counts_witness :
  runs (λ _ _, False)
    (λ o s', o = Exited 0 ∧ t_in s' = [] ∧ sent 0 (bytes_of_string "1 4 14" ++ [10]) demo_term s' ∨
             o = Exited 1 ∧ read_failed 0 s' = true ∧ sent 0 [] demo_term s') (wc_start (λ _, None) 1 0) demo_term.
Proof. exact (wc_counts (λ _, None) 0 demo_term). Defined.

Lemma cat_copies_witness :
  runs (λ _ _, False)
    (λ o s', o = Exited 0 ∧ t_in s' = [] ∧ sent 0 (t_in demo_term) demo_term s' ∨
             o = Exited 1 ∧ ∃ done rest, t_in demo_term = done ++ rest ∧
               sent 0 (done ++ bytes_of_string "read failed" ++ [NEWLINE]) demo_term s') (cat_start (λ _, None) 1 0) demo_term.
Proof. exact (cat_copies (λ _, None) 0 demo_term). Defined.

(** The programs in execution. *)
Example wc_run :
  run term_call 100 (wc_start (λ _, None) 1 0) demo_term =
  Some (inr (Exited 0), mkTerm [] (bytes_of_string "1 4 14" ++ [10]) 93 false).
Proof. by vm_compute. Qed.

Example cat_run :
  run term_call 100 (cat_start (λ _, None) 1 0) demo_term = Some (inr (Exited 0), mkTerm [] (t_in demo_term) 86 false).
Proof. by vm_compute. Qed.

(** With room for four bytes, [cat] loses the rest and still succeeds. *)
Example cat_full_run :
  run term_call 100 (cat_start (λ _, None) 1 0) (mkTerm (t_in demo_term) [] 4 false) =
  Some (inr (Exited 0), mkTerm [] (bytes_of_string "to b") 0 true).
Proof. by vm_compute. Qed.
