(* ===== verification/Uargs.v ===== *)
(** * From [exec] to the arguments of a program

    [Args::get] of src/user/src/lib.rs reads the vector that the kernel's
    [push_argv] built, and src/user/src/bin/echo.rs prints it. *)

From ITree Require Import Core.ITreeDefinition.
From S2P Require Import Prelude Spinlock Kalloc Vm PageTable UserMem Argv Syscall ExecArgs Ulib Stdio Tools.

(** The memory a program sees: the bytes its page table lets it read. *)
Definition umem (m : gmap Z (list u8)) (T : ptree) : memory := ubyte m T PTE_R.

Lemma umem_bytes m T a bs :
  user_bytes m T PTE_R a bs → mapM (λ i, umem m T (a + Z.of_nat i)) (seq 0 (length bs)) = Some bs.
Proof.
  intros Hb. apply mapM_Some, Forall2_same_length_lookup_2; [by rewrite length_seq|].
  intros i j b Hj Hi. apply lookup_seq in Hj as [-> Hj]. unfold umem. rewrite <-Hi. cbn [Nat.add]. by apply Hb.
Qed.

Lemma load_word m T a p : user_bytes m T PTE_R a (le_bytes 8 p) → 0 ≤ p < 2 ^ 64 → load_u64 (umem m T) a = Some p.
Proof.
  intros Hb Hp. unfold load_u64. apply umem_bytes in Hb. rewrite length_le_bytes in Hb. rewrite Hb.
  cbn [mbind option_bind]. by rewrite le_val_bytes_id.
Qed.

(** Strings as C strings. *)
Definition cstrings (bs : list (list u8)) : list (list u8) := (λ b, b ++ [0]) <$> bs.

Section args.
Context {S : Type} `{OS : Os S}.
Implicit Types s : S.

Lemma runs_load {A} (o : option A) x s (Q : A → S → Prop) E : o = Some x → Q x s → runs Q E (load o) s.
Proof. intros -> HQ. by apply runs_ret. Qed.

Lemma runs_cstr_len m T p b s (Q : Z → S → Prop) E :
  user_bytes m T PTE_R p (b ++ [0]) → 0 ∉ b → Q (Z.of_nat (length b)) s → runs Q E (cstr_len (umem m T) p) s.
Proof.
  intros Hb H0 HQ.
  apply (runs_iter (λ k len s', s' = s ∧ 0 ≤ len ∧ Z.of_nat k = Z.of_nat (length b) - len) _ _ _ (length b)); [|split; [done|lia]].
  intros k len s1 (-> & Hl & Hk).
  assert (Z.to_nat len < length (b ++ [0%Z]))%nat as Hlt by (rewrite length_app; cbn; lia).
  destruct (lookup_lt_is_Some_2 _ _ Hlt) as [c Hc]. apply runs_bind, (runs_load _ c).
  { unfold umem. rewrite <-Hc. replace (p + len) with (p + Z.of_nat (Z.to_nat len)) by lia. by apply Hb. }
  apply lookup_app_Some in Hc as [Hc|[Hge Hc]].
  - rewrite (proj2 (Z.eqb_neq _ _)) by (intros ->; by apply H0; eapply list_elem_of_lookup_2).
    apply lookup_lt_Some in Hc. apply runs_ret. exists (k - 1)%nat. split_and!; [lia|done|lia|lia].
  - apply list_lookup_singleton_Some in Hc as [Hz <-]. apply runs_ret. by replace len with (Z.of_nat (length b)) by lia.
Qed.

(** The vector is read back. *)
Lemma runs_args_get m T va bs i b s (Q : option (list u8) → S → Prop) E :
  argv_given m T va (cstrings bs) → bs !! i = Some b → Q (Some b) s →
  runs Q E (args_get (umem m T) (mkArgs (Z.of_nat (length bs)) va) (Z.of_nat i)) s.
Proof.
  intros ((ptrs & Hl & Hw & Hp) & _ & Hall) Hi HQ. pose proof (lookup_lt_Some _ _ _ Hi) as Hlt. unfold args_get. cbn [argc argv].
  rewrite (proj2 (Z.leb_gt _ _)) by lia. unfold cstrings in *. rewrite length_fmap in Hl.
  destruct (lookup_lt_is_Some_2 ptrs i) as [p Hpi]; [lia|].
  assert (((λ b, b ++ [0]) <$> bs) !! i = Some (b ++ [0])) as Hs by (by rewrite list_lookup_fmap, Hi).
  destruct (Hp i p _ Hpi Hs) as [Hr Hb].
  destruct (Forall_lookup_1 _ _ _ _ Hall Hs) as [(b' & [= <-]%(inj (.++ [0])) & Hb0) _].
  apply runs_bind, (runs_load _ p).
  { apply load_word; [by eapply user_word, lookup_app_l_Some|lia]. }
  rewrite (proj2 (Z.eqb_neq _ _)) by lia. apply runs_bind, (runs_cstr_len _ _ _ b); [done|done|].
  apply runs_bind, (runs_load _ b); [|by apply runs_ret]. rewrite Nat2Z.id. apply umem_bytes.
  intros j Hj. rewrite Hb by (rewrite length_app; lia). by rewrite lookup_app_l.
Qed.
End args.

(** ** echo *)

(** Arguments separated by single spaces. *)
Fixpoint joined (bs : list (list u8)) : list u8 :=
  match bs with
  | [] => []
  | [b] => b
  | b :: bs => b ++ [32] ++ joined bs
  end.

Lemma joined_snoc bs b : joined (bs ++ [b]) = joined bs ++ (if decide (bs = []) then [] else [32]) ++ b.
Proof.
  induction bs as [|c bs IH]; [done|]. rewrite decide_False by done. destruct bs as [|d bs]; [done|].
  change (joined ((c :: d :: bs) ++ [b])) with (c ++ [32] ++ joined ((d :: bs) ++ [b])). rewrite IH, decide_False by done.
  change (joined (c :: d :: bs)) with (c ++ [32] ++ joined (d :: bs)). by rewrite <-!app_assoc.
Qed.

Lemma range_split lo hi pre x post : range lo hi = pre ++ x :: post → x = lo + Z.of_nat (length pre) ∧ x < hi.
Proof.
  unfold range. intros H.
  assert (seqZ lo (hi - lo) !! length pre = Some x) as Hx%lookup_seqZ by (by rewrite H, list_lookup_middle). lia.
Qed.

Section echo.
Context {S : Type} `{OS : Os S} (fin : i32) `{IO : !Stdio S fin}.
Implicit Types s : S.

Lemma echo_spec m T va b bs s :
  argv_given m T va (cstrings (b :: bs)) →
  runs (λ _ _, False) (λ o s', o = Exited 0 ∧ wrote fin (joined bs ++ [NEWLINE]) s s')
    (echo_start (umem m T) (Z.of_nat (length (b :: bs))) va) s.
Proof.
  intros Hg. unfold echo_start.
  apply runs_bind, (runs_for (λ pre _ s', wrote fin (joined (take (length pre) bs)) s s')).
  - cbn [length take joined]. apply wrote_nil.
  - intros pre x post [] s1 [-> Hlt]%range_split Hw. set (k := length pre) in *.
    destruct (lookup_lt_is_Some_2 bs k) as [c Hc]; [cbn [length] in Hlt; lia|].
    replace (length (pre ++ [1 + Z.of_nat k])) with (Datatypes.S k) by (rewrite length_app; cbn; lia).
    rewrite (take_S_r _ _ _ Hc), joined_snoc. unfold echo_arg.
    assert (∀ s2, wrote fin (if decide (take k bs = []) then [] else [32]) s1 s2 →
      runs (λ _ s', wrote fin (joined (take k bs) ++ (if decide (take k bs = []) then [] else [32]) ++ c) s s')
        (λ o s', o = Exited 0 ∧ wrote fin (joined bs ++ [NEWLINE]) s s')
        (o ← args_get (umem m T) (mkArgs (Z.of_nat (length (b :: bs))) va) (1 + Z.of_nat k);
         match o with Some arg => _ ← write_all 1 arg; mret tt | None => mret tt end) s2) as Hrest.
    { intros s2 Hw2. apply runs_bind. replace (1 + Z.of_nat k) with (Z.of_nat (Datatypes.S k)) by lia.
      eapply runs_args_get; [done|done|]. apply runs_bind, (runs_write_all fin). intros _ s3 Hw3. apply runs_ret.
      by eapply wrote_app, wrote_app. }
    apply runs_bind. destruct (Z.ltb_spec 1 (1 + Z.of_nat k)) as [Hk|Hk].
    + apply (runs_write_all fin). intros _ s2 Hw2. apply Hrest. rewrite decide_False; [done|].
      destruct bs; [done|]. destruct k; [lia|done].
    + apply runs_ret, Hrest. rewrite decide_True; [apply wrote_nil|]. by replace k with 0%nat by lia.
  - intros [] s1 Hw. apply runs_bind, (runs_println fin). intros s2 Hw2. apply (runs_exit_with fin). split; [done|].
    eapply wrote_app; [|exact Hw2]. rewrite take_ge in Hw; [done|]. unfold range. rewrite length_seqZ. cbn [length]. lia.
Qed.
End echo.

Section exec_echo.
Context (kernel_end : usize) (Hend_pos : 0 < kernel_end) (Hend_max : kernel_end ≤ PHYSTOP).
Context {S : Type} `{OS : Os S} (fin : i32) `{IO : !Stdio S fin}.

(** C15: what a program passes to [exec] is what the new program finds: if the
    calling program's argument vector holds the strings [b :: bs], the kernel
    collects it, and if it fits on the stack page of the new address space,
    [echo], started there with the [argc] and [argv] the kernel computed, ends
    with status 0 after writing [bs] separated by single spaces and a newline,
    unless a write fails. *)
Theorem exec_echo ms T fl va b bs s :
  space_ok kernel_end ms T fl → 0 < va ≤ USIZE_MAX → argv_given (mem ms) T va (cstrings (b :: bs)) →
  wp (copy_argv (pt_root T) va zero_args) ms (λ r _, ∃ k, r = Some k ∧
    ∀ ms2 T2 fl2 top, space_ok kernel_end ms2 T2 fl2 → PGSIZE ≤ top ≤ MAXVA →
      (∀ a, top - PGSIZE ≤ a < top → is_Some (user_leaf T2 PTE_W a) ∧ is_Some (user_leaf T2 PTE_R a)) →
      wp (push_argv (pt_root T2) top k) ms2 (λ r ms',
        match r with
        | Some (_, va') =>
            runs (λ _ _, False) (λ o s', o = Exited 0 ∧ wrote fin (joined bs ++ [NEWLINE]) s s')
              (echo_start (umem (mem ms') T2) (Argv.argc k) va') s
        | None => final_sp top (cstrings (b :: bs)) < top - PGSIZE
        end)).
Proof.
  intros Hsp Hva Hg. eapply wp_mono; [apply (copy_argv_spec kernel_end Hend_pos ms T fl va Hsp Hva)|].
  intros [k|] s' (-> & Hr); [|by destruct (Hr _ Hg)]. destruct Hr as [Hk Hg'].
  pose proof (argv_given_det _ _ _ _ _ Hg Hg') as Heq. exists k. split; [done|]. intros s2 T2 fl2 top H2 Htop Hst.
  assert (Argv.argc k = Z.of_nat (length (b :: bs))) as Hargc.
  { pose proof (length_strings k Hk) as Hl. rewrite <-Heq in Hl. unfold cstrings in Hl. rewrite length_fmap in Hl.
    destruct Hk as [? _ _ _ _ _]. lia. }
  rewrite Heq, Hargc. eapply wp_mono; [by eapply push_argv_spec|]. intros [[sp va']|] s'; [|by intros []].
  intros (_ & _ & _ & _ & _ & Hu). apply echo_spec. rewrite Heq. destruct Hg' as (_ & ? & ?). done.
Qed.
End exec_echo.

Lemma exec_echo_witness :
  let bs := [bytes_of_string "-a"] in
  wp (copy_argv (demo_pg 0) 4064 zero_args) demo_pushed (λ r _, ∃ k, r = Some k ∧
    ∀ ms2 T2 fl2 top, space_ok (ram_end 4) ms2 T2 fl2 → PGSIZE ≤ top ≤ MAXVA →
      (∀ a, top - PGSIZE ≤ a < top → is_Some (user_leaf T2 PTE_W a) ∧ is_Some (user_leaf T2 PTE_R a)) →
      wp (push_argv (pt_root T2) top k) ms2 (λ r ms',
        match r with
        | Some (_, va') =>
            runs (λ _ _, False) (λ o s', o = Exited 0 ∧ wrote 0 (joined bs ++ [NEWLINE]) demo_term s')
              (echo_start (umem (mem ms') T2) (Argv.argc k) va') demo_term
        | None => final_sp top (cstrings (bytes_of_string "ls" :: bs)) < top - PGSIZE
        end)).
Proof.
  apply (exec_echo (ram_end 4) demo_end_pos 0 demo_pushed demo_tree [] 4064 (bytes_of_string "ls") [bytes_of_string "-a"] demo_term);
    [apply demo_pushed_given|by vm_compute|apply demo_pushed_given].
Defined.

Example echo_run :
  run term_call 100 (echo_start (umem (mem demo_pushed) demo_tree) 2 4064) demo_term =
  Some (inr (Exited 0), mkTerm (t_in demo_term) (bytes_of_string "-a" ++ [10]) 97 false).
Proof. by vm_compute. Qed.
