(* ===== verification/Ls.v ===== *)
(** * Listing directories (src/user/src/bin/ls.rs)

    [ls] reads the directory entries the kernel's [dirlink] wrote and asks for the
    status of each file by a path that the kernel's [namei] resolves. *)

From ITree Require Import Core.ITreeDefinition.
From stdpp Require Import pretty.
From S2P Require Import Prelude FsBase Dir Path Ulib Stdio Tools.

(** ** Operations *)

Definition empty_stat : Stat := mkStat 0 0 0 0.

(** [de.name.iter().position(|&b| b == 0)] *)
Fixpoint nul_position (l : list u8) : option nat :=
  match l with
  | [] => None
  | b :: l => if b =? 0 then Some O else S <$> nul_position l
  end.

Definition dirent_name (de : Dirent) : list u8 := take (default (Z.to_nat DIRSIZ) (nul_position (name de))) (name de).

Definition is_hidden (name : list u8) : bool := match name with b :: _ => b =? 46 | [] => false end.

Definition join_path (parent name : list u8) : list u8 :=
  if decide (parent = [47]) then [47] ++ name
  else
    let out := parent in
    let out := if bool_decide (last out = Some 47) then out else out ++ [47] in
    out ++ name.

Definition type_char (typ : i16) : list u8 :=
  bytes_of_string (if typ =? T_DIR then "d" else if typ =? T_FILE then "f" else if typ =? T_DEVICE then "c" else "?").

(** The [Display] of an integer: a sign, then the digits. *)
Definition fmt_int (z : Z) : list (list u8) :=
  (if z <? 0 then [bytes_of_string "-"] else []) ++ [decimal (Z.abs z)].

Definition entry_pieces (st : Stat) : list (list u8) :=
  [[32]; type_char (typ st); [32]] ++ fmt_int (ino st) ++ [[32]] ++ fmt_int (nlink st) ++ [[32]] ++ fmt_int (size st) ++ [[10]].

Definition print_entry (path : list u8) (st : Stat) : prog unit :=
  _ ← write_all 1 path;
  write_fmt (entry_pieces st).

(** The bytes of a [Dirent] in memory. *)
Definition Dirent_of (bs : list u8) : Dirent := mkDirent (le_val (take 2 bs)) (drop 2 bs).

(** [write_all(1, path); println!(msg)] *)
Definition complain (path : list u8) (msg : string) : prog unit := _ ← write_all 1 path; println msg.

(** One iteration of the [loop] over the entries of the directory. *)
Definition ls_step (path : list u8) (all : bool) (fd : i32) (_ : unit) : prog (unit + unit) :=
  '(n, de_bytes) ← read fd (replicate 16 0);
  let de := Dirent_of de_bytes in
  if n =? 0 then mret (inr tt)
  else if negb (n =? 16) then _ ← complain path ": short read"; mret (inr tt)
  else if inum de =? 0 then mret (inl tt)
  else
    let name := dirent_name de in
    if negb all && is_hidden name then mret (inl tt)
    else
      let child_path := join_path path name in
      r ← open child_path O_RDONLY;
      let child_fd := as_i32 r in
      if child_fd <? 0 then _ ← complain child_path ": open failed"; mret (inl tt)
      else
        '(r, child_st) ← fstat child_fd empty_stat;
        if r <? 0 then
          _ ← complain child_path ": fstat failed";
          _ ← close child_fd;
          mret (inl tt)
        else
          _ ← print_entry name child_st;
          _ ← close child_fd;
          mret (inl tt).

Definition ls (path : list u8) (all : bool) : prog unit :=
  r ← open path O_RDONLY;
  let fd := as_i32 r in
  if fd <? 0 then complain path ": open failed"
  else
    '(r, st) ← fstat fd empty_stat;
    if r <? 0 then
      _ ← complain path ": fstat failed";
      _ ← close fd;
      mret tt
    else if negb (typ st =? T_DIR) then
      _ ← print_entry path st;
      _ ← close fd;
      mret tt
    else
      _ ← ITree.iter (ls_step path all fd) tt;
      _ ← close fd;
      mret tt.

(** [for i in 1..args.len()] over the options; [i] is the next argument. *)
Fixpoint ls_options (mem : memory) (args : Args) (rest : list usize) (all : bool) (first_path : usize) : prog (bool * usize) :=
  match rest with
  | [] => mret (all, first_path)
  | i :: rest =>
      arg ← get_unwrap mem args i;
      if (first_path =? argc args) && bool_decide (arg = bytes_of_string "-a") then ls_options mem args rest true first_path
      else mret (all, if first_path =? argc args then i else first_path)
  end.

Definition ls_start (mem : memory) (argc argv : usize) : prog Empty_set :=
  let args := mkArgs argc argv in
  '(all, first_path) ← ls_options mem args (range 1 argc) false argc;
  _ ← (if first_path =? argc then ls [46] all
       else for_prog (range first_path argc) (λ i _,
         o ← args_get mem args i;
         match o with Some path => ls path all | None => mret tt end) tt);
  exit 0.

(** ** Paths and names of entries *)

Lemma join_path_eq parent nm :
  join_path parent nm = (if bool_decide (last parent = Some 47) then parent else parent ++ [47]) ++ nm.
Proof. unfold join_path. by destruct (decide (parent = [47])) as [->|]. Qed.

Lemma join_path_elems parent nm :
  slash_free nm → nm ≠ [] → elems (join_path parent nm) = elems parent ++ [nm].
Proof.
  intros Hf Hne. rewrite join_path_eq, !elems_pieces. pose proof (proj2 (pieces_slash_free [] nm [] Hf Hne)) as Hn.
  case_bool_decide as Hl.
  - apply last_Some in Hl as [p ->]. rewrite <-app_assoc. cbn [app].
    rewrite !(pieces_app [] p), Hn. cbn [pieces]. by rewrite app_nil_r.
  - rewrite <-app_assoc. cbn [app]. by rewrite (pieces_app [] parent), Hn.
Qed.

Lemma nul_position_app b l : 0 ∉ b → nul_position (b ++ 0 :: l) = Some (length b) ∧ nul_position b = None.
Proof.
  induction b as [|x b IH]; intros Hb; [done|]. apply not_elem_of_cons in Hb as [Hx Hb]. cbn [app nul_position].
  rewrite (proj2 (Z.eqb_neq _ _)) by congruence. by destruct (IH Hb) as [-> ->].
Qed.

Lemma dirent_name_padded i nm :
  0 ∉ nm → (length nm ≤ Z.to_nat DIRSIZ)%nat → dirent_name (mkDirent i (Dir.dirent_name nm)) = nm.
Proof.
  intros H0 Hl. unfold dirent_name, Dir.dirent_name. cbn [name]. rewrite Nat.min_l by done.
  rewrite (take_ge nm) by done. unfold splice. rewrite take_0. cbn [app Nat.add]. rewrite drop_replicate.
  destruct (Z.to_nat FsBase.DIRSIZ - length nm)%nat as [|k] eqn:Hk; cbn [replicate].
  - rewrite app_nil_r. rewrite (proj2 (nul_position_app nm [] H0)). by apply take_ge.
  - rewrite (proj1 (nul_position_app nm _ H0)). cbn. apply take_app_length.
Qed.

(** What [ls] makes of a directory entry fits the kernel.  The name it reads
    from an entry is the one the kernel stored (any name of at most fourteen bytes
    other than NUL), and the path it builds for it is resolved by the kernel as
    the path of the directory followed by that name, from the same starting
    point. *)
Theorem ls_names_entries i nm parent :
  0 ≤ i < 2 ^ 16 → 0 ∉ nm → nm ≠ [] → slash_free nm → (length nm ≤ Z.to_nat DIRSIZ)%nat → parent ≠ [] →
  let de := Dirent_of (Dirent_bytes (FsBase.mkDirent i (Dir.dirent_name nm))) in
  inum de = i ∧ dirent_name de = nm ∧
  elems (join_path parent nm) = elems parent ++ [nm] ∧ head (join_path parent nm) = head parent.
Proof.
  intros Hi H0 Hne Hf Hl Hp. unfold Dirent_of, Dirent_bytes. cbn [de_inum de_name].
  rewrite take_app_le, drop_app_ge by (rewrite length_le_bytes; lia). rewrite length_le_bytes, Nat.sub_diag, drop_0.
  rewrite take_ge by (rewrite length_le_bytes; lia). split_and!.
  - cbn [inum]. by apply le_val_bytes_id.
  - by apply dirent_name_padded.
  - by apply join_path_elems.
  - rewrite join_path_eq. destruct parent as [|c p]; [done|]. by case_bool_decide.
Qed.

Lemma ls_names_entries_witness :
  let nm := bytes_of_string "motd" in
  let de := Dirent_of (Dirent_bytes (FsBase.mkDirent 7 (Dir.dirent_name nm))) in
  inum de = 7 ∧ dirent_name de = nm ∧
  elems (join_path (bytes_of_string "/etc") nm) = elems (bytes_of_string "/etc") ++ [nm] ∧
  head (join_path (bytes_of_string "/etc") nm) = head (bytes_of_string "/etc").
Proof.
  apply (ls_names_entries 7 (bytes_of_string "motd") (bytes_of_string "/etc")); [done|by apply (bool_decide_unpack _)|done|by repeat constructor|apply Nat.leb_le; by vm_compute|done].
Defined.

(** ** Listings *)

(** A file system that does not change while [ls] runs: [node] gives the status
    and the contents of the file at a path, [files] those of the open
    descriptors, with the contents still to be read. *)
Class Tree (S : Type) {OS : Os S} {IO : Stdio S 0} := {
  node : list u8 → option (Stat * list u8);
  files : S → gmap i32 (Stat * list u8);
  tree_quiet {X} (e : sysE X) s x s' :
    os_step e s (inl x) s' →
    match e with Open _ _ | Fstat _ | Read _ _ | Close _ => output 0 s' = output 0 s ∧ broken 0 s' = broken 0 s | _ => True end;
  tree_open path s n s' :
    os_step (Open path O_RDONLY) s (inl n) s' →
    n = -1 ∧ node path = None ∧ files s' = files s ∨
    0 ≤ n < 2 ^ 31 ∧ files s !! n = None ∧ ∃ f, node path = Some f ∧ files s' = <[n := f]> (files s);
  tree_fstat fd s n r s' st bs :
    os_step (Fstat fd) s (inl (n, r)) s' → files s !! fd = Some (st, bs) → n = 0 ∧ r = Some st ∧ files s' = files s;
  tree_read fd len s n d s' st bs :
    os_step (Read fd len) s (inl (n, d)) s' → files s !! fd = Some (st, bs) → 0 ≤ len →
    n = Z.of_nat (length d) ∧ d = take (Z.to_nat len) bs ∧ files s' = <[fd := (st, drop (Z.to_nat len) bs)]> (files s);
  tree_close fd s n s' : os_step (Close fd) s (inl n) s' → files s' = delete fd (files s);
  tree_write buf s n s' : os_step (Write 1 buf) s (inl n) s' → files s' = files s;
  tree_alive {X} (e : sysE X) s o s' :
    os_step e s (inr o) s' → match e with Open _ _ | Fstat _ | Read _ _ | Close _ => False | _ => True end;
}.

Definition entry_line (nm : list u8) (st : Stat) : list u8 := nm ++ concat (entry_pieces st).

Definition message (path : list u8) (msg : string) : list u8 := path ++ bytes_of_string msg ++ [10].

Section tree.
Context {S : Type} `{OS : Os S} `{IO : !Stdio S 0} `{T : !Tree S}.
Implicit Types s : S.
Local Abbreviation sent := (sent 0).

(** What [ls] prints for an entry of the directory at [path]. *)
Definition listed (path : list u8) (all : bool) (de : Dirent) : list u8 :=
  if inum de =? 0 then []
  else if negb all && is_hidden (dirent_name de) then []
  else match node (join_path path (dirent_name de)) with
       | None => message (join_path path (dirent_name de)) ": open failed"
       | Some (st, _) => entry_line (dirent_name de) st
       end.

(** [bs] was printed and the descriptors are [fs]. *)
Definition printed (bs : list u8) (fs : gmap i32 (Stat * list u8)) s s' : Prop := sent bs s s' ∧ files s' = fs.

Lemma printed_app bs bs' fs s s1 s2 : sent bs s s1 → printed bs' fs s1 s2 → printed (bs ++ bs') fs s s2.
Proof. intros H1 [H2 ?]. split; [by eapply sent_app|done]. Qed.

Lemma runs_write_printed buf s (Q : isize → S → Prop) E :
  (∀ r s', printed buf (files s) s s' → Q r s') → runs Q E (write_all 1 buf) s.
Proof.
  intros HQ. eapply runs_post; [apply (write_all_keep 0 (λ s', files s' = files s))|].
  - intros b s1 n s2 Hs <-. by apply tree_write in Hs.
  - done.
  - intros r s' (Hf & [_ Hw] & _). by apply HQ.
Qed.

Lemma runs_fmt_printed ps s (Q : unit → S → Prop) E :
  (∀ s', printed (concat ps) (files s) s s' → Q tt s') → runs Q E (write_fmt ps) s.
Proof.
  intros HQ. apply (runs_write_fmt_keep 0 (λ s', files s' = files s)).
  - intros b s1 n s2 Hs <-. by apply tree_write in Hs.
  - done.
  - intros s' Hf [_ Hw]. by apply HQ.
Qed.

Lemma runs_complain path msg s (Q : unit → S → Prop) E :
  (∀ s', printed (message path msg) (files s) s s' → Q tt s') → runs Q E (complain path msg) s.
Proof.
  intros HQ. apply runs_bind, runs_write_printed. intros _ s1 H1. apply runs_fmt_printed. intros s2 H2.
  destruct H1 as [H1 Hf]. rewrite Hf in H2. cbn [concat] in H2. rewrite app_nil_r in H2. by apply HQ, (printed_app _ _ _ _ s1).
Qed.

Lemma runs_print_entry nm st s (Q : unit → S → Prop) E :
  (∀ s', printed (entry_line nm st) (files s) s s' → Q tt s') → runs Q E (print_entry nm st) s.
Proof.
  intros HQ. apply runs_bind, runs_write_printed. intros _ s1 H1. apply runs_fmt_printed. intros s2 H2.
  destruct H1 as [H1 Hf]. rewrite Hf in H2. by apply HQ, (printed_app _ _ _ _ s1).
Qed.

Lemma as_i32_small n : 0 ≤ n < 2 ^ 31 → as_i32 n = n.
Proof.
  intros Hn. unfold as_i32, as_u32, to_signed. rewrite Z.mod_small by lia. change (2 ^ (32 - 1)) with (2 ^ 31).
  by rewrite (proj2 (Z.ltb_lt _ _)) by lia.
Qed.

Lemma runs_open path s (Q : isize → S → Prop) E :
  0 ∉ path →
  (∀ s', node path = None → printed [] (files s) s s' → Q (-1) s') →
  (∀ n f s', 0 ≤ n < 2 ^ 31 → files s !! n = None → node path = Some f → printed [] (<[n := f]> (files s)) s s' → Q n s') →
  runs Q E (open path O_RDONLY) s.
Proof.
  intros H0 Hbad Hgood. unfold open, with_path, cstring. rewrite bool_decide_eq_false_2 by done.
  apply runs_trigger; [|by intros o s' []%tree_alive]. intros n s' Hs.
  destruct (tree_quiet _ _ _ _ Hs) as [Ho Hb]. pose proof (sent_quiet _ _ _ Ho Hb) as Hq.
  destruct (tree_open _ _ _ _ Hs) as [(-> & ? & ?)|(? & ? & f & ? & ?)]; [by apply Hbad|by eapply Hgood].
Qed.

Lemma runs_fstat fd st bs s (Q : isize * Stat → S → Prop) E :
  files s !! fd = Some (st, bs) → (∀ s', printed [] (files s) s s' → Q (0, st) s') → runs Q E (fstat fd empty_stat) s.
Proof.
  intros Hfd HQ. apply runs_bind, runs_trigger; [|by intros o s' []%tree_alive]. intros [n r] s' Hs. apply runs_ret.
  destruct (tree_quiet _ _ _ _ Hs) as [Ho Hb]. destruct (tree_fstat _ _ _ _ _ _ _ Hs Hfd) as (-> & -> & ?).
  apply HQ. split; [by apply sent_quiet|done].
Qed.

Lemma runs_shut fd s (Q : isize → S → Prop) E :
  (∀ r s', printed [] (delete fd (files s)) s s' → Q r s') → runs Q E (close fd) s.
Proof.
  intros HQ. apply runs_trigger; [|by intros o s' []%tree_alive]. intros n s' Hs.
  destruct (tree_quiet _ _ _ _ Hs) as [Ho Hb]. apply HQ. split; [by apply sent_quiet|by eapply tree_close].
Qed.

Lemma runs_read_tree fd st bs buf s (Q : isize * list u8 → S → Prop) E :
  files s !! fd = Some (st, bs) →
  (∀ s', printed [] (<[fd := (st, drop (length buf) bs)]> (files s)) s s' →
     Q (Z.of_nat (length (take (length buf) bs)), splice 0 (take (length buf) bs) buf) s') →
  runs Q E (read fd buf) s.
Proof.
  intros Hfd HQ. apply runs_bind, runs_trigger; [|by intros o s' []%tree_alive]. intros [n d] s' Hs. apply runs_ret.
  destruct (tree_quiet _ _ _ _ Hs) as [Ho Hb]. destruct (tree_read _ _ _ _ _ _ _ _ Hs Hfd) as (-> & -> & Hf); [lia|].
  rewrite Nat2Z.id in *. apply HQ. split; [by apply sent_quiet|done].
Qed.

Lemma dirent_name_no_nul de : 0 ∉ dirent_name de.
Proof.
  unfold dirent_name. destruct (nul_position (name de)) as [n|] eqn:Hn; cbn [default].
  - revert n Hn. induction (name de) as [|b l IH]; intros n; cbn [nul_position]; [done|].
    destruct (Z.eqb_spec b 0) as [->|Hb]; [intros [= <-]; apply not_elem_of_nil|].
    destruct (nul_position l) as [k|]; cbn; [|done]. intros [= <-]. cbn [take]. rewrite not_elem_of_cons. split; [done|by apply IH].
  - intros Hin%elem_of_take. destruct Hin as (k & Hk & _). revert k Hk Hn.
    induction (name de) as [|b l IH]; intros k Hk; [done|]. cbn [nul_position]. destruct (Z.eqb_spec b 0) as [|Hb]; [done|].
    destruct (nul_position l); [done|]. destruct k as [|k]; cbn in Hk; [by injection Hk as ->|]. by intros _; apply (IH k).
Qed.

Lemma join_path_no_nul p nm : 0 ∉ p → 0 ∉ nm → 0 ∉ join_path p nm.
Proof.
  intros Hp Hn. rewrite join_path_eq. rewrite not_elem_of_app. split; [|done]. case_bool_decide; [done|].
  rewrite not_elem_of_app, not_elem_of_cons. split_and!; [done|done|apply not_elem_of_nil].
Qed.

(** Printing for a child, between opening and closing it. *)
Lemma ls_child_spec path nm fd st rest s0 s E :
  0 ∉ path → 0 ∉ nm → files s !! fd = Some (st, rest) → sent [] s0 s →
  runs (λ r s', r = inl tt ∧ printed
      (match node (join_path path nm) with
       | None => message (join_path path nm) ": open failed"
       | Some (st, _) => entry_line nm st
       end) (files s) s0 s') E
    (r ← open (join_path path nm) O_RDONLY;
     let child_fd := as_i32 r in
     if child_fd <? 0 then _ ← complain (join_path path nm) ": open failed"; mret (inl tt)
     else
       '(r, child_st) ← fstat child_fd empty_stat;
       if r <? 0 then
         _ ← complain (join_path path nm) ": fstat failed";
         _ ← close child_fd;
         mret (inl tt)
       else
         _ ← print_entry nm child_st;
         _ ← close child_fd;
         mret (inl tt) : prog (unit + unit)) s.
Proof.
  intros Hp Hn Hfd Hs0. apply runs_bind, runs_open; [by apply join_path_no_nul| |].
  - intros s1 Hnode [H1 Hf1]. change (as_i32 (-1) <? 0) with true. cbn match.
    apply runs_bind, runs_complain. intros s2 H2. apply runs_ret. split; [done|]. rewrite Hnode. rewrite <-Hf1.
    apply (printed_app [] _ _ _ s1); [by eapply (sent_app _ [] [])|done].
  - intros n [st' bs] s1 Hr Hfree Hnode [H1 Hf1]. cbn zeta. rewrite as_i32_small by done.
    rewrite (proj2 (Z.ltb_ge _ _)) by lia. apply runs_bind, (runs_fstat _ st' bs).
    { by rewrite Hf1, lookup_insert_eq. }
    intros s2 [H2 Hf2]. cbn match. change (0 <? 0) with false. cbn match.
    apply runs_bind, runs_print_entry. intros s3 [H3 Hf3]. apply runs_bind, runs_shut. intros r s4 [H4 Hf4].
    apply runs_ret. split; [done|]. rewrite Hnode. split.
    + rewrite <-(app_nil_r (entry_line nm st')). eapply (sent_app _ _ [] _ s3); [|done].
      eapply (sent_app _ [] _ _ s2); [|done]. eapply (sent_app _ [] [] _ s1); [|done]. by eapply (sent_app _ [] []).
    + rewrite Hf4, Hf3, Hf2, Hf1. by apply delete_insert_id.
Qed.

Lemma ls_step_spec path all fd st e rest s E :
  0 ∉ path → length e = 16%nat → files s !! fd = Some (st, e ++ rest) →
  runs (λ r s', r = inl tt ∧ printed (listed path all (Dirent_of e)) (<[fd := (st, rest)]> (files s)) s s')
    E (ls_step path all fd tt) s.
Proof.
  intros Hp He Hfd. unfold ls_step. apply runs_bind. eapply runs_read_tree; [done|]. intros s1 [H1 Hf1].
  rewrite length_replicate in *. rewrite (take_app_length' e) by done. rewrite (drop_app_length' e) in Hf1 by done. rewrite He.
  change (splice 0 e (replicate 16 0)) with (e ++ drop (length e) (replicate 16 0)). rewrite He.
  change (drop 16 (replicate 16 0)) with (@nil Z). rewrite app_nil_r. cbn match.
  change (Z.of_nat 16 =? 0) with false. change (negb (Z.of_nat 16 =? 16)) with false. cbn match.
  unfold listed. destruct (inum (Dirent_of e) =? 0); [by apply runs_ret|].
  destruct (negb all && is_hidden (dirent_name (Dirent_of e))); [by apply runs_ret|].
  rewrite <-Hf1. eapply ls_child_spec; [done|apply dirent_name_no_nul|by rewrite Hf1, lookup_insert_eq|done].
Qed.
End tree.

(** ** The listing *)

(** The entries as the kernel reads them. *)
Definition of_kernel (de : FsBase.Dirent) : Dirent := mkDirent (de_inum de) (de_name de).

Lemma parse_dir_cons e rest : length e = ENT → parse_dir (e ++ rest) = Dirent_of_bytes e :: parse_dir rest.
Proof.
  intros He. unfold parse_dir. rewrite length_app, He.
  assert ((ENT + length rest) / ENT = S (length rest / ENT))%nat as ->.
  { replace (ENT + length rest)%nat with (length rest + 1 * ENT)%nat by lia. rewrite Nat.div_add by done. lia. }
  cbn [seq fmap list_fmap]. f_equal.
  - unfold slice. rewrite Nat.mul_0_r, drop_0. by rewrite take_app_length'.
  - rewrite <-fmap_S_seq, <-list_fmap_compose. apply list_fmap_ext. intros _ i _. cbn. f_equal. unfold slice.
    rewrite drop_app_ge by lia. do 2 f_equal. lia.
Qed.

Lemma of_kernel_bytes e : length e = ENT → of_kernel (Dirent_of_bytes e) = Dirent_of e.
Proof.
  intros He. unfold of_kernel, Dirent_of_bytes, Dirent_of, slice. cbn [de_inum de_name]. rewrite drop_0. f_equal.
  apply take_ge. rewrite length_drop, He. done.
Qed.

Lemma dir_entries bs :
  Nat.divide ENT (length bs) →
  ∃ es, bs = concat es ∧ Forall (λ e, length e = 16%nat) es ∧ of_kernel <$> parse_dir bs = Dirent_of <$> es.
Proof.
  intros [n Hn]. revert bs Hn. induction n as [|n IH]; intros bs Hn.
  { exists []. assert (bs = []) as -> by (by apply nil_length_inv). by split_and!. }
  assert (length (take ENT bs) = ENT) as Hl by (rewrite length_take; lia).
  destruct (IH (drop ENT bs)) as (es & Hes & Hall & Hp); [rewrite length_drop; lia|].
  exists (take ENT bs :: es). cbn [concat]. split_and!.
  - by rewrite <-Hes, take_drop.
  - by constructor.
  - rewrite <-(take_drop ENT bs) at 1. rewrite parse_dir_cons by done. cbn [fmap list_fmap]. f_equal; [|exact Hp]. by apply of_kernel_bytes.
Qed.

Section listing.
Context {S : Type} `{OS : Os S} `{IO : !Stdio S 0} `{T : !Tree S}.
Implicit Types s : S.

Lemma ls_loop_spec path all fd st es s E :
  0 ∉ path → Forall (λ e, length e = 16%nat) es → files s !! fd = Some (st, concat es) →
  runs (λ _ s', printed (concat ((λ e, listed path all (Dirent_of e)) <$> es)) (<[fd := (st, [])]> (files s)) s s') E
    (ITree.iter (ls_step path all fd) tt) s.
Proof.
  intros Hp Hes Hfd.
  apply (runs_iter (λ k _ s1, ∃ pre post, es = pre ++ post ∧ k = length post ∧
    printed (concat ((λ e, listed path all (Dirent_of e)) <$> pre)) (<[fd := (st, concat post)]> (files s)) s s1) _ _ _ (length es)).
  2: { exists [], es. split_and!; [done|done|]. split; [by apply sent_quiet|]. by rewrite insert_id. }
  intros k [] s1 (pre & post & -> & -> & H1 & Hf1). apply Forall_app in Hes as [_ Hpost].
  assert (files s1 !! fd = Some (st, concat post)) as Hfd1 by (by rewrite Hf1, lookup_insert_eq).
  destruct post as [|e post]; cbn [concat] in *.
  - apply runs_bind. eapply runs_read_tree; [done|]. intros s2 [H2 Hf2]. rewrite take_nil. cbn [length]. cbn match.
    change (Z.of_nat 0 =? 0) with true. cbn match. apply runs_ret. rewrite app_nil_r. split.
    + rewrite <-(app_nil_r (concat _)). by eapply sent_app.
    + by rewrite Hf2, Hf1, drop_nil, insert_insert_eq.
  - apply Forall_cons in Hpost as [He Hpost]. eapply runs_post; [by apply (ls_step_spec path all fd st e (concat post))|].
    intros r s2 [-> [H2 Hf2]]. exists (length post). split; [cbn; lia|]. exists (pre ++ [e]), post.
    split_and!; [by rewrite <-app_assoc|done|]. split; [|by rewrite Hf2, Hf1, insert_insert_eq].
    rewrite fmap_app, concat_app. cbn [fmap list_fmap concat]. rewrite app_nil_r. by eapply sent_app.
Qed.

(** [ls path] ends, prints exactly what the file system holds, and closes
    every descriptor it opened: for a directory, one line per entry in use, in
    the order of the kernel's table, with the name, type, inode number, link
    count and size of the file (entries whose name starts with a dot only with
    [-a]; a message for a file that cannot be opened); for another file, its own
    line; and a message if the path cannot be opened. *)
Theorem ls_lists path all s :
  0 ∉ path → (∀ st bs, node path = Some (st, bs) → typ st = T_DIR → Nat.divide ENT (length bs)) →
  runs (λ _ s', files s' = files s ∧
    sent 0 (match node path with
            | None => message path ": open failed"
            | Some (st, bs) =>
                if typ st =? T_DIR then concat (listed path all <$> (of_kernel <$> parse_dir bs))
                else entry_line path st
            end) s s') (λ _ _, False) (ls path all) s.
Proof.
  intros Hp Hdir. unfold ls. apply runs_bind, runs_open; [done| |].
  { intros s1 -> [H1 Hf1]. change (as_i32 (-1) <? 0) with true. cbn match. apply runs_complain. intros s2 [H2 Hf2].
    split; [congruence|]. by eapply (sent_app _ []). }
  intros fd [st bs] s1 Hr Hfree Hnode [H1 Hf1]. cbn zeta. rewrite as_i32_small by done. rewrite (proj2 (Z.ltb_ge _ _)) by lia.
  apply runs_bind, (runs_fstat _ st bs); [by rewrite Hf1, lookup_insert_eq|]. intros s2 [H2 Hf2]. cbn match.
  change (0 <? 0) with false. cbn match. rewrite Hnode.
  assert (sent 0 [] s s2) as H02 by (by eapply (sent_app _ [] [])).
  assert (∀ s3 s4 f out, sent 0 out s2 s3 → files s3 = <[fd := f]> (files s2) → printed [] (delete fd (files s3)) s3 s4 →
    files s4 = files s ∧ sent 0 out s s4) as Hend.
  { intros s3 s4 f out H3 Hf3 [H4 Hf4]. split.
    - rewrite Hf4, Hf3, Hf2, Hf1, insert_insert_eq. by apply delete_insert_id.
    - rewrite <-(app_nil_r out). eapply sent_app; [|done]. by eapply (sent_app _ []). }
  destruct (Z.eqb_spec (typ st) T_DIR) as [Hty|Hty]; cbn [negb].
  - destruct (dir_entries bs (Hdir st bs Hnode Hty)) as (es & -> & Hes & ->). apply runs_bind.
    eapply runs_post; [apply (ls_loop_spec path all fd st es); [done|done|by rewrite Hf2, Hf1, lookup_insert_eq]|].
    intros _ s3 [H3 Hf3]. apply runs_bind, runs_shut. intros r s4 H4. apply runs_ret.
    rewrite <-list_fmap_compose. by eapply Hend.
  - apply runs_bind, runs_print_entry. intros s3 [H3 Hf3]. apply runs_bind, runs_shut. intros r s4 H4. apply runs_ret.
    eapply (Hend s3 s4 (st, bs)); [done| |done]. by rewrite Hf3, insert_id by (by rewrite Hf2, Hf1, lookup_insert_eq).
Qed.
End listing.

(** ** A small file system

    A root directory with itself, a hidden file, a free slot and a plain file. *)

Definition motd : Stat := mkStat T_FILE 5 1 12.
Definition root_stat : Stat := mkStat T_DIR 1 2 64.

Definition raw_entry (i : Z) (nm : string) : list u8 := Dirent_bytes (FsBase.mkDirent i (Dir.dirent_name (bytes_of_string nm))).

Definition root_bytes : list u8 := raw_entry 1 "." ++ raw_entry 4 ".hist" ++ raw_entry 0 "gone" ++ raw_entry 5 "motd".

Definition demo_node (path : list u8) : option (Stat * list u8) :=
  if decide (path = bytes_of_string "/") then Some (root_stat, root_bytes)
  else if decide (path = bytes_of_string "/.") then Some (root_stat, root_bytes)
  else if decide (path = bytes_of_string "/motd") then Some (motd, bytes_of_string "hello, world")
  else None.

Record box := mkBox { b_files : gmap i32 (Stat * list u8); b_term : term }.

Definition free_slot (m : gmap i32 (Stat * list u8)) : option i32 :=
  snd <$> list_find (λ n, m !! n = None) (seqZ 3 13).

Definition box_call (X : Type) (e : sysE X) (s : box) : list ((X + ending) * box) :=
  match e in sysE X return list ((X + ending) * box) with
  | Open path _ =>
      match demo_node path with
      | None => [(inl (-1), s)]
      | Some f => match free_slot (b_files s) with
                  | Some n => [(inl n, mkBox (<[n := f]> (b_files s)) (b_term s))]
                  | None => []
                  end
      end
  | Fstat fd => [(inl (match b_files s !! fd with Some (st, _) => (0, Some st) | None => (-1, None) end), s)]
  | Read fd len =>
      match b_files s !! fd with
      | Some (st, bs) =>
          let d := take (Z.to_nat len) bs in
          [(inl (Z.of_nat (length d), d), mkBox (<[fd := (st, drop (Z.to_nat len) bs)]> (b_files s)) (b_term s))]
      | None => [(inl (-1, []), s)]
      end
  | Close fd => [(inl 0, mkBox (delete fd (b_files s)) (b_term s))]
  | Write fd buf => let '(r, t) := term_call _ (Write fd buf) (b_term s) in [(r, mkBox (b_files s) t)]
  | Exit code => [(inr (Exited code), s)]
  | Exec path argv => [(inr (Execed path argv), s)]
  | Wait => [(inl (-1, None), s)]
  | Pipe => [(inl (-1, None), s)]
  | Fork | Chdir _ | Dup _ | Getpid | Sbrk _ | Mkdir _ => [(inl (-1), s)]
  end.

#[export] Instance box_os : Os box := λ X e s r s', (r, s') ∈ box_call X e s.

Ltac box_cases H := unfold os_step, box_os in H; cbn [box_call] in H; repeat case_match;
  rewrite ?list_elem_of_singleton in H; try (by apply not_elem_of_nil in H); try (injection H as ? ?; subst); try discriminate.

Definition b_input (s : box) : list u8 := match b_files s !! 0 with Some (_, bs) => bs | None => [] end.

#[export] Program Instance box_stdio : Stdio box 0 := {|
  input := b_input; output s := t_out (b_term s); broken s := t_failed (b_term s); read_failed s := bool_decide (b_files s !! 0 = None);
|}.
Next Obligation.
  intros len s n bs s' H Hlen. unfold os_step, box_os in H. cbn [box_call] in H. unfold b_input.
  destruct (b_files s !! 0) as [[st l]|] eqn:Hf; apply list_elem_of_singleton in H; injection H as -> -> ->; cbn;
    (split_and!; [done|done|]); [right|left; by rewrite Hf].
  rewrite lookup_insert_eq, take_drop. split_and!; [done|rewrite length_take; lia|done| |done].
  intros Hnil. apply (f_equal length) in Hnil. rewrite length_take in Hnil. destruct l; [by right|left]. cbn in Hnil. lia.
Qed.
Next Obligation.
  intros buf s n s' H Hne. unfold os_step, box_os in H. cbn [box_call] in H.
  destruct (term_call _ (Write 1 buf) (b_term s)) as [r t] eqn:Ht. apply list_elem_of_singleton in H. injection H as <- ->.
  destruct (stdio_write (fin := 0) buf (b_term s) n t Ht Hne) as (_ & Hn & _ & H). by split_and!.
Qed.
Next Obligation. intros code s o s' H. by box_cases H. Qed.
Next Obligation. intros X e s o s' H. destruct e; try done; box_cases H. Qed.

#[export] Program Instance box_tree : Tree box := {| node := demo_node; files := b_files |}.
Next Obligation. intros X e s x s' H. destruct e; try done; by box_cases H. Qed.
Next Obligation.
  intros path s n s' H. unfold os_step, box_os in H. cbn [box_call] in H. destruct (demo_node path) as [f|] eqn:Hn.
  2: { apply list_elem_of_singleton in H. injection H as -> ->. by left. }
  unfold free_slot in H. destruct (list_find _ _) as [[i k]|] eqn:Hf; cbn in H; [|by apply not_elem_of_nil in H].
  apply list_elem_of_singleton in H. injection H as -> ->. apply list_find_Some in Hf as (Hi & Hfree & _).
  apply lookup_seqZ in Hi. right. split_and!; [lia|lia|done|]. by exists f.
Qed.
Next Obligation. intros fd s n r s' st bs H Hfd. box_cases H; by simplify_eq. Qed.
Next Obligation.
  intros fd len s n d s' st bs H Hfd Hlen. box_cases H; by simplify_eq.
Qed.
Next Obligation. intros fd s n s' H. by box_cases H. Qed.
Next Obligation.
  intros buf s n s' H. unfold os_step, box_os in H. cbn [box_call] in H.
  destruct (term_call _ _ _) as [r t]. apply list_elem_of_singleton in H. by injection H as ? ->.
Qed.
Next Obligation. intros X e s o s' H. destruct e; try done; by box_cases H. Qed.

Definition demo_box : box := mkBox ∅ (mkTerm [] [] 1000 false).

Lemma ls_lists_witness :
  runs (λ _ s', b_files s' = ∅ ∧ sent 0 (bytes_of_string "motd f 5 1 12" ++ [10]) demo_box s') (λ _ _, False)
    (ls (bytes_of_string "/") false) demo_box.
Proof.
  refine (runs_post _ _ _ _ _ (ls_lists (bytes_of_string "/") false demo_box _ _) _).
  - by apply (bool_decide_unpack _).
  - intros st bs [= <- <-] _. exists 4%nat. by vm_compute.
  - intros _ s' H. exact H.
Defined.
