(* ===== verification/ShellRun.v ===== *)
(** * Running jobs (src/user/src/bin/sh.rs, init.rs)

    The shell's main loop, pipelines, redirections and the first process, as
    programs over the system calls, and what becomes of the descriptor table of
    the shell and of the children it starts. *)

From ITree Require Import Core.ITreeDefinition.
From S2P Require Import Prelude Ulib Stdio Tools Shell.

(** ** Operations *)

(** [cmd.argv[i]] *)
Definition arg_at (cmd : Command) (i : nat) : prog token :=
  match argv cmd !! i with Some a => mret a | None => panic end.

Definition apply_redirects (cmd : Command) : prog bool :=
  ok ← match c_input cmd with
       | Some path => _ ← close 0; r ← open path O_RDONLY; mret (r =? 0)
       | None => mret true
       end;
  if negb ok then mret false
  else
    match c_output cmd with
    | Some out =>
        _ ← close 1;
        let flags := if append out then Z.lor (Z.lor O_CREATE O_WRONLY) O_APPEND
                     else Z.lor (Z.lor O_CREATE O_WRONLY) O_TRUNC in
        r ← open (path out) flags;
        mret (r =? 1)
    | None => mret true
    end.

Definition exec_command {A} (cmd : Command) : prog A :=
  a0 ← arg_at cmd 0;
  let path := resolve_command a0 in
  ok ← apply_redirects cmd;
  if negb ok then _ ← println "[sh] redirect failed"; exit 1
  else
    r ← exec path (argv cmd);
    if r <? 0 then _ ← println "[sh] exec failed"; exit 1
    else exit 1.

Definition run_single (cmd : Command) : prog unit :=
  match argv cmd with
  | [] => mret tt
  | a0 :: _ =>
      if decide (a0 = bytes_of_string "cd") then
        if negb (Z.of_nat (length (argv cmd)) =? 2) then println "[sh] usage: cd DIR"
        else
          dir ← arg_at cmd 1;
          r ← chdir dir;
          if r <? 0 then println "[sh] cd failed" else mret tt
      else if decide (a0 = bytes_of_string "exit") then exit 0
      else
        pid ← fork;
        if pid <? 0 then println "[sh] fork failed"
        else
          _ ← (if pid =? 0 then exec_command cmd else mret tt);
          '(r, status) ← wait 0;
          if r <? 0 then _ ← println "[sh] wait failed"; exit 1 else mret tt
  end.

Fixpoint close_pipes (pipes : list (i32 * i32)) : prog unit :=
  match pipes with
  | [] => mret tt
  | (r, w) :: pipes => _ ← close r; _ ← close w; close_pipes pipes
  end.

Fixpoint wait_loop (n : nat) (status : i32) : prog unit :=
  match n with
  | O => mret tt
  | S n =>
      '(r, status) ← wait status;
      if r <? 0 then _ ← println "[sh] wait failed"; exit 1 else wait_loop n status
  end.

Definition wait_children (n : nat) : prog unit := wait_loop n 0.

Definition pipe_at (pipes : list (i32 * i32)) (i : nat) : prog (i32 * i32) :=
  match pipes !! i with Some p => mret p | None => panic end.

Definition setup_pipeline_fds (i : nat) (pipes : list (i32 * i32)) : prog unit :=
  _ ← (if (0 <? i)%nat then
         _ ← close 0;
         p ← pipe_at pipes (i - 1);
         r ← dup p.1;
         if negb (r =? 0) then _ ← println "[sh] pipe redirect failed"; exit 1 else mret tt
       else mret tt);
  _ ← (if (i <? length pipes)%nat then
         _ ← close 1;
         p ← pipe_at pipes i;
         r ← dup p.2;
         if negb (r =? 1) then _ ← println "[sh] pipe redirect failed"; exit 1 else mret tt
       else mret tt);
  close_pipes pipes.

(** [for _ in 0..cmds.len() - 1], with [n] iterations left. *)
Fixpoint make_pipes (n : nat) (pipes : list (i32 * i32)) : prog (option (list (i32 * i32))) :=
  match n with
  | O => mret (Some pipes)
  | S n =>
      '(r, fds) ← pipe (0, 0);
      if r <? 0 then
        _ ← close_pipes pipes;
        _ ← println "[sh] pipe failed";
        mret None
      else make_pipes n (pipes ++ [fds])
  end.

(** [for i in 0..cmds.len()], with the commands [rest] left to start. *)
Fixpoint start_commands (pipes : list (i32 * i32)) (rest : list Command) (i started : nat) : prog unit :=
  match rest with
  | [] => _ ← close_pipes pipes; wait_children started
  | cmd :: rest =>
      pid ← fork;
      if pid <? 0 then
        _ ← close_pipes pipes;
        _ ← wait_children started;
        println "[sh] fork failed"
      else
        _ ← (if pid =? 0 then _ ← setup_pipeline_fds i pipes; exec_command cmd else mret tt);
        start_commands pipes rest (S i) (S started)
  end.

Definition run_pipeline (cmds : list Command) : prog unit :=
  r ← make_pipes (Z.to_nat (wrap (Z.of_nat (length cmds) - 1))) [];
  match r with
  | None => mret tt
  | Some pipes => start_commands pipes cmds 0 0
  end.

(** ** The main loop *)

Definition MAXLEN : usize := 64.

Definition discard_step (buf : list u8) : prog (list u8 + unit) :=
  '(n, buf) ← read 0 buf;
  if n <=? 0 then mret (inr tt)
  else
    chunk ← slice_to buf n;
    if bool_decide (10 ∈ chunk) then mret (inr tt) else mret (inl buf).

Definition discard_line : prog unit := ITree.iter discard_step (replicate 16 0).

Definition sh_step (line : list u8) : prog (list u8 + Empty_set) :=
  _ ← print "# ";
  '(n, line) ← read 0 line;
  if n =? 0 then exit 0
  else if n <? 0 then _ ← println "[sh] read failed"; exit 1
  else
    last ← (if n =? Z.of_nat (length line) then
              match line !! Z.to_nat (n - 1) with Some b => mret (negb (b =? 10)) | None => panic end
            else mret false);
    if last : bool then
      _ ← println "[sh] path too long";
      _ ← discard_line;
      mret (inl line)
    else
      text ← slice_to line n;
      _ ← match parse_line text with
          | Prompt => mret tt
          | SyntaxError => println "[sh] syntax error"
          | Run (Single cmd) => run_single cmd
          | Run (Pipeline cmds) => run_pipeline cmds
          end;
      mret (inl line).

Definition sh_start : prog Empty_set := ITree.iter sh_step (replicate (Z.to_nat (MAXLEN + 1)) 0).

(** ** The first process (init.rs) *)

Definition SHELL : list u8 := bytes_of_string "/bin/sh".

(** The inner loop: children are reaped until the shell is. *)
Definition reap_step (shell_pid : isize) (_ : unit) : prog (unit + unit) :=
  '(pid, status) ← wait 0;
  if pid <? 0 then _ ← println "[init] wait failed"; mret (inr tt)
  else if pid =? shell_pid then mret (inr tt)
  else mret (inl tt).

Definition init_step (_ : unit) : prog (unit + Empty_set) :=
  shell_pid ← fork;
  if shell_pid <? 0 then _ ← println "[init] failed to fork shell"; exit 1
  else
    _ ← (if shell_pid =? 0 then
           _ ← exec SHELL [SHELL];
           _ ← println "[init] failed to exec shell";
           exit 1
         else mret tt);
    _ ← ITree.iter (reap_step shell_pid) tt;
    mret (inl tt).

Definition init_start : prog Empty_set := ITree.iter init_step tt.
