(* ===== verification/Jobs.v ===== *)
(** * What jobs do to descriptor tables

    The shell of [ShellRun], against the descriptor operations of the kernel:
    an interface for descriptors, which the kernel's [dup] and [close]
    implement, and one for processes on top of it. *)

From ITree Require Import Core.ITreeDefinition.
From S2P Require Import Prelude Descr Ulib Stdio Tools Shell ShellRun.

(** ** Descriptors *)

(** The caller's table as [Descr] describes it. *)
Class Fds (S : Type) {OS : Os S} := {
  table : S → list (option nat);
  fds_dup fd s n s' :
    os_step (Dup fd) s (inl n) s' → 0 ≤ fd → fd_step (Descr.Dup (Z.to_nat fd)) (table s) n (table s');
  fds_close fd s n s' :
    os_step (Close fd) s (inl n) s' → 0 ≤ fd → fd_step (Descr.Close (Z.to_nat fd)) (table s) n (table s');
  fds_alive {X} (e : sysE X) s o s' :
    os_step e s (inr o) s' → match e with Dup _ | Close _ => False | _ => True end;
}.

Lemma insert_None_id (l : list (option nat)) n : (∀ f, l !! n ≠ Some (Some f)) → <[n := None]> l = l.
Proof.
  intros Hn. destruct (l !! n) as [[f|]|] eqn:Hl; [by destruct (Hn f)|by apply list_insert_id|].
  apply list_insert_ge. by apply lookup_ge_None.
Qed.

Lemma close_step fd l n l' : fd_step (Descr.Close fd) l n l' → l' = <[fd := None]> l.
Proof. inversion 1; subst; [done|]. symmetry. by apply insert_None_id. Qed.

(** All descriptors below [k] are open. *)
Definition open_below (k : nat) (l : list (option nat)) : Prop := ∀ m, (m < k)%nat → ∃ f, l !! m = Some (Some f).

Lemma lowest_free_eq l k n :
  open_below k l → l !! k = Some None → lowest_free l n → n = k.
Proof.
  intros Hop Hk [Hn Hlow]. destruct (Nat.lt_trichotomy n k) as [Hlt|[?|Hlt]]; [|done|by destruct (Hlow k Hlt)].
  destruct (Hop n Hlt) as [f Hf]. congruence.
Qed.

Lemma open_below_insert k l n x : open_below k l → (k ≤ n)%nat → open_below k (<[n := x]> l).
Proof. intros Hop Hn m Hm. rewrite list_lookup_insert_ne by lia. by apply Hop. Qed.

Lemma dup_step l k fd a n l' :
  open_below k l → (k < length l)%nat → fd ≠ k → l !! fd = Some (Some a) →
  fd_step (Descr.Dup fd) (<[k := None]> l) n l' → n = Z.of_nat k ∧ l' = <[k := Some a]> l.
Proof.
  intros Hop Hk Hne Hfd Hstep.
  assert (<[k := None]> l !! fd = Some (Some a)) as Hfd' by (by rewrite list_lookup_insert_ne).
  assert (<[k := None]> l !! k = Some None) as Hk' by (by rewrite list_lookup_insert_eq).
  inversion Hstep as [? f n' ? Hf Hlow| ? f ? Hf Hfull| | ? ? Hbad|]; subst.
  - assert (n' = k) as -> by (by eapply lowest_free_eq; [apply open_below_insert|..]).
    rewrite Hfd' in Hf. injection Hf as <-. by rewrite list_insert_insert_eq.
  - by destruct (Hfull k).
  - by destruct (Hbad a).
Qed.

(** ** The children of a pipeline *)

Definition pipe_fds (pipes : list (i32 * i32)) : list nat := concat ((λ p, [Z.to_nat p.1; Z.to_nat p.2]) <$> pipes).

(** The table [l] holds the ends of [pipes], above the standard descriptors. *)
Definition plumbed (l : list (option nat)) (pipes : list (i32 * i32)) (ends : list (nat * nat)) : Prop :=
  Forall2 (λ p e, 2 ≤ p.1 ∧ 2 ≤ p.2 ∧ l !! Z.to_nat p.1 = Some (Some e.1) ∧ l !! Z.to_nat p.2 = Some (Some e.2)) pipes ends.

(** Child [i]: standard input is the reading end of pipe [i - 1], standard output
    the writing end of pipe [i], the pipes' own descriptors are closed and all
    else is as in [l]. *)
Definition wired (l : list (option nat)) (pipes : list (i32 * i32)) (ends : list (nat * nat)) (i : nat)
    (l' : list (option nat)) : Prop :=
  ∀ fd, l' !! fd =
    if decide (fd ∈ pipe_fds pipes) then Some None
    else if decide (fd = 0 ∧ 0 < i)%nat then Some (fst <$> ends !! (i - 1)%nat)
    else if decide (fd = 1 ∧ i < length pipes)%nat then Some (snd <$> ends !! i)
    else l !! fd.

Section fds.
Context {S : Type} `{OS : Os S} `{F : !Fds S}.
Implicit Types s : S.

Lemma runs_close fd s (Q : isize → S → Prop) E :
  0 ≤ fd → (∀ r s', os_step (Close fd) s (inl r) s' → table s' = <[Z.to_nat fd := None]> (table s) → Q r s') →
  runs Q E (close fd) s.
Proof.
  intros Hfd HQ. apply runs_trigger; [|by intros o s' []%fds_alive].
  intros n s' Hs. apply HQ; [done|]. by eapply close_step, fds_close.
Qed.

(** Closing every pipe descriptor; other properties survive if [close] keeps them. *)
Lemma runs_close_pipes (P : S → Prop) pipes s (Q : unit → S → Prop) E :
  (∀ fd s n s', os_step (Close fd) s (inl n) s' → P s → P s') → P s →
  Forall (λ p, 0 ≤ p.1 ∧ 0 ≤ p.2) pipes →
  (∀ s', P s' → (∀ fd, table s' !! fd = if decide (fd ∈ pipe_fds pipes ∧ fd < length (table s))%nat then Some None else table s !! fd) → Q tt s') →
  runs Q E (close_pipes pipes) s.
Proof.
  intros HP Hs Hp. revert s Hs. induction Hp as [|[r w] pipes [Hr Hw] Hp IH]; intros s Hs HQ; cbn [close_pipes].
  { apply runs_ret, HQ; [done|]. intros fd. rewrite decide_False; [done|]. intros [[]%not_elem_of_nil _]. }
  cbn [fst snd] in *. apply runs_bind, runs_close; [done|]. intros r1 s1 H1 Ht1.
  apply runs_bind, runs_close; [done|]. intros r2 s2 H2 Ht2. apply IH; [by eauto|]. intros s' HP' Ht. apply HQ; [done|].
  intros fd. rewrite Ht, Ht2, Ht1. change (pipe_fds ((r, w) :: pipes)) with (Z.to_nat r :: Z.to_nat w :: pipe_fds pipes).
  rewrite !length_insert. destruct (decide (fd < length (table s))%nat) as [Hl|Hl].
  - destruct (decide (fd ∈ pipe_fds pipes)) as [Hin|Hin]; [by rewrite !decide_True by (rewrite ?elem_of_cons; tauto)|].
    rewrite (decide_False (P := fd ∈ pipe_fds pipes ∧ _)) by tauto.
    destruct (decide (fd = Z.to_nat w)) as [->|Hnw].
    { rewrite decide_True by (rewrite !elem_of_cons; tauto). by rewrite list_lookup_insert_eq by (by rewrite length_insert). }
    rewrite list_lookup_insert_ne by done. destruct (decide (fd = Z.to_nat r)) as [->|Hnr].
    { rewrite decide_True by (rewrite !elem_of_cons; tauto). by rewrite list_lookup_insert_eq. }
    rewrite list_lookup_insert_ne by done. rewrite decide_False by (rewrite !elem_of_cons; tauto). done.
  - rewrite !decide_False by tauto. rewrite !lookup_ge_None_2; rewrite ?length_insert; (done || lia).
Qed.

(** [n]th pipe and its ends. *)
Lemma plumbed_lookup l pipes ends n p :
  plumbed l pipes ends → pipes !! n = Some p →
  ∃ e, ends !! n = Some e ∧ 2 ≤ p.1 ∧ 2 ≤ p.2 ∧ l !! Z.to_nat p.1 = Some (Some e.1) ∧ l !! Z.to_nat p.2 = Some (Some e.2).
Proof. intros Hp Hn. by eapply Forall2_lookup_l in Hn as (e & ? & ?); [exists e|done]. Qed.

Lemma pipe_fds_high l pipes ends fd : plumbed l pipes ends → fd ∈ pipe_fds pipes → (2 ≤ fd < length l)%nat.
Proof.
  unfold pipe_fds. induction 1 as [|p e pipes ends (Hr & Hw & Hlr & Hlw) Hp IH]; cbn [fmap list_fmap concat]; [by intros ?%not_elem_of_nil|].
  rewrite elem_of_app, !elem_of_cons. apply lookup_lt_Some in Hlr, Hlw. intros [[->|[->|[]%not_elem_of_nil]]|?]; [lia|lia|auto].
Qed.

(** Standard input and output of child [i], before the pipes are closed. *)
Definition std_in (ends : list (nat * nat)) (i : nat) (l : list (option nat)) : list (option nat) :=
  if (0 <? i)%nat then <[0%nat := fst <$> ends !! (i - 1)%nat]> l else l.
Definition std_out (n : nat) (ends : list (nat * nat)) (i : nat) (l : list (option nat)) : list (option nat) :=
  if (i <? n)%nat then <[1%nat := snd <$> ends !! i]> l else l.

Lemma wired_table l pipes ends i l' :
  plumbed l pipes ends → (2 ≤ length l)%nat →
  (∀ fd, l' !! fd = if decide (fd ∈ pipe_fds pipes ∧ fd < length l)%nat then Some None
                    else std_out (length pipes) ends i (std_in ends i l) !! fd) →
  wired l pipes ends i l'.
Proof.
  intros Hp Hl Ht fd. rewrite Ht. destruct (decide (fd ∈ pipe_fds pipes)) as [Hin|Hin].
  { pose proof (pipe_fds_high _ _ _ _ Hp Hin). by rewrite decide_True by (split; [done|lia]). }
  rewrite decide_False by tauto. unfold std_out, std_in.
  destruct (Nat.ltb_spec i (length pipes)), (Nat.ltb_spec 0 i), fd as [|[|fd]];
    rewrite ?decide_True, ?decide_False by lia; rewrite ?list_lookup_insert_ne by lia;
    rewrite ?list_lookup_insert_eq by (rewrite ?length_insert; lia); rewrite ?decide_True by lia; try done.
Qed.

(** Something that [close] and [dup] keep. *)
Context (K : S → Prop).
Context (Kclose : ∀ fd s n s', os_step (Close fd) s (inl n) s' → K s → K s').
Context (Kdup : ∀ fd s n s', os_step (Dup fd) s (inl n) s' → K s → K s').

(** Moving a pipe end to descriptor [k]. *)
Lemma runs_move_end k n pipes p fd a s (Q : unit → S → Prop) E :
  pipes !! n = Some p → open_below k (table s) → (k < length (table s))%nat →
  2 ≤ fd p → (k < 2)%nat → table s !! Z.to_nat (fd p) = Some (Some a) → K s →
  (∀ s', table s' = <[k := Some a]> (table s) → K s' → Q tt s') →
  runs Q E (_ ← close (Z.of_nat k); p ← pipe_at pipes n; r ← dup (fd p);
    if negb (r =? Z.of_nat k) then _ ← println "[sh] pipe redirect failed"; exit 1 else mret tt) s.
Proof.
  intros Hn Hop Hk Hfd Hk2 Ha HK HQ. apply runs_bind, runs_close; [lia|]. intros r s1 H1 Ht. rewrite Nat2Z.id in Ht.
  unfold pipe_at. rewrite Hn. apply runs_bind, runs_ret, runs_bind, runs_trigger; [|by intros o s' []%fds_alive].
  intros x s2 Hs. assert (K s2) as HK2 by eauto. apply fds_dup in Hs; [|lia]. rewrite Ht in Hs. apply (dup_step _ _ _ a) in Hs as [-> Ht2]; [|done|done|lia|done].
  rewrite Z.eqb_refl. by apply runs_ret, HQ.
Qed.

Section setup.
Context (l : list (option nat)) (pipes : list (i32 * i32)) (ends : list (nat * nat)) (i : nat).
Context (Hp : plumbed l pipes ends) (Hop : open_below 2 l) (Hi : (i ≤ length pipes)%nat).

Lemma plumbed_length : (2 ≤ length l)%nat.
Proof using Hop. clear -Hop. destruct (Hop 1%nat) as [f Hf]; [lia|]. apply lookup_lt_Some in Hf. lia. Qed.

Lemma setup_in s (Q : unit → S → Prop) E :
  table s = l → K s → (∀ s', table s' = std_in ends i l → K s' → Q tt s') →
  runs Q E (if (0 <? i)%nat then
      _ ← close 0; p ← pipe_at pipes (i - 1); r ← dup p.1;
      if negb (r =? 0) then _ ← println "[sh] pipe redirect failed"; exit 1 else mret tt
    else mret tt) s.
Proof using Hp Hop Hi Kclose Kdup.
  intros Ht HK HQ. unfold std_in in HQ. pose proof plumbed_length. destruct (Nat.ltb_spec 0 i) as [Hlt|]; [|by apply runs_ret, HQ].
  destruct (lookup_lt_is_Some_2 pipes (i - 1)) as [p Hn]; [lia|].
  destruct (plumbed_lookup _ _ _ _ _ Hp Hn) as (e & He & Hr & _ & Hlr & _). rewrite He in HQ. subst l.
  apply (runs_move_end 0 _ _ p fst e.1); [done| |lia|done|lia|done|done|done]. intros m; lia.
Qed.

Lemma setup_out s (Q : unit → S → Prop) E :
  table s = std_in ends i l → K s → (∀ s', table s' = std_out (length pipes) ends i (std_in ends i l) → K s' → Q tt s') →
  runs Q E (if (i <? length pipes)%nat then
      _ ← close 1; p ← pipe_at pipes i; r ← dup p.2;
      if negb (r =? 1) then _ ← println "[sh] pipe redirect failed"; exit 1 else mret tt
    else mret tt) s.
Proof using Hp Hop Hi Kclose Kdup.
  intros Ht HK HQ. unfold std_out in HQ. pose proof plumbed_length as Hlen.
  destruct (Nat.ltb_spec i (length pipes)) as [Hlt|]; [|by apply runs_ret, HQ].
  destruct (lookup_lt_is_Some_2 pipes i) as [p Hn]; [lia|].
  destruct (plumbed_lookup _ _ _ _ _ Hp Hn) as (e & He & _ & Hw & _ & Hlw). rewrite He, <-Ht in HQ.
  assert (∀ fd, (0 < fd)%nat → std_in ends i l !! fd = l !! fd) as Hstd.
  { intros fd Hfd. unfold std_in. destruct (0 <? i)%nat; [|done]. by rewrite list_lookup_insert_ne by lia. }
  apply (runs_move_end 1 _ _ p snd e.2); [done| |rewrite Ht|done|lia|rewrite Ht, Hstd by lia; done|done|done].
  - intros m Hm. assert (m = 0%nat) as -> by lia. rewrite Ht. unfold std_in. destruct (Nat.ltb_spec 0 i); [|apply Hop; lia].
    destruct (lookup_lt_is_Some_2 pipes (i - 1)) as [p' Hn']; [lia|].
    destruct (plumbed_lookup _ _ _ _ _ Hp Hn') as (e' & -> & _). exists e'.1. by rewrite list_lookup_insert_eq by lia.
  - unfold std_in. destruct (0 <? i)%nat; rewrite ?length_insert; lia.
Qed.

Lemma setup_pipeline_fds_spec s E :
  table s = l → K s → runs (λ _ s', wired l pipes ends i (table s') ∧ K s') E (setup_pipeline_fds i pipes) s.
Proof using Hp Hop Hi Kclose Kdup.
  intros Ht HK. unfold setup_pipeline_fds. apply runs_bind, setup_in; [done|done|]. intros s1 Ht1 HK1.
  apply runs_bind, setup_out; [done|done|]. intros s2 Ht2 HK2. apply (runs_close_pipes K); [done|done| |].
  - apply Forall_lookup. intros n p Hn. destruct (plumbed_lookup _ _ _ _ _ Hp Hn) as (e & _ & ? & ? & _). lia.
  - intros s3 HK3 Ht3. split; [|done]. apply wired_table; [done|apply plumbed_length|]. intros fd. rewrite Ht3, Ht2.
    replace (length (std_out _ _ _ _)) with (length l); [done|]. unfold std_out, std_in.
    by destruct (i <? length pipes)%nat, (0 <? i)%nat; rewrite ?length_insert.
Qed.
End setup.
End fds.

(** ** Processes

    The answers of the kernel that decide what becomes of a job. *)
Inductive event := EFork (n : Z) | EPipe (n : Z) | EOpen (n : Z) | EExec (n : Z).

Definition event_of {X} (e : sysE X) : X → list event :=
  match e in sysE X return X → list event with
  | Fork => λ n, [EFork n]
  | Pipe => λ r, [EPipe r.1]
  | Open _ _ => λ n, [EOpen n]
  | Exec _ _ => λ n, [EExec n]
  | _ => λ _, []
  end.

(** [self] is the process that runs, [trace] the answers it has got (a child starts
    with those of its parent), [children] counts the children not yet waited for,
    and [origin] tells from which path, and how, an open file was opened. *)
Class Procs (S : Type) {OS : Os S} {F : Fds S} := {
  self : S → nat;
  trace : S → list event;
  children : S → nat;
  origin : S → nat → option (list u8 * i32);
  pr_end {X} (e : sysE X) s o s' :
    os_step e s (inr o) s' →
    match e with
    | Exit code => o = Exited code ∧ s' = s
    | Exec path argv => o = Execed path argv ∧ s' = s
    | _ => False
    end;
  pr_table {X} (e : sysE X) s x s' :
    os_step e s (inl x) s' →
    match e with Fork | Wait | Write _ _ | Exec _ _ | Chdir _ => table s' = table s | _ => True end;
  pr_children {X} (e : sysE X) s x s' :
    os_step e s (inl x) s' → match e with Fork | Wait => True | _ => children s' = children s end;
  pr_self {X} (e : sysE X) s x s' :
    os_step e s (inl x) s' → match e with Fork => True | _ => self s' = self s end;
  pr_trace {X} (e : sysE X) s x s' : os_step e s (inl x) s' → trace s' = trace s ++ event_of e x;
  pr_origin {X} (e : sysE X) s x s' f :
    os_step e s (inl x) s' → Some f ∈ table s → Some f ∈ table s' → origin s' f = origin s f;
  pr_fork s n s' :
    os_step Fork s (inl n) s' →
    n = 0 ∧ self s' ≠ self s ∨
    self s' = self s ∧ (n < 0 ∧ children s' = children s ∨ 0 < n ∧ children s' = Datatypes.S (children s));
  pr_wait s n st s' :
    os_step Wait s (inl (n, st)) s' → n < 0 ∧ children s = 0%nat ∨ 0 < n ∧ children s = Datatypes.S (children s');
  pr_pipe s n fds s' :
    os_step Pipe s (inl (n, fds)) s' →
    n < 0 ∧ table s' = table s ∨
    n = 0 ∧ ∃ a b f g, fds = Some (Z.of_nat a, Z.of_nat b) ∧ lowest_free (table s) a ∧
      lowest_free (<[a := Some f]> (table s)) b ∧ table s' = <[b := Some g]> (<[a := Some f]> (table s));
  pr_open path flags s n s' :
    os_step (Open path flags) s (inl n) s' →
    n < 0 ∧ table s' = table s ∨
    ∃ a f, n = Z.of_nat a ∧ lowest_free (table s) a ∧ table s' = <[a := Some f]> (table s) ∧ origin s' f = Some (path, flags);
  pr_write fd buf s n s' : os_step (Write fd buf) s (inl n) s' → n ≤ Z.of_nat (length buf);
  pr_exec path argv s n s' : os_step (Exec path argv) s (inl n) s' → n < 0;
}.

Definition redirect_flags (o : OutputRedirect) : i32 := if append o then 0xa01 else 0x601.

Section procs.
Context {S : Type} `{OS : Os S} `{F : !Fds S} `{P : !Procs S}.
Implicit Types s : S.

(** The table after the redirections of [cmd], applied to [l]. *)
Definition redirected (cmd : Command) (l : list (option nat)) s' : Prop :=
  (∀ fd, (2 ≤ fd)%nat → table s' !! fd = l !! fd) ∧
  match c_input cmd with
  | None => table s' !! 0%nat = l !! 0%nat
  | Some p => ∃ f, table s' !! 0%nat = Some (Some f) ∧ origin s' f = Some (p, O_RDONLY)
  end ∧
  match c_output cmd with
  | None => table s' !! 1%nat = l !! 1%nat
  | Some out => ∃ f, table s' !! 1%nat = Some (Some f) ∧ origin s' f = Some (path out, redirect_flags out)
  end.

(** The process goes on as it was. *)
Definition same s s' : Prop := table s' = table s ∧ children s' = children s ∧ self s' = self s.

(** A process goes on, after some answers more. *)
Definition goes s (evs : list event) s' : Prop := self s' = self s ∧ trace s' = trace s ++ evs.

Lemma goes_refl s : goes s [] s.
Proof. split; [done|]. by rewrite app_nil_r. Qed.

Lemma goes_trans s evs s1 evs' s2 : goes s evs s1 → goes s1 evs' s2 → goes s (evs ++ evs') s2.
Proof. intros [A1 A2] [B1 B2]. split; [congruence|]. by rewrite B2, A2, app_assoc. Qed.

Lemma goes_step {X} (e : sysE X) s x s' :
  os_step e s (inl x) s' → match e with Fork => False | _ => True end → goes s (event_of e x) s'.
Proof. intros Hs He. pose proof (pr_self _ _ _ _ Hs). split; [by destruct e|by apply pr_trace]. Qed.

(** What one call adds when it is none of those that count. *)
Lemma goes_quiet {X} (e : sysE X) s evs s1 x s2 :
  goes s evs s1 → os_step e s1 (inl x) s2 → match e with Fork | Pipe | Open _ _ | Exec _ _ => False | _ => True end → goes s evs s2.
Proof.
  intros Ha Hs He. rewrite <-(app_nil_r evs). eapply goes_trans; [done|].
  assert (event_of e x = []) as <- by (by destruct e). eapply goes_step; [done|]. by destruct e.
Qed.

(** Nothing else: table, children and answers. *)
Definition quiet s s' : Prop := same s s' ∧ goes s [] s'.

Lemma quiet_trans s s1 s2 : quiet s s1 → quiet s1 s2 → quiet s s2.
Proof. intros [(A1 & A2 & A3) A4] [(B1 & B2 & B3) B4]. split; [split_and!; congruence|]. exact (goes_trans _ [] _ [] _ A4 B4). Qed.

(** Why a process that was to become a command did not. *)
Definition refused (evs : list event) : Prop := ∃ n, n < 0 ∧ (EOpen n ∈ evs ∨ EExec n ∈ evs).
Definition has_nul (cmd : Command) : Prop :=
  (∃ a, a ∈ argv cmd ∧ 0 ∈ a) ∨ (∃ p, c_input cmd = Some p ∧ 0 ∈ p) ∨ (∃ o, c_output cmd = Some o ∧ 0 ∈ path o).

(** How many children a job has started, and what can stop it. *)
Definition is_started (e : event) : bool := match e with EFork n => 0 <? n | _ => false end.
Definition started (evs : list event) : nat := length (filter (λ e, is_started e = true) evs).
Definition fork_failed (evs : list event) : Prop := ∃ n, n < 0 ∧ EFork n ∈ evs.
Definition pipe_failed (evs : list event) : Prop := ∃ n, n < 0 ∧ EPipe n ∈ evs.

Lemma runs_write_any fd buf s (Q : isize → S → Prop) E :
  (∀ r s', quiet s s' → Q r s') → runs Q E (write_all fd buf) s.
Proof.
  intros HQ. apply (runs_iter (λ n b s', n = length b ∧ quiet s s') _ _ _ (length buf)).
  2: { split; [done|]. split; [by split_and!|apply goes_refl]. }
  intros n b s1 [-> Hq]. destruct b as [|x b]; cbn [write_step]; [by apply runs_ret, HQ|]. set (c := x :: b).
  apply runs_bind, runs_trigger; [|by intros o s' []%pr_end]. intros n s2 Hs.
  assert (quiet s s2) as Hq2.
  { eapply quiet_trans; [exact Hq|]. split; [split_and!; [exact (pr_table _ _ _ _ Hs)|exact (pr_children _ _ _ _ Hs)|exact (pr_self _ _ _ _ Hs)]|].
    by eapply goes_quiet; [apply goes_refl| |]. }
  destruct (Z.ltb_spec n 0); [by apply runs_ret, HQ|]. destruct (Z.eqb_spec n 0); [by apply runs_ret, HQ|].
  apply pr_write in Hs. apply runs_bind, runs_slice_from; [done|]. apply runs_ret. exists (length (drop (Z.to_nat n) c)).
  split; [|done]. rewrite length_drop. subst c. cbn [length] in *. lia.
Qed.

Lemma runs_println_any msg s (Q : unit → S → Prop) E : (∀ s', quiet s s' → Q tt s') → runs Q E (println msg) s.
Proof.
  intros HQ. unfold println. cbn [write_fmt]. apply runs_bind. unfold write_str. apply runs_bind, runs_write_any.
  intros r s' Hs. apply runs_ret. destruct (negb (r <? 0)); by apply runs_ret, HQ.
Qed.

Lemma runs_leave {R} code s (Q : R → S → Prop) (E : ending → S → Prop) : E (Exited code) s → runs Q E (exit code) s.
Proof. intros HE. apply runs_exit. by intros o s' [-> ->]%pr_end. Qed.

(** [println!(...); exit(1)] *)
Lemma runs_fail {R} msg s (Q : R → S → Prop) (E : ending → S → Prop) :
  (∀ s', quiet s s' → E (Exited 1) s') → runs Q E (_ ← println msg; exit 1) s.
Proof. intros HE. apply runs_bind, runs_println_any. intros s' Hq. by apply runs_leave, HE. Qed.

(** Closing [k] and opening a file in its place. *)
Lemma runs_reopen k path flags s (Q : bool → S → Prop) E :
  open_below k (table s) → (k < length (table s))%nat →
  (∀ s' evs, goes s evs s' → refused evs ∨ 0 ∈ path → Q false s') →
  (∀ s' evs f, goes s evs s' → table s' = <[k := Some f]> (table s) → origin s' f = Some (path, flags) →
     (∀ n g, n ≠ k → table s !! n = Some (Some g) → origin s' g = origin s g) → Q true s') →
  runs Q E (_ ← close (Z.of_nat k); r ← open path flags; mret (r =? Z.of_nat k)) s.
Proof.
  intros Hop Hk Hfalse HQ. apply runs_bind, runs_close; [lia|]. intros r s1 H1 Ht1. rewrite Nat2Z.id in Ht1.
  pose proof (goes_quiet _ _ _ _ _ _ (goes_refl s) H1 I) as G1.
  apply runs_bind. unfold open, with_path, cstring. case_bool_decide as H0.
  { apply runs_ret, runs_ret. rewrite (proj2 (Z.eqb_neq _ _)) by lia. eapply Hfalse; [exact G1|by right]. }
  apply runs_trigger; [|by intros o s' []%pr_end]. intros n s2 H2. apply runs_ret.
  pose proof (goes_trans _ _ _ _ _ G1 (goes_step _ _ _ _ H2 I)) as G2. cbn [event_of app] in G2.
  destruct (pr_open _ _ _ _ _ H2) as [[Hn _]|(a & f & -> & Hlow & Ht2 & Hf)].
  { rewrite (proj2 (Z.eqb_neq _ _)) by lia. eapply Hfalse; [exact G2|]. left. exists n. split; [done|]. left. by left. }
  assert (a = k) as ->.
  { rewrite Ht1 in Hlow. eapply lowest_free_eq; [|by rewrite list_lookup_insert_eq|done]. by apply open_below_insert. }
  rewrite Ht1, list_insert_insert_eq in Ht2. rewrite Z.eqb_refl. eapply HQ; [exact G2|done|done|]. intros m g Hm Hg.
  assert (Some g ∈ table s1) as Hin1 by (rewrite Ht1; eapply list_elem_of_lookup_2; by rewrite list_lookup_insert_ne).
  assert (Some g ∈ table s2) as Hin2 by (rewrite Ht2; eapply list_elem_of_lookup_2; by rewrite list_lookup_insert_ne).
  rewrite (pr_origin _ _ _ _ _ H2 Hin1 Hin2). eapply pr_origin; [done|by eapply list_elem_of_lookup_2|done].
Qed.

Lemma open_below_len k (l : list (option nat)) : open_below k l → (k ≤ length l)%nat.
Proof.
  intros Hop. destruct (decide (k ≤ length l)%nat) as [|Hn]; [done|].
  destruct (Hop (length l)) as [f Hf]; [lia|]. apply lookup_lt_Some in Hf. lia.
Qed.

Lemma refused_app evs evs' : refused evs → refused (evs ++ evs').
Proof. intros (n & Hn & H). exists n. split; [done|]. rewrite !elem_of_app. tauto. Qed.

Lemma refused_app_r evs evs' : refused evs' → refused (evs ++ evs').
Proof. intros (n & Hn & H). exists n. split; [done|]. rewrite !elem_of_app. tauto. Qed.

(** Standard input is in place; now standard output. *)
Lemma redirect_out cmd l s s1 evs E :
  goes s evs s1 → (∀ fd, (1 ≤ fd)%nat → table s1 !! fd = l !! fd) → (2 ≤ length (table s1))%nat →
  (∃ f, table s1 !! 0%nat = Some (Some f)) →
  match c_input cmd with
  | None => table s1 !! 0%nat = l !! 0%nat
  | Some p => ∃ f, table s1 !! 0%nat = Some (Some f) ∧ origin s1 f = Some (p, O_RDONLY)
  end →
  runs (λ ok s', ∃ evs, goes s evs s' ∧ if ok : bool then redirected cmd l s' else refused evs ∨ has_nul cmd) E
    (match c_output cmd with
     | Some out =>
         _ ← close 1;
         let flags := if append out then Z.lor (Z.lor O_CREATE O_WRONLY) O_APPEND
                      else Z.lor (Z.lor O_CREATE O_WRONLY) O_TRUNC in
         r ← open (path out) flags;
         mret (r =? 1)
     | None => mret true
     end) s1.
Proof.
  intros Hg Hfd Hl1 [f0 Hf0] Hin. unfold redirected. destruct (c_output cmd) as [out|] eqn:Ho.
  2: { apply runs_ret. exists evs. split; [done|]. split_and!; [intros; apply Hfd; lia|done|apply Hfd; lia]. }
  apply (runs_reopen 1).
  - intros m Hm. assert (m = 0%nat) as -> by lia. by exists f0.
  - lia.
  - intros s2 evs2 Hg2 Hwhy. exists (evs ++ evs2). split; [by eapply goes_trans|].
    destruct Hwhy as [?|?]; [left; by apply refused_app_r|right]. right; right. by exists out.
  - intros s2 evs2 f Hg2 Ht Hf Horig. exists (evs ++ evs2). split; [by eapply goes_trans|]. rewrite Ht. split_and!.
    + intros fd ?. rewrite list_lookup_insert_ne by lia. apply Hfd. lia.
    + rewrite list_lookup_insert_ne by lia. destruct (c_input cmd) as [p|]; [|done].
      destruct Hin as (f' & Hf' & Hor). exists f'. split; [done|]. rewrite <-Hor. by eapply (Horig 0%nat).
    + exists f. rewrite list_lookup_insert_eq by lia. split; [done|]. rewrite Hf. unfold redirect_flags. by destruct (append out).
Qed.

Lemma apply_redirects_spec cmd s E :
  open_below 2 (table s) →
  runs (λ ok s', ∃ evs, goes s evs s' ∧ if ok : bool then redirected cmd (table s) s' else refused evs ∨ has_nul cmd) E
    (apply_redirects cmd) s.
Proof.
  intros Hop. pose proof (open_below_len _ _ Hop) as Hlen. unfold apply_redirects. apply runs_bind.
  destruct (c_input cmd) as [p|] eqn:Hi.
  - apply (runs_reopen 0); [intros m; lia|lia| |].
    + intros s1 evs Hg Hwhy. apply runs_ret. exists evs. split; [done|].
      destruct Hwhy; [by left|right]. right; left. by exists p.
    + intros s1 evs f Hg Ht Hf _. cbn [negb]. eapply redirect_out; [exact Hg| | | |].
      * intros fd ?. by rewrite Ht, list_lookup_insert_ne by lia.
      * rewrite Ht, length_insert. lia.
      * exists f. by rewrite Ht, list_lookup_insert_eq by lia.
      * rewrite Hi. exists f. by rewrite Ht, list_lookup_insert_eq by lia.
  - apply runs_ret. cbn [negb]. eapply redirect_out; [apply goes_refl|done|lia|apply Hop; lia|by rewrite Hi].
Qed.

(** The process that runs a command ends: replaced by it, or with status 1 when an
    [open] or the [exec] was refused or a word of the command holds a NUL. *)
Lemma exec_command_spec {A} cmd a0 args s (Q : A → S → Prop) (E : ending → S → Prop) :
  argv cmd = a0 :: args → open_below 2 (table s) →
  (∀ s' evs, goes s evs s' → refused evs ∨ has_nul cmd → E (Exited 1) s') →
  (∀ s' evs, goes s evs s' → redirected cmd (table s) s' → E (Execed (resolve_command a0) (argv cmd)) s') →
  runs Q E (exec_command cmd) s.
Proof.
  intros Hargs Hop Hfail HE. unfold exec_command, arg_at. rewrite Hargs. cbn [lookup list_lookup].
  apply runs_bind, runs_ret, runs_bind. eapply runs_post; [by apply apply_redirects_spec|].
  intros ok s1 (evs & Hg & Hr).
  assert (∀ evs1 s2 msg, goes s evs1 s2 → refused evs1 ∨ has_nul cmd → runs Q E (_ ← println msg; exit 1) s2) as Hout.
  { intros evs1 s2 msg Hg2 Hwhy. apply runs_fail. intros s3 [_ Hg3]. eapply Hfail; [exact (goes_trans _ _ _ _ _ Hg2 Hg3)|].
    rewrite app_nil_r. done. }
  destruct ok; cbn [negb]; [|by eapply Hout]. rewrite <-Hargs.
  assert (∀ x, cstring x = None → 0 ∈ x) as Hnul by (intros x; unfold cstring; by case_bool_decide).
  apply runs_bind. unfold exec. destruct (cstring (resolve_command a0)) as [p|] eqn:Hp.
  2: { apply runs_ret. eapply Hout; [exact Hg|]. right. left. exists a0. rewrite Hargs. split; [by left|].
       apply Hnul in Hp. unfold resolve_command in Hp. case_bool_decide; [done|]. apply elem_of_app in Hp as [Hp|?]; [|done].
       exfalso. revert Hp. change (0 ∉ bytes_of_string "/bin/"). by apply (bool_decide_unpack _). }
  destruct (mapM cstring (argv cmd)) as [as'|] eqn:Has.
  2: { apply runs_ret. eapply Hout; [exact Hg|]. right. left. apply mapM_None in Has. apply Exists_exists in Has as (x & Hx & Hx0).
       exists x. split; [done|]. by apply Hnul. }
  apply runs_trigger.
  - intros n s2 Hn. pose proof (goes_trans _ _ _ _ _ Hg (goes_step _ _ _ _ Hn I)) as Hg2. cbn [event_of] in Hg2.
    apply pr_exec in Hn. rewrite (proj2 (Z.ltb_lt _ _)) by done. eapply Hout; [exact Hg2|]. left. apply refused_app_r.
    exists n. split; [done|]. right. by left.
  - intros o s2 Ho. apply pr_end in Ho as [-> ->].
    assert (∀ x y, cstring x = Some y → y = x) as Hc by (intros x y; unfold cstring; case_bool_decide; congruence).
    apply Hc in Hp as ->. assert (as' = argv cmd) as ->; [|by eapply HE].
    apply mapM_Some in Has. symmetry. apply list_eq_Forall2. eapply Forall2_impl; [exact Has|]. intros x y Hxy. symmetry. by apply Hc.
Qed.

Lemma wait_children_spec n s E :
  (n ≤ children s)%nat →
  runs (λ _ s', table s' = table s ∧ children s' = (children s - n)%nat ∧ goes s [] s') E (wait_children n) s.
Proof.
  unfold wait_children. generalize 0 at 1. revert s. induction n as [|n IH]; intros s st Hn; cbn [wait_loop].
  { apply runs_ret. split_and!; [done|lia|apply goes_refl]. }
  apply runs_bind. unfold wait. apply runs_bind, runs_trigger; [|by intros o s' []%pr_end]. intros [r st'] s1 Hs. apply runs_ret.
  pose proof (pr_table _ _ _ _ Hs) as Ht. pose proof (goes_step _ _ _ _ Hs I) as Hg. cbn [event_of] in Hg.
  destruct (pr_wait _ _ _ _ Hs) as [[_ Hc]|[Hr Hc]]; [lia|].
  rewrite (proj2 (Z.ltb_ge _ _)) by lia. eapply runs_post; [apply IH; lia|]. intros _ s2 (Ht2 & Hc2 & Hg2).
  split_and!; [congruence|lia|exact (goes_trans _ _ _ _ _ Hg Hg2)].
Qed.

(** The shell's table [l0] with the pipes made so far. *)
Record piped (l0 l : list (option nat)) (pipes : list (i32 * i32)) (ends : list (nat * nat)) : Prop := {
  pd_plumbed : plumbed l pipes ends;
  pd_open : open_below 2 l;
  pd_rest fd : l0 !! fd = if decide (fd ∈ pipe_fds pipes) then Some None else l !! fd;
}.

Lemma pipe_fds_snoc pipes r w : pipe_fds (pipes ++ [(r, w)]) = pipe_fds pipes ++ [Z.to_nat r; Z.to_nat w].
Proof. unfold pipe_fds. by rewrite fmap_app, concat_app. Qed.

Lemma plumbed_open l pipes ends fd : plumbed l pipes ends → fd ∈ pipe_fds pipes → ∃ f, l !! fd = Some (Some f).
Proof.
  unfold pipe_fds. induction 1 as [|p e pipes ends (_ & _ & Hlr & Hlw) Hp IH]; cbn [fmap list_fmap concat]; [by intros ?%not_elem_of_nil|].
  rewrite elem_of_app, !elem_of_cons. intros [[->|[->|[]%not_elem_of_nil]]|?]; eauto.
Qed.

Lemma plumbed_insert l pipes ends n x :
  plumbed l pipes ends → l !! n = Some None → plumbed (<[n := x]> l) pipes ends.
Proof.
  intros Hp Hn. eapply Forall2_impl; [exact Hp|]. intros p e (? & ? & Hr & Hw).
  split_and!; try done; rewrite list_lookup_insert_ne; congruence.
Qed.

Lemma free_high l n : open_below 2 l → l !! n = Some None → (2 ≤ n)%nat.
Proof. intros Hop Hn. destruct (decide (n < 2)%nat) as [Hlt|]; [|lia]. destruct (Hop n Hlt). congruence. Qed.

Lemma piped_add l0 l pipes ends a b f g :
  piped l0 l pipes ends → lowest_free l a → lowest_free (<[a := Some f]> l) b →
  piped l0 (<[b := Some g]> (<[a := Some f]> l)) (pipes ++ [(Z.of_nat a, Z.of_nat b)]) (ends ++ [(f, g)]).
Proof.
  intros [Hp Hop Hrest] [Ha _] [Hb _]. pose proof (lookup_lt_Some _ _ _ Ha) as Hla.
  assert (b ≠ a) as Hne by (intros ->; rewrite list_lookup_insert_eq in Hb; [congruence|done]).
  pose proof Hb as Hb'. rewrite list_lookup_insert_ne in Hb' by done. pose proof (lookup_lt_Some _ _ _ Hb') as Hlb.
  pose proof (free_high _ _ Hop Ha). pose proof (free_high _ _ Hop Hb'). split.
  - apply Forall2_app; [by apply plumbed_insert, Hb; apply plumbed_insert|]. constructor; [|constructor]. cbn [fst snd].
    rewrite !Nat2Z.id, list_lookup_insert_ne, !list_lookup_insert_eq by (rewrite ?length_insert; lia). split_and!; (done || lia).
  - apply open_below_insert; [|lia]. by apply open_below_insert; [|lia].
  - intros fd. rewrite pipe_fds_snoc, !Nat2Z.id, Hrest.
    assert (∀ n, l !! n = Some None → n ∉ pipe_fds pipes) as Hnot.
    { intros n Hn Hin. destruct (plumbed_open _ _ _ _ Hp Hin). congruence. }
    destruct (decide (fd = a)) as [->|Hfa]; [|destruct (decide (fd = b)) as [->|Hfb]].
    + rewrite decide_False by (by apply Hnot). rewrite decide_True; [done|]. rewrite elem_of_app, !elem_of_cons. tauto.
    + rewrite decide_False by (by apply Hnot). rewrite decide_True; [done|]. rewrite elem_of_app, !elem_of_cons. tauto.
    + rewrite !list_lookup_insert_ne by done.
      assert (fd ∈ pipe_fds pipes ++ [a; b] ↔ fd ∈ pipe_fds pipes) as Hiff.
      { rewrite elem_of_app, !elem_of_cons. split; [|tauto]. by intros [?|[?|[?|?%not_elem_of_nil]]]. }
      by rewrite (decide_ext _ _ _ _ Hiff).
Qed.

(** Closing the pipes restores the shell's table. *)
Lemma runs_close_piped l0 pipes ends s (Q : unit → S → Prop) E :
  piped l0 (table s) pipes ends →
  (∀ s', table s' = l0 → children s' = children s → goes s [] s' → Q tt s') →
  runs Q E (close_pipes pipes) s.
Proof.
  intros [Hp Hop Hrest] HQ. apply (runs_close_pipes (λ s', children s' = children s ∧ goes s [] s')).
  - intros fd s1 n s2 Hs [Hc Hg]. split; [by rewrite (pr_children _ _ _ _ Hs)|by eapply goes_quiet].
  - split; [done|apply goes_refl].
  - apply Forall_lookup. intros n p Hn. destruct (plumbed_lookup _ _ _ _ _ Hp Hn) as (e & _ & ? & ? & _). lia.
  - intros s' [Hc Hg] Ht. apply HQ; [|done|done]. apply list_eq. intros fd. rewrite Ht, Hrest.
    destruct (decide (fd ∈ pipe_fds pipes)) as [Hin|Hin]; [|by rewrite decide_False by tauto].
    rewrite decide_True; [done|]. split; [done|]. by apply (pipe_fds_high _ _ _ _ Hp Hin).
Qed.

(** Only pipes are asked for. *)
Definition only_pipes (evs : list event) : Prop := Forall (λ e, ∃ n, e = EPipe n) evs.

Lemma make_pipes_spec l0 n pipes ends s E :
  piped l0 (table s) pipes ends →
  runs (λ r s', children s' = children s ∧ ∃ evs, goes s evs s' ∧ only_pipes evs ∧
    match r with
    | None => table s' = l0 ∧ pipe_failed evs
    | Some pipes' => ∃ ends', piped l0 (table s') pipes' ends' ∧ length pipes' = (length pipes + n)%nat
    end) E (make_pipes n pipes) s.
Proof.
  revert pipes ends s. induction n as [|n IH]; intros pipes ends s Hp; cbn [make_pipes].
  { apply runs_ret. split; [done|]. exists []. split_and!; [apply goes_refl|constructor|]. exists ends. split; [done|lia]. }
  apply runs_bind. unfold pipe. apply runs_bind, runs_trigger; [|by intros o s' []%pr_end]. intros [r fds] s1 Hs. apply runs_ret.
  pose proof (pr_children _ _ _ _ Hs) as Hc. cbn in Hc. pose proof (goes_step _ _ _ _ Hs I) as Hg. cbn [event_of fst] in Hg.
  assert (only_pipes [EPipe r]) as Ho by (constructor; [by exists r|constructor]).
  destruct (pr_pipe _ _ _ _ Hs) as [[Hr Ht]|(-> & a & b & f & g & -> & Ha & Hb & Ht)].
  - rewrite (proj2 (Z.ltb_lt _ _)) by done. apply runs_bind. eapply runs_close_piped; [by rewrite Ht|]. intros s2 Ht2 Hc2 Hg2.
    apply runs_bind, runs_println_any. intros s3 [(Ht3 & Hc3 & _) Hg3]. apply runs_ret. split; [congruence|].
    exists [EPipe r]. split_and!; [exact (goes_trans _ _ _ _ _ Hg (goes_trans _ _ _ _ _ Hg2 Hg3))|done|congruence|].
    exists r. split; [done|by left].
  - change (0 <? 0) with false. cbn match. eapply runs_post; [eapply IH; rewrite Ht; by apply piped_add|].
    intros r s2 (Hc2 & evs & Hg2 & Ho2 & Hr). split; [congruence|]. exists ([EPipe 0] ++ evs).
    split_and!; [by eapply goes_trans|by apply Forall_app|]. destruct r as [pipes'|].
    + destruct Hr as (ends' & Hp' & Hl). exists ends'. split; [done|]. rewrite Hl, length_app. cbn. lia.
    + destruct Hr as (Ht2 & m & Hm & Hin). split; [done|]. exists m. split; [done|]. apply elem_of_app. by right.
Qed.

Lemma wired_open l pipes ends i l1 :
  plumbed l pipes ends → open_below 2 l → (i ≤ length pipes)%nat → wired l pipes ends i l1 → open_below 2 l1.
Proof.
  intros Hp Hop Hi Hw m Hm. rewrite Hw.
  rewrite decide_False by (intros Hin; pose proof (pipe_fds_high _ _ _ _ Hp Hin); lia).
  pose proof (Forall2_length _ _ _ Hp) as Hl.
  destruct (decide (m = 0 ∧ 0 < i)%nat).
  { destruct (lookup_lt_is_Some_2 ends (i - 1)) as [e ->]; [lia|]. by exists e.1. }
  destruct (decide (m = 1 ∧ i < length pipes)%nat); [|by apply Hop].
  destruct (lookup_lt_is_Some_2 ends i) as [e ->]; [lia|]. by exists e.2.
Qed.

(** A process other than the shell ends: the one for command [i] of the pipeline has
    become that command, with its descriptors in place, or has left with status 1
    because an [open] or the [exec] was refused or a word holds a NUL. *)
Definition child_end (s0 : S) (cmds : list Command) (l : list (option nat)) (pipes : list (i32 * i32)) (ends : list (nat * nat))
    (o : ending) s' : Prop :=
  self s' ≠ self s0 ∧ ∃ i cmd evs, cmds !! i = Some cmd ∧ trace s' = trace s0 ++ evs ∧
    (o = Exited 1 ∧ (refused evs ∨ has_nul cmd) ∨
     ∃ a0 args l1, argv cmd = a0 :: args ∧ o = Execed (resolve_command a0) (argv cmd) ∧
       wired l pipes ends i l1 ∧ redirected cmd l1 s').

(** The shell has started all commands, or a [fork] has failed. *)
Definition all_started (n : nat) (evs : list event) : Prop := started evs = n ∨ fork_failed evs.

Lemma started_app evs evs' : started (evs ++ evs') = (started evs + started evs')%nat.
Proof. unfold started. by rewrite filter_app, length_app. Qed.

(** One child more, in the shell. *)
Lemma started_more evs pid : 0 < pid → started (evs ++ [EFork pid]) = Datatypes.S (started evs).
Proof. intros Hp. rewrite started_app. unfold started at 2. cbn. rewrite decide_True by (by apply Z.ltb_lt). cbn. lia. Qed.

(** The child of a pipeline, from [fork] to its end. *)
Lemma pipeline_child cmds l pipes ends i cmd s0 evs s E :
  Forall (λ cmd, argv cmd ≠ []) cmds → cmds !! i = Some cmd → (i ≤ length pipes)%nat → plumbed l pipes ends → open_below 2 l →
  table s = l → self s ≠ self s0 → trace s = trace s0 ++ evs →
  (∀ o s', child_end s0 cmds l pipes ends o s' → E o s') →
  ∀ Q : unit → S → Prop, runs Q E (_ ← setup_pipeline_fds i pipes; exec_command cmd) s.
Proof.
  intros Hargs Hcmd Hi Hp Hop Ht Hself Htr HE Q. apply runs_bind.
  eapply runs_post; [apply (setup_pipeline_fds_spec (goes s [])) with (l := l) (ends := ends); try done|].
  - intros fd s1 n s2 Hs Hg. by eapply goes_quiet.
  - intros fd s1 n s2 Hs Hg. by eapply goes_quiet.
  - apply goes_refl.
  - intros [] s2 [Hw [Hse2 Htr2]]. rewrite app_nil_r in Htr2.
    pose proof (Forall_lookup_1 _ _ _ _ Hargs Hcmd) as Hne. destruct (argv cmd) as [|a0 args] eqn:Ha; [done|].
    assert (∀ s3 evs3, goes s2 evs3 s3 → self s3 ≠ self s0 ∧ trace s3 = trace s0 ++ evs ++ evs3) as Hgo.
    { intros s3 evs3 [G1 G2]. split; [congruence|]. by rewrite G2, Htr2, Htr, app_assoc. }
    apply (exec_command_spec cmd a0 args); [done|by eapply wired_open| |].
    + intros s3 evs3 Hg Hwhy. destruct (Hgo _ _ Hg) as [G1 G2]. apply HE. split; [done|]. exists i, cmd, (evs ++ evs3).
      split_and!; [done|done|]. left. split; [done|]. destruct Hwhy; [left; by apply refused_app_r|by right].
    + intros s3 evs3 Hg Hr. destruct (Hgo _ _ Hg) as [G1 G2]. apply HE. split; [done|]. exists i, cmd, (evs ++ evs3).
      split_and!; [done|done|]. right. rewrite Ha. by exists a0, args, (table s2).
Qed.

Lemma start_commands_spec cmds l0 l pipes ends c s0 :
  Forall (λ cmd, argv cmd ≠ []) cmds → length cmds = Datatypes.S (length pipes) → piped l0 l pipes ends →
  ∀ rest pre s evs, cmds = pre ++ rest → table s = l → children s = (c + length pre)%nat → goes s0 evs s → started evs = length pre →
  runs (λ _ s', table s' = l0 ∧ children s' = c ∧ ∃ evs, goes s0 evs s' ∧ all_started (length cmds) evs)
    (child_end s0 cmds l pipes ends) (start_commands pipes rest (length pre) (length pre)) s.
Proof.
  intros Hargs Hlen Hp. induction rest as [|cmd rest IH]; intros pre s evs Hcmds Ht Hc Hg Hst; cbn [start_commands].
  { apply runs_bind. eapply runs_close_piped; [by rewrite Ht|]. intros s1 Ht1 Hc1 Hg1.
    eapply runs_post; [apply wait_children_spec; lia|]. intros _ s2 (Ht2 & Hc2 & Hg2). split_and!; [congruence|lia|].
    exists evs. split; [|left; by rewrite Hst, Hcmds, app_nil_r]. rewrite <-(app_nil_r evs). eapply goes_trans; [exact Hg|].
    exact (goes_trans _ _ _ _ _ Hg1 Hg2). }
  apply runs_bind, runs_trigger; [|by intros o s' []%pr_end]. intros pid s1 Hs.
  pose proof (pr_table _ _ _ _ Hs) as Ht1. cbn in Ht1. rewrite Ht in Ht1. pose proof (pr_fork _ _ _ Hs) as Hf.
  pose proof (pr_trace _ _ _ _ Hs) as Htr. cbn [event_of] in Htr. destruct Hg as [Hg1 Hg2].
  rewrite Hg2, <-app_assoc in Htr.
  assert (cmds !! length pre = Some cmd) as Hcmd by (rewrite Hcmds; by apply list_lookup_middle).
  assert (length pre ≤ length pipes)%nat as Hpre by (apply lookup_lt_Some in Hcmd; lia).
  destruct (Z.ltb_spec pid 0) as [Hneg|Hpos].
  { destruct Hf as [[? _]|[Hse [[_ Hc1]|[? _]]]]; [lia| |lia]. apply runs_bind. eapply runs_close_piped; [by rewrite Ht1|]. intros s2 Ht2 Hc2 G2.
    apply runs_bind. eapply runs_post; [apply wait_children_spec; lia|]. intros _ s3 (Ht3 & Hc3 & G3).
    apply runs_println_any. intros s4 [(Ht4 & Hc4 & _) G4]. split_and!; [congruence|lia|]. exists (evs ++ [EFork pid]). split.
    - rewrite <-(app_nil_r (evs ++ _)). apply (goes_trans s0 _ s1); [by split; [rewrite Hse|]|].
      exact (goes_trans _ _ _ _ _ G2 (goes_trans _ _ _ _ _ G3 G4)).
    - right. exists pid. split; [done|]. apply elem_of_app. right. by left. }
  apply runs_bind. destruct (Z.eqb_spec pid 0) as [->|Hne].
  - destruct Hf as [[_ Hse]|[_ [[? _]|[? _]]]]; [|lia|lia]. destruct Hp as [Hp Hop _].
    eapply (pipeline_child cmds l pipes ends (length pre) cmd s0); try done. congruence.
  - destruct Hf as [[? _]|[Hse [[? _]|[_ Hc1]]]]; [lia|lia|]. apply runs_ret.
    replace (Datatypes.S (length pre)) with (length (pre ++ [cmd])) by (rewrite length_app; cbn; lia).
    apply (IH (pre ++ [cmd]) s1 (evs ++ [EFork pid])); [by rewrite <-app_assoc|done|rewrite length_app; cbn; lia|split; [congruence|done]|].
    rewrite started_more, Hst, length_app by lia. cbn. lia.
Qed.

Lemma piped_nil l : open_below 2 l → piped l l [] [].
Proof. intros Hop. split; [constructor|done|]. intros fd. rewrite decide_False; [done|apply not_elem_of_nil]. Qed.

(** How a process that the shell starts for a job ends. *)
Definition job_end (s0 : S) (cmds : list Command) (o : ending) s' : Prop :=
  self s' ≠ self s0 ∧ ∃ cmd evs, cmd ∈ cmds ∧ trace s' = trace s0 ++ evs ∧
    (o = Exited 1 ∧ (refused evs ∨ has_nul cmd) ∨
     ∃ a0 args, argv cmd = a0 :: args ∧ o = Execed (resolve_command a0) (argv cmd)).

Lemma started_pipes evs : only_pipes evs → started evs = 0%nat.
Proof. induction 1 as [|e evs [n ->] _ IH]; [done|]. exact IH. Qed.

Lemma run_pipeline_spec cmds s :
  Forall (λ cmd, argv cmd ≠ []) cmds → cmds ≠ [] → Z.of_nat (length cmds) < 2 ^ 64 → open_below 2 (table s) →
  runs (λ _ s', same s s' ∧ ∃ evs, goes s evs s' ∧ (all_started (length cmds) evs ∨ pipe_failed evs)) (job_end s cmds) (run_pipeline cmds) s.
Proof.
  intros Hargs Hne Hlen Hop. unfold run_pipeline. apply runs_bind.
  assert (length cmds ≠ 0%nat) as Hn by (by destruct cmds).
  replace (Z.to_nat (wrap (Z.of_nat (length cmds) - 1))) with (length cmds - 1)%nat
    by (unfold wrap; rewrite Z.mod_small by lia; lia).
  eapply runs_post; [eapply make_pipes_spec, piped_nil, Hop|]. intros [pipes|] s1 (Hc & evs & Hg & Ho & H).
  2: { apply runs_ret. destruct H as [Ht Hf]. split; [split_and!; [done|done|apply Hg]|]. exists evs. split; [done|by right]. }
  destruct H as (ends & Hp & Hl). cbn [length] in Hl.
  eapply runs_mono; [apply (start_commands_spec cmds (table s) (table s1) pipes ends (children s) s Hargs ltac:(lia) Hp cmds [] s1 evs);
    [done|done|cbn; lia|done|by apply started_pipes]| |].
  - intros _ s2 (Ht & Hc2 & evs2 & Hg2 & Hall). split; [split_and!; [done|done|apply Hg2]|]. exists evs2. split; [done|by left].
  - intros o s2 (Hse & i & cmd & evs2 & Hi & Htr & Hend). split; [done|]. exists cmd, evs2.
    split_and!; [by eapply list_elem_of_lookup_2|done|]. destruct Hend as [?|(a0 & args & l1 & ? & ? & _)]; [by left|right; eauto].
Qed.

(** The commands of the shell itself. *)
Definition builtin (a0 : list u8) : Prop := a0 = bytes_of_string "cd" ∨ a0 = bytes_of_string "exit".

Lemma run_cd_spec cmd s (E : ending → S → Prop) :
  runs (λ _ s', same s s' ∧ goes s [] s') E
    (if negb (Z.of_nat (length (argv cmd)) =? 2) then println "[sh] usage: cd DIR"
     else dir ← arg_at cmd 1; r ← chdir dir; if r <? 0 then println "[sh] cd failed" else mret tt) s.
Proof.
  destruct (Z.eqb_spec (Z.of_nat (length (argv cmd))) 2) as [Hl|_]; cbn [negb]; [|by apply runs_println_any].
  unfold arg_at. destruct (lookup_lt_is_Some_2 (argv cmd) 1) as [d ->]; [lia|]. apply runs_bind, runs_ret, runs_bind.
  assert (∀ n s', quiet s s' → runs (λ _ s', same s s' ∧ goes s [] s') E (if n <? 0 then println "[sh] cd failed" else mret tt) s') as Hend.
  { intros n s' Hq. destruct (n <? 0); [|by apply runs_ret]. apply runs_println_any. intros s2 Hq2. by eapply quiet_trans. }
  unfold chdir, with_path. destruct (cstring d) as [p|]; [|apply runs_ret, Hend; split; [by split_and!|apply goes_refl]].
  apply runs_trigger; [|by intros o s' []%pr_end]. intros n s' Hs. apply Hend.
  split; [split_and!; [exact (pr_table _ _ _ _ Hs)|exact (pr_children _ _ _ _ Hs)|exact (pr_self _ _ _ _ Hs)]|].
  exact (goes_step _ _ _ _ Hs I).
Qed.

Lemma run_single_spec cmd a0 args s :
  argv cmd = a0 :: args → open_below 2 (table s) →
  runs (λ _ s', same s s' ∧ ∃ evs, goes s evs s' ∧ (builtin a0 ∨ all_started 1 evs))
    (λ o s', a0 = bytes_of_string "exit" ∧ o = Exited 0 ∧ s' = s ∨ job_end s [cmd] o s') (run_single cmd) s.
Proof.
  intros Ha Hop. unfold run_single. rewrite Ha at 1. destruct (decide (a0 = bytes_of_string "cd")) as [Hcd|_].
  { eapply runs_post; [apply run_cd_spec|]. intros _ s' [? ?]. split; [done|]. exists []. split; [done|]. left. by left. }
  destruct (decide (a0 = bytes_of_string "exit")) as [->|_]; [apply runs_leave; by left|].
  apply runs_bind, runs_trigger; [|by intros o s' []%pr_end]. intros pid s1 Hs.
  pose proof (pr_table _ _ _ _ Hs) as Ht1. cbn in Ht1. pose proof (pr_fork _ _ _ Hs) as Hf.
  pose proof (pr_trace _ _ _ _ Hs) as Htr. cbn [event_of] in Htr.
  destruct (Z.ltb_spec pid 0) as [Hneg|Hpos].
  { destruct Hf as [[? _]|[Hse [[_ Hc1]|[? _]]]]; [lia| |lia]. apply runs_println_any. intros s2 [(Ht2 & Hc2 & Hs2) G2].
    split; [split_and!; congruence|]. exists [EFork pid]. split; [exact (goes_trans _ _ _ _ _ (conj Hse Htr) G2)|].
    right. right. exists pid. split; [done|by left]. }
  apply runs_bind. destruct (Z.eqb_spec pid 0) as [->|Hne].
  - destruct Hf as [[_ Hse]|[_ [[? _]|[? _]]]]; [|lia|lia].
    assert (∀ s2 evs, goes s1 evs s2 → self s2 ≠ self s ∧ trace s2 = trace s ++ [EFork 0] ++ evs) as Hgo.
    { intros s2 evs [G1 G2]. split; [congruence|]. by rewrite G2, Htr, app_assoc. }
    apply (exec_command_spec cmd a0 args); [done|by rewrite Ht1| |].
    + intros s2 evs Hg Hwhy. destruct (Hgo _ _ Hg) as [G1 G2]. right. split; [done|]. exists cmd, ([EFork 0] ++ evs).
      split_and!; [by left|done|]. left. split; [done|]. destruct Hwhy; [left; by apply refused_app_r|by right].
    + intros s2 evs Hg Hr. destruct (Hgo _ _ Hg) as [G1 G2]. right. split; [done|]. exists cmd, ([EFork 0] ++ evs).
      split_and!; [by left|done|]. right. by exists a0, args.
  - destruct Hf as [[? _]|[Hse [[? _]|[_ Hc1]]]]; [lia|lia|]. apply runs_ret. unfold wait. apply runs_bind, runs_bind, runs_trigger; [|by intros o s' []%pr_end].
    intros [r st] s2 Hs2. apply runs_ret. pose proof (pr_table _ _ _ _ Hs2) as Ht2. cbn in Ht2. pose proof (goes_step _ _ _ _ Hs2 I) as G2.
    destruct (pr_wait _ _ _ _ Hs2) as [[_ Hc]|[Hr Hc]]; [lia|]. rewrite (proj2 (Z.ltb_ge _ _)) by lia. apply runs_ret.
    split; [split_and!; [congruence|lia|destruct G2; congruence]|]. exists [EFork pid].
    split; [exact (goes_trans _ _ _ _ _ (conj Hse Htr) G2)|]. right. left. exact (started_more [] pid ltac:(lia)).
Qed.
End procs.

(** ** Theorems *)

Section theorems.
Context {S : Type} `{OS : Os S} `{F : !Fds S} `{P : !Procs S}.
Implicit Types s : S.


End theorems.
