(* ===== verification/JobsKernel.v ===== *)
(** * Jobs on the kernel

    The kernel's [dup] and [close] implement the interface [Fds], so the children
    of a pipeline are plumbed as [Jobs] says when the calls of the shell are
    answered by the kernel of [Syscall]; and a small system on which the other
    theorems of [Jobs] can be run. *)

From ITree Require Import Core.ITreeDefinition.
From S2P Require Import Prelude Kalloc Vm PageTable UserMem Kernel Sched File Proc ProcMem Syscall Descr Ulib Stdio Tools Shell ShellRun Jobs.

(** ** The kernel as the shell sees it *)

(** Process [i] runs, and descriptors, files and pipe ends agree. *)
Definition caller (i : nat) (s : kernel) : Prop := fds_ok s ∧ cpu_proc s = Some i ∧ is_Some (procs s !! i).

Definition kstate (i : nat) : Type := {s : kernel | caller i s}.

Definition ktable {i} (s : kstate i) : list (option nat) := default [] (fd_tables (`s) !! i).

(** A call is answered by the kernel's handler.  Other processes may run before
    the caller continues: the state it continues in is only known to have the
    table the call left.  Nothing is known of calls other than [dup] and
    [close]. *)
Definition kernel_call (i : nat) (X : Type) (e : sysE X) (s : kstate i) (r : X + ending) (s' : kstate i) : Prop :=
  match e in sysE X return X + ending → Prop with
  | Dup fd => λ r, ∃ v s1, r = inl v ∧ sys_dup (mkTargs fd 0 0 Ulib.SYS_DUP) (`s) = Ok (SReturn v, s1) ∧
                fd_tables s1 !! i = fd_tables (`s') !! i
  | Close fd => λ r, ∃ v s1, r = inl v ∧ sys_close (mkTargs fd 0 0 Ulib.SYS_CLOSE) (`s) = Ok (SReturn v, s1) ∧
                fd_tables s1 !! i = fd_tables (`s') !! i
  | _ => λ _, True
  end r.

#[export] Instance kernel_os i : Os (kstate i) := kernel_call i.

Lemma ktable_ofile i (s : kstate i) : ∃ p, procs (`s) !! i = Some p ∧ ktable s = ofile p.
Proof.
  destruct s as (s & Hok & Hi & p & Hp). exists p. split; [done|]. unfold ktable. cbn. by rewrite (tables_lookup _ _ _ Hp).
Qed.

Lemma ktable_after i (s s' : kstate i) s1 l :
  fd_tables s1 = <[i := l]> (fd_tables (`s)) → fd_tables s1 !! i = fd_tables (`s') !! i → ktable s' = l.
Proof.
  intros Ht Hs. unfold ktable. rewrite <-Hs, Ht. rewrite list_lookup_insert_eq; [done|].
  destruct s as (s & Hok & Hi & p & Hp). cbn. eapply lookup_lt_Some. by apply tables_lookup.
Qed.

#[export] Program Instance kernel_fds i : Fds (kstate i) := {| table := ktable |}.
Next Obligation.
  intros i fd s n s' (v & s1 & [= ->] & Hcall & Hs) Hfd. destruct (ktable_ofile i s) as (p & Hp & ->).
  pose proof (sys_dup_spec (`s) i p (mkTargs fd 0 0 Ulib.SYS_DUP)) as Hspec. unfold wp in Hspec. rewrite Hcall in Hspec.
  destruct (proj2_sig s) as (Hok & Hi & _). destruct (Hspec Hok Hi Hp Hfd) as (v' & l' & [= <-] & Hstep & Ht & _).
  by rewrite (ktable_after i s s' s1 l').
Qed.
Next Obligation.
  intros i fd s n s' (v & s1 & [= ->] & Hcall & Hs) Hfd. destruct (ktable_ofile i s) as (p & Hp & ->).
  pose proof (sys_close_spec (`s) i p (mkTargs fd 0 0 Ulib.SYS_CLOSE)) as Hspec. unfold wp in Hspec. rewrite Hcall in Hspec.
  destruct (proj2_sig s) as (Hok & Hi & _). destruct (Hspec Hok Hi Hp Hfd) as (v' & l' & [= <-] & Hstep & Ht & _).
  by rewrite (ktable_after i s s' s1 l').
Qed.
Next Obligation. intros i X e s o s' Hs. destruct e; try done; by destruct Hs as (v & s1 & [=] & _). Qed.

(** C27: in the kernel, the child of a pipeline gets its ends.  Let process [i]
    hold the pipes' ends above its standard descriptors.  When its [close] and
    [dup] calls are handled by the kernel, [setup_pipeline_fds n] never fails or
    exits, and afterwards descriptor 0 is the reading end of pipe [n - 1] (if
    there is one), descriptor 1 the writing end of pipe [n] (if there is one),
    every descriptor of the pipes themselves is closed, and all others are as
    they were. *)
Theorem kernel_wires_child i (s : kstate i) n pipes ends :
  plumbed (ktable s) pipes ends → open_below 2 (ktable s) → (n ≤ length pipes)%nat →
  runs (λ _ s', wired (ktable s) pipes ends n (ktable s')) (λ _ _, False) (setup_pipeline_fds n pipes) s.
Proof.
  intros Hp Hop Hn. eapply runs_post.
  - by apply (setup_pipeline_fds_spec (F := kernel_fds i) (λ _, True) ltac:(done) ltac:(done) (ktable s) pipes ends n Hp Hop Hn).
  - by intros [] s' [Hw _].
Qed.

(** The kernel of [Descr], after a call of [pipe]. *)
Local Abbreviation pipe_call := (sys_pipe (mkTargs 16 0 0 Syscall.SYS_PIPE)).
Local Abbreviation piped_kernel := (after pipe_call fd_kernel).

Lemma piped_kernel_ok : fds_ok piped_kernel.
Proof.
  apply (after_wp pipe_call fd_kernel _ fds_ok
    (sys_pipe_spec (ram_end 4) demo_end_pos 1 _ demo_tree [] 16 ltac:(done) fd_kernel (mkTargs 16 0 0 Syscall.SYS_PIPE)
      fd_kernel_ok ltac:(done) ltac:(done) ltac:(done) ltac:(done) demo_space ltac:(done))).
  by intros v s' [? _].
Qed.

Lemma piped_kernel_running : bool_decide (cpu_proc piped_kernel = Some 1%nat ∧ is_Some (procs piped_kernel !! 1%nat)) = true.
Proof. by vm_compute. Qed.

Lemma piped_kernel_caller : caller 1 piped_kernel.
Proof. split; [apply piped_kernel_ok|]. exact (bool_decide_eq_true_1 _ piped_kernel_running). Qed.

Definition piped_caller : kstate 1 := exist _ piped_kernel piped_kernel_caller.

(** The second process of a two-stage pipeline. *)
Lemma kernel_wires_child_witness :
  ktable piped_caller !! 2%nat = Some (Some 1%nat) ∧ ktable piped_caller !! 3%nat = Some (Some 2%nat) ∧
  runs (λ _ s', wired (ktable piped_caller) [(2, 3)] [(1, 2)]%nat 1 (ktable s')) (λ _ _, False)
    (setup_pipeline_fds 1 [(2, 3)]) piped_caller.
Proof.
  split_and!; [by vm_compute|by vm_compute|]. apply (kernel_wires_child 1 piped_caller 1 [(2, 3)] [(1, 2)]%nat).
  - constructor; [|constructor]. split_and!; (by vm_compute || done).
  - intros [|[|m]] Hm; [exists 0%nat; by vm_compute|exists 0%nat; by vm_compute|lia].
  - cbn. lia.
Defined.

(** ** A system to run jobs on

    [fork], [pipe], [open] and [exec] may fail at any time, and [fork] returns in
    the parent or in the child. *)

Record tiny := mkTiny {
  d_table : list (option nat); d_kids : nat; d_next : nat; d_origin : gmap nat (list u8 * i32); d_self : nat; d_trace : list event;
}.

Definition with_kids (k : nat) (s : tiny) : tiny := mkTiny (d_table s) k (d_next s) (d_origin s) (d_self s) (d_trace s).
Definition with_table (l : list (option nat)) (s : tiny) : tiny := mkTiny l (d_kids s) (d_next s) (d_origin s) (d_self s) (d_trace s).

Definition tiny_open (path : list u8) (flags : i32) (s : tiny) : list ((Z + ending) * tiny) :=
  match free_fd (d_table s) with
  | Some n =>
      if decide (Some (d_next s) ∈ d_table s) then []
      else [(inl (Z.of_nat n), mkTiny (<[n := Some (d_next s)]> (d_table s)) (d_kids s) (S (d_next s))
                                 (<[d_next s := (path, flags)]> (d_origin s)) (d_self s) (d_trace s))]
  | None => []
  end.

Definition tiny_pipe (s : tiny) : list ((Z * option (Z * Z) + ending) * tiny) :=
  match free_fd (d_table s) with
  | Some a =>
      let l := <[a := Some (d_next s)]> (d_table s) in
      match free_fd l with
      | Some b => [(inl (0, Some (Z.of_nat a, Z.of_nat b)),
                    mkTiny (<[b := Some (S (d_next s))]> l) (d_kids s) (S (S (d_next s))) (d_origin s) (d_self s) (d_trace s))]
      | None => []
      end
  | None => []
  end.

Definition tiny_dup (fd : i32) (s : tiny) : (Z + ending) * tiny :=
  match d_table s !! Z.to_nat fd with
  | Some (Some f) =>
      match free_fd (d_table s) with
      | Some n => (inl (Z.of_nat n), with_table (<[n := Some f]> (d_table s)) s)
      | None => (inl (-1), s)
      end
  | _ => (inl (-1), s)
  end.

Definition tiny_close (fd : i32) (s : tiny) : (Z + ending) * tiny :=
  match d_table s !! Z.to_nat fd with
  | Some (Some _) => (inl 0, with_table (<[Z.to_nat fd := None]> (d_table s)) s)
  | _ => (inl (-1), s)
  end.

Definition tiny_call (X : Type) (e : sysE X) (s : tiny) : list ((X + ending) * tiny) :=
  match e in sysE X return list ((X + ending) * tiny) with
  | Fork => [(inl (-1), s); (inl 0, with_kids 0 s); (inl 7, with_kids (S (d_kids s)) s)]
  | Wait => match d_kids s with O => [(inl (-1, None), s)] | S k => [(inl (7, Some 0), with_kids k s)] end
  | Dup fd => [tiny_dup fd s]
  | Close fd => [tiny_close fd s]
  | Pipe => (inl (-1, None), s) :: tiny_pipe s
  | Open path flags => (inl (-1), s) :: tiny_open path flags s
  | Write _ buf => [(inl (Z.of_nat (length buf)), s)]
  | Exec path argv => [(inl (-1), s); (inr (Execed path argv), s)]
  | Exit code => [(inr (Exited code), s)]
  | Read _ _ => [(inl (0, []), s)]
  | Fstat _ => [(inl (-1, None), s)]
  | Chdir _ | Getpid | Sbrk _ | Mkdir _ => [(inl (-1), s)]
  end.

(** Answers are recorded, and the child of a [fork] is another process. *)
Definition in_child {X} (e : sysE X) : X → bool := match e in sysE X return X → bool with Fork => λ n, n =? 0 | _ => λ _, false end.
Definition recorded {X} (e : sysE X) (r : X + ending) (s : tiny) : tiny :=
  match r with
  | inl x => mkTiny (d_table s) (d_kids s) (d_next s) (d_origin s)
               (if in_child e x then S (d_self s) else d_self s) (d_trace s ++ event_of e x)
  | inr _ => s
  end.

#[export] Instance tiny_os : Os tiny := λ X e s r s', ∃ s1, (r, s1) ∈ tiny_call X e s ∧ s' = recorded e r s1.

Ltac tiny_step H := let s1 := fresh "s1" in let E := fresh "E" in
  unfold os_step, tiny_os in H; destruct H as (s1 & H & E); cbn [tiny_call] in H.

Ltac tiny_cases H := tiny_step H; rewrite ?elem_of_cons in H;
  repeat match type of H with _ ∨ _ => destruct H as [H|H] end;
  try (by apply not_elem_of_nil in H); try (injection H as ? ?; subst); try discriminate.

Lemma tiny_dup_step fd s n s' :
  tiny_dup fd s = (inl n, s') → fd_step (Descr.Dup (Z.to_nat fd)) (d_table s) n (d_table s').
Proof.
  unfold tiny_dup. pose proof (free_fd_spec (d_table s)) as Hfree.
  destruct (d_table s !! Z.to_nat fd) as [[f|]|] eqn:Hf; cycle 1.
  { intros [= <- <-]. apply step_dup_bad. congruence. }
  { intros [= <- <-]. apply step_dup_bad. congruence. }
  destruct (free_fd (d_table s)) as [k|]; intros [= <- <-]; [by econstructor|by eapply step_dup_full].
Qed.

Lemma tiny_close_step fd s n s' :
  tiny_close fd s = (inl n, s') → fd_step (Descr.Close (Z.to_nat fd)) (d_table s) n (d_table s').
Proof.
  unfold tiny_close. destruct (d_table s !! Z.to_nat fd) as [[f|]|] eqn:Hf; intros [= <- <-];
    [by econstructor|apply step_close_bad; congruence..].
Qed.

#[export] Program Instance tiny_fds : Fds tiny := {| table := d_table |}.
Next Obligation. intros fd s n s' H _. tiny_cases H. subst. by apply (tiny_dup_step _ _ _ s1). Qed.
Next Obligation. intros fd s n s' H _. tiny_cases H. subst. by apply (tiny_close_step _ _ _ s1). Qed.
Next Obligation.
  intros X e s o s' H. destruct e; try done; tiny_cases H; unfold tiny_dup, tiny_close in *; by repeat case_match.
Qed.

Lemma tiny_open_step path flags s r s' :
  (r, s') ∈ tiny_open path flags s →
  ∃ a, r = inl (Z.of_nat a) ∧ lowest_free (d_table s) a ∧ d_table s' = <[a := Some (d_next s)]> (d_table s) ∧
    d_origin s' = <[d_next s := (path, flags)]> (d_origin s) ∧ d_kids s' = d_kids s ∧ (Some (d_next s) ∉ d_table s) ∧
    d_self s' = d_self s ∧ d_trace s' = d_trace s.
Proof.
  unfold tiny_open. pose proof (free_fd_spec (d_table s)) as Hfree. destruct (free_fd (d_table s)) as [a|]; [|by intros ?%not_elem_of_nil].
  destruct (decide _); [by intros ?%not_elem_of_nil|]. intros [= -> ->]%list_elem_of_singleton. by exists a.
Qed.

Lemma tiny_pipe_step s r s' :
  (r, s') ∈ tiny_pipe s →
  ∃ a b, r = inl (0, Some (Z.of_nat a, Z.of_nat b)) ∧ lowest_free (d_table s) a ∧
    lowest_free (<[a := Some (d_next s)]> (d_table s)) b ∧
    d_table s' = <[b := Some (S (d_next s))]> (<[a := Some (d_next s)]> (d_table s)) ∧
    d_origin s' = d_origin s ∧ d_kids s' = d_kids s ∧ d_self s' = d_self s ∧ d_trace s' = d_trace s.
Proof.
  unfold tiny_pipe. pose proof (free_fd_spec (d_table s)) as Hfree. destruct (free_fd (d_table s)) as [a|]; [|by intros ?%not_elem_of_nil].
  pose proof (free_fd_spec (<[a := Some (d_next s)]> (d_table s))) as Hfree'. destruct (free_fd _) as [b|]; [|by intros ?%not_elem_of_nil].
  intros [= -> ->]%list_elem_of_singleton. by exists a, b.
Qed.

Lemma tiny_rest fd s : d_kids (tiny_dup fd s).2 = d_kids s ∧ d_origin (tiny_dup fd s).2 = d_origin s ∧
  d_self (tiny_dup fd s).2 = d_self s ∧ d_trace (tiny_dup fd s).2 = d_trace s ∧
  d_kids (tiny_close fd s).2 = d_kids s ∧ d_origin (tiny_close fd s).2 = d_origin s ∧
  d_self (tiny_close fd s).2 = d_self s ∧ d_trace (tiny_close fd s).2 = d_trace s.
Proof. unfold tiny_dup, tiny_close. by repeat case_match. Qed.

(** What a call leaves: the children, the process, and the origins of the files in
    use. *)
Lemma tiny_frame {X} (e : sysE X) s r s1 :
  (r, s1) ∈ tiny_call X e s →
  match e with Fork | Wait => True | _ => d_kids s1 = d_kids s end ∧ d_self s1 = d_self s ∧ d_trace s1 = d_trace s ∧
  ∀ f, Some f ∈ d_table s → d_origin s1 !! f = d_origin s !! f.
Proof.
  intros H. destruct e; cbn [tiny_call] in H; rewrite ?elem_of_cons in H;
    repeat match type of H with _ ∨ _ => destruct H as [H|H] end; try (by apply not_elem_of_nil in H);
    try (injection H as ? ?; subst; done).
  - by destruct (d_kids s); apply list_elem_of_singleton in H as [= -> ->].
  - apply tiny_pipe_step in H as (a & b & _ & _ & _ & _ & -> & -> & -> & ->). done.
  - destruct (tiny_rest fd s) as (H1 & H2 & H3 & H4 & _). rewrite <-H in *. cbn in *. by rewrite H1, H2, H3, H4.
  - apply tiny_open_step in H as (a & _ & _ & _ & -> & -> & Hnew & -> & ->). split_and!; [done..|].
    intros f Hf. by rewrite lookup_insert_ne by (intros <-; done).
  - destruct (tiny_rest fd s) as (_ & _ & _ & _ & H1 & H2 & H3 & H4). rewrite <-H in *. cbn in *. by rewrite H1, H2, H3, H4.
Qed.

#[export] Program Instance tiny_procs : Procs tiny :=
  {| self := d_self; trace := d_trace; children := d_kids; origin s f := d_origin s !! f |}.
Next Obligation.
  intros X e s o s' H. destruct e; try (by tiny_cases H).
  - tiny_step H. by destruct (d_kids s); apply list_elem_of_singleton in H.
  - tiny_cases H. by apply tiny_pipe_step in H as (a & b & [=] & _).
  - tiny_cases H. unfold tiny_dup in H. by repeat case_match.
  - tiny_cases H. by apply tiny_open_step in H as (a & [=] & _).
  - tiny_cases H. unfold tiny_close in H. by repeat case_match.
Qed.
Next Obligation.
  intros X e s x s' H. destruct e; try done; try (by tiny_cases H; subst).
  tiny_step H. by destruct (d_kids s); apply list_elem_of_singleton in H as [= -> ->]; subst.
Qed.
Next Obligation. intros X e s x s' (s1 & H & ->). apply tiny_frame in H as [H _]. by destruct e. Qed.
Next Obligation. intros X e s x s' (s1 & H & ->). apply tiny_frame in H as (_ & H & _). by destruct e. Qed.
Next Obligation. intros X e s x s' (s1 & H & ->). apply tiny_frame in H as (_ & _ & H & _). cbn. by rewrite H. Qed.
Next Obligation. intros X e s x s' f (s1 & H & ->) Hf _. apply tiny_frame in H as (_ & _ & _ & H). by apply H. Qed.
Next Obligation.
  intros s n s' H. tiny_cases H; subst; [right; split; [done|by left]|left; split; [done|]|right; split; [done|by right]].
  cbn. lia.
Qed.
Next Obligation.
  intros s n st s' H. tiny_step H. destruct (d_kids s) eqn:Hk; apply list_elem_of_singleton in H as [= -> -> ->]; subst; [left|right]; done.
Qed.
Next Obligation.
  intros s n fds s' H. tiny_cases H; subst; [by left|right]. apply tiny_pipe_step in H as (a & b & [= -> ->] & Ha & Hb & Ht & _).
  split; [done|]. by exists a, b, (d_next s), (S (d_next s)).
Qed.
Next Obligation.
  intros path flags s n s' H. tiny_cases H; subst; [by left|right]. apply tiny_open_step in H as (a & [= ->] & Ha & Ht & Ho & _).
  exists a, (d_next s). split_and!; try done. cbn. rewrite Ho. apply lookup_insert_eq.
Qed.
Next Obligation. intros fd buf s n s' H. by tiny_cases H; subst. Qed.
Next Obligation. intros path argv s n s' H. by tiny_cases H; subst. Qed.

(** A shell with three descriptors, and [cat < in | wc >> out]. *)
Definition demo_shell : tiny := mkTiny ([Some 0; Some 1; Some 2]%nat ++ replicate 13 None) 0 3 ∅ 1 [].

Definition demo_plumbed : tiny :=
  mkTiny ([Some 0; Some 1; Some 2; Some 3; Some 4]%nat ++ replicate 11 None) 0 5 ∅ 1 [EPipe 0].

Definition demo_cmds : list Command := commands demo_job.

Lemma demo_cmds_ok : Forall (λ cmd, argv cmd ≠ []) demo_cmds.
Proof. by repeat constructor. Qed.

Lemma demo_open : open_below 2 (d_table demo_shell).
Proof. intros [|[|m]] Hm; [by exists 0%nat|by exists 1%nat|lia]. Qed.

Lemma demo_piped : piped (d_table demo_shell) (d_table demo_plumbed) [(3, 4)] [(3, 4)]%nat.
Proof.
  apply (piped_add (d_table demo_shell) (d_table demo_shell) [] [] 3 4 3 4); [by apply piped_nil, demo_open|..]; (split; [done|]; intros m Hm);
    do 5 (destruct m as [|m]; [done || lia|]); lia.
Qed.


